(* ===== verification/_CoqProject ===== *)
-Q . S2P
Prelude.v
Bytes.v
Utf8.v
Stream.v
StreamFacts.v
Fletcher.v
StreamWriter.v
StreamProps.v
Compression.v
CompressionProps.v
NvList.v
NvWriter.v
Encrypted.v
EncryptedDnode.v
EncryptedFacts.v
DnodeWalks.v
Merkle.v
EncryptedProps.v
Replay.v
Paths.v
Extents.v
Snapshots.v
Selected.v
ObjectIndex.v
IndexFacts.v
FilesystemProps.v
Resolve.v
ResolveProps.v
Sparse.v
SparseFacts.v
Operations.v
Apply.v
OperationsFacts.v
OperationsProps.v
Lznt1.v
Lznt1Facts.v
NtfsStream.v
NtfsProps.v
Image.v
DiskImage.v
Partitions.v
Volumes.v
PartitionFacts.v
SegmentFacts.v
ImageProps.v
PartitionProps.v
Sources.v
SourceProps.v
Datto.v
DattoProps.v
HostFs.v
Tree.v
TreeFacts.v
HostExtract.v
TreeProps.v
PoolBlocks.v
PoolSource.v
PoolBlockFacts.v
Pool.v
PoolFile.v
PoolOpen.v
PoolTreeFacts.v
PoolFacts.v
PoolProps.v
Inner.v
InnerSession.v
InnerFacts.v
InnerProps.v
Updates.v
UpdateProps.v
Client.v
ClientProps.v
Presentation.v
PresentationProps.v
Service.v
ServiceProps.v
Cli.v
CliProps.v
Desktop.v
DesktopProps.v
