(* ===== verification/Prelude.v ===== *)
(** * A verification library for zfs-send-explore

    The program reads ZFS send streams (and pool members, and disk images inside
    them) without a kernel module: it parses the replay records, rebuilds the
    objects of a snapshot, resolves paths, and extracts files or brings
    extracted files up to date. This library models the paths from the bytes of a
    stream, a pool member or a disk image to the bytes of an extracted file, and
    the four front ends over them: the client library, the command line, the
    bridge of the macOS app, and the state behind the Windows client's window.

    ** Parts, and the code they model (under src/src/)

    - [Prelude], [Bytes], [Utf8]: the outcomes of Rust computations and their
      postconditions ([wp]), machine integers, slices, little and big endian,
      [str::from_utf8]. Everything rests on them; they model the language.
    - [Stream] (stream.rs): [Record_], [RecordKind], the parsers, Fletcher-4,
      [StreamReader_new] and [next_record]. [StreamFacts]: [next_record] by
      postconditions, the control automaton [control_step]. [Fletcher]: the
      checksum in closed form. [StreamWriter]: a reference writer of streams.
      [StreamProps]: the properties.
    - [Compression] (compression.rs): the dispatch, the exact-size checks, gzip
      and Zstandard frames. [CompressionProps].
    - [NvList], [Encrypted] (encrypted.rs, nvlists, keys, block decryption),
      [NvWriter]: a reference encoder of nvlists. [EncryptedDnode]: portable
      dnodes and block pointers, the block-pointer tree, the two walks over a
      block of dnodes. [EncryptedFacts], [DnodeWalks], [Merkle]: their lemmas.
      [EncryptedProps].
    - [Replay]: the loop [while let Some(record) = reader.next_record()?] that
      every consumer has. [Selected]: the same loop over chosen snapshots.
    - [Paths], [Extents], [Snapshots], [ObjectIndex], [Resolve] (filesystem.rs):
      path normalisation, changes to a buffer by extents, snapshot chains, the
      index of objects and raw dnodes, path resolution and listing. [IndexFacts];
      [FilesystemProps], [ResolveProps].
    - [Sparse] (sparse.rs): files with a cursor, holes, copies. [SparseFacts].
    - [Operations], [Apply] (operations.rs): inspection, extraction, updates and
      the sidecar. [OperationsFacts]: the meaning of a record on the content of
      an object, and the simulation of the code by it. [OperationsProps].
    - [Lznt1], [NtfsStream] (ntfs_compression.rs): LZNT1, its reference tokens, the
      run map, positioned reads over one cached unit. [Lznt1Facts], [NtfsProps].
    - [Image] (inception.rs): the lazy image of an object, segments over the
      blocks of a stream and the decoded block it keeps. [SegmentFacts],
      [ImageProps].
    - [DiskImage], [Partitions], [Volumes] (inception.rs): slices and cursors of an
      image, GPT and MBR tables, the probing of volumes and their selection.
      [PartitionFacts] (with a reference writer of tables), [PartitionProps].
    - [Inner], [InnerSession] (inception.rs): files in FAT, NTFS and ext volumes,
      listed, copied out and read in place; the session over a disk image, trees
      of it, and the file of a volume as the next image. [InnerFacts],
      [InnerProps].
    - [Sources] (source.rs): sizes, sector sizes, positioned and aligned reads.
      [SourceProps]. [Datto] (datto.rs): the key stash and the plaintext of an
      agent image. [DattoProps].
    - [HostFs], [Tree], [HostExtract] (tree.rs, and the temporary files of
      operations.rs): a file system in which any call may be refused, and the
      staged extraction of a directory over it. [TreeFacts], [TreeProps].
    - [Updates] (operations.rs, pool.rs): extraction with a sidecar and updates in
      place, on that file system. [UpdateProps].
    - [PoolBlocks], [PoolSource], [Pool], [PoolOpen], [PoolFile] (pool.rs): blocks
      with their copies, checksums and encryption and the tree of blocks under a
      dnode; sources, labels and partition tables; datasets, snapshots and paths;
      the choice of the source and its newest label; files read in place, written
      out and extracted. [PoolBlockFacts], [PoolTreeFacts], [PoolFacts],
      [PoolProps].
    - [Client] (client.rs): catalogs and views, the operations on a selected view
      whatever the source is, keys, child paths. [ClientProps].
    - [Presentation] (presentation.rs, snapshot_time.rs): titles, times, sizes,
      the recommended restore point and volume. [PresentationProps].
    - [Service] (bin/zfs-explore-service.rs): the bridge's session, its nine
      requests, the authorization of a disk, the loop over the request lines.
      [ServiceProps].
    - [Cli] (main.rs): the commands, from their parsed arguments to what they
      print. [CliProps].
    - [Desktop] (bin/zfs-send-explore-windows/mod.rs): the window's state, its
      commands and events as functions on it, the dialogs by their answers, jobs
      by what they take along and how they end; a step relation over all of them.
      [DesktopProps].

    The parts meet in a few types: [ImageRead] is the reader of inception.rs that
    a lazy image, a slice, a local file, an agent image and a file of a pool all
    are, and that partition tables and pool labels are read from; [DatasetKey] and
    [decompress_block] serve streams and pools; [extract_directory_tree] takes the
    listing and the extraction of a file as arguments; streams, pools and volumes
    all go through it. The front ends call [Client] (the command line calls the
    parts below it directly, and is shown to do the same).

    Each operation is a definition of the source's name where it has one; the
    arms of a long [match] are definitions of their own, composed as in the code.
    State that the code keeps in local variables of a loop is a record
    ([StreamReader], [selection], [apply_state], [raw_apply], ...), and a step of
    the loop is a function on it.

    ** What the theorems show

    - Streams: what a reference writer writes is read back, records and payloads
      ([stream_roundtrip]); an accepted stream has the grammar of the format and
      consistent lengths; reading returns on every input; Fletcher-4 in closed
      form, and that its check refuses a changed word of a header, and of a payload
      at the record behind it, where checksums are carried ([corruption_detected]).
    - Extraction: the extracted file of a plain stream is the content that results
      from the meaning of each record of the plan's snapshots, and extraction
      returns, if declared sizes fit an allocation ([extract_is_replay]); an
      update applies the records of the incremental to the old bytes and refuses
      everything else ([apply_is_replay]); sparse writes, zeroing and copying are
      ordinary writes whatever the file system does about holes.
    - Compression: what a decoder returns has exactly the declared size and is
      what the codec says.
    - Encryption: wrapped keys survive the nvlist; unlocking inverts wrapping for
      the 256-bit suites and fails for the others ([unlock_unwraps]); the
      authenticated bytes of a dnode do not depend on which of the two encodings it
      was read from; the roots of the block-pointer tree bind every block, as far as
      SHA-512 tells the inputs of the two trees apart; both dnode walks return the
      plaintext and nothing else.
    - Filesystem: the snapshot chain is the path of the incremental graph;
      indexing is replay, returns, and keeps its invariant; each record changes
      exactly the bytes of its extent; path resolution returns and agrees with
      the listing; normalised paths are canonical.
    - NTFS compression: LZNT1 round trip over any chunks and tokens; the decoder
      returns on any input within its limits; the run map an opened attribute has
      is gapless; reads through a right cache are the bytes of each unit and keep
      it right, until a unit cannot be decoded ([compressed_read_exact]).
    - Disk images: the lazy image of an object is what extraction would write, unless
      the object changes its type ([image_is_replay]), and
      every read of it is exact whatever block is cached; partitions and volumes
      lie inside the image, and a table written by a reference writer is
      recovered; offsets add up, so that a volume shows its range of the disk,
      through any number of nested images; a file of a volume is what is copied
      out and what is read in place; aligned reads of a device are the bytes asked for; reads of an
      agent image are the plaintext of its sectors, under the key that its stash
      seals.
    - Directory trees: extraction is all or nothing, and what it publishes is what
      the listing shows, for any listing ([tree_atomic]), for a stream
      ([tree_snapshot_recovered]), a pool ([pool_tree_recovered]) and a volume
      ([inner_tree_recovered]).
    - Updates on the host: after any history of extractions, updates, refused
      calls and kills, an update succeeds only on the bytes that the sidecar was
      written for, and gives what replaying the stream on them gives
      ([update_history]); one that fails leaves the old file or the new one, never
      a part, and what it leaves is refused, not continued ([update_interrupted]).
      Both assume of SHA-256 only that it tells apart the byte strings that came up.
    - Pools: a block is the data of its first good copy; data of an encrypted
      dataset is vouched for by a tag, a code or a digest, but for the plain parts
      of dnode blocks and for an object set, which is checked by its caller
      ([encrypted_block_vouched]); a file is its leaves, cut or extended with zeros,
      written out or read in place; the search for datasets ends and misses none; a
      pool is opened from the one source that has labels, in the state of the newest
      one. That reading ends without a panic is stated of pools none of whose dnodes
      shifts a block number by its width or more ([pool_fits], [mos_fits]).
    - Front ends: the views of a catalog select the snapshots they name; child
      paths and parents invert each other; the bridge's session is well formed
      after any requests, a refused request leaves it as it was, and every line is
      answered once, in order, as long as the standard streams work; a command does
      what the client library does for the view it names ([commands_agree]); the
      window's boxes have the rows of what is open, but for a box of volumes that may
      be empty, it runs at most one job, and what the job was started from stays
      selected ([window_invariant]); a key goes only where it was entered for
      ([keys_scoped]).
    - Beside the properties there are theorems about the recommended restore point,
      sizes and byte counts, and lemmas and examples of inputs the code handles
      badly: an encrypted update does not notice the deletion of its target
      ([raw_deletion_missed]); an oversized gzip block and a damaged sidecar panic;
      a hexadecimal key text with plus signs is accepted; two refused renames lose
      a replaced destination; an image is emptied where extraction keeps the bytes
      ([retyped_object_differs]); a unit that cannot be decoded leaves its bytes in
      the cache under the number of another ([stale_cache]); the window shows the files of one volume and restores
      from another ([stale_listing_restored]), forgets what it was to retry
      ([retry_lost]), or shows nothing ([reopened_inside]).

    ** Conventions

    - A computation is [Ok], [Err], [Panic] or [OutOfFuel] ([res]). [Panic] is
      an unwinding panic: an index or slice out of range, [expect] on [None], and
      overflow of [+], [-], [*] on u64 and usize, as in a build with overflow
      checks. [wp m P] says that [m] does not panic, does not run out of fuel,
      and if it succeeds its value satisfies [P].
    - Integers are [Z] at their width, bytes [list Z]; usize has 64 bits. Strings
      are their UTF-8 bytes. An error is its message template with the integers
      it interpolates.
    - Loops whose bound is not structural take fuel. Where fuel is a parameter
      (the record loops) the theorems ask for one unit per 312 bytes of input
      plus one, since a record has a header of 312 bytes; elsewhere the
      definition computes it from the length, and a lemma says it is enough.
    - Code outside the repository is a type class with its documented laws:
      [Read] (std::io), [Codecs] (lz4, lzjb, flate2, zstd), [Crypto] (AES-GCM and
      AES-CCM, HKDF, HMAC, PBKDF2, SHA-512), [AeadSeal] (the sender's side of
      the cipher, for keys of its length), [ZfsCore] (ZAP and system attributes), [Os]
      (fallocate and lseek), [Digest] (SHA-256, whose one law is the length), [Crc32] (crc32fast), [DiskCrates] (containers
      and file systems), [DattoCrates] (XTS, base64, JSON), [Device] and
      [DeviceInfo] (reads and controls of the system), [Faults] and [TempNames]
      (refused calls, tempfile), [ZfsDisk], [ZfsLabels] and
      [PoolCore] (zfs_core), [Luks], [InnerCrates] and [ReadSeek] (fat-core,
      ntfs, ext4-view), [SidecarJson] and [ServiceJson] (serde_json), [Chrono],
      [ClientHost] and [LocalFiles] (opening a path), [Authorization] (authopen),
      [StdStreams] (standard input and output of the bridge), [TimeZones] (chrono_tz),
      [HostPaths] and [PathEq] (std::path on the host), [Terminal] and [CliText]
      (rpassword, what clap and serde print). Each has a concrete instance, with the laws
      proved, that the witnesses use.
    - The host's file system is a map from paths to directories and files; a path
      is the list of its names from the last to the first. Calls that change it or
      open a file may be refused; asking whether a path exists is not. A process
      that is killed is one whose calls are all refused from some point on.
    - The bridge's requests each meet the machine as it then is: what they open and
      read is a parameter of each request, so that a source may change or vanish
      between two of them.
    - The window's jobs are values, which [run_job] runs on some machine when they
      end: the files and devices as they then are. The user's answers to dialogs are
      a list that the state carries, of any length and content.
    - The search for datasets takes fuel, and from some amount on its result does
      not change ([datasets_complete], with [mos_fits]); what calls it is stated from
      that amount on, or for any amount with which it succeeds.

    ** Not modelled

    I/O errors of a stream other than its end; memory limits of the allocator; the
    arms of the platform modules that are not Linux; the field names of the JSON.
    The parsers of file systems and disk images (FAT, NTFS, ext4, QCOW2, VMDK) and
    of ZFS labels, dnodes and ZAP objects are crates, like ciphers, codecs, clap,
    serde and chrono. The text of a catalog's summary. Of the Windows client:
    painting, layout, the list view and its icons, the enumeration of drives, the
    settings file, the texts of dialogs, and dialogs.rs, which are calls of Win32
    without a decision about what is recovered. Of the bridge: the socket that
    authopen passes a descriptor over.

    ** Plan

    What could follow: the read side of VMDK and QCOW2 if their crates are ever
    vendored; a simulation between the bridge's session and the window's state,
    which are two clients of one library; the list view's order and selection.
*)


From stdpp Require Export base tactics option list strings gmap sets.
From Stdlib Require Export ZArith Lia.

Declare Scope zse_scope.
Delimit Scope zse_scope with zse.
#[global] Open Scope Z_scope.
#[global] Open Scope zse_scope.

(** ** Outcomes of Rust computations

    [Ok] and [Err] are the two variants of [Result]; [Panic] is an unwinding
    panic (an index or slice out of range, an [expect] on [None], an arithmetic
    overflow in a build with overflow checks); [OutOfFuel] is the artefact of a
    fuel-bounded loop, and every fuelled loop comes with a lemma that rules it
    out. *)

Inductive res (E A : Type) : Type :=
| Ok (a : A)
| Err (e : E)
| Panic
| OutOfFuel.
Arguments Ok {E A} a.
Arguments Err {E A} e.
Arguments Panic {E A}.
Arguments OutOfFuel {E A}.

Definition bind {E A B} (m : res E A) (k : A -> res E B) : res E B :=
  match m with
  | Ok a => k a
  | Err e => Err e
  | Panic => Panic
  | OutOfFuel => OutOfFuel
  end.

Definition map_err {E F A} (f : E -> F) (m : res E A) : res F A :=
  match m with
  | Ok a => Ok a
  | Err e => Err (f e)
  | Panic => Panic
  | OutOfFuel => OutOfFuel
  end.

Definition ok_or {E A} (o : option A) (e : E) : res E A :=
  match o with Some a => Ok a | None => Err e end.

(** [Option::expect]: a [None] panics. *)
Definition expect {E A} (o : option A) : res E A :=
  match o with Some a => Ok a | None => Panic end.

(** [match m { Ok(a) => f(a), Err(e) => g(e) }]; a panic unwinds. *)
Definition catch {E F A B} (m : res E A) (f : A -> res F B) (g : E -> res F B) : res F B :=
  match m with
  | Ok a => f a
  | Err e => g e
  | Panic => Panic
  | OutOfFuel => OutOfFuel
  end.

Definition is_ok {E A} (m : res E A) : bool :=
  match m with Ok _ => true | _ => false end.

Definition is_err {E A} (m : res E A) : bool :=
  match m with Err _ => true | _ => false end.

Notation "'let!' x ':=' m 'in' k" := (bind m (fun x => k))
  (at level 10, x pattern, m at level 100, k at level 200,
   format "'[v' 'let!'  x  ':='  m  'in' '/' k ']'") : zse_scope.

(** [if b { return Err(e) }] *)
Notation "'fail!' b 'with' e 'in' k" := (if b then Err e else k)
  (at level 10, b at level 100, e at level 100, k at level 200,
   format "'[v' 'fail!'  b  'with'  e  'in' '/' k ']'") : zse_scope.

(** A loop over a list with an accumulator, leaving at the first error. *)
Fixpoint fold_res {E A S} (f : S -> A -> res E S) (s : S) (l : list A) : res E S :=
  match l with
  | [] => Ok s
  | a :: l => bind (f s a) (fun s' => fold_res f s' l)
  end.

Fixpoint map_res {E A B} (f : A -> res E B) (l : list A) : res E (list B) :=
  match l with
  | [] => Ok []
  | a :: l => bind (f a) (fun b => bind (map_res f l) (fun bs => Ok (b :: bs)))
  end.

(** ** Postconditions

    [wp m P]: [m] neither panics nor runs out of fuel, and its value, if it has
    one, satisfies [P]. [wpe m P Q] also constrains the error. *)

Definition wpe {E A} (m : res E A) (P : A -> Prop) (Q : E -> Prop) : Prop :=
  match m with
  | Ok a => P a
  | Err e => Q e
  | Panic | OutOfFuel => False
  end.

Definition wp {E A} (m : res E A) (P : A -> Prop) : Prop := wpe m P (fun _ => True).

(** The computation returns: a value or an error. *)
Definition safe {E A} (m : res E A) : Prop := wp m (fun _ => True).

Create HintDb zse.

Section wp.
Context {E : Type}.

Lemma wp_bind {A B} (m : res E A) (k : A -> res E B) P :
  wp m (fun a => wp (k a) P) -> wp (bind m k) P.
Proof. by destruct m. Qed.

Lemma wp_mono {A} (m : res E A) (P Q : A -> Prop) :
  (forall a, P a -> Q a) -> wp m P -> wp m Q.
Proof. destruct m; cbn; auto. Qed.

Lemma wp_Ok {A} (a : A) (P : A -> Prop) : P a -> wp (Ok (E:=E) a) P.
Proof. done. Qed.

Lemma wp_Err {A} (e : E) (P : A -> Prop) : wp (Err e) P.
Proof. done. Qed.

Lemma wp_value {A} (m : res E A) P a : wp m P -> m = Ok a -> P a.
Proof. by intros H ->. Qed.

Lemma wp_conj {A} (m : res E A) P Q : wp m P -> (forall a, m = Ok a -> Q a) -> wp m (fun a => P a /\ Q a).
Proof. destruct m; cbn; auto. Qed.

Lemma wp_safe {A} (m : res E A) P : wp m P -> safe m.
Proof. destruct m; cbn; auto. Qed.

Lemma safe_wp {A} (m : res E A) (P : A -> Prop) :
  safe m -> (forall a, m = Ok a -> P a) -> wp m P.
Proof. destruct m; cbn; auto. Qed.

Lemma safe_bind {A B} (m : res E A) (k : A -> res E B) :
  safe m -> (forall a, m = Ok a -> safe (k a)) -> safe (bind m k).
Proof. destruct m; cbn; auto. Qed.

Lemma safe_no_panic {A} (m : res E A) : safe m <-> m <> Panic /\ m <> OutOfFuel.
Proof. destruct m; cbn; naive_solver. Qed.

Lemma safe_cases {A} (m : res E A) : safe m -> (exists a, m = Ok a) \/ (exists e, m = Err e).
Proof. destruct m; cbn; naive_solver. Qed.

Lemma wp_if {A} (b : bool) (m1 m2 : res E A) P :
  (b = true -> wp m1 P) -> (b = false -> wp m2 P) -> wp (if b then m1 else m2) P.
Proof. destruct b; auto. Qed.

Lemma wp_ok_or {A} (o : option A) (e : E) (P : A -> Prop) :
  (forall a, o = Some a -> P a) -> wp (ok_or o e) P.
Proof. destruct o; cbn; auto. Qed.

Lemma wp_map_err {F A} (f : F -> E) (m : res F A) (P : A -> Prop) :
  wp m P -> wp (map_err f m) P.
Proof. destruct m; cbn; auto. Qed.

Lemma wp_catch {F A B} (m : res F A) (f : A -> res E B) (g : F -> res E B) (Q : A -> Prop) (P : B -> Prop) :
  wp m Q -> (forall a, Q a -> wp (f a) P) -> (forall e, wp (g e) P) -> wp (catch m f g) P.
Proof. destruct m; cbn; auto. Qed.

Lemma wp_fold_res {A S} (f : S -> A -> res E S) (I : S -> Prop) (l : list A) (s : S) :
  (forall s a, a ∈ l -> I s -> wp (f s a) I) -> I s -> wp (fold_res f s l) I.
Proof.
  revert s. induction l as [|a l IH]; intros s Hf Hs; [done|].
  cbn. apply wp_bind. eapply wp_mono; [|apply Hf; [set_solver|done]].
  intros s' Hs'. apply IH; [|done]. intros; apply Hf; [set_solver|done].
Qed.

Lemma wp_map_res {A B} (f : A -> res E B) (P : B -> Prop) (l : list A) :
  (forall a, a ∈ l -> wp (f a) P) ->
  wp (map_res f l) (fun bs => Forall P bs /\ length bs = length l).
Proof.
  induction l as [|a l IH]; intros Hf; cbn [map_res]; [by apply wp_Ok|].
  apply wp_bind. eapply wp_mono; [|apply Hf; set_solver]. intros b Hb.
  apply wp_bind. eapply wp_mono; [|apply IH; intros; apply Hf; set_solver].
  intros bs [HF Hl]. apply wp_Ok. cbn. auto with f_equal.
Qed.

Lemma bind_Ok {A B} (m : res E A) (k : A -> res E B) b :
  bind m k = Ok b <-> exists a, m = Ok a /\ k a = Ok b.
Proof. destruct m; cbn; naive_solver. Qed.

Lemma bind_assoc {A B C} (m : res E A) (f : A -> res E B) (g : B -> res E C) :
  bind (bind m f) g = bind m (fun a => bind (f a) g).
Proof. by destruct m. Qed.

Lemma ok_or_Ok {A} (o : option A) (e : E) a : ok_or o e = Ok a <-> o = Some a.
Proof. destruct o; cbn; naive_solver. Qed.

Lemma expect_Ok {A} (o : option A) a : expect (E:=E) o = Ok a <-> o = Some a.
Proof. destruct o; cbn; naive_solver. Qed.

Lemma map_err_Ok {F A} (f : F -> E) (m : res F A) a : map_err f m = Ok a <-> m = Ok a.
Proof. destruct m; cbn; naive_solver. Qed.

Lemma fold_res_app {A S} (f : S -> A -> res E S) s l1 l2 :
  fold_res f s (l1 ++ l2) = bind (fold_res f s l1) (fun s' => fold_res f s' l2).
Proof.
  revert s. induction l1 as [|a l1 IH]; intros s; [done|].
  cbn. destruct (f s a); cbn; auto.
Qed.

Lemma map_res_Ok {A B} (f : A -> res E B) l bs :
  map_res f l = Ok bs <-> Forall2 (fun a b => f a = Ok b) l bs.
Proof.
  revert bs. induction l as [|a l IH]; intros bs; cbn.
  - split; [intros [= <-]; constructor | by inversion 1].
  - rewrite bind_Ok. setoid_rewrite bind_Ok. setoid_rewrite IH. split.
    + intros (b & Hb & bs' & Hbs & [= <-]). by constructor.
    + inversion 1; subst. eauto 10.
Qed.
End wp.

#[export] Hint Resolve wp_Ok wp_Err : zse.

(** Invert a successful computation into its steps. *)
Ltac inv_ok :=
  repeat match goal with
  | H : bind _ _ = Ok _ |- _ =>
      apply bind_Ok in H;
      let a := fresh "r" in let H1 := fresh "Hr" in destruct H as (a & H1 & H)
  | H : Ok _ = Ok _ |- _ => injection H as H
  | H : Err _ = Ok _ |- _ => discriminate H
  | H : Panic = Ok _ |- _ => discriminate H
  | H : OutOfFuel = Ok _ |- _ => discriminate H
  | H : ok_or _ _ = Ok _ |- _ => apply ok_or_Ok in H
  | H : expect _ = Ok _ |- _ => apply expect_Ok in H
  | H : map_err _ _ = Ok _ |- _ => apply map_err_Ok in H
  | H : (if ?b then Err _ else _) = Ok _ |- _ => destruct b eqn:?; [discriminate H|]
  | H : (if ?b then _ else Err _) = Ok _ |- _ => destruct b eqn:?; [|discriminate H]
  | H : (let '(_, _) := ?p in _) = Ok _ |- _ => destruct p
  end.

(** Take one step of a [wp] goal. *)
Ltac wp_step :=
  match goal with
  | |- wp (bind _ _) _ => apply wp_bind
  | |- wp (Ok _) _ => apply wp_Ok
  | |- wp (Err _) _ => apply wp_Err
  | |- wp (ok_or _ _) _ => apply wp_ok_or; intros ? ?
  | |- wp (if _ then Err _ else _) _ => apply wp_if; intros ?; [apply wp_Err|]
  | |- wp (if _ then _ else Err _) _ => apply wp_if; intros ?; [|apply wp_Err]
  end.
Ltac wp_steps := repeat wp_step.

(** Turn boolean tests on integers into facts [lia] reads. *)
Ltac b2p :=
  repeat match goal with
  | H : _ && _ = true |- _ => apply andb_true_iff in H; destruct H
  | H : _ || _ = false |- _ => apply orb_false_iff in H; destruct H
  | H : negb _ = true |- _ => apply negb_true_iff in H
  | H : negb _ = false |- _ => apply negb_false_iff in H
  | H : (_ =? _) = true |- _ => apply Z.eqb_eq in H
  | H : (_ =? _) = false |- _ => apply Z.eqb_neq in H
  | H : (_ <? _) = true |- _ => apply Z.ltb_lt in H
  | H : (_ <? _) = false |- _ => apply Z.ltb_ge in H
  | H : (_ <=? _) = true |- _ => apply Z.leb_le in H
  | H : (_ <=? _) = false |- _ => apply Z.leb_gt in H
  end.

(** ** Errors of [anyhow]: a message template with the integers it
    interpolates, a context layer, or an error raised by code outside src. *)

Inductive error : Type :=
| Msg (template : string) (args : list Z)
| Context (template : string) (args : list Z) (inner : error)
| Foreign (what : string).

Abbreviation result := (res error).

(** [.with_context(..)] on a [Result]. *)
Definition with_context {A} (template : string) (args : list Z) (m : result A) : result A :=
  map_err (Context template args) m.

Lemma wp_with_context {A} t args (m : result A) P : wp m P -> wp (with_context t args m) P.
Proof. apply wp_map_err. Qed.

(** ** Machine integers *)

Abbreviation U8_MAX := 255.
Abbreviation U16_MAX := 65535.
Abbreviation U32_MAX := 4294967295.
Abbreviation U64_MAX := 18446744073709551615.
Abbreviation TWO64 := 18446744073709551616.
Definition ISIZE_MAX : Z := 9223372036854775807.

Definition is_u8 (x : Z) : Prop := 0 <= x <= U8_MAX.
Definition is_u16 (x : Z) : Prop := 0 <= x <= U16_MAX.
Definition is_u32 (x : Z) : Prop := 0 <= x <= U32_MAX.
Definition is_u64 (x : Z) : Prop := 0 <= x <= U64_MAX.

Definition checked_add (a b : Z) : option Z :=
  if a + b <=? U64_MAX then Some (a + b) else None.
Definition checked_sub (a b : Z) : option Z :=
  if b <=? a then Some (a - b) else None.
Definition checked_mul (a b : Z) : option Z :=
  if a * b <=? U64_MAX then Some (a * b) else None.
Definition saturating_add (a b : Z) : Z := Z.min (a + b) U64_MAX.
Definition saturating_sub (a b : Z) : Z := Z.max (a - b) 0.
Definition wrapping_add (a b : Z) : Z := (a + b) mod TWO64.

(** [div_ceil] of the unsigned types; no input overflows. *)
Definition div_ceil (a b : Z) : Z := if a mod b =? 0 then a / b else a / b + 1.

(** The operators [+], [-] and [*] on u64 and usize: out of range panics. *)
Definition add {E} (a b : Z) : res E Z := if a + b <=? U64_MAX then Ok (a + b) else Panic.
Definition sub {E} (a b : Z) : res E Z := if b <=? a then Ok (a - b) else Panic.
Definition mul {E} (a b : Z) : res E Z := if a * b <=? U64_MAX then Ok (a * b) else Panic.

(** [usize::try_from(u64)] on a 64-bit target: every u64 fits. *)
Definition usize_try_from (x : Z) : option Z := if x <=? U64_MAX then Some x else None.

Lemma checked_add_Some a b c : checked_add a b = Some c <-> a + b <= U64_MAX /\ c = a + b.
Proof. unfold checked_add. case_match; b2p; naive_solver lia. Qed.

Lemma checked_add_None a b : checked_add a b = None <-> U64_MAX < a + b.
Proof. unfold checked_add. case_match; b2p; naive_solver lia. Qed.

Lemma checked_mul_Some a b c : checked_mul a b = Some c <-> a * b <= U64_MAX /\ c = a * b.
Proof. unfold checked_mul. case_match; b2p; naive_solver lia. Qed.

Lemma checked_sub_Some a b c : checked_sub a b = Some c <-> b <= a /\ c = a - b.
Proof. unfold checked_sub. case_match; b2p; naive_solver lia. Qed.

Lemma usize_try_from_u64 x : is_u64 x -> usize_try_from x = Some x.
Proof. unfold is_u64, usize_try_from. intros. case_match; b2p; [done|lia]. Qed.

Lemma usize_try_from_Some x y : usize_try_from x = Some y -> y = x.
Proof. unfold usize_try_from. case_match; naive_solver. Qed.

Lemma add_Ok {E} a b c : add (E:=E) a b = Ok c <-> a + b <= U64_MAX /\ c = a + b.
Proof. unfold add. case_match; b2p; naive_solver lia. Qed.

Lemma wp_add {E} a b (P : Z -> Prop) :
  a + b <= U64_MAX -> P (a + b) -> wp (add (E:=E) a b) P.
Proof. intros. unfold add. case_match; b2p; [done|lia]. Qed.

Lemma wp_sub {E} a b (P : Z -> Prop) : b <= a -> P (a - b) -> wp (sub (E:=E) a b) P.
Proof. intros. unfold sub. case_match; b2p; [done|lia]. Qed.

Lemma wp_mul {E} a b (P : Z -> Prop) :
  a * b <= U64_MAX -> P (a * b) -> wp (mul (E:=E) a b) P.
Proof. intros. unfold mul. case_match; b2p; [done|lia]. Qed.

(** The least multiple of [b] that is not below [a]. *)
Lemma div_ceil_bounds a b : 0 < b -> a <= div_ceil a b * b < a + b.
Proof.
  intros. unfold div_ceil. pose proof (Z.div_mod a b ltac:(lia)) as Hdm. pose proof (Z.mod_pos_bound a b ltac:(lia)).
  case_match; b2p; lia.
Qed.

Ltac u64 := unfold is_u8, is_u16, is_u32, is_u64 in *; lia.
