(* ===== verification/Bytes.v ===== *)
(** Byte buffers: a byte is an integer in [0, 256), a [Vec<u8>] or [&[u8]] a
    list of them, lengths and offsets are [usize] values in [Z]. The slice
    operations of the Rust standard library that the sources use, with their
    panics, and the little- and big-endian codecs. *)

From S2P Require Import Prelude.

(** ** Definitions *)

Definition is_byte (b : Z) : Prop := 0 <= b < 256.
Abbreviation bytes_ok := (Forall is_byte).

Definition len {A} (l : list A) : Z := Z.of_nat (length l).

(** [take]/[drop] with an integer count. *)
Definition ztake {A} (n : Z) (l : list A) : list A := take (Z.to_nat n) l.
Definition zdrop {A} (n : Z) (l : list A) : list A := drop (Z.to_nat n) l.
Definition zrepeat {A} (n : Z) (a : A) : list A := replicate (Z.to_nat n) a.

(** [l.get(i)] and [l[i]] *)
Definition get {A} (l : list A) (i : Z) : option A :=
  if (0 <=? i) && (i <? len l) then l !! Z.to_nat i else None.
Definition index {E A} (l : list A) (i : Z) : res E A := expect (get l i).

(** [l.get(a..b)] and [l[a..b]] *)
Definition get_range {A} (l : list A) (a b : Z) : option (list A) :=
  if (0 <=? a) && (a <=? b) && (b <=? len l) then Some (ztake (b - a) (zdrop a l)) else None.
Definition slice {E A} (l : list A) (a b : Z) : res E (list A) := expect (get_range l a b).

(** [l[a..]] *)
Definition slice_from {E A} (l : list A) (a : Z) : res E (list A) := slice l a (len l).

(** [l[i] = v] *)
Definition set_index {E A} (l : list A) (i : Z) (v : A) : res E (list A) :=
  if (0 <=? i) && (i <? len l) then Ok (ztake i l ++ v :: zdrop (i + 1) l) else Panic.

(** [l[off..off + s.len()].copy_from_slice(s)] *)
Definition copy_into {E A} (l : list A) (off : Z) (s : list A) : res E (list A) :=
  if (0 <=? off) && (off + len s <=? len l)
  then Ok (ztake off l ++ s ++ zdrop (off + len s) l) else Panic.

(** [dst.copy_from_slice(src)]: the lengths must agree. *)
Definition copy_from_slice {E A} (dst src : list A) : res E (list A) :=
  if len dst =? len src then Ok src else Panic.

(** [l[a..b].fill(v)] *)
Definition fill {E A} (l : list A) (a b : Z) (v : A) : res E (list A) :=
  if (0 <=? a) && (a <=? b) && (b <=? len l)
  then Ok (ztake a l ++ zrepeat (b - a) v ++ zdrop b l) else Panic.

(** [Vec::resize] *)
Definition resize {A} (l : list A) (n : Z) (v : A) : list A :=
  if n <=? len l then ztake n l else l ++ zrepeat (n - len l) v.

(** [uN::from_le_bytes], [uN::from_be_bytes] and their inverses. *)
Fixpoint le_val (l : list Z) : Z :=
  match l with [] => 0 | b :: l => b + 256 * le_val l end.
Definition be_val (l : list Z) : Z := le_val (rev l).

Fixpoint le_bytes (n : nat) (v : Z) : list Z :=
  match n with O => [] | S n => v mod 256 :: le_bytes n (v / 256) end.
Definition be_bytes (n : nat) (v : Z) : list Z := rev (le_bytes n v).

(** [<[u8; N]>::try_from(slice)]: succeeds on a slice of exactly N bytes. *)
Definition array_try_from (n : Z) (l : list Z) : option (list Z) :=
  if len l =? n then Some l else None.

(** The bytes of a Rust string literal. *)
Fixpoint bytes_of_string (s : string) : list Z :=
  match s with
  | EmptyString => []
  | String c s => Z.of_N (Ascii.N_of_ascii c) :: bytes_of_string s
  end.

Definition all_zero (l : list Z) : bool := forallb (Z.eqb 0) l.

(** Equality of byte strings, [==] on slices. *)
Fixpoint bytes_eqb (a b : list Z) : bool :=
  match a, b with
  | [], [] => true
  | x :: a, y :: b => (x =? y) && bytes_eqb a b
  | _, _ => false
  end.

(** ** Lengths *)

Section lists.
Context {A : Type}.
Implicit Types l s : list A.

Lemma len_nonneg l : 0 <= len l.
Proof. unfold len. lia. Qed.

Lemma len_nil : len (@nil A) = 0.
Proof. done. Qed.

Lemma len_cons a l : len (a :: l) = 1 + len l.
Proof. unfold len. cbn [length]. lia. Qed.

Lemma len_app l s : len (l ++ s) = len l + len s.
Proof. unfold len. rewrite length_app. lia. Qed.

Lemma len_ztake n l : len (ztake n l) = Z.max 0 (Z.min n (len l)).
Proof. unfold len, ztake. rewrite length_take. lia. Qed.

Lemma len_zdrop n l : len (zdrop n l) = Z.max 0 (len l - Z.max 0 n).
Proof. unfold len, zdrop. rewrite length_drop. lia. Qed.

Lemma len_zrepeat n (a : A) : len (zrepeat n a) = Z.max 0 n.
Proof. unfold len, zrepeat. rewrite length_replicate. lia. Qed.

Lemma len_rev l : len (rev l) = len l.
Proof. unfold len. by rewrite length_rev. Qed.

Lemma len_zero_nil l : len l = 0 -> l = [].
Proof. unfold len. destruct l; cbn; [done|lia]. Qed.

Lemma len_nat l : Z.to_nat (len l) = length l.
Proof. unfold len. lia. Qed.

Lemma ztake_zdrop n l : ztake n l ++ zdrop n l = l.
Proof. apply take_drop. Qed.

Lemma ztake_all n l : len l <= n -> ztake n l = l.
Proof. unfold len, ztake. intros. apply take_ge. lia. Qed.

Lemma ztake_0 n l : n <= 0 -> ztake n l = [].
Proof. unfold ztake. intros. by replace (Z.to_nat n) with O by lia. Qed.

Lemma zdrop_0 n l : n <= 0 -> zdrop n l = l.
Proof. unfold zdrop. intros. by replace (Z.to_nat n) with O by lia. Qed.

Lemma zdrop_all n l : len l <= n -> zdrop n l = [].
Proof. unfold len, zdrop. intros. apply drop_ge. lia. Qed.

Lemma ztake_app_len l s n : n = len l -> ztake n (l ++ s) = l.
Proof. intros ->. unfold ztake. rewrite len_nat. apply take_app_length. Qed.

Lemma zdrop_app_len l s n : n = len l -> zdrop n (l ++ s) = s.
Proof. intros ->. unfold zdrop. rewrite len_nat. apply drop_app_length. Qed.

Lemma zdrop_zdrop n m l : 0 <= n -> 0 <= m -> zdrop n (zdrop m l) = zdrop (m + n) l.
Proof. intros. unfold zdrop. rewrite drop_drop. f_equal. lia. Qed.

Lemma ztake_ztake n m l : ztake n (ztake m l) = ztake (Z.min n m) l.
Proof. unfold ztake. rewrite take_take. f_equal. lia. Qed.

Lemma ztake_zdrop_comm n m l :
  0 <= n -> 0 <= m -> ztake n (zdrop m l) = zdrop m (ztake (m + n) l).
Proof.
  intros. unfold ztake, zdrop. rewrite take_drop_commute. repeat f_equal. lia.
Qed.

Lemma ztake_add n m l : 0 <= n -> 0 <= m -> ztake n l ++ ztake m (zdrop n l) = ztake (n + m) l.
Proof. intros. unfold ztake, zdrop. rewrite take_take_drop. f_equal. lia. Qed.

Lemma zdrop_app l s n :
  zdrop n (l ++ s) = zdrop n l ++ zdrop (n - len l) s.
Proof. unfold zdrop, len. rewrite drop_app. repeat f_equal. lia. Qed.

Lemma ztake_app l s n :
  ztake n (l ++ s) = ztake n l ++ ztake (n - len l) s.
Proof. unfold ztake, len. rewrite take_app. repeat f_equal. lia. Qed.

Lemma zdrop_zrepeat n m (a : A) : 0 <= n -> zdrop n (zrepeat m a) = zrepeat (m - n) a.
Proof. intros. unfold zdrop, zrepeat. rewrite drop_replicate. f_equal. lia. Qed.

Lemma ztake_zrepeat n m (a : A) : ztake n (zrepeat m a) = zrepeat (Z.min n m) a.
Proof. unfold ztake, zrepeat. rewrite take_replicate. f_equal. lia. Qed.

Lemma zrepeat_app n m (a : A) :
  0 <= n -> 0 <= m -> zrepeat n a ++ zrepeat m a = zrepeat (n + m) a.
Proof. intros. unfold zrepeat. rewrite <- replicate_add. f_equal. lia. Qed.

Lemma zrepeat_nil n (a : A) : n <= 0 -> zrepeat n a = [].
Proof. intros. unfold zrepeat. by replace (Z.to_nat n) with O by lia. Qed.

(** ** Reading: ranges, indices *)

Lemma get_range_Some l a b s :
  get_range l a b = Some s <-> 0 <= a <= b /\ b <= len l /\ s = ztake (b - a) (zdrop a l).
Proof. unfold get_range. case_match; b2p; [naive_solver lia|].
  split; [done|]. intros (?&?&?).
  repeat (apply andb_false_iff in H; destruct H as [H|H]); b2p; lia.
Qed.

Lemma get_range_app l1 l2 l3 a b :
  a = len l1 -> b = len l1 + len l2 -> get_range (l1 ++ l2 ++ l3) a b = Some l2.
Proof.
  intros -> ->. apply get_range_Some. rewrite !len_app.
  pose proof (len_nonneg l1). pose proof (len_nonneg l2). pose proof (len_nonneg l3).
  split; [lia|]. split; [lia|].
  rewrite zdrop_app_len by done. by rewrite ztake_app_len by lia.
Qed.

Lemma get_range_len l a b s : get_range l a b = Some s -> len s = b - a.
Proof.
  intros (?&?&->)%get_range_Some. rewrite len_ztake, len_zdrop. lia.
Qed.

Lemma wp_slice {E} l a b (P : list A -> Prop) :
  0 <= a <= b -> b <= len l ->
  (forall s, s = ztake (b - a) (zdrop a l) -> len s = b - a -> P s) ->
  wp (slice (E:=E) l a b) P.
Proof.
  intros. unfold slice.
  rewrite (proj2 (get_range_Some l a b (ztake (b - a) (zdrop a l)))) by done. cbn.
  apply H1; [done|]. rewrite len_ztake, len_zdrop. lia.
Qed.

Lemma slice_Ok {E} l a b s :
  slice (E:=E) l a b = Ok s <-> 0 <= a <= b /\ b <= len l /\ s = ztake (b - a) (zdrop a l).
Proof. unfold slice. by rewrite expect_Ok, get_range_Some. Qed.

Lemma get_Some_lookup l i x : get l i = Some x <-> 0 <= i /\ l !! Z.to_nat i = Some x.
Proof.
  unfold get, len. destruct (_ && _) eqn:H; b2p; [naive_solver lia|].
  split; [done|]. intros [? Hl]. apply lookup_lt_Some in Hl.
  apply andb_false_iff in H as [H|H]; b2p; lia.
Qed.

Lemma get_is_Some l i : 0 <= i < len l -> is_Some (get l i).
Proof.
  intros. unfold get, len in *. rewrite (proj2 (andb_true_iff _ _)).
  - apply lookup_lt_is_Some. lia.
  - split; [apply Z.leb_le|apply Z.ltb_lt]; lia.
Qed.

Lemma get_lt l i x : get l i = Some x -> 0 <= i < len l.
Proof. intros [? Hl]%get_Some_lookup. apply lookup_lt_Some in Hl. unfold len. lia. Qed.

Lemma wp_index {E} l i (P : A -> Prop) :
  0 <= i < len l -> (forall x, get l i = Some x -> P x) -> wp (index (E:=E) l i) P.
Proof.
  intros Hi HP. unfold index. destruct (get_is_Some l i Hi) as [x Hx]. rewrite Hx. cbn. auto.
Qed.

(** A range read in two parts. *)
Lemma range_split l at_ k n :
  0 <= at_ -> 0 <= k <= n -> ztake k (zdrop at_ l) ++ ztake (n - k) (zdrop (at_ + k) l) = ztake n (zdrop at_ l).
Proof.
  intros ? ?. rewrite <- (zdrop_zdrop k at_ l) by lia. rewrite ztake_add by lia. f_equal. lia.
Qed.

(** A range of a range. *)
Lemma slice_range {E} l start size skip n :
  0 <= start -> 0 <= skip -> 0 <= n -> skip + n <= size -> start + size <= len l ->
  slice (E:=E) (ztake size (zdrop start l)) skip (skip + n) = Ok (ztake n (zdrop (start + skip) l)).
Proof.
  intros. unfold slice. rewrite (proj2 (get_range_Some _ _ _ (ztake n (zdrop (start + skip) l)))); [done|].
  rewrite len_ztake, len_zdrop. split; [lia|]. split; [lia|]. replace (skip + n - skip) with n by lia.
  replace size with (skip + (size - skip)) by lia.
  rewrite <- ztake_zdrop_comm, zdrop_zdrop, ztake_ztake by lia. f_equal. lia.
Qed.

Lemma index_Ok {E} l i x : index (E:=E) l i = Ok x <-> get l i = Some x.
Proof. unfold index. apply expect_Ok. Qed.

Lemma get_app_l l s i : 0 <= i < len l -> get (l ++ s) i = get l i.
Proof.
  intros. unfold get. rewrite len_app. pose proof (len_nonneg s).
  rewrite !(proj2 (andb_true_iff _ _)).
  - rewrite lookup_app_l; [done|]. unfold len in *. lia.
  - split; [apply Z.leb_le|apply Z.ltb_lt]; lia.
  - split; [apply Z.leb_le|apply Z.ltb_lt]; lia.
Qed.

Lemma get_Forall (P : A -> Prop) l i x : Forall P l -> get l i = Some x -> P x.
Proof. intros HF [_ Hx]%get_Some_lookup. by eapply Forall_lookup_1. Qed.

Lemma Forall_ztake (P : A -> Prop) n l : Forall P l -> Forall P (ztake n l).
Proof. apply Forall_take. Qed.

Lemma Forall_zdrop (P : A -> Prop) n l : Forall P l -> Forall P (zdrop n l).
Proof. apply Forall_drop. Qed.

Lemma Forall_zrepeat (P : A -> Prop) n a : P a -> Forall P (zrepeat n a).
Proof. intros. by apply Forall_replicate. Qed.

Lemma Forall_resize (P : A -> Prop) l n a : Forall P l -> P a -> Forall P (resize l n a).
Proof.
  intros. unfold resize. case_match; [by apply Forall_ztake|].
  apply Forall_app. auto using Forall_zrepeat.
Qed.

(** ** Writing *)

Lemma wp_copy_into {E} l off s (P : list A -> Prop) :
  0 <= off -> off + len s <= len l ->
  (len (ztake off l ++ s ++ zdrop (off + len s) l) = len l ->
   P (ztake off l ++ s ++ zdrop (off + len s) l)) ->
  wp (copy_into (E:=E) l off s) P.
Proof.
  intros ?? HP. unfold copy_into. rewrite (proj2 (andb_true_iff _ _)).
  - apply HP. rewrite !len_app, len_ztake, len_zdrop. pose proof (len_nonneg s). lia.
  - split; apply Z.leb_le; lia.
Qed.

Lemma wp_copy_from_slice {E} dst src (P : list A -> Prop) :
  len dst = len src -> P src -> wp (copy_from_slice (E:=E) dst src) P.
Proof. intros Hl HP. unfold copy_from_slice. by rewrite (proj2 (Z.eqb_eq _ _) Hl). Qed.

Lemma wp_fill {E} l a b v (P : list A -> Prop) :
  0 <= a <= b -> b <= len l ->
  (len (ztake a l ++ zrepeat (b - a) v ++ zdrop b l) = len l ->
   P (ztake a l ++ zrepeat (b - a) v ++ zdrop b l)) ->
  wp (fill (E:=E) l a b v) P.
Proof.
  intros ?? HP. unfold fill. rewrite !(proj2 (andb_true_iff _ _)).
  - apply HP. rewrite !len_app, len_ztake, len_zdrop, len_zrepeat. lia.
  - split; [apply andb_true_iff; split|]; apply Z.leb_le; lia.
Qed.

Lemma wp_set_index {E} l i v (P : list A -> Prop) :
  0 <= i < len l ->
  (len (ztake i l ++ v :: zdrop (i + 1) l) = len l -> P (ztake i l ++ v :: zdrop (i + 1) l)) ->
  wp (set_index (E:=E) l i v) P.
Proof.
  intros ? HP. unfold set_index. rewrite (proj2 (andb_true_iff _ _)).
  - apply HP. rewrite !len_app, len_cons, len_ztake, len_zdrop. lia.
  - split; [apply Z.leb_le|apply Z.ltb_lt]; lia.
Qed.

Lemma len_resize l n v : 0 <= n -> len (resize l n v) = n.
Proof.
  intros. unfold resize. case_match; b2p.
  - rewrite len_ztake. lia.
  - rewrite len_app, len_zrepeat. lia.
Qed.
End lists.

#[export] Hint Resolve len_nonneg Forall_ztake Forall_zdrop Forall_zrepeat Forall_resize Forall_app_2 : zse.
#[export] Hint Rewrite @len_app @len_cons @len_nil @len_ztake @len_zdrop @len_zrepeat @len_rev : len.

(** Normalise lengths, then linear arithmetic. *)
Ltac len_lia :=
  autorewrite with len in *;
  repeat match goal with
  | |- context [len ?l] => lazymatch goal with H : 0 <= len l |- _ => fail | _ => pose proof (len_nonneg l) end
  | _ : context [len ?l] |- _ => lazymatch goal with H : 0 <= len l |- _ => fail | _ => pose proof (len_nonneg l) end
  end; lia.

Lemma is_byte_0 : is_byte 0.
Proof. done. Qed.
#[export] Hint Resolve is_byte_0 : zse.

(** ** Little and big endian *)

Lemma len_le_bytes n v : len (le_bytes n v) = Z.of_nat n.
Proof.
  revert v. induction n as [|n IH]; intros v; [done|].
  cbn [le_bytes]. rewrite len_cons, IH. lia.
Qed.
#[export] Hint Rewrite len_le_bytes : len.

Lemma be_bytes_len n v : len (be_bytes n v) = Z.of_nat n.
Proof. unfold be_bytes. by rewrite len_rev, len_le_bytes. Qed.
#[export] Hint Rewrite be_bytes_len : len.

Lemma le_bytes_ok n v : bytes_ok (le_bytes n v).
Proof.
  revert v. induction n as [|n IH]; intros v; constructor; [|done].
  unfold is_byte. pose proof (Z.mod_pos_bound v 256). lia.
Qed.
#[export] Hint Resolve le_bytes_ok : zse.

Lemma pow256_S n : 256 ^ Z.of_nat (S n) = 256 * 256 ^ Z.of_nat n.
Proof. rewrite Nat2Z.inj_succ, Z.pow_succ_r; lia. Qed.

Lemma le_val_le_bytes n v : le_val (le_bytes n v) = v mod 256 ^ Z.of_nat n.
Proof.
  revert v. induction n as [|n IH]; intros v; [by rewrite Z.mod_1_r|].
  cbn [le_bytes le_val]. rewrite IH, pow256_S.
  rewrite Z.rem_mul_r; [done|lia|]. apply Z.pow_pos_nonneg; lia.
Qed.

Lemma le_val_bound l : bytes_ok l -> 0 <= le_val l < 256 ^ len l.
Proof.
  induction 1 as [|b l Hb Hl IH]; [change (0 <= 0 < 1); lia|].
  unfold is_byte, len in *. cbn [le_val length]. rewrite pow256_S. nia.
Qed.

Lemma le_bytes_le_val l : bytes_ok l -> le_bytes (length l) (le_val l) = l.
Proof.
  induction 1 as [|b l Hb Hl IH]; [done|].
  unfold is_byte in Hb. cbn [length le_val le_bytes]. f_equal.
  - rewrite (Z.mul_comm 256), Z.mod_add by lia. apply Z.mod_small. lia.
  - replace ((b + 256 * le_val l) / 256) with (le_val l); [done|].
    rewrite (Z.mul_comm 256), Z.div_add by lia. by rewrite Z.div_small.
Qed.

Lemma le_val_inj l1 l2 :
  bytes_ok l1 -> bytes_ok l2 -> length l1 = length l2 -> le_val l1 = le_val l2 -> l1 = l2.
Proof.
  intros H1 H2 Hl Hv. rewrite <- (le_bytes_le_val l1), <- (le_bytes_le_val l2) by done.
  by rewrite Hl, Hv.
Qed.

Lemma be_val_be_bytes n v : be_val (be_bytes n v) = v mod 256 ^ Z.of_nat n.
Proof. unfold be_val, be_bytes. rewrite rev_involutive. apply le_val_le_bytes. Qed.

Lemma be_val_bound l : bytes_ok l -> 0 <= be_val l < 256 ^ len l.
Proof.
  intros. unfold be_val. rewrite <- (len_rev l). apply le_val_bound. by apply Forall_rev.
Qed.

Lemma le_val_u64 l : bytes_ok l -> len l = 8 -> is_u64 (le_val l).
Proof. intros H Hl. apply le_val_bound in H. rewrite Hl in H. change (256 ^ 8) with TWO64 in H. u64. Qed.

Lemma le_val_u32 l : bytes_ok l -> len l = 4 -> is_u32 (le_val l).
Proof. intros H Hl. apply le_val_bound in H. rewrite Hl in H. change (256 ^ 4) with 4294967296 in H. u64. Qed.

Lemma le_val_u64_roundtrip v : is_u64 v -> le_val (le_bytes 8 v) = v.
Proof.
  intros. rewrite le_val_le_bytes. change (256 ^ Z.of_nat 8) with TWO64. apply Z.mod_small. u64.
Qed.

Lemma le_val_u32_roundtrip v : is_u32 v -> le_val (le_bytes 4 v) = v.
Proof.
  intros. rewrite le_val_le_bytes. change (256 ^ Z.of_nat 4) with 4294967296. apply Z.mod_small. u64.
Qed.

Lemma all_zero_true l : all_zero l = true <-> Forall (eq 0) l.
Proof.
  induction l as [|b l IH]; [by split|].
  change (all_zero (b :: l)) with ((0 =? b) && all_zero l).
  rewrite andb_true_iff, Z.eqb_eq, IH, Forall_cons. done.
Qed.

(** Concrete buffers are checked by evaluation. *)
Lemma bytes_ok_dec l : forallb (fun b => (0 <=? b) && (b <? 256)) l = true -> bytes_ok l.
Proof.
  intros H. apply Forall_forall. intros b Hb.
  rewrite forallb_forall in H. apply list_elem_of_In, H in Hb. b2p. done.
Qed.

Lemma bytes_eqb_eq a b : bytes_eqb a b = true <-> a = b.
Proof.
  revert b. induction a as [|x a IH]; intros [|y b]; try (cbn; naive_solver).
  change (bytes_eqb (x :: a) (y :: b)) with ((x =? y) && bytes_eqb a b).
  rewrite andb_true_iff, Z.eqb_eq, IH. naive_solver.
Qed.

Lemma bytes_eqb_refl a : bytes_eqb a a = true.
Proof. by apply bytes_eqb_eq. Qed.

(** ** Fixed-width fields *)

Definition fixed (n : Z) (l : list Z) : Prop := len l = n /\ bytes_ok l.

Lemma fixed_zrepeat n v : 0 <= n -> is_byte v -> fixed n (zrepeat n v).
Proof. intros. split; [rewrite len_zrepeat; lia|auto with zse]. Qed.

Lemma wp_index_byte {E} l i (P : Z -> Prop) :
  bytes_ok l -> 0 <= i < len l -> (forall b, is_byte b -> P b) -> wp (index (E:=E) l i) P.
Proof. intros Hl Hi HP. apply wp_index; [done|]. intros x Hx. apply HP. by eapply get_Forall. Qed.

Lemma wp_slice_fixed {E} l a b (P : list Z -> Prop) :
  bytes_ok l -> 0 <= a <= b -> b <= len l -> (forall s, fixed (b - a) s -> P s) ->
  wp (slice (E:=E) l a b) P.
Proof.
  intros Hl Hab Hb HP. apply wp_slice; [done..|]. intros s -> Hs. apply HP. split; auto with zse.
Qed.
