(* ===== verification/Utf8.v ===== *)
(** UTF-8 as the Rust standard library decodes it: [std::str::from_utf8], which
    validates, and [String::from_utf8_lossy], which replaces each maximal
    ill-formed part by U+FFFD. A [String] is the list of its bytes. *)

From S2P Require Import Prelude Bytes.

(** ** Definitions *)

Definition is_cont (b : Z) : bool := (128 <=? b) && (b <? 192).

(** The byte at position [i], 0 past the end. *)
Definition nth0 (l : list Z) (i : nat) : Z := nth i l 0.

(** Whether the second byte may follow the lead byte of a 3- or 4-byte form. *)
Definition second_ok (b0 b1 : Z) : bool :=
  if b0 =? 224 then (160 <=? b1) && (b1 <? 192)
  else if b0 =? 237 then (128 <=? b1) && (b1 <? 160)
  else if b0 =? 240 then (144 <=? b1) && (b1 <? 192)
  else if b0 =? 244 then (128 <=? b1) && (b1 <? 144)
  else is_cont b1.

(** One decoding step at the front of a non-empty input: the number of bytes
    consumed, and whether they are a well-formed character. *)
Definition utf8_step (l : list Z) : nat * bool :=
  let b0 := nth0 l 0 in
  if b0 <? 128 then (1%nat, true)
  else if (194 <=? b0) && (b0 <? 224) then
    if is_cont (nth0 l 1) then (2%nat, true) else (1%nat, false)
  else if (224 <=? b0) && (b0 <? 240) then
    if negb (second_ok b0 (nth0 l 1)) then (1%nat, false)
    else if is_cont (nth0 l 2) then (3%nat, true) else (2%nat, false)
  else if (240 <=? b0) && (b0 <? 245) then
    if negb (second_ok b0 (nth0 l 1)) then (1%nat, false)
    else if negb (is_cont (nth0 l 2)) then (2%nat, false)
    else if is_cont (nth0 l 3) then (4%nat, true) else (3%nat, false)
  else (1%nat, false).

Fixpoint utf8_valid_fuel (n : nat) (l : list Z) : bool :=
  match n, l with
  | _, [] => true
  | O, _ => false
  | S n, _ => let '(k, ok) := utf8_step l in ok && utf8_valid_fuel n (drop k l)
  end.

(** [std::str::from_utf8(l).is_ok()] *)
Definition utf8_valid (l : list Z) : bool := utf8_valid_fuel (length l) l.

Definition from_utf8 (l : list Z) : option (list Z) :=
  if utf8_valid l then Some l else None.

Definition REPLACEMENT : list Z := [239; 191; 189].

Fixpoint utf8_lossy_fuel (n : nat) (l : list Z) : list Z :=
  match n, l with
  | _, [] => []
  | O, _ => []
  | S n, _ =>
      let '(k, ok) := utf8_step l in
      (if ok then take k l else REPLACEMENT) ++ utf8_lossy_fuel n (drop k l)
  end.

(** [String::from_utf8_lossy(l).into_owned()] *)
Definition from_utf8_lossy (l : list Z) : list Z := utf8_lossy_fuel (length l) l.

(** ** Properties *)

Lemma utf8_step_pos l : (1 <= (utf8_step l).1)%nat.
Proof. unfold utf8_step. repeat case_match; cbn; lia. Qed.

Lemma utf8_valid_ind (P : list Z -> Prop) :
  P [] ->
  (forall l, l <> [] -> (utf8_step l).2 = true -> P (drop (utf8_step l).1 l) -> P l) ->
  forall n l, utf8_valid_fuel n l = true -> P l.
Proof.
  intros Hnil Hstep n. induction n as [|n IH]; intros [|b l]; cbn; try done.
  destruct (utf8_step (b :: l)) as [k ok] eqn:E.
  intros [-> H]%andb_true_iff. apply Hstep; [done|by rewrite E|rewrite E; by apply IH].
Qed.

Lemma utf8_lossy_valid_fuel n l :
  utf8_valid_fuel n l = true -> utf8_lossy_fuel n l = l.
Proof.
  revert l. induction n as [|n IH]; intros [|b l]; cbn; try done.
  destruct (utf8_step (b :: l)) as [k ok] eqn:E.
  intros [-> H]%andb_true_iff. rewrite IH by done. apply take_drop.
Qed.

(** Lossy decoding is the identity on well-formed input. *)
Lemma from_utf8_lossy_valid l : utf8_valid l = true -> from_utf8_lossy l = l.
Proof. apply utf8_lossy_valid_fuel. Qed.

(** ASCII text is well formed. *)
Lemma utf8_valid_ascii l : Forall (fun b => 0 <= b < 128) l -> utf8_valid l = true.
Proof.
  unfold utf8_valid. induction 1 as [|b l Hb Hl IH]; [done|].
  cbn [length utf8_valid_fuel].
  assert (utf8_step (b :: l) = (1%nat, true)) as ->.
  { unfold utf8_step. change (nth0 (b :: l) 0) with b. case_match; b2p; [done|lia]. }
  done.
Qed.
