(* ===== verification/Stream.v ===== *)
(** The replay-record reader of src/src/stream.rs: Fletcher-4, the record
    layouts, the payload sizes and the BEGIN/END state machine of
    [StreamReader::next_record]. The byte source [R: Read] is a type class. *)

From S2P Require Import Prelude Bytes Utf8.

(** ** Constants (lines 5-25) *)

Definition RECORD_SIZE : Z := 312.
Definition CHECKSUM_OFFSET : Z := 280.
Definition MAX_PAYLOAD_SIZE : Z := 268435456.
Definition DMU_BACKUP_MAGIC : Z := 0x2f5bacbac.
Definition FEATURE_RAW : Z := 16777216.
Definition DMU_SUBSTREAM : Z := 1.
Definition DMU_COMPOUNDSTREAM : Z := 2.
Definition DRR_BEGIN : Z := 0.
Definition DRR_OBJECT : Z := 1.
Definition DRR_FREEOBJECTS : Z := 2.
Definition DRR_WRITE : Z := 3.
Definition DRR_FREE : Z := 4.
Definition DRR_END : Z := 5.
Definition DRR_WRITE_BYREF : Z := 6.
Definition DRR_SPILL : Z := 7.
Definition DRR_WRITE_EMBEDDED : Z := 8.
Definition DRR_OBJECT_RANGE : Z := 9.
Definition DRR_REDACT : Z := 10.
Definition DRR_NUMTYPES : Z := 11.

(** ** The byte source *)

Inductive io_error : Type :=
| UnexpectedEof
| IoOther (code : Z).

(** [std::io::Read] as the reader uses it: [read] into a one-byte buffer, where
    [None] is the 0 of end of file, and [read_exact]. *)
Class Read (R : Type) := {
  read_one : R -> res io_error (option Z * R);
  read_exact : Z -> R -> res io_error (list Z * R);
}.

(** What the library documents of a finite source: reads return bytes, exactly
    as many as asked for, and use the source up. *)
Class ReadLaws (R : Type) `{Read R} := {
  reader_ok : R -> Prop;
  remaining : R -> Z;
  remaining_nonneg : forall r, 0 <= remaining r;
  read_one_spec : forall r, reader_ok r ->
    wp (read_one r) (fun '(b, r') =>
      reader_ok r' /\
      match b with
      | Some b => is_byte b /\ remaining r' = remaining r - 1
      | None => remaining r' = remaining r
      end);
  read_exact_spec : forall n r, 0 <= n -> reader_ok r ->
    wp (read_exact n r) (fun '(bs, r') =>
      reader_ok r' /\ bytes_ok bs /\ len bs = n /\ remaining r' = remaining r - n);
}.

(** A file held in memory. *)
#[export] Instance Read_list : Read (list Z) := {
  read_one r := match r with [] => Ok (None, []) | b :: r => Ok (Some b, r) end;
  read_exact n r := if n <=? len r then Ok (ztake n r, zdrop n r) else Err UnexpectedEof;
}.

(** ** Errors (lines 27-43) *)

Inductive StreamError : Type :=
| Io (offset : Z) (source : io_error)
| Invalid (offset : Z) (message : string) (args : list Z)
| Unsupported (offset : Z) (message : string) (args : list Z)
| Checksum (offset : Z).

(** ** Records (lines 45-176) *)

Record BeginRecord := {
  header_type : Z; to_guid : Z; from_guid : Z; creation_time : Z;
  objset_type : Z; begin_flags : Z; features : Z; dataset_name : list Z;
}.

Record ObjectRecord := {
  obj_object : Z; obj_type : Z; obj_bonus_type : Z; obj_block_size : Z;
  obj_bonus_length : Z; obj_checksum_type : Z; obj_compression : Z;
  obj_dnode_slots : Z; obj_flags : Z; obj_raw_bonus_length : Z;
  obj_indirect_block_shift : Z; obj_levels : Z; obj_block_pointers : Z;
  obj_max_block_id : Z;
}.

Record WriteRecord := {
  wr_object : Z; wr_object_type : Z; wr_offset : Z; wr_logical_size : Z;
  wr_checksum_type : Z; wr_flags : Z; wr_compressed_size : Z;
  wr_compression_type : Z; wr_salt : list Z; wr_iv : list Z; wr_mac : list Z;
}.

Record ObjectRangeRecord := {
  or_first_object : Z; or_object_slots : Z; or_salt : list Z; or_iv : list Z;
  or_mac : list Z; or_flags : Z;
}.

Record FreeRecord := { fr_object : Z; fr_offset : Z; fr_length : Z }.

Record FreeObjectsRecord := { fo_first_object : Z; fo_object_count : Z }.

Record EmbeddedWriteRecord := {
  we_object : Z; we_offset : Z; we_length : Z; we_compression_type : Z;
  we_embedded_type : Z; we_logical_size : Z; we_physical_size : Z;
}.

Record SpillRecord := {
  sp_object : Z; sp_logical_size : Z; sp_flags : Z; sp_compression_type : Z;
  sp_compressed_size : Z; sp_salt : list Z; sp_iv : list Z; sp_mac : list Z;
  sp_object_type : Z;
}.

Inductive RecordKind : Type :=
| Begin (r : BeginRecord)
| Object (r : ObjectRecord)
| FreeObjects (r : FreeObjectsRecord)
| Write (r : WriteRecord)
| Free (r : FreeRecord)
| End_
| WriteByRef
| Spill (r : SpillRecord)
| WriteEmbedded (r : EmbeddedWriteRecord)
| ObjectRange (r : ObjectRangeRecord)
| Redact.

Definition RecordKind_name (k : RecordKind) : string :=
  match k with
  | Begin _ => "BEGIN"
  | Object _ => "OBJECT"
  | FreeObjects _ => "FREEOBJECTS"
  | Write _ => "WRITE"
  | Free _ => "FREE"
  | End_ => "END"
  | WriteByRef => "WRITE_BYREF"
  | Spill _ => "SPILL"
  | WriteEmbedded _ => "WRITE_EMBEDDED"
  | ObjectRange _ => "OBJECT_RANGE"
  | Redact => "REDACT"
  end.

Record Record_ := { stream_offset : Z; kind : RecordKind; payload : list Z }.

(** ** Fletcher-4 (lines 178-202) *)

Record Fletcher4 := { f0 : Z; f1 : Z; f2 : Z; f3 : Z }.

Definition Fletcher4_default : Fletcher4 := {| f0 := 0; f1 := 0; f2 := 0; f3 := 0 |}.

(** The body of the loop over [chunks_exact(4)]. *)
Definition fletcher_word (s : Fletcher4) (value : Z) : Fletcher4 :=
  let a := wrapping_add (f0 s) value in
  let b := wrapping_add (f1 s) a in
  let c := wrapping_add (f2 s) b in
  let d := wrapping_add (f3 s) c in
  {| f0 := a; f1 := b; f2 := c; f3 := d |}.

(** [bytes.chunks_exact(4)] read as little-endian words. *)
Fixpoint le_words (l : list Z) : list Z :=
  match l with
  | a :: b :: c :: d :: l => le_val [a; b; c; d] :: le_words l
  | _ => []
  end.

Definition Fletcher4_update (s : Fletcher4) (bytes : list Z) (offset : Z)
  : res StreamError Fletcher4 :=
  fail! negb (len bytes mod 4 =? 0)
    with Invalid offset "checksummed region is not aligned to four bytes" [] in
  Ok (foldl fletcher_word s (le_words bytes)).

Definition fletcher_array (s : Fletcher4) : list Z := [f0 s; f1 s; f2 s; f3 s].

(** ** Field access (lines 568-601) *)

Definition round_up_8 (value offset : Z) : res StreamError Z :=
  ok_or (option_map (fun v => Z.land v (Z.lnot 7)) (checked_add value 7))
        (Invalid offset "payload length overflow" []).

Definition le_u32 {E} (bytes : list Z) (offset : Z) : res E Z :=
  let! s := slice bytes offset (offset + 4) in Ok (le_val s).

Definition le_u64 {E} (bytes : list Z) (offset : Z) : res E Z :=
  let! s := slice bytes offset (offset + 8) in Ok (le_val s).

Definition read_checksum {E} (bytes : list Z) (offset : Z) : res E (list Z) :=
  let! a := le_u64 bytes offset in
  let! b := le_u64 bytes (offset + 8) in
  let! c := le_u64 bytes (offset + 16) in
  let! d := le_u64 bytes (offset + 24) in
  Ok [a; b; c; d].

(** ** Payload length (lines 536-566) *)

Definition payload_size (header : list Z) (record_type offset : Z) : res StreamError Z :=
  if record_type =? DRR_BEGIN then le_u32 header 4
  else if record_type =? DRR_OBJECT then
    let! raw := le_u32 header 36 in
    if negb (raw =? 0) then Ok raw
    else let! bonus := le_u32 header 28 in round_up_8 bonus offset
  else if record_type =? DRR_WRITE then
    let! compression := index header 50 in
    if compression =? 0 then le_u64 header 32 else le_u64 header 96
  else if record_type =? DRR_SPILL then
    let! compressed := le_u64 header 40 in
    if compressed =? 0 then le_u64 header 16 else Ok compressed
  else if record_type =? DRR_WRITE_EMBEDDED then
    let! psize := le_u32 header 52 in round_up_8 psize offset
  else Ok 0.

(** ** Record decoding (lines 426-534) *)

Definition be_u64 {E} (bytes : list Z) (offset : Z) : res E Z :=
  let! s := slice bytes offset (offset + 8) in Ok (be_val s).

(** [iter().position(|byte| *byte == 0).unwrap_or(len)] *)
Fixpoint position_zero (l : list Z) : Z :=
  match l with
  | [] => 0
  | b :: l => if b =? 0 then 0 else 1 + position_zero l
  end.

Definition decode_begin (header : list Z) (offset : Z) : res StreamError RecordKind :=
  let! magic := le_u64 header 8 in
  let! swapped := be_u64 header 8 in
  fail! negb (magic =? DMU_BACKUP_MAGIC) && negb (swapped =? DMU_BACKUP_MAGIC)
    with Invalid offset "bad ZFS send magic 0x{:016x}" [magic] in
  let! version_info := le_u64 header 16 in
  let header_type := Z.land version_info 3 in
  fail! negb ((header_type =? DMU_SUBSTREAM) || (header_type =? DMU_COMPOUNDSTREAM))
    with Unsupported offset "stream header type {} is unsupported" [header_type] in
  let! name_bytes := slice header 56 312 in
  let name_end := position_zero name_bytes in
  let! to_guid := le_u64 header 40 in
  let! from_guid := le_u64 header 48 in
  let! creation_time := le_u64 header 24 in
  let! objset_type := le_u32 header 32 in
  let! flags := le_u32 header 36 in
  let! name := slice name_bytes 0 name_end in
  Ok (Begin {|
    header_type := header_type; to_guid := to_guid; from_guid := from_guid;
    creation_time := creation_time; objset_type := objset_type; begin_flags := flags;
    features := Z.land (Z.shiftr version_info 2) (Z.ones 56);
    dataset_name := from_utf8_lossy name |}).

Definition decode_object (header : list Z) : res StreamError RecordKind :=
  let! object := le_u64 header 8 in
  let! object_type := le_u32 header 16 in
  let! bonus_type := le_u32 header 20 in
  let! block_size := le_u32 header 24 in
  let! bonus_length := le_u32 header 28 in
  let! checksum_type := index header 32 in
  let! compression := index header 33 in
  let! dnode_slots := index header 34 in
  let! flags := index header 35 in
  let! raw_bonus_length := le_u32 header 36 in
  let! indirect_block_shift := index header 48 in
  let! levels := index header 49 in
  let! block_pointers := index header 50 in
  let! max_block_id := le_u64 header 56 in
  Ok (Object {|
    obj_object := object; obj_type := object_type; obj_bonus_type := bonus_type;
    obj_block_size := block_size; obj_bonus_length := bonus_length;
    obj_checksum_type := checksum_type; obj_compression := compression;
    obj_dnode_slots := dnode_slots; obj_flags := flags;
    obj_raw_bonus_length := raw_bonus_length;
    obj_indirect_block_shift := indirect_block_shift; obj_levels := levels;
    obj_block_pointers := block_pointers; obj_max_block_id := max_block_id |}).

Definition decode_write (header : list Z) : res StreamError RecordKind :=
  let! object := le_u64 header 8 in
  let! object_type := le_u32 header 16 in
  let! offset := le_u64 header 24 in
  let! logical_size := le_u64 header 32 in
  let! checksum_type := index header 48 in
  let! flags := index header 49 in
  let! compressed_size := le_u64 header 96 in
  let! compression_type := index header 50 in
  let! salt := slice header 104 112 in
  let! iv := slice header 112 124 in
  let! mac := slice header 124 140 in
  Ok (Write {|
    wr_object := object; wr_object_type := object_type; wr_offset := offset;
    wr_logical_size := logical_size; wr_checksum_type := checksum_type;
    wr_flags := flags; wr_compressed_size := compressed_size;
    wr_compression_type := compression_type; wr_salt := salt; wr_iv := iv; wr_mac := mac |}).

Definition decode_spill (header : list Z) : res StreamError RecordKind :=
  let! object := le_u64 header 8 in
  let! logical_size := le_u64 header 16 in
  let! flags := index header 32 in
  let! compression_type := index header 33 in
  let! compressed_size := le_u64 header 40 in
  let! salt := slice header 48 56 in
  let! iv := slice header 56 68 in
  let! mac := slice header 68 84 in
  let! object_type := le_u32 header 84 in
  Ok (Spill {|
    sp_object := object; sp_logical_size := logical_size; sp_flags := flags;
    sp_compression_type := compression_type; sp_compressed_size := compressed_size;
    sp_salt := salt; sp_iv := iv; sp_mac := mac; sp_object_type := object_type |}).

Definition decode_write_embedded (header : list Z) : res StreamError RecordKind :=
  let! object := le_u64 header 8 in
  let! offset := le_u64 header 16 in
  let! length := le_u64 header 24 in
  let! compression_type := index header 40 in
  let! embedded_type := index header 41 in
  let! logical_size := le_u32 header 48 in
  let! physical_size := le_u32 header 52 in
  Ok (WriteEmbedded {|
    we_object := object; we_offset := offset; we_length := length;
    we_compression_type := compression_type; we_embedded_type := embedded_type;
    we_logical_size := logical_size; we_physical_size := physical_size |}).

Definition decode_object_range (header : list Z) : res StreamError RecordKind :=
  let! first_object := le_u64 header 8 in
  let! object_slots := le_u64 header 16 in
  let! salt := slice header 32 40 in
  let! iv := slice header 40 52 in
  let! mac := slice header 52 68 in
  let! flags := index header 68 in
  Ok (ObjectRange {|
    or_first_object := first_object; or_object_slots := object_slots;
    or_salt := salt; or_iv := iv; or_mac := mac; or_flags := flags |}).

Definition decode_free (header : list Z) : res StreamError RecordKind :=
  let! object := le_u64 header 8 in
  let! offset := le_u64 header 16 in
  let! length := le_u64 header 24 in
  Ok (Free {| fr_object := object; fr_offset := offset; fr_length := length |}).

Definition decode_free_objects (header : list Z) : res StreamError RecordKind :=
  let! first_object := le_u64 header 8 in
  let! object_count := le_u64 header 16 in
  Ok (FreeObjects {| fo_first_object := first_object; fo_object_count := object_count |}).

(** The final arm is [unreachable!], a panic. *)
Definition decode_kind (header : list Z) (record_type offset : Z) : res StreamError RecordKind :=
  if record_type =? DRR_BEGIN then decode_begin header offset
  else if record_type =? DRR_OBJECT then decode_object header
  else if record_type =? DRR_FREEOBJECTS then decode_free_objects header
  else if record_type =? DRR_WRITE then decode_write header
  else if record_type =? DRR_FREE then decode_free header
  else if record_type =? DRR_END then Ok End_
  else if record_type =? DRR_WRITE_BYREF then Ok WriteByRef
  else if record_type =? DRR_SPILL then decode_spill header
  else if record_type =? DRR_WRITE_EMBEDDED then decode_write_embedded header
  else if record_type =? DRR_OBJECT_RANGE then decode_object_range header
  else if record_type =? DRR_REDACT then Ok Redact
  else Panic.

(** ** The reader (lines 204-424) *)

Record StreamReader (R : Type) := {
  inner : R;
  offset : Z;
  started : bool;
  segment_open : bool;
  compound_open : bool;
  saw_end : bool;
  checksum : Fletcher4;
  begin : option BeginRecord;
}.
Arguments inner {R} _.
Arguments offset {R} _.
Arguments started {R} _.
Arguments segment_open {R} _.
Arguments compound_open {R} _.
Arguments saw_end {R} _.
Arguments checksum {R} _.
Arguments begin {R} _.

Definition StreamReader_new {R} (r : R) : StreamReader R := {|
  inner := r; offset := 0; started := false; segment_open := false;
  compound_open := false; saw_end := false; checksum := Fletcher4_default;
  begin := None |}.

(** The new running checksum, or the error. *)
Definition validate_checksum (sum : Fletcher4) (header payload : list Z)
    (record_type offset : Z) : res StreamError Fletcher4 :=
  if record_type =? DRR_BEGIN then
    let! sum := Fletcher4_update Fletcher4_default header offset in
    let! at_payload := add offset RECORD_SIZE in
    Fletcher4_update sum payload at_payload
  else
    let! expected := if record_type =? DRR_END then read_checksum header 8 else Ok [0; 0; 0; 0] in
    fail! negb (all_zero expected) && negb (bytes_eqb expected (fletcher_array sum))
      with Checksum (offset + 8) in
    let! head := slice header 0 CHECKSUM_OFFSET in
    let! sum := Fletcher4_update sum head offset in
    let! record_checksum := read_checksum header CHECKSUM_OFFSET in
    fail! negb (all_zero record_checksum) && negb (bytes_eqb record_checksum (fletcher_array sum))
      with Checksum (offset + CHECKSUM_OFFSET) in
    if record_type =? DRR_END then Ok sum
    else
      let! tail := slice_from header CHECKSUM_OFFSET in
      let! at_tail := add offset CHECKSUM_OFFSET in
      let! sum := Fletcher4_update sum tail at_tail in
      let! at_payload := add offset RECORD_SIZE in
      Fletcher4_update sum payload at_payload.

(** The ordering checks between reading a header and reading its payload
    (lines 273-304): the record type and whether it concludes a compound
    stream. *)
Definition check_order {R} (self : StreamReader R) (record_type record_offset : Z)
  : res StreamError bool :=
  fail! DRR_NUMTYPES <=? record_type
    with Invalid record_offset "unknown replay record type {}" [record_type] in
  fail! negb (started self) && negb (record_type =? DRR_BEGIN)
    with Invalid record_offset "first replay record is not BEGIN" [] in
  fail! segment_open self && (record_type =? DRR_BEGIN)
    with Invalid record_offset "BEGIN record appears before the current substream's END" [] in
  let conclusion := (record_type =? DRR_END) && negb (segment_open self) in
  fail! conclusion && negb (compound_open self)
    with Invalid record_offset "END record appears without an open stream" [] in
  fail! negb (segment_open self) && negb (record_type =? DRR_BEGIN) && negb conclusion
    with Invalid record_offset "replay record appears outside a BEGIN/END substream" [] in
  Ok conclusion.

(** The state updates a decoded record causes (lines 337-371). *)
Definition apply_kind {R} (self : StreamReader R) (header : list Z) (k : RecordKind)
    (conclusion : bool) (record_offset : Z) : res StreamError (StreamReader R) :=
  match k with
  | Begin b =>
      let! magic := le_u64 header 8 in
      let! swapped := be_u64 header 8 in
      fail! negb (magic =? DMU_BACKUP_MAGIC)
        with Unsupported record_offset
          (if swapped =? DMU_BACKUP_MAGIC
           then "big-endian streams are not supported in this first release"
           else "bad ZFS send magic number") [] in
      let compound := header_type b =? DMU_COMPOUNDSTREAM in
      fail! compound && compound_open self
        with Invalid record_offset "nested compound streams are not supported" [] in
      Ok {| inner := inner self; offset := offset self; started := true;
            segment_open := true;
            compound_open := if compound then true else compound_open self;
            saw_end := saw_end self; checksum := checksum self;
            begin := if compound then begin self
                     else match begin self with None => Some b | Some b0 => Some b0 end |}
  | End_ =>
      Ok {| inner := inner self; offset := offset self; started := started self;
            segment_open := if conclusion then segment_open self else false;
            compound_open := if conclusion then false else compound_open self;
            saw_end := if conclusion then saw_end self else true;
            checksum := checksum self; begin := begin self |}
  | _ => Ok self
  end.

(** [next_record]. A reader is not used after an error (every caller propagates
    it with [?]), so the state is returned with a success only. *)
Definition next_record {R} `{Read R} (self : StreamReader R)
  : res StreamError (option Record_ * StreamReader R) :=
  let record_offset := offset self in
  let! (first, r) := map_err (Io record_offset) (read_one (inner self)) in
  match first with
  | None =>
      if negb (started self) then Ok (None, self)
      else if segment_open self then
        Err (Invalid record_offset "stream ended before an END record" [])
      else if compound_open self then
        Err (Invalid record_offset "compound stream ended before its conclusion record" [])
      else Ok (None, self)
  | Some first =>
      let! (rest, r) := map_err (Io record_offset) (read_exact (RECORD_SIZE - 1) r) in
      let header := first :: rest in
      let! record_type := le_u32 header 0 in
      let! conclusion := check_order self record_type record_offset in
      let! payload_size := payload_size header record_type record_offset in
      fail! MAX_PAYLOAD_SIZE <? payload_size
        with Invalid record_offset "record payload is too large ({} bytes)" [payload_size] in
      let! payload_len := ok_or (usize_try_from payload_size)
        (Invalid record_offset "record payload does not fit in memory" []) in
      let! (payload, r) :=
        map_err (Io (record_offset + RECORD_SIZE)) (read_exact payload_len r) in
      let! k := decode_kind header record_type record_offset in
      let! sum :=
        if conclusion then
          let! body := slice_from header 4 in
          fail! negb (all_zero body)
            with Invalid record_offset "compound conclusion record is not zero-filled" [] in
          Ok (checksum self)
        else validate_checksum (checksum self) header payload record_type record_offset in
      let! self := apply_kind {|
          inner := r; offset := offset self; started := started self;
          segment_open := segment_open self; compound_open := compound_open self;
          saw_end := saw_end self; checksum := sum; begin := begin self |}
        header k conclusion record_offset in
      let! next_offset := ok_or (checked_add (offset self) (RECORD_SIZE + payload_size))
        (Invalid record_offset "stream offset overflow" []) in
      Ok (Some {| stream_offset := record_offset; kind := k; payload := payload |},
          {| inner := inner self; offset := next_offset; started := started self;
             segment_open := segment_open self; compound_open := compound_open self;
             saw_end := saw_end self; checksum := checksum self; begin := begin self |})
  end.

(** [while let Some(record) = reader.next_record()? { .. }], collecting the
    records. [fuel] bounds the number of records. *)
Fixpoint read_all {R} `{Read R} (fuel : nat) (self : StreamReader R)
  : res StreamError (list Record_ * StreamReader R) :=
  match fuel with
  | O => OutOfFuel
  | S fuel =>
      let! (record, self) := next_record self in
      match record with
      | None => Ok ([], self)
      | Some record =>
          let! (records, self) := read_all fuel self in
          Ok (record :: records, self)
      end
  end.
