(* ===== verification/StreamFacts.v ===== *)
(** What the record reader guarantees: decoded records are in range and no input
    makes it panic; the records it accepts form a well-bracketed stream; it
    consumes the source and terminates. *)

From S2P Require Import Prelude Bytes Utf8 Stream.

(** ** Specifications *)

(** Field widths of the decoded records. *)
Definition begin_ok (r : BeginRecord) : Prop :=
  (header_type r = DMU_SUBSTREAM \/ header_type r = DMU_COMPOUNDSTREAM) /\
  is_u64 (to_guid r) /\ is_u64 (from_guid r) /\ is_u64 (creation_time r) /\
  is_u32 (objset_type r) /\ is_u32 (begin_flags r) /\ 0 <= features r < 2 ^ 56.

Definition kind_ok (k : RecordKind) : Prop :=
  match k with
  | Begin r => begin_ok r
  | Object r =>
      is_u64 (obj_object r) /\ is_u32 (obj_type r) /\ is_u32 (obj_bonus_type r) /\
      is_u32 (obj_block_size r) /\ is_u32 (obj_bonus_length r) /\
      is_byte (obj_checksum_type r) /\ is_byte (obj_compression r) /\
      is_byte (obj_dnode_slots r) /\ is_byte (obj_flags r) /\
      is_u32 (obj_raw_bonus_length r) /\ is_byte (obj_indirect_block_shift r) /\
      is_byte (obj_levels r) /\ is_byte (obj_block_pointers r) /\ is_u64 (obj_max_block_id r)
  | FreeObjects r => is_u64 (fo_first_object r) /\ is_u64 (fo_object_count r)
  | Write r =>
      is_u64 (wr_object r) /\ is_u32 (wr_object_type r) /\ is_u64 (wr_offset r) /\
      is_u64 (wr_logical_size r) /\ is_byte (wr_checksum_type r) /\ is_byte (wr_flags r) /\
      is_u64 (wr_compressed_size r) /\ is_byte (wr_compression_type r) /\
      fixed 8 (wr_salt r) /\ fixed 12 (wr_iv r) /\ fixed 16 (wr_mac r)
  | Free r => is_u64 (fr_object r) /\ is_u64 (fr_offset r) /\ is_u64 (fr_length r)
  | Spill r =>
      is_u64 (sp_object r) /\ is_u64 (sp_logical_size r) /\ is_byte (sp_flags r) /\
      is_byte (sp_compression_type r) /\ is_u64 (sp_compressed_size r) /\
      fixed 8 (sp_salt r) /\ fixed 12 (sp_iv r) /\ fixed 16 (sp_mac r) /\
      is_u32 (sp_object_type r)
  | WriteEmbedded r =>
      is_u64 (we_object r) /\ is_u64 (we_offset r) /\ is_u64 (we_length r) /\
      is_byte (we_compression_type r) /\ is_byte (we_embedded_type r) /\
      is_u32 (we_logical_size r) /\ is_u32 (we_physical_size r)
  | ObjectRange r =>
      is_u64 (or_first_object r) /\ is_u64 (or_object_slots r) /\
      fixed 8 (or_salt r) /\ fixed 12 (or_iv r) /\ fixed 16 (or_mac r) /\ is_byte (or_flags r)
  | End_ | WriteByRef | Redact => True
  end.

(** The bracketing alphabet of a stream, and the language of the format: plain
    segments and compound packages, in any order. *)
Inductive token : Type := TBegin | TCompound | TEnd | TData.

Definition token_of (k : RecordKind) : token :=
  match k with
  | Begin b => if header_type b =? DMU_COMPOUNDSTREAM then TCompound else TBegin
  | End_ => TEnd
  | _ => TData
  end.

Inductive segment : list token -> Prop :=
| segment_intro n : segment (TBegin :: replicate n TData ++ [TEnd]).

Inductive segments : list token -> Prop :=
| segments_nil : segments []
| segments_cons s ss : segment s -> segments ss -> segments (s ++ ss).

Inductive stream_language : list token -> Prop :=
| stream_nil : stream_language []
| stream_segment s ts : segment s -> stream_language ts -> stream_language (s ++ ts)
| stream_compound n ss ts :
    segments ss -> stream_language ts ->
    stream_language (TCompound :: replicate n TData ++ [TEnd] ++ ss ++ [TEnd] ++ ts).

(** The reader's control state. *)
Record control := { c_started : bool; c_segment : bool; c_compound : bool }.

Definition control_of {R} (r : StreamReader R) : control :=
  {| c_started := started r; c_segment := segment_open r; c_compound := compound_open r |}.

(** The transitions [next_record] may take, and the states in which the source
    may end. *)
Inductive control_step : control -> token -> control -> Prop :=
| step_begin st co :
    control_step {| c_started := st; c_segment := false; c_compound := co |} TBegin
                 {| c_started := true; c_segment := true; c_compound := co |}
| step_compound st :
    control_step {| c_started := st; c_segment := false; c_compound := false |} TCompound
                 {| c_started := true; c_segment := true; c_compound := true |}
| step_data co :
    control_step {| c_started := true; c_segment := true; c_compound := co |} TData
                 {| c_started := true; c_segment := true; c_compound := co |}
| step_end co :
    control_step {| c_started := true; c_segment := true; c_compound := co |} TEnd
                 {| c_started := true; c_segment := false; c_compound := co |}
| step_conclusion :
    control_step {| c_started := true; c_segment := false; c_compound := true |} TEnd
                 {| c_started := true; c_segment := false; c_compound := false |}.

Inductive control_run : control -> list token -> control -> Prop :=
| run_nil c : control_run c [] c
| run_cons c t c' ts c'' : control_step c t c' -> control_run c' ts c'' -> control_run c (t :: ts) c''.

Definition control_final (c : control) : Prop :=
  c_started c = false \/ (c_segment c = false /\ c_compound c = false).

(** A reader in mid-stream: the source is readable and the next offsets are far
    from the end of u64 (2^61 bytes of stream have not been read). *)
Definition MAX_OFFSET : Z := 2305843009213693952.

Definition reader_wf {R} `{ReadLaws R} (r : StreamReader R) : Prop :=
  reader_ok (inner r) /\ 0 <= offset r /\ offset r + remaining (inner r) <= MAX_OFFSET /\
  (segment_open r = true -> started r = true) /\
  (compound_open r = true -> started r = true) /\
  (started r = true -> segment_open r = true \/ saw_end r = true).

(** What one successful call does. *)
Definition next_post {R} `{ReadLaws R} (r : StreamReader R)
    (out : option Record_ * StreamReader R) : Prop :=
  match out with
  | (None, r') => r' = r /\ control_final (control_of r)
  | (Some record, r') =>
      reader_wf r' /\ kind_ok (kind record) /\ bytes_ok (payload record) /\
      len (payload record) <= MAX_PAYLOAD_SIZE /\
      stream_offset record = offset r /\
      offset r' = offset r + RECORD_SIZE + len (payload record) /\
      remaining (inner r') = remaining (inner r) - RECORD_SIZE - len (payload record) /\
      control_step (control_of r) (token_of (kind record)) (control_of r')
  end.

(** ** Field access *)

Lemma wp_le_u32 {E} l o (P : Z -> Prop) :
  bytes_ok l -> 0 <= o -> o + 4 <= len l -> (forall v, is_u32 v -> P v) -> wp (le_u32 (E:=E) l o) P.
Proof.
  intros Hl Ho Hlen HP. unfold le_u32. apply wp_bind, wp_slice; [lia|lia|].
  intros s -> Hs. apply wp_Ok, HP, le_val_u32; [auto with zse|lia].
Qed.

Lemma wp_le_u64 {E} l o (P : Z -> Prop) :
  bytes_ok l -> 0 <= o -> o + 8 <= len l -> (forall v, is_u64 v -> P v) -> wp (le_u64 (E:=E) l o) P.
Proof.
  intros Hl Ho Hlen HP. unfold le_u64. apply wp_bind, wp_slice; [lia|lia|].
  intros s -> Hs. apply wp_Ok, HP, le_val_u64; [auto with zse|lia].
Qed.

Lemma wp_be_u64 {E} l o (P : Z -> Prop) :
  0 <= o -> o + 8 <= len l -> (forall v, P v) -> wp (be_u64 (E:=E) l o) P.
Proof.
  intros Ho Hlen HP. unfold be_u64. apply wp_bind, wp_slice; [lia|lia|]. intros. by apply wp_Ok.
Qed.

Lemma wp_read_checksum {E} l o (P : list Z -> Prop) :
  bytes_ok l -> 0 <= o -> o + 32 <= len l -> (forall cs, P cs) -> wp (read_checksum (E:=E) l o) P.
Proof.
  intros Hl Ho Hlen HP. unfold read_checksum.
  do 4 (apply wp_bind, wp_le_u64; [done|lia|lia|]; intros). by apply wp_Ok.
Qed.

(** Step through the field reads of a 312-byte header. *)
Ltac field_step :=
  match goal with
  | |- wp (bind _ _) _ => apply wp_bind
  | |- wp (le_u32 _ _) _ => apply wp_le_u32; [assumption|lia|lia|]; intros
  | |- wp (le_u64 _ _) _ => apply wp_le_u64; [assumption|lia|lia|]; intros
  | |- wp (be_u64 _ _) _ => apply wp_be_u64; [lia|lia|]; intros
  | |- wp (index _ _) _ => apply wp_index_byte; [assumption|lia|]; intros
  | |- wp (slice _ _ _) _ => apply wp_slice_fixed; [assumption|lia|lia|]; intros
  | |- wp (read_checksum _ _) _ => apply wp_read_checksum; [assumption|lia|lia|]; intros
  | |- wp (Ok _) _ => apply wp_Ok
  | |- wp (Err _) _ => apply wp_Err
  | |- wp (if _ then Err _ else _) _ => apply wp_if; intros ?; [apply wp_Err|]
  end.

Lemma position_zero_bound l : 0 <= position_zero l <= len l.
Proof.
  induction l as [|b l IH]; [done|]. cbn [position_zero]. rewrite len_cons. case_match; lia.
Qed.

Section header.
Context (header : list Z) (Hlen : len header = RECORD_SIZE) (Hok : bytes_ok header).

Lemma wp_decode_begin off :
  wp (decode_begin header off) (fun k => exists b, k = Begin b /\ begin_ok b).
Proof.
  unfold RECORD_SIZE in Hlen. unfold decode_begin.
  repeat field_step.
  match goal with |- wp (slice ?s 0 _) _ =>
    pose proof (position_zero_bound s); apply wp_slice; [lia|lia|] end.
  intros name _ _. apply wp_Ok.
  eexists. split; [done|]. unfold begin_ok. cbn. split_and!; try done.
  - repeat match goal with Hx : negb (_ || _) = false |- _ =>
      apply negb_false_iff, orb_true_iff in Hx; destruct Hx; b2p; auto end.
  - match goal with |- 0 <= Z.land ?a (Z.ones 56) => apply Z.land_nonneg; right; done end.
  - rewrite Z.land_ones by lia. apply Z.mod_pos_bound. done.
Qed.

Lemma wp_decode_kind rt off :
  0 <= rt < DRR_NUMTYPES -> wp (decode_kind header rt off) (fun k => kind_ok k /\
    (rt = DRR_BEGIN <-> exists b, k = Begin b) /\ (rt = DRR_END <-> k = End_)).
Proof.
  intros Hrt. unfold decode_kind.
  destruct (Z.eqb_spec rt DRR_BEGIN) as [->|Hb].
  { eapply wp_mono; [|apply wp_decode_begin]. cbn. intros k (b & -> & Hb). naive_solver. }
  unfold RECORD_SIZE in Hlen.
  repeat (let H := fresh in
    match goal with |- context [rt =? ?c] => destruct (Z.eqb_spec rt c) as [H|H] end;
    [ subst rt;
      unfold decode_object, decode_free_objects, decode_write, decode_free, decode_spill,
        decode_write_embedded, decode_object_range;
      repeat field_step; split_and!; try done; cbn;
      (done || (split; [discriminate|first [discriminate|intros [? ?]; discriminate]])) | ]).
  exfalso. unfold DRR_NUMTYPES, DRR_BEGIN, DRR_OBJECT, DRR_FREEOBJECTS, DRR_WRITE, DRR_FREE,
    DRR_END, DRR_WRITE_BYREF, DRR_SPILL, DRR_WRITE_EMBEDDED, DRR_OBJECT_RANGE, DRR_REDACT in *. lia.
Qed.

Lemma wp_payload_size rt off : wp (payload_size header rt off) (fun n => 0 <= n).
Proof.
  unfold RECORD_SIZE in Hlen.
  assert (forall v, is_u32 v -> wp (round_up_8 v off) (fun n => 0 <= n)) as Hr.
  { intros v Hv. unfold round_up_8. apply wp_ok_or. intros n Hn.
    destruct (checked_add v 7) eqn:E; [|done]. apply checked_add_Some in E as [_ ->].
    injection Hn as <-. apply Z.land_nonneg. left. u64. }
  unfold payload_size.
  repeat first [apply wp_if; intros _ | field_step]; try u64; by apply Hr.
Qed.
End header.

(** ** One call of [next_record] *)

Lemma wp_Fletcher4_update sum l off (P : Fletcher4 -> Prop) :
  (forall s, P s) -> wp (Fletcher4_update sum l off) P.
Proof. intros. unfold Fletcher4_update. wp_steps. done. Qed.

Lemma wp_validate_checksum sum header payload rt off (P : Fletcher4 -> Prop) :
  len header = RECORD_SIZE -> bytes_ok header -> 0 <= off <= MAX_OFFSET ->
  (forall s, P s) -> wp (validate_checksum sum header payload rt off) P.
Proof.
  unfold RECORD_SIZE, MAX_OFFSET. intros Hlen Hok Hoff HP. unfold validate_checksum, RECORD_SIZE, CHECKSUM_OFFSET, slice_from.
  apply wp_if; intros _.
  - apply wp_bind, wp_Fletcher4_update. intros. apply wp_bind, wp_add; [lia|].
    by apply wp_Fletcher4_update.
  - apply wp_bind.
    apply (wp_mono _ (fun _ => True)).
    2:{ apply wp_if; intros _; [|done]. apply wp_read_checksum; [done|lia|lia|done]. }
    intros expected _. apply wp_if; intros _; [apply wp_Err|].
    repeat first [field_step | apply wp_Fletcher4_update; intros].
    apply wp_if; intros _; [by apply wp_Ok|].
    repeat first [field_step | apply wp_Fletcher4_update; intros | apply wp_add; [lia|]].
    apply HP.
Qed.

Section next_record.
Context {R : Type} `{ReadLaws R}.
Implicit Types r : StreamReader R.

Lemma wp_check_order r rt off (P : bool -> Prop) :
  0 <= rt ->
  (forall c, rt < DRR_NUMTYPES ->
     (started r = false -> rt = DRR_BEGIN) ->
     (segment_open r = true -> rt <> DRR_BEGIN) ->
     (c = true <-> rt = DRR_END /\ segment_open r = false) ->
     (c = true -> compound_open r = true) ->
     (segment_open r = false -> rt = DRR_BEGIN \/ c = true) -> P c) ->
  wp (check_order r rt off) P.
Proof.
  intros Hrt HP. unfold check_order. wp_steps. apply HP; clear HP.
  all: destruct (started r), (segment_open r), (compound_open r),
         (Z.eqb_spec rt DRR_BEGIN), (Z.eqb_spec rt DRR_END);
    cbn [andb negb orb] in *; b2p; try discriminate; unfold DRR_BEGIN, DRR_END in *; lia.
Qed.

Lemma wp_apply_kind r header k c off :
  len header = RECORD_SIZE -> bytes_ok header -> reader_ok (inner r) -> kind_ok k ->
  (segment_open r = true -> started r = true) ->
  (compound_open r = true -> started r = true) ->
  (started r = true -> segment_open r = true \/ saw_end r = true) ->
  (c = true <-> k = End_ /\ segment_open r = false) ->
  (c = true -> compound_open r = true) ->
  (segment_open r = true -> forall b, k <> Begin b) ->
  (segment_open r = false -> (exists b, k = Begin b) \/ c = true) ->
  wp (apply_kind r header k c off) (fun r' =>
    inner r' = inner r /\ offset r' = offset r /\
    (segment_open r' = true -> started r' = true) /\
    (compound_open r' = true -> started r' = true) /\
    (started r' = true -> segment_open r' = true \/ saw_end r' = true) /\
    control_step (control_of r) (token_of k) (control_of r')).
Proof.
  intros Hlen Hok Hr Hk H1 H2 H3 H4 H5 H6 H7. destruct r as [i o st sg co se cs bg].
  unfold RECORD_SIZE in Hlen. unfold control_of. cbn in *.
  assert (k <> End_ -> c = false) as Hc.
  { intros. destruct c; [|done]. by destruct (proj1 H4 eq_refl). }
  assert (c = false -> (forall b, k <> Begin b) -> sg = true) as Hsg.
  { intros -> Hb. destruct sg; [done|]. destruct (H7 eq_refl) as [[b Hkb]|?]; [by apply Hb in Hkb|done]. }
  destruct k as [b| | | | | | | | | |]; cbn [apply_kind token_of];
    try (rewrite Hc in * by done; rewrite (Hsg eq_refl) in * by done; rewrite H1 by done;
         apply wp_Ok; cbn; split_and!; auto; constructor).
  - rewrite Hc in * by done. clear Hc Hsg.
    destruct sg; [by destruct (H6 eq_refl b)|].
    repeat field_step. cbn.
    destruct Hk as [[Hh|Hh] _]; rewrite Hh in *; cbn in *.
    + split_and!; auto. constructor.
    + destruct co; [done|]. split_and!; auto. constructor.
  - apply wp_Ok. cbn. destruct c.
    + destruct (proj1 H4 eq_refl) as [_ ->]. rewrite H5, H2 in * by auto.
      split_and!; auto. constructor.
    + rewrite (Hsg eq_refl) in * by done. rewrite H1 by done.
      split_and!; auto. constructor.
Qed.

Lemma wp_next_record r : reader_wf r -> wp (next_record r) (next_post r).
Proof.
  intros (Hr & Ho & Hm & H1 & H2 & H3). unfold next_record.
  apply wp_bind, wp_map_err. pose proof (remaining_nonneg (inner r)) as Hrem.
  eapply wp_mono; [|by apply read_one_spec].
  intros [[b|] src1] (Hr1 & Hb).
  2:{ repeat (apply wp_if; intros ?); b2p; try apply wp_Err; apply wp_Ok; cbn; (split; [done|]);
      [by left|right; by split]. }
  destruct Hb as [Hb Hrem1]. apply wp_bind, wp_map_err.
  eapply wp_mono; [|apply read_exact_spec; [done|exact Hr1]].
  intros [rest src2] (Hr2 & Hrest & Hrlen & Hrem2).
  pose proof (remaining_nonneg src2). unfold RECORD_SIZE in Hrlen, Hrem2.
  set (header := b :: rest).
  assert (len header = RECORD_SIZE) as Hlen by (unfold header; rewrite len_cons, Hrlen; done).
  assert (bytes_ok header) as Hok by (by constructor).
  apply wp_bind, wp_le_u32; [done|lia|rewrite Hlen; done|]. intros rt Hrt.
  apply wp_bind, wp_check_order; [u64|]. intros c Hn Hst Hsb Hc Hcc Hsf.
  apply wp_bind. eapply wp_mono; [|by apply wp_payload_size]. intros n Hn0. cbn beta.
  apply wp_if; intros Hmax; [apply wp_Err|]. b2p.
  apply wp_bind, wp_ok_or. intros n' Hn'. unfold usize_try_from in Hn'.
  destruct (n <=? U64_MAX); [|done]. injection Hn' as <-.
  apply wp_bind, wp_map_err. eapply wp_mono; [|apply read_exact_spec; [done|exact Hr2]].
  intros [p src3] (Hr3 & Hp & Hplen & Hrem3). pose proof (remaining_nonneg src3).
  apply wp_bind. eapply wp_mono; [|apply (wp_decode_kind header Hlen Hok); u64].
  intros k (Hk & Hkb & Hke). cbn beta.
  apply wp_bind. apply (wp_mono _ (fun _ => True)).
  2:{ apply wp_if; intros _.
      - apply wp_bind, wp_slice; [unfold RECORD_SIZE in Hlen; lia|lia|]. intros. by wp_steps.
      - apply wp_validate_checksum; auto. lia. }
  intros sum _. apply wp_bind.
  eapply wp_mono; [|apply wp_apply_kind; cbn; eauto].
  - intros r' (Hi & Hof & G1 & G2 & G3 & Hstep). cbn in Hi, Hof, Hstep.
    apply wp_bind, wp_ok_or. intros o' Ho'. apply wp_Ok.
    unfold RECORD_SIZE in *. apply checked_add_Some in Ho' as [_ ->].
    unfold next_post, reader_wf, RECORD_SIZE. cbn.
    rewrite Hi, Hof. split_and!; auto; lia.
  - rewrite Hc, Hke. done.
  - intros Hso b' ->. by apply (Hsb Hso), Hkb; eauto.
  - intros Hso. destruct (Hsf Hso) as [E|E]; [left; by apply Hkb|by right].
Qed.
End next_record.

(** ** The whole stream *)

Section read_all.
Context {R : Type} `{ReadLaws R}.
Implicit Types r : StreamReader R.

Definition tokens (records : list Record_) : list token :=
  map (fun record => token_of (kind record)) records.

(** Enough fuel: one unit per 312 bytes left, and one to see the end. *)
Lemma wp_read_all fuel r :
  reader_wf r -> remaining (inner r) < RECORD_SIZE * Z.of_nat fuel ->
  wp (read_all fuel r) (fun '(records, r') =>
    control_run (control_of r) (tokens records) (control_of r') /\
    control_final (control_of r') /\ reader_wf r' /\
    offset r' = offset r + RECORD_SIZE * len records
      + foldr (fun record n => len (payload record) + n) 0 records /\
    Forall (fun record => kind_ok (kind record)) records).
Proof.
  revert r. induction fuel as [|fuel IH]; intros r Hwf Hfuel.
  { pose proof (remaining_nonneg (inner r)). unfold RECORD_SIZE in *. lia. }
  cbn [read_all]. apply wp_bind.
  eapply wp_mono; [|by apply wp_next_record].
  intros [[record|] r'].
  - intros (Hwf' & Hk & Hp & Hpl & Hso & Ho & Hrem & Hstep).
    apply wp_bind. eapply wp_mono; [|apply IH; [done|]].
    2:{ pose proof (len_nonneg (payload record)). unfold RECORD_SIZE in *. lia. }
    intros [records r''] (Hrun & Hfin & Hwf'' & Hoff & Hks). apply wp_Ok.
    split_and!; try done.
    + by econstructor.
    + rewrite Hoff, Ho, len_cons. cbn [foldr]. unfold RECORD_SIZE. lia.
    + by constructor.
  - intros [-> Hfin]. apply wp_Ok. split_and!; try done.
    + constructor.
    + change (len []) with 0. cbn [foldr]. lia.
Qed.
End read_all.

(** ** The reader's control automaton accepts exactly the format's language *)

Definition lang_from (c : control) (ts : list token) : Prop :=
  match c_segment c, c_compound c with
  | false, false => stream_language ts
  | true, false =>
      exists n rest, ts = replicate n TData ++ TEnd :: rest /\ stream_language rest
  | false, true =>
      exists ss rest, segments ss /\ ts = ss ++ TEnd :: rest /\ stream_language rest
  | true, true =>
      exists n ss rest, ts = replicate n TData ++ TEnd :: ss ++ TEnd :: rest /\
        segments ss /\ stream_language rest
  end.

Lemma stream_language_segment n rest :
  stream_language rest -> stream_language (TBegin :: replicate n TData ++ TEnd :: rest).
Proof.
  intros. replace (TBegin :: replicate n TData ++ TEnd :: rest)
    with ((TBegin :: replicate n TData ++ [TEnd]) ++ rest) by (cbn; by rewrite <- app_assoc).
  by apply stream_segment; [constructor|].
Qed.

Lemma segments_segment n ss :
  segments ss -> segments (TBegin :: replicate n TData ++ TEnd :: ss).
Proof.
  intros. replace (TBegin :: replicate n TData ++ TEnd :: ss)
    with ((TBegin :: replicate n TData ++ [TEnd]) ++ ss) by (cbn; by rewrite <- app_assoc).
  by apply segments_cons; [constructor|].
Qed.

Lemma stream_language_compound n ss rest :
  segments ss -> stream_language rest ->
  stream_language (TCompound :: replicate n TData ++ TEnd :: ss ++ TEnd :: rest).
Proof. apply stream_compound. Qed.

Lemma control_run_sound c ts c' :
  control_run c ts c' ->
  (c_started c = false -> c_segment c = false /\ c_compound c = false) ->
  control_final c' -> lang_from c ts.
Proof.
  induction 1 as [c|c t c' ts c'' Hstep Hrun IH]; intros Hwf Hfin.
  - unfold lang_from, control_final in *. destruct c as [st sg co]. cbn in *.
    destruct Hfin as [->|[-> ->]]; [destruct (Hwf eq_refl) as [-> ->]|]; constructor.
  - inversion Hstep; subst; cbn in *; unfold lang_from in *; cbn in *;
      specialize (IH ltac:(done) Hfin).
    + destruct co.
      * destruct IH as (n & ss & rest & -> & Hss & Hr). exists (TBegin :: replicate n TData ++ TEnd :: ss), rest.
        split_and!; [by apply segments_segment| |done]. cbn. by rewrite <- app_assoc.
      * destruct IH as (n & rest & -> & Hr). by apply stream_language_segment.
    + destruct IH as (n & ss & rest & -> & Hss & Hr). by apply stream_language_compound.
    + destruct co.
      * destruct IH as (n & ss & rest & -> & Hss & Hr). by exists (S n), ss, rest.
      * destruct IH as (n & rest & -> & Hr). by exists (S n), rest.
    + destruct co.
      * destruct IH as (ss & rest & Hss & -> & Hr). by exists O, ss, rest.
      * by exists O, ts.
    + exists [], ts. split_and!; [constructor|done..].
Qed.

Lemma control_run_app c ts1 c1 ts2 c2 :
  control_run c ts1 c1 -> control_run c1 ts2 c2 -> control_run c (ts1 ++ ts2) c2.
Proof. induction 1; cbn; [done|]. intros. econstructor; eauto. Qed.

Lemma control_run_data n co :
  let c := {| c_started := true; c_segment := true; c_compound := co |} in
  control_run c (replicate n TData) c.
Proof. induction n; cbn; [constructor|]. econstructor; [constructor|done]. Qed.

Lemma control_run_segment st co s :
  segment s ->
  control_run {| c_started := st; c_segment := false; c_compound := co |} s
              {| c_started := true; c_segment := false; c_compound := co |}.
Proof.
  intros [n]. econstructor; [constructor|].
  eapply control_run_app; [apply control_run_data|]. econstructor; [constructor|constructor].
Qed.

Lemma control_run_segments ss :
  segments ss ->
  let c := {| c_started := true; c_segment := false; c_compound := true |} in
  control_run c ss c.
Proof.
  induction 1 as [|s ss Hs Hss IH]; [constructor|].
  eapply control_run_app; [by apply control_run_segment|done].
Qed.

Lemma control_run_complete ts :
  stream_language ts -> forall st,
  exists c, control_run {| c_started := st; c_segment := false; c_compound := false |} ts c /\
    control_final c.
Proof.
  induction 1 as [|s ts Hs Hts IH|n ss ts Hss Hts IH]; intros st.
  - eexists. split; [constructor|]. by right.
  - destruct (IH true) as (c & Hc & Hf). exists c. split; [|done].
    eapply control_run_app; [by apply control_run_segment|done].
  - destruct (IH true) as (c & Hc & Hf). exists c. split; [|done].
    econstructor; [constructor|].
    eapply control_run_app; [apply control_run_data|].
    econstructor; [constructor|].
    eapply control_run_app; [by apply control_run_segments|].
    econstructor; [constructor|done].
Qed.

(** ** The in-memory source *)

#[export] Program Instance ReadLaws_list : ReadLaws (list Z) := {|
  reader_ok := bytes_ok; remaining := len |}.
Next Obligation. intros. apply len_nonneg. Qed.
Next Obligation.
  intros r Hr. destruct r as [|b r]; cbn; [done|]. inversion Hr; subst.
  split_and!; try done. rewrite len_cons. lia.
Qed.
Next Obligation.
  intros n r Hn Hr. cbn. apply wp_if; intros H; [|done]. b2p. cbn.
  split_and!; auto with zse; rewrite ?len_ztake, ?len_zdrop; lia.
Qed.

Lemma reader_wf_new src :
  bytes_ok src -> len src <= MAX_OFFSET -> reader_wf (StreamReader_new src).
Proof. intros. unfold reader_wf. cbn. split_and!; try done; lia. Qed.
