(* ===== verification/Fletcher.v ===== *)
(** Fletcher-4 as src/src/stream.rs computes it: closed form, detection of
    single-word corruption, and what that means for [validate_checksum]. *)

From S2P Require Import Prelude Bytes Stream.

(** ** Reference definition *)

(** The binomial coefficient C(n, k). *)
Fixpoint binom (n k : nat) : Z :=
  match k, n with
  | O, _ => 1
  | S _, O => 0
  | S k', S n' => binom n' k' + binom n' k
  end.

(** The k-th Fletcher sum of a word sequence, in unbounded integers: the word at
    distance d from the end weighs C(d + k, k). *)
Fixpoint weighted_sum (k : nat) (ws : list Z) : Z :=
  match ws with
  | [] => 0
  | w :: ws => binom (length ws + k) k * w + weighted_sum k ws
  end.

Definition fletcher_reference (ws : list Z) : Fletcher4 := {|
  f0 := weighted_sum 0 ws mod TWO64; f1 := weighted_sum 1 ws mod TWO64;
  f2 := weighted_sum 2 ws mod TWO64; f3 := weighted_sum 3 ws mod TWO64 |}.

Definition fletcher_words (ws : list Z) : Fletcher4 := foldl fletcher_word Fletcher4_default ws.

(** Replace the [i]-th aligned 32-bit word of a buffer. *)
Definition replace_word (l : list Z) (i : nat) (w : list Z) : list Z :=
  take (4 * i) l ++ w ++ drop (4 * i + 4) l.

(** ** Closed form *)

Lemma binom_0_r n : binom n 0 = 1.
Proof. by destruct n. Qed.

Lemma weighted_sum_snoc_0 ws w : weighted_sum 0 (ws ++ [w]) = weighted_sum 0 ws + w.
Proof.
  induction ws as [|x ws IH]; [cbn; lia|].
  change ((x :: ws) ++ [w]) with (x :: ws ++ [w]). cbn [weighted_sum].
  rewrite !binom_0_r, IH. lia.
Qed.

Lemma weighted_sum_snoc k ws w :
  weighted_sum (S k) (ws ++ [w]) = weighted_sum (S k) ws + weighted_sum k (ws ++ [w]).
Proof.
  induction ws as [|x ws IH].
  - cbn [app weighted_sum length]. rewrite !Nat.add_0_l.
    assert (forall k, binom k k = 1) as Hd.
    { clear. intros k. induction k as [|k IH]; [done|]. cbn [binom]. rewrite IH.
      assert (forall n m, (n < m)%nat -> binom n m = 0) as Hz.
      { clear. induction n as [|n IH]; intros [|m] ?; try lia; cbn [binom]; [done|].
        rewrite !IH by lia. lia. }
      rewrite Hz by lia. lia. }
    rewrite !Hd. lia.
  - change ((x :: ws) ++ [w]) with (x :: ws ++ [w]). cbn [weighted_sum].
    rewrite IH, length_app. cbn [length].
    replace (length ws + 1 + S k)%nat with (S (length ws + S k)) by lia.
    replace (length ws + 1 + k)%nat with (length ws + S k)%nat by lia.
    cbn [binom]. lia.
Qed.

Lemma fletcher_words_snoc ws w :
  fletcher_words (ws ++ [w]) = fletcher_word (fletcher_words ws) w.
Proof. unfold fletcher_words. by rewrite foldl_snoc. Qed.

Lemma wrapping_add_mod_l a b : wrapping_add (a mod TWO64) b = (a + b) mod TWO64.
Proof. unfold wrapping_add. by rewrite Zplus_mod_idemp_l. Qed.

Lemma fletcher_words_reference ws : fletcher_words ws = fletcher_reference ws.
Proof.
  induction ws as [|w ws IH] using rev_ind; [done|].
  rewrite fletcher_words_snoc, IH. unfold fletcher_word, fletcher_reference. cbn [f0 f1 f2 f3].
  rewrite !weighted_sum_snoc, weighted_sum_snoc_0.
  by rewrite !wrapping_add_mod_l, !Zplus_mod_idemp_r.
Qed.

(** ** Words of a buffer *)

Lemma le_words_app a b : len a mod 4 = 0 -> le_words (a ++ b) = le_words a ++ le_words b.
Proof.
  remember (length a) as n eqn:Hn. revert a Hn.
  induction (lt_wf n) as [n _ IH]. intros a Hn Ha.
  destruct a as [|x0 [|x1 [|x2 [|x3 a]]]]; try done; [discriminate Ha..|].
  cbn [app le_words]. f_equal. cbn [length] in Hn.
  apply (IH (length a)); [lia|done|].
  revert Ha. unfold len. cbn [length].
  replace (Z.of_nat (S (S (S (S (length a)))))) with (Z.of_nat (length a) + 1 * 4) by lia.
  by rewrite Z.mod_add by lia.
Qed.

Lemma Fletcher4_update_Ok s l off s' :
  Fletcher4_update s l off = Ok s' <-> len l mod 4 = 0 /\ s' = foldl fletcher_word s (le_words l).
Proof. unfold Fletcher4_update. case_match; b2p; naive_solver. Qed.

Lemma weighted_sum_0_app a b : weighted_sum 0 (a ++ b) = weighted_sum 0 a + weighted_sum 0 b.
Proof.
  induction a as [|x a IH]; [done|].
  change ((x :: a) ++ b) with (x :: a ++ b). cbn [weighted_sum]. rewrite !binom_0_r, IH. lia.
Qed.

Lemma foldl_fletcher_f0 s ws :
  f0 (foldl fletcher_word s ws) = match ws with [] => f0 s | _ => (f0 s + weighted_sum 0 ws) mod TWO64 end.
Proof.
  revert s. induction ws as [|w ws IH]; intros s; [done|].
  cbn [foldl]. rewrite IH. cbn [weighted_sum fletcher_word f0]. rewrite binom_0_r.
  unfold wrapping_add. destruct ws as [|w' ws']; [cbn [weighted_sum]; f_equal; lia|].
  rewrite Zplus_mod_idemp_l. f_equal. lia.
Qed.

(** Changing one 32-bit word changes the first sum. *)
Lemma fletcher_single_word_f0 s ws1 w w' ws2 :
  is_u32 w -> is_u32 w' -> w <> w' ->
  f0 (foldl fletcher_word s (ws1 ++ w :: ws2)) <> f0 (foldl fletcher_word s (ws1 ++ w' :: ws2)).
Proof.
  intros Hw Hw' Hne. rewrite !foldl_fletcher_f0, !weighted_sum_0_app.
  assert (forall x : Z, exists y ys, ws1 ++ x :: ws2 = y :: ys) as Hc.
  { intros x. destruct ws1; cbn; eauto. }
  destruct (Hc w) as (?&?&->), (Hc w') as (?&?&->).
  cbn [weighted_sum]. rewrite !binom_0_r. intros Heq. apply Hne.
  set (c := f0 s + weighted_sum 0 ws1 + weighted_sum 0 ws2).
  assert ((c + w) mod TWO64 = (c + w') mod TWO64) as Hm.
  { transitivity ((f0 s + (weighted_sum 0 ws1 + (1 * w + weighted_sum 0 ws2))) mod TWO64);
      [f_equal; unfold c; lia|].
    rewrite Heq. f_equal. unfold c; lia. }
  assert ((w - w') mod TWO64 = 0) as Hz.
  { replace (w - w') with ((c + w) - (c + w')) by lia.
    rewrite Zminus_mod, Hm, Z.sub_diag. done. }
  apply Z.mod_divide in Hz; [|lia]. destruct Hz as [q Hq]. u64.
Qed.

(** ** Consequences for [validate_checksum] *)

Definition word_at (l : list Z) (i : nat) : list Z := take 4 (drop (4 * i) l).

Definition fletcher_wf (s : Fletcher4) : Prop := is_u64 (f0 s).

Lemma replace_word_split l i w :
  (4 * i + 4 <= length l)%nat -> length w = 4%nat ->
  replace_word l i w = take (4 * i) l ++ w ++ drop (4 * i + 4) l /\
  l = take (4 * i) l ++ word_at l i ++ drop (4 * i + 4) l /\
  length (word_at l i) = 4%nat.
Proof.
  intros Hi Hw. split; [done|]. unfold word_at. split.
  - rewrite <- (take_drop (4 * i) l) at 1. f_equal.
    rewrite <- (take_drop 4 (drop (4 * i) l)) at 1. by rewrite drop_drop.
  - rewrite length_take, length_drop. lia.
Qed.

Lemma le_words_4 w : length w = 4%nat -> le_words w = [le_val w].
Proof. destruct w as [|a [|b [|c [|d [|e w]]]]]; try done. Qed.

Lemma le_words_replace l i w :
  (4 * i + 4 <= length l)%nat -> length w = 4%nat ->
  exists ws1 ws2,
    le_words l = ws1 ++ le_val (word_at l i) :: ws2 /\
    le_words (replace_word l i w) = ws1 ++ le_val w :: ws2.
Proof.
  intros Hi Hw. destruct (replace_word_split l i w Hi Hw) as (Hr & Hl & H4).
  exists (le_words (take (4 * i) l)), (le_words (drop (4 * i + 4) l)).
  assert (len (take (4 * i) l) mod 4 = 0) as Hm.
  { unfold len. rewrite length_take_le by lia.
    replace (Z.of_nat (4 * i)) with (Z.of_nat i * 4) by lia. apply Z.mod_mul. lia. }
  assert (forall v : list Z, length v = 4%nat -> len v mod 4 = 0) as Hv4.
  { intros v Hv. unfold len. by rewrite Hv. }
  split.
  - rewrite Hl at 1. rewrite le_words_app, le_words_app by auto. by rewrite (le_words_4 (word_at l i)).
  - rewrite Hr. rewrite le_words_app, le_words_app by auto. by rewrite (le_words_4 w).
Qed.

Lemma foldl_fletcher_f0_ne s s' ws :
  fletcher_wf s -> fletcher_wf s' -> f0 s <> f0 s' ->
  f0 (foldl fletcher_word s ws) <> f0 (foldl fletcher_word s' ws).
Proof.
  intros Hs Hs' Hne. rewrite !foldl_fletcher_f0. destruct ws as [|w ws]; [done|].
  set (x := weighted_sum 0 (w :: ws)). intros Heq. apply Hne.
  assert ((f0 s - f0 s') mod TWO64 = 0) as Hz.
  { replace (f0 s - f0 s') with ((f0 s + x) - (f0 s' + x)) by lia.
    rewrite Zminus_mod, Heq, Z.sub_diag. done. }
  unfold fletcher_wf in *. apply Z.mod_divide in Hz; [|lia]. destruct Hz as [q Hq]. u64.
Qed.

Lemma foldl_fletcher_wf s ws : fletcher_wf s -> fletcher_wf (foldl fletcher_word s ws).
Proof.
  unfold fletcher_wf. rewrite foldl_fletcher_f0. intros. destruct ws; [done|].
  match goal with |- is_u64 (?a mod _) => pose proof (Z.mod_pos_bound a TWO64) end. u64.
Qed.

(** What acceptance of a record other than BEGIN says. *)
Lemma validate_checksum_inv sum header payload rt off sum' :
  rt <> DRR_BEGIN ->
  validate_checksum sum header payload rt off = Ok sum' ->
  exists cs,
    read_checksum (E:=StreamError) header CHECKSUM_OFFSET = Ok cs /\
    let body := foldl fletcher_word sum (le_words (ztake CHECKSUM_OFFSET header)) in
    (all_zero cs = false -> cs = fletcher_array body) /\
    (rt <> DRR_END ->
     len payload mod 4 = 0 /\
     sum' = foldl fletcher_word
              (foldl fletcher_word body (le_words (zdrop CHECKSUM_OFFSET header)))
              (le_words payload)).
Proof.
  intros Hrt. unfold validate_checksum. rewrite (proj2 (Z.eqb_neq _ _) Hrt). intros H.
  inv_ok. rename r0 into head, r1 into sum1, r2 into cs. exists cs. split; [done|].
  apply slice_Ok in Hr0 as (_ & Hlen & ->). change (CHECKSUM_OFFSET - 0) with CHECKSUM_OFFSET in Hr1.
  rewrite (zdrop_0 0) in Hr1 by lia.
  apply Fletcher4_update_Ok in Hr1 as (_ & ->). cbn zeta. split.
  - intros Hnz. rewrite Hnz in Heqb0. cbn in Heqb0. apply negb_false_iff in Heqb0.
    by apply bytes_eqb_eq in Heqb0.
  - intros Hne. rewrite (proj2 (Z.eqb_neq _ _) Hne) in H. inv_ok.
    match goal with Hs : slice_from header _ = Ok _ |- _ => apply slice_Ok in Hs as (_ & _ & ->) end.
    match goal with Hu : Fletcher4_update _ (ztake _ _) _ = Ok _ |- _ =>
      rewrite (ztake_all (len header - CHECKSUM_OFFSET)) in Hu by (rewrite len_zdrop; lia);
      apply Fletcher4_update_Ok in Hu as (_ & ->) end.
    apply Fletcher4_update_Ok in H as (? & ->). done.
Qed.

Lemma read_checksum_total {E} (l : list Z) o :
  0 <= o -> o + 32 <= len l -> exists cs, read_checksum (E:=E) l o = Ok cs.
Proof.
  intros Ho Hl.
  assert (forall k, 0 <= k -> k + 8 <= len l -> exists v, le_u64 (E:=E) l k = Ok v) as Hu.
  { intros k Hk Hkl. unfold le_u64.
    rewrite (proj2 (slice_Ok l k (k + 8) (ztake (k + 8 - k) (zdrop k l)))) by (split_and!; try lia; done).
    cbn. eauto. }
  unfold read_checksum.
  destruct (Hu o) as [a ->]; [lia..|]. destruct (Hu (o + 8)) as [b ->]; [lia..|].
  destruct (Hu (o + 16)) as [c ->]; [lia..|]. destruct (Hu (o + 24)) as [d ->]; [lia..|].
  cbn. eauto.
Qed.

(** A record whose head sums to something else than its stored checksum is
    refused with a checksum error. *)
Lemma validate_checksum_mismatch sum header payload rt off cs :
  rt <> DRR_BEGIN -> len header = RECORD_SIZE ->
  read_checksum (E:=StreamError) header CHECKSUM_OFFSET = Ok cs -> all_zero cs = false ->
  cs <> fletcher_array (foldl fletcher_word sum (le_words (ztake CHECKSUM_OFFSET header))) ->
  exists o, validate_checksum sum header payload rt off = Err (Checksum o).
Proof.
  intros Hrt Hlen Hcs Hnz Hne. unfold validate_checksum.
  rewrite (proj2 (Z.eqb_neq _ _) Hrt).
  set (m := if rt =? DRR_END then read_checksum (E:=StreamError) header 8 else Ok [0; 0; 0; 0]).
  assert (exists v, m = Ok v) as [v Hv].
  { subst m. destruct (rt =? DRR_END); [|eauto].
    apply read_checksum_total; unfold RECORD_SIZE in *; lia. }
  rewrite Hv. cbn [bind]. destruct (negb (all_zero v) && _); [eauto|].
  assert (slice (E:=StreamError) header 0 CHECKSUM_OFFSET = Ok (ztake CHECKSUM_OFFSET header)) as ->.
  { apply slice_Ok. unfold CHECKSUM_OFFSET, RECORD_SIZE in *. rewrite zdrop_0 by lia. split_and!; try lia; done. }
  cbn [bind].
  assert (len (ztake CHECKSUM_OFFSET header) mod 4 = 0) as Hal by (rewrite len_ztake, Hlen; reflexivity).
  rewrite (proj2 (Fletcher4_update_Ok sum (ztake CHECKSUM_OFFSET header) off _) (conj Hal eq_refl)).
  cbn [bind]. rewrite Hcs. cbn [bind]. rewrite Hnz.
  destruct (bytes_eqb cs _) eqn:E; [apply bytes_eqb_eq in E; done|]. cbn. eauto.
Qed.

Lemma fletcher_array_f0 s s' : fletcher_array s = fletcher_array s' -> f0 s = f0 s'.
Proof. unfold fletcher_array. congruence. Qed.

Lemma ztake_replace_word l i w n :
  (4 * i + 4 <= Z.to_nat n)%nat -> (Z.to_nat n <= length l)%nat -> length w = 4%nat ->
  ztake n (replace_word l i w) = replace_word (ztake n l) i w.
Proof.
  intros Hi Hn Hw. unfold replace_word, ztake.
  rewrite take_app, length_take_le by lia.
  rewrite (take_ge (take (4 * i) l)) by (rewrite length_take; lia).
  rewrite take_app, Hw. rewrite (take_ge w) by lia.
  rewrite take_take. f_equal; [f_equal; lia|]. f_equal.
  rewrite take_drop_commute. repeat f_equal. lia.
Qed.

Lemma zdrop_replace_word l i w n :
  (4 * i + 4 <= Z.to_nat n)%nat -> (Z.to_nat n <= length l)%nat -> length w = 4%nat ->
  zdrop n (replace_word l i w) = zdrop n l.
Proof.
  intros Hi Hn Hw. unfold replace_word, zdrop.
  rewrite drop_app, length_take_le by lia.
  rewrite (drop_ge (take (4 * i) l)) by (rewrite length_take; lia).
  rewrite drop_app, Hw. rewrite (drop_ge w) by lia.
  cbn [app]. rewrite drop_drop. f_equal. lia.
Qed.

Lemma read_checksum_zdrop {E} l l' n o :
  0 <= n <= o -> len l = len l' -> zdrop n l = zdrop n l' ->
  read_checksum (E:=E) l o = read_checksum l' o.
Proof.
  intros Hno Hl Hd.
  assert (forall k, n <= k -> le_u64 (E:=E) l k = le_u64 l' k) as Hu.
  { intros k Hk. unfold le_u64, slice, get_range. rewrite Hl.
    replace k with (n + (k - n)) by lia.
    by rewrite <- (zdrop_zdrop (k - n) n l), <- (zdrop_zdrop (k - n) n l'), Hd by lia. }
  unfold read_checksum. by rewrite !Hu by lia.
Qed.

Lemma len_replace_word l i w :
  (4 * i + 4 <= length l)%nat -> length w = 4%nat -> len (replace_word l i w) = len l.
Proof.
  intros. unfold replace_word, len. rewrite !length_app, length_take, length_drop. lia.
Qed.

Lemma corrupted_header_rejected sum header payload rt off sum' cs i w :
  rt <> DRR_BEGIN -> len header = RECORD_SIZE -> bytes_ok header ->
  read_checksum (E:=StreamError) header CHECKSUM_OFFSET = Ok cs -> all_zero cs = false ->
  validate_checksum sum header payload rt off = Ok sum' ->
  (i < 70)%nat -> bytes_ok w -> length w = 4%nat -> word_at header i <> w ->
  exists o, validate_checksum sum (replace_word header i w) payload rt off = Err (Checksum o).
Proof.
  intros Hrt Hlen Hok Hcs Hnz Hv Hi Hw Hw4 Hne.
  destruct (validate_checksum_inv _ _ _ _ _ _ Hrt Hv) as (cs' & Hcs' & Hacc & _).
  rewrite Hcs in Hcs'. injection Hcs' as <-. specialize (Hacc Hnz).
  assert (length header = 312%nat) as Hn by (unfold len, RECORD_SIZE in Hlen; lia).
  assert (Z.to_nat CHECKSUM_OFFSET = 280%nat) as H280 by done.
  apply (validate_checksum_mismatch sum _ payload rt off cs); try done.
  - by rewrite len_replace_word by lia.
  - rewrite <- Hcs. apply (read_checksum_zdrop _ _ CHECKSUM_OFFSET); [done| |].
    + by rewrite len_replace_word by lia.
    + by rewrite zdrop_replace_word by lia.
  - rewrite Hacc. intros Heq%fletcher_array_f0. revert Heq.
    rewrite ztake_replace_word by lia.
    destruct (le_words_replace (ztake CHECKSUM_OFFSET header) i w) as (ws1 & ws2 & -> & ->).
    { unfold ztake. rewrite length_take. lia. }
    { done. }
    apply fletcher_single_word_f0.
    + apply le_val_u32; [|unfold len; unfold word_at, ztake;
        rewrite length_take, length_drop, length_take; lia].
      apply Forall_take, Forall_drop. auto with zse.
    + apply le_val_u32; [done|]. unfold len. by rewrite Hw4.
    + intros Heq. apply Hne.
      assert (word_at (ztake CHECKSUM_OFFSET header) i = word_at header i) as Hwd.
      { unfold word_at, ztake. rewrite !take_drop_commute, take_take. repeat f_equal. lia. }
      rewrite Hwd in Heq. apply le_val_inj in Heq; [done| |done|].
      * apply Forall_take, Forall_drop. done.
      * rewrite Hw4. unfold word_at. rewrite length_take, length_drop. lia.
Qed.

Lemma corrupted_payload_rejected sum header payload rt off sum1 sum2 i w
    header2 payload2 rt2 off2 sum3 cs2 :
  rt <> DRR_BEGIN -> rt <> DRR_END -> rt2 <> DRR_BEGIN ->
  fletcher_wf sum -> bytes_ok payload -> bytes_ok w -> length w = 4%nat ->
  (4 * i + 4 <= length payload)%nat -> word_at payload i <> w ->
  validate_checksum sum header payload rt off = Ok sum1 ->
  validate_checksum sum header (replace_word payload i w) rt off = Ok sum2 ->
  len header2 = RECORD_SIZE ->
  read_checksum (E:=StreamError) header2 CHECKSUM_OFFSET = Ok cs2 -> all_zero cs2 = false ->
  validate_checksum sum1 header2 payload2 rt2 off2 = Ok sum3 ->
  exists o, validate_checksum sum2 header2 payload2 rt2 off2 = Err (Checksum o).
Proof.
  intros Hrt Hend Hrt2 Hsum Hok Hw Hw4 Hi Hne Hv1 Hv2 Hlen2 Hcs2 Hnz2 Hv3.
  destruct (validate_checksum_inv _ _ _ _ _ _ Hrt Hv1) as (c1 & _ & _ & H1).
  destruct (validate_checksum_inv _ _ _ _ _ _ Hrt Hv2) as (c2 & _ & _ & H2).
  destruct (H1 Hend) as (_ & ->). destruct (H2 Hend) as (_ & ->). clear H1 H2.
  set (body := foldl _ (foldl _ sum _) _) in *.
  assert (fletcher_wf body) as Hb by (by do 2 apply foldl_fletcher_wf).
  destruct (validate_checksum_inv _ _ _ _ _ _ Hrt2 Hv3) as (c3 & Hc3 & Hacc & _).
  rewrite Hcs2 in Hc3. injection Hc3 as <-. specialize (Hacc Hnz2).
  apply (validate_checksum_mismatch _ _ payload2 rt2 off2 cs2); try done.
  rewrite Hacc. intros Heq%fletcher_array_f0. revert Heq.
  apply foldl_fletcher_f0_ne; try by apply foldl_fletcher_wf.
  destruct (le_words_replace payload i w) as (ws1 & ws2 & -> & ->); try done.
  apply fletcher_single_word_f0.
  - apply le_val_u32; [by apply Forall_take, Forall_drop|].
    unfold len, word_at. rewrite length_take, length_drop. lia.
  - apply le_val_u32; [done|]. unfold len. by rewrite Hw4.
  - intros Heq. apply Hne. apply le_val_inj in Heq; [done| |done|].
    + by apply Forall_take, Forall_drop.
    + rewrite Hw4. unfold word_at. rewrite length_take, length_drop. lia.
Qed.
