(* ===== verification/StreamWriter.v ===== *)
(** A reference writer for the replay format, and the round trip: what it writes
    is read back by [next_record] record by record. The field offsets are those
    of the table in docs/format-notes.md and of OpenZFS's
    [dmu_replay_record_t]. *)

From S2P Require Import Prelude Bytes Utf8 Stream StreamFacts.

(** ** Definitions *)

Definition type_of (k : RecordKind) : Z :=
  match k with
  | Begin _ => DRR_BEGIN | Object _ => DRR_OBJECT | FreeObjects _ => DRR_FREEOBJECTS
  | Write _ => DRR_WRITE | Free _ => DRR_FREE | End_ => DRR_END
  | WriteByRef => DRR_WRITE_BYREF | Spill _ => DRR_SPILL
  | WriteEmbedded _ => DRR_WRITE_EMBEDDED | ObjectRange _ => DRR_OBJECT_RANGE
  | Redact => DRR_REDACT
  end.

(** The fields after the type and payload-length words, in order. [sum] is the
    checksum an END record carries in its body. *)
Definition fields (sum : Fletcher4) (k : RecordKind) : list Z :=
  match k with
  | Begin r =>
      le_bytes 8 DMU_BACKUP_MAGIC ++ le_bytes 8 (header_type r + 4 * features r) ++
      le_bytes 8 (creation_time r) ++ le_bytes 4 (objset_type r) ++
      le_bytes 4 (begin_flags r) ++ le_bytes 8 (to_guid r) ++ le_bytes 8 (from_guid r) ++
      dataset_name r
  | Object r =>
      le_bytes 8 (obj_object r) ++ le_bytes 4 (obj_type r) ++ le_bytes 4 (obj_bonus_type r) ++
      le_bytes 4 (obj_block_size r) ++ le_bytes 4 (obj_bonus_length r) ++
      [obj_checksum_type r] ++ [obj_compression r] ++ [obj_dnode_slots r] ++ [obj_flags r] ++
      le_bytes 4 (obj_raw_bonus_length r) ++ zrepeat 8 0 ++
      [obj_indirect_block_shift r] ++ [obj_levels r] ++ [obj_block_pointers r] ++ zrepeat 5 0 ++
      le_bytes 8 (obj_max_block_id r)
  | FreeObjects r => le_bytes 8 (fo_first_object r) ++ le_bytes 8 (fo_object_count r)
  | Write r =>
      le_bytes 8 (wr_object r) ++ le_bytes 4 (wr_object_type r) ++ zrepeat 4 0 ++
      le_bytes 8 (wr_offset r) ++ le_bytes 8 (wr_logical_size r) ++ zrepeat 8 0 ++
      [wr_checksum_type r] ++ [wr_flags r] ++ [wr_compression_type r] ++ zrepeat 45 0 ++
      le_bytes 8 (wr_compressed_size r) ++ wr_salt r ++ wr_iv r ++ wr_mac r
  | Free r => le_bytes 8 (fr_object r) ++ le_bytes 8 (fr_offset r) ++ le_bytes 8 (fr_length r)
  | End_ => le_bytes 8 (f0 sum) ++ le_bytes 8 (f1 sum) ++ le_bytes 8 (f2 sum) ++ le_bytes 8 (f3 sum)
  | WriteByRef | Redact => []
  | Spill r =>
      le_bytes 8 (sp_object r) ++ le_bytes 8 (sp_logical_size r) ++ zrepeat 8 0 ++
      [sp_flags r] ++ [sp_compression_type r] ++ zrepeat 6 0 ++
      le_bytes 8 (sp_compressed_size r) ++ sp_salt r ++ sp_iv r ++ sp_mac r ++
      le_bytes 4 (sp_object_type r)
  | WriteEmbedded r =>
      le_bytes 8 (we_object r) ++ le_bytes 8 (we_offset r) ++ le_bytes 8 (we_length r) ++
      zrepeat 8 0 ++ [we_compression_type r] ++ [we_embedded_type r] ++ zrepeat 6 0 ++
      le_bytes 4 (we_logical_size r) ++ le_bytes 4 (we_physical_size r)
  | ObjectRange r =>
      le_bytes 8 (or_first_object r) ++ le_bytes 8 (or_object_slots r) ++ zrepeat 8 0 ++
      or_salt r ++ or_iv r ++ or_mac r ++ [or_flags r]
  end.

Definition pad (n : Z) (l : list Z) : list Z := l ++ zrepeat (n - len l) 0.

(** The header up to the trailing checksum (all of it for BEGIN). *)
Definition head (sum : Fletcher4) (k : RecordKind) (payload_len : Z) : list Z :=
  le_bytes 4 (type_of k) ++ le_bytes 4 (match k with Begin _ => payload_len | _ => 0 end) ++
  pad (match k with Begin _ => 304 | _ => 272 end) (fields sum k).

Definition checksum_bytes (s : Fletcher4) : list Z :=
  le_bytes 8 (f0 s) ++ le_bytes 8 (f1 s) ++ le_bytes 8 (f2 s) ++ le_bytes 8 (f3 s).

Definition sum_words (s : Fletcher4) (l : list Z) : Fletcher4 := foldl fletcher_word s (le_words l).

(** One record on the wire, and the running checksum after it. *)
Definition write_record (sum : Fletcher4) (k : RecordKind) (payload : list Z) : list Z * Fletcher4 :=
  let h := head sum k (len payload) in
  match k with
  | Begin _ => (h ++ payload, sum_words (sum_words Fletcher4_default h) payload)
  | _ =>
      let at_checksum := sum_words sum h in
      let cs := checksum_bytes at_checksum in
      (h ++ cs ++ payload,
       match k with
       | End_ => at_checksum
       | _ => sum_words (sum_words at_checksum cs) payload
       end)
  end.

(** The zero-filled END that closes a compound package. *)
Definition conclusion_bytes : list Z := le_bytes 4 DRR_END ++ zrepeat 308 0.

Definition control_next (c : control) (t : token) : control :=
  match t with
  | TBegin => {| c_started := true; c_segment := true; c_compound := c_compound c |}
  | TCompound => {| c_started := true; c_segment := true; c_compound := true |}
  | TData => c
  | TEnd => if c_segment c
            then {| c_started := true; c_segment := false; c_compound := c_compound c |}
            else {| c_started := true; c_segment := false; c_compound := false |}
  end.

Fixpoint write_stream (c : control) (sum : Fletcher4) (rs : list (RecordKind * list Z)) : list Z :=
  match rs with
  | [] => []
  | (k, payload) :: rs =>
      let c' := control_next c (token_of k) in
      if match k with End_ => negb (c_segment c) | _ => false end
      then conclusion_bytes ++ write_stream c' sum rs
      else let '(bytes, sum') := write_record sum k payload in
           bytes ++ write_stream c' sum' rs
  end.

Definition initial_control : control :=
  {| c_started := false; c_segment := false; c_compound := false |}.

Definition round8 (v : Z) : Z := Z.land (v + 7) (Z.lnot 7).

(** The payload length a header announces. *)
Definition payload_len_of (k : RecordKind) (payload : list Z) : Z :=
  match k with
  | Begin _ => len payload
  | Object r => if obj_raw_bonus_length r =? 0 then round8 (obj_bonus_length r)
                else obj_raw_bonus_length r
  | Write r => if wr_compression_type r =? 0 then wr_logical_size r else wr_compressed_size r
  | Spill r => if sp_compressed_size r =? 0 then sp_logical_size r else sp_compressed_size r
  | WriteEmbedded r => round8 (we_physical_size r)
  | _ => 0
  end.

(** Records the format can carry: fields in range, a NUL-free dataset name of at
    most 256 bytes, a word-aligned payload of the announced length. *)
Definition encodable (x : RecordKind * list Z) : Prop :=
  let '(k, payload) := x in
  kind_ok k /\ bytes_ok payload /\ len payload mod 4 = 0 /\
  len payload = payload_len_of k payload /\ len payload <= MAX_PAYLOAD_SIZE /\
  match k with
  | Begin r => bytes_ok (dataset_name r) /\ Forall (fun b => b <> 0) (dataset_name r) /\
               len (dataset_name r) <= 256 /\ utf8_valid (dataset_name r) = true
  | _ => True
  end.

Definition content (records : list Record_) : list (RecordKind * list Z) :=
  map (fun record => (kind record, payload record)) records.

(** ** Reading a field of a concatenation *)

Section reads.
Context {E : Type}.

Lemma get_range_app_skip {A} (a b : list A) x y :
  len a <= x -> get_range (a ++ b) x y = get_range b (x - len a) (y - len a).
Proof.
  intros Hx. unfold get_range. rewrite len_app.
  destruct (Z.leb_spec x y) as [Hxy|Hxy].
  2:{ rewrite (proj2 (Z.leb_gt (x - len a) (y - len a))) by lia.
      by rewrite !andb_false_r. }
  destruct (Z.leb_spec y (len a + len b)) as [Hy|Hy].
  - rewrite !(proj2 (Z.leb_le _ _)) by len_lia. cbn. f_equal.
    rewrite zdrop_app, (zdrop_all x) by done. cbn. f_equal. lia.
  - rewrite (proj2 (Z.leb_gt (y - len a) (len b))) by lia. by rewrite !andb_false_r.
Qed.

Lemma slice_app_skip {A} (a b : list A) x y :
  len a <= x -> slice (E:=E) (a ++ b) x y = slice b (x - len a) (y - len a).
Proof. intros. unfold slice. by rewrite get_range_app_skip. Qed.

Lemma slice_app_here {A} (a b : list A) x y :
  x = 0 -> y = len a -> slice (E:=E) (a ++ b) x y = Ok a.
Proof.
  intros -> ->. apply slice_Ok. rewrite len_app. split_and!; try len_lia.
  rewrite zdrop_0 by lia. by rewrite ztake_app_len by lia.
Qed.

Lemma le_u64_app_skip a b o : len a <= o -> le_u64 (E:=E) (a ++ b) o = le_u64 b (o - len a).
Proof.
  intros. unfold le_u64. rewrite slice_app_skip by done. do 2 f_equal. lia.
Qed.

Lemma le_u32_app_skip a b o : len a <= o -> le_u32 (E:=E) (a ++ b) o = le_u32 b (o - len a).
Proof.
  intros. unfold le_u32. rewrite slice_app_skip by done. do 2 f_equal. lia.
Qed.

Lemma be_u64_app_skip a b o : len a <= o -> be_u64 (E:=E) (a ++ b) o = be_u64 b (o - len a).
Proof.
  intros. unfold be_u64. rewrite slice_app_skip by done. do 2 f_equal. lia.
Qed.

Lemma le_u64_here v b o : o = 0 -> is_u64 v -> le_u64 (E:=E) (le_bytes 8 v ++ b) o = Ok v.
Proof.
  intros -> ?. unfold le_u64. rewrite slice_app_here by (rewrite ?len_le_bytes; done).
  cbn [bind]. by rewrite le_val_u64_roundtrip.
Qed.

Lemma le_u32_here v b o : o = 0 -> is_u32 v -> le_u32 (E:=E) (le_bytes 4 v ++ b) o = Ok v.
Proof.
  intros -> ?. unfold le_u32. rewrite slice_app_here by (rewrite ?len_le_bytes; done).
  cbn [bind]. by rewrite le_val_u32_roundtrip.
Qed.

Lemma get_app_skip {A} (a b : list A) o : len a <= o -> get (a ++ b) o = get b (o - len a).
Proof.
  intros Ho. unfold get. rewrite len_app. pose proof (len_nonneg a).
  rewrite !(proj2 (Z.leb_le 0 _)) by lia. cbn [andb].
  destruct (Z.ltb_spec o (len a + len b)).
  - rewrite (proj2 (Z.ltb_lt _ _)) by lia. unfold len in *.
    rewrite lookup_app_r by lia. f_equal. lia.
  - by rewrite (proj2 (Z.ltb_ge (o - len a) (len b))) by lia.
Qed.

Lemma index_app_skip {A} (a b : list A) o : len a <= o -> index (E:=E) (a ++ b) o = index b (o - len a).
Proof. intros. unfold index. by rewrite get_app_skip. Qed.

Lemma be_u64_here v b o : o = 0 -> be_u64 (E:=E) (le_bytes 8 v ++ b) o = Ok (be_val (le_bytes 8 v)).
Proof.
  intros ->. unfold be_u64. rewrite slice_app_here by (rewrite ?len_le_bytes; done). done.
Qed.

Lemma index_here {A} (x : A) b o : o = 0 -> index (E:=E) ([x] ++ b) o = Ok x.
Proof.
  intros ->. unfold index, get. rewrite len_app. change (len [x]) with 1. pose proof (len_nonneg b).
  rewrite (proj2 (Z.ltb_lt _ _)) by lia. done.
Qed.
End reads.

Lemma len_singleton {A} (x : A) : len [x] = 1.
Proof. done. Qed.
#[export] Hint Rewrite @len_singleton : len.

(** Side conditions about the length of a fixed-size field. *)
Ltac field_len := autorewrite with len; repeat match goal with H : len _ = _ |- _ => rewrite H end; lia.

(** Evaluate one field read of a header written as a concatenation. *)
Ltac read_field :=
  first
  [ rewrite le_u64_here by first [assumption | field_len]
  | rewrite le_u32_here by first [assumption | field_len]
  | rewrite be_u64_here by field_len
  | rewrite index_here by field_len
  | rewrite slice_app_here by field_len
  | rewrite le_u64_app_skip by field_len
  | rewrite le_u32_app_skip by field_len
  | rewrite be_u64_app_skip by field_len
  | rewrite index_app_skip by field_len
  | rewrite slice_app_skip by field_len ].
Ltac read_fields := repeat (repeat read_field; cbn [bind]).

(** ** Decoding what was written *)

Definition header_of (sum : Fletcher4) (k : RecordKind) (payload_len : Z) : list Z :=
  head sum k payload_len ++
  match k with Begin _ => [] | _ => checksum_bytes (sum_words sum (head sum k payload_len)) end.

Lemma header_split sum k n :
  exists plen tail, header_of sum k n = le_bytes 4 (type_of k) ++ le_bytes 4 plen ++ fields sum k ++ tail.
Proof.
  unfold header_of, head, pad. do 2 eexists. by rewrite <- !app_assoc.
Qed.

Ltac decode_written :=
  match goal with |- ?f (header_of ?s ?k ?n) = _ =>
    let plen := fresh in let tail := fresh in let E := fresh in
    destruct (header_split s k n) as (plen & tail & E); rewrite E; clear E;
    unfold f; cbn [fields]; rewrite <- !app_assoc; read_fields
  end.

Section decode.
Context (sum : Fletcher4) (n : Z).

Lemma decode_object_written r :
  kind_ok (Object r) -> decode_object (header_of sum (Object r) n) = Ok (Object r).
Proof.
  intros Hk. cbn [kind_ok] in Hk. destruct_and!. decode_written. by destruct r.
Qed.

Lemma decode_write_written r :
  kind_ok (Write r) -> decode_write (header_of sum (Write r) n) = Ok (Write r).
Proof.
  intros Hk. cbn [kind_ok] in Hk. unfold fixed in Hk. destruct_and!. decode_written. by destruct r.
Qed.

Lemma decode_spill_written r :
  kind_ok (Spill r) -> decode_spill (header_of sum (Spill r) n) = Ok (Spill r).
Proof.
  intros Hk. cbn [kind_ok] in Hk. unfold fixed in Hk. destruct_and!. decode_written. by destruct r.
Qed.

Lemma decode_write_embedded_written r :
  kind_ok (WriteEmbedded r) ->
  decode_write_embedded (header_of sum (WriteEmbedded r) n) = Ok (WriteEmbedded r).
Proof.
  intros Hk. cbn [kind_ok] in Hk. destruct_and!. decode_written. by destruct r.
Qed.

Lemma decode_object_range_written r :
  kind_ok (ObjectRange r) ->
  decode_object_range (header_of sum (ObjectRange r) n) = Ok (ObjectRange r).
Proof.
  intros Hk. cbn [kind_ok] in Hk. unfold fixed in Hk. destruct_and!. decode_written. by destruct r.
Qed.

Lemma decode_free_written r :
  kind_ok (Free r) -> decode_free (header_of sum (Free r) n) = Ok (Free r).
Proof.
  intros Hk. cbn [kind_ok] in Hk. destruct_and!. decode_written. by destruct r.
Qed.

Lemma decode_free_objects_written r :
  kind_ok (FreeObjects r) ->
  decode_free_objects (header_of sum (FreeObjects r) n) = Ok (FreeObjects r).
Proof.
  intros Hk. cbn [kind_ok] in Hk. destruct_and!. decode_written. by destruct r.
Qed.
End decode.

Lemma position_zero_name name k :
  Forall (fun b => b <> 0) name -> position_zero (name ++ zrepeat k 0) = len name.
Proof.
  induction 1 as [|b name Hb Hname IH]; cbn [app position_zero].
  - unfold zrepeat. by destruct (Z.to_nat k).
  - rewrite len_cons. case_match; b2p; [done|]. by rewrite IH.
Qed.

Lemma decode_begin_written sum r n off :
  kind_ok (Begin r) -> bytes_ok (dataset_name r) -> Forall (fun b => b <> 0) (dataset_name r) ->
  len (dataset_name r) <= 256 -> utf8_valid (dataset_name r) = true ->
  decode_begin (header_of sum (Begin r) n) off = Ok (Begin r).
Proof.
  intros (Hh & Hk) Hb Hnz Hl Hu. destruct_and!.
  unfold header_of, head, pad. cbn [fields]. rewrite <- !app_assoc, app_nil_r.
  set (z := 304 - _). assert (z = 256 - len (dataset_name r)) as -> by (subst z; len_lia).
  assert (is_u64 DMU_BACKUP_MAGIC) by (unfold DMU_BACKUP_MAGIC; u64).
  assert (is_u64 (header_type r + 4 * features r)).
  { change (2 ^ 56) with 72057594037927936 in *. unfold DMU_SUBSTREAM, DMU_COMPOUNDSTREAM in Hh. u64. }
  unfold decode_begin. read_fields. rewrite Z.eqb_refl. cbn [negb andb]. read_fields.
  assert (Z.land (header_type r + 4 * features r) 3 = header_type r) as Ht.
  { change 3 with (Z.ones 2). rewrite Z.land_ones by lia. change (2 ^ 2) with 4.
    rewrite Z.mul_comm, Z.mod_add by lia. apply Z.mod_small.
    unfold DMU_SUBSTREAM, DMU_COMPOUNDSTREAM in Hh. lia. }
  assert (Z.land (Z.shiftr (header_type r + 4 * features r) 2) (Z.ones 56) = features r) as Hf.
  { rewrite Z.shiftr_div_pow2, Z.land_ones by lia. change (2 ^ 2) with 4.
    rewrite Z.mul_comm, Z.div_add by lia.
    rewrite Z.div_small by (unfold DMU_SUBSTREAM, DMU_COMPOUNDSTREAM in Hh; lia).
    apply Z.mod_small. lia. }
  rewrite Ht, Hf.
  replace (negb _) with false by (destruct Hh as [-> | ->]; done).
  read_fields.
  set (name := dataset_name r) in *.
  match goal with |- context [slice (name ++ zrepeat ?c 0) ?x ?y] =>
    assert (slice (E:=StreamError) (name ++ zrepeat c 0) x y = Ok (name ++ zrepeat c 0)) as -> end.
  { rewrite <- (app_nil_r (name ++ _)) at 1. rewrite slice_app_here; [done|len_lia|len_lia]. }
  cbn [bind]. read_fields.
  rewrite position_zero_name by done. rewrite slice_app_here by done. cbn [bind].
  rewrite from_utf8_lossy_valid by done. by destruct r.
Qed.

Lemma decode_kind_written sum k payload off :
  encodable (k, payload) ->
  decode_kind (header_of sum k (len payload)) (type_of k) off = Ok k.
Proof.
  intros (Hk & Hp & Hm & Hl & Hmax & Hb).
  destruct k; cbn [type_of]; unfold decode_kind;
    repeat match goal with |- context [?a =? ?b] =>
      let v := eval vm_compute in (a =? b) in change (a =? b) with v; cbv iota end; try done;
    auto using decode_object_written, decode_write_written, decode_spill_written,
      decode_write_embedded_written, decode_object_range_written, decode_free_written,
      decode_free_objects_written.
  destruct_and!. by apply decode_begin_written.
Qed.

(** ** Lengths of what is written *)

Lemma fields_len sum x :
  encodable x -> len (fields sum (fst x)) <= match fst x with Begin _ => 304 | _ => 272 end.
Proof.
  destruct x as [k p]. intros (Hk & _ & _ & _ & _ & Hb).
  destruct k; cbn [fst fields]; cbn [kind_ok] in Hk; unfold fixed in Hk; destruct_and?;
    autorewrite with len; repeat match goal with Hx : len _ = _ |- _ => rewrite Hx end; try lia.
Qed.

Lemma len_head sum k p :
  encodable (k, p) -> len (head sum k (len p)) = match k with Begin _ => RECORD_SIZE | _ => CHECKSUM_OFFSET end.
Proof.
  intros He. pose proof (fields_len sum (k, p) He) as Hf. cbn [fst] in Hf.
  pose proof (len_nonneg (fields sum k)). unfold head, pad, RECORD_SIZE, CHECKSUM_OFFSET.
  autorewrite with len. destruct k; lia.
Qed.

Lemma bytes_ok_byte x : is_byte x -> bytes_ok [x].
Proof. intros. by constructor. Qed.

Lemma bytes_ok_zeros n : bytes_ok (zrepeat n 0).
Proof. apply Forall_zrepeat. done. Qed.
#[local] Hint Resolve bytes_ok_byte bytes_ok_zeros Forall_app_2 : zse.

Lemma head_ok sum k p : encodable (k, p) -> bytes_ok (head sum k (len p)).
Proof.
  intros (Hk & _ & _ & _ & _ & Hb). unfold head, pad.
  assert (bytes_ok (fields sum k)).
  { destruct k; cbn [fields]; cbn [kind_ok] in Hk; unfold fixed, begin_ok in Hk; destruct_and?;
      auto 40 with zse. }
  auto 10 with zse.
Qed.

Lemma len_checksum_bytes s : len (checksum_bytes s) = 32.
Proof. unfold checksum_bytes. by autorewrite with len. Qed.

Lemma checksum_bytes_ok s : bytes_ok (checksum_bytes s).
Proof. unfold checksum_bytes. auto with zse. Qed.

Lemma len_header_of sum k p :
  encodable (k, p) -> len (header_of sum k (len p)) = RECORD_SIZE.
Proof.
  intros He. unfold header_of. rewrite len_app, (len_head sum k p) by done.
  destruct k; rewrite ?len_checksum_bytes; done.
Qed.

Lemma header_of_ok sum k p : encodable (k, p) -> bytes_ok (header_of sum k (len p)).
Proof.
  intros He. unfold header_of. apply Forall_app_2; [by apply head_ok|].
  destruct k; auto using checksum_bytes_ok.
Qed.

Lemma round_up_8_value v off : is_u32 v -> round_up_8 v off = Ok (round8 v).
Proof.
  intros. unfold round_up_8. assert (checked_add v 7 = Some (v + 7)) as ->; [|done].
  apply checked_add_Some. u64.
Qed.

Lemma payload_size_written sum k p off :
  encodable (k, p) ->
  payload_size (header_of sum k (len p)) (type_of k) off = Ok (len p).
Proof.
  intros (Hk & Hp & Hm & Hl & Hmax & Hb).
  destruct (header_split sum k (len p)) as (plen & tail & E).
  destruct k; unfold payload_size; cbn [type_of];
    repeat match goal with |- context [?a =? ?b] =>
      let v := eval vm_compute in (a =? b) in change (a =? b) with v; cbv iota end;
    cbn [kind_ok] in Hk; unfold fixed in Hk; destruct_and?; cbn [payload_len_of] in Hl;
    try (by rewrite Hl); try (rewrite E, Hl; cbn [fields]; rewrite <- !app_assoc; read_fields).
  - unfold header_of, head. rewrite <- !app_assoc. read_field.
    rewrite le_u32_here; [done|field_len|]. unfold MAX_PAYLOAD_SIZE in Hmax.
    pose proof (len_nonneg p). u64.
  - destruct (obj_raw_bonus_length r =? 0); [|done]. cbn [negb]. read_fields. by apply round_up_8_value.
  - destruct (wr_compression_type r =? 0); read_fields; done.
  - destruct (sp_compressed_size r =? 0); read_fields; done.
  - by apply round_up_8_value.
Qed.

(** ** Checksums of what was written *)

Definition sum_ok (s : Fletcher4) : Prop :=
  is_u64 (f0 s) /\ is_u64 (f1 s) /\ is_u64 (f2 s) /\ is_u64 (f3 s).

Lemma sum_words_ok s l : sum_ok s -> sum_ok (sum_words s l).
Proof.
  unfold sum_words. generalize (le_words l). intros ws. revert s.
  induction ws as [|w ws IH]; intros s Hs; [done|].
  cbn [foldl]. apply IH. unfold sum_ok, fletcher_word, wrapping_add. cbn.
  split_and!; match goal with |- is_u64 (?a mod _) => pose proof (Z.mod_pos_bound a TWO64) end; u64.
Qed.

Lemma read_checksum_written {E} s a b o :
  sum_ok s -> o = len a -> read_checksum (E:=E) (a ++ checksum_bytes s ++ b) o = Ok (fletcher_array s).
Proof.
  intros (H0 & H1 & H2 & H3) ->. unfold read_checksum, checksum_bytes. rewrite <- !app_assoc.
  read_fields. done.
Qed.

Lemma update_Ok s l off : len l mod 4 = 0 -> Fletcher4_update s l off = Ok (sum_words s l).
Proof. intros Hm. unfold Fletcher4_update. by rewrite Hm. Qed.

Lemma negb_bytes_eqb_refl a b : negb (all_zero a) && negb (bytes_eqb b b) = false.
Proof. rewrite bytes_eqb_refl. apply andb_false_r. Qed.

Lemma validate_checksum_begin sum0 sum r p off :
  encodable (Begin r, p) -> 0 <= off <= MAX_OFFSET ->
  validate_checksum sum0 (header_of sum (Begin r) (len p)) p DRR_BEGIN off
  = Ok (write_record sum (Begin r) p).2.
Proof.
  intros He Hoff. unfold validate_checksum. cbn [Z.eqb DRR_BEGIN].
  rewrite update_Ok by (by rewrite len_header_of). cbn [bind].
  unfold MAX_OFFSET, RECORD_SIZE in *. rewrite (proj2 (add_Ok off 312 (off + 312))) by lia. cbn [bind].
  rewrite update_Ok by apply He. unfold header_of. by rewrite app_nil_r.
Qed.

Lemma validate_checksum_written sum k p off :
  encodable (k, p) -> sum_ok sum -> 0 <= off <= MAX_OFFSET ->
  (forall r, k <> Begin r) ->
  validate_checksum sum (header_of sum k (len p)) p (type_of k) off = Ok (write_record sum k p).2.
Proof.
  intros He Hs Hoff Hb. pose proof (len_head sum k p He) as Hlh.
  assert (type_of k <> DRR_BEGIN) as Ht by (destruct k; try done; by destruct (Hb r)).
  assert (header_of sum k (len p) = head sum k (len p) ++ checksum_bytes (sum_words sum (head sum k (len p))))
    as Hh by (unfold header_of; destruct k; try done; by destruct (Hb r)).
  replace (match k with Begin _ => RECORD_SIZE | _ => CHECKSUM_OFFSET end) with CHECKSUM_OFFSET
    in Hlh by (destruct k; try done; by destruct (Hb r)).
  unfold validate_checksum. rewrite (proj2 (Z.eqb_neq _ _) Ht).
  set (sum1 := sum_words sum (head sum k (len p))) in *.
  assert (sum_ok sum1) as Hs1 by by apply sum_words_ok.
  assert (bind (if type_of k =? DRR_END then read_checksum (header_of sum k (len p)) 8 else Ok [0; 0; 0; 0])
    (fun expected => if negb (all_zero expected) && negb (bytes_eqb expected (fletcher_array sum))
                     then Err (Checksum (off + 8)) else Ok tt) = Ok tt) as Hend.
  { destruct (Z.eqb_spec (type_of k) DRR_END) as [Hk|_]; [|done].
    destruct k; try discriminate Hk. unfold header_of, head, pad. cbn [fields].
    change (le_bytes 8 (f0 sum) ++ le_bytes 8 (f1 sum) ++ le_bytes 8 (f2 sum) ++ le_bytes 8 (f3 sum))
      with (checksum_bytes sum). rewrite <- !app_assoc.
    rewrite app_assoc, read_checksum_written by (done || field_len). cbn [bind].
    by rewrite negb_bytes_eqb_refl. }
  destruct (if type_of k =? DRR_END then _ else _) as [expected| | |]; try done.
  cbn [bind] in *. destruct (negb (all_zero expected) && _); [done|]. clear Hend expected.
  rewrite Hh. rewrite slice_app_here by (done || lia). cbn [bind].
  rewrite update_Ok by (by rewrite Hlh). cbn [bind]. fold sum1.
  rewrite <- (app_nil_r (head _ _ _ ++ _)), <- app_assoc at 1.
  rewrite read_checksum_written by (done || lia). cbn [bind]. rewrite negb_bytes_eqb_refl.
  unfold slice_from. rewrite len_app, len_checksum_bytes, Hlh.
  rewrite <- (app_nil_r (checksum_bytes sum1)).
  rewrite slice_app_skip, Hlh by lia.
  rewrite slice_app_here by (rewrite ?len_checksum_bytes; lia). cbn [bind].
  unfold MAX_OFFSET, RECORD_SIZE, CHECKSUM_OFFSET in *.
  rewrite (proj2 (add_Ok off 280 (off + 280))) by lia. cbn [bind].
  rewrite update_Ok by (by rewrite len_checksum_bytes). cbn [bind].
  rewrite (proj2 (add_Ok off 312 (off + 312))) by lia. cbn [bind].
  rewrite update_Ok by apply He.
  by destruct k.
Qed.

(** ** The round trip *)

(** The reader after [write_record]: positioned on what follows, with the
    writer's checksum. *)
Definition reader_at (src : list Z) (off : Z) (c : control) (saw : bool) (sum : Fletcher4)
    (b : option BeginRecord) : StreamReader (list Z) := {|
  inner := src; offset := off; started := c_started c; segment_open := c_segment c;
  compound_open := c_compound c; saw_end := saw; checksum := sum; begin := b |}.

Lemma control_step_next c t c' : control_step c t c' -> control_next c t = c'.
Proof. by destruct 1. Qed.

Lemma next_record_header c off saw sum b h rest :
  len h = RECORD_SIZE ->
  let self := reader_at (h ++ rest) off c saw sum b in
  exists first hs, h = first :: hs /\
    read_one (h ++ rest) = Ok (Some first, hs ++ rest) /\
    read_exact (RECORD_SIZE - 1) (hs ++ rest) = Ok (hs, rest).
Proof.
  unfold RECORD_SIZE. intros Hl. destruct h as [|first hs]; [done|].
  rewrite len_cons in Hl. exists first, hs. split_and!; try done. cbn.
  rewrite (proj2 (Z.leb_le _ _)) by len_lia.
  by rewrite ztake_app_len, zdrop_app_len by lia.
Qed.

Lemma check_order_written {R} (self : StreamReader R) k off c' :
  control_step (control_of self) (token_of k) c' -> kind_ok k ->
  check_order self (type_of k) off =
    Ok (match k with End_ => negb (segment_open self) | _ => false end).
Proof.
  destruct self as [i o st sg co se cs bg]. unfold control_of, check_order. cbn.
  intros Hs Hk. destruct k as [b0| | | | | | | | | |]; cbn [token_of] in Hs;
    [destruct (header_type b0 =? DMU_COMPOUNDSTREAM)|..];
    inversion Hs; subst; repeat match goal with x : bool |- _ => destruct x end; reflexivity.
Qed.

Lemma apply_kind_written (self : StreamReader (list Z)) h k off c' :
  control_step (control_of self) (token_of k) c' -> kind_ok k ->
  (match k with Begin _ => le_u64 (E:=StreamError) h 8 = Ok DMU_BACKUP_MAGIC | _ => True end) ->
  (match k with Begin _ => exists v, be_u64 (E:=StreamError) h 8 = Ok v | _ => True end) ->
  exists saw b,
    apply_kind self h k (match k with End_ => negb (segment_open self) | _ => false end) off
    = Ok (reader_at (inner self) (offset self) c' saw (checksum self) b).
Proof.
  destruct self as [i o st sg co se cs bg]. unfold control_of, apply_kind, reader_at. cbn.
  intros Hs Hk Hm Hv.
  destruct k as [b0| | | | | | | | | |]; cbn [token_of] in Hs.
  { destruct Hv as [v Hv]. cbn [apply_kind]. rewrite Hm, Hv. cbn [bind]. rewrite Z.eqb_refl. cbn [negb].
    destruct (header_type b0 =? DMU_COMPOUNDSTREAM) eqn:E; inversion Hs; subst; cbn; eauto. }
  all: inversion Hs; subst; cbn; eauto.
Qed.

Lemma write_record_bytes sum k p : (write_record sum k p).1 = header_of sum k (len p) ++ p.
Proof. unfold header_of. destruct k; cbn [write_record fst]; by rewrite <- app_assoc. Qed.

Lemma type_of_u32 k : is_u32 (type_of k).
Proof. destruct k; cbn; unfold is_u32; vm_compute; split; discriminate. Qed.

Lemma type_written sum k n : le_u32 (E:=StreamError) (header_of sum k n) 0 = Ok (type_of k).
Proof.
  destruct (header_split sum k n) as (plen & tail & ->).
  rewrite le_u32_here; [done|done|apply type_of_u32].
Qed.

Lemma magic_written sum r n :
  le_u64 (E:=StreamError) (header_of sum (Begin r) n) 8 = Ok DMU_BACKUP_MAGIC /\
  exists v, be_u64 (E:=StreamError) (header_of sum (Begin r) n) 8 = Ok v.
Proof.
  destruct (header_split sum (Begin r) n) as (plen & tail & ->). cbn [fields].
  assert (is_u64 DMU_BACKUP_MAGIC) by (unfold DMU_BACKUP_MAGIC; u64).
  rewrite <- !app_assoc. split; [by read_fields|]. eexists. read_fields. done.
Qed.

Lemma validate_written sum k p off :
  encodable (k, p) -> sum_ok sum -> 0 <= off <= MAX_OFFSET ->
  validate_checksum sum (header_of sum k (len p)) p (type_of k) off = Ok (write_record sum k p).2.
Proof.
  intros He Hs Hoff. destruct k; try (by apply validate_checksum_written).
  by apply validate_checksum_begin.
Qed.

Lemma sum_ok_default : sum_ok Fletcher4_default.
Proof. unfold sum_ok. cbn. split_and!; u64. Qed.

Lemma write_record_sum_ok sum k p : sum_ok sum -> sum_ok (write_record sum k p).2.
Proof. intros Hs. destruct k; cbn [write_record snd]; auto using sum_words_ok, sum_ok_default. Qed.

Lemma next_record_written c off saw sum b k p rest c' :
  control_step c (token_of k) c' -> encodable (k, p) -> sum_ok sum ->
  0 <= off -> off + RECORD_SIZE + len p <= MAX_OFFSET ->
  (k = End_ -> c_segment c = true) ->
  exists saw' b',
    next_record (reader_at ((write_record sum k p).1 ++ rest) off c saw sum b)
    = Ok (Some {| stream_offset := off; kind := k; payload := p |},
          reader_at rest (off + RECORD_SIZE + len p) c' saw' (write_record sum k p).2 b').
Proof.
  intros Hstep He Hs Ho Hmax Hend. destruct c as [st sg co]. pose proof He as (Hk & Hp & Hm & Hl & Hpm & Hb).
  pose proof (len_nonneg p) as Hp0. unfold MAX_OFFSET, RECORD_SIZE, MAX_PAYLOAD_SIZE in *.
  rewrite write_record_bytes, <- app_assoc.
  destruct (next_record_header initial_control off saw sum b (header_of sum k (len p)) (p ++ rest))
    as (first & hs & Eh & Er & Ex); [by apply len_header_of|].
  unfold next_record. cbn [inner offset reader_at]. rewrite Er. cbn [map_err bind].
  rewrite Ex. cbn [map_err bind]. rewrite <- Eh, type_written. cbn [bind].
  rewrite (check_order_written _ k off c') by done. cbn [bind].
  rewrite payload_size_written by done. cbn [bind].
  rewrite (proj2 (Z.ltb_ge MAX_PAYLOAD_SIZE (len p))) by (unfold MAX_PAYLOAD_SIZE; lia).
  rewrite usize_try_from_u64 by u64. cbn [ok_or bind].
  assert (read_exact (len p) (p ++ rest) = Ok (p, rest)) as Hre.
  { cbn. rewrite (proj2 (Z.leb_le _ _)) by len_lia. by rewrite ztake_app_len, zdrop_app_len by lia. }
  rewrite Hre. cbn [map_err bind]. rewrite decode_kind_written by done. cbn [bind].
  cbn [reader_at segment_open checksum started compound_open saw_end begin c_segment c_started c_compound] in *.
  replace (match k with End_ => negb sg | _ => false end) with false
    by (destruct k; try reflexivity; by rewrite Hend).
  rewrite validate_written by (done || unfold MAX_OFFSET; lia). cbn [bind].
  match goal with |- context [apply_kind ?r _ _ _ _] => set (self := r) end.
  destruct (apply_kind_written self (header_of sum k (len p)) k off c') as (saw' & b' & Ha); [done|done| | |].
  { destruct k; try exact I. apply magic_written. }
  { destruct k; try exact I. apply magic_written. }
  assert ((match k with End_ => negb (segment_open self) | _ => false end) = false) as Hf
    by (destruct k; try reflexivity; subst self; cbn; by rewrite Hend).
  rewrite Hf in Ha. rewrite Ha. subst self.
  cbn [bind reader_at inner offset started segment_open compound_open saw_end checksum begin].
  rewrite (proj2 (checked_add_Some off (RECORD_SIZE + len p) (off + RECORD_SIZE + len p)))
    by (unfold RECORD_SIZE; lia).
  cbn [ok_or bind]. eauto.
Qed.

Lemma conclusion_written off saw sum b rest :
  let c := {| c_started := true; c_segment := false; c_compound := true |} in
  0 <= off -> off + RECORD_SIZE <= MAX_OFFSET ->
  next_record (reader_at (conclusion_bytes ++ rest) off c saw sum b)
  = Ok (Some {| stream_offset := off; kind := End_; payload := [] |},
        reader_at rest (off + RECORD_SIZE)
          {| c_started := true; c_segment := false; c_compound := false |} saw sum b).
Proof.
  intros c Ho Hmax. unfold RECORD_SIZE, MAX_OFFSET in *. unfold next_record.
  cbn [inner offset reader_at].
  assert (len conclusion_bytes = RECORD_SIZE) as Hl by reflexivity.
  destruct (next_record_header c off saw sum b conclusion_bytes rest Hl) as (first & hs & Eh & Er & Ex).
  rewrite Er. cbn [map_err bind]. rewrite Ex. cbn [map_err bind]. rewrite <- Eh.
  replace (le_u32 (E:=StreamError) conclusion_bytes 0) with (Ok (E:=StreamError) DRR_END) by reflexivity.
  cbn -[conclusion_bytes slice_from].
  replace (slice_from (E:=StreamError) conclusion_bytes 4) with (Ok (E:=StreamError) (zrepeat 308 0)) by reflexivity.
  cbn [bind]. replace (all_zero (zrepeat 308 0)) with true by reflexivity.
  cbn -[checked_add]. unfold RECORD_SIZE.
  rewrite (proj2 (checked_add_Some off (312 + 0) (off + 312))) by lia. cbn [ok_or bind].
  rewrite (proj2 (Z.leb_le 0 (len rest)) (len_nonneg rest)). done.
Qed.

Definition stream_len (rs : list (RecordKind * list Z)) : Z :=
  foldr (fun '(_, p) n => RECORD_SIZE + len p + n) 0 rs.

Lemma stream_len_nonneg rs : 0 <= stream_len rs.
Proof.
  induction rs as [|[k p] rs IH]; [done|].
  change (0 <= RECORD_SIZE + len p + stream_len rs). pose proof (len_nonneg p). unfold RECORD_SIZE. lia.
Qed.

Lemma end_of_stream c off saw sum b :
  control_final c -> (c_started c = false -> c_segment c = false) ->
  next_record (reader_at [] off c saw sum b) = Ok (None, reader_at [] off c saw sum b).
Proof.
  intros Hf Hw. unfold next_record. cbn. destruct c as [st sg co]; unfold control_final in Hf; cbn in *.
  destruct st; [|done]. destruct Hf as [|[-> ->]]; done.
Qed.

Lemma read_all_written rs c c' off saw sum b fuel :
  control_run c (map (fun x => token_of x.1) rs) c' -> control_final c' ->
  (c_started c = false -> c_segment c = false) ->
  Forall encodable rs -> sum_ok sum -> 0 <= off -> off + stream_len rs <= MAX_OFFSET ->
  (length rs < fuel)%nat ->
  exists records r',
    read_all fuel (reader_at (write_stream c sum rs) off c saw sum b) = Ok (records, r') /\
    content records = rs.
Proof.
  revert c off saw sum b fuel.
  induction rs as [|[k p] rs IH]; intros c off saw sum b fuel Hrun Hfin Hw Hrs Hs Ho Hmax Hfuel;
    (destruct fuel as [|fuel]; [cbn in Hfuel; lia|]); cbn [read_all].
  - inversion Hrun; subst. cbn [write_stream]. rewrite end_of_stream by done. cbn [bind]. eauto.
  - inversion Hrun as [|? ? c1 ? ? Hstep Hrun']; subst. inversion Hrs as [|? ? He Hrs']; subst.
    cbn [map fst snd] in *. cbn [stream_len foldr] in Hmax. fold (stream_len rs) in Hmax.
    pose proof (stream_len_nonneg rs). pose proof (len_nonneg p).
    assert (c_started c1 = false -> c_segment c1 = false) as Hw1 by (by inversion Hstep).
    cbn [write_stream]. rewrite (control_step_next _ _ _ Hstep).
    destruct (match k with End_ => negb (c_segment c) | _ => false end) eqn:Hc.
    + destruct k; try discriminate Hc. inversion Hstep; subst; try discriminate Hc.
      destruct He as (_ & _ & _ & Hl & _). cbn in Hl. apply len_zero_nil in Hl as ->.
      change (len []) with 0 in Hmax.
      rewrite conclusion_written by (done || lia). cbn [bind].
      edestruct (IH _ (off + RECORD_SIZE) saw sum b fuel Hrun') as (records & r' & -> & Hcont);
        try done; try (unfold RECORD_SIZE in *; cbn in Hfuel; lia).
      cbn [bind]. do 2 eexists. split; [done|]. unfold content in *. cbn [map kind payload]. by rewrite Hcont.
    + destruct (write_record sum k p) as [bytes sum'] eqn:Ew.
      destruct (next_record_written c off saw sum b k p (write_stream c1 sum' rs) c1)
        as (saw' & b' & Hn); try done; [lia| |].
      { intros ->. destruct (c_segment c); [done|discriminate Hc]. }
      rewrite Ew in Hn. cbn [fst snd] in Hn. rewrite Hn. cbn [bind].
      assert (sum_ok sum') as Hs'.
      { replace sum' with (write_record sum k p).2 by (by rewrite Ew). by apply write_record_sum_ok. }
      edestruct (IH c1 (off + RECORD_SIZE + len p) saw' sum' b' fuel Hrun') as (records & r' & -> & Hcont);
        try done; try (unfold RECORD_SIZE in *; cbn in Hfuel; lia).
      cbn [bind]. do 2 eexists. split; [done|]. unfold content in *. cbn [map kind payload]. by rewrite Hcont.
Qed.
