(* ===== verification/StreamProps.v ===== *)
(** The properties of the replay-record reader (src/src/stream.rs), each with a
    concrete instance where it has hypotheses. *)

From S2P Require Import Prelude Bytes Utf8 Stream StreamFacts Fletcher StreamWriter.

(** ** A small stream the witnesses use *)

Definition sample_begin : BeginRecord := {|
  header_type := 1; to_guid := 77; from_guid := 0; creation_time := 5; objset_type := 2;
  begin_flags := 0; features := 4; dataset_name := [112; 64; 115] |}.
Definition sample_free : FreeRecord := {| fr_object := 9; fr_offset := 512; fr_length := 4096 |}.
Definition sample_write : WriteRecord := {|
  wr_object := 9; wr_object_type := 19; wr_offset := 0; wr_logical_size := 8;
  wr_checksum_type := 7; wr_flags := 0; wr_compressed_size := 0; wr_compression_type := 0;
  wr_salt := zrepeat 8 0; wr_iv := zrepeat 12 0; wr_mac := zrepeat 16 0 |}.
Definition sample_payload : list Z := [1; 2; 3; 4; 5; 6; 7; 8].
Definition sample : list (RecordKind * list Z) :=
  [(Begin sample_begin, []); (Write sample_write, sample_payload); (Free sample_free, []); (End_, [])].
Definition sample_bytes : list Z := write_stream initial_control Fletcher4_default sample.
Definition sample_write_header : list Z :=
  header_of (write_record Fletcher4_default (Begin sample_begin) []).2 (Write sample_write) 8.
Definition sample_sum : Fletcher4 := (write_record Fletcher4_default (Begin sample_begin) []).2.
Definition sample_sum2 : Fletcher4 := (write_record sample_sum (Write sample_write) sample_payload).2.
Definition sample_free_header : list Z := header_of sample_sum2 (Free sample_free) 0.

(** Close a side condition about concrete data by evaluation. *)
Ltac concrete :=
  first [ reflexivity | lia | vm_compute; reflexivity | vm_compute; discriminate
        | vm_compute; split; discriminate | apply bytes_ok_dec; vm_compute; reflexivity
        | vm_compute; repeat split; congruence ].

Lemma sample_encodable : Forall encodable sample.
Proof.
  unfold sample. repeat constructor; unfold fixed, is_u64, is_u32, is_byte; try concrete;
    cbn; try lia; try (split; concrete).
  all: try (left; done).
Qed.

Lemma sample_segment : stream_language (map (fun x => token_of x.1) sample).
Proof.
  change (stream_language ((TBegin :: replicate 2 TData ++ [TEnd]) ++ [])).
  apply stream_segment; constructor.
Qed.

(** ** Properties *)

(** C1: whatever stream of the format the reference writer produces, plain
    segments and compound packages in any order, reading it to the end yields
    exactly the records that were written, fields and payloads, and no error. *)
Theorem stream_roundtrip rs :
  stream_language (map (fun x => token_of x.1) rs) ->
  Forall encodable rs -> stream_len rs <= MAX_OFFSET ->
  exists records r,
    read_all (S (length rs))
      (StreamReader_new (write_stream initial_control Fletcher4_default rs)) = Ok (records, r) /\
    content records = rs.
Proof.
  intros Hlang Hrs Hlen. destruct (control_run_complete _ Hlang false) as (c & Hrun & Hfin).
  apply (read_all_written rs initial_control c 0 false _ None); auto using sum_ok_default; lia.
Qed.

Lemma stream_roundtrip_witness :
  exists records r,
    read_all 5 (StreamReader_new sample_bytes) = Ok (records, r) /\ content records = sample.
Proof.
  apply (stream_roundtrip sample); [apply sample_segment|apply sample_encodable|vm_compute; congruence].
Defined.

(** C2: a file the reader accepts to its end is well bracketed: its records are
    plain BEGIN/END segments and compound packages closed by a conclusion
    record, all fields are in range, and unless it is empty the reader has seen
    a segment's END (so the callers' [saw_end] test fails on the empty file
    only). *)
Theorem stream_accepted fuel src records r :
  bytes_ok src -> len src <= MAX_OFFSET ->
  len src < RECORD_SIZE * Z.of_nat fuel ->
  read_all fuel (StreamReader_new src) = Ok (records, r) ->
  stream_language (tokens records) /\
  Forall (fun record => kind_ok (kind record)) records /\
  (records <> [] -> saw_end r = true).
Proof.
  intros Hsrc Hlen Hfuel Hread.
  destruct (wp_value _ _ _ (wp_read_all fuel _ (reader_wf_new src Hsrc Hlen) Hfuel) Hread)
    as (Hrun & Hfin & Hwf & _ & Hk).
  split_and!; [|done|].
  - by apply (control_run_sound _ _ _ Hrun).
  - intros Hne. destruct Hwf as (_ & _ & _ & _ & _ & Hsaw).
    assert (started r = true) as Hst.
    { destruct records; [done|]. cbn [tokens map] in Hrun. inversion Hrun as [|? ? c1 ? ? Hs Hr]; subst.
      assert (c_started c1 = true) as H1 by (by inversion Hs). clear -Hr H1.
      change (c_started (control_of r) = true). induction Hr as [|? ? ? ? ? Hs]; [done|].
      apply IHHr. by inversion Hs. }
    destruct (Hsaw Hst) as [Hseg|]; [|done].
    destruct Hfin as [Hf|[Hf _]]; cbn in Hf; congruence.
Qed.

Lemma stream_accepted_witness :
  exists records r, read_all 5 (StreamReader_new sample_bytes) = Ok (records, r) /\
    stream_language (tokens records) /\ (records <> [] -> saw_end r = true).
Proof.
  destruct (read_all 5 (StreamReader_new sample_bytes)) as [[records r]| | |] eqn:E;
    [|exfalso; revert E; vm_compute; congruence..].
  assert (bytes_ok sample_bytes) as H1 by (apply bytes_ok_dec; vm_compute; reflexivity).
  assert (len sample_bytes <= MAX_OFFSET) as H2 by (vm_compute; discriminate).
  assert (len sample_bytes < RECORD_SIZE * Z.of_nat 5) as H3 by (vm_compute; reflexivity).
  destruct (stream_accepted 5 sample_bytes records r H1 H2 H3 E) as (? & _ & ?).
  exists records, r. auto.
Defined.

(** C20: on any finite byte source, however malformed its contents, reading a
    stream to the end returns: no index, slice, [expect] or addition panics, and
    one unit of fuel per 312 bytes, plus one, is enough. *)
Theorem read_all_returns {R} `{ReadLaws R} (fuel : nat) (r : StreamReader R) :
  reader_wf r -> remaining (inner r) < RECORD_SIZE * Z.of_nat fuel -> safe (read_all fuel r).
Proof. intros. by eapply wp_safe, wp_read_all. Qed.

Lemma read_all_returns_witness :
  safe (read_all 2 (StreamReader_new (zrepeat 400 255))).
Proof.
  apply read_all_returns; [|reflexivity].
  apply reader_wf_new; [apply bytes_ok_dec; vm_compute; reflexivity|vm_compute; congruence].
Defined.

(** C21: the running checksum, which wraps at 64 bits after every word, equals
    the closed form of Fletcher-4: the k-th sum weighs the word at distance d
    from the end by the binomial coefficient C(d + k, k), reduced once. *)
Theorem fletcher4_closed_form l off :
  len l mod 4 = 0 ->
  Fletcher4_update Fletcher4_default l off = Ok (fletcher_reference (le_words l)).
Proof. intros. rewrite update_Ok by done. unfold sum_words. by rewrite <- fletcher_words_reference. Qed.

Lemma fletcher4_closed_form_witness :
  Fletcher4_update Fletcher4_default [1; 0; 0; 0; 2; 0; 0; 0] 0
    = Ok (fletcher_reference [1; 2]) /\
  fletcher_array (fletcher_reference [1; 2]) = [3; 4; 5; 6].
Proof. split; [by apply fletcher4_closed_form|reflexivity]. Defined.

(** C22: a changed word does not pass the check of a record. Where [validate_checksum]
    accepts a record other than a BEGIN whose header carries a checksum (one that is
    not all zeros), it refuses that header, taken as a record of the same type, with
    any one of its 70 checksummed words replaced by a different word. And replacing
    one word of the payload of a record other than a BEGIN or an END, which
    [validate_checksum] accepts with it, makes it refuse the record that follows
    immediately, if that one was accepted before, is not a BEGIN and carries a
    checksum. (BEGIN records and checksums of zeros are not compared.) *)
Theorem corruption_detected sum header payload rt off sum1 i w :
  rt <> DRR_BEGIN -> bytes_ok w -> length w = 4%nat -> validate_checksum sum header payload rt off = Ok sum1 ->
  (forall cs, len header = RECORD_SIZE -> bytes_ok header ->
    read_checksum (E:=StreamError) header CHECKSUM_OFFSET = Ok cs -> all_zero cs = false ->
    (i < 70)%nat -> word_at header i <> w ->
    exists o, validate_checksum sum (replace_word header i w) payload rt off = Err (Checksum o)) /\
  (forall sum2 header2 payload2 rt2 off2 sum3 cs2,
    rt <> DRR_END -> rt2 <> DRR_BEGIN -> fletcher_wf sum -> bytes_ok payload ->
    (4 * i + 4 <= length payload)%nat -> word_at payload i <> w ->
    validate_checksum sum header (replace_word payload i w) rt off = Ok sum2 ->
    len header2 = RECORD_SIZE ->
    read_checksum (E:=StreamError) header2 CHECKSUM_OFFSET = Ok cs2 -> all_zero cs2 = false ->
    validate_checksum sum1 header2 payload2 rt2 off2 = Ok sum3 ->
    exists o, validate_checksum sum2 header2 payload2 rt2 off2 = Err (Checksum o)).
Proof.
  intros Hrt Hw Hlw Hv. split.
  - intros cs Hl Hb Hcs Hz Hi Hne. by eapply corrupted_header_rejected.
  - intros sum2 header2 payload2 rt2 off2 sum3 cs2 Hend Hrt2 Hsum Hp Hi Hne Hv2 Hl2 Hcs2 Hz2 Hv3.
    by apply (corrupted_payload_rejected sum header payload rt off sum1 sum2 i w header2 payload2 rt2 off2 sum3 cs2).
Qed.

Lemma corruption_detected_witness :
  (exists o, validate_checksum sample_sum (replace_word sample_write_header 6 [1; 0; 0; 0])
    sample_payload DRR_WRITE 312 = Err (Checksum o)) /\
  exists o, validate_checksum
    (sum_words (sum_words (sum_words sample_sum (head sample_sum (Write sample_write) 8))
       (checksum_bytes (sum_words sample_sum (head sample_sum (Write sample_write) 8))))
       (replace_word sample_payload 1 [0; 0; 0; 9]))
    sample_free_header [] DRR_FREE 632 = Err (Checksum o).
Proof.
  split.
  - refine (proj1 (corruption_detected sample_sum sample_write_header sample_payload DRR_WRITE 312 sample_sum2 6 [1; 0; 0; 0] _ _ _ _)
      (fletcher_array (sum_words sample_sum (head sample_sum (Write sample_write) 8))) _ _ _ _ _ _); concrete.
  - refine (proj2 (corruption_detected sample_sum sample_write_header sample_payload DRR_WRITE 312 sample_sum2 1 [0; 0; 0; 9] _ _ _ _)
      _ sample_free_header [] DRR_FREE 632 (write_record sample_sum2 (Free sample_free) []).2
      (fletcher_array (sum_words sample_sum2 (head sample_sum2 (Free sample_free) 0))) _ _ _ _ _ _ _ _ _ _ _); concrete.
Defined.
