(* ===== verification/Compression.v ===== *)
(** On-disk block decompression, src/src/compression.rs. The codecs themselves
    are crates ([zfs_core], [flate2], [ruzstd]): a type class gives the
    operations the code calls, and a second one what it relies on. *)

From S2P Require Import Prelude Bytes.

(** ** The codec crates *)

(** [zfs_core::CompressType] as the source matches on it: the variants it names
    and, for its wildcard arm, any other. *)
Inductive CompressType : Type :=
| Inherit
| On
| Off
| Gzip (level : Z)
| Zstd
| OtherCodec (raw : Z).

(** What a streaming decoder yields: some bytes, then the end of its input or an
    error. *)
Record decoded := { yields : list Z; stops : option error }.

Class Codecs := {
  from_raw : Z -> CompressType;
  zfs_decompress : CompressType -> list Z -> Z -> result (list Z);
  ZlibDecoder : list Z -> decoded;
  StreamingDecoder : list Z -> result decoded;
}.

(** Documented behaviour: the block decoders return the requested length or an
    error, never panic, and every decoder yields bytes. *)
Class CodecLaws `{Codecs} := {
  zfs_decompress_spec : forall k p n,
    wp (zfs_decompress k p n) (fun out => len out = n /\ bytes_ok out);
  ZlibDecoder_bytes : forall p, bytes_ok (yields (ZlibDecoder p));
  StreamingDecoder_spec : forall p, wp (StreamingDecoder p) (fun d => bytes_ok (yields d));
}.

(** ** Definitions *)

(** [Vec::with_capacity(n)] panics when [n] bytes exceed [isize::MAX]. *)
Definition with_capacity {E} (n : Z) : res E unit := if n <=? ISIZE_MAX then Ok tt else Panic.

(** [decoder.take(limit).read_to_end(..)]: reads until [limit] bytes have been
    read or the decoder stops. *)
Definition read_to_end_limited (limit : Z) (d : decoded) : result (list Z) :=
  if limit <=? len (yields d) then Ok (ztake limit (yields d))
  else match stops d with None => Ok (yields d) | Some e => Err e end.

Definition ZSTD_MAGIC : list Z := [0x28; 0xb5; 0x2f; 0xfd].

Section decompress.
Context `{Codecs}.

Definition decompress_gzip (payload : list Z) (logical_size : Z) : result (list Z) :=
  let! limit := ok_or (checked_add logical_size 1) (Msg "logical gzip block size overflow" []) in
  let decoder := ZlibDecoder payload in
  let! _ := with_capacity logical_size in
  let! output := with_context "decompressing ZFS gzip block" [] (read_to_end_limited limit decoder) in
  fail! negb (len output =? logical_size)
    with Msg "ZFS gzip block expanded to {} bytes, expected {}" [len output; logical_size] in
  Ok output.

Definition decompress_zstd (payload : list Z) (logical_size : Z) : result (list Z) :=
  let! header := ok_or (get_range payload 0 8)
    (Msg "ZFS Zstandard block is missing its 8-byte header" []) in
  let! size_bytes := slice header 0 4 in
  let compressed_size := be_val size_bytes in
  let! end_ := ok_or (checked_add 8 compressed_size)
    (Msg "ZFS Zstandard compressed-size overflow" []) in
  let! frame := ok_or (get_range payload 8 end_)
    (Msg "ZFS Zstandard block has an invalid compressed-size header" []) in
  let framed := ZSTD_MAGIC ++ frame in
  let! limit := ok_or (checked_add logical_size 1)
    (Msg "logical Zstandard block size overflow" []) in
  let! decoder := with_context "decoding the ZFS Zstandard frame header" [] (StreamingDecoder framed) in
  let! _ := with_capacity logical_size in
  let! output := with_context "decompressing ZFS Zstandard block" []
    (read_to_end_limited limit decoder) in
  fail! negb (len output =? logical_size)
    with Msg "ZFS Zstandard block expanded to {} bytes, expected {}" [len output; logical_size] in
  Ok output.

Definition decompress_block (compression : Z) (payload : list Z) (logical_size : Z)
  : result (list Z) :=
  let! logical_size := ok_or (usize_try_from logical_size)
    (Msg "logical block size is too large" []) in
  match from_raw compression with
  | Inherit | On =>
      Err (Msg "compression sentinel {} is invalid in an on-disk block pointer" [compression])
  | Off =>
      fail! negb (len payload =? logical_size)
        with Msg "uncompressed ZFS block is {} bytes, expected {}" [len payload; logical_size] in
      Ok payload
  | Gzip _ => decompress_gzip payload logical_size
  | Zstd => decompress_zstd payload logical_size
  | kind => zfs_decompress kind payload logical_size
  end.

Definition decode_replay_write (compression : Z) (payload : list Z) (logical_size : Z)
  : result (list Z) :=
  if compression =? 0 then
    let! logical_size := ok_or (usize_try_from logical_size)
      (Msg "logical replay WRITE size is too large" []) in
    fail! negb (len payload =? logical_size)
      with Msg "uncompressed replay WRITE is {} bytes, expected {}" [len payload; logical_size] in
    Ok payload
  else decompress_block compression payload logical_size.

Definition decode_embedded_write (compression embedded_type : Z) (payload : list Z)
    (physical_size logical_size : Z) : result (list Z) :=
  fail! negb (embedded_type =? 0)
    with Msg "unsupported ZFS embedded block type {}" [embedded_type] in
  let! physical_size := ok_or (usize_try_from physical_size)
    (Msg "embedded replay payload size is too large" []) in
  let! encoded := ok_or (get_range payload 0 physical_size)
    (Msg "embedded replay payload is shorter than its physical size" []) in
  decompress_block compression encoded logical_size.
End decompress.

(** ** Lemmas *)

Lemma wp_with_capacity {E} n (P : unit -> Prop) :
  n <= ISIZE_MAX -> P tt -> wp (with_capacity (E:=E) n) P.
Proof. intros. unfold with_capacity. case_match; b2p; [done|lia]. Qed.

Lemma wp_read_to_end_limited limit d (P : list Z -> Prop) :
  (forall out, (bytes_ok (yields d) -> bytes_ok out) -> P out) ->
  wp (read_to_end_limited limit d) P.
Proof.
  intros HP. unfold read_to_end_limited. apply wp_if; intros _.
  - apply wp_Ok, HP. auto with zse.
  - destruct (stops d); [apply wp_Err|by apply wp_Ok, HP].
Qed.

(** The decoder is asked for one byte more than the block holds: what comes back
    is the whole output exactly when it has the right length. *)
Lemma read_to_end_limited_exact n d out :
  0 <= n ->
  (read_to_end_limited (n + 1) d = Ok out /\ len out = n) <->
  (yields d = out /\ stops d = None /\ len out = n).
Proof.
  intros Hn. unfold read_to_end_limited. destruct (Z.leb_spec (n + 1) (len (yields d))).
  - split.
    + intros [[= <-] Hl]. rewrite len_ztake in Hl. lia.
    + intros (<- & _ & Hl). lia.
  - destruct (stops d); naive_solver.
Qed.

Section laws.
Context `{CodecLaws}.

Definition exact_block (n : Z) (out : list Z) : Prop := len out = n /\ bytes_ok out.

Lemma wp_decompress_gzip p n :
  n <= ISIZE_MAX -> wp (decompress_gzip p n) (exact_block n).
Proof.
  intros Hn. unfold decompress_gzip. wp_step. wp_step. wp_step. apply wp_with_capacity; [done|].
  wp_step. apply wp_with_context, wp_read_to_end_limited. intros out Hout.
  wp_steps. split; [by b2p|]. apply Hout, ZlibDecoder_bytes.
Qed.

Lemma wp_decompress_zstd p n :
  n <= ISIZE_MAX -> wp (decompress_zstd p n) (exact_block n).
Proof.
  intros Hn. unfold decompress_zstd. wp_step. wp_step.
  match goal with Hx : get_range _ _ _ = Some _ |- _ => apply get_range_len in Hx as Hl end.
  wp_step. apply wp_slice; [lia|lia|]. intros s _ _. wp_steps.
  apply wp_with_context. eapply wp_mono; [|apply StreamingDecoder_spec]. intros d Hd.
  wp_step. apply wp_with_capacity; [done|].
  wp_step. apply wp_with_context, wp_read_to_end_limited. intros out Hout.
  wp_steps. split; [by b2p|]. by apply Hout.
Qed.

Lemma wp_decompress_block c p n :
  bytes_ok p -> n <= ISIZE_MAX -> wp (decompress_block c p n) (exact_block n).
Proof.
  intros Hp Hn. unfold decompress_block. wp_step. wp_step.
  match goal with Hx : usize_try_from _ = Some _ |- _ =>
    unfold usize_try_from in Hx; case_match; [injection Hx as <-|done] end.
  destruct (from_raw c); try apply wp_Err.
  - wp_steps. split; [by b2p|done].
  - by apply wp_decompress_gzip.
  - by apply wp_decompress_zstd.
  - apply zfs_decompress_spec.
Qed.

Lemma wp_decode_replay_write c p n :
  bytes_ok p -> n <= ISIZE_MAX -> wp (decode_replay_write c p n) (exact_block n).
Proof.
  intros Hp Hn. unfold decode_replay_write. apply wp_if; intros _; [|by apply wp_decompress_block].
  wp_step. wp_step.
  match goal with Hx : usize_try_from _ = Some _ |- _ =>
    unfold usize_try_from in Hx; case_match; [injection Hx as <-|done] end.
  wp_steps. split; [by b2p|done].
Qed.

Lemma wp_decode_embedded_write c t p ps n :
  bytes_ok p -> n <= ISIZE_MAX -> wp (decode_embedded_write c t p ps n) (exact_block n).
Proof.
  intros Hp Hn. unfold decode_embedded_write. wp_steps. apply wp_decompress_block; [|done].
  match goal with Hx : get_range _ _ _ = Some _ |- _ => apply get_range_Some in Hx as (_ & _ & ->) end.
  auto with zse.
Qed.
End laws.
