(* ===== verification/CompressionProps.v ===== *)
(** The properties of block decompression (src/src/compression.rs): exact output
    length, characterisation of the streaming codecs, the alignment padding of a
    Zstandard block. *)

From S2P Require Import Prelude Bytes Compression.

(** ** A concrete set of codecs for the witnesses: every codec stores its
    payload, the Zstandard one behind its magic. *)

#[export] Instance stored_codecs : Codecs := {
  from_raw c :=
    if c =? 0 then Inherit else if c =? 1 then On else if c =? 2 then Off
    else if (5 <=? c) && (c <=? 13) then Gzip (c - 4) else if c =? 16 then Zstd else OtherCodec c;
  zfs_decompress k p n :=
    if (len p =? n) && forallb (fun b => (0 <=? b) && (b <? 256)) p then Ok p
    else Err (Foreign "short block");
  ZlibDecoder p :=
    {| yields := if forallb (fun b => (0 <=? b) && (b <? 256)) p then p else []; stops := None |};
  StreamingDecoder p :=
    if forallb (fun b => (0 <=? b) && (b <? 256)) p && (4 <=? len p)
    then Ok {| yields := zdrop 4 p; stops := None |} else Err (Foreign "no magic");
}.

#[export] Instance stored_codec_laws : CodecLaws.
Proof.
  split.
  - intros k p n. cbn -[forallb]. apply wp_if; intros H; [|apply wp_Err].
    b2p. split; [done|by apply bytes_ok_dec].
  - intros p. cbn -[forallb]. case_match; [by apply bytes_ok_dec|constructor].
  - intros p. cbn -[forallb]. apply wp_if; intros H; [|apply wp_Err].
    b2p. apply wp_Ok. cbn [yields]. apply Forall_zdrop. by apply bytes_ok_dec.
Qed.

(** ** Lemmas *)

(** A length test after a bounded read is exact: the test succeeds just on the
    decoder that yields the block and nothing more. *)
Lemma exact_read_Ok n d out t1 t2 args1 args2 :
  0 <= n ->
  (let! output := with_context t1 args1 (read_to_end_limited (n + 1) d) in
   fail! negb (len output =? n) with Msg t2 (len output :: args2) in Ok output) = Ok out <->
  yields d = out /\ stops d = None /\ len out = n.
Proof.
  intros Hn. rewrite <- read_to_end_limited_exact by done. rewrite bind_Ok.
  unfold with_context. setoid_rewrite map_err_Ok. split.
  - intros (o & Ho & H). destruct (negb _) eqn:Hl; [done|]. injection H as <-. by b2p.
  - intros [Ho Hl]. exists out. split; [done|]. by rewrite (proj2 (Z.eqb_eq _ _) Hl).
Qed.

(** A Zstandard block taken apart: 8 header bytes, of which the first four hold
    the frame's length, the frame, padding. *)
Definition zstd_block (frame meta pad : list Z) : list Z :=
  be_bytes 4 (len frame) ++ meta ++ frame ++ pad.


Lemma zstd_block_header frame meta pad :
  len meta = 4 -> len frame <= U32_MAX ->
  get_range (zstd_block frame meta pad) 0 8 = Some (be_bytes 4 (len frame) ++ meta) /\
  get_range (zstd_block frame meta pad) 8 (8 + len frame) = Some frame.
Proof.
  intros Hm Hf. unfold zstd_block. split.
  - pose proof (get_range_app [] (be_bytes 4 (len frame) ++ meta) (frame ++ pad) 0 8) as H.
    cbn [app] in H. rewrite <- app_assoc in H. apply H; [done|].
    rewrite len_nil, len_app, be_bytes_len. lia.
  - pose proof (get_range_app (be_bytes 4 (len frame) ++ meta) frame pad 8 (8 + len frame)) as H.
    rewrite <- app_assoc in H. apply H; clear H; rewrite len_app, be_bytes_len, Hm; lia.
Qed.

Section zstd.
Context `{Codecs}.

(** The decoder sees the frame behind its magic and neither [meta] nor [pad]. *)
Lemma decompress_zstd_frame frame meta pad n :
  len meta = 4 -> len frame <= U32_MAX ->
  decompress_zstd (zstd_block frame meta pad) n =
    let! limit := ok_or (checked_add n 1) (Msg "logical Zstandard block size overflow" []) in
    let! decoder := with_context "decoding the ZFS Zstandard frame header" []
      (StreamingDecoder (ZSTD_MAGIC ++ frame)) in
    let! _ := with_capacity n in
    let! output := with_context "decompressing ZFS Zstandard block" []
      (read_to_end_limited limit decoder) in
    fail! negb (len output =? n)
      with Msg "ZFS Zstandard block expanded to {} bytes, expected {}" [len output; n] in
    Ok output.
Proof.
  intros Hm Hf. destruct (zstd_block_header frame meta pad Hm Hf) as [H1 H2].
  unfold decompress_zstd. rewrite H1. cbn [ok_or bind].
  unfold slice. pose proof (get_range_app [] (be_bytes 4 (len frame)) meta 0 4) as H3.
  cbn [app] in H3. rewrite H3 by (unfold len; cbn [length]; rewrite ?be_bytes_len; reflexivity).
  cbn [expect bind].
  rewrite be_val_be_bytes. change (256 ^ Z.of_nat 4) with 4294967296.
  pose proof (len_nonneg frame). rewrite Z.mod_small by lia.
  rewrite (proj2 (checked_add_Some 8 (len frame) (8 + len frame))) by lia.
  cbn [ok_or bind]. rewrite H2. reflexivity.
Qed.
End zstd.

(** ** Properties *)

(** the three entry points never panic on a block of addressable size, and
    what they return has exactly the requested length, whatever the payload
    holds: no codec can make them return a short block or an oversized one. *)
Theorem decoders_exact `{CodecLaws} c t p ps n :
  bytes_ok p -> n <= ISIZE_MAX ->
  wp (decompress_block c p n) (exact_block n) /\
  wp (decode_replay_write c p n) (exact_block n) /\
  wp (decode_embedded_write c t p ps n) (exact_block n).
Proof.
  intros. split_and!; [by apply wp_decompress_block|by apply wp_decode_replay_write|].
  by apply wp_decode_embedded_write.
Qed.

Lemma decoders_exact_witness :
  wp (decompress_block 16 (zstd_block [1; 2] [0; 0; 0; 0] [9; 9]) 2) (exact_block 2) /\
  wp (decode_replay_write 0 (zstd_block [1; 2] [0; 0; 0; 0] [9; 9]) 2) (exact_block 2) /\
  wp (decode_embedded_write 5 0 (zstd_block [1; 2] [0; 0; 0; 0] [9; 9]) 3 2) (exact_block 2).
Proof.
  assert (bytes_ok (zstd_block [1; 2] [0; 0; 0; 0] [9; 9])) as Hb
    by (apply bytes_ok_dec; vm_compute; reflexivity).
  assert (2 <= ISIZE_MAX) as Hn by (vm_compute; discriminate).
  exact (conj (proj1 (decoders_exact 16 0 _ 0 2 Hb Hn))
    (conj (proj1 (proj2 (decoders_exact 0 0 _ 0 2 Hb Hn))) (proj2 (proj2 (decoders_exact 5 0 _ 3 2 Hb Hn))))).
Defined.

(** a gzip block decodes to [out] exactly when the zlib decoder yields
    [out], ends without an error and [out] has the logical size; so neither a
    truncated stream nor a decompression bomb is taken for a block. For a
    Zstandard block the decoder is given the magic and the [c_len] bytes of the
    frame: the version and level bytes and any sector padding play no part. *)
Theorem streaming_codecs_exact `{Codecs} p frame meta pad n out :
  0 <= n <= ISIZE_MAX -> len meta = 4 -> len frame <= U32_MAX ->
  (decompress_gzip p n = Ok out <->
     yields (ZlibDecoder p) = out /\ stops (ZlibDecoder p) = None /\ len out = n) /\
  (decompress_zstd (zstd_block frame meta pad) n = Ok out <->
     exists d, StreamingDecoder (ZSTD_MAGIC ++ frame) = Ok d /\
       yields d = out /\ stops d = None /\ len out = n).
Proof.
  unfold ISIZE_MAX. intros Hn Hm Hf.
  assert (checked_add n 1 = Some (n + 1)) as Hlim by (apply checked_add_Some; lia).
  assert (with_capacity (E:=error) n = Ok tt) as Hcap.
  { unfold with_capacity, ISIZE_MAX. case_match; b2p; [done|lia]. }
  split.
  - unfold decompress_gzip. rewrite Hlim, Hcap. cbn [ok_or bind]. apply exact_read_Ok. lia.
  - rewrite decompress_zstd_frame by done. rewrite Hlim, Hcap. cbn [ok_or bind].
    unfold with_context at 1. destruct (StreamingDecoder (ZSTD_MAGIC ++ frame)) as [d|e| |]; cbn [map_err bind];
      [|naive_solver..].
    rewrite exact_read_Ok by lia. naive_solver.
Qed.

Lemma streaming_codecs_exact_witness :
  (decompress_gzip [7; 7] 2 = Ok [7; 7] <->
     yields (ZlibDecoder [7; 7]) = [7; 7] /\ stops (ZlibDecoder [7; 7]) = None /\ len [7; 7] = 2) /\
  (decompress_zstd (zstd_block [7; 7] [1; 0; 0; 0] [5]) 2 = Ok [7; 7] <->
     exists d, StreamingDecoder (ZSTD_MAGIC ++ [7; 7]) = Ok d /\
       yields d = [7; 7] /\ stops d = None /\ len [7; 7] = 2).
Proof.
  apply streaming_codecs_exact; [split; vm_compute; discriminate|reflexivity|vm_compute; discriminate].
Defined.

(** Both sides of the two equivalences do hold there. *)
Example streaming_codecs_run :
  decompress_gzip [7; 7] 2 = Ok [7; 7] /\
  decompress_zstd (zstd_block [7; 7] [1; 0; 0; 0] [5]) 2 = Ok [7; 7].
Proof. split; vm_compute; reflexivity. Qed.

(** The declared size of a gzip or Zstandard block is trusted when the
    output buffer is reserved: a record whose logical size exceeds
    [isize::MAX] (and is not [u64::MAX], whose successor is checked) makes the
    reader panic in [Vec::with_capacity] where every other malformed size is an
    error. *)
Theorem oversized_logical_size_panics `{Codecs} c level p n :
  from_raw c = Gzip level -> c <> 0 -> ISIZE_MAX < n < U64_MAX ->
  decode_replay_write c p n = Panic.
Proof.
  unfold ISIZE_MAX. intros Hc Hc0 Hn. unfold decode_replay_write.
  rewrite (proj2 (Z.eqb_neq c 0)) by done.
  unfold decompress_block. rewrite usize_try_from_u64 by u64. cbn [ok_or bind]. rewrite Hc.
  unfold decompress_gzip.
  rewrite (proj2 (checked_add_Some n 1 (n + 1))) by lia. cbn [ok_or bind].
  unfold with_capacity, ISIZE_MAX. case_match; b2p; [lia|done].
Qed.

Lemma oversized_logical_size_panics_witness :
  decode_replay_write 9 [1; 2; 3] 9223372036854775808 = Panic.
Proof.
  apply (oversized_logical_size_panics 9 5); [reflexivity|discriminate|split; reflexivity].
Defined.
