(* ===== verification/NvList.v ===== *)
(** The nvlist decoder of src/src/encrypted.rs ([NvDecoder]): both wire
    encodings, as functions from the cursor to a value and the cursor after it.
    A [BTreeMap<String, NvValue>] that is filled and looked up only is the list
    of its insertions, of which the last one of a name counts. *)

From S2P Require Import Prelude Bytes Utf8.

(** ** Values (lines 105-111) *)

Inductive NvValue : Type :=
| Uint64 (v : Z)
| Bytes_ (bytes : list Z)
| List_ (values : list (list Z * NvValue))
| Ignored.

Abbreviation NvMap := (list (list Z * NvValue)).

Definition nv_insert (name : list Z) (v : NvValue) (m : NvMap) : NvMap := m ++ [(name, v)].

Fixpoint nv_get (name : list Z) (m : NvMap) : option NvValue :=
  match m with
  | [] => None
  | (k, v) :: m =>
      match nv_get name m with
      | Some v => Some v
      | None => if bytes_eqb k name then Some v else None
      end
  end.

(** ** Field readers (lines 1043-1100) *)

Definition align_8 (value : Z) : option Z :=
  option_map (fun value => Z.land value (Z.lnot 7)) (checked_add value 7).

Section decoder.
Variable bytes : list Z.

Definition take_ (cursor n : Z) : result (list Z * Z) :=
  let! end_ := ok_or (checked_add cursor n) (Msg "nvlist offset overflow" []) in
  fail! len bytes <? end_ with Msg "truncated nvlist in raw stream BEGIN payload" [] in
  let! value := slice bytes cursor end_ in
  Ok (value, end_).

Definition nv_u32 (cursor : Z) : result (Z * Z) :=
  let! (b, cursor) := take_ cursor 4 in Ok (be_val b, cursor).
Definition nv_u64 (cursor : Z) : result (Z * Z) :=
  let! (b, cursor) := take_ cursor 8 in Ok (be_val b, cursor).
Definition nv_le_u16 (cursor : Z) : result (Z * Z) :=
  let! (b, cursor) := take_ cursor 2 in Ok (le_val b, cursor).
Definition nv_le_u32 (cursor : Z) : result (Z * Z) :=
  let! (b, cursor) := take_ cursor 4 in Ok (le_val b, cursor).
Definition nv_le_u64 (cursor : Z) : result (Z * Z) :=
  let! (b, cursor) := take_ cursor 8 in Ok (le_val b, cursor).

Definition string_ (cursor : Z) : result (list Z * Z) :=
  let! (n, cursor) := nv_u32 cursor in
  let! (b, cursor) := take_ cursor n in
  let! value := ok_or (from_utf8 b) (Msg "nvlist string is not UTF-8" []) in
  let padding := (4 - n mod 4) mod 4 in
  let! (_, cursor) := take_ cursor padding in
  Ok (value, cursor).

(** The loop of the byte-array arm: [count] words, each truncated to its low
    byte. *)
Fixpoint xdr_bytes (count : nat) (cursor : Z) : result (list Z * Z) :=
  match count with
  | O => Ok ([], cursor)
  | S count =>
      let! (word, cursor) := nv_u32 cursor in
      let! (rest, cursor) := xdr_bytes count cursor in
      Ok (word mod 256 :: rest, cursor)
  end.

(** ** XDR lists (lines 909-962) *)

Definition xdr_header (cursor : Z) : result Z :=
  let! (version, cursor) := nv_u32 cursor in
  let! (_, cursor) := nv_u32 cursor in
  fail! negb (version =? 0) with Msg "unsupported nvlist version {version}" [version] in
  Ok cursor.

(** The loop body and the loop; [fuel] bounds the pairs still to be read, the
    nested ones included. *)
Fixpoint xdr_pairs (fuel : nat) (cursor : Z) (values : NvMap) : result (NvMap * Z) :=
  match fuel with
  | O => OutOfFuel
  | S fuel =>
      let pair_start := cursor in
      let! (encoded_size, cursor) := nv_u32 cursor in
      let! (_, cursor) := nv_u32 cursor in
      if encoded_size =? 0 then Ok (values, cursor)
      else
        fail! encoded_size <? 8 with Msg "nvpair has an invalid encoded size" [] in
        let! pair_end := ok_or (checked_add pair_start encoded_size) (Msg "nvpair size overflow" []) in
        fail! len bytes <? pair_end with Msg "nvpair extends past the BEGIN payload" [] in
        let! (name, cursor) := string_ cursor in
        let! (value_type, cursor) := nv_u32 cursor in
        let! (count, cursor) := nv_u32 cursor in
        let! (value, cursor) :=
          if (value_type =? 8) && (count =? 1) then
            let! (v, cursor) := nv_u64 cursor in Ok (Uint64 v, cursor)
          else if (value_type =? 9) && (count =? 1) then
            let! (_, cursor) := string_ cursor in Ok (Ignored, cursor)
          else if (value_type =? 19) && (count =? 1) then
            let! cursor := xdr_header cursor in
            let! (l, cursor) := xdr_pairs fuel cursor [] in Ok (List_ l, cursor)
          else if value_type =? 26 then
            let! (wire_count, cursor) := nv_u32 cursor in
            fail! negb (wire_count =? count)
              with Msg "nvpair byte-array count does not match its XDR count" [] in
            let! (b, cursor) := xdr_bytes (Z.to_nat count) cursor in Ok (Bytes_ b, cursor)
          else Err (Msg "unsupported nvpair type {} with {} elements" [value_type; count]) in
        fail! pair_end <? cursor with Msg "nvpair payload exceeds its encoded size" [] in
        xdr_pairs fuel pair_end (nv_insert name value values)
  end.

Definition xdr_list (fuel : nat) (cursor : Z) : result (NvMap * Z) :=
  let! cursor := xdr_header cursor in xdr_pairs fuel cursor [].

(** ** Native lists (lines 964-1041) *)

Definition native_header (cursor : Z) : result Z :=
  let! (version, cursor) := nv_le_u32 cursor in
  let! (_, cursor) := nv_le_u32 cursor in
  fail! negb (version =? 0) with Msg "unsupported native nvlist version {}" [version] in
  Ok cursor.

(** The name of a pair and the aligned cursor behind it. *)
Definition native_name (pair_start pair_end name_size cursor : Z) : result (list Z * Z) :=
  fail! name_size =? 0 with Msg "native nvpair has an empty name" [] in
  let! (name_bytes, cursor) := take_ cursor name_size in
  fail! negb (bool_decide (last name_bytes = Some 0))
    with Msg "native nvpair name is not NUL terminated" [] in
  let! name_only := slice name_bytes 0 (name_size - 1) in
  let! name := ok_or (from_utf8 name_only) (Msg "native nvpair name is not UTF-8" []) in
  let! relative := sub cursor pair_start in
  let! aligned := ok_or (align_8 relative) (Msg "nvpair alignment overflow" []) in
  let! cursor := ok_or (checked_add pair_start aligned) (Msg "nvpair alignment overflow" []) in
  fail! pair_end <? cursor with Msg "native nvpair name exceeds the pair size" [] in
  Ok (name, cursor).

Fixpoint native_pairs (fuel : nat) (cursor : Z) (values : NvMap) : result (NvMap * Z) :=
  match fuel with
  | O => OutOfFuel
  | S fuel =>
      let pair_start := cursor in
      let! (pair_size, cursor) := nv_le_u32 cursor in
      if pair_size =? 0 then Ok (values, cursor)
      else
        fail! pair_size <? 16 with Msg "native nvpair has an invalid encoded size" [] in
        let! pair_end := ok_or (checked_add pair_start pair_size) (Msg "native nvpair size overflow" []) in
        fail! len bytes <? pair_end with Msg "native nvpair extends past the BEGIN payload" [] in
        let! (name_size, cursor) := nv_le_u16 cursor in
        let! (_, cursor) := take_ cursor 2 in
        let! (count, cursor) := nv_le_u32 cursor in
        let! (value_type, cursor) := nv_le_u32 cursor in
        let! (name, cursor) := native_name pair_start pair_end name_size cursor in
        let! (value, cursor) :=
          if (value_type =? 8) && (count =? 1) then
            let! (v, cursor) := nv_le_u64 cursor in Ok (Uint64 v, cursor)
          else if (value_type =? 9) && (count =? 1) then Ok (Ignored, cursor)
          else if (value_type =? 19) && (count =? 1) then
            fail! saturating_sub pair_end cursor <? 24
              with Msg "embedded native nvlist header is truncated" [] in
            let! (version, cursor) := nv_le_u32 cursor in
            fail! negb (version =? 0)
              with Msg "unsupported embedded native nvlist version {}" [version] in
            let! (l, cursor) := native_pairs fuel pair_end [] in Ok (List_ l, cursor)
          else if value_type =? 26 then
            let! (b, cursor) := take_ cursor count in Ok (Bytes_ b, cursor)
          else Err (Msg "unsupported native nvpair type {} with {} elements" [value_type; count]) in
        let! cursor :=
          if cursor <? pair_end then Ok pair_end
          else if (pair_end <? cursor) && negb (value_type =? 19)
          then Err (Msg "native nvpair payload exceeds its encoded size" [])
          else Ok cursor in
        native_pairs fuel cursor (nv_insert name value values)
  end.

Definition native_list (fuel : nat) (cursor : Z) (root : bool) : result (NvMap * Z) :=
  let! cursor := if root then native_header cursor else Ok cursor in
  native_pairs fuel cursor [].

(** ** The entry point (lines 897-907) *)

Definition decode (fuel : nat) : result NvMap :=
  let! (header, cursor) := take_ 0 4 in
  match header with
  | [0; 1; 0; 0] => let! (m, _) := native_list fuel cursor true in Ok m
  | [1; _; 0; 0] => let! (m, _) := xdr_list fuel cursor in Ok m
  | [0; 0; 0; 0] => Err (Msg "big-endian native nvlists in raw streams are unsupported" [])
  | _ => Err (Msg "raw stream crypt_keydata has an unsupported nvlist encoding" [])
  end.
End decoder.

(** The decoder with the fuel that is always enough. *)
Definition NvDecoder_decode (bytes : list Z) : result NvMap := decode bytes (S (length bytes)).

(** Values within the widths of their Rust types. *)
Inductive nv_ok : NvValue -> Prop :=
| Uint64_ok v : is_u64 v -> nv_ok (Uint64 v)
| Bytes_ok b : bytes_ok b -> nv_ok (Bytes_ b)
| List_ok m : Forall (fun kv => nv_ok kv.2) m -> nv_ok (List_ m)
| Ignored_ok : nv_ok Ignored.
#[export] Hint Constructors nv_ok : zse.

Abbreviation nv_map_ok := (Forall (fun kv : list Z * NvValue => nv_ok kv.2)).

(** ** Lemmas: every reader stays inside the buffer and moves forward *)

Lemma nv_get_ok name m v : nv_map_ok m -> nv_get name m = Some v -> nv_ok v.
Proof.
  induction 1 as [|[k w] m Hw Hm IH]; cbn; [done|].
  destruct (nv_get name m); [by auto|]. case_match; naive_solver.
Qed.

Lemma nv_insert_ok name v m : nv_map_ok m -> nv_ok v -> nv_map_ok (nv_insert name v m).
Proof. intros. unfold nv_insert. apply Forall_app; auto. Qed.

Lemma align_8_spec v a :
  0 <= v -> align_8 v = Some a -> v <= a < v + 8 /\ a mod 8 = 0.
Proof.
  intros Hv. unfold align_8, checked_add. case_match; [|done]. cbn. intros [= <-].
  change (Z.lnot 7) with (Z.lnot (Z.ones 3)). rewrite <- Z.ldiff_land, Z.ldiff_ones_r by lia.
  rewrite Z.shiftl_mul_pow2, Z.shiftr_div_pow2 by lia. change (2 ^ 3) with 8.
  split; [|apply Z.mod_mul; lia]. pose proof (Z.div_mod (v + 7) 8). pose proof (Z.mod_pos_bound (v + 7) 8). lia.
Qed.

Section lemmas.
Variable bytes : list Z.
Hypothesis bytes_bytes : bytes_ok bytes.

Definition in_buffer (c : Z) : Prop := 0 <= c <= len bytes.

Lemma wp_take c n (P : list Z * Z -> Prop) :
  0 <= c -> 0 <= n ->
  (forall b, fixed n b -> c + n <= len bytes -> P (b, c + n)) -> wp (take_ bytes c n) P.
Proof.
  intros Hc Hn HP. unfold take_. wp_steps.
  match goal with H : checked_add _ _ = Some _ |- _ => apply checked_add_Some in H as [? ->] end.
  b2p. apply wp_slice; [lia|lia|]. intros s -> Hs. apply wp_Ok, HP; [|lia].
  split; [lia|auto with zse].
Qed.

(** The integer readers share one shape. *)
Lemma wp_take_int (f : list Z -> Z) n c (P : Z * Z -> Prop) :
  0 <= c -> 0 <= n ->
  (forall b, bytes_ok b -> 0 <= f b < 256 ^ len b) ->
  (forall v, 0 <= v < 256 ^ n -> c + n <= len bytes -> P (v, c + n)) ->
  wp (let! (b, cursor) := take_ bytes c n in Ok (f b, cursor)) P.
Proof.
  intros Hc Hn Hf HP. apply wp_bind, wp_take; [done..|]. intros b [Hb Hok] Hl.
  apply wp_Ok, HP; [|done]. rewrite <- Hb. by apply Hf.
Qed.

Lemma wp_nv_u32 c (P : Z * Z -> Prop) :
  0 <= c -> (forall v, is_u32 v -> c + 4 <= len bytes -> P (v, c + 4)) -> wp (nv_u32 bytes c) P.
Proof.
  intros Hc HP. apply wp_take_int; [done|lia|apply be_val_bound|].
  intros v Hv. apply HP. change (256 ^ 4) with 4294967296 in Hv. u64.
Qed.

Lemma wp_nv_u64 c (P : Z * Z -> Prop) :
  0 <= c -> (forall v, is_u64 v -> c + 8 <= len bytes -> P (v, c + 8)) -> wp (nv_u64 bytes c) P.
Proof.
  intros Hc HP. apply wp_take_int; [done|lia|apply be_val_bound|].
  intros v Hv. apply HP. change (256 ^ 8) with TWO64 in Hv. u64.
Qed.

Lemma wp_nv_le_u16 c (P : Z * Z -> Prop) :
  0 <= c -> (forall v, is_u16 v -> c + 2 <= len bytes -> P (v, c + 2)) -> wp (nv_le_u16 bytes c) P.
Proof.
  intros Hc HP. apply wp_take_int; [done|lia|apply le_val_bound|].
  intros v Hv. apply HP. change (256 ^ 2) with 65536 in Hv. u64.
Qed.

Lemma wp_nv_le_u32 c (P : Z * Z -> Prop) :
  0 <= c -> (forall v, is_u32 v -> c + 4 <= len bytes -> P (v, c + 4)) -> wp (nv_le_u32 bytes c) P.
Proof.
  intros Hc HP. apply wp_take_int; [done|lia|apply le_val_bound|].
  intros v Hv. apply HP. change (256 ^ 4) with 4294967296 in Hv. u64.
Qed.

Lemma wp_nv_le_u64 c (P : Z * Z -> Prop) :
  0 <= c -> (forall v, is_u64 v -> c + 8 <= len bytes -> P (v, c + 8)) -> wp (nv_le_u64 bytes c) P.
Proof.
  intros Hc HP. apply wp_take_int; [done|lia|apply le_val_bound|].
  intros v Hv. apply HP. change (256 ^ 8) with TWO64 in Hv. u64.
Qed.

Lemma wp_string c (P : list Z * Z -> Prop) :
  0 <= c ->
  (forall name c', c + 4 <= c' <= len bytes -> P (name, c')) -> wp (string_ bytes c) P.
Proof.
  intros Hc HP. unfold string_.
  apply wp_bind, wp_nv_u32; [done|]. intros n Hn ?.
  apply wp_bind, wp_take; [lia|u64|]. intros b _ ?.
  wp_step. wp_step. unfold is_u32 in Hn. pose proof (Z.mod_pos_bound (4 - n mod 4) 4).
  apply wp_bind, wp_take; [lia|lia|]. intros. apply wp_Ok, HP. lia.
Qed.

Lemma wp_xdr_bytes n c (P : list Z * Z -> Prop) :
  in_buffer c ->
  (forall b c', bytes_ok b -> c <= c' <= len bytes -> P (b, c')) -> wp (xdr_bytes bytes n c) P.
Proof.
  unfold in_buffer. revert c P. induction n as [|n IH]; intros c P Hc HP; cbn [xdr_bytes].
  - apply wp_Ok, HP; [constructor|lia].
  - apply wp_bind, wp_nv_u32; [lia|]. intros v _ ?.
    apply wp_bind, IH; [lia|]. intros b c' Hb ?. apply wp_Ok, HP; [|lia].
    constructor; [|done]. unfold is_byte. pose proof (Z.mod_pos_bound v 256). lia.
Qed.

Lemma wp_xdr_header c (P : Z -> Prop) :
  0 <= c -> (c + 8 <= len bytes -> P (c + 8)) -> wp (xdr_header bytes c) P.
Proof.
  intros Hc HP. unfold xdr_header. apply wp_bind, wp_nv_u32; [done|]. intros v _ ?.
  apply wp_bind, wp_nv_u32; [lia|]. intros w _ ?. wp_steps.
  replace (c + 4 + 4) with (c + 8) in * by lia. auto.
Qed.

Lemma wp_native_header c (P : Z -> Prop) :
  0 <= c -> (c + 8 <= len bytes -> P (c + 8)) -> wp (native_header bytes c) P.
Proof.
  intros Hc HP. unfold native_header. apply wp_bind, wp_nv_le_u32; [done|]. intros v _ ?.
  apply wp_bind, wp_nv_le_u32; [lia|]. intros w _ ?. wp_steps.
  replace (c + 4 + 4) with (c + 8) in * by lia. auto.
Qed.

Definition pairs_post (c : Z) (out : NvMap * Z) : Prop :=
  nv_map_ok out.1 /\ c <= out.2 <= len bytes.

Lemma wp_xdr_pairs fuel c values :
  in_buffer c -> len bytes - c < Z.of_nat fuel -> nv_map_ok values ->
  wp (xdr_pairs bytes fuel c values) (pairs_post c).
Proof.
  unfold in_buffer. revert c values. induction fuel as [|fuel IH]; intros c values Hc Hf Hv; [lia|].
  cbn [xdr_pairs]. apply wp_bind, wp_nv_u32; [lia|]. intros size Hsize ?.
  apply wp_bind, wp_nv_u32; [lia|]. intros dsize _ ?.
  apply wp_if; intros Hz; [by apply wp_Ok; split; cbn; [|lia]|]. wp_steps.
  match goal with H : checked_add _ _ = Some _ |- _ => apply checked_add_Some in H as [? ->] end.
  b2p. apply wp_string; [lia|]. intros name c1 Hc1.
  apply wp_bind, wp_nv_u32; [lia|]. intros ty _ ?.
  apply wp_bind, wp_nv_u32; [lia|]. intros count _ ?.
  apply wp_bind, (wp_mono _ (fun out => nv_ok out.1 /\ c < out.2 <= len bytes)).
  - intros [value c2] [Hval Hc2]. cbn in Hval, Hc2. wp_steps.
    b2p. eapply wp_mono; [|apply IH; [lia|lia|by apply nv_insert_ok]].
    intros out [? ?]. split; [done|lia].
  - repeat (apply wp_if; intros _).
    + apply wp_bind, wp_nv_u64; [lia|]. intros. apply wp_Ok. split; cbn; [auto with zse|lia].
    + apply wp_bind, wp_string; [lia|]. intros. apply wp_Ok. split; cbn; [auto with zse|lia].
    + apply wp_bind, wp_xdr_header; [lia|]. intros.
      apply wp_bind. eapply wp_mono; [|apply IH; [lia|lia|done]].
      intros [l c2] [Hl Hc2]; cbn in Hl, Hc2. apply wp_Ok. split; cbn; [auto with zse|lia].
    + apply wp_bind, wp_nv_u32; [lia|]. intros wire _ ?. wp_steps.
      apply wp_xdr_bytes; [unfold in_buffer; lia|]. intros. apply wp_Ok. split; cbn; [auto with zse|lia].
    + apply wp_Err.
Qed.

Lemma wp_native_name pair_start pair_end n c (P : list Z * Z -> Prop) :
  0 <= pair_start <= c -> is_u16 n ->
  (forall name c', c < c' <= pair_end -> P (name, c')) ->
  wp (native_name bytes pair_start pair_end n c) P.
Proof.
  intros Hc Hn HP. unfold native_name. wp_step. b2p. unfold is_u16 in Hn.
  apply wp_bind, wp_take; [lia|lia|]. intros b [Hb _] ?. wp_step. wp_step.
  apply wp_slice; [lia|lia|]. intros s _ _. wp_step. wp_step. wp_step. apply wp_sub; [lia|].
  wp_steps.
  match goal with H : align_8 _ = Some _ |- _ => apply align_8_spec in H; [|lia] end.
  match goal with H : checked_add _ _ = Some _ |- _ => apply checked_add_Some in H as [? ->] end.
  b2p. apply HP. lia.
Qed.

Lemma wp_native_pairs fuel c values :
  in_buffer c -> len bytes - c < Z.of_nat fuel -> nv_map_ok values ->
  wp (native_pairs bytes fuel c values) (pairs_post c).
Proof.
  unfold in_buffer. revert c values. induction fuel as [|fuel IH]; intros c values Hc Hf Hv; [lia|].
  cbn [native_pairs]. apply wp_bind, wp_nv_le_u32; [lia|]. intros size Hsize ?.
  apply wp_if; intros Hz; [by apply wp_Ok; split; cbn; [|lia]|]. wp_steps.
  match goal with H : checked_add _ _ = Some _ |- _ => apply checked_add_Some in H as [? ->] end.
  b2p. apply wp_nv_le_u16; [lia|]. intros n Hn ?.
  apply wp_bind, wp_take; [lia|lia|]. intros reserved _ ?.
  apply wp_bind, wp_nv_le_u32; [lia|]. intros count Hcount ?.
  apply wp_bind, wp_nv_le_u32; [lia|]. intros ty _ ?.
  apply wp_bind, wp_native_name; [lia|done|]. intros name c1 Hc1.
  apply wp_bind, (wp_mono _ (fun out => nv_ok out.1 /\ c < out.2 <= len bytes)).
  - intros [value c2] [Hval Hc2]. cbn in Hval, Hc2.
    apply wp_bind, (wp_mono _ (fun c3 => c < c3 <= len bytes)).
    + intros c3 Hc3. eapply wp_mono; [|apply IH; [lia|lia|by apply nv_insert_ok]].
      intros out [? ?]. split; [done|lia].
    + apply wp_if; intros ?; [apply wp_Ok; lia|]. wp_steps. lia.
  - apply wp_if; intros _; [|apply wp_if; intros _; [|apply wp_if; intros _; [|apply wp_if; intros _]]].
    + apply wp_bind, wp_nv_le_u64; [lia|]. intros. apply wp_Ok. split; cbn; [auto with zse|lia].
    + apply wp_Ok. split; cbn; [auto with zse|lia].
    + wp_step. apply wp_bind, wp_nv_le_u32; [lia|]. intros v _ ?. wp_steps.
      eapply wp_mono; [|apply IH; [lia|lia|done]].
      intros [l c2] [Hl Hc2]; cbn in Hl, Hc2. apply wp_Ok. split; cbn; [auto with zse|lia].
    + apply wp_bind, wp_take; [lia|u64|]. intros b [_ Hb] ?. apply wp_Ok. split; cbn; [auto with zse|].
      unfold is_u32 in Hcount. lia.
    + apply wp_Err.
Qed.
End lemmas.

(** On any buffer the decoder returns, within one unit of fuel per byte. *)
Lemma wp_decode bytes fuel :
  bytes_ok bytes -> len bytes < Z.of_nat fuel -> wp (decode bytes fuel) nv_map_ok.
Proof.
  intros Hb Hf. unfold decode. apply wp_bind, wp_take; [done|lia|lia|].
  intros h _ Hh.
  assert (forall c, 0 <= c <= len bytes -> wp (let! (m, _) := native_pairs bytes fuel c [] in Ok m) nv_map_ok) as Hn.
  { intros c Hc. apply wp_bind. eapply wp_mono; [|apply wp_native_pairs; [done|done|lia|done]].
    intros [m c'] [? _]. by apply wp_Ok. }
  assert (forall c, 0 <= c <= len bytes -> wp (let! (m, _) := xdr_pairs bytes fuel c [] in Ok m) nv_map_ok) as Hx.
  { intros c Hc. apply wp_bind. eapply wp_mono; [|apply wp_xdr_pairs; [done|done|lia|done]].
    intros [m c'] [? _]. by apply wp_Ok. }
  assert (wp (let! (m, _) := native_list bytes fuel (0 + 4) true in Ok m) nv_map_ok) as Hnative.
  { unfold native_list. rewrite bind_assoc. apply wp_bind, wp_native_header; [done|lia|]. intros. apply Hn. lia. }
  assert (wp (let! (m, _) := xdr_list bytes fuel (0 + 4) in Ok m) nv_map_ok) as Hxdr.
  { unfold xdr_list. rewrite bind_assoc. apply wp_bind, wp_xdr_header; [done|lia|]. intros. apply Hx. lia. }
  repeat case_match; try apply wp_Err; done.
Qed.
