(* ===== verification/NvWriter.v ===== *)
(** A reference writer for the two nvlist encodings, and the round trip: what it
    writes, [NvDecoder] reads back, nested lists included. *)

From S2P Require Import Prelude Bytes Utf8 NvList.

(** ** The writers *)

Definition nv_type (v : NvValue) : Z :=
  match v with Uint64 _ => 8 | Ignored => 9 | List_ _ => 19 | Bytes_ _ => 26 end.
Definition nv_count (v : NvValue) : Z :=
  match v with Bytes_ b => len b | _ => 1 end.

Definition xdr_string (s : list Z) : list Z :=
  be_bytes 4 (len s) ++ s ++ zrepeat ((4 - len s mod 4) mod 4) 0.

Definition xdr_pair (name : list Z) (ty count : Z) (payload : list Z) : list Z :=
  let body := xdr_string name ++ be_bytes 4 ty ++ be_bytes 4 count ++ payload in
  be_bytes 4 (8 + len body) ++ be_bytes 4 0 ++ body.

Definition xdr_words (b : list Z) : list Z := flat_map (be_bytes 4) b.

Fixpoint xdr_value (v : NvValue) : list Z :=
  match v with
  | Uint64 v => be_bytes 8 v
  | Bytes_ b => be_bytes 4 (len b) ++ xdr_words b
  | Ignored => xdr_string []
  | List_ m =>
      be_bytes 4 0 ++ be_bytes 4 1 ++
      (fix pairs m :=
         match m with
         | [] => be_bytes 4 0 ++ be_bytes 4 0
         | (k, v) :: m => xdr_pair k (nv_type v) (nv_count v) (xdr_value v) ++ pairs m
         end) m
  end.

Fixpoint xdr_map (m : NvMap) : list Z :=
  match m with
  | [] => be_bytes 4 0 ++ be_bytes 4 0
  | (k, v) :: m => xdr_pair k (nv_type v) (nv_count v) (xdr_value v) ++ xdr_map m
  end.

(** [endian] is the second byte of the header, which the XDR arm ignores. *)
Definition write_xdr (endian flags : Z) (m : NvMap) : list Z :=
  [1; endian; 0; 0] ++ be_bytes 4 0 ++ be_bytes 4 flags ++ xdr_map m.

Definition pad_8 (n : Z) : Z := (8 - n mod 8) mod 8.

Definition native_pair (name : list Z) (ty count : Z) (payload : list Z) : list Z :=
  let named := 16 + len name + 1 in
  le_bytes 4 (named + pad_8 named + len payload) ++ le_bytes 2 (len name + 1) ++ [0; 0] ++
  le_bytes 4 count ++ le_bytes 4 ty ++ (name ++ [0]) ++ zrepeat (pad_8 named) 0 ++ payload.

(** The payload inside a pair, and what follows the pair. *)
Definition native_inside (v : NvValue) : list Z :=
  match v with
  | Uint64 v => le_bytes 8 v
  | Bytes_ b => b ++ zrepeat (pad_8 (len b)) 0
  | Ignored => []
  | List_ _ => zrepeat 24 0
  end.

Fixpoint native_behind (v : NvValue) : list Z :=
  match v with
  | List_ m =>
      (fix pairs m :=
         match m with
         | [] => le_bytes 4 0
         | (k, v) :: m =>
             native_pair k (nv_type v) (nv_count v) (native_inside v) ++ native_behind v ++ pairs m
         end) m
  | _ => []
  end.

Fixpoint native_map (m : NvMap) : list Z :=
  match m with
  | [] => le_bytes 4 0
  | (k, v) :: m =>
      native_pair k (nv_type v) (nv_count v) (native_inside v) ++ native_behind v ++ native_map m
  end.

Definition write_native (flags : Z) (m : NvMap) : list Z :=
  [0; 1; 0; 0] ++ le_bytes 4 0 ++ le_bytes 4 flags ++ native_map m.

(** What can be written: field widths, names that are text of less than 2^16
    bytes. *)
Inductive nv_writable : NvValue -> Prop :=
| w_uint64 v : is_u64 v -> nv_writable (Uint64 v)
| w_bytes b : bytes_ok b -> nv_writable (Bytes_ b)
| w_list m : Forall (fun kv => utf8_valid kv.1 = true /\ len kv.1 < U16_MAX /\ nv_writable kv.2) m ->
    nv_writable (List_ m)
| w_ignored : nv_writable Ignored.

Abbreviation map_writable :=
  (Forall (fun kv : list Z * NvValue => utf8_valid kv.1 = true /\ len kv.1 < U16_MAX /\ nv_writable kv.2)).

Lemma xdr_value_list m : xdr_value (List_ m) = be_bytes 4 0 ++ be_bytes 4 1 ++ xdr_map m.
Proof. reflexivity. Qed.

Lemma native_behind_list m : native_behind (List_ m) = native_map m.
Proof. reflexivity. Qed.

(** ** Reading at a position *)

(** [s] is what [bytes] holds from offset [c] on. *)
Definition at_ (bytes : list Z) (c : Z) (s : list Z) : Prop :=
  exists pre post, bytes = pre ++ s ++ post /\ c = len pre.

Lemma at_app bytes c s1 s2 : at_ bytes c (s1 ++ s2) -> at_ bytes c s1 /\ at_ bytes (c + len s1) s2.
Proof.
  intros (pre & post & -> & ->). split.
  - exists pre, (s2 ++ post). by rewrite <- app_assoc.
  - exists (pre ++ s1), post. rewrite len_app, <- !app_assoc. done.
Qed.

Lemma at_bound bytes c s : at_ bytes c s -> 0 <= c /\ c + len s <= len bytes.
Proof. intros (pre & post & -> & ->). len_lia. Qed.


Section reading.
Variable bytes : list Z.
Hypothesis bytes_len : len bytes <= U32_MAX.

Lemma take_at c n s : at_ bytes c s -> n = len s -> take_ bytes c n = Ok (s, c + n).
Proof.
  intros Hat ->. pose proof (at_bound _ _ _ Hat). unfold take_.
  rewrite (proj2 (checked_add_Some c (len s) (c + len s))) by lia. cbn [ok_or bind].
  destruct (Z.ltb_spec (len bytes) (c + len s)); [lia|].
  destruct Hat as (pre & post & -> & ->). unfold slice. by rewrite get_range_app.
Qed.

Lemma u32_at c v : at_ bytes c (be_bytes 4 v) -> is_u32 v -> nv_u32 bytes c = Ok (v, c + 4).
Proof.
  intros Hat Hv. unfold nv_u32. erewrite take_at by (done || by rewrite be_bytes_len).
  cbn [bind]. rewrite be_val_be_bytes. change (256 ^ Z.of_nat 4) with 4294967296.
  rewrite Z.mod_small by u64. done.
Qed.

Lemma u64_at c v : at_ bytes c (be_bytes 8 v) -> is_u64 v -> nv_u64 bytes c = Ok (v, c + 8).
Proof.
  intros Hat Hv. unfold nv_u64. erewrite take_at by (done || by rewrite be_bytes_len).
  cbn [bind]. rewrite be_val_be_bytes. change (256 ^ Z.of_nat 8) with TWO64.
  rewrite Z.mod_small by u64. done.
Qed.

Lemma le_u16_at c v : at_ bytes c (le_bytes 2 v) -> is_u16 v -> nv_le_u16 bytes c = Ok (v, c + 2).
Proof.
  intros Hat Hv. unfold nv_le_u16. erewrite take_at by (done || by rewrite len_le_bytes).
  cbn [bind]. rewrite le_val_le_bytes. change (256 ^ Z.of_nat 2) with 65536.
  rewrite Z.mod_small by u64. done.
Qed.

Lemma le_u32_at c v : at_ bytes c (le_bytes 4 v) -> is_u32 v -> nv_le_u32 bytes c = Ok (v, c + 4).
Proof.
  intros Hat Hv. unfold nv_le_u32. erewrite take_at by (done || by rewrite len_le_bytes).
  cbn [bind]. rewrite le_val_u32_roundtrip; done.
Qed.

Lemma le_u64_at c v : at_ bytes c (le_bytes 8 v) -> is_u64 v -> nv_le_u64 bytes c = Ok (v, c + 8).
Proof.
  intros Hat Hv. unfold nv_le_u64. erewrite take_at by (done || by rewrite len_le_bytes).
  cbn [bind]. rewrite le_val_u64_roundtrip; done.
Qed.

Lemma string_at c s :
  at_ bytes c (xdr_string s) -> utf8_valid s = true ->
  string_ bytes c = Ok (s, c + len (xdr_string s)).
Proof.
  intros Hat Hs. pose proof (at_bound _ _ _ Hat) as Hb. revert Hat Hb. unfold xdr_string.
  intros [H1 [H2 H3]%at_app]%at_app Hb. autorewrite with len in *.
  pose proof (Z.mod_pos_bound (4 - len s mod 4) 4). pose proof (len_nonneg s).
  unfold string_. rewrite (u32_at _ (len s)) by (done || u64). cbn [bind].
  rewrite (take_at _ _ s) by done. cbn [bind].
  unfold from_utf8. rewrite Hs. cbn [ok_or bind].
  change (Z.of_nat 4) with 4 in *.
  rewrite (take_at _ _ _ H3) by (rewrite len_zrepeat; lia). cbn [bind]. do 2 f_equal. lia.
Qed.

Lemma xdr_words_at b c :
  at_ bytes c (xdr_words b) -> bytes_ok b ->
  xdr_bytes bytes (length b) c = Ok (b, c + len (xdr_words b)).
Proof.
  revert c. induction b as [|x b IH]; intros c Hat Hb.
  - cbn [xdr_bytes xdr_words flat_map length]. rewrite len_nil, Z.add_0_r. done.
  - inversion Hb as [|? ? Hx Hb']; subst. unfold xdr_words in Hat. cbn [flat_map] in Hat.
    apply at_app in Hat as [H1 H2]. rewrite be_bytes_len in H2. change (Z.of_nat 4) with 4 in H2.
    unfold is_byte in Hx. cbn [length xdr_bytes].
    rewrite (u32_at _ x) by (done || u64). cbn [bind].
    rewrite IH by done. cbn [bind]. rewrite Z.mod_small by lia. do 2 f_equal.
    unfold xdr_words. cbn [flat_map]. rewrite len_app, be_bytes_len. lia.
Qed.
End reading.

(** ** Reading the pairs back *)

Lemma xdr_pair_len name ty count payload :
  len (xdr_pair name ty count payload) = 16 + len (xdr_string name) + len payload.
Proof. unfold xdr_pair. autorewrite with len. lia. Qed.

Lemma pad_8_spec n : 0 <= n -> 0 <= pad_8 n < 8 /\ (n + pad_8 n) mod 8 = 0.
Proof.
  intros Hn. unfold pad_8. pose proof (Z.mod_pos_bound n 8). split; [apply Z.mod_pos_bound; lia|].
  rewrite Z.add_mod_idemp_r by lia. replace (n + (8 - n mod 8)) with ((n - n mod 8) + 1 * 8) by lia.
  rewrite Z.mod_add, Zminus_mod_idemp_r, Z.sub_diag by lia. done.
Qed.

Lemma align_8_pad n : 0 <= n -> n + 7 <= U64_MAX -> align_8 n = Some (n + pad_8 n).
Proof.
  intros Hn Hmax. destruct (align_8 n) as [a|] eqn:Ha.
  - apply align_8_spec in Ha as [Hr Hm]; [|done]. pose proof (pad_8_spec n Hn) as [Hp Hpm].
    f_equal. apply Z.mod_divide in Hm as [x ->]; [|lia]. apply Z.mod_divide in Hpm as [y Hy]; [|lia].
    rewrite Hy in *. nia.
  - unfold align_8, checked_add in Ha. case_match; [done|]. b2p. lia.
Qed.

Section pairs.
Variable bytes : list Z.
Hypothesis bytes_len : len bytes <= U32_MAX.

(** The value of an XDR pair, by the reading of a nested list. *)
Lemma xdr_value_at fuel v c :
  (forall m c, at_ bytes c (xdr_map m) -> map_writable m -> v = List_ m ->
     xdr_pairs bytes fuel c [] = Ok (m, c + len (xdr_map m))) ->
  at_ bytes c (xdr_value v) -> nv_writable v ->
  (if (nv_type v =? 8) && (nv_count v =? 1) then
     let! (v, cursor) := nv_u64 bytes c in Ok (Uint64 v, cursor)
   else if (nv_type v =? 9) && (nv_count v =? 1) then
     let! (_, cursor) := string_ bytes c in Ok (Ignored, cursor)
   else if (nv_type v =? 19) && (nv_count v =? 1) then
     let! cursor := xdr_header bytes c in
     let! (l, cursor) := xdr_pairs bytes fuel cursor [] in Ok (List_ l, cursor)
   else if nv_type v =? 26 then
     let! (wire_count, cursor) := nv_u32 bytes c in
     fail! negb (wire_count =? nv_count v)
       with Msg "nvpair byte-array count does not match its XDR count" [] in
     let! (b, cursor) := xdr_bytes bytes (Z.to_nat (nv_count v)) cursor in Ok (Bytes_ b, cursor)
   else Err (Msg "unsupported nvpair type {} with {} elements" [nv_type v; nv_count v]))
  = Ok (v, c + len (xdr_value v)).
Proof.
  intros Hnest Hat Hw. pose proof (at_bound _ _ _ Hat) as Hb. destruct v as [v|b|m|]; cbn [nv_type nv_count].
  - inversion Hw; subst. cbn [xdr_value] in *. cbn -[nv_u64 bind]. rewrite (u64_at _ bytes_len _ v) by done. cbn [bind xdr_value].
    reflexivity.
  - inversion Hw; subst. cbn [xdr_value] in Hat, Hb. apply at_app in Hat as [H1 H2].
    autorewrite with len in *. change (Z.of_nat 4) with 4 in *.
    assert (is_u32 (len b)).
    { split; [apply len_nonneg|]. enough (len b <= len (xdr_words b)) by lia.
      clear. induction b as [|x b IH]; [done|]. unfold xdr_words in *. cbn [flat_map]. autorewrite with len. lia. }
    cbn -[nv_u32 bind xdr_bytes Z.to_nat xdr_value]. rewrite (u32_at _ bytes_len _ (len b)) by done. cbn [bind].
    rewrite Z.eqb_refl. cbn [negb]. rewrite len_nat, xdr_words_at by done. cbn [bind xdr_value].
    autorewrite with len. do 2 f_equal. lia.
  - inversion Hw; subst. rewrite xdr_value_list in *. apply at_app in Hat as [H1 [H2 H3]%at_app].
    autorewrite with len in *. change (Z.of_nat 4) with 4 in *.
    cbn -[bind xdr_header xdr_pairs xdr_value]. unfold xdr_header.
    rewrite (u32_at _ bytes_len _ 0) by (done || u64). cbn [bind].
    rewrite (u32_at _ bytes_len _ 1) by (done || u64). cbn [bind Z.eqb negb].
    rewrite (Hnest m) by (done || by replace (c + 4 + 4) with (c + 8) by lia). cbn [bind]. do 2 f_equal. lia.
  - cbn -[string_ bind xdr_value]. cbn [xdr_value] in *.
    rewrite (string_at _ bytes_len _ []) by done. done.
Qed.

Lemma xdr_pairs_at fuel m acc c :
  at_ bytes c (xdr_map m) -> map_writable m -> len (xdr_map m) < Z.of_nat fuel ->
  xdr_pairs bytes fuel c acc = Ok (acc ++ m, c + len (xdr_map m)).
Proof.
  revert m acc c. induction fuel as [|fuel IH]; intros m acc c Hat Hm Hf; [len_lia|].
  pose proof (at_bound _ _ _ Hat) as Hb. destruct m as [|[k v] m].
  - cbn [xdr_map] in *. apply at_app in Hat as [H1 H2]. rewrite be_bytes_len in H2. cbn [xdr_pairs].
    rewrite (u32_at _ bytes_len _ 0) by (done || u64). cbn [bind].
    change (Z.of_nat 4) with 4 in H2. rewrite (u32_at _ bytes_len _ 0) by (done || u64). cbn [bind].
    rewrite app_nil_r, Z.eqb_refl. autorewrite with len. do 2 f_equal. lia.
  - inversion Hm as [|? ? (Hk & Hkl & Hv) Hm']; subst. cbn [fst snd] in *. cbn [xdr_map] in Hat, Hf, Hb.
    apply at_app in Hat as [Hpair Hrest]. rewrite !len_app, !xdr_pair_len in *. unfold xdr_pair in Hpair.
    apply at_app in Hpair as [Hsize Hpair]. apply at_app in Hpair as [Hzero Hpair].
    apply at_app in Hpair as [Hname Hpair]. apply at_app in Hpair as [Hty Hpair].
    apply at_app in Hpair as [Hcount Hval].
    autorewrite with len in *. change (Z.of_nat 4) with 4 in *.
    pose proof (len_nonneg (xdr_string k)). pose proof (len_nonneg (xdr_value v)). pose proof (len_nonneg (xdr_map m)).
    assert (0 <= nv_type v <= 26) by (destruct v; cbn; lia).
    assert (is_u32 (nv_count v)).
    { destruct v as [|b| |]; cbn [nv_count]; try u64.
      pose proof (at_bound _ _ _ Hval) as Hvb. cbn [xdr_value] in Hvb. autorewrite with len in Hvb.
      enough (0 <= len b <= len (xdr_words b)) by u64. clear. pose proof (len_nonneg b). split; [done|].
      induction b as [|x b IH]; [done|]. unfold xdr_words in *. cbn [flat_map]. len_lia. }
    cbn [xdr_pairs].
    rewrite (u32_at _ bytes_len _ _ Hsize) by u64. cbn [bind].
    rewrite (u32_at _ bytes_len _ _ Hzero) by u64. cbn [bind].
    set (size := 8 + _) in *.
    destruct (Z.eqb_spec size 0); [lia|]. destruct (Z.ltb_spec size 8); [lia|].
    rewrite (proj2 (checked_add_Some c size (c + size))) by lia. cbn [ok_or bind].
    destruct (Z.ltb_spec (len bytes) (c + size)); [lia|].
    rewrite (string_at _ bytes_len _ _ Hname Hk). cbn [bind].
    rewrite (u32_at _ bytes_len _ _ Hty) by u64. cbn [bind].
    rewrite (u32_at _ bytes_len _ _ Hcount) by done. cbn [bind].
    rewrite xdr_value_at; [|intros m' c' Hat' Hw' ->|exact Hval|done].
    2: { apply (IH m' [] c' Hat' Hw'). rewrite xdr_value_list in *. autorewrite with len in *. lia. }
    cbn [bind]. match goal with |- context [?a <? ?b] => destruct (Z.ltb_spec a b); [lia|] end.
    rewrite (IH m (nv_insert k v acc) (c + size)); [|by replace (c + size) with (c + (16 + len (xdr_string k) + len (xdr_value v))) by lia|done|lia].
    unfold nv_insert. cbn [xdr_map]. rewrite <- app_assoc, len_app, xdr_pair_len.
    cbn [app]. do 2 f_equal. lia.
Qed.
End pairs.

(** ** The native encoding *)

Lemma native_pair_len name ty count payload :
  len (native_pair name ty count payload) =
  16 + len name + 1 + pad_8 (16 + len name + 1) + len payload.
Proof.
  unfold native_pair. pose proof (len_nonneg name). pose proof (pad_8_spec (16 + len name + 1)).
  autorewrite with len. lia.
Qed.

Lemma last_snoc_zero (l : list Z) : bool_decide (last (l ++ [0]) = Some 0) = true.
Proof. rewrite last_snoc. by apply bool_decide_eq_true. Qed.

Section native.
Variable bytes : list Z.
Hypothesis bytes_len : len bytes <= U32_MAX.

(** The name of a pair that starts at [c]. *)
Lemma native_name_at c pair_end name :
  at_ bytes (c + 16) (name ++ [0]) -> 0 <= c -> utf8_valid name = true ->
  c + (16 + len name + 1 + pad_8 (16 + len name + 1)) <= pair_end <= len bytes ->
  native_name bytes c pair_end (len name + 1) (c + 16) =
    Ok (name, c + (16 + len name + 1 + pad_8 (16 + len name + 1))).
Proof.
  intros Hat Hc Hname Hend. pose proof (len_nonneg name). pose proof (pad_8_spec (16 + len name + 1)).
  unfold native_name. destruct (Z.eqb_spec (len name + 1) 0); [lia|].
  rewrite (take_at _ bytes_len _ _ _ Hat) by len_lia. cbn [bind].
  rewrite last_snoc_zero. cbn [negb].
  pose proof (get_range_app [] name [0] 0 (len name)) as Hg. cbn [app] in Hg.
  replace (len name + 1 - 1) with (len name) by lia.
  unfold slice. rewrite Hg by len_lia. cbn [expect bind].
  unfold from_utf8. rewrite Hname. cbn [ok_or bind].
  unfold sub. destruct (Z.leb_spec c (c + 16 + (len name + 1))); [|lia]. cbn [bind].
  replace (c + 16 + (len name + 1) - c) with (16 + len name + 1) by lia.
  rewrite align_8_pad by lia. cbn [ok_or bind].
  set (sz := _ + pad_8 _) in *.
  rewrite (proj2 (checked_add_Some c sz (c + sz))) by lia. cbn [ok_or bind].
  destruct (Z.ltb_spec pair_end (c + sz)); [lia|done].
Qed.

(** The value of a native pair that ends at [pair_end], and the cursor it
    leaves: inside the pair, or behind the nested pairs. *)
Definition native_value_end (v : NvValue) (pair_end c : Z) : Z :=
  match v with
  | List_ _ => pair_end + len (native_behind v)
  | Bytes_ b => c + len b
  | _ => c + len (native_inside v)
  end.

Lemma native_value_at fuel v c pair_end :
  (forall m, at_ bytes pair_end (native_map m) -> map_writable m -> v = List_ m ->
     native_pairs bytes fuel pair_end [] = Ok (m, pair_end + len (native_map m))) ->
  at_ bytes c (native_inside v) -> at_ bytes pair_end (native_behind v) ->
  pair_end = c + len (native_inside v) -> nv_writable v ->
  (if (nv_type v =? 8) && (nv_count v =? 1) then
     let! (v, cursor) := nv_le_u64 bytes c in Ok (Uint64 v, cursor)
   else if (nv_type v =? 9) && (nv_count v =? 1) then Ok (Ignored, c)
   else if (nv_type v =? 19) && (nv_count v =? 1) then
     fail! saturating_sub pair_end c <? 24
       with Msg "embedded native nvlist header is truncated" [] in
     let! (version, cursor) := nv_le_u32 bytes c in
     fail! negb (version =? 0)
       with Msg "unsupported embedded native nvlist version {}" [version] in
     let! (l, cursor) := native_pairs bytes fuel pair_end [] in Ok (List_ l, cursor)
   else if nv_type v =? 26 then
     let! (b, cursor) := take_ bytes c (nv_count v) in Ok (Bytes_ b, cursor)
   else Err (Msg "unsupported native nvpair type {} with {} elements" [nv_type v; nv_count v]))
  = Ok (v, native_value_end v pair_end c).
Proof.
  intros Hnest Hin Hbehind Hend Hw. inversion Hw; subst; cbn [nv_type nv_count native_value_end].
  - cbn [native_inside] in *. cbn -[nv_le_u64 bind le_bytes].
    rewrite (le_u64_at _ bytes_len _ v0) by done. cbn [bind]. by rewrite len_le_bytes.
  - cbn [native_inside] in Hin. apply at_app in Hin as [Hin _].
    cbn -[take_ bind]. by rewrite (take_at _ bytes_len _ _ _ Hin).
  - cbn [native_inside] in *. rewrite native_behind_list in *.
    cbn -[bind saturating_sub nv_le_u32 native_pairs native_map native_behind zrepeat].
    rewrite len_zrepeat in *. unfold saturating_sub.
    match goal with |- context [?a <? 24] => destruct (Z.ltb_spec a 24); [lia|] end.
    pose proof (at_app _ c (le_bytes 4 0) (zrepeat 20 0) Hin) as [Hver _].
    rewrite (le_u32_at _ bytes_len _ 0) by (done || u64). cbn [bind Z.eqb negb].
    by rewrite (Hnest m).
  - cbn. by rewrite Z.add_0_r.
Qed.

(** Behind the value the decoder moves to the end of the pair, or of the nested
    pairs. *)
Lemma native_step_end v c pair_end :
  pair_end = c + len (native_inside v) ->
  (if native_value_end v pair_end c <? pair_end then Ok pair_end
   else if (pair_end <? native_value_end v pair_end c) && negb (nv_type v =? 19)
   then Err (Msg "native nvpair payload exceeds its encoded size" [])
   else Ok (native_value_end v pair_end c)) = Ok (pair_end + len (native_behind v)).
Proof.
  intros ->. destruct v as [v|b|m|]; cbn [native_value_end nv_type].
  - rewrite Z.ltb_irrefl. cbn [andb]. f_equal. change (len (native_behind _)) with 0. lia.
  - change (len (native_behind _)) with 0. cbn [native_inside].
    pose proof (pad_8_spec (len b) (len_nonneg b)). rewrite len_app, len_zrepeat, !Z.add_0_r.
    destruct (Z.ltb_spec (c + len b) (c + (len b + Z.max 0 (pad_8 (len b))))); [done|].
    match goal with |- context [?x <? ?y] => destruct (Z.ltb_spec x y); [lia|] end.
    cbn [andb]. do 2 f_equal. lia.
  - pose proof (len_nonneg (native_behind (List_ m))).
    match goal with |- context [?x <? ?y] => destruct (Z.ltb_spec x y); [lia|] end.
    cbn [Z.eqb Pos.eqb negb]. by rewrite andb_false_r.
  - rewrite Z.ltb_irrefl. cbn [andb]. f_equal. change (len (native_behind _)) with 0. lia.
Qed.

Lemma native_pairs_at fuel m acc c :
  at_ bytes c (native_map m) -> map_writable m -> len (native_map m) < Z.of_nat fuel ->
  native_pairs bytes fuel c acc = Ok (acc ++ m, c + len (native_map m)).
Proof.
  revert m acc c. induction fuel as [|fuel IH]; intros m acc c Hat Hm Hf; [len_lia|].
  pose proof (at_bound _ _ _ Hat) as Hb. destruct m as [|[k v] m].
  - cbn [native_map] in *. cbn [native_pairs].
    rewrite (le_u32_at _ bytes_len _ 0) by (done || u64). cbn [bind].
    rewrite app_nil_r, Z.eqb_refl, len_le_bytes. done.
  - inversion Hm as [|? ? (Hk & Hkl & Hv) Hm']; subst. cbn [fst snd] in *. cbn [native_map] in Hat, Hf, Hb.
    apply at_app in Hat as [Hpair Hrest]. apply at_app in Hrest as [Hbehind Hrest].
    rewrite !len_app, !native_pair_len in *. unfold native_pair in Hpair.
    set (named := 16 + len k + 1) in *. assert (named = 16 + len k + 1) as Hnamed by done.
    apply at_app in Hpair as [Hsize Hpair]. apply at_app in Hpair as [Hnl Hpair].
    apply at_app in Hpair as [Hres Hpair]. apply at_app in Hpair as [Hcount Hpair].
    apply at_app in Hpair as [Hty Hpair]. apply at_app in Hpair as [Hname Hpair].
    apply at_app in Hpair as [_ Hval].
    rewrite !len_le_bytes, len_zrepeat, !len_app in *. change (len [0; 0]) with 2 in *. change (len [0]) with 1 in *.
    change (Z.of_nat 4) with 4 in *. change (Z.of_nat 2) with 2 in *.
    assert (0 <= named) as Hn0 by (unfold named; len_lia).
    pose proof (pad_8_spec named Hn0) as [Hpad _]. pose proof (len_nonneg k).
    pose proof (len_nonneg (native_inside v)). pose proof (len_nonneg (native_behind v)).
    pose proof (len_nonneg (native_map m)).
    replace (c + 4 + 2 + 2 + 4 + 4) with (c + 16) in * by lia.
    replace (c + 16 + (len k + 1) + Z.max 0 (pad_8 named)) with (c + (named + pad_8 named)) in Hval by lia.
    assert (0 <= nv_type v <= 26) by (destruct v; cbn; lia).
    assert (is_u32 (nv_count v)).
    { destruct v as [|b| |]; cbn [nv_count]; try u64. cbn [native_inside] in *.
      revert Hb. autorewrite with len. pose proof (len_nonneg b). pose proof (pad_8_spec (len b)). u64. }
    set (size := named + pad_8 named + len (native_inside v)) in *.
    cbn [native_pairs].
    rewrite (le_u32_at _ bytes_len _ _ Hsize) by u64. cbn [bind].
    destruct (Z.eqb_spec size 0); [lia|]. destruct (Z.ltb_spec size 16); [lia|].
    rewrite (proj2 (checked_add_Some c size (c + size))) by lia. cbn [ok_or bind].
    destruct (Z.ltb_spec (len bytes) (c + size)); [lia|].
    rewrite (le_u16_at _ bytes_len _ _ Hnl) by u64. cbn [bind].
    rewrite (take_at _ bytes_len _ 2 _ Hres) by done. cbn [bind].
    rewrite (le_u32_at _ bytes_len _ _ Hcount) by done. cbn [bind].
    rewrite (le_u32_at _ bytes_len _ _ Hty) by u64. cbn [bind].
    replace (c + 4 + 2 + 2 + 4 + 4) with (c + 16) by lia.
    rewrite (native_name_at c (c + size) k Hname) by (first [done | fold named; lia]). cbn [bind].
    fold named.
    rewrite native_value_at; [|intros m' Hat' Hw' ->|exact Hval|exact Hbehind|lia|done].
    2: { apply (IH m' [] _ Hat' Hw'). rewrite native_behind_list in *. lia. }
    cbn [bind]. rewrite native_step_end by lia. cbn [bind].
    rewrite (IH m (nv_insert k v acc) _ Hrest Hm') by lia. unfold nv_insert. cbn [native_map].
    rewrite <- app_assoc, !len_app, native_pair_len. cbn [app]. fold named. do 2 f_equal. lia.
Qed.
End native.

(** ** The round trips *)

Lemma write_xdr_decode endian flags m :
  is_u32 flags -> map_writable m -> len (write_xdr endian flags m) <= U32_MAX ->
  NvDecoder_decode (write_xdr endian flags m) = Ok m.
Proof.
  intros Hflags Hm Hlen. unfold NvDecoder_decode, decode.
  assert (at_ (write_xdr endian flags m) 0 (write_xdr endian flags m)) as Hat
    by (exists [], []; by rewrite app_nil_r).
  set (bytes := write_xdr endian flags m) in Hat at 1, Hlen |- *. unfold write_xdr in Hat. apply at_app in Hat as [Hh Hat].
  apply at_app in Hat as [Hver Hat]. apply at_app in Hat as [Hfl Hat].
  rewrite !be_bytes_len in *. change (len [1; endian; 0; 0]) with 4 in *. change (Z.of_nat 4) with 4 in *.
  rewrite (take_at _ Hlen _ 4 _ Hh) by done. cbn [bind]. unfold xdr_list, xdr_header.
  rewrite (u32_at _ Hlen _ _ Hver) by u64. cbn [bind].
  rewrite (u32_at _ Hlen _ _ Hfl) by done. cbn [bind Z.eqb negb].
  rewrite (xdr_pairs_at _ Hlen _ m [] _ Hat Hm); [done|].
  apply at_bound in Hat. unfold len in *. lia.
Qed.

Lemma write_native_decode flags m :
  is_u32 flags -> map_writable m -> len (write_native flags m) <= U32_MAX ->
  NvDecoder_decode (write_native flags m) = Ok m.
Proof.
  intros Hflags Hm Hlen. unfold NvDecoder_decode, decode.
  assert (at_ (write_native flags m) 0 (write_native flags m)) as Hat
    by (exists [], []; by rewrite app_nil_r).
  set (bytes := write_native flags m) in Hat at 1, Hlen |- *. unfold write_native in Hat. apply at_app in Hat as [Hh Hat].
  apply at_app in Hat as [Hver Hat]. apply at_app in Hat as [Hfl Hat].
  rewrite !len_le_bytes in *. change (len [0; 1; 0; 0]) with 4 in *. change (Z.of_nat 4) with 4 in *.
  rewrite (take_at _ Hlen _ 4 _ Hh) by done. cbn [bind]. unfold native_list, native_header.
  rewrite (le_u32_at _ Hlen _ _ Hver) by u64. cbn [bind].
  rewrite (le_u32_at _ Hlen _ _ Hfl) by done. cbn [bind Z.eqb negb].
  rewrite (native_pairs_at _ Hlen _ m [] _ Hat Hm); [done|].
  apply at_bound in Hat. unfold len in *. lia.
Qed.
