(* ===== verification/Encrypted.v ===== *)
(** Dataset keys, src/src/encrypted.rs: the wrapped-key parameters from a raw
    stream's BEGIN payload or a pool's ZAP, key files, unlocking, and block
    decryption and authentication. The cryptography is in crates outside src: a
    type class gives the operations, a second one what the code relies on. *)

From S2P Require Import Prelude Bytes Utf8 Compression NvList.

(** ** The cryptographic crates *)

Inductive AeadAlgorithm : Type :=
| Aes128Ccm | Aes192Ccm | Aes256Ccm | Aes128Gcm | Aes192Gcm | Aes256Gcm.

(** The length of a cipher's key. *)
Definition aead_key_len (a : AeadAlgorithm) : Z :=
  match a with Aes128Ccm | Aes128Gcm => 16 | Aes192Ccm | Aes192Gcm => 24 | Aes256Ccm | Aes256Gcm => 32 end.

Class Crypto := {
  (** [decrypt_in_place_detached] of the cipher with a key of its length: [None]
      for a tag that does not match. *)
  aead_decrypt : AeadAlgorithm -> list Z -> list Z -> list Z -> list Z -> list Z -> option (list Z);
  hkdf_sha512_expand : list Z -> list Z -> Z -> option (list Z);
  hmac_sha512 : list Z -> list Z -> list Z;
  pbkdf2_hmac_sha1 : list Z -> list Z -> Z -> Z -> list Z;
  sha512 : list Z -> list Z;
}.

(** Lengths and ranges, as documented. *)
Class CryptoLaws `{Crypto} := {
  aead_decrypt_len : forall a k n aad buffer tag out,
    aead_decrypt a k n aad buffer tag = Some out -> len out = len buffer /\ bytes_ok out;
  hkdf_len : forall ikm info n out,
    hkdf_sha512_expand ikm info n = Some out -> len out = n /\ bytes_ok out;
  hmac_len : forall k d, len (hmac_sha512 k d) = 64 /\ bytes_ok (hmac_sha512 k d);
  pbkdf2_len : forall p s i n, 0 <= n ->
    len (pbkdf2_hmac_sha1 p s i n) = n /\ bytes_ok (pbkdf2_hmac_sha1 p s i n);
  sha512_len : forall d, len (sha512 d) = 64 /\ bytes_ok (sha512 d);
}.

(** A sealing function that the opening one inverts. *)
Class AeadSeal `{Crypto} := {
  aead_encrypt : AeadAlgorithm -> list Z -> list Z -> list Z -> list Z -> list Z * list Z;
  aead_open_seal : forall a k n aad plain c tag,
    len k = aead_key_len a -> bytes_ok plain -> aead_encrypt a k n aad plain = (c, tag) -> aead_decrypt a k n aad c tag = Some plain;
}.

(** ** Constants and data (lines 21-48) *)

Definition KEYFORMAT_RAW : Z := 1.
Definition KEYFORMAT_HEX : Z := 2.
Definition KEYFORMAT_PASSPHRASE : Z := 3.
Definition MAX_PBKDF2_ITERATIONS : Z := 10000000.

Record EncryptionParams := {
  suite : Z; guid : Z; version : Z; key_format : Z; pbkdf2_iterations : Z; pbkdf2_salt : Z;
  wrapped_master_key : list Z; wrapped_hmac_key : list Z;
  wrapping_iv : list Z; wrapping_mac : list Z;
}.

Record DatasetKey := {
  key_suite : Z; crypto_version : Z; master_key : list Z; hmac_key : list Z;
}.

(** ** Lookups (lines 838-885) *)

Definition uint64 (values : NvMap) (name : string) : result Z :=
  match nv_get (bytes_of_string name) values with
  | Some (Uint64 value) => Ok value
  | _ => Err (Msg ("raw stream crypt_keydata has no uint64 " +:+ name) [])
  end.

Definition bytes (values : NvMap) (name : string) : result (list Z) :=
  match nv_get (bytes_of_string name) values with
  | Some (Bytes_ value) => Ok value
  | _ => Err (Msg ("raw stream crypt_keydata has no byte array " +:+ name) [])
  end.

Definition array (n : Z) (b : list Z) (name : string) : result (list Z) :=
  ok_or (array_try_from n b) (Msg ("raw stream " +:+ name +:+ " has length {}, expected {}") [len b; n]).

(** A ZAP: entry names and their bytes, each name once. *)
Abbreviation ZapMap := (gmap (list Z) (list Z)).

Definition pool_optional_u64 (values : ZapMap) (name : string) : result (option Z) :=
  match values !! bytes_of_string name with
  | None => Ok None
  | Some value =>
      let! b := ok_or (array_try_from 8 value)
        (Msg ("DSL crypto-key ZAP " +:+ name +:+ " entry is not a uint64") []) in
      Ok (Some (le_val b))
  end.

Definition pool_u64 (values : ZapMap) (name : string) : result Z :=
  let! v := pool_optional_u64 values name in
  ok_or v (Msg ("DSL crypto-key ZAP has no " +:+ name +:+ " entry") []).

Definition pool_bytes (values : ZapMap) (name : string) (length : Z) : result (list Z) :=
  let! value := ok_or (values !! bytes_of_string name)
    (Msg ("DSL crypto-key ZAP has no " +:+ name +:+ " entry") []) in
  fail! negb (len value =? length)
    with Msg ("DSL crypto-key ZAP " +:+ name +:+ " entry is {} bytes, expected {}") [len value; length] in
  Ok value.

Definition suite_key_len (suite : Z) : result Z :=
  if (suite =? 3) || (suite =? 6) then Ok 16
  else if (suite =? 4) || (suite =? 7) then Ok 24
  else if (suite =? 5) || (suite =? 8) then Ok 32
  else Err (Msg "unsupported ZFS encryption suite value {value}" [suite]).

(** ** Parameters (lines 113-169) *)

Definition from_begin_payload (payload : list Z) : result EncryptionParams :=
  let! values := NvDecoder_decode payload in
  match nv_get (bytes_of_string "crypt_keydata") values with
  | Some (List_ crypto) =>
      let! iv := bytes crypto "DSL_CRYPTO_IV" in
      let! wrapping_iv := array 12 iv "DSL_CRYPTO_IV" in
      let! mac := bytes crypto "DSL_CRYPTO_MAC" in
      let! wrapping_mac := array 16 mac "DSL_CRYPTO_MAC" in
      let! suite := uint64 crypto "DSL_CRYPTO_SUITE" in
      let! guid := uint64 crypto "DSL_CRYPTO_GUID" in
      let! version := uint64 crypto "DSL_CRYPTO_VERSION" in
      let! key_format := uint64 crypto "keyformat" in
      let! iterations := uint64 crypto "pbkdf2iters" in
      let! salt := uint64 crypto "pbkdf2salt" in
      let! master := bytes crypto "DSL_CRYPTO_MASTER_KEY_1" in
      let! hmac := bytes crypto "DSL_CRYPTO_HMAC_KEY_1" in
      Ok {| suite := suite; guid := guid; version := version; key_format := key_format;
            pbkdf2_iterations := iterations; pbkdf2_salt := salt;
            wrapped_master_key := master; wrapped_hmac_key := hmac;
            wrapping_iv := wrapping_iv; wrapping_mac := wrapping_mac |}
  | _ => Err (Msg "raw stream BEGIN record has no crypt_keydata nvlist" [])
  end.

Definition key_format_name (p : EncryptionParams) : result string :=
  if key_format p =? KEYFORMAT_RAW then Ok "raw"%string
  else if key_format p =? KEYFORMAT_HEX then Ok "hex"%string
  else if key_format p =? KEYFORMAT_PASSPHRASE then Ok "passphrase"%string
  else Err (Msg "unsupported ZFS keyformat value {value}" [key_format p]).

Definition from_pool_zap (values : ZapMap) : result EncryptionParams :=
  let! suite := pool_u64 values "DSL_CRYPTO_SUITE" in
  let! key_len := suite_key_len suite in
  let! wrapped_master_key := pool_bytes values "DSL_CRYPTO_MASTER_KEY_1" 32 in
  let! guid := pool_u64 values "DSL_CRYPTO_GUID" in
  let! version := pool_optional_u64 values "DSL_CRYPTO_VERSION" in
  let! key_format := pool_u64 values "keyformat" in
  let! iterations := pool_u64 values "pbkdf2iters" in
  let! salt := pool_u64 values "pbkdf2salt" in
  let! master := slice wrapped_master_key 0 key_len in
  let! hmac := pool_bytes values "DSL_CRYPTO_HMAC_KEY_1" 64 in
  let! iv := pool_bytes values "DSL_CRYPTO_IV" 12 in
  let! wrapping_iv := array 12 iv "DSL_CRYPTO_IV" in
  let! mac := pool_bytes values "DSL_CRYPTO_MAC" 16 in
  let! wrapping_mac := array 16 mac "DSL_CRYPTO_MAC" in
  Ok {| suite := suite; guid := guid; version := default 0 version; key_format := key_format;
        pbkdf2_iterations := iterations; pbkdf2_salt := salt;
        wrapped_master_key := master; wrapped_hmac_key := hmac;
        wrapping_iv := wrapping_iv; wrapping_mac := wrapping_mac |}.

(** ** Hexadecimal keys and key files (lines 795-836) *)

(** [char::to_digit] *)
Definition to_digit (radix c : Z) : option Z :=
  let d := if (48 <=? c) && (c <=? 57) then c - 48
           else if (97 <=? c) && (c <=? 122) then c - 87
           else if (65 <=? c) && (c <=? 90) then c - 55
           else radix in
  if d <? radix then Some d else None.

Fixpoint digits_value (radix max acc : Z) (l : list Z) : option Z :=
  match l with
  | [] => Some acc
  | c :: l =>
      match to_digit radix c with
      | None => None
      | Some d => let v := acc * radix + d in if v <=? max then digits_value radix max v l else None
      end
  end.

(** [uN::from_str_radix]: a leading plus sign is part of the syntax. *)
Definition from_str_radix (radix max : Z) (s : list Z) : option Z :=
  match s with
  | [] => None
  | [43] => None
  | 43 :: digits => digits_value radix max 0 digits
  | _ => digits_value radix max 0 s
  end.

(** The loop over [chunks_exact(2)], writing [output[index]]. *)
Fixpoint decode_hex_pairs (index : Z) (material output : list Z) : result (list Z) :=
  match material with
  | a :: b :: material =>
      let! text := ok_or (from_utf8 [a; b]) (Msg "hex ZFS key is not UTF-8" []) in
      let! v := ok_or (from_str_radix 16 U8_MAX text)
        (Msg "invalid hexadecimal byte at key position {}" [index * 2]) in
      let! output := set_index output index v in
      decode_hex_pairs (index + 1) material output
  | _ => Ok output
  end.

Definition decode_hex_key (material output : list Z) : result (list Z) :=
  fail! negb (len material =? 64)
    with Msg "hex ZFS key must contain exactly 64 hexadecimal characters" [] in
  decode_hex_pairs 0 material output.

(** [material.pop()] behind a test of the last byte. *)
Definition pop_byte (b : Z) (material : list Z) : list Z :=
  if bool_decide (last material = Some b) then ztake (len material - 1) material else material.

Definition strip_newline (material : list Z) : list Z :=
  if bool_decide (last material = Some 10) then pop_byte 13 (pop_byte 10 material) else material.

Definition normalize_key_file_material (key_format : list Z) (material : list Z)
  : result (list Z) :=
  if negb (bytes_eqb key_format (bytes_of_string "raw")) then Ok (strip_newline material)
  else
    let material :=
      if (len material =? 65) || (len material =? 66) then strip_newline material else material in
    if len material =? 64 then decode_hex_key material (zrepeat 32 0) else Ok material.

(** ** Unlocking and block operations (lines 171-288, 752-784) *)

Section keys.
Context `{Crypto}.

(** [new_from_slice(key)], which refuses a key that is not of the cipher's length. *)
Definition new_from_slice (a : AeadAlgorithm) (key : list Z) : option (list Z) :=
  if len key =? aead_key_len a then Some key else None.

Definition aead_open (a : AeadAlgorithm) (key iv aad buffer mac : list Z) : option (list Z) :=
  match new_from_slice a key with Some key => aead_decrypt a key iv aad buffer mac | None => None end.

Definition decrypt_aead (suite : Z) (key iv aad buffer mac : list Z) : option (list Z) :=
  if suite =? 3 then aead_open Aes128Ccm key iv aad buffer mac
  else if suite =? 4 then aead_open Aes192Ccm key iv aad buffer mac
  else if suite =? 5 then aead_open Aes256Ccm key iv aad buffer mac
  else if suite =? 6 then aead_open Aes128Gcm key iv aad buffer mac
  else if suite =? 7 then aead_open Aes192Gcm key iv aad buffer mac
  else if suite =? 8 then aead_open Aes256Gcm key iv aad buffer mac
  else None.

(** The wrapping key that the user's material stands for. *)
Definition wrapping_key (p : EncryptionParams) (material : list Z) : result (list Z) :=
  if key_format p =? KEYFORMAT_RAW then
    fail! negb (len material =? 32) with Msg "raw ZFS key must be exactly 32 bytes" [] in
    Ok material
  else if key_format p =? KEYFORMAT_HEX then decode_hex_key material (zrepeat 32 0)
  else if key_format p =? KEYFORMAT_PASSPHRASE then
    fail! negb ((8 <=? len material) && (len material <=? 512))
      with Msg "ZFS passphrase must contain between 8 and 512 bytes" [] in
    fail! MAX_PBKDF2_ITERATIONS <? pbkdf2_iterations p
      with Msg "PBKDF2 iteration count {} exceeds the safety limit" [pbkdf2_iterations p] in
    fail! U32_MAX <? pbkdf2_iterations p with Msg "PBKDF2 iteration count is too large" [] in
    let iterations := pbkdf2_iterations p in
    fail! iterations =? 0
      with Msg "raw stream has an invalid zero PBKDF2 iteration count" [] in
    fail! existsb (Z.eqb 0) material
      with Msg "passphrase contains a NUL byte, which OpenZFS does not support" [] in
    Ok (pbkdf2_hmac_sha1 material (le_bytes 8 (pbkdf2_salt p)) iterations 32)
  else Err (Msg "unsupported ZFS keyformat value {value}" [key_format p]).

Definition unlock (p : EncryptionParams) (material : list Z) : result DatasetKey :=
  let! wrapping_key := wrapping_key p material in
  let! key_len := suite_key_len (suite p) in
  fail! negb (len (wrapped_master_key p) =? key_len) || negb (len (wrapped_hmac_key p) =? 64)
    with Msg "raw stream contains malformed wrapped key material" [] in
  let ciphertext := wrapped_master_key p ++ wrapped_hmac_key p in
  let! aad :=
    if version p =? 0 then Ok (le_bytes 8 (guid p))
    else if version p =? 1 then
      Ok (le_bytes 8 (guid p) ++ le_bytes 8 (suite p) ++ le_bytes 8 (version p))
    else Err (Msg "unsupported ZFS encryption key version {}" [version p]) in
  let! plain := ok_or
    (decrypt_aead (suite p) wrapping_key (wrapping_iv p) aad ciphertext (wrapping_mac p))
    (Msg "the supplied key did not authenticate the encrypted ZFS dataset" []) in
  let! tail := slice_from plain key_len in
  let! hmac_key := copy_from_slice (zrepeat 64 0) tail in
  let! master_key := slice plain 0 key_len in
  Ok {| key_suite := suite p; crypto_version := version p;
        master_key := master_key; hmac_key := hmac_key |}.

Definition decrypt_block (key : DatasetKey) (salt iv mac aad ciphertext : list Z)
  : result (list Z) :=
  let! block_key := ok_or (hkdf_sha512_expand (master_key key) salt (len (master_key key)))
    (Msg "could not derive an encrypted ZFS block key" []) in
  ok_or (decrypt_aead (key_suite key) block_key iv aad ciphertext mac)
    (Msg "encrypted ZFS block failed authentication" []).

Definition authenticate_bytes (key : DatasetKey) (data expected : list Z) : result unit :=
  fail! (len expected =? 0) || (64 <? len expected)
    with Msg "invalid authenticated ZFS digest length {}" [len expected] in
  let! digest := slice (hmac_sha512 (hmac_key key) data) 0 (len expected) in
  fail! negb (bytes_eqb digest expected)
    with Msg "authenticated ZFS block failed HMAC verification" [] in
  Ok tt.

Definition authenticate_block (key : DatasetKey) (data expected : list Z) : result unit :=
  authenticate_bytes key data expected.
End keys.

(** [decompress_block] of this file (lines 745-750): zero on the wire means
    uncompressed, which is 2 on disk. *)
Definition raw_decompress_block `{Codecs} (compression : Z) (payload : list Z) (logical_size : Z)
  : result (list Z) :=
  let compression := if compression =? 0 then 2 else compression in
  decompress_block compression payload logical_size.
