(* ===== verification/EncryptedDnode.v ===== *)
(** Dnode metadata under encryption, src/src/encrypted.rs: the portable fields
    that AES-GCM/CCM authenticate, the checksum tree of a raw object's block
    pointers, and the decryption of bonus regions in a pool's dnode block and in
    a raw OBJECT_RANGE. *)

From S2P Require Import Prelude Bytes Stream Encrypted.

(** ** Data (lines 50-103) *)

Record RawBlockPointer := {
  bp_block_id : Z; bp_object_type : Z; bp_logical_size : Z; bp_physical_size : Z;
  bp_compression : Z; bp_flags : Z; bp_mac : list Z;
}.

Record RawDnode := {
  dn_object : Z; dn_object_type : Z; dn_bonus_type : Z; dn_block_size : Z;
  dn_bonus_length : Z; dn_checksum_type : Z; dn_compression : Z; dn_slots : Z;
  dn_flags : Z; dn_indirect_block_shift : Z; dn_levels : Z; dn_block_pointers : Z;
  dn_max_block_id : Z; dn_bonus_ciphertext : list Z; dn_blocks : list RawBlockPointer;
  dn_spill : option RawBlockPointer;
}.

Record RawSidecarState := {
  ss_crypto_guid : Z; ss_crypto_version : Z; ss_first_object : Z; ss_object_slots : Z;
  ss_dnodes : list RawDnode; ss_target_spill : option (list Z);
}.

Record RawDnodeRange := {
  rg_first_object : Z; rg_object_slots : Z; rg_salt : list Z; rg_iv : list Z;
  rg_mac : list Z; rg_flags : Z; rg_crypto_version : Z;
}.

(** [x & bit != 0] *)
Definition has_bits (x mask : Z) : bool := negb (Z.land x mask =? 0).

Definition is_encrypted_object_type (object_type : Z) : bool :=
  if has_bits object_type 0x80 then has_bits object_type 0x20
  else bool_decide (object_type ∈
    [9; 10; 18; 19; 20; 22; 23; 25; 26; 33; 34; 35; 39; 40; 44; 45; 46; 47; 49]).

(** ** Block-pointer authentication (lines 494-556) *)

Record BlockPointerAuth := { prop : Z; mac : list Z }.

Definition HOLE : BlockPointerAuth := {| prop := 0; mac := zrepeat 16 0 |}.

Definition encode (p : BlockPointerAuth) (crypto_version : Z) : result (list Z) :=
  let! bytes := copy_into (zrepeat 32 0) 0 (le_bytes 8 (prop p)) in
  let! dst := slice bytes 8 24 in
  let! src := copy_from_slice dst (mac p) in
  let! bytes := copy_into bytes 8 src in
  let! length :=
    if crypto_version =? 0 then Ok 24
    else if crypto_version =? 1 then Ok 32
    else Err (Msg "unsupported ZFS encryption key version {value}" [crypto_version]) in
  slice bytes 0 length.

(** [x & !mask] on u64 *)
Definition clear (x mask : Z) : Z := Z.ldiff x mask.

Definition mask (width shift : Z) : Z := Z.shiftl (Z.ones width) shift.

(** The portable part of [blk_prop]. *)
Definition portable_prop (prop crypto_version : Z) (hole : bool) : Z :=
  if crypto_version =? 0 then
    clear (clear (clear prop (mask 1 62)) (mask 8 40)) (mask 16 16)
  else if hole then 0
  else
    let prop :=
      if negb (Z.land (Z.shiftr prop 56) 0x1f =? 0)
      then clear (clear (clear prop (mask 1 63)) (mask 7 32)) (mask 16 16) else prop in
    clear (clear prop (mask 1 62)) (mask 8 40).

Definition pool_block_pointer_auth (raw : list Z) (crypto_version : Z) : result (list Z) :=
  fail! negb (len raw =? 128)
    with Msg "encrypted dnode contains a truncated block pointer" [] in
  fail! negb ((crypto_version =? 0) || (crypto_version =? 1))
    with Msg "unsupported ZFS encryption key version {crypto_version}" [crypto_version] in
  let! prop := le_u64 raw 48 in
  let! dva := slice raw 0 16 in
  let hole := all_zero dva && (Z.land prop (mask 1 39) =? 0) in
  let portable := portable_prop prop crypto_version hole in
  let object_type := Z.land (Z.shiftr prop 48) 0xff in
  let! checksum := slice raw 112 128 in
  Ok (le_bytes 8 portable ++
      (if (object_type =? 11) || hole then zrepeat 16 0 else checksum) ++
      (if crypto_version =? 1 then zrepeat 8 0 else [])).

(** ** Block-pointer properties (lines 688-743) *)

Definition size_field (size : Z) : result Z :=
  fail! (size <? 512) || negb (size mod 512 =? 0) || (65536 <? size / 512)
    with Msg "raw block has invalid ZFS block size {size}" [size] in
  Ok (size / 512 - 1).

(** [u8::try_from] *)
Definition u8_try_from (x : Z) : option Z := if x <=? U8_MAX then Some x else None.
Definition u16_try_from (x : Z) : option Z := if x <=? U16_MAX then Some x else None.

Definition block_prop (logical_size physical_size compression object_type level byteorder : Z)
  : result Z :=
  fail! (0x7f <? compression) || (0x1f <? level) || (1 <? byteorder)
    with Msg "raw block has invalid block-pointer properties" [] in
  let! lsize := size_field logical_size in
  let! psize := size_field physical_size in
  let! object_type := ok_or (u8_try_from object_type) (Msg "block object type exceeds 255" []) in
  Ok (Z.lor (Z.lor (Z.lor (Z.lor (Z.lor (Z.lor
        lsize (Z.shiftl psize 16)) (Z.shiftl compression 32)) (Z.shiftl object_type 48))
        (Z.shiftl level 56)) (Z.shiftl 1 61)) (Z.shiftl byteorder 63)).

Definition leaf_prop (block : RawBlockPointer) (crypto_version : Z) : result Z :=
  block_prop (bp_logical_size block)
    (if crypto_version =? 0 then 512 else bp_physical_size block)
    (bp_compression block) (bp_object_type block) 0 1.

Definition indirect_prop (dnode : RawDnode) (level : Z) : result Z :=
  block_prop (Z.shiftl 1 (dn_indirect_block_shift dnode)) 512 0 (dn_object_type dnode) level 0.

(** ** The root block pointers of a raw object (lines 613-686) *)

(** [slice.chunks(n)] *)
Fixpoint chunks_fuel {A} (fuel : nat) (n : Z) (l : list A) : list (list A) :=
  match fuel, l with
  | S fuel, _ :: _ => ztake n l :: chunks_fuel fuel n (zdrop n l)
  | _, _ => []
  end.
Definition chunks {A} (n : Z) (l : list A) : list (list A) := chunks_fuel (length l) n l.

Definition is_hole (p : BlockPointerAuth) : bool :=
  (prop p =? 0) && bytes_eqb (mac p) (zrepeat 16 0).

Section roots.
Context `{Crypto}.

Definition leaf_level (dnode : RawDnode) (crypto_version : Z) (leaf_count : Z)
  : result (list BlockPointerAuth) :=
  fold_res (fun level block =>
      let! block_id := ok_or (usize_try_from (bp_block_id block)) (Msg "block ID is too large" []) in
      fail! len level <=? block_id
        with Msg "object {} WRITE is past its max block ID" [dn_object dnode] in
      let! slot := index level block_id in
      fail! negb (prop slot =? 0)
        with Msg "object {} has duplicate raw WRITE blocks" [dn_object dnode] in
      let! p := leaf_prop block crypto_version in
      set_index level block_id {| prop := p; mac := bp_mac block |})
    (zrepeat leaf_count HOLE) (dn_blocks dnode).

(** The parent of one chunk of children. *)
Definition parent_pointer (dnode : RawDnode) (crypto_version epb tree_level : Z)
    (children : list BlockPointerAuth) : result BlockPointerAuth :=
  if forallb is_hole children then Ok HOLE
  else
    let! encoded := map_res (fun child => encode child crypto_version) children in
    let! holes := map_res (fun _ => encode HOLE crypto_version)
      (seqZ (len children) (epb - len children)) in
    let digest := sha512 (concat encoded ++ concat holes) in
    let! mac := slice digest 0 16 in
    let! p := indirect_prop dnode tree_level in
    Ok {| prop := p; mac := mac |}.

Definition parent_level (dnode : RawDnode) (crypto_version epb : Z)
    (level : list BlockPointerAuth) (tree_level : Z) : result (list BlockPointerAuth) :=
  map_res (parent_pointer dnode crypto_version epb tree_level) (chunks epb level).

Definition root_block_pointers (dnode : RawDnode) (crypto_version : Z)
  : result (list BlockPointerAuth) :=
  fail! (dn_indirect_block_shift dnode <? 9) || (24 <? dn_indirect_block_shift dnode)
    with Msg "object {} has an unsupported indirect block shift" [dn_object dnode] in
  let epb := Z.shiftl 1 (dn_indirect_block_shift dnode - 7) in
  let! max_block_id := ok_or (usize_try_from (dn_max_block_id dnode))
    (Msg "object max block ID is too large" []) in
  let! leaf_count := ok_or (checked_add max_block_id 1) (Msg "object block count overflow" []) in
  fail! 4 * 1024 * 1024 <? leaf_count
    with Msg "object {} has too many blocks for the current raw-send safety limit" [dn_object dnode] in
  let! level := leaf_level dnode crypto_version leaf_count in
  let! level := fold_res (parent_level dnode crypto_version epb) level
    (seqZ 1 (dn_levels dnode - 1)) in
  let pointer_count := dn_block_pointers dnode in
  fail! pointer_count <? len level
    with Msg "object {} needs {} root block pointers but its dnode has {pointer_count}"
      [dn_object dnode; len level; pointer_count] in
  Ok (resize level pointer_count HOLE).
End roots.

(** ** The dnode core (lines 558-611) *)

Definition dnode_max_bonus (dnode : RawDnode) : result Z :=
  let dnode_size := dn_slots dnode * 512 in
  let pointers := dn_block_pointers dnode * 128 in
  let spill := if has_bits (dn_flags dnode) 0x04 then 128 else 0 in
  ok_or (checked_sub dnode_size (64 + pointers + spill))
    (Msg "object {} has an impossible bonus layout" [dn_object dnode]).

Definition validate_dnode (range : RawDnodeRange) (dnode : RawDnode) (range_end : Z)
  : result unit :=
  fail! (dn_object dnode <? rg_first_object range)
        || negb (bool_decide (is_Some (checked_add (dn_object dnode) (dn_slots dnode))))
        || (range_end <? dn_object dnode + dn_slots dnode)
    with Msg "object {} falls outside its raw OBJECT_RANGE" [dn_object dnode] in
  fail! (dn_slots dnode =? 0) || (dn_block_pointers dnode =? 0) || (dn_levels dnode =? 0)
    with Msg "object {} has an invalid raw dnode layout" [dn_object dnode] in
  fail! negb (Z.ldiff (dn_flags dnode) 0x06 =? 0)
    with Msg "object {} has unsupported raw dnode flags" [dn_object dnode] in
  fail! has_bits (dn_flags dnode) 0x02 || existsb (fun block => has_bits (bp_flags block) 0x02) (dn_blocks dnode)
    with Msg "byteswapped raw encrypted objects are unsupported" [] in
  let! max_bonus := dnode_max_bonus dnode in
  fail! max_bonus <? default U64_MAX (usize_try_from (dn_bonus_length dnode))
    with Msg "object {} has a bonus that exceeds its dnode" [dn_object dnode] in
  Ok tt.

Definition dnode_core (dnode : RawDnode) : result (list Z) :=
  let! object_type := ok_or (u8_try_from (dn_object_type dnode))
    (Msg "dnode object type exceeds 255" []) in
  let! bonus_type := ok_or (u8_try_from (dn_bonus_type dnode))
    (Msg "dnode bonus type exceeds 255" []) in
  let sectors := dn_block_size dnode / 512 in
  fail! (sectors =? 0) || negb (dn_block_size dnode mod 512 =? 0) || (U16_MAX <? sectors)
    with Msg "object {} has an invalid dnode block size" [dn_object dnode] in
  let! bonus_length := ok_or (u16_try_from (dn_bonus_length dnode))
    (Msg "dnode bonus is too large" []) in
  let! slots := sub (dn_slots dnode) 1 in
  let core := zrepeat 64 0 in
  let! core := set_index core 0 object_type in
  let! core := set_index core 1 (dn_indirect_block_shift dnode) in
  let! core := set_index core 2 (dn_levels dnode) in
  let! core := set_index core 3 (dn_block_pointers dnode) in
  let! core := set_index core 4 bonus_type in
  let! core := set_index core 5 (dn_checksum_type dnode) in
  let! core := set_index core 6 (dn_compression dnode) in
  let! core := set_index core 7 (Z.land (dn_flags dnode) 0x04) in
  let! core := copy_into core 8 (le_bytes 2 sectors) in
  let! core := copy_into core 10 (le_bytes 2 bonus_length) in
  let! core := set_index core 12 slots in
  copy_into core 16 (le_bytes 8 (dn_max_block_id dnode)).

(** ** Pool dnode blocks (lines 290-383) *)

(** The locals of the walk over the block: additional data, ciphertext, bonus
    regions and the offset of the next dnode. *)
Record pool_walk := {
  pw_aad : list Z; pw_ciphertext : list Z; pw_regions : list (Z * Z); pw_offset : Z;
}.

(** Where one dnode's parts lie. *)
Record dnode_layout := {
  ly_core : list Z; ly_end : Z; ly_pointers : Z; ly_has_spill : bool;
  ly_bonus_start : Z; ly_bonus_end : Z;
}.

Definition pool_dnode_layout (block : list Z) (offset : Z) : result dnode_layout :=
  let! core := ok_or (get_range block offset (offset + 64))
    (Msg "encrypted dnode block has a truncated core" []) in
  let! extra := index core 12 in
  let slots := extra + 1 in
  let! dnode_size := ok_or (checked_mul slots 512) (Msg "encrypted dnode slot count overflows" []) in
  let! end_ := ok_or (match checked_add offset dnode_size with
                      | Some end_ => if end_ <=? len block then Some end_ else None
                      | None => None end)
    (Msg "encrypted dnode extends past its block" []) in
  let! pointers := index core 3 in
  let! pointer_bytes := ok_or (checked_mul pointers 128)
    (Msg "encrypted dnode pointer count overflows" []) in
  let! bonus_start := ok_or (checked_add offset (64 + pointer_bytes))
    (Msg "encrypted dnode bonus offset overflows" []) in
  let! flags := index core 7 in
  let has_spill := has_bits flags 0x04 in
  let! bonus_end := ok_or (checked_sub end_ (if has_spill then 128 else 0))
    (Msg "encrypted dnode has an invalid spill pointer" []) in
  fail! bonus_end <? bonus_start
    with Msg "encrypted dnode has an impossible pointer/bonus layout" [] in
  Ok {| ly_core := core; ly_end := end_; ly_pointers := pointers; ly_has_spill := has_spill;
        ly_bonus_start := bonus_start; ly_bonus_end := bonus_end |}.

(** The core with the flags masked and the used-bytes field cleared. *)
Definition portable_core (core : list Z) : result (list Z) :=
  let! flags := index core 7 in
  let! core := set_index core 7 (Z.land flags 0x04) in
  fill core 24 32 0.

Section pool.
Context `{Crypto}.

Definition pool_dnode_step (key : DatasetKey) (block : list Z) (w : pool_walk) : result pool_walk :=
  let offset := pw_offset w in
  let! ly := pool_dnode_layout block offset in
  let! core := portable_core (ly_core ly) in
  let! pointer_aad := map_res (fun index =>
      let start := offset + 64 + index * 128 in
      let! raw := slice block start (start + 128) in
      pool_block_pointer_auth raw (crypto_version key))
    (seqZ 0 (ly_pointers ly)) in
  let! spill_aad :=
    if ly_has_spill ly then
      let! start := sub (ly_end ly) 128 in
      let! raw := slice block start (ly_end ly) in
      pool_block_pointer_auth raw (crypto_version key)
    else Ok [] in
  let aad := pw_aad w ++ core ++ concat pointer_aad ++ spill_aad in
  let! bonus := slice block (ly_bonus_start ly) (ly_bonus_end ly) in
  let! bonus_len_bytes := slice (ly_core ly) 10 12 in
  let bonus_len := le_val bonus_len_bytes in
  let! object_type := index (ly_core ly) 0 in
  let! bonus_type := index (ly_core ly) 4 in
  if negb (object_type =? 0) && negb (bonus_len =? 0) && is_encrypted_object_type bonus_type
  then Ok {| pw_aad := aad; pw_ciphertext := pw_ciphertext w ++ bonus;
             pw_regions := pw_regions w ++ [(ly_bonus_start ly, len bonus)];
             pw_offset := ly_end ly |}
  else Ok {| pw_aad := aad ++ bonus; pw_ciphertext := pw_ciphertext w;
             pw_regions := pw_regions w; pw_offset := ly_end ly |}.

Fixpoint pool_dnode_loop (fuel : nat) (key : DatasetKey) (block : list Z) (w : pool_walk)
  : result pool_walk :=
  if pw_offset w <? len block then
    match fuel with
    | O => OutOfFuel
    | S fuel =>
        let! w := pool_dnode_step key block w in
        pool_dnode_loop fuel key block w
    end
  else Ok w.

(** Each dnode takes at least 512 bytes. *)
Definition pool_dnode_walk (key : DatasetKey) (block : list Z) : result pool_walk :=
  pool_dnode_loop (Z.to_nat (len block / 512)) key block
    {| pw_aad := []; pw_ciphertext := []; pw_regions := []; pw_offset := 0 |}.

(** The loop that copies the plaintext back, one region after the other. *)
Definition copy_region (plaintext : list Z) (st : list Z * Z) (region : Z * Z)
  : result (list Z * Z) :=
  let '(output, cursor) := st in
  let '(start, length) := region in
  let! end_ := add cursor length in
  let! dst := slice output start (start + length) in
  let! src := slice plaintext cursor end_ in
  let! src := copy_from_slice dst src in
  let! output := copy_into output start src in
  Ok (output, end_).

Definition decrypt_pool_dnode_block (key : DatasetKey) (salt iv mac block : list Z)
  : result (list Z) :=
  fail! negb (len block mod 512 =? 0)
    with Msg "encrypted dnode block length is not a multiple of 512 bytes" [] in
  let! w := pool_dnode_walk key block in
  if len (pw_ciphertext w) =? 0 then Ok block
  else
    let! plaintext := with_context "authenticating native-encrypted ZFS dnode metadata" []
      (decrypt_block key salt iv mac (pw_aad w) (pw_ciphertext w)) in
    let! (output, cursor) := fold_res (copy_region plaintext) (block, 0) (pw_regions w) in
    fail! negb (cursor =? len plaintext)
      with Msg "decrypted dnode bonus data has an inconsistent length" [] in
    Ok output.
End pool.

(** ** Raw OBJECT_RANGE records (lines 385-481) *)

Record raw_walk := {
  rw_aad : list Z; rw_ciphertext : list Z; rw_lengths : list (Z * Z);
  rw_visited : gset Z; rw_object : Z;
}.

(** [dnodes.iter().map(..).collect::<BTreeMap<_, _>>()]: of two entries with one
    key the later one stays. *)
Definition by_object (dnodes : list RawDnode) : gmap Z RawDnode :=
  foldl (fun m dnode => <[dn_object dnode := dnode]> m) ∅ dnodes.

Section raw.
Context `{Crypto}.

Definition raw_dnode_step (range : RawDnodeRange) (range_end : Z) (dnode : RawDnode) (w : raw_walk)
  : result raw_walk :=
  let visited := {[dn_object dnode]} ∪ rw_visited w in
  let! _ := validate_dnode range dnode range_end in
  let! core := dnode_core dnode in
  let! roots := root_block_pointers dnode (rg_crypto_version range) in
  let! root_aad := map_res (fun pointer => encode pointer (rg_crypto_version range)) roots in
  let! spill_aad :=
    if has_bits (dn_flags dnode) 0x04 then
      let! spill := ok_or (dn_spill dnode)
        (Msg "raw object {} is missing its spill block pointer" [dn_object dnode]) in
      let! p := leaf_prop spill (rg_crypto_version range) in
      encode {| prop := p; mac := bp_mac spill |} (rg_crypto_version range)
    else Ok [] in
  let aad := rw_aad w ++ core ++ concat root_aad ++ spill_aad in
  let! max_bonus := dnode_max_bonus dnode in
  let bonus := dn_bonus_ciphertext dnode in
  if is_encrypted_object_type (dn_bonus_type dnode) && negb (dn_bonus_length dnode =? 0) then
    fail! negb (len bonus =? max_bonus)
      with Msg "raw bonus for object {} is {} bytes, expected {max_bonus}"
        [dn_object dnode; len bonus; max_bonus] in
    Ok {| rw_aad := aad; rw_ciphertext := rw_ciphertext w ++ bonus;
          rw_lengths := rw_lengths w ++ [(dn_object dnode, max_bonus)];
          rw_visited := visited; rw_object := rw_object w + dn_slots dnode |}
  else
    fail! max_bonus <? len bonus
      with Msg "raw bonus for object {} exceeds its dnode" [dn_object dnode] in
    let aad := aad ++ bonus in
    Ok {| rw_aad := resize aad (len aad + max_bonus - len bonus) 0; rw_ciphertext := rw_ciphertext w;
          rw_lengths := rw_lengths w; rw_visited := visited;
          rw_object := rw_object w + dn_slots dnode |}.

Fixpoint raw_dnode_loop (fuel : nat) (range : RawDnodeRange) (range_end : Z)
    (dnodes : gmap Z RawDnode) (w : raw_walk) : result raw_walk :=
  if rw_object w <? range_end then
    match fuel with
    | O => OutOfFuel
    | S fuel =>
        let! w :=
          match dnodes !! rw_object w with
          | None =>
              Ok {| rw_aad := resize (rw_aad w) (len (rw_aad w) + 512) 0;
                    rw_ciphertext := rw_ciphertext w; rw_lengths := rw_lengths w;
                    rw_visited := rw_visited w; rw_object := rw_object w + 1 |}
          | Some dnode => raw_dnode_step range range_end dnode w
          end in
        raw_dnode_loop fuel range range_end dnodes w
    end
  else Ok w.

(** The loop that cuts the plaintext into bonuses. *)
Definition cut_bonus (plaintext : list Z) (st : gmap Z (list Z) * Z) (entry : Z * Z)
  : result (gmap Z (list Z) * Z) :=
  let '(bonuses, cursor) := st in
  let '(object, length) := entry in
  let! end_ := add cursor length in
  let! bonus := slice plaintext cursor end_ in
  Ok (<[object := bonus]> bonuses, end_).

(** The range holds 32 slots, so 32 rounds are enough. *)
Definition decrypt_dnode_bonuses (key : DatasetKey) (range : RawDnodeRange)
    (dnodes : list RawDnode) : result (gmap Z (list Z)) :=
  fail! has_bits (rg_flags range) 0x02
    with Msg "byteswapped raw dnode blocks are unsupported" [] in
  fail! negb (rg_object_slots range =? 32)
    with Msg "raw OBJECT_RANGE has {} slots; OpenZFS dnode blocks require 32" [rg_object_slots range] in
  let! range_end := ok_or (checked_add (rg_first_object range) (rg_object_slots range))
    (Msg "raw OBJECT_RANGE overflows its object IDs" []) in
  let m := by_object dnodes in
  fail! negb (Z.of_nat (size m) =? len dnodes)
    with Msg "raw OBJECT_RANGE contains duplicate OBJECT records" [] in
  let! w := raw_dnode_loop 32 range range_end m
    {| rw_aad := []; rw_ciphertext := []; rw_lengths := []; rw_visited := ∅;
       rw_object := rg_first_object range |} in
  fail! negb (Z.of_nat (size (rw_visited w)) =? len dnodes)
    with Msg "raw OBJECT records overlap or fall outside their OBJECT_RANGE" [] in
  let! plaintext := with_context "authenticating raw ZFS dnode metadata" []
    (decrypt_block key (rg_salt range) (rg_iv range) (rg_mac range) (rw_aad w) (rw_ciphertext w)) in
  let! (bonuses, cursor) := fold_res (cut_bonus plaintext) (∅, 0) (rw_lengths w) in
  fail! negb (cursor =? len plaintext)
    with Msg "decrypted dnode bonus data has an inconsistent length" [] in
  Ok bonuses.
End raw.
