(* ===== verification/EncryptedFacts.v ===== *)
(** Lemmas on keys and dnode metadata: results lie within their Rust types and
    nothing panics; block-pointer words as sums of their fields; equations for
    the encoders; the widths of the parameters read from a BEGIN payload and the
    lengths of an unlocked key. *)

From S2P Require Import Prelude Bytes Utf8 Stream StreamFacts Compression NvList NvWriter Encrypted EncryptedDnode.

(** ** Bit fields as arithmetic *)

Lemma lor_shift_add a b n : 0 <= n -> 0 <= a < 2 ^ n -> Z.lor a (Z.shiftl b n) = a + b * 2 ^ n.
Proof.
  intros Hn Ha. rewrite <- Z.shiftl_mul_pow2 by done.
  rewrite Z.add_nocarry_lxor, Z.lxor_lor; try done.
  all: apply Z.bits_inj'; intros i Hi; rewrite Z.land_spec, Z.bits_0.
  all: destruct (Z.lt_ge_cases i n).
  all: try (rewrite (Z.shiftl_spec_low _ _ i) by lia; apply andb_false_r).
  all: rewrite <- (Z.mod_small a (2 ^ n)), Z.mod_pow2_bits_high by lia; done.
Qed.

Lemma land_mask x w s :
  0 <= w -> 0 <= s -> Z.land x (mask w s) = ((x / 2 ^ s) mod 2 ^ w) * 2 ^ s.
Proof.
  intros Hw Hs. unfold mask.
  rewrite <- Z.land_ones, <- Z.shiftr_div_pow2, <- Z.shiftl_mul_pow2 by done.
  apply Z.bits_inj'. intros i Hi. rewrite Z.land_spec, !Z.shiftl_spec, Z.land_spec by done.
  destruct (Z.lt_ge_cases i s).
  - rewrite !(Z.testbit_neg_r _ (i - s)) by lia. by rewrite andb_false_r.
  - rewrite Z.shiftr_spec by lia. by replace (i - s + s) with i by lia.
Qed.

Lemma clear_mask x w s :
  0 <= w -> 0 <= s -> clear x (mask w s) = x - ((x / 2 ^ s) mod 2 ^ w) * 2 ^ s.
Proof.
  intros Hw Hs. rewrite <- land_mask by done. unfold clear.
  rewrite Z.sub_nocarry_ldiff.
  - apply Z.bits_inj'. intros i Hi. rewrite !Z.ldiff_spec, Z.land_spec.
    destruct (Z.testbit x i); [|done]. by rewrite andb_true_l.
  - apply Z.bits_inj'. intros i Hi. rewrite Z.ldiff_spec, Z.land_spec, Z.bits_0.
    destruct (Z.testbit x i); [by rewrite andb_false_r|done].
Qed.

(** ** Block pointers *)

Definition bp_ok (b : RawBlockPointer) : Prop :=
  is_u64 (bp_block_id b) /\ is_u32 (bp_object_type b) /\ is_u64 (bp_logical_size b) /\
  is_u64 (bp_physical_size b) /\ is_byte (bp_compression b) /\ is_byte (bp_flags b) /\
  fixed 16 (bp_mac b).

Definition auth_ok (p : BlockPointerAuth) : Prop := is_u64 (prop p) /\ fixed 16 (mac p).

Lemma auth_ok_HOLE : auth_ok HOLE.
Proof. split; [unfold is_u64; cbn; lia|]. split; [done|]. apply Forall_zrepeat. unfold is_byte. lia. Qed.
#[export] Hint Resolve auth_ok_HOLE : zse.

Lemma size_field_Ok size f :
  size_field size = Ok f <-> size = 512 * (f + 1) /\ 0 <= f <= U16_MAX.
Proof.
  unfold size_field. split.
  - intros H. inv_ok. b2p. subst f. pose proof (Z.div_mod size 512). lia.
  - intros [-> Hf]. assert (512 * (f + 1) mod 512 = 0) as Hm by (rewrite Z.mul_comm; apply Z.mod_mul; lia).
    assert (512 * (f + 1) / 512 = f + 1) as Hd by (rewrite Z.mul_comm; apply Z.div_mul; lia).
    rewrite Hm, Hd. destruct (Z.ltb_spec (512 * (f + 1)) 512); [lia|].
    destruct (Z.ltb_spec 65536 (f + 1)); [lia|]. cbn [orb negb Z.eqb]. f_equal. lia.
Qed.

(** The fields of a property word. *)
Definition prop_word (lsize psize compression object_type level byteorder : Z) : Z :=
  lsize + psize * 2 ^ 16 + compression * 2 ^ 32 + object_type * 2 ^ 48 + level * 2 ^ 56 +
  2 ^ 61 + byteorder * 2 ^ 63.

Lemma block_prop_Ok ls ps c t l b w :
  0 <= c -> 0 <= t -> 0 <= l -> 0 <= b ->
  block_prop ls ps c t l b = Ok w <->
  exists lf pf, ls = 512 * (lf + 1) /\ 0 <= lf <= U16_MAX /\ ps = 512 * (pf + 1) /\ 0 <= pf <= U16_MAX /\
    c <= 0x7f /\ t <= U8_MAX /\ l <= 0x1f /\ b <= 1 /\ w = prop_word lf pf c t l b.
Proof.
  intros Hc Ht Hl Hb.
  assert (forall lf pf, 0 <= lf <= U16_MAX -> 0 <= pf <= U16_MAX -> c <= 0x7f -> t <= U8_MAX ->
    l <= 0x1f -> b <= 1 ->
    Z.lor (Z.lor (Z.lor (Z.lor (Z.lor (Z.lor lf (Z.shiftl pf 16)) (Z.shiftl c 32)) (Z.shiftl t 48))
      (Z.shiftl l 56)) (Z.shiftl 1 61)) (Z.shiftl b 63) = prop_word lf pf c t l b) as Hsum.
  { intros. unfold prop_word.
    rewrite (lor_shift_add lf pf 16), (lor_shift_add _ c 32), (lor_shift_add _ t 48),
      (lor_shift_add _ l 56), (lor_shift_add _ 1 61), (lor_shift_add _ b 63) by lia. lia. }
  unfold block_prop, u8_try_from. split.
  - intros H. inv_ok. b2p. rewrite size_field_Ok in *. case_match; [|done]. b2p. simplify_eq.
    destruct Hr as [? ?], Hr0 as [? ?]. exists r, r0. split_and!; try done; try lia. by apply Hsum.
  - intros (lf & pf & -> & ? & -> & ? & ? & ? & ? & ? & ->).
    rewrite !(proj2 (Z.ltb_ge _ _)) by done. cbn [orb].
    rewrite !(proj2 (size_field_Ok _ _)) by (split; [reflexivity|done]). cbn [bind].
    rewrite (proj2 (Z.leb_le _ _)) by done. cbn [ok_or bind]. by rewrite Hsum.
Qed.

Lemma wp_block_prop ls ps c t l b (P : Z -> Prop) :
  0 <= c -> 0 <= t -> 0 <= l -> 0 <= b ->
  (forall w, is_u64 w -> 2 ^ 61 <= w -> P w) -> wp (block_prop ls ps c t l b) P.
Proof.
  intros Hc Ht Hl Hb HP. apply safe_wp.
  - unfold safe, block_prop, size_field. repeat wp_step. done.
  - intros w (lf & pf & ? & ? & ? & ? & ? & ? & ? & ? & ->)%block_prop_Ok; [|done..].
    unfold prop_word. apply HP; unfold is_u64; lia.
Qed.

Lemma wp_leaf_prop b v (P : Z -> Prop) :
  bp_ok b -> (forall w, is_u64 w -> 2 ^ 61 <= w -> P w) -> wp (leaf_prop b v) P.
Proof. intros (? & ? & ? & ? & ? & ? & ?) HP. apply wp_block_prop; auto; unfold is_byte in *; u64. Qed.

(** The encoding of a pointer: property word, checksum, padding in version 1. *)
Definition encoding (p : BlockPointerAuth) (v : Z) : list Z :=
  le_bytes 8 (prop p) ++ mac p ++ (if v =? 1 then zrepeat 8 0 else []).

Lemma encode_eq p v :
  len (mac p) = 16 ->
  encode p v = if (v =? 0) || (v =? 1) then Ok (encoding p v)
               else Err (Msg "unsupported ZFS encryption key version {value}" [v]).
Proof.
  destruct p as [w m]. cbn [prop mac]. intros Hm. unfold encode, encoding. cbn [prop mac].
  unfold len in Hm. do 16 (destruct m as [|? m]; [exfalso; cbn in Hm; lia|]).
  destruct m as [|? m]; [clear Hm|exfalso; cbn in Hm; lia].
  generalize (len_le_bytes 8 w). generalize (le_bytes 8 w). intros l Hl.
  unfold len in Hl. do 8 (destruct l as [|? l]; [exfalso; cbn in Hl; lia|]).
  destruct l as [|? l]; [clear Hl|exfalso; cbn in Hl; lia].
  destruct (Z.eqb_spec v 0) as [->|Hv]; [reflexivity|].
  destruct (Z.eqb_spec v 1) as [->|Hv1]; [reflexivity|]. reflexivity.
Qed.

Lemma wp_encode p v (P : list Z -> Prop) :
  auth_ok p -> ((v = 0 \/ v = 1) -> bytes_ok (encoding p v) -> P (encoding p v)) -> wp (encode p v) P.
Proof.
  intros [_ [Hm Hok]] HP. rewrite encode_eq by done.
  apply wp_if; intros Hv; [|apply wp_Err]. apply wp_Ok, HP.
  - apply orb_true_iff in Hv as [?|?]; b2p; auto.
  - unfold encoding. rewrite !Forall_app. split_and!; [auto with zse|done|].
    case_match; [|done]. apply Forall_zrepeat. unfold is_byte. lia.
Qed.

Lemma encoding_inj p q v : auth_ok p -> auth_ok q -> encoding p v = encoding q v -> p = q.
Proof.
  intros [Hp [Hpm Hpo]] [Hq [Hqm Hqo]]. unfold encoding. intros H.
  apply app_inj_1 in H as [Hprop H]; [|unfold len in *; pose proof (len_le_bytes 8 (prop p));
    pose proof (len_le_bytes 8 (prop q)); unfold len in *; lia].
  apply app_inj_1 in H as [Hmac _]; [|unfold len in *; lia].
  apply (f_equal le_val) in Hprop. rewrite !le_val_u64_roundtrip in Hprop by done.
  destruct p, q. cbn in *. by subst.
Qed.

(** ** Dnodes *)

Definition dnode_ok (d : RawDnode) : Prop :=
  is_u64 (dn_object d) /\ is_u32 (dn_object_type d) /\ is_u32 (dn_bonus_type d) /\
  is_u32 (dn_block_size d) /\ is_u32 (dn_bonus_length d) /\ is_byte (dn_checksum_type d) /\
  is_byte (dn_compression d) /\ is_byte (dn_slots d) /\ is_byte (dn_flags d) /\
  is_byte (dn_indirect_block_shift d) /\ is_byte (dn_levels d) /\ is_byte (dn_block_pointers d) /\
  is_u64 (dn_max_block_id d) /\ bytes_ok (dn_bonus_ciphertext d) /\
  Forall bp_ok (dn_blocks d) /\ (forall b, dn_spill d = Some b -> bp_ok b).

Lemma dnode_ok_parts d :
  dnode_ok d -> bytes_ok (dn_bonus_ciphertext d) /\ Forall bp_ok (dn_blocks d) /\
  (forall b, dn_spill d = Some b -> bp_ok b).
Proof. intros (_&_&_&_&_&_&_&_&_&_&_&_&_&?&?&?). done. Qed.

Lemma bp_ok_mac b : bp_ok b -> fixed 16 (bp_mac b).
Proof. intros (_&_&_&_&_&_&?). done. Qed.

Lemma chunks_concat {A} n (l : list A) : 0 < n -> concat (chunks n l) = l.
Proof.
  intros Hn. unfold chunks. generalize (Nat.le_refl (length l)). generalize (length l) at 2 3.
  intros k. revert l. induction k as [|k IH]; intros l Hl; cbn [chunks_fuel].
  - destruct l; [done|cbn in Hl; lia].
  - destruct l as [|a l]; [done|]. cbn [concat]. rewrite IH.
    + apply ztake_zdrop.
    + unfold zdrop. rewrite length_drop. cbn [length] in *. lia.
Qed.

Lemma chunks_bound {A} n (l : list A) c : 0 < n -> c ∈ chunks n l -> c <> [] /\ len c <= n.
Proof.
  intros Hn. unfold chunks. generalize (length l). intros k. revert l.
  induction k as [|k IH]; intros l; cbn [chunks_fuel]; [set_solver|].
  destruct l as [|a l]; [set_solver|]. intros [->|Hc]%elem_of_cons; [|by eapply IH].
  split; [|rewrite len_ztake; lia]. unfold ztake. destruct (Z.to_nat n) eqn:?; [lia|done].
Qed.

Lemma concat_elem {A} (ls : list (list A)) l a : l ∈ ls -> a ∈ l -> a ∈ concat ls.
Proof.
  induction ls as [|l' ls IH]; [set_solver|]. cbn [concat]. rewrite elem_of_cons, elem_of_app.
  naive_solver.
Qed.

Section crypto.
Context `{CryptoLaws}.

Lemma wp_indirect_prop d l (P : Z -> Prop) :
  dnode_ok d -> 0 <= l -> (forall w, is_u64 w -> 2 ^ 61 <= w -> P w) -> wp (indirect_prop d l) P.
Proof. intros Hd Hl HP. apply wp_block_prop; auto; try lia. unfold dnode_ok in Hd. u64. Qed.

Lemma wp_leaf_level d v n :
  dnode_ok d -> 0 <= n ->
  wp (leaf_level d v n) (fun l => Forall auth_ok l /\ len l = n).
Proof.
  intros Hd Hn. unfold leaf_level. apply wp_fold_res.
  - intros level block Hb [Hlevel Hlen].
    assert (bp_ok block) as Hbok.
    { unfold dnode_ok in Hd. destruct Hd as (_&_&_&_&_&_&_&_&_&_&_&_&_&_&Hbs&_).
      rewrite Forall_forall in Hbs. auto. }
    assert (0 <= bp_block_id block) by (unfold bp_ok in Hbok; u64).
    wp_step. wp_step.
    match goal with Hx : usize_try_from _ = Some _ |- _ =>
      unfold usize_try_from in Hx; case_match; [injection Hx as <-|done] end.
    wp_step. b2p. wp_step. apply wp_index; [lia|]. intros slot _. wp_step. wp_step.
    apply wp_leaf_prop; [done|]. intros w Hw _. apply wp_set_index; [lia|]. intros Hl.
    split; [|lia]. apply Forall_app. split; [auto with zse|]. constructor; [|auto with zse].
    split; [done|]. by destruct Hbok as (_&_&_&_&_&_&?).
  - split; [auto with zse|]. rewrite len_zrepeat. lia.
Qed.

Lemma wp_parent_pointer d v epb tl children :
  dnode_ok d -> 0 <= tl -> Forall auth_ok children ->
  wp (parent_pointer d v epb tl children) auth_ok.
Proof.
  intros Hd Htl Hc. unfold parent_pointer. apply wp_if; intros _; [apply wp_Ok; auto with zse|].
  apply wp_bind. eapply wp_mono; [|apply (wp_map_res _ bytes_ok)].
  - intros encoded _. apply wp_bind. eapply wp_mono; [|apply (wp_map_res _ bytes_ok)].
    + intros holes _. destruct (sha512_len (concat encoded ++ concat holes)) as [Hl Hb].
      apply wp_bind, wp_slice_fixed; [done|lia|lia|]. intros m Hm.
      apply wp_bind, wp_indirect_prop; [done|done|]. intros w Hw _. by apply wp_Ok.
    + intros ? _. by apply wp_encode; auto with zse.
  - intros child Hchild. rewrite Forall_forall in Hc. by apply wp_encode; auto.
Qed.

Lemma wp_parent_level d v epb level tl :
  dnode_ok d -> 0 < epb -> 0 <= tl -> Forall auth_ok level ->
  wp (parent_level d v epb level tl) (Forall auth_ok).
Proof.
  intros Hd He Htl Hl. unfold parent_level. eapply wp_mono; [|apply wp_map_res].
  - by intros l [HF _].
  - intros c Hc. apply wp_parent_pointer; [done|done|]. rewrite Forall_forall in Hl |- *.
    intros p Hp. apply Hl. rewrite <- (chunks_concat epb level) by done. by eapply concat_elem.
Qed.

Lemma wp_root_block_pointers d v :
  dnode_ok d ->
  wp (root_block_pointers d v) (fun roots => Forall auth_ok roots /\ len roots = dn_block_pointers d).
Proof.
  intros Hd. unfold root_block_pointers. wp_step. b2p. cbv zeta. wp_steps.
  match goal with Hx : usize_try_from _ = Some _ |- _ =>
    unfold usize_try_from in Hx; case_match; [injection Hx as <-|done] end.
  match goal with Hx : checked_add _ _ = Some _ |- _ => apply checked_add_Some in Hx as [? ->] end.
  assert (0 <= dn_max_block_id d /\ 0 <= dn_block_pointers d) as [? ?] by (unfold dnode_ok, is_byte in Hd; u64).
  eapply wp_mono; [|apply wp_leaf_level; [done|lia]]. intros level [Hlevel _].
  apply wp_bind, (wp_mono _ (Forall auth_ok)).
  - intros top Htop. wp_steps. split; [|by apply len_resize].
    auto with zse.
  - apply wp_fold_res; [|done]. intros l tl Htl Hl. apply elem_of_seqZ in Htl.
    apply wp_parent_level; [done| |lia|done].
    rewrite Z.shiftl_1_l. apply Z.pow_pos_nonneg; lia.
Qed.

(** The 64 bytes of a core. *)
Definition core_bytes (d : RawDnode) : list Z :=
  [dn_object_type d; dn_indirect_block_shift d; dn_levels d; dn_block_pointers d; dn_bonus_type d;
   dn_checksum_type d; dn_compression d; Z.land (dn_flags d) 0x04] ++
  le_bytes 2 (dn_block_size d / 512) ++ le_bytes 2 (dn_bonus_length d) ++
  [dn_slots d - 1; 0; 0; 0] ++ le_bytes 8 (dn_max_block_id d) ++ zrepeat 40 0.

Lemma byte_land4 x : is_byte (Z.land x 4).
Proof.
  change 4 with (mask 1 2). rewrite land_mask by lia. unfold is_byte.
  pose proof (Z.mod_pos_bound (x / 2 ^ 2) (2 ^ 1)). lia.
Qed.

Lemma core_bytes_fixed d : dnode_ok d -> dn_slots d <> 0 -> dn_object_type d <= U8_MAX ->
  dn_bonus_type d <= U8_MAX -> fixed 64 (core_bytes d).
Proof.
  intros (?&?&?&?&?&?&?&?&?&?&?&?&?&_) ???. unfold core_bytes. split.
  - autorewrite with len. done.
  - pose proof (byte_land4 (dn_flags d)). unfold is_u32 in *. rewrite !Forall_app.
    split_and!; auto with zse; repeat constructor; unfold is_byte in *; lia.
Qed.

Lemma wp_dnode_core d (P : list Z -> Prop) :
  dnode_ok d -> dn_slots d <> 0 -> (fixed 64 (core_bytes d) -> P (core_bytes d)) -> wp (dnode_core d) P.
Proof.
  intros Hd Hs HP. unfold dnode_core, u8_try_from, u16_try_from. wp_steps.
  repeat match goal with Hx : (if _ then Some _ else None) = Some _ |- _ =>
    case_match; [injection Hx as <-|discriminate Hx] end.
  b2p. apply wp_sub; [unfold dnode_ok, is_byte in Hd; lia|].
  change (wp (Ok (E:=error) (core_bytes d)) P). apply wp_Ok, HP. by apply core_bytes_fixed.
Qed.

Lemma wp_dnode_max_bonus d (P : Z -> Prop) :
  (let n := dn_slots d * 512 - (64 + dn_block_pointers d * 128 + if has_bits (dn_flags d) 4 then 128 else 0) in
   0 <= n -> P n) ->
  wp (dnode_max_bonus d) P.
Proof.
  intros HP. unfold dnode_max_bonus. apply wp_ok_or. intros n [? ->]%checked_sub_Some. apply HP. lia.
Qed.

Lemma dnode_max_bonus_Ok d n :
  dnode_max_bonus d = Ok n <->
  0 <= n /\ n = dn_slots d * 512 - (64 + dn_block_pointers d * 128 + if has_bits (dn_flags d) 4 then 128 else 0).
Proof. unfold dnode_max_bonus. rewrite ok_or_Ok, checked_sub_Some. lia. Qed.

(** A dnode that passes the validation, as the callers use it. *)
Definition valid_dnode (range : RawDnodeRange) (range_end : Z) (d : RawDnode) : Prop :=
  rg_first_object range <= dn_object d /\ dn_object d + dn_slots d <= range_end /\
  1 <= dn_slots d /\ 1 <= dn_block_pointers d /\ 1 <= dn_levels d /\
  exists n, dnode_max_bonus d = Ok n /\ dn_bonus_length d <= n.

Lemma wp_validate_dnode range range_end d (P : unit -> Prop) :
  dnode_ok d -> (valid_dnode range range_end d -> P tt) -> wp (validate_dnode range d range_end) P.
Proof.
  intros Hd HP. assert (dnode_ok d) as Hd' by done. unfold dnode_ok, is_byte in Hd'.
  unfold validate_dnode. do 4 wp_step. b2p.
  apply wp_bind, safe_wp; [by apply wp_dnode_max_bonus|]. intros n Hn. wp_steps. apply HP.
  b2p. rewrite usize_try_from_u64 in * by u64. cbn [default] in *.
  unfold valid_dnode. split_and!; try lia. eauto.
Qed.

End crypto.

Definition params_ok (p : EncryptionParams) : Prop :=
  is_u64 (suite p) /\ is_u64 (guid p) /\ is_u64 (version p) /\ is_u64 (key_format p) /\
  is_u64 (pbkdf2_iterations p) /\ is_u64 (pbkdf2_salt p) /\
  bytes_ok (wrapped_master_key p) /\ bytes_ok (wrapped_hmac_key p) /\
  fixed 12 (wrapping_iv p) /\ fixed 16 (wrapping_mac p).

(** ** The lookups *)

Lemma wp_uint64 m name (P : Z -> Prop) :
  nv_map_ok m -> (forall v, is_u64 v -> P v) -> wp (uint64 m name) P.
Proof.
  intros Hm HP. unfold uint64. destruct (nv_get _ m) as [[]|] eqn:Hg; try apply wp_Err.
  apply wp_Ok, HP. apply nv_get_ok in Hg; [|done]. by inversion Hg.
Qed.

Lemma wp_bytes m name (P : list Z -> Prop) :
  nv_map_ok m -> (forall b, bytes_ok b -> P b) -> wp (bytes m name) P.
Proof.
  intros Hm HP. unfold bytes. destruct (nv_get _ m) as [[]|] eqn:Hg; try apply wp_Err.
  apply wp_Ok, HP. apply nv_get_ok in Hg; [|done]. by inversion Hg.
Qed.

Lemma wp_array n b name (P : list Z -> Prop) :
  bytes_ok b -> (fixed n b -> P b) -> wp (array n b name) P.
Proof.
  intros Hb HP. unfold array, array_try_from. apply wp_ok_or. intros a. case_match; [|done].
  intros [= <-]. b2p. by apply HP.
Qed.

Lemma wp_from_begin_payload payload : bytes_ok payload -> wp (from_begin_payload payload) params_ok.
Proof.
  intros Hb. unfold from_begin_payload. apply wp_bind.
  eapply wp_mono; [|apply wp_decode; [done|unfold len; lia]].
  intros m Hm. destruct (nv_get _ m) as [[| |c|]|] eqn:Hg; try apply wp_Err.
  apply nv_get_ok in Hg; [|done]. inversion Hg as [| |? Hc|]; subst.
  repeat (apply wp_bind; first [apply wp_bytes; [done|]; intros ? ?
    | apply wp_array; [done|]; intros ? | apply wp_uint64; [done|]; intros ? ?]).
  apply wp_Ok. unfold params_ok. cbn. by split_and!.
Qed.

(** ** Unlocking *)

Definition aead_of (suite : Z) : option AeadAlgorithm :=
  if suite =? 3 then Some Aes128Ccm else if suite =? 4 then Some Aes192Ccm
  else if suite =? 5 then Some Aes256Ccm else if suite =? 6 then Some Aes128Gcm
  else if suite =? 7 then Some Aes192Gcm else if suite =? 8 then Some Aes256Gcm else None.

Lemma decrypt_aead_of `{Crypto} s k iv aad c m :
  decrypt_aead s k iv aad c m =
    match aead_of s with Some a => aead_open a k iv aad c m | None => None end.
Proof. unfold decrypt_aead, aead_of. repeat (case_match; [done|]). done. Qed.

Lemma aead_open_Some `{Crypto} a k iv aad c m out :
  aead_open a k iv aad c m = Some out -> len k = aead_key_len a /\ aead_decrypt a k iv aad c m = Some out.
Proof.
  unfold aead_open, new_from_slice. destruct (Z.eqb_spec (len k) (aead_key_len a)); [|done]. by split.
Qed.

Lemma aead_open_seals `{AeadSeal} a k n aad plain c tag :
  len k = aead_key_len a -> bytes_ok plain -> aead_encrypt a k n aad plain = (c, tag) -> aead_open a k n aad c tag = Some plain.
Proof. intros Hk Hp Hs. unfold aead_open, new_from_slice. rewrite Hk, Z.eqb_refl. by eapply aead_open_seal. Qed.

Definition key_ok (p : EncryptionParams) (k : DatasetKey) : Prop :=
  key_suite k = suite p /\ crypto_version k = version p /\
  suite_key_len (suite p) = Ok (len (master_key k)) /\ len (hmac_key k) = 64 /\
  bytes_ok (master_key k) /\ bytes_ok (hmac_key k).

Lemma wp_decode_hex_pairs index material output :
  0 <= index -> 2 * index + len material <= 2 * len output ->
  wp (decode_hex_pairs index material output) (fun out => len out = len output).
Proof.
  intros Hi. remember (length material) as n eqn:Hn. assert (length material <= n)%nat as Hle by lia. clear Hn.
  revert index material output Hi Hle. induction n as [|n IH]; intros index [|a [|b material]] output Hi Hle Hl;
    cbn [decode_hex_pairs]; try (by apply wp_Ok); [cbn in Hle; lia|].
  rewrite !len_cons in Hl. pose proof (len_nonneg material).
  wp_steps. apply wp_set_index; [lia|]. intros Hlen. rewrite <- Hlen.
  apply IH; [lia|cbn in Hle; lia|lia].
Qed.

Lemma wp_decode_hex_key material output :
  len output = 32 -> wp (decode_hex_key material output) (fun out => len out = 32).
Proof.
  intros Ho. unfold decode_hex_key. wp_step. b2p. rewrite <- Ho. apply wp_decode_hex_pairs; lia.
Qed.

Lemma wp_wrapping_key `{CryptoLaws} p material : wp (wrapping_key p material) (fun k => len k = 32).
Proof.
  unfold wrapping_key. apply wp_if; intros _; [wp_steps; by b2p|].
  apply wp_if; intros _; [by apply wp_decode_hex_key|].
  apply wp_if; intros _; [|apply wp_Err]. wp_steps. by apply pbkdf2_len.
Qed.

Lemma suite_key_len_Ok s n : suite_key_len s = Ok n -> 16 <= n <= 32 /\ exists a, aead_of s = Some a.
Proof.
  unfold suite_key_len. intros Hs.
  destruct (_ || _) eqn:H1; [|destruct ((s =? 4) || _) eqn:H2; [|destruct ((s =? 5) || _) eqn:H3; [|done]]];
    injection Hs as <-; (split; [lia|]);
    match goal with Hx : _ || _ = true |- _ => apply orb_true_iff in Hx as [?|?] end; b2p; subst;
    eexists; reflexivity.
Qed.

Lemma suite_aead s n a : suite_key_len s = Ok n -> aead_of s = Some a -> aead_key_len a = n.
Proof.
  unfold suite_key_len, aead_of. intros Hs Ha.
  destruct (_ || _) eqn:H1; [|destruct ((s =? 4) || _) eqn:H2; [|destruct ((s =? 5) || _) eqn:H3; [|done]]];
    injection Hs as <-;
    match goal with Hx : _ || _ = true |- _ => apply orb_true_iff in Hx as [?|?] end; b2p; subst; by injection Ha as <-.
Qed.

Lemma wp_unlock `{CryptoLaws} q m : wp (unlock q m) (key_ok q).
Proof.
  unfold unlock. apply wp_bind. eapply wp_mono; [|apply wp_wrapping_key].
  intros wk0 _. apply wp_bind, safe_wp; [unfold safe, suite_key_len; repeat case_match; done|].
  intros n Hn. apply suite_key_len_Ok in Hn as Hn'. destruct Hn' as [Hnr _]. wp_step. b2p. cbv zeta.
  apply wp_bind, safe_wp; [unfold safe; repeat case_match; done|]. intros aad _. wp_step. wp_step.
  match goal with Hx : decrypt_aead _ _ _ _ _ _ = Some ?x |- _ => rename Hx into Hd; rename x into plain end.
  rewrite decrypt_aead_of in Hd. destruct (aead_of (suite q)) as [a|]; [|done].
  apply aead_open_Some in Hd as [_ [Hl Hb]%aead_decrypt_len]. rewrite len_app in Hl.
  unfold slice_from. apply wp_bind, wp_slice_fixed; [done|lia|lia|]. intros tail [Htl Htb].
  apply wp_bind, wp_copy_from_slice; [rewrite len_zrepeat; lia|].
  apply wp_bind, wp_slice_fixed; [done|lia|lia|]. intros mk [Hmk Hmkb]. apply wp_Ok.
  unfold key_ok. cbn. split_and!; try done; [rewrite Hmk, Hn; f_equal; lia|lia].
Qed.
