(* ===== verification/DnodeWalks.v ===== *)
(** What the two dnode walks guarantee: the layout of a raw OBJECT_RANGE and of a
    pool's dnode block, the lengths of the bonuses they return. *)

From S2P Require Import Prelude Bytes Stream StreamFacts Compression NvList Encrypted.
From S2P Require Import EncryptedDnode EncryptedFacts.

(** ** Raw OBJECT_RANGE *)

Definition encrypted_bonus (d : RawDnode) : bool :=
  is_encrypted_object_type (dn_bonus_type d) && negb (dn_bonus_length d =? 0).

Lemma wp_decrypt_block `{CryptoLaws} key salt iv mac aad c (P : list Z -> Prop) :
  (forall p, len p = len c -> bytes_ok p -> P p) -> wp (decrypt_block key salt iv mac aad c) P.
Proof.
  intros HP. unfold decrypt_block. wp_step. wp_step. apply wp_ok_or. intros p Hp.
  enough (len p = len c /\ bytes_ok p) as [? ?] by auto. revert Hp. unfold decrypt_aead.
  repeat (case_match; [by intros [_ Hd%aead_decrypt_len]%aead_open_Some|]). done.
Qed.

Lemma by_object_lookup dnodes (m : gmap Z RawDnode) o d :
  foldl (fun m d => <[dn_object d := d]> m) m dnodes !! o = Some d ->
  m !! o = Some d \/ (d ∈ dnodes /\ dn_object d = o).
Proof.
  revert m. induction dnodes as [|d' dnodes IH]; intros m; cbn [foldl]; [auto|].
  intros [Hm|[? ?]]%IH; [|set_solver].
  destruct (decide (dn_object d' = o)) as [<-|Hne].
  - rewrite lookup_insert_eq in Hm. simplify_eq. set_solver.
  - rewrite lookup_insert_ne in Hm by done. auto.
Qed.

Lemma by_object_size dnodes (m : gmap Z RawDnode) :
  (size (foldl (fun m d => <[dn_object d := d]> m) m dnodes) <= size m + length dnodes)%nat.
Proof.
  revert m. induction dnodes as [|d dnodes IH]; intros m; cbn [foldl length]; [lia|].
  specialize (IH (<[dn_object d := d]> m)). rewrite map_size_insert in IH.
  destruct (m !! dn_object d); cbn in IH; lia.
Qed.

(** As many entries as dnodes: no two dnodes share an object id, and every one
    is found under its own. *)
Lemma by_object_full dnodes :
  Z.of_nat (size (by_object dnodes)) = len dnodes ->
  forall o d, by_object dnodes !! o = Some d <-> d ∈ dnodes /\ dn_object d = o.
Proof.
  intros Hsize. unfold len in Hsize. unfold by_object in *.
  enough (forall dnodes (m : gmap Z RawDnode), (size (foldl (fun m d => <[dn_object d := d]> m) m dnodes) = size m + length dnodes)%nat ->
    forall o d, (foldl (fun m d => <[dn_object d := d]> m) m dnodes !! o = Some d <->
                 m !! o = Some d \/ (d ∈ dnodes /\ dn_object d = o)) /\
      (is_Some (m !! o) -> forall d', d' ∈ dnodes -> dn_object d' <> o)) as Hgen.
  { intros o d. destruct (Hgen dnodes ∅ ltac:(rewrite map_size_empty; lia) o d) as [Hl _].
    rewrite Hl, lookup_empty. naive_solver. }
  clear. intros dnodes. induction dnodes as [|d0 dnodes IH]; intros m Hs o d; cbn [foldl length] in *.
  - set_solver.
  - pose proof (by_object_size dnodes (<[dn_object d0 := d0]> m)) as Hub.
    rewrite map_size_insert in Hub.
    destruct (m !! dn_object d0) as [d1|] eqn:Hm0; cbn in Hub; [lia|].
    assert (forall o, is_Some (m !! o) -> o <> dn_object d0) as Hfresh by (intros ? [? ?]; congruence).
    destruct (IH (<[dn_object d0 := d0]> m)) with (o := o) (d := d) as [IHl IHf].
    { rewrite Hs, map_size_insert, Hm0. cbn. lia. }
    split.
    + rewrite IHl. rewrite lookup_insert_Some. split; [set_solver|].
      intros [Hm|[[->|Hd]%elem_of_cons Ho]]; [|auto|auto].
      left. right. split; [|done]. intros <-. congruence.
    + intros Hm d' [->|Hd']%elem_of_cons; [intros <-; by destruct (Hfresh _ Hm)|].
      apply IHf; [|done]. apply lookup_insert_is_Some. destruct (decide (dn_object d0 = o)); auto.
Qed.

(** Slots of two dnodes do not overlap. *)
Definition disjoint_dnodes (d1 d2 : RawDnode) : Prop :=
  dn_object d1 < dn_object d2 -> dn_object d1 + dn_slots d1 <= dn_object d2.

Record raw_inv (m : gmap Z RawDnode) (range : RawDnodeRange) (range_end : Z) (w : raw_walk) : Prop := {
  ri_aad : bytes_ok (rw_aad w);
  ri_cipher : bytes_ok (rw_ciphertext w);
  ri_first : rg_first_object range <= rw_object w;
  ri_visited : forall o, o ∈ rw_visited w -> exists d, m !! o = Some d /\ dn_object d = o /\
    valid_dnode range range_end d /\ o + dn_slots d <= rw_object w;
  ri_disjoint : forall o1 o2 d1 d2, o1 ∈ rw_visited w -> o2 ∈ rw_visited w ->
    m !! o1 = Some d1 -> m !! o2 = Some d2 -> disjoint_dnodes d1 d2;
  ri_objects : forall o, o ∈ (rw_lengths w).*1 <->
    o ∈ rw_visited w /\ exists d, m !! o = Some d /\ encrypted_bonus d = true;
  ri_nodup : NoDup (rw_lengths w).*1;
  ri_lengths : Forall (fun e => exists d, m !! e.1 = Some d /\ dnode_max_bonus d = Ok e.2) (rw_lengths w);
  ri_total : len (rw_ciphertext w) = foldr Z.add 0 (rw_lengths w).*2;
  ri_size : len (rw_ciphertext w) <= 512 * (rw_object w - rg_first_object range);
  ri_end : rw_object w <= range_end;
}.

Lemma sum_app l k : foldr Z.add 0 (l ++ k) = foldr Z.add 0 l + foldr Z.add 0 k.
Proof. induction l; cbn; lia. Qed.

Lemma sum_nonneg (l : list (Z * Z)) : Forall (fun e => 0 <= e.2) l -> 0 <= foldr Z.add 0 l.*2.
Proof. induction 1; cbn; lia. Qed.

Lemma wp_cut_bonus plaintext lengths bonuses cursor :
  bytes_ok plaintext -> len plaintext <= U64_MAX ->
  0 <= cursor -> Forall (fun e => 0 <= e.2) lengths -> NoDup lengths.*1 ->
  cursor + foldr Z.add 0 lengths.*2 <= len plaintext ->
  wp (fold_res (cut_bonus plaintext) (bonuses, cursor) lengths) (fun out =>
    out.2 = cursor + foldr Z.add 0 lengths.*2 /\
    (forall o, o ∉ lengths.*1 -> out.1 !! o = bonuses !! o) /\
    (forall o n, (o, n) ∈ lengths -> exists b, out.1 !! o = Some b /\ len b = n /\ bytes_ok b)).
Proof.
  intros Hp Hmax. revert bonuses cursor.
  induction lengths as [|[o n] lengths IH]; intros bonuses cursor Hc Hpos Hnd Hsum; cbn [fold_res].
  - apply wp_Ok. cbn. split_and!; [lia|done|set_solver].
  - inversion Hpos; subst. inversion Hnd as [|? ? Hnew Hnd']; subst. cbn [fmap list_fmap foldr snd fst] in *.
    assert (0 <= foldr Z.add 0 lengths.*2) as Hrest.
    { by apply sum_nonneg. }
    apply wp_bind. unfold cut_bonus. apply wp_bind, wp_add; [lia|].
    apply wp_bind, wp_slice_fixed; [done|lia|lia|]. intros b [Hb Hbok]. apply wp_Ok.
    eapply wp_mono; [|apply IH; [lia|done|done|lia]].
    intros [bs c] (Hc' & Hout & Hin). cbn [fst snd] in *. split_and!; [lia| |].
    + intros o' Ho'. rewrite Hout by set_solver. apply lookup_insert_ne. set_solver.
    + intros o' n' [[= -> ->]|Hin']%elem_of_cons; [|by apply Hin].
      exists b. rewrite Hout by done. rewrite lookup_insert_eq. split_and!; [done|lia|done].
Qed.

Section raw.
Context `{CryptoLaws}.
Variables (m : gmap Z RawDnode) (range : RawDnodeRange) (range_end : Z).
Hypothesis m_ok : forall o d, m !! o = Some d -> dnode_ok d /\ dn_object d = o.

(** The step that adds a dnode at the walk's position. *)
Lemma raw_inv_visit w d aad c lengths :
  raw_inv m range range_end w -> m !! rw_object w = Some d -> valid_dnode range range_end d ->
  bytes_ok aad -> bytes_ok c ->
  (if encrypted_bonus d
   then exists n, dnode_max_bonus d = Ok n /\ lengths = rw_lengths w ++ [(dn_object d, n)] /\
          len c = len (rw_ciphertext w) + n
   else lengths = rw_lengths w /\ c = rw_ciphertext w) ->
  raw_inv m range range_end {|
    rw_aad := aad; rw_ciphertext := c; rw_lengths := lengths;
    rw_visited := {[dn_object d]} ∪ rw_visited w; rw_object := rw_object w + dn_slots d |}.
Proof.
  intros Hw Hd Hv Haad Hc Hl. destruct (m_ok _ _ Hd) as [_ Ho].
  assert (rw_object w ∉ rw_visited w) as Hnew.
  { intros (d' & Hd' & _ & Hv' & ?)%(ri_visited _ _ _ _ Hw). rewrite Hd in Hd'. injection Hd' as <-.
    unfold valid_dnode in Hv. lia. }
  pose proof (ri_first _ _ _ _ Hw). destruct Hv as (? & ? & ? & ? & ? & nb & Hn & ?).
  assert (valid_dnode range range_end d) as Hv by (unfold valid_dnode; eauto 10).
  split; cbn [rw_aad rw_ciphertext rw_object rw_visited rw_lengths]; try done; try lia.
  - intros o [->%elem_of_singleton|Hin]%elem_of_union; [exists d; rewrite Ho; split_and!; done || lia|].
    destruct (ri_visited _ _ _ _ Hw o Hin) as (d' & ? & ? & ? & ?). exists d'. split_and!; done || lia.
  - intros o1 o2 d1 d2 Hin1 Hin2 Hd1 Hd2 Hlt. rewrite elem_of_union, elem_of_singleton in Hin1, Hin2.
    destruct (m_ok _ _ Hd1) as [_ E1], (m_ok _ _ Hd2) as [_ E2].
    destruct Hin2 as [->|Hin2].
    + destruct Hin1 as [->|Hin1]; [rewrite Ho in *; simplify_eq; lia|].
      destruct (ri_visited _ _ _ _ Hw o1 Hin1) as (d' & ? & ? & ? & ?). simplify_eq. lia.
    + destruct Hin1 as [->|Hin1]; [|by eapply (ri_disjoint _ _ _ _ Hw o1 o2)].
      destruct (ri_visited _ _ _ _ Hw o2 Hin2) as (d' & ? & ? & (_&_&?&_) & ?). simplify_eq. lia.
  - intros o. destruct (encrypted_bonus d) eqn:He.
    + destruct Hl as (n & _ & -> & _). rewrite fmap_app, elem_of_app. cbn.
      rewrite list_elem_of_singleton, (ri_objects _ _ _ _ Hw), elem_of_union, elem_of_singleton.
      rewrite Ho. clear - Hd He. split; [intros [[? ?]| ->]; eauto|intros [[->|?] ?]; auto].
    + destruct Hl as [-> _]. rewrite (ri_objects _ _ _ _ Hw), elem_of_union, elem_of_singleton.
      rewrite Ho. clear - Hd He. split; [intros [? ?]; auto|].
      intros [[->|?] (d' & Hd' & He')]; [congruence|eauto].
  - destruct (encrypted_bonus d); [destruct Hl as (n & _ & -> & _)|destruct Hl as [-> _]; apply Hw].
    rewrite fmap_app. apply NoDup_app. split_and!; [apply Hw| |apply NoDup_singleton].
    intros o Ho' ->%list_elem_of_singleton. apply (ri_objects _ _ _ _ Hw) in Ho' as [Hin _].
    cbn in Hin. by rewrite Ho in Hin.
  - destruct (encrypted_bonus d); [destruct Hl as (n & Hmax & -> & _)|destruct Hl as [-> _]; apply Hw].
    apply Forall_app. split; [apply Hw|]. constructor; [|done]. exists d. cbn. by rewrite Ho.
  - destruct (encrypted_bonus d); [destruct Hl as (n & _ & -> & ->)|destruct Hl as [-> ->]; apply Hw].
    rewrite fmap_app, sum_app, (ri_total _ _ _ _ Hw). cbn. lia.
  - pose proof (ri_size _ _ _ _ Hw). apply dnode_max_bonus_Ok in Hn.
    destruct (encrypted_bonus d); [destruct Hl as (n & Hmax%dnode_max_bonus_Ok & _ & ->)|destruct Hl as [_ ->]]; [|lia].
    destruct (has_bits (dn_flags d) 4); lia.
Qed.

Lemma wp_raw_dnode_step w d :
  raw_inv m range range_end w -> m !! rw_object w = Some d ->
  wp (raw_dnode_step range range_end d w) (fun w' =>
    raw_inv m range range_end w' /\ rw_object w < rw_object w').
Proof.
  intros Hw Hd. destruct (m_ok _ _ Hd) as [Hok Ho]. unfold raw_dnode_step.
  apply wp_bind, wp_validate_dnode; [done|]. intros Hv. assert (1 <= dn_slots d) as Hs by apply Hv.
  apply wp_bind, wp_dnode_core; [done|lia|]. intros [_ Hcore].
  apply wp_bind. eapply wp_mono; [|by apply wp_root_block_pointers]. intros roots [Hroots _].
  apply wp_bind. eapply wp_mono; [|apply (wp_map_res _ bytes_ok)].
  2: { intros p Hp. rewrite Forall_forall in Hroots. apply wp_encode; auto. }
  intros root_aad [Hraad _]. apply wp_bind, (wp_mono _ bytes_ok).
  2: { apply wp_if; intros _; [|by apply wp_Ok]. wp_step. wp_step.
       assert (bp_ok a) by (by apply (dnode_ok_parts _ Hok)).
       apply wp_bind, wp_leaf_prop; [done|]. intros p Hp _. apply wp_encode; [|auto].
       split; [done|by apply bp_ok_mac]. }
  intros saad Hsaad. assert (bytes_ok (rw_aad w ++ core_bytes d ++ concat root_aad ++ saad)) as Haad.
  { rewrite !Forall_app. split_and!; [apply Hw|done|by apply Forall_concat|done]. }
  apply wp_bind, safe_wp; [by apply wp_dnode_max_bonus|]. intros n Hn.
  assert (0 <= n) by (apply dnode_max_bonus_Ok in Hn; lia).
  assert (bytes_ok (dn_bonus_ciphertext d)) by apply (dnode_ok_parts _ Hok).
  fold (encrypted_bonus d). apply wp_if; intros He; wp_step; b2p; apply wp_Ok; (split; [|cbn; lia]); apply raw_inv_visit; try done.
  - apply Forall_app. split; [apply Hw|done].
  - rewrite He. exists n. split_and!; [done..|]. rewrite len_app. lia.
  - auto with zse.
  - apply Hw.
  - by rewrite He.
Qed.

Lemma wp_raw_dnode_loop fuel w :
  raw_inv m range range_end w -> range_end - rw_object w <= Z.of_nat fuel ->
  wp (raw_dnode_loop fuel range range_end m w) (raw_inv m range range_end).
Proof.
  revert w. induction fuel as [|fuel IH]; intros w Hw Hf; cbn [raw_dnode_loop];
    (destruct (Z.ltb_spec (rw_object w) range_end); [|by apply wp_Ok]); [lia|].
  apply wp_bind, (wp_mono _ (fun w' => raw_inv m range range_end w' /\ rw_object w < rw_object w')).
  - intros w' [? ?]. apply IH; [done|lia].
  - destruct (m !! rw_object w) as [d|] eqn:Hd; [by apply wp_raw_dnode_step|].
    apply wp_Ok. split; [|cbn; lia]. destruct Hw. split; cbn; try done; try lia.
    + auto with zse.
    + intros o Ho. destruct (ri_visited0 o Ho) as (d & ? & ? & ? & ?). exists d. split_and!; done || lia.
Qed.

Lemma raw_inv_init :
  rg_first_object range <= range_end ->
  raw_inv m range range_end {| rw_aad := []; rw_ciphertext := []; rw_lengths := [];
    rw_visited := ∅; rw_object := rg_first_object range |}.
Proof.
  intros Hr. split; cbn [rw_aad rw_ciphertext rw_object rw_visited rw_lengths];
    [constructor|constructor|lia|by intros o Ho%not_elem_of_empty
    |by intros o1 o2 d1 d2 Ho%not_elem_of_empty| |constructor|constructor|done| |lia].
  - intros o. cbn. split; [intros Ho; by apply not_elem_of_nil in Ho|]. by intros [Ho%not_elem_of_empty _].
  - change (len (@nil Z)) with 0. lia.
Qed.
End raw.

(** What a successful decryption of a range says about its dnodes and about the
    bonuses it returns. *)
Definition bonuses_spec (range : RawDnodeRange) (dnodes : list RawDnode)
    (bonuses : gmap Z (list Z)) : Prop :=
  Forall (valid_dnode range (rg_first_object range + 32)) dnodes /\
  (forall d1 d2, d1 ∈ dnodes -> d2 ∈ dnodes -> disjoint_dnodes d1 d2) /\
  (forall d1 d2, d1 ∈ dnodes -> d2 ∈ dnodes -> dn_object d1 = dn_object d2 -> d1 = d2) /\
  forall o, match bonuses !! o with
    | Some b => exists d, d ∈ dnodes /\ dn_object d = o /\ encrypted_bonus d = true /\
                  dnode_max_bonus d = Ok (len b) /\ dn_bonus_length d <= len b /\ bytes_ok b
    | None => forall d, d ∈ dnodes -> dn_object d = o -> encrypted_bonus d = false
    end.

Lemma wp_decrypt_dnode_bonuses `{CryptoLaws} key range dnodes :
  is_u64 (rg_first_object range) -> Forall dnode_ok dnodes ->
  wp (decrypt_dnode_bonuses key range dnodes) (bonuses_spec range dnodes).
Proof.
  intros Hfirst Hok. unfold decrypt_dnode_bonuses. wp_step. wp_step. b2p. wp_step. wp_step. cbv zeta. wp_step.
  match goal with Hx : rg_object_slots range = 32 |- _ => rewrite Hx in * end.
  match goal with Hx : checked_add _ _ = Some _ |- _ => apply checked_add_Some in Hx as [? ->] end. b2p.
  match goal with Hx : Z.of_nat (size _) = len dnodes |- _ => pose proof (by_object_full _ Hx) as Hm; rename Hx into Hsize end.
  assert (forall o d, by_object dnodes !! o = Some d -> dnode_ok d /\ dn_object d = o) as Hmok.
  { intros o d [Hd ?]%Hm. rewrite Forall_forall in Hok. auto. }
  wp_step. eapply wp_mono; [|apply wp_raw_dnode_loop; [exact Hmok| |cbn; lia]].
  2: { apply raw_inv_init. lia. }
  intros w Hw. wp_step. b2p. wp_step. apply wp_with_context, wp_decrypt_block. intros p Hp Hpok.
  assert (len p <= U64_MAX) by (pose proof (ri_size _ _ _ _ Hw); pose proof (ri_end _ _ _ _ Hw); lia).
  assert (rw_visited w = dom (by_object dnodes)) as Hvis.
  { apply leibniz_equiv, set_subseteq_size_equiv; [|rewrite size_dom; lia].
    intros o (d & Hd & _)%(ri_visited _ _ _ _ Hw). by apply elem_of_dom_2 in Hd. }
  assert (forall d, d ∈ dnodes -> dn_object d ∈ rw_visited w) as Hall.
  { intros d Hd. rewrite Hvis. apply elem_of_dom. exists d. by apply Hm. }
  wp_step. eapply wp_mono; [|apply wp_cut_bonus; [exact Hpok|done|lia| |apply (ri_nodup _ _ _ _ Hw)|]].
  3: { rewrite <- (ri_total _ _ _ _ Hw). lia. }
  2: { eapply Forall_impl; [apply Hw|]. intros [o n] (d & _ & Hn%dnode_max_bonus_Ok). cbn in *. lia. }
  intros [bonuses c] (_ & Hout & Hin). cbn [fst snd] in *. wp_steps. split_and!.
  - apply Forall_forall. intros d Hd. destruct (ri_visited _ _ _ _ Hw _ (Hall d Hd)) as (d' & Hd' & _ & Hv & _).
    rewrite (proj2 (Hm _ _) (conj Hd eq_refl)) in Hd'. by injection Hd' as <-.
  - intros d1 d2 Hd1 Hd2. by eapply (ri_disjoint _ _ _ _ Hw _ _ d1 d2 (Hall _ Hd1) (Hall _ Hd2)); apply Hm.
  - intros d1 d2 Hd1 Hd2 Heq. pose proof (proj2 (Hm _ _) (conj Hd1 eq_refl)) as Hl1.
    rewrite Heq, (proj2 (Hm _ _) (conj Hd2 eq_refl)) in Hl1. by injection Hl1.
  - intros o. destruct (decide (o ∈ (rw_lengths w).*1)) as [Ho|Ho].
    + assert (o ∈ (rw_lengths w).*1) as Ho' by done.
      apply (ri_objects _ _ _ _ Hw) in Ho' as [_ (d & Hd & He)].
      apply list_elem_of_fmap in Ho as ([o' n] & -> & Ho). cbn [fst] in *.
      destruct (Hin _ _ Ho) as (b & -> & Hb & Hbok). exists d.
      pose proof (ri_lengths _ _ _ _ Hw) as Hl. rewrite Forall_forall in Hl.
      destruct (Hl _ Ho) as (d' & Hd' & Hn). cbn [fst snd] in *. rewrite Hd in Hd'. injection Hd' as <-.
      apply Hm in Hd as Hd'. destruct Hd' as [Hd1 Hd2].
      destruct (ri_visited _ _ _ _ Hw _ (Hall d Hd1)) as (d' & Hd' & _ & Hv & _).
      rewrite Hd2, Hd in Hd'. injection Hd' as <-. destruct Hv as (_&_&_&_&_&n'&Hn'&?).
      rewrite Hn' in Hn. injection Hn as ->. rewrite Hb. eauto 10.
    + rewrite Hout by done. rewrite lookup_empty. intros d Hd <-. destruct (encrypted_bonus d) eqn:He; [|done].
      destruct Ho. apply (ri_objects _ _ _ _ Hw). split; [auto|]. exists d. split; [by apply Hm|done].
Qed.

(** ** Pool dnode blocks *)

(** Disjoint regions in ascending order between two offsets. *)
Fixpoint regions_in (lo : Z) (l : list (Z * Z)) (hi : Z) : Prop :=
  match l with
  | [] => lo <= hi
  | (s, n) :: l => lo <= s /\ 0 <= n /\ regions_in (s + n) l hi
  end.

Definition region_bytes (b : list Z) (r : Z * Z) : list Z := ztake r.2 (zdrop r.1 b).
Definition in_region (i : Z) (r : Z * Z) : Prop := r.1 <= i < r.1 + r.2.

Lemma regions_in_snoc lo l mid s n hi :
  regions_in lo l mid -> mid <= s -> 0 <= n -> s + n <= hi -> regions_in lo (l ++ [(s, n)]) hi.
Proof.
  revert lo. induction l as [|[s' n'] l IH]; intros lo; cbn; [lia|]. naive_solver.
Qed.

Lemma regions_in_mono lo l mid hi : regions_in lo l mid -> mid <= hi -> regions_in lo l hi.
Proof. revert lo. induction l as [|[s n] l IH]; intros lo; cbn; [lia|]. naive_solver. Qed.

Lemma regions_in_bound lo l hi : regions_in lo l hi -> lo <= hi.
Proof. revert lo. induction l as [|[s n] l IH]; intros lo; cbn; [done|]. intros (?&?&?%IH). lia. Qed.

Lemma regions_in_sizes lo l hi : regions_in lo l hi -> Forall (fun e => 0 <= e.2) l.
Proof. revert lo. induction l as [|[s n] l IH]; intros lo; cbn; [constructor|]. intros (?&?&?%IH). by constructor. Qed.

Lemma get_spliced (l src : list Z) s i :
  0 <= s -> s + len src <= len l -> ~ (s <= i < s + len src) ->
  get (ztake s l ++ src ++ zdrop (s + len src) l) i = get l i.
Proof.
  intros Hs Hl Hi. unfold get. pose proof (len_nonneg src).
  assert (len (ztake s l ++ src ++ zdrop (s + len src) l) = len l) as -> by len_lia.
  destruct (_ && _) eqn:Hb; [|done]. b2p. unfold ztake, zdrop, len in *.
  destruct (Z.lt_ge_cases i s).
  - rewrite lookup_app_l by (rewrite length_take; lia). by rewrite lookup_take, decide_True by lia.
  - rewrite lookup_app_r by (rewrite length_take; lia). rewrite length_take.
    rewrite lookup_app_r by lia. rewrite lookup_drop. f_equal. lia.
Qed.

Lemma wp_copy_regions plaintext regions lo output cursor :
  bytes_ok plaintext -> bytes_ok output -> len plaintext <= U64_MAX -> 0 <= lo -> 0 <= cursor ->
  regions_in lo regions (len output) ->
  cursor + foldr Z.add 0 regions.*2 <= len plaintext ->
  wp (fold_res (copy_region plaintext) (output, cursor) regions) (fun '(out, c) =>
    len out = len output /\ bytes_ok out /\ ztake lo out = ztake lo output /\
    (forall i, ~ Exists (in_region i) regions -> get out i = get output i) /\
    concat (map (region_bytes out) regions) = ztake (foldr Z.add 0 regions.*2) (zdrop cursor plaintext) /\
    c = cursor + foldr Z.add 0 regions.*2).
Proof.
  intros Hp Ho Hmax Hlo. revert lo output cursor Ho Hlo.
  induction regions as [|[s n] regions IH]; intros lo output cursor Ho Hlo Hc Hr Hsum; cbn [fold_res].
  - apply wp_Ok. cbn. rewrite (ztake_0 0) by lia. split_and!; try done. lia.
  - cbn [fmap list_fmap foldr snd regions_in] in *. destruct Hr as (Hs & Hn & Hr).
    pose proof (regions_in_bound _ _ _ Hr) as Hhi.
    assert (0 <= foldr Z.add 0 regions.*2) as Hrest.
    { apply sum_nonneg. by eapply regions_in_sizes. }
    apply wp_bind. unfold copy_region. apply wp_bind, wp_add; [lia|].
    apply wp_bind, wp_slice; [lia|lia|]. intros dst _ Hdst.
    apply wp_bind, wp_slice; [lia|lia|]. intros src Hsrc Hlsrc.
    apply wp_bind, wp_copy_from_slice; [lia|].
    apply wp_bind, wp_copy_into; [lia|lia|]. intros Hlen. apply wp_Ok.
    set (out1 := ztake s output ++ src ++ zdrop (s + len src) output) in *.
    assert (bytes_ok out1) as Ho1.
    { unfold out1. assert (bytes_ok src) by (rewrite Hsrc; auto with zse). auto 10 with zse. }
    eapply wp_mono; [|apply (IH (s + n)); [done|lia|lia|rewrite Hlen; done|lia]].
    intros [out c] (Hl & Hb & Htake & Hout & Hcat & ->).
    assert (ztake s out1 = ztake s output /\ region_bytes out1 (s, n) = src) as [Ht1 Hr1].
    { unfold out1, region_bytes. cbn [fst snd]. split.
      - rewrite ztake_app, ztake_ztake, Z.min_id, (ztake_0 (s - _)) by len_lia. apply app_nil_r.
      - rewrite zdrop_app_len by len_lia. rewrite ztake_app_len by lia. done. }
    split_and!; [lia|done| | | |lia].
    + transitivity (ztake lo (ztake (s + n) out)); [by rewrite ztake_ztake, Z.min_l by lia|].
      rewrite Htake, ztake_ztake, Z.min_l by lia.
      transitivity (ztake lo (ztake s out1)); [by rewrite ztake_ztake, Z.min_l by lia|].
      rewrite Ht1, ztake_ztake, Z.min_l by lia. done.
    + intros i Hi. rewrite Exists_cons in Hi. rewrite Hout by tauto. unfold out1.
      apply get_spliced; [lia|lia|]. unfold in_region in Hi. cbn [fst snd] in Hi. lia.
    + cbn [map concat]. rewrite Hcat.
      assert (region_bytes out (s, n) = src) as ->.
      { rewrite <- Hr1. unfold region_bytes. cbn [fst snd]. by rewrite !ztake_zdrop_comm, Htake by lia. }
      rewrite Hsrc, Z.add_simpl_l, <- ztake_add by lia. by rewrite zdrop_zdrop by lia.
Qed.

Definition layout_ok (block : list Z) (offset : Z) (ly : dnode_layout) : Prop :=
  fixed 64 (ly_core ly) /\ ly_core ly = ztake 64 (zdrop offset block) /\
  offset + 512 <= ly_end ly /\ ly_end ly <= len block /\ (ly_end ly - offset) mod 512 = 0 /\
  0 <= ly_pointers ly < 256 /\ ly_bonus_start ly = offset + 64 + ly_pointers ly * 128 /\
  ly_bonus_start ly <= ly_bonus_end ly /\
  ly_bonus_end ly = ly_end ly - (if ly_has_spill ly then 128 else 0).

Lemma wp_pool_dnode_layout block offset (P : dnode_layout -> Prop) :
  bytes_ok block -> 0 <= offset ->
  (forall ly, layout_ok block offset ly -> P ly) -> wp (pool_dnode_layout block offset) P.
Proof.
  intros Hb Ho HP. unfold pool_dnode_layout. wp_step. wp_step.
  match goal with Hx : get_range _ _ _ = Some _ |- _ =>
    pose proof (get_range_len _ _ _ _ Hx) as Hcl; apply get_range_Some in Hx as (? & ? & Hcore) end.
  assert (bytes_ok a) by (rewrite Hcore; auto with zse).
  replace (offset + 64 - offset) with 64 in * by lia.
  wp_step. apply wp_index_byte; [done|lia|]. intros extra Hextra. cbv zeta. wp_step. wp_step.
  match goal with Hx : checked_mul _ _ = Some _ |- _ => apply checked_mul_Some in Hx as [_ ->] end.
  wp_step. wp_step.
  match goal with Hx : match checked_add _ _ with _ => _ end = Some _ |- _ =>
    destruct (checked_add _ _) as [e|] eqn:He; [|discriminate Hx];
    apply checked_add_Some in He as [_ ->];
    destruct (Z.leb_spec (offset + (extra + 1) * 512) (len block)); [injection Hx as <-|discriminate Hx] end.
  wp_step. apply wp_index_byte; [done|lia|]. intros pointers Hpointers. wp_step. wp_step.
  match goal with Hx : checked_mul _ _ = Some _ |- _ => apply checked_mul_Some in Hx as [_ ->] end.
  wp_step. wp_step.
  match goal with Hx : checked_add _ _ = Some _ |- _ => apply checked_add_Some in Hx as [_ ->] end.
  wp_step. apply wp_index_byte; [done|lia|]. intros flags _. cbv zeta. wp_step. wp_step.
  match goal with Hx : checked_sub _ _ = Some _ |- _ => apply checked_sub_Some in Hx as [? ->] end.
  wp_steps. b2p. apply HP. unfold layout_ok, is_byte in *. cbn.
  split_and!; try done; try lia. rewrite Z.add_simpl_l. apply Z.mod_mul. lia.
Qed.

Lemma wp_portable_core core (P : list Z -> Prop) :
  fixed 64 core -> (forall c, fixed 64 c -> P c) -> wp (portable_core core) P.
Proof.
  intros [Hl Hb] HP. unfold portable_core. apply wp_bind, wp_index_byte; [done|lia|]. intros f _.
  apply wp_bind, wp_set_index; [lia|]. intros Hl'. apply wp_fill; [lia|lia|]. intros Hl''.
  apply HP. split; [lia|]. pose proof (byte_land4 f).
  assert (bytes_ok (ztake 7 core ++ Z.land f 4 :: zdrop (7 + 1) core)) by auto 10 with zse.
  auto 10 with zse.
Qed.

Lemma portable_prop_u64 w v h : is_u64 w -> is_u64 (portable_prop w v h).
Proof.
  assert (forall x a b, 0 <= a -> 0 <= b -> is_u64 x -> is_u64 (clear x (mask a b))) as Hclear.
  { intros x a b Ha Hb [Hx0 Hx]. rewrite clear_mask by done. unfold is_u64.
    pose proof (Z.pow_pos_nonneg 2 b ltac:(lia) Hb). pose proof (Z.pow_pos_nonneg 2 a ltac:(lia) Ha).
    pose proof (Z.div_pos x (2 ^ b) Hx0 ltac:(lia)). pose proof (Z.mul_div_le x (2 ^ b) ltac:(lia)).
    pose proof (Z.mod_le (x / 2 ^ b) (2 ^ a)). pose proof (Z.mod_pos_bound (x / 2 ^ b) (2 ^ a)). nia. }
  intros Hw. unfold portable_prop.
  repeat case_match; repeat (apply Hclear; [lia|lia|]); first [done|unfold is_u64; lia].
Qed.

Lemma wp_pool_block_pointer_auth raw v (P : list Z -> Prop) :
  bytes_ok raw -> (forall b, bytes_ok b -> len b = (if v =? 0 then 24 else 32) -> P b) ->
  wp (pool_block_pointer_auth raw v) P.
Proof.
  intros Hb HP. unfold pool_block_pointer_auth. wp_step. wp_step. b2p.
  wp_step. apply wp_le_u64; [done|lia|lia|]. intros w Hw.
  apply wp_bind, wp_slice_fixed; [done|lia|lia|]. intros dva _. cbv zeta.
  apply wp_bind, wp_slice_fixed; [done|lia|lia|]. intros ck [Hck Hckb]. apply wp_Ok, HP.
  - repeat case_match; auto 10 with zse.
  - rewrite !len_app, len_le_bytes.
    match goal with Hx : (_ || _) = true |- _ => apply orb_true_iff in Hx as [?|?]; b2p; subst end;
      cbn [Z.eqb]; destruct (_ || all_zero dva && _); rewrite ?len_zrepeat, ?Hck, ?len_nil; cbn; try change (len (@nil Z)) with 0; try change (len (zrepeat 8 0)) with 8; lia.
Qed.

Record pool_inv (block : list Z) (w : pool_walk) : Prop := {
  pi_aad : bytes_ok (pw_aad w);
  pi_offset : 0 <= pw_offset w <= len block;
  pi_aligned : pw_offset w mod 512 = 0;
  pi_regions : regions_in 0 (pw_regions w) (pw_offset w);
  pi_cipher : pw_ciphertext w = concat (map (region_bytes block) (pw_regions w));
  pi_total : len (pw_ciphertext w) = foldr Z.add 0 (pw_regions w).*2;
}.

Section pool.
Context `{CryptoLaws}.

Lemma wp_pool_dnode_step key block w :
  bytes_ok block -> pool_inv block w -> pw_offset w < len block ->
  wp (pool_dnode_step key block w) (fun w' => pool_inv block w' /\ pw_offset w + 512 <= pw_offset w').
Proof.
  intros Hb Hw Hlt. pose proof (pi_offset _ _ Hw) as Ho. unfold pool_dnode_step.
  apply wp_bind, wp_pool_dnode_layout; [done|lia|].
  intros ly (Hcore & _ & Hend & Hlen & Hmod & Hp & Hbs & Hbe & Hbe').
  apply wp_bind, wp_portable_core; [done|]. intros core [_ Hcoreb].
  apply wp_bind. eapply wp_mono; [|apply (wp_map_res _ bytes_ok)].
  2: { intros i Hi%elem_of_seqZ. cbv zeta. apply wp_bind, wp_slice_fixed; [done|lia| |].
       - destruct (ly_has_spill ly); lia.
       - intros raw [_ Hr]. by apply wp_pool_block_pointer_auth. }
  intros paad [Hpaad _]. apply wp_bind, (wp_mono _ bytes_ok).
  2: { apply wp_if; intros _; [|by apply wp_Ok, Forall_nil_2].
       apply wp_bind, wp_sub; [lia|]. apply wp_bind, wp_slice_fixed; [done|lia|lia|].
       intros raw [_ Hr]. by apply wp_pool_block_pointer_auth. }
  intros saad Hsaad. cbv zeta.
  assert (ly_bonus_end ly <= ly_end ly) by (destruct (ly_has_spill ly); lia).
  apply wp_bind, wp_slice; [lia|lia|]. intros bonus Hbonus Hbl.
  destruct Hcore as [Hcl Hcb]. apply wp_bind, wp_slice_fixed; [done|lia|lia|]. intros bl _.
  apply wp_bind, wp_index_byte; [done|lia|]. intros ot _.
  apply wp_bind, wp_index_byte; [done|lia|]. intros bt _.
  assert (bytes_ok (pw_aad w ++ core ++ concat paad ++ saad)) as Haad.
  { pose proof (pi_aad _ _ Hw). assert (bytes_ok (concat paad)) by (by apply Forall_concat). auto 10 with zse. }
  assert (ly_end ly mod 512 = 0) as Hal.
  { replace (ly_end ly) with (pw_offset w + (ly_end ly - pw_offset w)) by lia.
    rewrite Z.add_mod, (pi_aligned _ _ Hw), Hmod by lia. done. }
  assert (bytes_ok bonus) by (rewrite Hbonus; auto with zse).
  pose proof (pi_regions _ _ Hw) as Hr. pose proof (pi_cipher _ _ Hw) as Hc. pose proof (pi_total _ _ Hw) as Ht.
  apply wp_if; intros _; apply wp_Ok; (split; [split|]); cbn; try done; try lia; auto with zse.
  - eapply regions_in_snoc; [done|lia|lia|lia].
  - rewrite map_app, concat_app, <- Hc. cbn. rewrite app_nil_r. f_equal.
    unfold region_bytes. cbn. by rewrite Hbl.
  - rewrite len_app, fmap_app, sum_app, Ht. cbn. lia.
  - eapply regions_in_mono; [done|lia].
Qed.

Lemma wp_pool_dnode_loop fuel key block w :
  bytes_ok block -> len block mod 512 = 0 -> pool_inv block w ->
  len block - pw_offset w <= 512 * Z.of_nat fuel ->
  wp (pool_dnode_loop fuel key block w) (fun w' => pool_inv block w' /\ pw_offset w' = len block).
Proof.
  intros Hb Hm. revert w. induction fuel as [|fuel IH]; intros w Hw Hf; cbn [pool_dnode_loop];
    pose proof (pi_offset _ _ Hw);
    (destruct (Z.ltb_spec (pw_offset w) (len block)); [|apply wp_Ok; split; [done|lia]]); [lia|].
  apply wp_bind. eapply wp_mono; [|by apply wp_pool_dnode_step].
  intros w' [Hw' ?]. apply IH; [done|lia].
Qed.

Lemma wp_pool_dnode_walk key block :
  bytes_ok block -> len block mod 512 = 0 ->
  wp (pool_dnode_walk key block) (fun w => pool_inv block w /\ pw_offset w = len block).
Proof.
  intros Hb Hm. pose proof (len_nonneg block). apply wp_pool_dnode_loop; [done|done| |].
  - split; cbn; try done; lia.
  - cbn. rewrite Z2Nat.id by (apply Z.div_pos; lia). pose proof (Z.div_mod (len block) 512). lia.
Qed.

(** Every dnode is decrypted in place: outside the encrypted bonus regions the
    block is as it was, and the regions hold, in order, the plaintext of what
    they held. *)
Definition pool_decrypted (key : DatasetKey) (salt iv mac block out : list Z) : Prop :=
  exists w, pool_dnode_walk key block = Ok w /\
    regions_in 0 (pw_regions w) (len block) /\ len out = len block /\ bytes_ok out /\
    (forall i, ~ Exists (in_region i) (pw_regions w) -> get out i = get block i) /\
    (concat (map (region_bytes block) (pw_regions w)) = [] /\ out = block \/
     decrypt_block key salt iv mac (pw_aad w) (concat (map (region_bytes block) (pw_regions w))) =
       Ok (concat (map (region_bytes out) (pw_regions w)))).

Lemma wp_decrypt_pool_dnode_block key salt iv mac block :
  bytes_ok block -> len block <= ISIZE_MAX ->
  wp (decrypt_pool_dnode_block key salt iv mac block) (pool_decrypted key salt iv mac block).
Proof.
  unfold ISIZE_MAX. intros Hb Hmax. unfold decrypt_pool_dnode_block. wp_step. b2p. apply wp_bind, safe_wp; [by eapply wp_safe, wp_pool_dnode_walk|].
  intros w Hw. destruct (wp_value _ _ _ (wp_pool_dnode_walk key block Hb ltac:(done)) Hw) as [Hi Hend].
  pose proof (pi_regions _ _ Hi) as Hr. rewrite Hend in Hr. pose proof (pi_cipher _ _ Hi) as Hc.
  apply wp_if; intros Hz; b2p.
  + apply wp_Ok. exists w. apply len_zero_nil in Hz. rewrite <- Hc. split_and!; auto.
  + apply wp_bind, wp_with_context, safe_wp; [by eapply wp_safe, wp_decrypt_block|].
    intros p Hp.
    assert (len p = len (pw_ciphertext w) /\ bytes_ok p) as [Hpl Hpb].
    { revert Hp. apply (wp_value _ (fun p => len p = len (pw_ciphertext w) /\ bytes_ok p)).
      by apply wp_decrypt_block. }
    pose proof (pi_total _ _ Hi) as Ht.
    assert (len p <= len block).
    { rewrite Hpl, Ht. clear - Hr. enough (forall lo l hi, regions_in lo l hi -> foldr Z.add 0 l.*2 <= hi - lo) as Hx.
      { apply Hx in Hr. lia. }
      clear. intros lo l. revert lo. induction l as [|[s n] l IH]; intros lo hi; cbn; [lia|].
      intros (?&?&?%IH). unfold fmap in *. lia. }
    apply wp_bind. eapply wp_mono; [|apply (wp_copy_regions p _ 0); [done|done|lia|lia|lia|done|lia]].
    intros [out c] (Hl & Hob & _ & Hout & Hcat & ->). wp_steps.
    exists w. rewrite <- Hc. split_and!; try done. right. rewrite Hcat, <- Ht, <- Hpl, zdrop_0, ztake_all by lia. done.
Qed.
End pool.
