(* ===== verification/Merkle.v ===== *)
(** Block pointers of encrypted objects. The two implementations of the portable
    dnode fields agree: what [decrypt_pool_dnode_block] extracts from native bytes
    is what [decrypt_dnode_bonuses] builds from replay records. The checksum tree
    over the pointers binds its blocks: two objects of one shape whose root
    pointers agree have the same blocks, or the 16-byte digest has a collision. *)

From S2P Require Import Prelude Bytes Stream StreamFacts Compression NvList Encrypted EncryptedDnode EncryptedFacts.

(** ** Native block pointers *)

(** [blk_prop] with the fields that are not portable: the checksum type and the
    deduplication bit. The embedded bit, 39, is clear. *)
Definition native_word (lf pf c ck t l dd bo : Z) : Z :=
  prop_word lf pf c t l bo + ck * 2 ^ 40 + dd * 2 ^ 62.

(** A 128-byte pointer: block addresses, the property word at 48, the checksum
    words, of which the last two hold the MAC. *)
Definition native_pointer (dva mid tail mac : list Z) (word : Z) : list Z :=
  dva ++ mid ++ le_bytes 8 word ++ tail ++ mac.

Record word_fields (lf pf c ck t l dd bo : Z) : Prop := {
  wf_lf : 0 <= lf <= U16_MAX; wf_pf : 0 <= pf <= U16_MAX; wf_c : 0 <= c <= 0x7f;
  wf_ck : 0 <= ck <= U8_MAX; wf_t : 0 <= t <= U8_MAX; wf_l : 0 <= l <= 0x1f;
  wf_dd : 0 <= dd <= 1; wf_bo : 0 <= bo <= 1;
}.

Lemma clear_field x a f b e w s :
  x = a + f * 2 ^ s + b * 2 ^ e -> e = s + w -> 0 <= s -> 0 <= w -> 0 <= a < 2 ^ s -> 0 <= f < 2 ^ w ->
  clear x (mask w s) = a + b * 2 ^ e.
Proof.
  intros -> -> Hs Hw Ha Hf. rewrite clear_mask by done. rewrite Z.pow_add_r by done.
  replace (a + f * 2 ^ s + b * (2 ^ s * 2 ^ w)) with (a + (f + b * 2 ^ w) * 2 ^ s) by lia.
  rewrite Z.div_add, (Z.div_small a), Z.add_0_l, Z.mod_add, (Z.mod_small f) by lia. lia.
Qed.

Lemma field_value x a f b w s :
  x = a + f * 2 ^ s + b * 2 ^ (s + w) -> 0 <= s -> 0 <= w -> 0 <= a < 2 ^ s -> 0 <= f < 2 ^ w ->
  Z.land (Z.shiftr x s) (Z.ones w) = f.
Proof.
  intros -> Hs Hw Ha Hf. rewrite Z.land_ones, Z.shiftr_div_pow2, Z.pow_add_r by done.
  replace (a + f * 2 ^ s + b * (2 ^ s * 2 ^ w)) with (a + (f + b * 2 ^ w) * 2 ^ s) by lia.
  rewrite Z.div_add, (Z.div_small a), Z.add_0_l, Z.mod_add, (Z.mod_small f) by lia. lia.
Qed.

Lemma native_word_type lf pf c ck t l dd bo :
  word_fields lf pf c ck t l dd bo ->
  Z.land (Z.shiftr (native_word lf pf c ck t l dd bo) 48) 0xff = t.
Proof.
  intros []. change 0xff with (Z.ones 8). unfold native_word, prop_word.
  apply (field_value _ (lf + pf * 2 ^ 16 + c * 2 ^ 32 + ck * 2 ^ 40) t (l + 2 ^ 5 + dd * 2 ^ 6 + bo * 2 ^ 7)); lia.
Qed.

Lemma native_word_level lf pf c ck t l dd bo :
  word_fields lf pf c ck t l dd bo ->
  Z.land (Z.shiftr (native_word lf pf c ck t l dd bo) 56) 0x1f = l.
Proof.
  intros []. change 0x1f with (Z.ones 5). unfold native_word, prop_word.
  apply (field_value _ (lf + pf * 2 ^ 16 + c * 2 ^ 32 + ck * 2 ^ 40 + t * 2 ^ 48) l (1 + dd * 2 + bo * 2 ^ 2)); lia.
Qed.

(** The portable word of a pointer that is not a hole, per version. *)
Definition portable_word (lf pf c t l bo version : Z) : Z :=
  if version =? 0 then prop_word lf 0 c t l bo
  else if l =? 0 then prop_word lf pf c t 0 bo else prop_word lf 0 0 t l 0.

Lemma portable_prop_word lf pf c ck t l dd bo version :
  word_fields lf pf c ck t l dd bo ->
  portable_prop (native_word lf pf c ck t l dd bo) version false = portable_word lf pf c t l bo version.
Proof.
  intros Hf. unfold portable_prop, portable_word. rewrite native_word_level by done.
  destruct Hf. unfold native_word, prop_word.
  destruct (version =? 0); [|destruct (Z.eqb_spec l 0) as [->|Hl]; cbn [negb]].
  - rewrite (clear_field _ (lf + pf * 2 ^ 16 + c * 2 ^ 32 + ck * 2 ^ 40 + t * 2 ^ 48 + l * 2 ^ 56 + 2 ^ 61) dd bo 63 1 62) by lia.
    rewrite (clear_field _ (lf + pf * 2 ^ 16 + c * 2 ^ 32) ck (t + l * 2 ^ 8 + 2 ^ 13 + bo * 2 ^ 15) 48 8 40) by lia.
    rewrite (clear_field _ lf pf (c + t * 2 ^ 16 + l * 2 ^ 24 + 2 ^ 29 + bo * 2 ^ 31) 32 16 16) by lia. lia.
  - rewrite (clear_field _ (lf + pf * 2 ^ 16 + c * 2 ^ 32 + ck * 2 ^ 40 + t * 2 ^ 48 + 2 ^ 61) dd bo 63 1 62) by lia.
    rewrite (clear_field _ (lf + pf * 2 ^ 16 + c * 2 ^ 32) ck (t + 2 ^ 13 + bo * 2 ^ 15) 48 8 40) by lia. lia.
  - rewrite (clear_field _ (lf + pf * 2 ^ 16 + c * 2 ^ 32 + ck * 2 ^ 40 + t * 2 ^ 48 + l * 2 ^ 56 + 2 ^ 61 + dd * 2 ^ 62) bo 0 64 1 63) by lia.
    rewrite (clear_field _ (lf + pf * 2 ^ 16) c (ck * 2 + t * 2 ^ 9 + l * 2 ^ 17 + 2 ^ 22 + dd * 2 ^ 23) 39 7 32) by lia.
    rewrite (clear_field _ lf pf (ck * 2 ^ 8 + t * 2 ^ 16 + l * 2 ^ 24 + 2 ^ 29 + dd * 2 ^ 30) 32 16 16) by lia.
    rewrite (clear_field _ (lf + ck * 2 ^ 40 + t * 2 ^ 48 + l * 2 ^ 56 + 2 ^ 61) dd 0 63 1 62) by lia.
    rewrite (clear_field _ lf ck (t + l * 2 ^ 8 + 2 ^ 13) 48 8 40) by lia. lia.
Qed.

(** What the pool path authenticates of a native pointer. *)
Lemma pool_auth_native dva mid tail mac lf pf c ck t l dd bo version :
  fixed 16 dva -> all_zero dva = false -> fixed 32 mid -> fixed 56 tail -> fixed 16 mac ->
  word_fields lf pf c ck t l dd bo -> t <> 11 -> version = 0 \/ version = 1 ->
  pool_block_pointer_auth (native_pointer dva mid tail mac (native_word lf pf c ck t l dd bo)) version
  = encode {| prop := portable_word lf pf c t l bo version; mac := mac |} version.
Proof.
  intros [Hdva _] Hnz [Hmid _] [Htail _] [Hmac _] Hf Ht Hv.
  set (word := native_word lf pf c ck t l dd bo).
  assert (is_u64 word) as Hword by (destruct Hf; unfold word, native_word, prop_word; u64).
  unfold pool_block_pointer_auth, native_pointer.
  assert (len (dva ++ mid ++ le_bytes 8 word ++ tail ++ mac) = 128) as -> by (autorewrite with len; lia).
  cbn [Z.eqb Pos.eqb negb].
  assert ((version =? 0) || (version =? 1) = true) as -> by (destruct Hv as [-> | ->]; done).
  cbn [negb]. unfold le_u64, slice.
  assert (get_range (dva ++ mid ++ le_bytes 8 word ++ tail ++ mac) 48 (48 + 8) = Some (le_bytes 8 word)) as ->.
  { rewrite app_assoc. apply get_range_app; autorewrite with len; lia. }
  cbn [expect bind]. rewrite le_val_u64_roundtrip by done.
  assert (get_range (dva ++ mid ++ le_bytes 8 word ++ tail ++ mac) 0 16 = Some dva) as ->.
  { apply (get_range_app [] dva); autorewrite with len; lia. }
  cbn [expect bind]. rewrite Hnz. cbn [andb].
  assert (get_range (dva ++ mid ++ le_bytes 8 word ++ tail ++ mac) 112 128 = Some mac) as ->.
  { pose proof (get_range_app (dva ++ mid ++ le_bytes 8 word ++ tail) mac [] 112 128) as Hg.
    rewrite app_nil_r, <- !app_assoc in Hg. apply Hg; autorewrite with len; lia. }
  cbn [expect bind]. unfold word. rewrite native_word_type, portable_prop_word by done.
  rewrite (proj2 (Z.eqb_neq t 11)) by done. cbn [orb]. rewrite encode_eq by done.
  assert ((version =? 0) || (version =? 1) = true) as -> by (destruct Hv as [-> | ->]; done). done.
Qed.

(** ** Native dnode cores *)

(** The core as it lies on disk: other flag bits, the used-bytes counter. *)
Definition native_core (d : RawDnode) (flags : Z) (used : list Z) : list Z :=
  [dn_object_type d; dn_indirect_block_shift d; dn_levels d; dn_block_pointers d; dn_bonus_type d;
   dn_checksum_type d; dn_compression d; flags] ++
  le_bytes 2 (dn_block_size d / 512) ++ le_bytes 2 (dn_bonus_length d) ++
  [dn_slots d - 1; 0; 0; 0] ++ le_bytes 8 (dn_max_block_id d) ++ used ++ zrepeat 32 0.

Lemma portable_core_native d flags used :
  len used = 8 -> Z.land flags 4 = Z.land (dn_flags d) 4 ->
  portable_core (native_core d flags used) = Ok (core_bytes d).
Proof.
  intros Hu Hf. unfold native_core, core_bytes, portable_core.
  rewrite <- Hf. unfold len in Hu.
  do 8 (destruct used as [|? used]; [exfalso; cbn in Hu; lia|]).
  destruct used as [|? used]; [clear Hu|exfalso; cbn in Hu; lia]. reflexivity.
Qed.

(** ** Fields of a property word *)

Lemma prop_word_inj lf pf c t l b lf' pf' c' t' l' b' :
  0 <= lf <= U16_MAX -> 0 <= pf <= U16_MAX -> 0 <= c <= 0x7f -> 0 <= t <= U8_MAX -> 0 <= l <= 0x1f -> 0 <= b <= 1 ->
  0 <= lf' <= U16_MAX -> 0 <= pf' <= U16_MAX -> 0 <= c' <= 0x7f -> 0 <= t' <= U8_MAX -> 0 <= l' <= 0x1f -> 0 <= b' <= 1 ->
  prop_word lf pf c t l b = prop_word lf' pf' c' t' l' b' ->
  lf = lf' /\ pf = pf' /\ c = c' /\ t = t' /\ l = l' /\ b = b'.
Proof. unfold prop_word. lia. Qed.

(** What the property word of a leaf says of its block. *)
Definition same_block (v : Z) (b1 b2 : RawBlockPointer) : Prop :=
  bp_block_id b1 = bp_block_id b2 /\ bp_mac b1 = bp_mac b2 /\
  bp_logical_size b1 = bp_logical_size b2 /\ bp_compression b1 = bp_compression b2 /\
  bp_object_type b1 = bp_object_type b2 /\
  (v <> 0 -> bp_physical_size b1 = bp_physical_size b2).

Lemma leaf_prop_inj v b1 b2 w :
  bp_ok b1 -> bp_ok b2 -> leaf_prop b1 v = Ok w -> leaf_prop b2 v = Ok w ->
  bp_block_id b1 = bp_block_id b2 -> bp_mac b1 = bp_mac b2 -> same_block v b1 b2.
Proof.
  unfold bp_ok, is_byte. intros Hb1 Hb2.
  intros (l1 & p1 & Hl1 & ? & Hp1 & ? & ? & ? & ? & ? & ->)%block_prop_Ok; [|u64..].
  intros (l2 & p2 & Hl2 & ? & Hp2 & ? & ? & ? & ? & ? & Hw)%block_prop_Ok; [|u64..].
  intros Hid Hmac. apply prop_word_inj in Hw as (-> & -> & Hc & Ht & _); [|u64..].
  unfold same_block. split_and!; try done; [congruence|].
  intros Hv. apply Z.eqb_neq in Hv. rewrite Hv in *. congruence.
Qed.

(** ** The leaf array *)

Definition auth_of (v : Z) (b : RawBlockPointer) (p : BlockPointerAuth) : Prop :=
  leaf_prop b v = Ok (prop p) /\ mac p = bp_mac b.

Lemma get_set_index {A} (l : list A) i v l' j :
  set_index (E:=error) l i v = Ok l' -> get l' j = if decide (j = i) then Some v else get l j.
Proof.
  unfold set_index. destruct (_ && _) eqn:Hb; [|done]. b2p. intros [= <-].
  assert (len (ztake i l ++ v :: zdrop (i + 1) l) = len l) as Hlen by len_lia.
  unfold get. rewrite Hlen. unfold ztake, zdrop, len in *.
  destruct (decide (j = i)) as [->|Hne].
  - rewrite (proj2 (Z.leb_le _ _)), (proj2 (Z.ltb_lt _ _)) by lia. cbn [andb].
    rewrite lookup_app_r by (rewrite length_take; lia). rewrite length_take.
    by replace (Z.to_nat i - _)%nat with O by lia.
  - destruct (_ && _) eqn:Hj; [|done]. b2p. destruct (Z.lt_ge_cases j i).
    + rewrite lookup_app_l by (rewrite length_take; lia). by rewrite lookup_take, decide_True by lia.
    + rewrite lookup_app_r by (rewrite length_take; lia). rewrite length_take.
      replace (Z.to_nat j - _)%nat with (S (Z.to_nat j - Z.to_nat i - 1)) by lia.
      transitivity (drop (Z.to_nat (i + 1)) l !! (Z.to_nat j - Z.to_nat i - 1)%nat); [done|].
      rewrite lookup_drop. f_equal. lia.
Qed.

Lemma leaf_level_fold object v blocks : forall l0 l,
  Forall bp_ok blocks ->
  fold_res (fun level block =>
      let! block_id := ok_or (usize_try_from (bp_block_id block)) (Msg "block ID is too large" []) in
      fail! len level <=? block_id
        with Msg "object {} WRITE is past its max block ID" [object] in
      let! slot := index level block_id in
      fail! negb (prop slot =? 0)
        with Msg "object {} has duplicate raw WRITE blocks" [object] in
      let! p := leaf_prop block v in
      set_index level block_id {| prop := p; mac := bp_mac block |}) l0 blocks = Ok l ->
  (forall i p, get l0 i = Some p -> prop p <> 0 -> forall b, b ∈ blocks -> bp_block_id b <> i) /\
  (forall i, (forall b, b ∈ blocks -> bp_block_id b <> i) -> get l i = get l0 i) /\
  (forall b, b ∈ blocks -> exists p, get l (bp_block_id b) = Some p /\ auth_of v b p).
Proof.
  induction blocks as [|b blocks IH]; intros l0 l Hok Hf; cbn [fold_res] in Hf.
  - injection Hf as <-. split_and!; [set_solver|done|set_solver].
  - inversion Hok as [|? ? Hb Hok']; subst. apply bind_Ok in Hf as (l1 & Hstep & Hf).
    destruct (IH _ _ Hok' Hf) as (IH1 & IH2 & IH3). clear IH.
    apply bind_Ok in Hstep as (id & Hid & Hstep). apply ok_or_Ok in Hid.
    apply usize_try_from_Some in Hid as ->.
    destruct (len l0 <=? _) eqn:Hlt; [done|]. apply bind_Ok in Hstep as (slot & Hslot & Hstep).
    apply index_Ok in Hslot. destruct (negb _) eqn:Hz; [done|]. b2p.
    apply bind_Ok in Hstep as (w & Hw & Hset). pose proof (get_set_index _ _ _ _ (bp_block_id b) Hset) as Hnew.
    rewrite decide_True in Hnew by done.
    assert (w <> 0) as Hw0.
    { pose proof (wp_value _ _ _ (wp_leaf_prop b v (fun w => 2 ^ 61 <= w) Hb ltac:(auto)) Hw) as Hge; cbn beta in Hge; try change (prop HOLE) with 0 in Hge; lia. }
    pose proof (IH1 _ _ Hnew Hw0) as Hfresh. split_and!.
    + intros i p Hp Hp0 b' [->|Hin]%elem_of_cons.
      * intros <-. congruence.
      * destruct (decide (bp_block_id b = i)) as [<-|Hne]; [by apply Hfresh|].
        apply (IH1 i p); [|done|done]. rewrite (get_set_index _ _ _ _ i Hset). by rewrite decide_False.
    + intros i Hi. rewrite IH2 by set_solver. rewrite (get_set_index _ _ _ _ i Hset).
      rewrite decide_False; [done|]. intros ->. by apply (Hi b); [set_solver|].
    + intros b' [->|Hin]%elem_of_cons; [|by apply IH3]. rewrite IH2 by done. rewrite Hnew.
      eexists. split; [done|]. by split.
Qed.

Lemma get_zrepeat {A} (a : A) n i p : get (zrepeat n a) i = Some p -> p = a.
Proof. intros [_ H]%get_Some_lookup. unfold zrepeat in H. by apply lookup_replicate in H as [-> _]. Qed.

(** Two dnodes with one leaf array have the same blocks. *)
Lemma leaf_level_blocks d1 d2 v n l b1 :
  dnode_ok d1 -> dnode_ok d2 ->
  leaf_level d1 v n = Ok l -> leaf_level d2 v n = Ok l -> b1 ∈ dn_blocks d1 ->
  exists b2, b2 ∈ dn_blocks d2 /\ same_block v b1 b2.
Proof.
  intros Hd1 Hd2 H1 H2 Hb1.
  assert (Forall bp_ok (dn_blocks d1)) as Hok1 by apply (dnode_ok_parts _ Hd1).
  assert (Forall bp_ok (dn_blocks d2)) as Hok2 by apply (dnode_ok_parts _ Hd2).
  destruct (leaf_level_fold _ _ _ _ _ Hok1 H1) as (_ & _ & Hin1).
  destruct (leaf_level_fold _ _ _ _ _ Hok2 H2) as (_ & Hout2 & Hin2).
  destruct (Hin1 _ Hb1) as (p & Hp & Hauth & Hmac).
  destruct (decide (Exists (fun b => bp_block_id b = bp_block_id b1) (dn_blocks d2))) as [He|He].
  - apply Exists_exists in He as (b2 & Hb2 & Hid). destruct (Hin2 _ Hb2) as (p2 & Hp2 & Hauth2 & Hmac2).
    rewrite Hid, Hp in Hp2. injection Hp2 as <-. exists b2. split; [done|].
    rewrite Forall_forall in Hok1, Hok2. apply (leaf_prop_inj v b1 b2 (prop p)); auto. congruence.
  - rewrite Hout2 in Hp by (intros b Hb Hid; apply He, Exists_exists; eauto).
    apply get_zrepeat in Hp as ->. rewrite Forall_forall in Hok1.
    pose proof (wp_value _ _ _ (wp_leaf_prop b1 v (fun w => 2 ^ 61 <= w) (Hok1 _ Hb1) ltac:(auto)) Hauth) as Hge; cbn beta in Hge; try change (prop HOLE) with 0 in Hge; lia.
Qed.

(** ** One level of the tree *)

Section tree.
Context `{CryptoLaws}.

(** What is digested for one parent, for a level, and for the whole tree above the
    leaves of an object: the inputs of SHA-512, of each of which the first 16
    bytes of the digest are kept. *)
Definition parent_input (v epb : Z) (children : list BlockPointerAuth) : list (list Z) :=
  if forallb is_hole children then []
  else match map_res (fun child => encode child v) children, map_res (fun _ => encode HOLE v) (seqZ (len children) (epb - len children)) with
       | Ok encoded, Ok holes => [concat encoded ++ concat holes]
       | _, _ => []
       end.

Definition level_inputs (v epb : Z) (level : list BlockPointerAuth) : list (list Z) :=
  concat (map (parent_input v epb) (chunks epb level)).

Fixpoint tree_inputs (d : RawDnode) (v epb : Z) (level : list BlockPointerAuth) (tls : list Z) : list (list Z) :=
  match tls with
  | [] => []
  | tl :: tls => level_inputs v epb level ++
      match parent_level d v epb level tl with Ok parents => tree_inputs d v epb parents tls | _ => [] end
  end.

Definition digest_inputs (d : RawDnode) (v : Z) : list (list Z) :=
  match leaf_level d v (dn_max_block_id d + 1) with
  | Ok leaves => tree_inputs d v (Z.shiftl 1 (dn_indirect_block_shift d - 7)) leaves (seqZ 1 (dn_levels d - 1))
  | _ => []
  end.

(** Two different inputs, one of each list, with one truncated digest. *)
Definition collides (inputs1 inputs2 : list (list Z)) : Prop :=
  exists x y, x ∈ inputs1 /\ y ∈ inputs2 /\ x <> y /\ ztake 16 (sha512 x) = ztake 16 (sha512 y).

Lemma collides_mono l1 l2 k1 k2 : l1 ⊆ k1 -> l2 ⊆ k2 -> collides l1 l2 -> collides k1 k2.
Proof. intros H1 H2 (x & y & Hx & Hy & Hc). exists x, y. auto. Qed.

Lemma is_hole_eq p : is_hole p = true -> p = HOLE.
Proof.
  unfold is_hole. intros [Hp Hm]%andb_true_iff. apply Z.eqb_eq in Hp. apply bytes_eqb_eq in Hm.
  destruct p. cbn in *. by subst.
Qed.

Lemma encode_Ok p v b : auth_ok p -> encode p v = Ok b -> b = encoding p v.
Proof.
  intros [_ [Hm _]]. rewrite encode_eq by done. case_match; [|done]. by intros [= <-].
Qed.

Lemma encoding_len p v : auth_ok p -> len (encoding p v) = 24 + (if v =? 1 then 8 else 0).
Proof.
  intros [_ [Hm _]]. unfold encoding. rewrite !len_app, len_le_bytes, Hm. case_match; reflexivity.
Qed.

(** Encoded children determine the children. *)
Lemma encoded_inj v c1 c2 : forall e1 e2,
  Forall auth_ok c1 -> Forall auth_ok c2 -> length c1 = length c2 ->
  map_res (fun child => encode child v) c1 = Ok e1 -> map_res (fun child => encode child v) c2 = Ok e2 ->
  (concat e1 = concat e2 -> c1 = c2) /\ len (concat e1) = len (concat e2).
Proof.
  revert c2. induction c1 as [|p1 c1 IH]; intros [|p2 c2] e1 e2 Ha1 Ha2 Hl; try done.
  - cbn. intros [= <-] [= <-]. done.
  - inversion Ha1 as [|? ? Hp1 Ha1']; inversion Ha2 as [|? ? Hp2 Ha2']; subst. cbn [map_res].
    intros (b1 & Hb1 & (bs1 & Hbs1 & [= <-])%bind_Ok)%bind_Ok (b2 & Hb2 & (bs2 & Hbs2 & [= <-])%bind_Ok)%bind_Ok.
    apply encode_Ok in Hb1 as ->; [|done]. apply encode_Ok in Hb2 as ->; [|done].
    destruct (IH c2 bs1 bs2 Ha1' Ha2' ltac:(cbn in Hl; lia) Hbs1 Hbs2) as [IHc IHl]. cbn [concat].
    rewrite !len_app, IHl, !encoding_len by done. split; [|done].
    intros Heq. apply app_inj_1 in Heq as [He Heq].
    + apply encoding_inj in He; [|done..]. by rewrite He, IHc.
    + pose proof (encoding_len p1 v Hp1). pose proof (encoding_len p2 v Hp2). unfold len in *. lia.
Qed.

Lemma parent_pointer_inj d1 d2 v epb tl c1 c2 p :
  dnode_ok d1 -> dnode_ok d2 -> 0 <= tl -> Forall auth_ok c1 -> Forall auth_ok c2 -> length c1 = length c2 ->
  parent_pointer d1 v epb tl c1 = Ok p -> parent_pointer d2 v epb tl c2 = Ok p ->
  c1 = c2 \/ collides (parent_input v epb c1) (parent_input v epb c2).
Proof.
  intros Hd1 Hd2 Htl Ha1 Ha2 Hl. unfold parent_pointer.
  assert (forall d (c : list Z) w, dnode_ok d -> indirect_prop d tl = Ok w -> w <> 0) as Hnz.
  { intros d _ w Hd Hw.
    pose proof (wp_value _ _ _ (wp_indirect_prop d tl (fun w => 2 ^ 61 <= w) Hd Htl ltac:(auto)) Hw) as Hge; cbn beta in Hge; try change (prop HOLE) with 0 in Hge; lia. }
  assert (forall c, forallb is_hole c = true -> c = replicate (length c) HOLE) as Hhole.
  { induction c as [|q c IH]; [done|]. cbn [forallb length replicate]. intros [->%is_hole_eq Hc]%andb_true_iff.
    by rewrite <- IH. }
  destruct (forallb is_hole c1) eqn:H1, (forallb is_hole c2) eqn:H2.
  - intros _ _. left. rewrite (Hhole c1), (Hhole c2), Hl by done. done.
  - intros [= <-] (e & _ & (h & _ & (m & _ & (w & Hw & [= Hz _])%bind_Ok)%bind_Ok)%bind_Ok)%bind_Ok.
    exfalso. by apply (Hnz d2 [] w).
  - intros (e & _ & (h & _ & (m & _ & (w & Hw & Hp)%bind_Ok)%bind_Ok)%bind_Ok)%bind_Ok [= <-].
    injection Hp as Hz _. exfalso. by apply (Hnz d1 [] w).
  - intros Hp1 Hp2.
    apply bind_Ok in Hp1 as (e1 & He1 & (h1 & Hh1 & (m1 & Hm1 & (w1 & _ & [= <-])%bind_Ok)%bind_Ok)%bind_Ok).
    apply bind_Ok in Hp2 as (e2 & He2 & (h2 & Hh2 & (m2 & Hm2 & (w2 & _ & Hp2)%bind_Ok)%bind_Ok)%bind_Ok).
    injection Hp2 as Hw ->. apply slice_Ok in Hm1 as (_ & _ & Hm1). apply slice_Ok in Hm2 as (_ & _ & Hm2).
    rewrite Z.sub_0_r, zdrop_0 in Hm1, Hm2 by lia.
    assert (len c1 = len c2) as Hlen by (unfold len; lia). rewrite Hlen, Hh2 in Hh1. injection Hh1 as <-.
    destruct (encoded_inj v c1 c2 e1 e2 Ha1 Ha2 Hl He1 He2) as [Hinj Hle].
    destruct (decide (concat e1 ++ concat h2 = concat e2 ++ concat h2)) as [Heq|Hne].
    + left. apply Hinj. by apply app_inv_tail in Heq.
    + right. exists (concat e1 ++ concat h2), (concat e2 ++ concat h2). unfold parent_input.
      rewrite H1, H2, He1, He2, Hlen, Hh2. split; [set_solver|]. split; [set_solver|]. split; [done|congruence].
Qed.

Lemma parent_level_inj d1 d2 v epb tl l1 l2 ps :
  dnode_ok d1 -> dnode_ok d2 -> 0 <= tl -> 0 < epb -> Forall auth_ok l1 -> Forall auth_ok l2 ->
  length l1 = length l2 ->
  parent_level d1 v epb l1 tl = Ok ps -> parent_level d2 v epb l2 tl = Ok ps ->
  l1 = l2 \/ collides (level_inputs v epb l1) (level_inputs v epb l2).
Proof.
  intros Hd1 Hd2 Htl He. unfold parent_level, level_inputs, chunks. intros Ha1 Ha2 Hl. rewrite <- Hl.
  generalize (Nat.le_refl (length l1)). generalize (length l1) at 2 3 4 5 6. intros k. revert l1 l2 ps Ha1 Ha2 Hl.
  induction k as [|k IH]; intros [|p1 l1] [|p2 l2] ps Ha1 Ha2 Hl Hk; try done; try (cbn in Hk; lia); [auto..|].
  cbn [chunks_fuel map_res].
  intros (q1 & Hq1 & (qs1 & Hqs1 & [= <-])%bind_Ok)%bind_Ok (q2 & Hq2 & (qs2 & Hqs2 & Hq)%bind_Ok)%bind_Ok.
  injection Hq as -> ->.
  assert (length (zdrop epb (p1 :: l1)) <= k)%nat by (unfold zdrop; rewrite length_drop; cbn [length] in *; lia).
  destruct (parent_pointer_inj d1 d2 v epb tl (ztake epb (p1 :: l1)) (ztake epb (p2 :: l2)) q1) as [Ht|Hc];
    auto with zse; [unfold ztake; rewrite !length_take; lia| |right; eapply collides_mono; [..|exact Hc]; cbn [map concat]; set_solver].
  destruct (IH (zdrop epb (p1 :: l1)) (zdrop epb (p2 :: l2)) qs1) as [Hd|Hc];
    auto with zse; [unfold zdrop; rewrite !length_drop; lia| |right; eapply collides_mono; [..|exact Hc]; cbn [map concat]; set_solver].
  left. by rewrite <- (ztake_zdrop epb (p1 :: l1)), Ht, Hd, ztake_zdrop.
Qed.

Lemma chunks_length {A B} n (l1 : list A) (l2 : list B) :
  length l1 = length l2 -> length (chunks n l1) = length (chunks n l2).
Proof.
  unfold chunks. intros Hl. rewrite Hl. generalize (length l2) at 1 2. intros k. revert l1 l2 Hl.
  induction k as [|k IH]; intros [|a l1] [|b l2] Hl; try done.
  cbn [chunks_fuel length]. f_equal. apply IH. unfold zdrop. rewrite !length_drop. by rewrite Hl.
Qed.

Lemma levels_length d1 d2 v epb tls : forall l1 l2 t1 t2,
  length l1 = length l2 ->
  fold_res (parent_level d1 v epb) l1 tls = Ok t1 -> fold_res (parent_level d2 v epb) l2 tls = Ok t2 ->
  length t1 = length t2.
Proof.
  induction tls as [|tl tls IH]; intros l1 l2 t1 t2 Hl; cbn [fold_res].
  - intros [= <-] [= <-]. done.
  - intros (m1 & Hm1 & Hf1)%bind_Ok (m2 & Hm2 & Hf2)%bind_Ok. apply (IH m1 m2); [|done..].
    rewrite <- (Forall2_length _ _ _ (proj1 (map_res_Ok _ _ _) Hm1)).
    rewrite <- (Forall2_length _ _ _ (proj1 (map_res_Ok _ _ _) Hm2)). by apply chunks_length.
Qed.

Lemma resize_inj {A} (l1 l2 : list A) n a :
  length l1 = length l2 -> len l1 <= n -> resize l1 n a = resize l2 n a -> l1 = l2.
Proof.
  intros Hl Hn. assert (len l1 = len l2) as Hll by (unfold len; lia). unfold resize. rewrite Hll.
  case_match; b2p.
  - by rewrite !ztake_all by lia.
  - intros Heq. by apply app_inj_1 in Heq as [? _].
Qed.

Lemma levels_inj d1 d2 v epb tls : forall l1 l2 top,
  dnode_ok d1 -> dnode_ok d2 -> Forall (Z.le 0) tls -> 0 < epb -> Forall auth_ok l1 -> Forall auth_ok l2 ->
  length l1 = length l2 ->
  fold_res (parent_level d1 v epb) l1 tls = Ok top -> fold_res (parent_level d2 v epb) l2 tls = Ok top ->
  l1 = l2 \/ collides (tree_inputs d1 v epb l1 tls) (tree_inputs d2 v epb l2 tls).
Proof.
  induction tls as [|tl tls IH]; intros l1 l2 top Hd1 Hd2 Htls He Ha1 Ha2 Hl; cbn [fold_res].
  - intros [= <-] [= <-]. by left.
  - inversion Htls; subst. intros (m1 & Hm1 & Hf1)%bind_Ok (m2 & Hm2 & Hf2)%bind_Ok.
    assert (length m1 = length m2) as Hml.
    { apply (levels_length d1 d2 v epb [tl] l1 l2); [done|cbn [fold_res]; by rewrite ?Hm1, ?Hm2..]. }
    cbn [tree_inputs]. rewrite Hm1, Hm2. destruct (IH m1 m2 top) as [->|Hc]; auto.
    + by eapply (wp_value _ _ _ (wp_parent_level d1 v epb l1 tl _ _ _ _)).
    + by eapply (wp_value _ _ _ (wp_parent_level d2 v epb l2 tl _ _ _ _)).
    + destruct (parent_level_inj d1 d2 v epb tl l1 l2 m2) as [|Hc]; [done..|by left|]. right. eapply collides_mono; [..|exact Hc]; set_solver.
    + right. eapply collides_mono; [..|exact Hc]; set_solver.
  Unshelve. all: done.
Qed.

(** The two dnodes describe trees of one shape. *)
Definition same_shape (d1 d2 : RawDnode) : Prop :=
  dn_max_block_id d1 = dn_max_block_id d2 /\ dn_levels d1 = dn_levels d2 /\
  dn_indirect_block_shift d1 = dn_indirect_block_shift d2.

Lemma root_block_pointers_Ok d v roots :
  dnode_ok d -> root_block_pointers d v = Ok roots ->
  9 <= dn_indirect_block_shift d /\ exists leaf top,
    leaf_level d v (dn_max_block_id d + 1) = Ok leaf /\ Forall auth_ok leaf /\
    len leaf = dn_max_block_id d + 1 /\
    fold_res (parent_level d v (Z.shiftl 1 (dn_indirect_block_shift d - 7))) leaf
      (seqZ 1 (dn_levels d - 1)) = Ok top /\
    len top <= dn_block_pointers d /\ roots = resize top (dn_block_pointers d) HOLE.
Proof.
  intros Hd. unfold root_block_pointers. destruct (_ || _) eqn:Hs; [done|]. b2p. cbv zeta.
  intros (m & Hm%ok_or_Ok%usize_try_from_Some & Hr)%bind_Ok. subst m.
  apply bind_Ok in Hr as (n & [_ ->]%ok_or_Ok%checked_add_Some & Hr).
  destruct (_ <? _) eqn:Hn; [done|].
  apply bind_Ok in Hr as (leaf & Hleaf & (top & Htop & Hr)%bind_Ok).
  destruct (dn_block_pointers d <? len top) eqn:Ht; [done|]. injection Hr as <-. b2p.
  split; [done|]. exists leaf, top.
  assert (0 <= dn_max_block_id d + 1) by (unfold dnode_ok in Hd; u64).
  destruct (wp_value _ _ _ (wp_leaf_level d v _ Hd ltac:(done)) Hleaf). split_and!; done.
Qed.

Lemma roots_bind_blocks d1 d2 v roots b1 :
  dnode_ok d1 -> dnode_ok d2 -> same_shape d1 d2 ->
  root_block_pointers d1 v = Ok roots -> root_block_pointers d2 v = Ok roots ->
  b1 ∈ dn_blocks d1 ->
  (exists b2, b2 ∈ dn_blocks d2 /\ same_block v b1 b2) \/ collides (digest_inputs d1 v) (digest_inputs d2 v).
Proof.
  intros Hd1 Hd2 (Hmax & Hlev & Hsh) H1 H2 Hb1.
  destruct (root_block_pointers_Ok _ _ _ Hd1 H1) as (Hs & leaf1 & top1 & Hl1 & Ha1 & Hn1 & Hf1 & Ht1 & Hr1).
  destruct (root_block_pointers_Ok _ _ _ Hd2 H2) as (_ & leaf2 & top2 & Hl2 & Ha2 & Hn2 & Hf2 & Ht2 & Hr2).
  rewrite <- Hmax, <- ?Hlev, <- ?Hsh in *.
  assert (length leaf1 = length leaf2) as Hlen by (unfold len in *; lia).
  pose proof (levels_length _ _ _ _ _ _ _ _ _ Hlen Hf1 Hf2) as Htl.
  assert (0 <= dn_block_pointers d1 /\ 0 <= dn_block_pointers d2) as [? ?] by (unfold dnode_ok, is_byte in *; lia).
  assert (dn_block_pointers d1 = dn_block_pointers d2) as Hbp.
  { rewrite <- (len_resize top1 (dn_block_pointers d1) HOLE), <- Hr1, Hr2, len_resize by done. done. }
  assert (top1 = top2) as <-.
  { apply (resize_inj top1 top2 (dn_block_pointers d1) HOLE); [done|done|]. rewrite <- Hr1. by rewrite Hbp. }
  pose proof (Z.pow_pos_nonneg 2 (dn_indirect_block_shift d1 - 7) ltac:(lia) ltac:(lia)).
  assert (Forall (Z.le 0) (seqZ 1 (dn_levels d1 - 1))) as Htls.
  { apply Forall_forall. intros x Hx%elem_of_seqZ. lia. }
  unfold digest_inputs. rewrite <- Hmax, <- Hlev, <- Hsh, Hl1, Hl2.
  match goal with |- _ \/ ?c => assert (leaf1 = leaf2 \/ c) as [Hleaf|?] end.
  { eapply (levels_inj d1 d2 v); [done|done|exact Htls| |exact Ha1|exact Ha2|exact Hlen|exact Hf1|exact Hf2].
    by rewrite Z.shiftl_1_l. }
  - left. rewrite <- Hleaf in Hl2. exact (leaf_level_blocks d1 d2 v _ _ b1 Hd1 Hd2 Hl1 Hl2 Hb1).
  - by right.
Qed.
End tree.
