(* ===== verification/EncryptedProps.v ===== *)
(** The properties of key handling and dnode authentication
    (src/src/encrypted.rs), each with a concrete instance where it has
    hypotheses. *)

From S2P Require Import Prelude Bytes Utf8 Stream StreamFacts Compression NvList NvWriter Encrypted.
From S2P Require Import EncryptedDnode EncryptedFacts DnodeWalks Merkle.

(** ** Concrete cryptography for the witnesses: the cipher is the identity, its
    tag a checksum of everything that goes in. *)

Definition toy_tag (k n aad buffer : list Z) : list Z :=
  le_bytes 16 (le_val (k ++ n ++ aad ++ buffer) + len buffer).
Definition all_bytes (l : list Z) : bool := forallb (fun b => (0 <=? b) && (b <? 256)) l.

#[export] Instance toy_crypto : Crypto := {
  aead_decrypt _ k n aad buffer tag :=
    if bytes_eqb tag (toy_tag k n aad buffer) && all_bytes buffer then Some buffer else None;
  hkdf_sha512_expand ikm info n := if 0 <=? n then Some (zrepeat n 7) else None;
  hmac_sha512 k d := le_bytes 64 (le_val k + le_val d);
  pbkdf2_hmac_sha1 p s i n := le_bytes (Z.to_nat n) (le_val p + i);
  sha512 d := le_bytes 64 (le_val d + len d);
}.

#[export] Instance toy_crypto_laws : CryptoLaws.
Proof.
  split.
  - intros a k n aad buffer tag out H. cbn -[all_bytes toy_tag] in H.
    destruct (_ && all_bytes buffer) eqn:Hb; [|done]. injection H as <-. b2p. split; [done|by apply bytes_ok_dec].
  - intros ikm info n out H. cbn in H. destruct (Z.leb_spec 0 n); [|done]. injection H as <-.
    rewrite len_zrepeat. split; [lia|]. by apply Forall_zrepeat.
  - intros k d. cbn -[le_bytes]. rewrite len_le_bytes. auto with zse.
  - intros p s i n Hn. cbn -[le_bytes]. rewrite len_le_bytes. split; [lia|auto with zse].
  - intros d. cbn -[le_bytes]. rewrite len_le_bytes. auto with zse.
Qed.

#[export] Instance toy_seal : AeadSeal.
Proof.
  refine {| aead_encrypt a k n aad plain := (plain, toy_tag k n aad plain) |}.
  intros a k n aad plain c tag _ Hb [= <- <-]. cbn -[all_bytes toy_tag].
  rewrite bytes_eqb_refl. assert (all_bytes plain = true) as ->; [|done].
  apply forallb_forall. intros b Hin. rewrite Forall_forall in Hb.
  apply list_elem_of_In, Hb in Hin. unfold is_byte in Hin.
  apply andb_true_iff. rewrite Z.leb_le, Z.ltb_lt. lia.
Defined.

(** ** The BEGIN payload *)

(** The nvlist a sender puts in the BEGIN record. *)
Definition crypto_entries (p : EncryptionParams) : NvMap := [
  (bytes_of_string "DSL_CRYPTO_SUITE", Uint64 (suite p));
  (bytes_of_string "DSL_CRYPTO_GUID", Uint64 (guid p));
  (bytes_of_string "DSL_CRYPTO_VERSION", Uint64 (version p));
  (bytes_of_string "DSL_CRYPTO_MASTER_KEY_1", Bytes_ (wrapped_master_key p));
  (bytes_of_string "DSL_CRYPTO_HMAC_KEY_1", Bytes_ (wrapped_hmac_key p));
  (bytes_of_string "DSL_CRYPTO_IV", Bytes_ (wrapping_iv p));
  (bytes_of_string "DSL_CRYPTO_MAC", Bytes_ (wrapping_mac p));
  (bytes_of_string "keyformat", Uint64 (key_format p));
  (bytes_of_string "pbkdf2iters", Uint64 (pbkdf2_iterations p));
  (bytes_of_string "pbkdf2salt", Uint64 (pbkdf2_salt p))].

Definition begin_nvlist (others : NvMap) (p : EncryptionParams) : NvMap :=
  others ++ [(bytes_of_string "crypt_keydata", List_ (crypto_entries p))].

Lemma begin_nvlist_writable others p :
  map_writable others -> params_ok p -> map_writable (begin_nvlist others p).
Proof.
  intros Ho (?&?&?&?&?&?&?&?&[? ?]&[? ?]). unfold begin_nvlist. apply Forall_app. split; [done|].
  repeat first [assumption | reflexivity | constructor].
Qed.

Lemma nv_get_snoc name m v : nv_get name (m ++ [(name, v)]) = Some v.
Proof. induction m as [|[k w] m IH]; cbn; [by rewrite bytes_eqb_refl|]. by rewrite IH. Qed.

Lemma begin_nvlist_read others p payload :
  params_ok p -> NvDecoder_decode payload = Ok (begin_nvlist others p) ->
  from_begin_payload payload = Ok p.
Proof.
  intros (_&_&_&_&_&_&_&_&[Hiv _]&[Hmac _]) Hd. unfold from_begin_payload. rewrite Hd. cbn [bind].
  unfold begin_nvlist. rewrite nv_get_snoc. unfold bytes, uint64, array, array_try_from.
  repeat match goal with |- context [nv_get (bytes_of_string ?s) (crypto_entries p)] =>
    let v := eval vm_compute in (nv_get (bytes_of_string s) (crypto_entries p)) in
    change (nv_get (bytes_of_string s) (crypto_entries p)) with v
  end.
  cbn [bind]. destruct p as [su gu ve kf it sa wm wh iv ma]. cbn [wrapping_iv wrapping_mac] in *.
  rewrite Hiv, Hmac. reflexivity.
Qed.

(** the wrapped-key parameters survive the trip through a stream. Whatever
    other entries the BEGIN nvlist has, in the XDR encoding and in the native
    one, [from_begin_payload] returns the parameters that were written. *)
Theorem begin_payload_roundtrip others p endian flags :
  params_ok p -> map_writable others -> is_u32 flags ->
  len (write_xdr endian flags (begin_nvlist others p)) <= U32_MAX ->
  len (write_native flags (begin_nvlist others p)) <= U32_MAX ->
  from_begin_payload (write_xdr endian flags (begin_nvlist others p)) = Ok p /\
  from_begin_payload (write_native flags (begin_nvlist others p)) = Ok p.
Proof.
  intros Hp Ho Hf Hx Hn. pose proof (begin_nvlist_writable _ _ Ho Hp) as Hw.
  split; (apply (begin_nvlist_read others); [assumption|]).
  - apply write_xdr_decode; assumption.
  - apply write_native_decode; assumption.
Qed.

Definition sample_params : EncryptionParams := {|
  suite := 8; guid := 4660; version := 1; key_format := 1; pbkdf2_iterations := 0; pbkdf2_salt := 0;
  wrapped_master_key := zrepeat 32 17; wrapped_hmac_key := zrepeat 64 34;
  wrapping_iv := zrepeat 12 51;
  wrapping_mac := toy_tag (zrepeat 32 1) (zrepeat 12 51)
    (le_bytes 8 4660 ++ le_bytes 8 8 ++ le_bytes 8 1) (zrepeat 32 17 ++ zrepeat 64 34) |}.

Lemma sample_params_ok : params_ok sample_params.
Proof.
  unfold params_ok, fixed, is_u64. cbn -[zrepeat toy_tag].
  split_and!; try lia; try reflexivity; apply bytes_ok_dec; vm_compute; reflexivity.
Qed.

Lemma begin_payload_roundtrip_witness :
  from_begin_payload (write_xdr 1 0 (begin_nvlist [(bytes_of_string "fromguid", Uint64 9)] sample_params))
    = Ok sample_params /\
  from_begin_payload (write_native 0 (begin_nvlist [(bytes_of_string "fromguid", Uint64 9)] sample_params))
    = Ok sample_params.
Proof.
  apply begin_payload_roundtrip;
    [apply sample_params_ok|by repeat constructor|split; vm_compute; discriminate
    |vm_compute; discriminate|vm_compute; discriminate].
Defined.

(** On any payload the nvlist decoder returns: it neither panics (no read
    leaves the buffer, no cursor moves back) nor runs on, one pair per byte at
    most; what it accepts has parameters of the right widths, an IV of 12 and a
    MAC of 16 bytes. *)
Theorem begin_payload_returns payload :
  bytes_ok payload ->
  wp (NvDecoder_decode payload) nv_map_ok /\ wp (from_begin_payload payload) params_ok.
Proof.
  intros Hb. assert (wp (NvDecoder_decode payload) nv_map_ok) as Hd.
  { apply wp_decode; [done|]. unfold len. lia. }
  split; [done|by apply wp_from_begin_payload].
Qed.

Lemma begin_payload_returns_witness :
  wp (NvDecoder_decode [1; 0; 0; 0; 0; 0]) nv_map_ok /\
  wp (from_begin_payload [1; 0; 0; 0; 0; 0]) params_ok.
Proof. apply begin_payload_returns, bytes_ok_dec. vm_compute. reflexivity. Defined.

(** ** Unlocking *)

(** The additional data of the two key versions. *)
Definition wrap_aad (p : EncryptionParams) : list Z :=
  if version p =? 0 then le_bytes 8 (guid p)
  else le_bytes 8 (guid p) ++ le_bytes 8 (suite p) ++ le_bytes 8 (version p).

(** [p] wraps the two keys under [wk]. *)
Definition wraps `{AeadSeal} (p : EncryptionParams) (wk master hmac : list Z) : Prop :=
  exists a, aead_of (suite p) = Some a /\
    aead_encrypt a wk (wrapping_iv p) (wrap_aad p) (master ++ hmac) =
      (wrapped_master_key p ++ wrapped_hmac_key p, wrapping_mac p).

(** The wrapping key is too long for the ciphers with shorter keys. *)
Lemma short_suites_locked `{CryptoLaws} q m n : suite_key_len (suite q) = Ok n -> n <> 32 -> is_err (unlock q m) = true.
Proof.
  intros Hq Hne. pose proof (wp_unlock q m) as Hw. destruct (unlock q m) as [k| | |] eqn:Hu; try done. exfalso.
  unfold unlock in Hu. apply bind_Ok in Hu as (wk & Hwk & Hu). rewrite Hq in Hu. cbn [bind] in Hu. inv_ok.
  match goal with Hd : decrypt_aead _ _ _ _ _ _ = Some _ |- _ => rewrite decrypt_aead_of in Hd; rename Hd into Hopen end.
  destruct (aead_of (suite q)) as [a|] eqn:Ha; [|done]. apply aead_open_Some in Hopen as [Hl _].
  rewrite (suite_aead _ _ _ Hq Ha), (wp_value _ _ _ (wp_wrapping_key q m) Hwk) in Hl. congruence.
Qed.

(** C35: Unlocking returns the wrapped keys of the two 256-bit suites and refuses
    the other four. It never panics, and a key it returns has the suite's length,
    the version of the parameters and a 64-byte HMAC key. Given parameters of a
    suite with 32-byte keys that wrap two keys, it returns those two keys. A
    wrapping key has 32 bytes whatever the suite, and the ciphers of the suites
    with 16 and 24 bytes do not take it: for these no material unlocks. *)
Theorem unlock_unwraps `{CryptoLaws} `{!AeadSeal} p material wk master hmac :
  params_ok p -> wrapping_key p material = Ok wk -> wraps p wk master hmac ->
  suite_key_len (suite p) = Ok 32 -> fixed 32 master -> fixed 64 hmac ->
  len (wrapped_master_key p) = 32 -> len (wrapped_hmac_key p) = 64 ->
  version p = 0 \/ version p = 1 ->
  (forall q m, wp (unlock q m) (key_ok q)) /\
  (forall q m n, suite_key_len (suite q) = Ok n -> n <> 32 -> is_err (unlock q m) = true) /\
  unlock p material =
    Ok {| key_suite := suite p; crypto_version := version p; master_key := master; hmac_key := hmac |}.
Proof.
  intros Hp Hwk (a & Ha & Hseal) Hn [Hm Hmb] [Hh Hhb] Hwm Hwh Hv. split; [intros q m; apply wp_unlock|]. split.
  - intros q m n Hq Hne. by eapply short_suites_locked.
  - unfold unlock. rewrite Hwk. cbn [bind]. rewrite Hn. cbn [bind].
    rewrite Hwm, Hwh, !Z.eqb_refl. cbn [negb orb]. cbv zeta.
    match goal with |- bind ?m _ = _ => replace m with (Ok (E:=error) (wrap_aad p)) end.
    2: { unfold wrap_aad. destruct Hv as [-> | ->]; reflexivity. }
    cbn [bind]. rewrite decrypt_aead_of, Ha.
    assert (len wk = aead_key_len a) as Hwl.
    { rewrite (suite_aead _ _ _ Hn Ha). exact (wp_value _ _ _ (wp_wrapping_key p material) Hwk). }
    rewrite (aead_open_seals _ _ _ _ _ _ _ Hwl (Forall_app_2 _ _ _ Hmb Hhb) Hseal). cbn [ok_or bind].
    apply suite_key_len_Ok in Hn as [Hnr _]. unfold slice_from, slice.
    pose proof (get_range_app master hmac [] 32 (len (master ++ hmac))) as Hg1. rewrite app_nil_r in Hg1.
    rewrite Hg1 by (rewrite ?len_app; lia). cbn [expect bind].
    unfold copy_from_slice. rewrite len_zrepeat, Hh. cbn [Z.max Z.compare Z.eqb Pos.eqb bind].
    pose proof (get_range_app [] master hmac 0 32) as Hg2. cbn [app] in Hg2.
    rewrite Hg2 by (unfold len at 1; cbn; lia). reflexivity.
Qed.

Lemma unlock_unwraps_witness :
  (forall q m, wp (unlock q m) (key_ok q)) /\
  (forall q m n, suite_key_len (suite q) = Ok n -> n <> 32 -> is_err (unlock q m) = true) /\
  unlock sample_params (zrepeat 32 1) =
    Ok {| key_suite := 8; crypto_version := 1; master_key := zrepeat 32 17; hmac_key := zrepeat 64 34 |}.
Proof.
  apply (unlock_unwraps sample_params (zrepeat 32 1) (zrepeat 32 1) (zrepeat 32 17) (zrepeat 64 34)).
  - apply sample_params_ok.
  - reflexivity.
  - exists Aes256Gcm. split; reflexivity.
  - reflexivity.
  - split; [reflexivity|]. by apply Forall_zrepeat.
  - split; [reflexivity|]. by apply Forall_zrepeat.
  - reflexivity.
  - reflexivity.
  - by right.
Defined.

(** ** Hexadecimal keys *)

Definition hex_digit (upper : bool) (d : Z) : Z :=
  if d <? 10 then 48 + d else (if upper then 55 else 87) + d.
Definition hex_byte (upper : bool) (b : Z) : list Z := [hex_digit upper (b / 16); hex_digit upper (b mod 16)].
Definition hex_text (upper : bool) (key : list Z) : list Z := flat_map (hex_byte upper) key.

(** All 256 bytes in both cases, by evaluation. *)
Lemma hex_byte_parses upper b :
  is_byte b -> from_utf8 (hex_byte upper b) = Some (hex_byte upper b) /\
    from_str_radix 16 U8_MAX (hex_byte upper b) = Some b.
Proof.
  intros Hb.
  assert (forallb (fun b => bool_decide (from_utf8 (hex_byte upper b) = Some (hex_byte upper b)) &&
    bool_decide (from_str_radix 16 U8_MAX (hex_byte upper b) = Some b)) (seqZ 0 256) = true) as Hall
    by (destruct upper; vm_compute; reflexivity).
  rewrite forallb_forall in Hall. specialize (Hall b).
  rewrite andb_true_iff, !bool_decide_eq_true in Hall. apply Hall.
  apply list_elem_of_In, elem_of_seqZ. unfold is_byte in Hb. lia.
Qed.

Lemma hex_text_len upper key : len (hex_text upper key) = 2 * len key.
Proof. induction key as [|b key IH]; [done|]. unfold hex_text in *. cbn [flat_map hex_byte app]. rewrite !len_cons. lia. Qed.

Lemma decode_hex_pairs_text upper key : forall pre rest,
  bytes_ok key -> len key = len rest ->
  decode_hex_pairs (len pre) (hex_text upper key) (pre ++ rest) = Ok (pre ++ key).
Proof.
  induction key as [|b key IH]; intros pre rest Hk Hl.
  - symmetry in Hl. apply len_zero_nil in Hl as ->. done.
  - inversion Hk as [|? ? Hb Hk']; subst. destruct (hex_byte_parses upper b Hb) as [Hu Hr].
    destruct rest as [|x rest]; [rewrite len_cons, len_nil in Hl; pose proof (len_nonneg key); lia|].
    unfold hex_text. cbn [flat_map]. unfold hex_byte in *. cbn [app decode_hex_pairs].
    rewrite Hu. cbn [ok_or bind]. rewrite Hr. cbn [ok_or bind].
    unfold set_index. rewrite len_app, !len_cons in *. pose proof (len_nonneg pre). pose proof (len_nonneg rest).
    rewrite (proj2 (Z.leb_le _ _)), (proj2 (Z.ltb_lt _ _)) by lia. cbn [andb bind].
    rewrite ztake_app_len by done.
    replace (zdrop (len pre + 1) (pre ++ x :: rest)) with rest.
    2: { replace (pre ++ x :: rest) with ((pre ++ [x]) ++ rest) by (by rewrite <- app_assoc).
         rewrite zdrop_app_len; [done|]. rewrite len_app. done. }
    replace (pre ++ b :: rest) with ((pre ++ [b]) ++ rest) by (by rewrite <- app_assoc).
    replace (len pre + 1) with (len (pre ++ [b])) by (by rewrite len_app).
    fold (hex_text upper key). rewrite IH by (done || lia). by rewrite <- app_assoc.
Qed.

Lemma hex_text_last upper key c : bytes_ok key -> c < 48 -> last (hex_text upper key) <> Some c.
Proof.
  intros Hk Hc. destruct key as [|b key _] using rev_ind; [done|]. unfold hex_text. rewrite flat_map_app. cbn [flat_map].
  rewrite app_nil_r. unfold hex_byte. rewrite last_app. cbn [last]. intros [= Heq].
  pose proof (Z.mod_pos_bound b 16 ltac:(lia)). unfold hex_digit in Heq. repeat case_match; b2p; lia.
Qed.

(** a 32-byte key written as 64 hexadecimal digits, of either case, is the
    key again, both as a hex key and in a key file for a raw key, where a line
    end of either kind may follow; a 32-byte binary key file is left alone. *)
Theorem hex_key_roundtrip upper key :
  fixed 32 key ->
  let text := hex_text upper key in
  let raw := bytes_of_string "raw" in
  decode_hex_key text (zrepeat 32 0) = Ok key /\
  normalize_key_file_material raw text = Ok key /\
  normalize_key_file_material raw (text ++ [10]) = Ok key /\
  normalize_key_file_material raw (text ++ [13; 10]) = Ok key /\
  normalize_key_file_material raw key = Ok key.
Proof.
  intros [Hl Hb] text raw. assert (len text = 64) as Ht by (unfold text; rewrite hex_text_len; lia).
  assert (decode_hex_key text (zrepeat 32 0) = Ok key) as Hd.
  { unfold decode_hex_key. rewrite Ht. cbn [Z.eqb Pos.eqb negb].
    apply (decode_hex_pairs_text upper key [] (zrepeat 32 0)); [done|]. by rewrite Hl. }
  assert (last text <> Some 13) as Hcr by (apply hex_text_last; [done|lia]).
  assert (forall m, normalize_key_file_material raw m =
    (let m := if (len m =? 65) || (len m =? 66) then strip_newline m else m in
     if len m =? 64 then decode_hex_key m (zrepeat 32 0) else Ok m)) as Hn by reflexivity.
  assert (strip_newline (text ++ [10]) = text) as Hs1.
  { unfold strip_newline, pop_byte. rewrite last_snoc, !(bool_decide_eq_true_2 (Some 10 = Some 10)) by done.
    rewrite ztake_app_len by (rewrite len_app; change (len [10]) with 1; lia). by rewrite bool_decide_eq_false_2. }
  assert (strip_newline (text ++ [13; 10]) = text) as Hs2.
  { replace (text ++ [13; 10]) with ((text ++ [13]) ++ [10]) by (by rewrite <- app_assoc).
    unfold strip_newline, pop_byte. rewrite last_snoc, !(bool_decide_eq_true_2 (Some 10 = Some 10)) by done.
    rewrite ztake_app_len by (rewrite (len_app _ [10]); change (len [10]) with 1; lia).
    rewrite last_snoc, bool_decide_eq_true_2 by done.
    apply ztake_app_len. rewrite len_app. change (len [13]) with 1. lia. }
  assert (forall tail, strip_newline (text ++ tail) = text -> len tail = 1 \/ len tail = 2 ->
    normalize_key_file_material raw (text ++ tail) = Ok key) as Htail.
  { intros tail Hs Htl. rewrite Hn. cbv zeta. rewrite Hs.
    assert ((len (text ++ tail) =? 65) || (len (text ++ tail) =? 66) = true) as ->.
    { rewrite len_app, Ht. apply orb_true_iff. rewrite !Z.eqb_eq. lia. }
    by rewrite Ht, Hd. }
  split_and!; [done|by rewrite Hn, Ht; cbn [Z.eqb Pos.eqb orb]; rewrite Ht, Hd|by apply Htail; auto|by apply Htail; auto|].
  rewrite Hn, Hl. cbn [Z.eqb Pos.eqb orb]. by rewrite Hl.
Qed.

Lemma hex_key_roundtrip_witness :
  let text := hex_text true (zrepeat 32 171) in
  let raw := bytes_of_string "raw" in
  decode_hex_key text (zrepeat 32 0) = Ok (zrepeat 32 171) /\
  normalize_key_file_material raw text = Ok (zrepeat 32 171) /\
  normalize_key_file_material raw (text ++ [10]) = Ok (zrepeat 32 171) /\
  normalize_key_file_material raw (text ++ [13; 10]) = Ok (zrepeat 32 171) /\
  normalize_key_file_material raw (zrepeat 32 171) = Ok (zrepeat 32 171).
Proof. apply hex_key_roundtrip. split; [reflexivity|]. by apply Forall_zrepeat. Defined.

(** The decoder takes more than hexadecimal digits: [u8::from_str_radix]
    allows a plus sign, so 64 characters made of pairs of a plus and a digit pass
    for a key instead of being refused. *)
Theorem hex_key_accepts_plus upper d :
  0 <= d < 16 ->
  decode_hex_key (concat (replicate 32 [43; hex_digit upper d])) (zrepeat 32 0) = Ok (zrepeat 32 d).
Proof.
  intros Hd.
  assert (forallb (fun d => match decode_hex_key (concat (replicate 32 [43; hex_digit upper d])) (zrepeat 32 0) with
    | Ok out => bytes_eqb out (zrepeat 32 d) | _ => false end) (seqZ 0 16) = true) as Hall
    by (destruct upper; vm_compute; reflexivity).
  rewrite forallb_forall in Hall.
  specialize (Hall d ltac:(apply list_elem_of_In, elem_of_seqZ; lia)). cbv beta in Hall.
  destruct (decode_hex_key _ _); try discriminate. apply bytes_eqb_eq in Hall. congruence.
Qed.

Lemma hex_key_accepts_plus_witness :
  decode_hex_key (concat (replicate 32 [43; hex_digit false 1])) (zrepeat 32 0) = Ok (zrepeat 32 1).
Proof. apply hex_key_accepts_plus. lia. Defined.

(** ** Dnode authentication *)

(** C36: a block pointer authenticates the same way from both sides. The 24 or
    32 bytes that the pool path extracts from a native pointer, whatever its
    addresses, checksum type, deduplication bit and, for version 0, physical
    size, are the ones the replay path builds from a WRITE record; and for
    version 1 the pointer to an indirect block authenticates as the replay
    path's computed one, whatever its physical size, compression and byte
    order. *)
Theorem pool_pointer_agrees dva mid tail v :
  fixed 16 dva -> all_zero dva = false -> fixed 32 mid -> fixed 56 tail -> v = 0 \/ v = 1 ->
  (forall b w lf pf ck dd,
     bp_ok b -> bp_object_type b <> 11 -> leaf_prop b v = Ok w ->
     bp_logical_size b = 512 * (lf + 1) -> bp_physical_size b = 512 * (pf + 1) -> 0 <= pf <= U16_MAX ->
     is_byte ck -> 0 <= dd <= 1 ->
     pool_block_pointer_auth
       (native_pointer dva mid tail (bp_mac b)
          (native_word lf pf (bp_compression b) ck (bp_object_type b) 0 dd 1)) v
     = encode {| prop := w; mac := bp_mac b |} v) /\
  (forall d level mac w lf pf c ck dd bo,
     dnode_ok d -> dn_object_type d <> 11 -> 1 <= level -> fixed 16 mac -> v = 1 ->
     indirect_prop d level = Ok w -> Z.shiftl 1 (dn_indirect_block_shift d) = 512 * (lf + 1) ->
     0 <= pf <= U16_MAX -> 0 <= c <= 0x7f -> is_byte ck -> 0 <= dd <= 1 -> 0 <= bo <= 1 ->
     pool_block_pointer_auth
       (native_pointer dva mid tail mac (native_word lf pf c ck (dn_object_type d) level dd bo)) v
     = encode {| prop := w; mac := mac |} v).
Proof.
  intros Hdva Hnz Hmid Htail Hv. split.
  - intros b w lf pf ck dd Hb Ht Hw Hlf Hpf Hpfr Hck Hdd. unfold bp_ok, is_byte in Hb, Hck.
    apply block_prop_Ok in Hw as (lf' & pf' & Hlf' & ? & Hpf' & ? & ? & ? & ? & ? & ->); [|u64..].
    assert (lf' = lf) as -> by lia.
    rewrite pool_auth_native by (done || (split; u64) || naive_solver).
    f_equal. f_equal. unfold portable_word. destruct Hv as [-> | ->]; cbn [Z.eqb] in *; f_equal; lia.
  - intros d level m w lf pf c ck dd bo Hd Ht Hl Hm -> Hw Hlf Hpf Hc Hck Hdd Hbo. unfold dnode_ok, is_byte in Hd, Hck.
    apply block_prop_Ok in Hw as (lf' & pf' & Hlf' & ? & Hpf' & ? & ? & ? & ? & ? & ->); [|u64..].
    assert (lf' = lf) as -> by lia. assert (pf' = 0) as -> by lia.
    rewrite pool_auth_native by (done || (split; u64)).
    f_equal. f_equal. unfold portable_word. cbn [Z.eqb]. by rewrite (proj2 (Z.eqb_neq level 0)) by lia.
Qed.

Definition sample_block : RawBlockPointer := {|
  bp_block_id := 0; bp_object_type := 19; bp_logical_size := 1024; bp_physical_size := 512;
  bp_compression := 15; bp_flags := 0; bp_mac := zrepeat 16 90 |}.

Definition sample_dnode : RawDnode := {|
  dn_object := 34; dn_object_type := 19; dn_bonus_type := 44; dn_block_size := 1024;
  dn_bonus_length := 168; dn_checksum_type := 7; dn_compression := 15; dn_slots := 1; dn_flags := 0;
  dn_indirect_block_shift := 17; dn_levels := 2; dn_block_pointers := 1; dn_max_block_id := 1;
  dn_bonus_ciphertext := zrepeat 320 77; dn_blocks := [sample_block]; dn_spill := None |}.

Lemma sample_block_ok : bp_ok sample_block.
Proof.
  unfold bp_ok, is_u64, is_u32, is_byte. cbn -[zrepeat]. split_and!; try lia.
  split; [reflexivity|]. by apply Forall_zrepeat.
Qed.

Lemma sample_dnode_ok : dnode_ok sample_dnode.
Proof.
  unfold dnode_ok, is_u64, is_u32, is_byte. cbn -[zrepeat]. split_and!; try lia.
  - by apply Forall_zrepeat.
  - apply Forall_singleton, sample_block_ok.
  - done.
Qed.

Lemma pool_pointer_agrees_witness :
  (pool_block_pointer_auth
     (native_pointer (zrepeat 16 1) (zrepeat 32 2) (zrepeat 56 3) (zrepeat 16 90)
        (native_word 1 0 15 8 19 0 1 1)) 1
   = encode {| prop := prop_word 1 0 15 19 0 1; mac := zrepeat 16 90 |} 1) /\
  (pool_block_pointer_auth
     (native_pointer (zrepeat 16 1) (zrepeat 32 2) (zrepeat 56 3) (zrepeat 16 90)
        (native_word 255 7 15 8 19 1 1 1)) 1
   = encode {| prop := prop_word 255 0 0 19 1 0; mac := zrepeat 16 90 |} 1).
Proof.
  destruct (pool_pointer_agrees (zrepeat 16 1) (zrepeat 32 2) (zrepeat 56 3) 1) as [Hl Hi];
    [by apply fixed_zrepeat|reflexivity|by apply fixed_zrepeat|by apply fixed_zrepeat|by right|].
  split.
  - apply (Hl sample_block (prop_word 1 0 15 19 0 1) 1 0 8 1);
      [apply sample_block_ok|discriminate|reflexivity|reflexivity|reflexivity|lia|done|lia].
  - apply (Hi sample_dnode 1 (zrepeat 16 90) (prop_word 255 0 0 19 1 0) 255 7 15 8 1 1);
      [apply sample_dnode_ok|discriminate|lia|by apply fixed_zrepeat|reflexivity|reflexivity|reflexivity
      |lia|lia|done|lia|lia].
Defined.

(** The two paths part on the indirect pointers of a version-0 dataset: the pool
    path keeps compression and byte order of the native word, the replay path
    fills in zeros. *)
Lemma version_0_indirect_differs :
  exists raw w, indirect_prop sample_dnode 1 = Ok w /\ len raw = 128 /\
    pool_block_pointer_auth raw 0 <> encode {| prop := w; mac := zrepeat 16 90 |} 0 /\
    pool_block_pointer_auth raw 1 = encode {| prop := w; mac := zrepeat 16 90 |} 1.
Proof.
  exists (native_pointer (zrepeat 16 1) (zrepeat 32 2) (zrepeat 56 3) (zrepeat 16 90)
    (native_word 255 7 15 8 19 1 1 1)), (prop_word 255 0 0 19 1 0).
  split_and!; vm_compute; first [reflexivity|discriminate].
Qed.

(** the 64 bytes of a dnode core that the replay path builds from an OBJECT
    record are the ones the pool path extracts from the dnode on disk: both
    place every field at the same offset, and of the flags only the spill bit,
    of the space counter nothing is authenticated. *)
Theorem dnode_core_agrees d core flags used :
  dnode_ok d -> 1 <= dn_slots d -> dnode_core d = Ok core ->
  len used = 8 -> Z.land flags 4 = Z.land (dn_flags d) 4 ->
  portable_core (native_core d flags used) = Ok core /\ fixed 64 core.
Proof.
  intros Hd Hs Hcore Hu Hf.
  destruct (wp_value _ _ _ (wp_dnode_core d (fun c => c = core_bytes d /\ fixed 64 c) Hd ltac:(lia) (fun Hfix => conj eq_refl Hfix)) Hcore)
    as [-> Hfix].
  split; [by apply portable_core_native|done].
Qed.

Lemma dnode_core_agrees_witness :
  portable_core (native_core sample_dnode 0xfb (zrepeat 8 200)) = Ok (core_bytes sample_dnode) /\
  fixed 64 (core_bytes sample_dnode).
Proof. apply dnode_core_agrees; [apply sample_dnode_ok|vm_compute; discriminate|reflexivity..]. Defined.

(** C37: the root block pointers bind the data. Two objects of one shape for
    which the checksum tree has the same roots hold the same blocks, with the
    same sizes, compression, type and MAC, provided that SHA-512, cut to 16
    bytes, tells apart what was digested for the one from what was digested for
    the other: the listed inputs of these two trees. *)
Theorem roots_bind_objects `{CryptoLaws} d1 d2 v roots :
  dnode_ok d1 -> dnode_ok d2 -> same_shape d1 d2 ->
  root_block_pointers d1 v = Ok roots -> root_block_pointers d2 v = Ok roots ->
  (forall x y, x ∈ digest_inputs d1 v -> y ∈ digest_inputs d2 v -> ztake 16 (sha512 x) = ztake 16 (sha512 y) -> x = y) ->
  forall b1, b1 ∈ dn_blocks d1 -> exists b2, b2 ∈ dn_blocks d2 /\ same_block v b1 b2.
Proof.
  intros Hd1 Hd2 Hs H1 H2 Hapart b1 Hb1.
  destruct (roots_bind_blocks d1 d2 v roots b1 Hd1 Hd2 Hs H1 H2 Hb1) as [Hb|(x & y & Hx & Hy & Hne & Heq)]; [done|].
  destruct Hne. by apply Hapart.
Qed.

(** The sample with the smallest indirect blocks, four pointers each. *)
Definition small_dnode : RawDnode := {|
  dn_object := 34; dn_object_type := 19; dn_bonus_type := 44; dn_block_size := 1024;
  dn_bonus_length := 168; dn_checksum_type := 7; dn_compression := 15; dn_slots := 1; dn_flags := 0;
  dn_indirect_block_shift := 9; dn_levels := 2; dn_block_pointers := 1; dn_max_block_id := 1;
  dn_bonus_ciphertext := zrepeat 320 77; dn_blocks := [sample_block]; dn_spill := None |}.

Lemma small_dnode_ok : dnode_ok small_dnode.
Proof.
  unfold dnode_ok, is_u64, is_u32, is_byte. cbn -[zrepeat]. split_and!; try lia.
  - by apply Forall_zrepeat.
  - apply Forall_singleton, sample_block_ok.
  - done.
Qed.

Definition small_roots : list BlockPointerAuth :=
  match root_block_pointers small_dnode 1 with Ok roots => roots | _ => [] end.

Lemma roots_bind_objects_witness :
  length (digest_inputs small_dnode 1) = 1%nat /\
  forall b1, b1 ∈ dn_blocks small_dnode -> exists b2, b2 ∈ dn_blocks small_dnode /\ same_block 1 b1 b2.
Proof.
  split; [vm_compute; reflexivity|].
  apply (roots_bind_objects small_dnode small_dnode 1 small_roots);
    [apply small_dnode_ok|apply small_dnode_ok|split_and!; reflexivity|vm_compute; reflexivity..|].
  intros x y Hx Hy _. assert (exists input, digest_inputs small_dnode 1 = [input]) as [input Hin] by (eexists; vm_compute; reflexivity).
  rewrite Hin in Hx, Hy. apply list_elem_of_singleton in Hx as ->. by apply list_elem_of_singleton in Hy as ->.
Defined.

(** [decrypt_pool_dnode_block] returns on every block, whatever lies in it.
    A block it accepts is walked dnode by dnode to its end; outside the
    encrypted bonus regions the result is the block itself, and the regions hold
    in order the plaintext that the ciphertext of those same regions opens to
    under the collected additional data; nothing is decrypted without
    authentication and no length changes. *)
Theorem pool_dnodes_decrypted `{CryptoLaws} key salt iv mac block :
  bytes_ok block -> len block <= ISIZE_MAX ->
  wp (decrypt_pool_dnode_block key salt iv mac block) (pool_decrypted key salt iv mac block).
Proof. apply wp_decrypt_pool_dnode_block. Qed.

(** A block of one dnode with an encrypted bonus. *)
Definition sample_pool_block : list Z :=
  native_core small_dnode 5 (zrepeat 8 9) ++ native_pointer (zrepeat 16 1) (zrepeat 32 2) (zrepeat 56 3)
    (zrepeat 16 90) (native_word 1 0 15 8 19 0 0 1) ++ zrepeat 192 66 ++ zrepeat 128 0.
Definition sample_key : DatasetKey := {|
  key_suite := 8; crypto_version := 1; master_key := zrepeat 32 5; hmac_key := zrepeat 64 6 |}.
Definition sample_pool_mac : list Z :=
  match pool_dnode_walk sample_key sample_pool_block with
  | Ok w => toy_tag (zrepeat 32 7) (zrepeat 12 0) (pw_aad w) (pw_ciphertext w) | _ => [] end.

Lemma pool_dnodes_decrypted_witness :
  wp (decrypt_pool_dnode_block sample_key (zrepeat 8 0) (zrepeat 12 0) sample_pool_mac sample_pool_block)
     (pool_decrypted sample_key (zrepeat 8 0) (zrepeat 12 0) sample_pool_mac sample_pool_block).
Proof.
  apply pool_dnodes_decrypted; [apply bytes_ok_dec; vm_compute; reflexivity|vm_compute; discriminate].
Defined.

Example pool_dnodes_run :
  decrypt_pool_dnode_block sample_key (zrepeat 8 0) (zrepeat 12 0) sample_pool_mac sample_pool_block
    = Ok sample_pool_block /\
  is_err (decrypt_pool_dnode_block sample_key (zrepeat 8 0) (zrepeat 12 0) (zrepeat 16 0) sample_pool_block)
    = true.
Proof. split; vm_compute; reflexivity. Qed.

(** [decrypt_dnode_bonuses] returns on every list of decoded OBJECT records.
    When it accepts, the dnodes lie in the range of 32 slots and do not overlap,
    no two share an id, exactly the dnodes with an encrypted bonus get one, and
    it is as long as the dnode's bonus area, so at least as long as the recorded
    bonus length: the caller may slice it without a panic. *)
Theorem dnode_bonuses_decrypted `{CryptoLaws} key range dnodes :
  is_u64 (rg_first_object range) -> Forall dnode_ok dnodes ->
  wp (decrypt_dnode_bonuses key range dnodes) (bonuses_spec range dnodes).
Proof. apply wp_decrypt_dnode_bonuses. Qed.

Definition sample_range (mac : list Z) : RawDnodeRange := {|
  rg_first_object := 32; rg_object_slots := 32; rg_salt := zrepeat 8 0; rg_iv := zrepeat 12 0;
  rg_mac := mac; rg_flags := 0; rg_crypto_version := 1 |}.
Definition sample_range_mac : list Z :=
  match raw_dnode_loop 32 (sample_range []) 64 (by_object [small_dnode])
    {| rw_aad := []; rw_ciphertext := []; rw_lengths := []; rw_visited := ∅; rw_object := 32 |} with
  | Ok w => toy_tag (zrepeat 32 7) (zrepeat 12 0) (rw_aad w) (rw_ciphertext w) | _ => [] end.

Lemma dnode_bonuses_decrypted_witness :
  wp (decrypt_dnode_bonuses sample_key (sample_range sample_range_mac) [small_dnode])
     (bonuses_spec (sample_range sample_range_mac) [small_dnode]).
Proof.
  apply dnode_bonuses_decrypted; [split; vm_compute; discriminate|].
  apply Forall_singleton, small_dnode_ok.
Defined.

Example dnode_bonuses_run :
  match decrypt_dnode_bonuses sample_key (sample_range sample_range_mac) [small_dnode] with
  | Ok m => m !! 34 = Some (zrepeat 320 77) | _ => False end.
Proof. vm_compute. reflexivity. Qed.
