(* ===== verification/Replay.v ===== *)
(** The loop every consumer of a send stream runs, [while let Some(record) =
    reader.next_record()? { .. }], over a step function with a state of its own,
    and how it relates to reading the whole stream. *)

From S2P Require Import Prelude Bytes Utf8 Stream StreamFacts.

(** ** Definitions *)

(** The [Display] of a [StreamError] (stream.rs lines 27-43), as [anyhow] keeps it. *)
Definition stream_error (e : StreamError) : error :=
  match e with
  | Io offset _ => Msg "I/O error at stream offset {offset}: {source}" [offset]
  | Invalid offset message args => Context "invalid ZFS send stream at offset {offset}" [offset] (Msg message args)
  | Unsupported offset message args =>
      Context "unsupported ZFS send stream at offset {offset}" [offset] (Msg message args)
  | Checksum offset => Msg "Fletcher-4 checksum mismatch at stream offset {offset}" [offset]
  end.

(** [fuel] bounds the records; one unit per 312 bytes is enough. *)
Fixpoint each_record {R} `{Read R} {S} (fuel : nat) (step : S -> Record_ -> result S) (s : S)
    (self : StreamReader R) : result (S * StreamReader R) :=
  match fuel with
  | O => OutOfFuel
  | Datatypes.S fuel =>
      let! (record, self) := map_err stream_error (next_record self) in
      match record with
      | None => Ok (s, self)
      | Some record =>
          let! s := step s record in
          each_record fuel step s self
      end
  end.

(** The records a reader comes to, before the end or an error. *)
Inductive produces {R} `{Read R} : StreamReader R -> Record_ -> Prop :=
| produces_now r record r' : next_record r = Ok (Some record, r') -> produces r record
| produces_later r record0 r' record :
    next_record r = Ok (Some record0, r') -> produces r' record -> produces r record.

(** ** Lemmas *)

Section each.
Context {R : Type} `{ReadLaws R}.

(** The loop over a stream that reads to its end is a fold over its records. *)
Lemma each_record_read_all {S} fuel (step : S -> Record_ -> result S) s r records r' :
  read_all fuel r = Ok (records, r') ->
  each_record fuel step s r = let! s := fold_res step s records in Ok (s, r').
Proof.
  revert s r records. induction fuel as [|fuel IH]; intros s r records; [done|]. cbn [read_all each_record].
  intros ([record r1] & Hn & Hr)%bind_Ok. rewrite Hn. cbn [map_err bind].
  destruct record as [record|]; [|by injection Hr as <- <-].
  apply bind_Ok in Hr as ([records' r2] & Hr & [= <- <-]). cbn [fold_res].
  destruct (step s record); cbn [bind]; [|done..]. by apply IH.
Qed.

(** An invariant of the step is one of the loop, and the loop ends. *)
Lemma wp_each_record {S} fuel (step : S -> Record_ -> result S) (I : control -> S -> Prop) s r :
  reader_wf r -> remaining (inner r) < RECORD_SIZE * Z.of_nat fuel ->
  (forall s c record c', produces r record -> kind_ok (kind record) -> bytes_ok (payload record) ->
     len (payload record) <= MAX_PAYLOAD_SIZE ->
     control_step c (token_of (kind record)) c' -> I c s -> wp (step s record) (I c')) ->
  I (control_of r) s ->
  wp (each_record fuel step s r) (fun '(s', r') =>
    exists c, I c s' /\ control_final c /\ reader_wf r').
Proof.
  revert s r. induction fuel as [|fuel IH]; intros s r Hwf Hrem Hstep HI.
  { pose proof (remaining_nonneg (inner r)). lia. }
  cbn [each_record]. apply wp_bind, wp_map_err.
  eapply wp_mono; [|apply (wp_conj _ _ (fun out => next_record r = Ok out) (wp_next_record r Hwf)); auto].
  intros [[record|] r1] [Hpost Hnext]; cbn [next_post] in Hpost.
  - destruct Hpost as (Hwf1 & Hk & Hb & Hl & _ & _ & Hrem1 & Hstep1).
    apply wp_bind. eapply wp_mono; [|by apply (Hstep s (control_of r) record (control_of r1)); [apply (produces_now _ _ r1)|..]].
    intros s1 HI1. apply IH; [done| | |done].
    + unfold RECORD_SIZE in *. pose proof (len_nonneg (payload record)). lia.
    + intros s2 c rec c' Hp. apply Hstep. by eapply produces_later.
  - destruct Hpost as [-> Hfin]. apply wp_Ok. by exists (control_of r).
Qed.
End each.

(** A stream that reads to its end produces its records and no others. *)
Lemma produces_read_all {R} `{Read R} fuel (r : StreamReader R) records r' record :
  read_all fuel r = Ok (records, r') -> produces r record -> record ∈ records.
Proof.
  intros Hr Hp. revert fuel records Hr. induction Hp as [r record r1 Hn|r record0 r1 record Hn Hp IH];
    intros [|fuel] records Hr; try done; cbn [read_all] in Hr; rewrite Hn in Hr; cbn [bind] in Hr;
    apply bind_Ok in Hr as ([records' r2] & Hr & [= <- <-]); [by left|right; by eapply IH].
Qed.

Lemma read_all_produces {R} `{Read R} fuel : forall (r : StreamReader R) records r' record,
  read_all fuel r = Ok (records, r') -> record ∈ records -> produces r record.
Proof.
  induction fuel as [|fuel IH]; intros r records r' record Hr Hin; [done|]. cbn [read_all] in Hr.
  apply bind_Ok in Hr as ([record0 r1] & Hn & Hr). destruct record0 as [record0|]; [|injection Hr as <- _; by apply elem_of_nil in Hin].
  apply bind_Ok in Hr as ([records' r2] & Hr & [= <- _]). apply elem_of_cons in Hin as [->|Hin]; [by eapply produces_now|].
  eapply produces_later; [exact Hn|]. by eapply IH.
Qed.

(** A loop that gets to the end has read all of the stream. *)
Lemma each_record_reads {R} `{Read R} {S} fuel (step : S -> Record_ -> result S) : forall s (r : StreamReader R) s' r',
  each_record fuel step s r = Ok (s', r') -> exists records, read_all fuel r = Ok (records, r').
Proof.
  induction fuel as [|fuel IH]; intros s r s' r'; [done|]. cbn [each_record read_all].
  intros ([record r1] & Hn%map_err_Ok & Hr)%bind_Ok. rewrite Hn. cbn [bind]. destruct record as [record|]; [|injection Hr as _ <-; by eexists].
  apply bind_Ok in Hr as (s1 & _ & Hr). destruct (IH _ _ _ _ Hr) as [records ->]. cbn [bind]. by eexists.
Qed.

(** The records read are in range, their payloads bytes. *)
Lemma read_all_in_range {R} `{ReadLaws R} fuel (r : StreamReader R) records r' :
  reader_wf r -> remaining (inner r) < RECORD_SIZE * Z.of_nat fuel ->
  read_all fuel r = Ok (records, r') ->
  Forall (fun record => kind_ok (kind record) /\ bytes_ok (payload record)) records.
Proof.
  revert r records. induction fuel as [|fuel IH]; intros r records Hwf Hfuel Hr; [done|].
  cbn [read_all] in Hr. apply bind_Ok in Hr as ([record r1] & Hn & Hr).
  pose proof (wp_value _ _ _ (wp_next_record r Hwf) Hn) as Hpost. destruct record as [record|]; cbn [next_post] in Hpost.
  - destruct Hpost as (Hwf1 & Hk & Hb & _ & _ & _ & Hrem & _).
    apply bind_Ok in Hr as ([records' r2] & Hr & [= <- <-]). constructor; [done|].
    apply (IH r1); [done| |done]. unfold RECORD_SIZE in *. pose proof (len_nonneg (payload record)). lia.
  - injection Hr as <- <-. constructor.
Qed.
