(* ===== verification/Paths.v ===== *)
(** Text operations on paths and names: the [str] methods the sources use, on
    the UTF-8 bytes of a string, and [normalize_path] of src/src/filesystem.rs. *)

From S2P Require Import Prelude Bytes.

(** ** The [str] methods *)

Definition SLASH : Z := 47.
Definition DOT : Z := 46.
Definition AT : Z := 64.

(** [s.split(c)] for an ASCII character. *)
Fixpoint split_on (c : Z) (s : list Z) : list (list Z) :=
  match s with
  | [] => [[]]
  | x :: s =>
      if x =? c then [] :: split_on c s
      else match split_on c s with
           | part :: parts => (x :: part) :: parts
           | [] => [[x]]
           end
  end.

(** [parts.join(sep)] *)
Fixpoint join (c : Z) (parts : list (list Z)) : list Z :=
  match parts with
  | [] => []
  | [part] => part
  | part :: parts => part ++ c :: join c parts
  end.

Definition is_empty {A} (l : list A) : bool := match l with [] => true | _ => false end.

(** [path.split('/').filter(|part| !part.is_empty())] *)
Definition components (path : list Z) : list (list Z) :=
  filter (fun part => is_empty part = false) (split_on SLASH path).

Definition strip_prefix (prefix s : list Z) : option (list Z) :=
  if bytes_eqb (ztake (len prefix) s) prefix then Some (zdrop (len prefix) s) else None.

(** [s.rsplit_once(c)] *)
Definition rsplit_once (c : Z) (s : list Z) : option (list Z * list Z) :=
  match rev (split_on c s) with
  | name :: (_ :: _) as before => Some (join c (rev before), name)
  | _ => None
  end.

(** ** [normalize_path] (lines 914-927) *)

Definition is_dots (component : list Z) : bool :=
  bytes_eqb component [DOT] || bytes_eqb component [DOT; DOT].

Definition normalize_path (path : list Z) : result (list Z) :=
  let! parts := fold_res (fun parts component =>
      fail! is_dots component with Msg "path components '.' and '..' are not accepted" [] in
      Ok (parts ++ [component]))
    [] (components path) in
  if is_empty parts then Ok [SLASH] else Ok (SLASH :: join SLASH parts).

(** ** Lemmas *)

Lemma split_on_nonempty c s : split_on c s <> [].
Proof. destruct s as [|x s]; cbn; [done|]. repeat case_match; done. Qed.

(** A part holds no separator. *)
Lemma split_on_parts c s part : part ∈ split_on c s -> c ∉ part.
Proof.
  revert part. induction s as [|x s IH]; intros part; cbn.
  - intros ->%list_elem_of_singleton. apply not_elem_of_nil.
  - destruct (Z.eqb_spec x c) as [->|Hx].
    + intros [->|Hp]%elem_of_cons; [apply not_elem_of_nil|by apply IH].
    + destruct (split_on c s) as [|p ps] eqn:Hs; [by destruct (split_on_nonempty c s)|].
      intros [->|Hp]%elem_of_cons; [|apply IH; set_solver].
      apply not_elem_of_cons. split; [done|]. apply IH. set_solver.
Qed.

Lemma split_on_clean c part : c ∉ part -> split_on c part = [part].
Proof.
  induction part as [|x part IH]; [done|]. intros [Hx Hp]%not_elem_of_cons. cbn.
  rewrite IH by done. destruct (Z.eqb_spec x c); [congruence|done].
Qed.

Lemma split_on_app c part s : c ∉ part -> split_on c (part ++ c :: s) = part :: split_on c s.
Proof.
  induction part as [|x part IH]; cbn [app split_on].
  - by rewrite Z.eqb_refl.
  - intros [Hx Hp]%not_elem_of_cons. rewrite IH by done. destruct (Z.eqb_spec x c); [congruence|done].
Qed.

Lemma split_on_join c parts :
  parts <> [] -> Forall (fun part => c ∉ part) parts -> split_on c (join c parts) = parts.
Proof.
  induction parts as [|part parts IH]; intros Hne Hall; [done|]. inversion Hall; subst.
  destruct parts as [|p2 parts]; [by apply split_on_clean|].
  change (join c (part :: p2 :: parts)) with (part ++ c :: join c (p2 :: parts)).
  rewrite split_on_app by done. by rewrite IH.
Qed.

Lemma join_split_on c s : join c (split_on c s) = s.
Proof.
  induction s as [|x s IH]; [done|]. cbn. destruct (Z.eqb_spec x c) as [->|Hx].
  - destruct (split_on c s) eqn:Hs; [by destruct (split_on_nonempty c s)|]. cbn. by rewrite <- IH.
  - destruct (split_on c s) as [|p ps]; [by cbn in IH; subst|]. destruct ps; cbn in *; by rewrite <- IH.
Qed.

(** A component of a path: not empty, no separator. *)
Definition plain_component (c : list Z) : Prop := c <> [] /\ SLASH ∉ c.

Lemma components_plain path : Forall plain_component (components path).
Proof.
  apply Forall_forall. intros c [Hne Hc]%list_elem_of_filter. split; [by destruct c|].
  by eapply split_on_parts.
Qed.

Lemma components_join parts :
  Forall plain_component parts -> components (SLASH :: join SLASH parts) = parts.
Proof.
  intros Hp. unfold components. cbn [split_on]. rewrite Z.eqb_refl, filter_cons_False by done.
  destruct parts as [|p ps] eqn:Heq; [done|]. rewrite <- Heq in *.
  rewrite split_on_join; [|by rewrite Heq|eapply Forall_impl; [exact Hp|by intros ? []]].
  clear Heq p ps. induction Hp as [|p ps [Hne _] Hps IH]; [done|].
  rewrite filter_cons_True by (by destruct p). by rewrite IH.
Qed.

(** The absolute path with the given components. *)
Definition absolute (parts : list (list Z)) : list Z := SLASH :: join SLASH parts.

Lemma collect_components parts acc :
  fold_res (fun parts component =>
      fail! is_dots component with Msg "path components '.' and '..' are not accepted" [] in
      Ok (parts ++ [component])) acc parts =
  if existsb is_dots parts then Err (Msg "path components '.' and '..' are not accepted" [])
  else Ok (acc ++ parts).
Proof.
  revert acc. induction parts as [|p parts IH]; intros acc; cbn [fold_res existsb].
  - by rewrite app_nil_r.
  - destruct (is_dots p); [done|]. cbn [bind orb]. rewrite IH. by rewrite <- app_assoc.
Qed.

(** [normalize_path] in closed form. *)
Lemma normalize_path_eq path :
  normalize_path path =
    if existsb is_dots (components path)
    then Err (Msg "path components '.' and '..' are not accepted" [])
    else Ok (absolute (components path)).
Proof.
  unfold normalize_path. rewrite collect_components. case_match; [done|]. cbn [bind app].
  by destruct (components path).
Qed.

Lemma components_absolute path : components (absolute (components path)) = components path.
Proof. apply components_join, components_plain. Qed.
