(* ===== verification/Extents.v ===== *)
(** The metadata buffers of the object index, src/src/filesystem.rs lines
    929-977: writing, replacing and freeing an extent of a [Vec<u8>], and what
    that does to the bytes of the object. *)

From S2P Require Import Prelude Bytes.

Definition MAX_METADATA_OBJECT : Z := 64 * 1024 * 1024.

Definition write_extent (bytes : list Z) (offset : Z) (payload : list Z) : result (list Z) :=
  let! start := ok_or (usize_try_from offset) (Msg "metadata object offset is too large" []) in
  let! end_ := ok_or (checked_add start (len payload)) (Msg "metadata object extent overflow" []) in
  fail! MAX_METADATA_OBJECT <? end_
    with Msg "metadata object exceeds the 64 MiB safety limit" [] in
  let bytes := if len bytes <? end_ then resize bytes end_ 0 else bytes in
  let! dst := slice bytes start end_ in
  let! src := copy_from_slice dst payload in
  copy_into bytes start src.

Definition replace_extent (bytes : list Z) (offset length : Z) (payload : list Z) : result (list Z) :=
  fail! length <? len payload
    with Msg "embedded replay payload exceeds its logical block length" [] in
  let! start := ok_or (usize_try_from offset) (Msg "embedded object offset is too large" []) in
  let! length := ok_or (usize_try_from length) (Msg "embedded object length is too large" []) in
  let! end_ := ok_or (checked_add start length) (Msg "embedded metadata object extent overflow" []) in
  fail! MAX_METADATA_OBJECT <? end_
    with Msg "metadata object exceeds the 64 MiB safety limit" [] in
  let bytes := if len bytes <? end_ then resize bytes end_ 0 else bytes in
  let! bytes := fill bytes start end_ 0 in
  let! payload_end := add start (len payload) in
  let! dst := slice bytes start payload_end in
  let! src := copy_from_slice dst payload in
  copy_into bytes start src.

Definition free_extent (bytes : list Z) (offset length : Z) : result (list Z) :=
  let! start := ok_or (usize_try_from offset) (Msg "FREE offset is too large" []) in
  if len bytes <=? start then Ok bytes
  else if length =? U64_MAX then Ok (ztake start bytes)
  else
    let length := default U64_MAX (usize_try_from length) in
    let end_ := Z.min (saturating_add start length) (len bytes) in
    fill bytes start end_ 0.

(** ** The object as a function of the offset, zero where nothing was written *)

Definition byte_at (bytes : list Z) (i : Z) : Z := default 0 (get bytes i).

Section contents.
Implicit Types l s : list Z.

Lemma get_app l s i : 0 <= i -> get (l ++ s) i = if i <? len l then get l i else get s (i - len l).
Proof.
  intros Hi. destruct (Z.ltb_spec i (len l)); [by apply get_app_l|].
  unfold get. rewrite len_app.
  destruct (Z.leb_spec 0 i), (Z.leb_spec 0 (i - len l)), (Z.ltb_spec i (len l + len s)),
    (Z.ltb_spec (i - len l) (len s)); cbn [andb]; try lia; [|done].
  rewrite lookup_app_r by (unfold len in *; lia). f_equal. unfold len in *. lia.
Qed.

Lemma byte_at_app l s i :
  0 <= i -> byte_at (l ++ s) i = if i <? len l then byte_at l i else byte_at s (i - len l).
Proof. intros. unfold byte_at. rewrite get_app by done. by case_match. Qed.

Lemma get_out l i : ~ 0 <= i < len l -> get l i = None.
Proof. intros. unfold get. destruct (_ && _) eqn:Hb; [|done]. b2p. lia. Qed.

Lemma byte_at_out l i : ~ 0 <= i < len l -> byte_at l i = 0.
Proof. intros. unfold byte_at. by rewrite get_out. Qed.

Lemma byte_at_zeros n i : byte_at (zrepeat n 0) i = 0.
Proof.
  unfold byte_at. destruct (get _ i) as [x|] eqn:Hg; [|done]. cbn.
  apply get_Some_lookup in Hg as [_ Hg]. unfold zrepeat in Hg. by apply lookup_replicate in Hg as [-> _].
Qed.

Lemma byte_at_ztake l n i : 0 <= i < n -> byte_at (ztake n l) i = byte_at l i.
Proof.
  intros Hi. rewrite <- (ztake_zdrop n l) at 2. rewrite byte_at_app, len_ztake by lia.
  destruct (Z.ltb_spec i (Z.max 0 (Z.min n (len l)))); [done|].
  rewrite !byte_at_out; [done|rewrite len_zdrop; lia|rewrite len_ztake; lia].
Qed.

Lemma byte_at_zdrop l n i : 0 <= n -> 0 <= i -> byte_at (zdrop n l) i = byte_at l (n + i).
Proof.
  intros Hn Hi. rewrite <- (ztake_zdrop n l) at 2. rewrite byte_at_app, len_ztake by lia.
  pose proof (len_nonneg l). destruct (Z.ltb_spec (n + i) (Z.max 0 (Z.min n (len l)))); [lia|].
  destruct (Z.le_gt_cases n (len l)); [f_equal; lia|].
  rewrite !byte_at_out; rewrite ?len_zdrop; try lia. 
Qed.

Lemma byte_at_resize l n i : 0 <= i -> len l <= n -> byte_at (resize l n 0) i = byte_at l i.
Proof.
  intros Hi Hn. unfold resize. case_match; b2p.
  - destruct (Z.lt_ge_cases i n); [by apply byte_at_ztake|].
    rewrite !byte_at_out; rewrite ?len_ztake; lia.
  - rewrite byte_at_app by done. destruct (Z.ltb_spec i (len l)); [done|].
    rewrite byte_at_zeros, byte_at_out; lia.
Qed.

(** [s] put over [l] at [off]. *)
Lemma byte_at_splice l s off i :
  0 <= off -> off + len s <= len l -> 0 <= i ->
  byte_at (ztake off l ++ s ++ zdrop (off + len s) l) i =
    if (off <=? i) && (i <? off + len s) then byte_at s (i - off) else byte_at l i.
Proof.
  intros Ho Hl Hi. pose proof (len_nonneg s). rewrite byte_at_app, len_ztake by done.
  replace (Z.max 0 (Z.min off (len l))) with off by lia.
  destruct (Z.ltb_spec i off); destruct (Z.leb_spec off i); try lia; cbn [andb].
  - by apply byte_at_ztake.
  - rewrite byte_at_app by lia.
    destruct (Z.ltb_spec (i - off) (len s)), (Z.ltb_spec i (off + len s)); try lia; try done.
    rewrite byte_at_zdrop by lia. f_equal. lia.
Qed.
End contents.

(** The extension both writers begin with. *)
Lemma grown bytes end_ :
  0 <= end_ ->
  let l := if len bytes <? end_ then resize bytes end_ 0 else bytes in
  len l = Z.max (len bytes) end_ /\ (forall i, 0 <= i -> byte_at l i = byte_at bytes i) /\
  (bytes_ok bytes -> bytes_ok l).
Proof.
  intros He. cbv zeta. destruct (Z.ltb_spec (len bytes) end_); [|split_and!; [lia|done|done]].
  rewrite len_resize by done. split_and!; [lia| |auto with zse].
  intros i Hi. apply byte_at_resize; [done|lia].
Qed.

(** What one operation leaves: a buffer within the limit, its size and every
    byte of it. *)
Definition extent_post (size : Z) (content : Z -> Z) (bytes : list Z) : Prop :=
  bytes_ok bytes /\ len bytes = size /\ (forall i, 0 <= i -> byte_at bytes i = content i).

Lemma wp_write_extent bytes offset payload :
  bytes_ok bytes -> bytes_ok payload -> is_u64 offset ->
  wp (write_extent bytes offset payload) (fun out =>
    offset + len payload <= MAX_METADATA_OBJECT /\
    extent_post (Z.max (len bytes) (offset + len payload))
      (fun i => if (offset <=? i) && (i <? offset + len payload) then byte_at payload (i - offset)
                else byte_at bytes i) out).
Proof.
  intros Hb Hp Ho. unfold is_u64 in Ho. pose proof (len_nonneg payload). unfold write_extent.
  wp_step. wp_step. match goal with Hx : usize_try_from _ = Some _ |- _ => apply usize_try_from_Some in Hx as -> end.
  wp_step. wp_step. match goal with Hx : checked_add _ _ = Some _ |- _ => apply checked_add_Some in Hx as [_ ->] end.
  wp_step. b2p. destruct (grown bytes (offset + len payload)) as (Hl & Hc & Hok); [lia|]. cbv zeta in *.
  set (l := if _ <? _ then _ else _) in *.
  apply wp_bind, wp_slice; [lia|lia|]. intros dst _ Hdst.
  apply wp_bind, wp_copy_from_slice; [lia|]. apply wp_copy_into; [lia|lia|]. intros Hlen.
  split; [done|]. split_and!; [|lia|].
  - auto 10 with zse.
  - intros i Hi. rewrite byte_at_splice by lia. by rewrite Hc.
Qed.

Lemma wp_replace_extent bytes offset length payload :
  bytes_ok bytes -> bytes_ok payload -> is_u64 offset -> is_u64 length ->
  wp (replace_extent bytes offset length payload) (fun out =>
    len payload <= length /\ offset + length <= MAX_METADATA_OBJECT /\
    extent_post (Z.max (len bytes) (offset + length))
      (fun i => if (offset <=? i) && (i <? offset + length) then byte_at payload (i - offset)
                else byte_at bytes i) out).
Proof.
  intros Hb Hp Ho Hlen. unfold is_u64 in *. pose proof (len_nonneg payload). unfold replace_extent.
  wp_step. b2p.
  wp_step. wp_step. match goal with Hx : usize_try_from _ = Some _ |- _ => apply usize_try_from_Some in Hx as -> end.
  wp_step. wp_step. match goal with Hx : usize_try_from _ = Some _ |- _ => apply usize_try_from_Some in Hx as -> end.
  wp_step. wp_step. match goal with Hx : checked_add _ _ = Some _ |- _ => apply checked_add_Some in Hx as [? ->] end.
  wp_step. b2p. destruct (grown bytes (offset + length)) as (Hl & Hc & Hok); [lia|]. cbv zeta in *.
  set (l := if _ <? _ then _ else _) in *.
  apply wp_bind, wp_fill; [lia|lia|]. intros Hfl. set (f := ztake offset l ++ _) in *.
  apply wp_bind, wp_add; [lia|]. apply wp_bind, wp_slice; [lia|lia|]. intros dst _ Hdst.
  apply wp_bind, wp_copy_from_slice; [lia|]. apply wp_copy_into; [lia|lia|]. intros Hlen'.
  split; [done|]. split; [done|]. split_and!; [|lia|].
  - assert (bytes_ok f) by (unfold f; auto 10 with zse). auto 10 with zse.
  - intros i Hi. rewrite byte_at_splice by lia. unfold f.
    pose proof (byte_at_splice l (zrepeat (offset + length - offset) 0) offset i) as Hs.
    rewrite len_zrepeat in Hs. replace (offset + Z.max 0 (offset + length - offset)) with (offset + length) in Hs by lia.
    rewrite Hs by lia. rewrite byte_at_zeros, Hc by lia.
    destruct (Z.leb_spec offset i), (Z.ltb_spec i (offset + len payload)), (Z.ltb_spec i (offset + length));
      cbn [andb]; try lia; try done. rewrite byte_at_out; [done|lia].
Qed.

Lemma wp_free_extent bytes offset length :
  bytes_ok bytes -> is_u64 offset -> is_u64 length -> len bytes <= ISIZE_MAX ->
  wp (free_extent bytes offset length) (
    if (length =? U64_MAX) && (offset <? len bytes)
    then extent_post offset (fun i => if offset <=? i then 0 else byte_at bytes i)
    else extent_post (len bytes)
      (fun i => if (offset <=? i) && (i <? offset + length) then 0 else byte_at bytes i)).
Proof.
  unfold ISIZE_MAX, is_u64. intros Hb Ho Hlen Hmax. unfold free_extent.
  wp_step. wp_step. match goal with Hx : usize_try_from _ = Some _ |- _ => apply usize_try_from_Some in Hx as -> end.
  destruct (Z.leb_spec (len bytes) offset), (Z.ltb_spec offset (len bytes)); try lia.
  - rewrite andb_false_r. apply wp_Ok. split_and!; [done|done|]. intros i Hi.
    destruct (_ && _) eqn:Hx; [|done]. b2p. apply byte_at_out. lia.
  - destruct (Z.eqb_spec length U64_MAX); cbn [andb].
    + apply wp_Ok. split_and!; [auto with zse|rewrite len_ztake; lia|]. intros i Hi.
      destruct (Z.leb_spec offset i); [apply byte_at_out; rewrite len_ztake; lia|by apply byte_at_ztake].
    + rewrite usize_try_from_u64 by u64. cbn [default]. unfold saturating_add.
      remember (Z.min _ (len bytes)) as e eqn:He. unfold id in He. apply wp_fill; [lia|lia|]. intros Hl.
      split_and!; [auto 10 with zse|lia|]. intros i Hi.
      pose proof (byte_at_splice bytes (zrepeat (e - offset) 0) offset i) as Hs.
      rewrite len_zrepeat in Hs. replace (offset + Z.max 0 (e - offset)) with e in Hs by lia.
      rewrite Hs, byte_at_zeros by lia.
      destruct (Z.leb_spec offset i), (Z.ltb_spec i e), (Z.ltb_spec i (offset + length)); cbn [andb]; try lia; try done.
      apply byte_at_out. lia.
Qed.
