(* ===== verification/Snapshots.v ===== *)
(** Choosing a snapshot in a send file, src/src/filesystem.rs lines 691-808: the
    substream headers, the selector, and the chain of incrementals down to a
    full send. Names and selectors are the UTF-8 bytes of their strings. *)

From S2P Require Import Prelude Bytes Utf8 Stream StreamFacts Replay Paths Encrypted.

(** ** Definitions *)

Record SnapshotPlan := { target : BeginRecord; chain : list Z }.

(** [iter().enumerate()] *)
Definition enumerate {A} (l : list A) : list (Z * A) := zip (seqZ 0 (len l)) l.

(** [iter().enumerate().filter(..).map(|(index, _)| index)] *)
Definition matching {A} (p : A -> bool) (l : list A) : list Z :=
  map fst (List.filter (fun e => p e.2) (enumerate l)).

(** [iter().enumerate().rev().find(..)] *)
Definition rfind {A} (p : A -> bool) (l : list A) : option (Z * A) :=
  List.find (fun e => p e.2) (rev (enumerate l)).

Definition header_step (snapshots : list BeginRecord) (record : Record_) : result (list BeginRecord) :=
  match kind record with
  | Begin header => if header_type header =? DMU_SUBSTREAM then Ok (snapshots ++ [header]) else Ok snapshots
  | _ => Ok snapshots
  end.

Definition snapshot_headers {R} `{Read R} (fuel : nat) (file : R) : result (list BeginRecord) :=
  let! (snapshots, reader) := each_record fuel header_step [] (StreamReader_new file) in
  fail! negb (saw_end reader) with Msg "ZFS send stream has no END record" [] in
  fail! is_empty snapshots with Msg "ZFS send stream contains no snapshot substreams" [] in
  Ok snapshots.

Definition parse_selector_guid (value : list Z) : option Z :=
  match match strip_prefix (bytes_of_string "0x") value with
        | Some hex => Some hex
        | None => strip_prefix (bytes_of_string "0X") value
        end with
  | Some hex => from_str_radix 16 U64_MAX hex
  | None => from_str_radix 10 U64_MAX value
  end.

Definition short_name_is (short : list Z) (header : BeginRecord) : bool :=
  match rsplit_once AT (dataset_name header) with
  | Some (_, name) => bytes_eqb name short
  | None => false
  end.

Definition select_snapshot (snapshots : list BeginRecord) (selector : option (list Z)) : result Z :=
  match selector with
  | None =>
      if len snapshots =? 1 then Ok 0
      else Err (Msg "send file contains {} snapshots; choose one with --snapshot" [len snapshots])
  | Some selector =>
      let exact := matching (fun header => bytes_eqb (dataset_name header) selector) snapshots in
      if len exact =? 1 then index exact 0
      else
        let short := default selector (strip_prefix [AT] selector) in
        let named := matching (short_name_is short) snapshots in
        if len named =? 1 then index named 0
        else
          fail! 1 <? len named with Msg "snapshot name {selector:?} is ambiguous" [] in
          let not_found := Msg "snapshot {selector:?} was not found in the send file" [] in
          match parse_selector_guid selector with
          | Some guid =>
              let matches := matching (fun header => to_guid header =? guid) snapshots in
              if len matches =? 1 then index matches 0
              else if 1 <? len matches
              then Err (Msg "snapshot GUID {selector:?} appears more than once in the send file" [])
              else Err not_found
          | None => Err not_found
          end
  end.

(** The loop over base snapshots; it pushes the newest first. *)
Fixpoint plan_loop (fuel : nat) (snapshots : list BeginRecord) (cursor from : Z) (chain : list Z)
  : result (list Z) :=
  if from =? 0 then Ok chain
  else
    match fuel with
    | O => OutOfFuel
    | S fuel =>
        let! earlier := slice snapshots 0 cursor in
        match rfind (fun header => to_guid header =? from) earlier with
        | None => Err (Msg "snapshot {} depends on base GUID 0x{from_guid:016x}, which is not present earlier in the send file" [from])
        | Some (index, header) =>
            plan_loop fuel snapshots index (from_guid header) (chain ++ [to_guid header])
        end
    end.

(** [plan_snapshot] behind the reading of the headers. The cursor falls in each
    round, so the number of snapshots bounds the rounds. *)
Definition plan_of (snapshots : list BeginRecord) (selector : option (list Z)) : result SnapshotPlan :=
  let! target_index := select_snapshot snapshots selector in
  let! target := index snapshots target_index in
  let! chain := plan_loop (S (length snapshots)) snapshots target_index (from_guid target) [to_guid target] in
  Ok {| target := target; chain := rev chain |}.

Definition plan_snapshot {R} `{Read R} (fuel : nat) (file : R) (selector : option (list Z))
  : result SnapshotPlan :=
  let! snapshots := snapshot_headers fuel file in
  plan_of snapshots selector.

(** ** Searching *)

Lemma enumerate_lookup {A} (l : list A) i x :
  (i, x) ∈ enumerate l <-> get l i = Some x.
Proof.
  unfold enumerate. rewrite get_Some_lookup. split.
  - intros [k Hk]%list_elem_of_lookup. apply lookup_zip_Some in Hk as [Hi Hx].
    apply lookup_seqZ in Hi as [-> _]. split; [lia|]. by replace (Z.to_nat (0 + Z.of_nat k)) with k by lia.
  - intros [Hi Hx]. apply list_elem_of_lookup. exists (Z.to_nat i). apply lookup_zip_Some. split; [|done].
    apply lookup_seqZ. apply lookup_lt_Some in Hx. unfold len. lia.
Qed.

Lemma matching_elem {A} (p : A -> bool) l i :
  i ∈ matching p l <-> exists x, get l i = Some x /\ p x = true.
Proof.
  unfold matching. rewrite list_elem_of_In, in_map_iff. split.
  - intros ([j x] & <- & [Hin Hp]%filter_In). cbn in *. apply list_elem_of_In, enumerate_lookup in Hin. eauto.
  - intros (x & Hg & Hp). exists (i, x). split; [done|]. apply filter_In. split; [|done].
    by apply list_elem_of_In, enumerate_lookup.
Qed.

Lemma rfind_Some {A} (p : A -> bool) l i x :
  rfind p l = Some (i, x) <->
  get l i = Some x /\ p x = true /\ (forall j y, i < j -> get l j = Some y -> p y = false).
Proof.
  revert i x. induction l as [|y l IH] using rev_ind; intros i x.
  { split; [done|]. intros [[_ Hx]%get_Some_lookup _]. done. }
  assert (rfind p (l ++ [y]) = if p y then Some (len l, y) else rfind p l) as ->.
  { unfold rfind, enumerate. rewrite len_app. change (len [y]) with 1.
    rewrite seqZ_app, zip_with_app by (unfold len; rewrite ?length_seqZ; lia).
    replace (zip (seqZ (0 + len l) 1) [y]) with [(len l, y)] by (unfold seqZ; cbn [Z.to_nat Pos.to_nat]; cbn; do 2 f_equal; lia).
    rewrite rev_app_distr. cbn. by destruct (p y). }
  assert (forall j, get (l ++ [y]) j = if decide (j = len l) then Some y else get l j) as Hget.
  { intros j. unfold get. rewrite len_app. change (len [y]) with 1.
    destruct (decide (j = len l)) as [->|Hne].
    - pose proof (len_nonneg l). destruct (Z.leb_spec 0 (len l)), (Z.ltb_spec (len l) (len l + 1)); try lia.
      cbn [andb]. rewrite len_nat. by apply list_lookup_middle.
    - destruct (Z.leb_spec 0 j), (Z.ltb_spec j (len l + 1)), (Z.ltb_spec j (len l)); cbn [andb]; try lia; try done.
      rewrite lookup_app_l; [done|]. unfold len in *. lia. }
  setoid_rewrite Hget. destruct (p y) eqn:Hy.
  - split.
    + intros [= <- <-]. rewrite decide_True by done. split_and!; [done|done|].
      intros j z Hj. rewrite decide_False by lia. intros Hg%get_lt. lia.
    + intros (Hg & Hp & Hlast). destruct (decide (i = len l)) as [->|Hne]; [by simplify_eq|].
      apply get_lt in Hg as Hlt. specialize (Hlast (len l) y ltac:(lia)).
      rewrite decide_True in Hlast by done. rewrite Hlast in Hy by done. done.
  - rewrite IH. split.
    + intros (Hg & Hp & Hlast). apply get_lt in Hg as Hlt. rewrite decide_False by lia.
      split_and!; [done|done|]. intros j z Hj. destruct (decide (j = len l)); [by intros [= <-]|by apply Hlast].
    + intros (Hg & Hp & Hlast). destruct (decide (i = len l)); [simplify_eq; congruence|].
      split_and!; [done|done|]. intros j z Hj Hz. apply (Hlast j z Hj).
      apply get_lt in Hz as Hlt. by rewrite decide_False by lia.
Qed.

(** ** The chain of a snapshot *)

(** [based_on snapshots i guids]: the guids, oldest first, from a full send to
    snapshot [i], each the nearest earlier one with the guid its successor is
    based on. *)
Inductive based_on (snapshots : list BeginRecord) : Z -> list Z -> Prop :=
| based_full i h :
    get snapshots i = Some h -> from_guid h = 0 -> based_on snapshots i [to_guid h]
| based_incremental i h j base guids :
    get snapshots i = Some h -> from_guid h <> 0 ->
    get snapshots j = Some base -> j < i -> to_guid base = from_guid h ->
    (forall k between, j < k < i -> get snapshots k = Some between -> to_guid between <> from_guid h) ->
    based_on snapshots j guids -> based_on snapshots i (guids ++ [to_guid h]).

Lemma get_ztake {A} (l : list A) n j : 0 <= n <= len l -> get (ztake n l) j = if j <? n then get l j else None.
Proof.
  intros Hn. unfold get. rewrite len_ztake. replace (Z.max 0 (Z.min n (len l))) with n by lia.
  destruct (Z.leb_spec 0 j), (Z.ltb_spec j n); cbn [andb]; try done.
  rewrite (proj2 (Z.ltb_lt j (len l))) by lia. unfold ztake. by rewrite lookup_take, decide_True by lia.
Qed.

(** One search among the earlier snapshots. *)
Lemma rfind_earlier snapshots i from j base :
  0 <= i <= len snapshots ->
  rfind (fun header => to_guid header =? from) (ztake i snapshots) = Some (j, base) <->
  j < i /\ get snapshots j = Some base /\ to_guid base = from /\
  (forall k between, j < k < i -> get snapshots k = Some between -> to_guid between <> from).
Proof.
  intros Hi. rewrite rfind_Some, Z.eqb_eq, get_ztake by done. split.
  - intros (Hg & Hf & Hlast). destruct (Z.ltb_spec j i); [|done]. split_and!; try done.
    intros k b Hk Hb. apply Z.eqb_neq, (Hlast k b); [lia|]. rewrite get_ztake by done.
    by rewrite (proj2 (Z.ltb_lt k i)) by lia.
  - intros (Hlt & Hg & Hf & Hlast). rewrite (proj2 (Z.ltb_lt j i)) by lia. split_and!; try done.
    intros k b Hk. rewrite get_ztake by done. destruct (Z.ltb_spec k i); [|done].
    intros Hb. apply Z.eqb_neq. apply (Hlast k b); [lia|done].
Qed.

Lemma plan_loop_spec snapshots fuel : forall i h acc,
  get snapshots i = Some h -> i < Z.of_nat fuel ->
  wpe (plan_loop fuel snapshots i (from_guid h) acc)
    (fun chain => exists guids, chain = acc ++ tail (rev guids) /\ based_on snapshots i guids)
    (fun _ => forall guids, ~ based_on snapshots i guids).
Proof.
  induction fuel as [|fuel IH]; intros i h acc Hg Hf; [apply get_lt in Hg; lia|]. cbn [plan_loop].
  apply get_lt in Hg as Hi. destruct (Z.eqb_spec (from_guid h) 0) as [Hz|Hnz].
  { cbn. exists [to_guid h]. rewrite app_nil_r. split; [done|by constructor]. }
  unfold slice. rewrite (proj2 (get_range_Some snapshots 0 i (ztake i snapshots))).
  2: { rewrite Z.sub_0_r, zdrop_0 by lia. split_and!; done || lia. }
  cbn [expect bind].
  destruct (rfind _ (ztake i snapshots)) as [[j base]|] eqn:Hr.
  - apply rfind_earlier in Hr as (Hlt & Hb & Heq & Hlast); [|lia].
    specialize (IH j base (acc ++ [to_guid base]) Hb ltac:(lia)).
    destruct (plan_loop _ _ _ _ _) as [c|e| |]; cbn in *; [| |done|done].
    + destruct IH as (guids & -> & Hbased). exists (guids ++ [to_guid h]). split.
      * rewrite rev_app_distr. cbn. rewrite <- app_assoc. f_equal.
        inversion Hbased; subst; cbn; [|rewrite rev_app_distr; cbn].
        { rewrite Hb in *. by simplify_eq. }
        { rewrite Hb in *. by simplify_eq. }
      * by eapply based_incremental.
    + intros guids Hbased. inversion Hbased as [|? h' j' base' guids' Hh' ? Hb' Hj' Heq' Hlast' Hbased']; subst; simplify_eq.
      assert (rfind (fun header => to_guid header =? from_guid h) (ztake i snapshots) = Some (j', base')) as E1
        by (apply rfind_earlier; [lia|by split_and!]).
      assert (rfind (fun header => to_guid header =? from_guid h) (ztake i snapshots) = Some (j, base)) as E2
        by (apply rfind_earlier; [lia|by split_and!]).
      rewrite E1 in E2. simplify_eq. by eapply IH.
  - cbn. intros guids Hbased. inversion Hbased as [|? h' j' base' guids' Hh' ? Hb' Hj' Heq' Hlast' Hbased']; subst; simplify_eq.
    enough (rfind (fun header => to_guid header =? from_guid h) (ztake i snapshots) = Some (j', base')) by congruence.
    apply rfind_earlier; [lia|]. by split_and!.
Qed.
