(* ===== verification/Selected.v ===== *)
(** The frame shared by the consumers of a chain of snapshots
    (src/src/filesystem.rs lines 100-122, src/src/operations.rs lines 857-882): the
    records between the BEGIN of a chosen snapshot and the next END go to a
    handler, the others are skipped. *)

From S2P Require Import Prelude Bytes Stream StreamFacts Replay.

(** ** Definitions *)

(** The snapshot a BEGIN record opens, if it is one of the chain. *)
Definition opened (selected : gset Z) (header : BeginRecord) : option Z :=
  if (header_type header =? DMU_SUBSTREAM) && bool_decide (to_guid header ∈ selected)
  then Some (to_guid header) else None.

Record selection (S : Type) := { sel_active : option Z; sel_seen : gset Z; sel_inner : S }.
Arguments sel_active {S} _.
Arguments sel_seen {S} _.
Arguments sel_inner {S} _.

Definition selected_step {S} (handler : S -> Record_ -> result S) (selected : gset Z)
    (s : selection S) (record : Record_) : result (selection S) :=
  match kind record with
  | Begin header =>
      let active := opened selected header in
      Ok {| sel_active := active;
            sel_seen := match active with Some guid => {[guid]} ∪ sel_seen s | None => sel_seen s end;
            sel_inner := sel_inner s |}
  | End_ => Ok {| sel_active := None; sel_seen := sel_seen s; sel_inner := sel_inner s |}
  | _ =>
      match sel_active s with
      | None => Ok s
      | Some _ =>
          let! inner := handler (sel_inner s) record in
          Ok {| sel_active := sel_active s; sel_seen := sel_seen s; sel_inner := inner |}
      end
  end.

Definition selection_start {S} (inner : S) : selection S :=
  {| sel_active := None; sel_seen := ∅; sel_inner := inner |}.

(** ** What it amounts to *)

(** The substream headers among the records. *)
Definition substreams (records : list Record_) : list BeginRecord :=
  omap (fun record => match kind record with
    | Begin header => if header_type header =? DMU_SUBSTREAM then Some header else None
    | _ => None end) records.

(** The records of the chosen snapshots, what is not between one of their BEGINs
    and the next END or BEGIN left out. *)
Fixpoint chosen (selected : gset Z) (active : bool) (records : list Record_) : list Record_ :=
  match records with
  | [] => []
  | record :: records =>
      match kind record with
      | Begin header => chosen selected (bool_decide (is_Some (opened selected header))) records
      | End_ => chosen selected false records
      | _ => if active then record :: chosen selected active records else chosen selected active records
      end
  end.

(** The chosen snapshots that the stream holds. *)
Definition present (selected : gset Z) (records : list Record_) : gset Z :=
  selected ∩ list_to_set (map to_guid (substreams records)).

Section selected.
Context {S : Type} (handler : S -> Record_ -> result S).

(** The state after all the records is the fold over the chosen ones, with the
    snapshots that were present. *)
Lemma selected_loop selected records (s : selection S) :
  exists active,
  fold_res (selected_step handler selected) s records =
    let! inner := fold_res handler (sel_inner s) (chosen selected (bool_decide (is_Some (sel_active s))) records) in
    Ok {| sel_active := active; sel_seen := present selected records ∪ sel_seen s; sel_inner := inner |}.
Proof.
  revert s. induction records as [|record records IH]; intros s; cbn [fold_res chosen].
  { exists (sel_active s). cbn. unfold present. cbn. replace (selected ∩ ∅ ∪ sel_seen s) with (sel_seen s) by set_solver.
    by destruct s. }
  assert (forall s', selected_step handler selected s record = Ok s' -> sel_inner s' = sel_inner s ->
    present selected records ∪ sel_seen s' = present selected (record :: records) ∪ sel_seen s ->
    exists active, bind (selected_step handler selected s record) (fun s' => fold_res (selected_step handler selected) s' records) =
      let! inner := fold_res handler (sel_inner s)
        (chosen selected (bool_decide (is_Some (sel_active s'))) records) in
      Ok {| sel_active := active; sel_seen := present selected (record :: records) ∪ sel_seen s;
            sel_inner := inner |}) as Hkeep.
  { intros s' Hs' Hi Hp. destruct (IH s') as [active Ha]. exists active. rewrite Hs'. cbn [bind].
    by rewrite Ha, Hi, Hp. }
  assert (((forall h, kind record <> Begin h) /\ present selected (record :: records) = present selected records) \/
          exists h, kind record = Begin h) as [[Hnb Hpres]|[h Hh]].
  { unfold present, substreams. cbn. destruct (kind record); eauto. }
  2: { rewrite Hh. destruct (Hkeep {| sel_active := opened selected h;
          sel_seen := match opened selected h with Some guid => {[guid]} ∪ sel_seen s | None => sel_seen s end;
          sel_inner := sel_inner s |}) as [active Ha]; [|done..| |by exists active].
       - unfold selected_step. by rewrite Hh.
       - unfold present, substreams. cbn. rewrite Hh. unfold opened. cbn.
         destruct (header_type h =? DMU_SUBSTREAM); cbn [andb]; [|done].
         case_bool_decide; cbn; set_solver. }
  destruct (kind record) eqn:Hk;
    try (by destruct (Hnb _ eq_refl));
    try (destruct (Hkeep {| sel_active := None; sel_seen := sel_seen s; sel_inner := sel_inner s |})
           as [active Ha]; [by unfold selected_step; rewrite Hk|done|cbn; by rewrite Hpres|by exists active]);
    try (destruct (sel_active s) as [g|] eqn:Hact;
      [ rewrite bool_decide_true by eauto; cbn [fold_res];
        unfold selected_step at 1; rewrite Hk, Hact;
        destruct (handler (sel_inner s) record) as [inner|e| |] eqn:Hrec; cbn [bind];
          [|exists None; done..];
        destruct (IH {| sel_active := Some g; sel_seen := sel_seen s; sel_inner := inner |})
          as [active Ha]; exists active; rewrite Ha; cbn [sel_active sel_inner sel_seen];
        rewrite bool_decide_true by eauto; by rewrite Hpres
      | rewrite bool_decide_false by (by intros []);
        destruct (Hkeep s) as [active Ha]; [unfold selected_step; rewrite Hk, Hact; done|done|by rewrite Hpres|];
        exists active; rewrite Ha, Hact; rewrite bool_decide_false by (by intros []); done ]).
Qed.

(** An invariant of the handler is one of the frame. *)
Lemma wp_selected_step (I : S -> Prop) selected s record :
  (forall inner, I inner -> wp (handler inner record) I) -> I (sel_inner s) ->
  wp (selected_step handler selected s record) (fun s => I (sel_inner s)).
Proof.
  intros Hh Hs. unfold selected_step.
  assert (wp (match sel_active s with
    | Some _ => let! inner := handler (sel_inner s) record in
        Ok {| sel_active := sel_active s; sel_seen := sel_seen s; sel_inner := inner |}
    | None => Ok s end) (fun s => I (sel_inner s))) as Hrec.
  { destruct (sel_active s); [|by apply wp_Ok]. apply wp_bind. eapply wp_mono; [|by apply Hh].
    intros inner Hi. by apply wp_Ok. }
  destruct (kind record); try exact Hrec; by apply wp_Ok.
Qed.
End selected.
