(* ===== verification/ObjectIndex.v ===== *)
(** The object index of a snapshot chain, src/src/filesystem.rs lines 18-521:
    replaying the selected substreams of a plain or an encrypted raw send into
    object metadata, the directory and attribute objects' contents, and the raw
    dnodes. A [BTreeMap<u64, _>] is a [gmap]. *)

From S2P Require Import Prelude Bytes Stream StreamFacts Replay Paths Compression NvList Encrypted.
From S2P Require Import EncryptedDnode Extents Snapshots Selected.
From stdpp Require Import sorting.
#[local] Open Scope Z_scope.
#[local] Open Scope zse_scope.

(** ** Constants and data (lines 18-50) *)

Definition DMU_OT_ZNODE : Z := 17.
Definition DMU_OT_DIRECTORY_CONTENTS : Z := 20.
Definition DMU_OT_MASTER_NODE : Z := 21.
Definition DMU_OT_SA : Z := 44.
Definition DMU_OT_SA_MASTER_NODE : Z := 45.
Definition DMU_OT_SA_ATTR_REGISTRATION : Z := 46.
Definition DMU_OT_SA_ATTR_LAYOUTS : Z := 47.

Record ObjectMeta := {
  om_object_type : Z; om_bonus_type : Z; om_block_size : Z; om_max_block_id : Z;
  om_bonus : list Z; om_spill : option (list Z);
}.

Record ObjectIndex := {
  ix_begin : BeginRecord; ix_objects : gmap Z ObjectMeta; ix_data : gmap Z (list Z);
  ix_raw_crypto : option (Z * Z); ix_raw_dnodes : gmap Z RawDnode;
}.

Definition capture_object_data (object_type : Z) : bool :=
  (object_type =? DMU_OT_DIRECTORY_CONTENTS) || (object_type =? DMU_OT_MASTER_NODE)
  || (object_type =? DMU_OT_SA_MASTER_NODE) || (object_type =? DMU_OT_SA_ATTR_REGISTRATION)
  || (object_type =? DMU_OT_SA_ATTR_LAYOUTS).

(** ** Map operations *)

(** [map.retain(|id, _| *id < first || *id >= end)] *)
Definition retain_outside {A} (first end_ : Z) (m : gmap Z A) : gmap Z A :=
  filter (fun kv => kv.1 < first \/ end_ <= kv.1) m.

(** [map.range(first..end).map(|(_, v)| v.clone()).collect()]: in the order of
    the keys; a reversed range panics. *)
Definition key_le {A} (x y : Z * A) : Prop := x.1 <= y.1.
#[export] Instance key_le_dec {A} : RelDecision (@key_le A).
Proof. intros x y. unfold key_le. apply _. Defined.

Definition range_values {E A} (first end_ : Z) (m : gmap Z A) : res E (list A) :=
  if end_ <? first then Panic
  else Ok (map snd (merge_sort key_le (map_to_list (filter (fun kv => first <= kv.1 /\ kv.1 < end_) m)))).

(** [if let Some(v) = map.get_mut(&k) { *v = f(v)?; }] *)
Definition update_if_present {A} (k : Z) (f : A -> result A) (m : gmap Z A) : result (gmap Z A) :=
  match m !! k with
  | None => Ok m
  | Some v => let! v := f v in Ok (<[k := v]> m)
  end.

(** What an OBJECT record does to the captured data. *)
Definition capture (object : ObjectRecord) (preserve_data : bool) (data : gmap Z (list Z)) : gmap Z (list Z) :=
  let id := obj_object object in
  if capture_object_data (obj_type object) then
    if negb preserve_data then <[id := []]> data
    else match data !! id with Some _ => data | None => <[id := []]> data end
  else delete id data.

Definition has_type (object : ObjectRecord) (meta : option ObjectMeta) : bool :=
  match meta with Some meta => om_object_type meta =? obj_type object | None => false end.

(** The spill block an OBJECT record keeps. *)
Definition kept_spill (object : ObjectRecord) (meta : option ObjectMeta) : option (list Z) :=
  match meta with
  | Some meta => if has_bits (obj_flags object) 0x04 then om_spill meta else None
  | None => None
  end.

(** ** Plain sends (lines 86-221) *)

Section plain.
Context `{Codecs}.

(** The second [match] of the loop: a record of an open snapshot. *)
Definition plain_record (objects : gmap Z ObjectMeta) (data : gmap Z (list Z)) (record : Record_)
  : result (gmap Z ObjectMeta * gmap Z (list Z)) :=
  match kind record with
  | Object object =>
      let bonus_len := Z.min (default U64_MAX (usize_try_from (obj_bonus_length object))) (len (payload record)) in
      let previous := objects !! obj_object object in
      let! bonus := slice (payload record) 0 bonus_len in
      Ok (<[obj_object object := {|
             om_object_type := obj_type object; om_bonus_type := obj_bonus_type object;
             om_block_size := obj_block_size object; om_max_block_id := obj_max_block_id object;
             om_bonus := bonus; om_spill := kept_spill object previous |}]> objects,
          capture object (has_type object previous) data)
  | Write write =>
      let! data := update_if_present (wr_object write) (fun bytes =>
        let! plaintext := decode_replay_write (wr_compression_type write) (payload record) (wr_logical_size write) in
        write_extent bytes (wr_offset write) plaintext) data in
      Ok (objects, data)
  | WriteEmbedded write =>
      let! data := update_if_present (we_object write) (fun bytes =>
        let! plaintext := decode_embedded_write (we_compression_type write) (we_embedded_type write)
          (payload record) (we_physical_size write) (we_logical_size write) in
        replace_extent bytes (we_offset write) (we_length write) plaintext) data in
      Ok (objects, data)
  | WriteByRef =>
      Err (Msg "deduplicated WRITE_BYREF record at offset {} is unsupported" [stream_offset record])
  | ObjectRange _ => Err (Msg "raw OBJECT_RANGE record is unsupported" [])
  | Redact => Err (Msg "redacted streams are unsupported" [])
  | Free free =>
      let! data := update_if_present (fr_object free)
        (fun bytes => free_extent bytes (fr_offset free) (fr_length free)) data in
      Ok (objects, data)
  | FreeObjects range =>
      let end_ := saturating_add (fo_first_object range) (fo_object_count range) in
      Ok (retain_outside (fo_first_object range) end_ objects,
          retain_outside (fo_first_object range) end_ data)
  | Spill spill =>
      let! payload := decode_replay_write 0 (payload record) (sp_logical_size spill) in
      Ok (match objects !! sp_object spill with
          | Some meta => <[sp_object spill := {|
              om_object_type := om_object_type meta; om_bonus_type := om_bonus_type meta;
              om_block_size := om_block_size meta; om_max_block_id := om_max_block_id meta;
              om_bonus := om_bonus meta; om_spill := Some payload |}]> objects
          | None => objects
          end, data)
  | Begin _ | End_ => Ok (objects, data)
  end.

Definition plain_handler (s : gmap Z ObjectMeta * gmap Z (list Z)) (record : Record_) :=
  plain_record s.1 s.2 record.

Definition plain_step (selected : gset Z) := selected_step plain_handler selected.

Definition build_plain {R} `{Read R} (fuel : nat) (file : R) (plan : SnapshotPlan) : result ObjectIndex :=
  let selected := list_to_set (chain plan) in
  let! (s, reader) := each_record fuel (plain_step selected) (selection_start (∅, ∅)) (StreamReader_new file) in
  fail! negb (saw_end reader) with Msg "ZFS send stream has no END record" [] in
  fail! negb (Z.of_nat (size (sel_seen s)) =? len (chain plan))
    with Msg "stream changed between snapshot discovery and indexing" [] in
  Ok {| ix_begin := target plan; ix_objects := (sel_inner s).1; ix_data := (sel_inner s).2;
        ix_raw_crypto := None; ix_raw_dnodes := ∅ |}.
End plain.

(** ** Raw sends: the dnodes (lines 623-689) *)

Definition raw_layout_compatible (dnode : RawDnode) (object : ObjectRecord) : bool :=
  (dn_object_type dnode =? obj_type object)
  && (dn_block_size dnode =? obj_block_size object)
  && (dn_slots dnode =? obj_dnode_slots object)
  && (dn_indirect_block_shift dnode =? obj_indirect_block_shift object)
  && (dn_levels dnode =? obj_levels object)
  && (dn_block_pointers dnode =? obj_block_pointers object).

Definition set_blocks (dnode : RawDnode) (blocks : list RawBlockPointer) : RawDnode := {|
  dn_object := dn_object dnode; dn_object_type := dn_object_type dnode;
  dn_bonus_type := dn_bonus_type dnode; dn_block_size := dn_block_size dnode;
  dn_bonus_length := dn_bonus_length dnode; dn_checksum_type := dn_checksum_type dnode;
  dn_compression := dn_compression dnode; dn_slots := dn_slots dnode; dn_flags := dn_flags dnode;
  dn_indirect_block_shift := dn_indirect_block_shift dnode; dn_levels := dn_levels dnode;
  dn_block_pointers := dn_block_pointers dnode; dn_max_block_id := dn_max_block_id dnode;
  dn_bonus_ciphertext := dn_bonus_ciphertext dnode; dn_blocks := blocks; dn_spill := dn_spill dnode |}.

Definition set_spill (dnode : RawDnode) (spill : option RawBlockPointer) : RawDnode := {|
  dn_object := dn_object dnode; dn_object_type := dn_object_type dnode;
  dn_bonus_type := dn_bonus_type dnode; dn_block_size := dn_block_size dnode;
  dn_bonus_length := dn_bonus_length dnode; dn_checksum_type := dn_checksum_type dnode;
  dn_compression := dn_compression dnode; dn_slots := dn_slots dnode; dn_flags := dn_flags dnode;
  dn_indirect_block_shift := dn_indirect_block_shift dnode; dn_levels := dn_levels dnode;
  dn_block_pointers := dn_block_pointers dnode; dn_max_block_id := dn_max_block_id dnode;
  dn_bonus_ciphertext := dn_bonus_ciphertext dnode; dn_blocks := dn_blocks dnode; dn_spill := spill |}.

(** The test of [retain] in [free_raw_blocks]. *)
Definition survives_free (offset end_ : Z) (block : RawBlockPointer) : bool :=
  match checked_mul (bp_block_id block) (bp_logical_size block) with
  | None => false
  | Some start =>
      let block_end := saturating_add start (bp_logical_size block) in
      (block_end <=? offset) || (end_ <=? start)
  end.

Definition free_raw_blocks (dnode : RawDnode) (offset length : Z) : result RawDnode :=
  let! end_ :=
    if length =? U64_MAX then Ok U64_MAX
    else ok_or (checked_add offset length) (Msg "raw FREE extent overflow" []) in
  Ok (set_blocks dnode (List.filter (survives_free offset end_) (dn_blocks dnode))).

Definition set_bonus (meta : ObjectMeta) (bonus : list Z) : ObjectMeta := {|
  om_object_type := om_object_type meta; om_bonus_type := om_bonus_type meta;
  om_block_size := om_block_size meta; om_max_block_id := om_max_block_id meta;
  om_bonus := bonus; om_spill := om_spill meta |}.

Definition set_meta_spill (meta : ObjectMeta) (spill : option (list Z)) : ObjectMeta := {|
  om_object_type := om_object_type meta; om_bonus_type := om_bonus_type meta;
  om_block_size := om_block_size meta; om_max_block_id := om_max_block_id meta;
  om_bonus := om_bonus meta; om_spill := spill |}.

Section raw.
Context `{Codecs} `{Crypto}.

(** The loop body over the dnodes of a finished range. *)
Definition finish_dnode (bonuses : gmap Z (list Z)) (objects : gmap Z ObjectMeta) (dnode : RawDnode)
  : result (gmap Z ObjectMeta) :=
  match bonuses !! dn_object dnode with
  | Some bonus =>
      let! length := ok_or (usize_try_from (dn_bonus_length dnode)) (Msg "bonus length is too large" []) in
      let! meta := ok_or (objects !! dn_object dnode)
        (Msg "raw object {} is missing from the index" [dn_object dnode]) in
      let! bonus := slice bonus 0 length in
      Ok (<[dn_object dnode := set_bonus meta bonus]> objects)
  | None =>
      if negb (dn_bonus_length dnode =? 0) then
        let! length := ok_or (usize_try_from (dn_bonus_length dnode)) (Msg "bonus length is too large" []) in
        fail! len (dn_bonus_ciphertext dnode) <? length
          with Msg "raw object {} has a truncated bonus" [dn_object dnode] in
        let! meta := expect (objects !! dn_object dnode) in
        let! bonus := slice (dn_bonus_ciphertext dnode) 0 length in
        Ok (<[dn_object dnode := set_bonus meta bonus]> objects)
      else Ok objects
  end.

Definition finish_raw_range_state (key : DatasetKey) (range : option RawDnodeRange)
    (raw_dnodes : gmap Z RawDnode) (objects : gmap Z ObjectMeta) : result (gmap Z ObjectMeta) :=
  match range with
  | None => Ok objects
  | Some range =>
      let! end_ := ok_or (checked_add (rg_first_object range) (rg_object_slots range))
        (Msg "raw OBJECT_RANGE overflows its object IDs" []) in
      let! dnodes := range_values (rg_first_object range) end_ raw_dnodes in
      let! bonuses := decrypt_dnode_bonuses key range dnodes in
      fold_res (finish_dnode bonuses) objects dnodes
  end.

(** ** Raw sends: the records (lines 223-493) *)

Record raw_state := {
  rs_active : option Z; rs_key : option DatasetKey; rs_crypto : option (Z * Z);
  rs_range : option RawDnodeRange; rs_dnodes : gmap Z RawDnode;
  rs_objects : gmap Z ObjectMeta; rs_data : gmap Z (list Z); rs_seen : gset Z;
}.

(** The BEGIN record of a snapshot of the chain. *)
Definition raw_begin (key_material : list Z) (s : raw_state) (guid : Z) (begin_payload : list Z)
  : result raw_state :=
  let! params := from_begin_payload begin_payload in
  let! crypto :=
    match rs_crypto s with
    | None => Ok (Some (Encrypted.guid params, version params))
    | Some (crypto_guid, crypto_version) =>
        fail! negb (crypto_guid =? Encrypted.guid params) || negb (crypto_version =? version params)
          with Msg "selected raw snapshot chain changes encryption identity or format" [] in
        Ok (rs_crypto s)
    end in
  let! key := unlock params key_material in
  Ok {| rs_active := Some guid; rs_key := Some key; rs_crypto := crypto; rs_range := rs_range s;
        rs_dnodes := rs_dnodes s; rs_objects := rs_objects s; rs_data := rs_data s;
        rs_seen := {[guid]} ∪ rs_seen s |}.

Definition raw_object (s : raw_state) (object : ObjectRecord) (bonus : list Z) : result raw_state :=
  let id := obj_object object in
  let! range := ok_or (rs_range s) (Msg "raw OBJECT record appears before OBJECT_RANGE" []) in
  let range_end := saturating_add (rg_first_object range) (rg_object_slots range) in
  fail! (id <? rg_first_object range) || (range_end <=? id)
    with Msg "raw OBJECT record falls outside its OBJECT_RANGE" [] in
  let previous := rs_dnodes s !! id in
  let compatible := match previous with Some dnode => raw_layout_compatible dnode object | None => false end in
  let! blocks := if compatible then let! p := expect previous in Ok (dn_blocks p) else Ok [] in
  let blocks := List.filter (fun block => bp_block_id block <=? obj_max_block_id object) blocks in
  let spill := if has_bits (obj_flags object) 0x04 && compatible
               then match previous with Some dnode => dn_spill dnode | None => None end else None in
  let previous_meta := rs_objects s !! id in
  let dnode := {|
    dn_object := id; dn_object_type := obj_type object; dn_bonus_type := obj_bonus_type object;
    dn_block_size := obj_block_size object; dn_bonus_length := obj_bonus_length object;
    dn_checksum_type := obj_checksum_type object; dn_compression := obj_compression object;
    dn_slots := obj_dnode_slots object; dn_flags := obj_flags object;
    dn_indirect_block_shift := obj_indirect_block_shift object; dn_levels := obj_levels object;
    dn_block_pointers := obj_block_pointers object; dn_max_block_id := obj_max_block_id object;
    dn_bonus_ciphertext := bonus; dn_blocks := blocks; dn_spill := spill |} in
  Ok {| rs_active := rs_active s; rs_key := rs_key s; rs_crypto := rs_crypto s; rs_range := rs_range s;
        rs_dnodes := <[id := dnode]> (rs_dnodes s);
        rs_objects := <[id := {|
          om_object_type := obj_type object; om_bonus_type := obj_bonus_type object;
          om_block_size := obj_block_size object; om_max_block_id := obj_max_block_id object;
          om_bonus := []; om_spill := kept_spill object previous_meta |}]> (rs_objects s);
        rs_data := capture object (has_type object previous_meta) (rs_data s); rs_seen := rs_seen s |}.

(** The pointer takes the place of the first one with its block id. *)
Fixpoint replace_block (pointer : RawBlockPointer) (blocks : list RawBlockPointer) : list RawBlockPointer :=
  match blocks with
  | [] => [pointer]
  | block :: blocks =>
      if bp_block_id block =? bp_block_id pointer then pointer :: blocks
      else block :: replace_block pointer blocks
  end.

Definition set_dnodes_data (s : raw_state) (dnodes : gmap Z RawDnode) (data : gmap Z (list Z)) : raw_state := {|
  rs_active := rs_active s; rs_key := rs_key s; rs_crypto := rs_crypto s; rs_range := rs_range s;
  rs_dnodes := dnodes; rs_objects := rs_objects s; rs_data := data; rs_seen := rs_seen s |}.

Definition set_objects (s : raw_state) (objects : gmap Z ObjectMeta) : raw_state := {|
  rs_active := rs_active s; rs_key := rs_key s; rs_crypto := rs_crypto s; rs_range := rs_range s;
  rs_dnodes := rs_dnodes s; rs_objects := objects; rs_data := rs_data s; rs_seen := rs_seen s |}.

Definition raw_write (key : DatasetKey) (s : raw_state) (write : WriteRecord) (body : list Z)
  : result raw_state :=
  let! dnode := ok_or (rs_dnodes s !! wr_object write)
    (Msg "raw WRITE for object {} has no OBJECT record" [wr_object write]) in
  fail! (wr_logical_size write =? 0) || negb (wr_offset write mod wr_logical_size write =? 0)
    with Msg "raw WRITE for object {} has an invalid block offset" [wr_object write] in
  let pointer := {|
    bp_block_id := wr_offset write / wr_logical_size write; bp_object_type := wr_object_type write;
    bp_logical_size := wr_logical_size write; bp_physical_size := wr_compressed_size write;
    bp_compression := wr_compression_type write; bp_flags := wr_flags write; bp_mac := wr_mac write |} in
  let dnodes := <[wr_object write := set_blocks dnode (replace_block pointer (dn_blocks dnode))]> (rs_dnodes s) in
  let! data := update_if_present (wr_object write) (fun bytes =>
    let! protected :=
      if is_encrypted_object_type (wr_object_type write)
      then decrypt_block key (wr_salt write) (wr_iv write) (wr_mac write) [] body
      else let! _ := authenticate_block key body (wr_mac write) in Ok body in
    let! plaintext := raw_decompress_block (wr_compression_type write) protected (wr_logical_size write) in
    write_extent bytes (wr_offset write) plaintext) (rs_data s) in
  Ok (set_dnodes_data s dnodes data).

Definition raw_spill (key : DatasetKey) (s : raw_state) (spill : SpillRecord) (body : list Z)
  : result raw_state :=
  let! dnode := ok_or (rs_dnodes s !! sp_object spill)
    (Msg "raw SPILL for object {} has no OBJECT record" [sp_object spill]) in
  let pointer := {|
    bp_block_id := U64_MAX; bp_object_type := DMU_OT_SA; bp_logical_size := sp_logical_size spill;
    bp_physical_size := sp_compressed_size spill; bp_compression := sp_compression_type spill;
    bp_flags := sp_flags spill; bp_mac := sp_mac spill |} in
  let s := set_dnodes_data s (<[sp_object spill := set_spill dnode (Some pointer)]> (rs_dnodes s)) (rs_data s) in
  let! protected := decrypt_block key (sp_salt spill) (sp_iv spill) (sp_mac spill) [] body in
  let! plaintext := raw_decompress_block (sp_compression_type spill) protected (sp_logical_size spill) in
  let! meta := expect (rs_objects s !! sp_object spill) in
  Ok (set_objects s (<[sp_object spill := set_meta_spill meta (Some plaintext)]> (rs_objects s))).

(** A record of an open snapshot. *)
Definition raw_record (key : DatasetKey) (crypto_version : Z) (s : raw_state) (record : Record_)
  : result raw_state :=
  match kind record with
  | ObjectRange range =>
      let! objects := finish_raw_range_state key (rs_range s) (rs_dnodes s) (rs_objects s) in
      Ok {| rs_active := rs_active s; rs_key := rs_key s; rs_crypto := rs_crypto s;
            rs_range := Some {|
              rg_first_object := or_first_object range; rg_object_slots := or_object_slots range;
              rg_salt := or_salt range; rg_iv := or_iv range; rg_mac := or_mac range;
              rg_flags := or_flags range; rg_crypto_version := crypto_version |};
            rs_dnodes := rs_dnodes s; rs_objects := objects; rs_data := rs_data s; rs_seen := rs_seen s |}
  | Object object => raw_object s object (payload record)
  | Write write => raw_write key s write (payload record)
  | Free free =>
      let! dnodes := update_if_present (fr_object free)
        (fun dnode => free_raw_blocks dnode (fr_offset free) (fr_length free)) (rs_dnodes s) in
      let! data := update_if_present (fr_object free)
        (fun bytes => free_extent bytes (fr_offset free) (fr_length free)) (rs_data s) in
      Ok (set_dnodes_data s dnodes data)
  | FreeObjects range =>
      let end_ := saturating_add (fo_first_object range) (fo_object_count range) in
      let s' := set_dnodes_data s (retain_outside (fo_first_object range) end_ (rs_dnodes s))
        (retain_outside (fo_first_object range) end_ (rs_data s)) in
      Ok (set_objects s' (retain_outside (fo_first_object range) end_ (rs_objects s)))
  | WriteEmbedded write =>
      Err (Msg "raw embedded WRITE for object {} is unsupported" [we_object write])
  | WriteByRef => Err (Msg "raw deduplicated WRITE_BYREF is unsupported" [])
  | Spill spill => raw_spill key s spill (payload record)
  | Redact => Err (Msg "redacted streams are unsupported" [])
  | Begin _ | End_ => Ok s
  end.

Definition raw_step (selected : gset Z) (key_material : list Z) (s : raw_state) (record : Record_)
  : result raw_state :=
  match kind record with
  | Begin header =>
      match opened selected header with
      | Some guid => raw_begin key_material s guid (payload record)
      | None => Ok {| rs_active := None; rs_key := rs_key s; rs_crypto := rs_crypto s; rs_range := rs_range s;
                      rs_dnodes := rs_dnodes s; rs_objects := rs_objects s; rs_data := rs_data s;
                      rs_seen := rs_seen s |}
      end
  | End_ =>
      match rs_active s with
      | Some _ =>
          let! key := expect (rs_key s) in
          let! objects := finish_raw_range_state key (rs_range s) (rs_dnodes s) (rs_objects s) in
          Ok {| rs_active := None; rs_key := None; rs_crypto := rs_crypto s; rs_range := None;
                rs_dnodes := rs_dnodes s; rs_objects := objects; rs_data := rs_data s; rs_seen := rs_seen s |}
      | None => Ok s
      end
  | _ =>
      match rs_active s with
      | None => Ok s
      | Some _ =>
          let! key := expect (rs_key s) in
          let! crypto := expect (rs_crypto s) in
          raw_record key crypto.2 s record
      end
  end.

Definition raw_start : raw_state := {|
  rs_active := None; rs_key := None; rs_crypto := None; rs_range := None; rs_dnodes := ∅;
  rs_objects := ∅; rs_data := ∅; rs_seen := ∅ |}.

Definition build_raw_full {R} `{Read R} (fuel : nat) (file : R) (plan : SnapshotPlan)
    (key_material : option (list Z)) : result ObjectIndex :=
  let! key_material := ok_or key_material
    (Msg "encrypted raw send requires --key-file or an interactive key prompt" []) in
  let selected := list_to_set (chain plan) in
  let! (s, reader) := each_record fuel (raw_step selected key_material) raw_start (StreamReader_new file) in
  fail! negb (saw_end reader) with Msg "ZFS send stream has no END record" [] in
  fail! negb (Z.of_nat (size (rs_seen s)) =? len (chain plan))
    with Msg "selected raw snapshot chain disappeared while indexing the stream" [] in
  Ok {| ix_begin := target plan; ix_objects := rs_objects s; ix_data := rs_data s;
        ix_raw_crypto := rs_crypto s; ix_raw_dnodes := rs_dnodes s |}.

(** ** Entry points (lines 73-93, 495-521) *)

Definition build_plan_with_key {R} `{Read R} (fuel : nat) (file : R) (plan : SnapshotPlan)
    (key_material : option (list Z)) : result ObjectIndex :=
  if has_bits (features (target plan)) FEATURE_RAW
  then build_raw_full fuel file plan key_material
  else build_plain fuel file plan.

Definition build_plan {R} `{Read R} (fuel : nat) (file : R) (plan : SnapshotPlan) : result ObjectIndex :=
  build_plan_with_key fuel file plan None.

Definition build_snapshot {R} `{Read R} (fuel : nat) (file : R) (selector : option (list Z))
  : result ObjectIndex :=
  let! plan := plan_snapshot fuel file selector in
  build_plan fuel file plan.

Definition raw_sidecar_state (index : ObjectIndex) (object : Z) : result (option RawSidecarState) :=
  match ix_raw_crypto index with
  | None => Ok None
  | Some (crypto_guid, crypto_version) =>
      let object_slots := 32 in
      let first_object := object / object_slots * object_slots in
      let! end_ := add first_object object_slots in
      let! dnodes := range_values first_object end_ (ix_raw_dnodes index) in
      fail! negb (existsb (fun dnode => dn_object dnode =? object) dnodes)
        with Msg "raw state for extracted object {object} is missing" [object] in
      Ok (Some {|
        ss_crypto_guid := crypto_guid; ss_crypto_version := crypto_version;
        ss_first_object := first_object; ss_object_slots := object_slots; ss_dnodes := dnodes;
        ss_target_spill := match ix_objects index !! object with Some meta => om_spill meta | None => None end |})
  end.
End raw.
