(* ===== verification/IndexFacts.v ===== *)
(** What indexing a send does (src/src/filesystem.rs lines 94-521 and 623-689). Of a
    plain one: the invariant of the object table and the captured buffers, and the
    effect of each record on every buffer, byte by byte. Of a raw one: every raw
    dnode has its object in the index and is in range for the sidecar, the buffers
    stay those of the captured objects, and none of the [expect]s fires. *)

From stdpp Require Import sorting.
From S2P Require Import Prelude Bytes Stream StreamFacts Compression NvList Encrypted EncryptedDnode EncryptedFacts DnodeWalks Replay.
From S2P Require Import Extents Snapshots Selected ObjectIndex.
#[local] Open Scope Z_scope.
#[local] Open Scope zse_scope.

(** ** The invariant *)

Definition meta_ok (meta : ObjectMeta) : Prop :=
  is_u32 (om_object_type meta) /\ is_u32 (om_bonus_type meta) /\ bytes_ok (om_bonus meta) /\
  (forall spill, om_spill meta = Some spill -> bytes_ok spill).

Definition buffer_ok (bytes : list Z) : Prop := bytes_ok bytes /\ len bytes <= MAX_METADATA_OBJECT.

(** A buffer is kept for exactly the live objects of a captured type. *)
Definition captured (objects : gmap Z ObjectMeta) (id : Z) : Prop :=
  exists meta, objects !! id = Some meta /\ capture_object_data (om_object_type meta) = true.

Record store_ok (objects : gmap Z ObjectMeta) (data : gmap Z (list Z)) : Prop := {
  store_metas : map_Forall (fun _ => meta_ok) objects;
  store_buffers : map_Forall (fun _ => buffer_ok) data;
  store_captured : forall id, is_Some (data !! id) <-> captured objects id;
}.

(** The sizes a decoder is asked for can be reserved. *)
Definition sizes_ok (k : RecordKind) : Prop :=
  match k with
  | Write write => wr_compression_type write = 0 \/ wr_logical_size write <= ISIZE_MAX
  | _ => True
  end.

(** ** The effect on a buffer *)

(** What [record] does to the buffer of [id]. *)
Definition buffer_effect `{Codecs} (objects : gmap Z ObjectMeta) (record : Record_) (id : Z)
    (before after : option (list Z)) : Prop :=
  match kind record with
  | Object object =>
      after = if decide (id = obj_object object) then
        if capture_object_data (obj_type object) then
          if has_type object (objects !! id) then before else Some []
        else None
      else before
  | Write write =>
      match before with
      | Some old =>
          if decide (id = wr_object write) then
            exists plain new, after = Some new /\
              decode_replay_write (wr_compression_type write) (payload record) (wr_logical_size write) = Ok plain /\
              extent_post (Z.max (len old) (wr_offset write + wr_logical_size write)) (fun i =>
                if (wr_offset write <=? i) && (i <? wr_offset write + wr_logical_size write)
                then byte_at plain (i - wr_offset write) else byte_at old i) new
          else after = before
      | None => after = None
      end
  | WriteEmbedded write =>
      match before with
      | Some old =>
          if decide (id = we_object write) then
            exists plain new, after = Some new /\
              decode_embedded_write (we_compression_type write) (we_embedded_type write)
                (payload record) (we_physical_size write) (we_logical_size write) = Ok plain /\
              extent_post (Z.max (len old) (we_offset write + we_length write)) (fun i =>
                if (we_offset write <=? i) && (i <? we_offset write + we_length write)
                then byte_at plain (i - we_offset write) else byte_at old i) new
          else after = before
      | None => after = None
      end
  | Free free =>
      match before with
      | Some old =>
          if decide (id = fr_object free) then
            exists new, after = Some new /\
              if (fr_length free =? U64_MAX) && (fr_offset free <? len old)
              then extent_post (fr_offset free) (fun i => if fr_offset free <=? i then 0 else byte_at old i) new
              else extent_post (len old) (fun i =>
                if (fr_offset free <=? i) && (i <? fr_offset free + fr_length free) then 0 else byte_at old i) new
          else after = before
      | None => after = None
      end
  | FreeObjects range =>
      after = if decide (fo_first_object range <= id
                         < saturating_add (fo_first_object range) (fo_object_count range))
              then None else before
  | _ => after = before
  end.

(** ** Maps *)

Lemma wp_update_if_present {A} k (f : A -> result A) (m : gmap Z A) (P : gmap Z A -> Prop) :
  (m !! k = None -> P m) ->
  (forall v, m !! k = Some v -> wp (f v) (fun v' => P (<[k := v']> m))) ->
  wp (update_if_present k f m) P.
Proof.
  intros Hn Hs. unfold update_if_present. destruct (m !! k) as [v|] eqn:Hk; [|by apply wp_Ok, Hn].
  apply wp_bind. eapply wp_mono; [|by apply Hs]. intros v' Hv'. by apply wp_Ok.
Qed.

Lemma retain_outside_lookup {A} first end_ (m : gmap Z A) id :
  retain_outside first end_ m !! id = if decide (first <= id < end_) then None else m !! id.
Proof.
  unfold retain_outside. rewrite map_lookup_filter. destruct (m !! id) as [v|]; cbn; [|by case_decide].
  case_guard; cbn in *; case_decide; try done; lia.
Qed.

Lemma retain_outside_Forall {A} (P : Z -> A -> Prop) first end_ m :
  map_Forall P m -> map_Forall P (retain_outside first end_ m).
Proof. intros HP id v. rewrite retain_outside_lookup. case_decide; [done|apply HP]. Qed.

(** A buffer changes in place. *)
Lemma store_ok_buffer objects data id old new :
  store_ok objects data -> data !! id = Some old -> buffer_ok new -> store_ok objects (<[id := new]> data).
Proof.
  intros [Hm Hb Hc] Hold Hnew. split; [done|by apply map_Forall_insert_2|].
  intros id'. rewrite <- Hc. destruct (decide (id = id')) as [<-|]; simplify_map_eq; [|done].
  split; eauto.
Qed.

(** An object keeps its type. *)
Lemma store_ok_meta objects data id old new :
  store_ok objects data -> objects !! id = Some old -> meta_ok new ->
  om_object_type new = om_object_type old -> store_ok (<[id := new]> objects) data.
Proof.
  intros [Hm Hb Hc] Hold Hnew Ht. split; [by apply map_Forall_insert_2|done|].
  intros id'. rewrite Hc. unfold captured. destruct (decide (id = id')) as [<-|]; simplify_map_eq; [|done].
  split; intros (? & [= <-] & ?); eexists; (split; [done|congruence]).
Qed.

Lemma store_ok_object objects data object meta :
  store_ok objects data -> meta_ok meta -> om_object_type meta = obj_type object ->
  store_ok (<[obj_object object := meta]> objects)
    (capture object (has_type object (objects !! obj_object object)) data).
Proof.
  intros [Hm Hb Hc] Hok Ht. assert (buffer_ok []) as Hnil by (split; [constructor|done]).
  split; [by apply map_Forall_insert_2| |]; unfold capture; cbv zeta.
  - repeat case_match; try done; try (by apply map_Forall_insert_2). by apply map_Forall_delete.
  - intros id. unfold captured. destruct (decide (obj_object object = id)) as [<-|Hne]; simplify_map_eq.
    + destruct (capture_object_data (obj_type object)) eqn:Hcap.
      * split; [intros _; exists meta; split; [done|congruence]|].
        intros _. repeat case_match; simplify_map_eq; eauto.
      * simplify_map_eq. split; [intros []; done|]. intros (? & [= <-] & ?). congruence.
    + assert (is_Some (data !! id) <-> captured objects id) as Hid by done. unfold captured in Hid.
      rewrite <- Hid. repeat case_match; simplify_map_eq; done.
Qed.

Lemma store_ok_free objects data first end_ :
  store_ok objects data -> store_ok (retain_outside first end_ objects) (retain_outside first end_ data).
Proof.
  intros [Hm Hb Hc]. split; [by apply retain_outside_Forall..|].
  intros id. specialize (Hc id). unfold captured in *. rewrite !retain_outside_lookup. case_decide; [|done].
  split; [intros []; done|intros (? & ? & _); done].
Qed.

Lemma extent_post_ok size content bytes :
  extent_post size content bytes -> size <= MAX_METADATA_OBJECT -> buffer_ok bytes.
Proof. intros (? & <- & ?) ?. done. Qed.

Lemma kept_spill_ok object meta spill :
  (forall m, meta = Some m -> meta_ok m) -> kept_spill object meta = Some spill -> bytes_ok spill.
Proof.
  unfold kept_spill. intros Hm. destruct meta as [m|]; [|done]. case_match; [|done].
  by apply Hm.
Qed.

Lemma capture_lookup object preserve data id :
  capture object preserve data !! id =
    if decide (id = obj_object object) then
      if capture_object_data (obj_type object)
      then if preserve then Some (default [] (data !! id)) else Some [] else None
    else data !! id.
Proof.
  unfold capture. cbv zeta. case_decide as Hd; [subst|]; repeat case_match; simplify_map_eq; try done.
Qed.

(** ** One record *)

Section record.
Context `{CodecLaws}.

Lemma wp_sized_replay_write c p n :
  bytes_ok p -> c = 0 \/ n <= ISIZE_MAX -> wp (decode_replay_write c p n) (exact_block n).
Proof.
  intros Hp [->|Hn]; [|by apply wp_decode_replay_write]. unfold decode_replay_write. cbn.
  wp_steps. match goal with Hx : usize_try_from _ = Some _ |- _ => apply usize_try_from_Some in Hx as -> end.
  b2p. done.
Qed.

Lemma wp_plain_record objects data record :
  store_ok objects data -> kind_ok (kind record) -> bytes_ok (payload record) -> sizes_ok (kind record) ->
  wp (plain_record objects data record) (fun '(objects', data') =>
    store_ok objects' data' /\
    forall id, buffer_effect objects record id (data !! id) (data' !! id)).
Proof.
  intros Hst Hk Hp Hsz. pose proof (store_buffers _ _ Hst) as Hbufs. unfold plain_record, buffer_effect.
  destruct (kind record) as [b|o|r|w|f| | |s|w|r|] eqn:Hkind; cbn [kind_ok sizes_ok] in *; try (by apply wp_Err).
  - by apply wp_Ok.
  - pose proof (len_nonneg (payload record)). cbv zeta.
    assert (0 <= default U64_MAX (usize_try_from (obj_bonus_length o))) by (rewrite usize_try_from_u64 by u64; cbn; u64).
    apply wp_bind, wp_slice_fixed; [done|lia|lia|]. intros bonus [_ Hbonus]. apply wp_Ok. split.
    + apply store_ok_object; [done| |done]. split_and!; cbn; try tauto.
      intros spill. apply kept_spill_ok. intros m. apply (store_metas _ _ Hst).
    + intros id. rewrite capture_lookup. case_decide as Hd; [subst id|done]. case_match; [|done].
      case_match eqn:Ht; [|done].
      assert (is_Some (data !! obj_object o)) as [x Hx].
      { apply (store_captured _ _ Hst). unfold has_type in Ht. case_match; [|done]. b2p.
        eexists. split; [done|]. congruence. }
      by rewrite Hx.
  - apply wp_Ok. split; [by apply store_ok_free|]. intros id. by rewrite retain_outside_lookup.
  - apply wp_bind, wp_update_if_present.
    + intros Hn. apply wp_Ok. split; [done|]. intros id. destruct (data !! id) eqn:E; [|done].
      rewrite decide_False; [done|]. intros ->. congruence.
    + intros old Hold. apply wp_bind. eapply wp_mono; [|apply wp_conj; [by apply wp_sized_replay_write|intros a Ha; exact Ha]].
      intros plain [[Hl Hb] Hd]. eapply wp_mono; [|apply wp_write_extent; [by eapply Hbufs|done|tauto]].
      rewrite Hl. intros new [Hmax Hpost]. apply wp_Ok. split.
      * apply (store_ok_buffer _ _ _ old); [done..|]. eapply extent_post_ok; [done|]. destruct (Hbufs _ _ Hold). lia.
      * intros id. destruct (decide (id = wr_object w)) as [->|]; simplify_map_eq; [eauto|].
        by destruct (data !! id).
  - apply wp_bind, wp_update_if_present.
    + intros Hn. apply wp_Ok. split; [done|]. intros id. destruct (data !! id) eqn:E; [|done].
      rewrite decide_False; [done|]. intros ->. congruence.
    + intros old Hold. destruct (Hbufs _ _ Hold) as [Hbo Hlo].
      eapply wp_mono; [|apply wp_free_extent; [done|tauto|tauto|]].
      2: { unfold MAX_METADATA_OBJECT, ISIZE_MAX in *. lia. }
      intros new Hpost. apply wp_Ok. split.
      * apply (store_ok_buffer _ _ _ old); [done..|]. revert Hpost. case_match; intros Hpost; (eapply extent_post_ok; [done|]); b2p; lia.
      * intros id. destruct (decide (id = fr_object f)) as [->|]; simplify_map_eq; [exists new; split; [done|by case_match]|].
        by destruct (data !! id).
  - by apply wp_Ok.
  - apply wp_bind. eapply wp_mono; [|by apply (wp_sized_replay_write 0); [|left]].
    intros plain [_ Hb]. apply wp_Ok. split; [|done].
    destruct (objects !! sp_object s) as [meta|] eqn:Hm; [|done].
    apply store_metas in Hst as Hms. destruct (Hms _ _ Hm) as (?&?&?&?).
    eapply store_ok_meta; [done..| |done]. split_and!; cbn; try done. by intros ? [= <-].
  - apply wp_bind, wp_update_if_present.
    + intros Hn. apply wp_Ok. split; [done|]. intros id. destruct (data !! id) eqn:E; [|done].
      rewrite decide_False; [done|]. intros ->. congruence.
    + intros old Hold. apply wp_bind. eapply wp_mono; [|apply wp_conj; [apply wp_decode_embedded_write; [done|]|intros a Ha; exact Ha]].
      2: { unfold ISIZE_MAX. u64. }
      intros plain [[Hl Hb] Hd]. eapply wp_mono; [|apply wp_replace_extent; [by eapply Hbufs|done|tauto|tauto]].
      intros new (_ & Hmax & Hpost). apply wp_Ok. split.
      * apply (store_ok_buffer _ _ _ old); [done..|]. eapply extent_post_ok; [done|]. destruct (Hbufs _ _ Hold). lia.
      * intros id. destruct (decide (id = we_object w)) as [->|]; simplify_map_eq; [eauto|].
        by destruct (data !! id).
Qed.
End record.

(** ** Ranges of a map *)

Lemma range_values_spec {E A} first end_ (m : gmap Z A) :
  first <= end_ ->
  exists ids values, range_values (E:=E) first end_ m = Ok values /\
    Sorted Z.lt ids /\ Forall2 (fun id v => m !! id = Some v) ids values /\
    (forall id v, first <= id < end_ -> m !! id = Some v -> id ∈ ids) /\
    Forall (fun id => first <= id < end_) ids.
Proof.
  intros Hle. unfold range_values. rewrite (proj2 (Z.ltb_ge end_ first)) by done.
  set (l := merge_sort key_le _).
  assert (l ≡ₚ map_to_list (filter (fun kv => first <= kv.1 < end_) m)) as Hp by apply merge_sort_Permutation.
  assert (forall kv, kv ∈ l <-> m !! kv.1 = Some kv.2 /\ first <= kv.1 < end_) as Hin.
  { intros [k v]. rewrite Hp, elem_of_map_to_list, map_lookup_filter_Some. naive_solver. }
  assert (NoDup (map fst l)) as Hnd.
  { change (map fst l) with (l.*1). rewrite Hp. apply NoDup_fst_map_to_list. }
  exists (map fst l), (map snd l). split; [done|]. split_and!.
  - assert (Sorted key_le l) as Hs by (apply Sorted_merge_sort; intros [] []; unfold key_le; cbn; lia).
    apply Sorted_StronglySorted in Hs; [|intros [] [] []; unfold key_le; cbn; lia].
    clear Hp Hin. clearbody l. apply StronglySorted_Sorted.
    induction Hs as [|kv l Hs IH Hf]; [constructor|]. cbn in *. apply NoDup_cons in Hnd as [Hk Hnd].
    constructor; [auto|]. apply Forall_forall. intros k Hk'.
    apply list_elem_of_In, in_map_iff in Hk' as (kv' & <- & Hkv'%list_elem_of_In).
    rewrite Forall_forall in Hf. specialize (Hf _ Hkv'). unfold key_le in Hf.
    assert (kv.1 <> kv'.1); [|lia]. intros Heq. apply Hk. rewrite Heq.
    apply list_elem_of_In, in_map_iff. exists kv'. by rewrite <- list_elem_of_In.
  - assert (forall kv, kv ∈ l -> m !! kv.1 = Some kv.2) as Hl by naive_solver.
    clear -Hl. induction l as [|kv l IH]; constructor; [apply Hl; set_solver|apply IH; set_solver].
  - intros id v Hid Hm. apply list_elem_of_In, in_map_iff. exists (id, v). split; [done|].
    by apply list_elem_of_In, Hin.
  - apply Forall_forall. intros id Hid. apply list_elem_of_In, in_map_iff in Hid as (kv & <- & Hkv%list_elem_of_In).
    by apply Hin.
Qed.

Lemma wp_range_values {E A} first end_ (m : gmap Z A) (P : list A -> Prop) :
  first <= end_ ->
  (forall values, (forall v, v ∈ values -> exists id, first <= id < end_ /\ m !! id = Some v) -> P values) ->
  wp (range_values (E:=E) first end_ m) P.
Proof.
  intros Hle HP. destruct (range_values_spec (E:=E) first end_ m Hle) as (ids & values & -> & _ & Hf & _ & Hr).
  apply wp_Ok, HP. intros v Hv. apply list_elem_of_lookup in Hv as [i Hi].
  destruct (Forall2_lookup_r _ _ _ _ _ Hf Hi) as (id & Hid & Hm). exists id. split; [|done].
  rewrite Forall_forall in Hr. apply Hr. by apply list_elem_of_lookup_2 in Hid.
Qed.

(** ** The invariant *)

Definition range_ok (range : RawDnodeRange) : Prop :=
  is_u64 (rg_first_object range) /\ is_u64 (rg_object_slots range).

Record raw_store_ok (dnodes : gmap Z RawDnode) (objects : gmap Z ObjectMeta) (data : gmap Z (list Z)) : Prop := {
  raw_store : store_ok objects data;
  raw_dnodes_ok : map_Forall (fun id dnode => dnode_ok dnode /\ dn_object dnode = id) dnodes;
  raw_objects : forall id, is_Some (dnodes !! id) <-> is_Some (objects !! id);
}.

Record raw_ok (s : raw_state) : Prop := {
  raw_maps : raw_store_ok (rs_dnodes s) (rs_objects s) (rs_data s);
  raw_active : is_Some (rs_active s) -> is_Some (rs_key s) /\ is_Some (rs_crypto s);
  raw_range : forall range, rs_range s = Some range -> range_ok range;
}.

Definition raw_sizes_ok (k : RecordKind) : Prop :=
  match k with
  | Write write => wr_logical_size write <= ISIZE_MAX
  | Spill spill => sp_logical_size spill <= ISIZE_MAX
  | _ => True
  end.

(** An object's bonus or spill changes. *)
Lemma raw_store_meta dnodes objects data id old new :
  raw_store_ok dnodes objects data -> objects !! id = Some old -> meta_ok new ->
  om_object_type new = om_object_type old -> raw_store_ok dnodes (<[id := new]> objects) data.
Proof.
  intros [Hs Hd Ho] Hold Hnew Ht. split; [by eapply store_ok_meta|done|].
  intros id'. rewrite Ho. destruct (decide (id = id')) as [<-|]; simplify_map_eq; [|done]. by split; eauto.
Qed.

Lemma raw_store_dnode dnodes objects data id old new :
  raw_store_ok dnodes objects data -> dnodes !! id = Some old -> dnode_ok new -> dn_object new = id ->
  raw_store_ok (<[id := new]> dnodes) objects data.
Proof.
  intros [Hs Hd Ho] Hold Hnew Hid. split; [done|by apply map_Forall_insert_2|].
  intros id'. rewrite <- Ho. destruct (decide (id = id')) as [<-|]; simplify_map_eq; [|done]. by split; eauto.
Qed.

Lemma raw_store_buffer dnodes objects data id old new :
  raw_store_ok dnodes objects data -> data !! id = Some old -> buffer_ok new ->
  raw_store_ok dnodes objects (<[id := new]> data).
Proof. intros [Hs Hd Ho] Hold Hnew. split; [by eapply store_ok_buffer|done|done]. Qed.

(** ** Dnodes *)

Lemma dnode_ok_set_blocks d blocks : dnode_ok d -> Forall bp_ok blocks -> dnode_ok (set_blocks d blocks).
Proof. unfold dnode_ok. cbn. tauto. Qed.

Lemma dnode_ok_set_spill d b : dnode_ok d -> bp_ok b -> dnode_ok (set_spill d (Some b)).
Proof. unfold dnode_ok. cbn. intros ??. split_and!; try tauto. by intros ? [= <-]. Qed.

Lemma Forall_List_filter {A} (P : A -> Prop) f l : Forall P l -> Forall P (List.filter f l).
Proof. rewrite !Forall_forall. intros HP x. rewrite !list_elem_of_In, filter_In, <- list_elem_of_In. naive_solver. Qed.

Lemma Forall_replace_block (P : RawBlockPointer -> Prop) b l : P b -> Forall P l -> Forall P (replace_block b l).
Proof. intros Hb. induction 1 as [|x l Hx Hl IH]; cbn; [by repeat constructor|]. case_match; by constructor. Qed.

Lemma wp_free_raw_blocks d offset length :
  dnode_ok d -> wp (free_raw_blocks d offset length) (fun d' => dnode_ok d' /\ dn_object d' = dn_object d).
Proof.
  intros Hd. unfold free_raw_blocks. apply wp_bind, safe_wp.
  { unfold safe. apply wp_if; intros _; [done|]. by apply wp_ok_or. }
  intros end_ _. apply wp_Ok. split; [|done]. apply dnode_ok_set_blocks; [done|].
  by apply Forall_List_filter, dnode_ok_parts.
Qed.

Section raw_steps.
Context `{CodecLaws} `{CryptoLaws}.

(** ** The end of a range *)

Lemma wp_finish_dnode range dnodes bonuses all objects data dnode :
  raw_store_ok dnodes objects data -> bonuses_spec range all bonuses ->
  dnode ∈ all -> (exists id, dnodes !! id = Some dnode) ->
  wp (finish_dnode bonuses objects dnode) (fun objects' => raw_store_ok dnodes objects' data).
Proof.
  intros Hs (_ & _ & Hinj & Hb) Hin [id Hid]. destruct (raw_dnodes_ok _ _ _ Hs _ _ Hid) as [Hok <-].
  assert (is_Some (objects !! dn_object dnode)) as [meta Hmeta] by (apply (raw_objects _ _ _ Hs); eauto).
  destruct (store_metas _ _ (raw_store _ _ _ Hs) _ _ Hmeta) as (? & ? & _ & ?).
  assert (is_u32 (dn_bonus_length dnode)) as Hlen by (unfold dnode_ok in Hok; tauto).
  assert (forall bonus, bytes_ok bonus -> raw_store_ok dnodes (<[dn_object dnode := set_bonus meta bonus]> objects) data) as Hset.
  { intros bonus Hbo. by eapply raw_store_meta. }
  unfold finish_dnode. rewrite usize_try_from_u64 by u64. specialize (Hb (dn_object dnode)).
  destruct (bonuses !! dn_object dnode) as [bonus|]; cbn [ok_or bind].
  - destruct Hb as (d & Hd & Hobj & _ & _ & Hl & Hbo).
    rewrite (Hinj d dnode Hd Hin Hobj) in Hl. rewrite Hmeta. cbn [ok_or bind].
    apply wp_bind, wp_slice_fixed; [done|u64|lia|]. intros b [_ ?]. by apply wp_Ok, Hset.
  - apply wp_if; intros _; [|by apply wp_Ok]. wp_step. b2p. rewrite Hmeta. cbn [expect bind].
    apply wp_bind, wp_slice_fixed; [by apply dnode_ok_parts|u64|lia|]. intros b [_ ?]. by apply wp_Ok, Hset.
Qed.

Lemma wp_finish_raw_range key range dnodes objects data :
  (forall r, range = Some r -> range_ok r) -> raw_store_ok dnodes objects data ->
  wp (finish_raw_range_state key range dnodes objects) (fun objects' => raw_store_ok dnodes objects' data).
Proof.
  intros Hr Hs. destruct range as [range|]; [|by apply wp_Ok]. destruct (Hr _ eq_refl) as [Hf Hl].
  cbn [finish_raw_range_state]. wp_step. wp_step.
  match goal with Hx : checked_add _ _ = Some _ |- _ => apply checked_add_Some in Hx as [_ ->] end.
  apply wp_bind, wp_range_values; [u64|]. intros all Hall.
  apply wp_bind. eapply wp_mono; [|apply wp_decrypt_dnode_bonuses; [done|]].
  2: { apply Forall_forall. intros d Hd. destruct (Hall d Hd) as (id & _ & Hid).
       by destruct (raw_dnodes_ok _ _ _ Hs _ _ Hid). }
  intros bonuses Hb. apply wp_fold_res; [|done]. intros o d Hd Ho.
  eapply wp_finish_dnode; [done..|]. destruct (Hall d Hd) as (id & _ & Hid). eauto.
Qed.

(** ** The records *)

Lemma wp_raw_object s object bonus :
  raw_ok s -> kind_ok (Object object) -> bytes_ok bonus -> wp (raw_object s object bonus) raw_ok.
Proof.
  intros [Hs Ha Hr] Hk Hb. unfold raw_object. cbn [kind_ok] in Hk. wp_step. wp_step. cbv zeta. wp_step.
  set (compatible := match rs_dnodes s !! _ with Some _ => _ | None => _ end).
  assert (forall d, rs_dnodes s !! obj_object object = Some d -> dnode_ok d) as Hprev.
  { intros d Hd. by destruct (raw_dnodes_ok _ _ _ Hs _ _ Hd). }
  apply wp_bind. apply (wp_mono _ (Forall bp_ok)).
  2: { apply wp_if; intros Hc; [|by apply wp_Ok]. subst compatible.
       destruct (rs_dnodes s !! _) as [d|]; [|done]. cbn. apply dnode_ok_parts. by apply Hprev. }
  intros blocks Hblocks. apply wp_Ok. destruct Hs as [Hst Hd Ho]. split; cbn; [|done|done]. split.
  - apply store_ok_object; [done| |done]. split_and!; cbn; try tauto; [constructor|].
    intros spill. apply kept_spill_ok. intros m. apply (store_metas _ _ Hst).
  - apply map_Forall_insert_2; [|done]. split; [|done]. unfold dnode_ok. cbn.
    split_and!; try tauto; [by apply Forall_List_filter|]. intros b. case_match; [|done].
    destruct (rs_dnodes s !! obj_object object) as [d|]; [|done]. intros Hsp.
    by apply (dnode_ok_parts d (Hprev _ eq_refl)).
  - intros id. destruct (decide (obj_object object = id)) as [<-|]; simplify_map_eq; [|done]. split; eauto.
Qed.

Lemma wp_raw_decompress c p n :
  bytes_ok p -> n <= ISIZE_MAX -> wp (raw_decompress_block c p n) (exact_block n).
Proof. intros. by apply wp_decompress_block. Qed.

Lemma wp_authenticate key data mac (P : unit -> Prop) : P tt -> wp (authenticate_block key data mac) P.
Proof.
  intros HP. unfold authenticate_block, authenticate_bytes. wp_step.
  match goal with Hx : _ || _ = false |- _ => apply orb_false_iff in Hx as [_ Hx] end. b2p.
  pose proof (len_nonneg mac). destruct (hmac_len (hmac_key key) data).
  apply wp_bind, wp_slice; [lia|lia|]. intros digest _ _. by wp_steps.
Qed.

Lemma wp_raw_write key s write body :
  raw_ok s -> kind_ok (Write write) -> raw_sizes_ok (Write write) -> bytes_ok body ->
  wp (raw_write key s write body) raw_ok.
Proof.
  intros [Hs Ha Hr] Hk Hsz Hb. cbn [kind_ok raw_sizes_ok] in *. unfold raw_write. wp_step. wp_step.
  match goal with Hx : rs_dnodes s !! _ = Some ?x |- _ => rename Hx into Hd; rename x into d end.
  destruct (raw_dnodes_ok _ _ _ Hs _ _ Hd) as [Hdok Hobj]. wp_step. cbv zeta.
  match goal with Hx : _ || _ = false |- _ => apply orb_false_iff in Hx as [Hnz _] end. b2p.
  set (pointer := {| bp_block_id := _ |}).
  assert (bp_ok pointer) as Hp.
  { unfold bp_ok, pointer. cbn. split_and!; try tauto. split; [apply Z.div_pos; u64|].
    apply Z.div_le_upper_bound; [u64|]. unfold is_u64 in *. nia. }
  assert (raw_store_ok (<[wr_object write := set_blocks d (replace_block pointer (dn_blocks d))]> (rs_dnodes s))
    (rs_objects s) (rs_data s)) as Hs'.
  { eapply raw_store_dnode; [done..| |done]. apply dnode_ok_set_blocks; [done|].
    apply Forall_replace_block; [done|]. by apply dnode_ok_parts. }
  apply wp_bind, wp_update_if_present; [intros _; by apply wp_Ok|]. intros old Hold.
  apply wp_bind, (wp_mono _ bytes_ok).
  2: { apply wp_if; intros _; [by apply wp_decrypt_block|]. apply wp_bind, wp_authenticate. by apply wp_Ok. }
  intros protected Hprot. apply wp_bind. eapply wp_mono; [|by apply wp_raw_decompress].
  intros plain [_ Hplain]. destruct (store_buffers _ _ (raw_store _ _ _ Hs) _ _ Hold) as [Hbo Hlo].
  eapply wp_mono; [|apply wp_write_extent; [done|done|tauto]]. intros new [Hmax Hpost]. apply wp_Ok.
  split; cbn; [|done|done]. eapply raw_store_buffer; [done..|]. eapply extent_post_ok; [done|]. lia.
Qed.

Lemma wp_raw_spill key s spill body :
  raw_ok s -> kind_ok (Spill spill) -> raw_sizes_ok (Spill spill) ->
  wp (raw_spill key s spill body) raw_ok.
Proof.
  intros [Hs Ha Hr] Hk Hsz. cbn [kind_ok raw_sizes_ok] in *. unfold raw_spill. wp_step. wp_step. cbv zeta.
  match goal with Hx : rs_dnodes s !! _ = Some ?x |- _ => rename Hx into Hd; rename x into d end.
  destruct (raw_dnodes_ok _ _ _ Hs _ _ Hd) as [Hdok Hobj].
  set (pointer := {| bp_block_id := _ |}).
  assert (bp_ok pointer) as Hp.
  { unfold bp_ok, pointer, is_u64, is_u32, DMU_OT_SA in *. cbn. split_and!; try tauto; lia. }
  apply wp_bind, wp_decrypt_block. intros protected _ Hprot.
  apply wp_bind. eapply wp_mono; [|by apply wp_raw_decompress]. intros plain [_ Hplain].
  assert (is_Some (rs_objects s !! sp_object spill)) as [meta Hmeta] by (apply (raw_objects _ _ _ Hs); eauto).
  cbn [set_dnodes_data rs_objects]. rewrite Hmeta. cbn [expect bind]. apply wp_Ok. split; cbn; [|done|done].
  destruct (store_metas _ _ (raw_store _ _ _ Hs) _ _ Hmeta) as (?&?&?&_).
  eapply (raw_store_meta _ _ _ _ meta); [|done| |done].
  - eapply raw_store_dnode; [done..| |done]. by apply dnode_ok_set_spill.
  - split_and!; cbn; try done. by intros ? [= <-].
Qed.

Lemma wp_raw_free s free :
  raw_ok s -> kind_ok (Free free) ->
  wp (let! dnodes := update_if_present (fr_object free)
        (fun dnode => free_raw_blocks dnode (fr_offset free) (fr_length free)) (rs_dnodes s) in
      let! data := update_if_present (fr_object free)
        (fun bytes => free_extent bytes (fr_offset free) (fr_length free)) (rs_data s) in
      Ok (set_dnodes_data s dnodes data)) raw_ok.
Proof.
  intros [Hs Ha Hr] Hk. cbn [kind_ok] in Hk. apply wp_bind.
  apply (wp_mono _ (fun dnodes => raw_store_ok dnodes (rs_objects s) (rs_data s))).
  2: { apply wp_update_if_present; [done|]. intros d Hd. destruct (raw_dnodes_ok _ _ _ Hs _ _ Hd) as [Hdok Hobj].
       eapply wp_mono; [|by apply wp_free_raw_blocks]. intros d' [Hok' Hobj'].
       eapply raw_store_dnode; [done..|congruence]. }
  intros dnodes Hs'. apply wp_bind, wp_update_if_present; [intros _; by apply wp_Ok|]. intros old Hold.
  destruct (store_buffers _ _ (raw_store _ _ _ Hs) _ _ Hold) as [Hbo Hlo].
  eapply wp_mono; [|apply wp_free_extent; [done|tauto|tauto|unfold MAX_METADATA_OBJECT, ISIZE_MAX in *; lia]].
  intros new Hpost. apply wp_Ok. split; cbn; [|done|done]. eapply raw_store_buffer; [done..|].
  revert Hpost. case_match; intros Hpost; (eapply extent_post_ok; [done|]); b2p; lia.
Qed.

Lemma wp_raw_record key version s record :
  raw_ok s -> kind_ok (kind record) -> bytes_ok (payload record) -> raw_sizes_ok (kind record) ->
  wp (raw_record key version s record) raw_ok.
Proof.
  intros Hs Hk Hb Hsz. unfold raw_record.
  destruct (kind record) as [b|o|r|w|f| | |sp|w|r|]; try apply wp_Err; try (by apply wp_Ok).
  - by apply wp_raw_object.
  - cbv zeta. apply wp_Ok. destruct Hs as [[Hst Hd Ho] Ha Hr]. split; cbn; [|done|done]. split.
    + by apply store_ok_free.
    + by apply retain_outside_Forall.
    + intros id. rewrite !retain_outside_lookup. case_decide; [|done]. split; intros []; done.
  - by apply wp_raw_write.
  - by apply wp_raw_free.
  - by apply wp_raw_spill.
  - destruct Hs as [Hst Ha Hr]. apply wp_bind. eapply wp_mono; [|by apply wp_finish_raw_range].
    intros objects Hst'. apply wp_Ok. split; cbn; [done|done|]. intros range [= <-].
    cbn [kind_ok] in Hk. unfold range_ok. cbn. tauto.
Qed.

Lemma wp_raw_step selected key_material s record :
  raw_ok s -> kind_ok (kind record) -> bytes_ok (payload record) -> raw_sizes_ok (kind record) ->
  wp (raw_step selected key_material s record) raw_ok.
Proof.
  intros Hs Hk Hb Hsz. unfold raw_step.
  assert (wp (match rs_active s with
    | Some _ => let! key := expect (rs_key s) in let! crypto := expect (rs_crypto s) in
                raw_record key crypto.2 s record
    | None => Ok s end) raw_ok) as Hrec.
  { destruct (rs_active s) as [g|] eqn:Hact; [|by apply wp_Ok].
    destruct (raw_active s Hs) as [[key Hkey] [crypto Hcrypto]]; [eauto|].
    rewrite Hkey, Hcrypto. cbn [expect bind]. by apply wp_raw_record. }
  destruct (kind record) as [b| | | | | | | | | |] eqn:Hkind; try exact Hrec.
  - destruct Hs as [Hst Ha Hr]. destruct (opened selected b) as [g|].
    2: { apply wp_Ok. split; cbn; [done|by intros []|done]. }
    unfold raw_begin. apply wp_bind. eapply wp_mono; [|by apply wp_from_begin_payload].
    intros params _. apply wp_bind. apply (wp_mono _ is_Some).
    2: { destruct (rs_crypto s) as [[cg cv]|]; [|apply wp_Ok; eauto]. wp_steps. eauto. }
    intros crypto Hc. apply wp_bind. eapply wp_mono; [|apply wp_unlock]. intros key _.
    apply wp_Ok. split; cbn; [done|eauto|done].
  - destruct (rs_active s) as [g|] eqn:Hact; [|by apply wp_Ok]. destruct Hs as [Hst Ha Hr].
    destruct (Ha ltac:(eauto)) as [[key Hkey] _]. rewrite Hkey. cbn [expect bind].
    apply wp_bind. eapply wp_mono; [|by apply wp_finish_raw_range].
    intros objects Hst'. apply wp_Ok. split; cbn; [done|by intros []|done].
Qed.
End raw_steps.
