(* ===== verification/FilesystemProps.v ===== *)
(** The properties of snapshot selection, path normalisation and indexing
    (src/src/filesystem.rs), each with a concrete instance where it has
    hypotheses. *)

From stdpp Require Import sorting.
From S2P Require Import Prelude Bytes Utf8 Stream StreamFacts StreamWriter StreamProps Replay Paths.
From S2P Require Import Compression CompressionProps NvList Encrypted EncryptedDnode EncryptedFacts.
From S2P Require Import EncryptedProps Extents Snapshots Selected ObjectIndex IndexFacts.
#[local] Open Scope Z_scope.
#[local] Open Scope zse_scope.

(** ** Choosing one of several *)

(** The only element with a property is at [i]. *)
Definition sole {A} (p : A -> bool) (l : list A) (i : Z) : Prop :=
  (exists x, get l i = Some x /\ p x = true) /\
  (forall j y, get l j = Some y -> p y = true -> j = i).

Lemma matching_NoDup {A} (p : A -> bool) l : NoDup (matching p l).
Proof.
  unfold matching, enumerate. assert (NoDup ((zip (seqZ 0 (len l)) l).*1)) as Hnd.
  { rewrite fst_zip; [apply NoDup_seqZ|]. rewrite length_seqZ. unfold len. lia. }
  revert Hnd. generalize (zip (seqZ 0 (len l)) l). intros k. induction k as [|[j x] k IH]; cbn; [constructor|].
  intros [Hj Hk]%NoDup_cons. case_match; [|auto]. cbn. apply NoDup_cons. split; [|auto].
  contradict Hj. apply list_elem_of_In, in_map_iff in Hj as (e & <- & [He _]%filter_In).
  apply list_elem_of_In, in_map_iff. by exists e.
Qed.

Lemma matching_cases {A} (p : A -> bool) l :
  (matching p l = [] /\ forall j y, get l j = Some y -> p y = false) \/
  (exists i, matching p l = [i] /\ sole p l i) \/
  (1 < len (matching p l) /\ (forall i, ~ sole p l i) /\ exists j y, get l j = Some y /\ p y = true).
Proof.
  pose proof (matching_NoDup p l) as Hnd. pose proof (matching_elem p l) as Hel.
  destruct (matching p l) as [|i [|i2 m]].
  - left. split; [done|]. intros j y Hj. destruct (p y) eqn:Hp; [|done].
    destruct (not_elem_of_nil j). apply Hel. eauto.
  - right; left. exists i. split; [done|]. split; [apply Hel; set_solver|].
    intros j y Hj Hp. apply list_elem_of_singleton, Hel. eauto.
  - right; right. split; [rewrite !len_cons; pose proof (len_nonneg m); lia|].
    destruct (proj1 (Hel i) ltac:(set_solver)) as (x & Hx & Hpx).
    destruct (proj1 (Hel i2) ltac:(set_solver)) as (x2 & Hx2 & Hpx2).
    split; [|eauto]. intros j [_ Hs]. pose proof (Hs _ _ Hx Hpx). pose proof (Hs _ _ Hx2 Hpx2). subst.
    apply NoDup_cons in Hnd as [Hnd _]. set_solver.
Qed.

(** What a selector designates: the only snapshot of the file; else the one with
    that full name; else, where no one is, the one with that short name; else,
    where there is none, the one with that GUID. *)
Inductive designates (snapshots : list BeginRecord) : option (list Z) -> Z -> Prop :=
| by_default : len snapshots = 1 -> designates snapshots None 0
| by_name selector i :
    sole (fun header => bytes_eqb (dataset_name header) selector) snapshots i ->
    designates snapshots (Some selector) i
| by_short_name selector i :
    (forall j, ~ sole (fun header => bytes_eqb (dataset_name header) selector) snapshots j) ->
    sole (short_name_is (default selector (strip_prefix [AT] selector))) snapshots i ->
    designates snapshots (Some selector) i
| by_guid selector i guid :
    (forall j, ~ sole (fun header => bytes_eqb (dataset_name header) selector) snapshots j) ->
    (forall j header, get snapshots j = Some header ->
       short_name_is (default selector (strip_prefix [AT] selector)) header = false) ->
    parse_selector_guid selector = Some guid ->
    sole (fun header => to_guid header =? guid) snapshots i ->
    designates snapshots (Some selector) i.

Lemma sole_unique {A} (p : A -> bool) l i j : sole p l i -> sole p l j -> i = j.
Proof. intros [(x & Hx & Hp) _] [_ H]. by eapply H. Qed.

Lemma not_sole {A} (p : A -> bool) l : (forall j y, get l j = Some y -> p y = false) -> forall i, ~ sole p l i.
Proof. intros H i [(x & Hx & Hp) _]. rewrite (H _ _ Hx) in Hp. done. Qed.

(** Either [matching] picks the sole one, or the callers' length test fails. *)
Lemma matching_one {A} (p : A -> bool) l :
  (exists i, matching p l = [i] /\ sole p l i) \/
  ((len (matching p l) =? 1) = false /\ forall i, ~ sole p l i).
Proof.
  destruct (matching_cases p l) as [[-> Hno]|[Hone|(H1 & Hno & _)]].
  - right. split; [done|by apply not_sole].
  - by left.
  - right. split; [apply Z.eqb_neq; lia|done].
Qed.

Lemma select_spec snapshots selector :
  wpe (select_snapshot snapshots selector) (designates snapshots selector)
    (fun _ => forall i, ~ designates snapshots selector i).
Proof.
  destruct selector as [selector|]; cbn [select_snapshot].
  2: { destruct (Z.eqb_spec (len snapshots) 1) as [H|H]; [by constructor|].
       intros i Hd. by inversion Hd. }
  destruct (matching_one (fun header => bytes_eqb (dataset_name header) selector) snapshots)
    as [(i & -> & Hs)|[-> Hno]]; [by apply by_name|].
  destruct (matching_cases (short_name_is (default selector (strip_prefix [AT] selector))) snapshots)
    as [[-> Hnone]|[(i & -> & Hs)|(H1 & Hnos & j & y & Hj & Hp)]].
  - change (len (@nil Z) =? 1) with false. change (1 <? len (@nil Z)) with false. cbn iota.
    destruct (parse_selector_guid selector) as [guid|] eqn:Hg.
    2: { intros i Hd. inversion Hd; subst; try congruence; [by eapply Hno|by eapply not_sole]. }
    assert (forall i, ~ sole (fun header => to_guid header =? guid) snapshots i ->
              ~ designates snapshots (Some selector) i) as Hnot.
    { intros i Hns Hd. inversion Hd; subst; [by eapply Hno|by eapply not_sole|]. simplify_eq. done. }
    destruct (matching_one (fun header => to_guid header =? guid) snapshots) as [(i & -> & Hs)|[-> Hnog]].
    + by eapply by_guid.
    + destruct (1 <? _); cbn; intros i; apply Hnot, Hnog.
  - by apply by_short_name.
  - rewrite (proj2 (Z.eqb_neq _ _)) by lia. rewrite (proj2 (Z.ltb_lt _ _) H1). cbn.
    intros i Hd. inversion Hd as [| |? ? ? Hsh|? ? ? ? Hsh]; subst; [by eapply Hno|by eapply Hnos|].
    by rewrite (Hsh _ _ Hj) in Hp.
Qed.

Lemma designates_unique snapshots selector i j :
  designates snapshots selector i -> designates snapshots selector j -> i = j.
Proof.
  intros [H1|sel i1 Hs|sel i1 Hn Hs|sel i1 guid Hn Hns Hg Hs] Hj;
    inversion Hj as [|? ? Hs2|? ? Hn2 Hs2|? ? guid2 Hn2 Hns2 Hg2 Hs2]; subst; try done;
    try (by eapply sole_unique); try (by destruct (Hn _ Hs2)); try (by destruct (Hn2 _ Hs)).
  - by destruct (not_sole _ _ Hns2 _ Hs).
  - by destruct (not_sole _ _ Hns _ Hs2).
  - assert (guid = guid2) as -> by congruence. by eapply sole_unique.
Qed.

(** ** The records of a stream *)

Lemma collect_substreams records acc :
  fold_res header_step acc records = Ok (acc ++ substreams records).
Proof.
  revert acc. induction records as [|record records IH]; intros acc; cbn.
  - by rewrite app_nil_r.
  - unfold header_step at 1. destruct (kind record); cbn [bind]; try apply IH.
    case_match; cbn [bind]; rewrite IH; [|done]. by rewrite <- app_assoc.
Qed.

Section read.
Context {R : Type} `{ReadLaws R}.

Lemma snapshot_headers_read fuel (file : R) records r :
  read_all fuel (StreamReader_new file) = Ok (records, r) -> saw_end r = true ->
  substreams records <> [] -> snapshot_headers fuel file = Ok (substreams records).
Proof.
  intros Hr Hsaw Hne. unfold snapshot_headers. rewrite (each_record_read_all _ _ _ _ _ _ Hr).
  rewrite collect_substreams. cbn [bind app]. rewrite Hsaw. cbn. by destruct (substreams records).
Qed.

End read.

(** ** Properties *)

(** indexing a plain send is replaying, in order, the records of the chosen
    snapshots and nothing else: the records of other substreams, whatever they
    hold, have no influence on the objects and buffers. It succeeds just when
    every replayed record does and each snapshot of the chain was found. *)
Theorem plain_index_is_replay `{Codecs} {R} `{ReadLaws R} fuel (file : R) plan records r :
  read_all fuel (StreamReader_new file) = Ok (records, r) -> saw_end r = true ->
  let selected := list_to_set (chain plan) in
  build_plain fuel file plan =
    let! (objects, data) := fold_res plain_handler (∅, ∅) (chosen selected false records) in
    fail! negb (Z.of_nat (size (present selected records)) =? len (chain plan))
      with Msg "stream changed between snapshot discovery and indexing" [] in
    Ok {| ix_begin := target plan; ix_objects := objects; ix_data := data;
          ix_raw_crypto := None; ix_raw_dnodes := ∅ |}.
Proof.
  intros Hr Hsaw selected. unfold build_plain. rewrite (each_record_read_all _ _ _ _ _ _ Hr).
  destruct (selected_loop plain_handler selected records (selection_start (∅, ∅))) as [active Hl].
  unfold plain_step. fold selected. rewrite Hl. cbn [sel_active selection_start sel_inner sel_seen].
  rewrite bool_decide_false by (by intros []).
  destruct (fold_res plain_handler (∅, ∅) _) as [[objects data]|e| |]; cbn [bind sel_seen sel_inner fst snd]; try done.
  rewrite Hsaw. cbn [negb]. by rewrite (right_id_L ∅ (∪)).
Qed.

Definition sample_plan : SnapshotPlan := {| target := sample_begin; chain := [77] |}.

Lemma plain_index_is_replay_witness :
  exists records r, read_all 5 (StreamReader_new sample_bytes) = Ok (records, r) /\
    build_plain 5 sample_bytes sample_plan =
      let! (objects, data) := fold_res plain_handler (∅, ∅) (chosen {[77]} false records) in
      fail! negb (Z.of_nat (size (present {[77]} records)) =? 1)
        with Msg "stream changed between snapshot discovery and indexing" [] in
      Ok {| ix_begin := sample_begin; ix_objects := objects; ix_data := data;
            ix_raw_crypto := None; ix_raw_dnodes := ∅ |}.
Proof.
  destruct (read_all 5 (StreamReader_new sample_bytes)) as [[records r]| | |] eqn:E;
    [|exfalso; revert E; vm_compute; congruence..].
  exists records, r. split; [done|].
  assert (saw_end r = true) as Hsaw.
  { assert (match read_all 5 (StreamReader_new sample_bytes) with Ok (_, r) => saw_end r | _ => false end = true) as H
      by (vm_compute; reflexivity). by rewrite E in H. }
  pose proof (plain_index_is_replay 5 sample_bytes sample_plan records r E Hsaw) as H. cbv zeta in H.
  replace (list_to_set (chain sample_plan)) with ({[77]} : gset Z) in H; [exact H|].
  vm_compute. reflexivity.
Defined.

(** What an index built from a file satisfies. *)
Definition index_ok (index : ObjectIndex) : Prop :=
  store_ok (ix_objects index) (ix_data index) /\
  (is_Some (ix_raw_crypto index) -> raw_store_ok (ix_raw_dnodes index) (ix_objects index) (ix_data index)).

Lemma raw_store_empty : raw_store_ok ∅ ∅ ∅.
Proof.
  split; [split| |]; try apply map_Forall_empty.
  - intros id. unfold captured. split; [intros []; done|intros (? & ? & _); done].
  - intros id. rewrite !lookup_empty. split; intros []; done.
Qed.

(** indexing a file, plain or encrypted, always returns: no slice, index or
    [expect] fails and one unit of fuel per 312 bytes, plus one, is enough,
    provided no record declares a block larger than [isize::MAX]. In the index
    it returns, a buffer of at most 64 MiB is kept for exactly the live objects
    of the captured types, and an encrypted send has a raw dnode for exactly the
    live objects. *)
Theorem index_returns `{CodecLaws} `{CryptoLaws} {R} `{ReadLaws R} fuel (file : R) plan key :
  reader_wf (StreamReader_new file) -> remaining file < RECORD_SIZE * Z.of_nat fuel ->
  (forall record, produces (StreamReader_new file) record -> raw_sizes_ok (kind record)) ->
  wp (build_plan_with_key fuel file plan key) index_ok.
Proof.
  intros Hwf Hfuel Hsz. unfold build_plan_with_key. apply wp_if; intros _.
  - unfold build_raw_full. wp_step. wp_step. cbv zeta. apply wp_bind.
    eapply wp_mono; [|apply (wp_each_record _ _ (fun _ => raw_ok)); [done|done| |]].
    + intros [s r] (c & Hs & _ & _). wp_steps. destruct Hs as [Hst _ _].
      by split; [apply Hst|].
    + intros s c record c' Hp Hk Hb _ _ Hs. by apply wp_raw_step; [..|apply Hsz].
    + split; cbn; [apply raw_store_empty|by intros []|done].
  - unfold build_plain. cbv zeta. apply wp_bind.
    eapply wp_mono; [|apply (wp_each_record _ _ (fun _ s => store_ok (sel_inner s).1 (sel_inner s).2)); [done|done| |]].
    + intros [s r] (c & Hs & _ & _). wp_steps. split; [done|]. by intros [].
    + intros s c record c' Hp Hk Hb _ _ Hs.
      apply (wp_selected_step _ (fun inner => store_ok inner.1 inner.2)); [|done]. intros inner Hi.
      eapply wp_mono; [|apply wp_plain_record; [done..|]]; [by intros [] []|].
      specialize (Hsz record Hp). destruct (kind record); try done. by right.
    + apply raw_store_empty.
Qed.

Lemma index_returns_witness :
  wp (build_plan_with_key 5 sample_bytes sample_plan None) index_ok.
Proof.
  apply (index_returns 5 sample_bytes sample_plan None).
  - apply reader_wf_new; [apply bytes_ok_dec; vm_compute; reflexivity|vm_compute; discriminate].
  - vm_compute. reflexivity.
  - intros record Hp.
    destruct (read_all 5 (StreamReader_new sample_bytes)) as [[records r]| | |] eqn:E;
      [|exfalso; revert E; vm_compute; congruence..].
    pose proof (produces_read_all _ _ _ _ _ E Hp) as Hin.
    assert (forallb (fun record => match kind record with
      | Write w => wr_logical_size w <=? ISIZE_MAX | Spill s => sp_logical_size s <=? ISIZE_MAX
      | _ => true end) records = true) as Hall.
    { assert (match read_all 5 (StreamReader_new sample_bytes) with
        | Ok (records, _) => forallb (fun record => match kind record with
            | Write w => wr_logical_size w <=? ISIZE_MAX | Spill s => sp_logical_size s <=? ISIZE_MAX
            | _ => true end) records
        | _ => false end = true) as H by (vm_compute; reflexivity). by rewrite E in H. }
    rewrite forallb_forall in Hall. specialize (Hall record (proj1 (list_elem_of_In _ _) Hin)).
    destruct (kind record); try exact I; by apply Z.leb_le.
Defined.

(** what a record of a plain send does to the buffers, byte by byte: OBJECT
    starts, keeps or drops the object's buffer; WRITE, WRITE_EMBEDDED and FREE
    change exactly the bytes of their extent, to the decoded payload, the
    decoded payload padded with zeros, and zeros (or cut the buffer there);
    FREEOBJECTS drops its range. No other buffer changes, and the invariant of
    the index is kept. *)
Theorem record_effect `{CodecLaws} objects data record :
  store_ok objects data -> kind_ok (kind record) -> bytes_ok (payload record) -> sizes_ok (kind record) ->
  wp (plain_record objects data record) (fun '(objects', data') =>
    store_ok objects' data' /\
    forall id, buffer_effect objects record id (data !! id) (data' !! id)).
Proof.
  intros. eapply wp_mono; [|by apply wp_plain_record]. by intros [].
Qed.

Definition sample_meta : ObjectMeta := {|
  om_object_type := 20; om_bonus_type := 44; om_block_size := 512; om_max_block_id := 0;
  om_bonus := []; om_spill := None |}.
Definition sample_record (k : RecordKind) (p : list Z) : Record_ :=
  {| stream_offset := 312; kind := k; payload := p |}.

Lemma record_effect_witness :
  wp (plain_record {[9 := sample_meta]} {[9 := [1; 2; 3]]} (sample_record (Write sample_write) sample_payload))
    (fun '(objects', data') => store_ok objects' data' /\
      forall id, buffer_effect {[9 := sample_meta]} (sample_record (Write sample_write) sample_payload) id
        (({[9 := [1; 2; 3]]} : gmap Z (list Z)) !! id) (data' !! id)).
Proof.
  apply record_effect.
  - split.
    + apply map_Forall_singleton. unfold meta_ok, is_u32. cbn. split_and!; try lia; [constructor|done].
    + apply map_Forall_singleton. split; [apply bytes_ok_dec; vm_compute; reflexivity|vm_compute; discriminate].
    + intros id. unfold captured. rewrite !lookup_singleton. case_decide.
      * split; [intros _|eauto]. exists sample_meta. split; reflexivity.
      * split; [intros []; done|intros (? & ? & _); done].
  - apply (proj1 (Forall_lookup _ _) sample_encodable 1%nat (Write sample_write, sample_payload) eq_refl).
  - apply bytes_ok_dec; vm_compute; reflexivity.
  - left. reflexivity.
Defined.

Example record_effect_run :
  plain_record {[9 := sample_meta]} {[9 := [1; 2; 3]]}
    (sample_record (Free {| fr_object := 9; fr_offset := 1; fr_length := 1 |}) [])
  = Ok ({[9 := sample_meta]}, {[9 := [1; 0; 3]]}).
Proof. vm_compute. reflexivity. Qed.

(** C38: planning. Given a readable file with a snapshot in it, a plan is made
    exactly when the selector designates a snapshot and its bases, each the
    nearest earlier snapshot with the GUID its successor names, lead to a full
    send; the plan is that snapshot and those GUIDs, oldest first. Otherwise
    the answer is an error: no index is out of range and the search ends. *)
Theorem plan_is_chain {R} `{ReadLaws R} fuel (file : R) selector records r :
  read_all fuel (StreamReader_new file) = Ok (records, r) -> saw_end r = true ->
  substreams records <> [] ->
  wpe (plan_snapshot fuel file selector)
    (fun plan => exists i, designates (substreams records) selector i /\
       get (substreams records) i = Some (target plan) /\ based_on (substreams records) i (chain plan))
    (fun _ => forall i guids, designates (substreams records) selector i ->
       ~ based_on (substreams records) i guids).
Proof.
  intros Hr Hsaw Hne. unfold plan_snapshot. rewrite (snapshot_headers_read _ _ _ _ Hr Hsaw Hne).
  cbn [bind]. unfold plan_of. generalize (substreams records). intros snapshots.
  pose proof (select_spec snapshots selector) as Hsel.
  destruct (select_snapshot snapshots selector) as [i|e| |]; cbn [bind wpe] in *; [|naive_solver|done|done].
  assert (exists h, get snapshots i = Some h) as [h Hh] by (inversion Hsel as [H1|? ? [(?&?&_) _]|? ? ? [(?&?&_) _]|? ? ? ? ? ? [(?&?&_) _]]; subst; eauto; apply get_is_Some; lia).
  unfold index. rewrite Hh. cbn [expect bind]. apply get_lt in Hh as Hi.
  pose proof (plan_loop_spec snapshots (S (length snapshots)) i h [to_guid h] Hh ltac:(unfold len in Hi; lia)) as Hp.
  destruct (plan_loop _ _ _ _ _) as [c|e| |]; cbn [bind wpe] in *; [|..]; try done.
  - destruct Hp as (guids & -> & Hb). exists i. cbn. split_and!; [done|done|].
    replace (rev (tail (rev guids)) ++ [to_guid h]) with guids; [done|].
    inversion Hb; subst; cbn; [by simplify_eq|]. rewrite rev_app_distr. cbn. rewrite rev_involutive. by simplify_eq.
  - intros j guids Hd. replace j with i; [apply Hp|]. by eapply designates_unique.
Qed.

Definition read_sample : option (list BeginRecord) :=
  match read_all 5 (StreamReader_new sample_bytes) with
  | Ok (records, r) => if saw_end r then Some (substreams records) else None
  | _ => None
  end.

Lemma plan_is_chain_witness :
  wpe (plan_snapshot 5 sample_bytes (Some (bytes_of_string "@s")))
    (fun plan => exists i, designates [sample_begin] (Some (bytes_of_string "@s")) i /\
       get [sample_begin] i = Some (target plan) /\ based_on [sample_begin] i (chain plan))
    (fun _ => forall i guids, designates [sample_begin] (Some (bytes_of_string "@s")) i ->
       ~ based_on [sample_begin] i guids).
Proof.
  assert (read_sample = Some [sample_begin]) as Hs by (vm_compute; reflexivity). unfold read_sample in Hs.
  destruct (read_all 5 (StreamReader_new sample_bytes)) as [[records r]| | |] eqn:E; try discriminate Hs.
  destruct (saw_end r) eqn:Hsaw; [|discriminate Hs]. injection Hs as Hs.
  pose proof (plan_is_chain 5 sample_bytes (Some (bytes_of_string "@s")) records r E Hsaw) as H.
  rewrite Hs in H. apply H. discriminate.
Defined.

Example plan_is_chain_run :
  plan_snapshot 5 sample_bytes (Some (bytes_of_string "@s")) = Ok sample_plan /\
  plan_snapshot 5 sample_bytes (Some (bytes_of_string "0x4d")) = Ok sample_plan.
Proof. split; vm_compute; reflexivity. Qed.

Lemma sorted_by {A} (f : A -> Z) l :
  Sorted Z.lt (map f l) -> StronglySorted (fun x y => f x < f y) l.
Proof.
  intros Hs. apply Sorted_StronglySorted in Hs; [|intros ???; lia].
  induction l as [|x l IH]; [constructor|]. cbn in Hs. inversion Hs as [|? ? Hl Hf]; subst.
  constructor; [auto|]. apply Forall_forall. intros y Hy. rewrite Forall_forall in Hf. apply Hf.
  apply list_elem_of_In, in_map, list_elem_of_In, Hy.
Qed.

(** the raw state written beside an object extracted from an encrypted send
    holds exactly the live dnodes of the object's 32-slot range, in the order
    of their numbers, the object's own among them; it exists unless the object
    has no dnode. *)
Theorem raw_sidecar_exact index object crypto :
  index_ok index -> 0 <= object <= U64_MAX - 32 -> ix_raw_crypto index = Some crypto ->
  wpe (raw_sidecar_state index object)
    (fun out => exists state, out = Some state /\
       (ss_crypto_guid state, ss_crypto_version state) = crypto /\
       ss_first_object state mod 32 = 0 /\ ss_object_slots state = 32 /\
       ss_first_object state <= object < ss_first_object state + 32 /\
       StronglySorted (fun d1 d2 => dn_object d1 < dn_object d2) (ss_dnodes state) /\
       (forall dnode, dnode ∈ ss_dnodes state <->
          ix_raw_dnodes index !! dn_object dnode = Some dnode /\
          ss_first_object state <= dn_object dnode < ss_first_object state + 32) /\
       is_Some (ix_raw_dnodes index !! object))
    (fun _ => ix_raw_dnodes index !! object = None).
Proof.
  intros [_ Hraw] Hobj Hc. unfold raw_sidecar_state. rewrite Hc. destruct crypto as [guid version]. cbv zeta.
  destruct (Hraw ltac:(eauto)) as [_ Hd _]. pose proof (Z.div_mod object 32 ltac:(lia)) as Hdm.
  pose proof (Z.mod_pos_bound object 32 ltac:(lia)) as Hmod.
  set (first := object / 32 * 32) in *. assert (0 <= first <= object /\ object < first + 32) as Hf.
  { pose proof (Z.div_pos object 32). lia. }
  unfold add. rewrite (proj2 (Z.leb_le (first + 32) U64_MAX)) by lia. cbn [bind].
  destruct (range_values_spec (E:=error) first (first + 32) (ix_raw_dnodes index) ltac:(lia))
    as (ids & values & -> & Hsort & Hvals & Hall & Hin).
  cbn [bind]. assert (ids = map dn_object values) as ->.
  { clear -Hvals Hd. induction Hvals as [|id v ids values Hv _ IH]; [done|]. cbn. f_equal; [|done].
    by destruct (Hd _ _ Hv). }
  assert (forall dnode, dnode ∈ values <-> ix_raw_dnodes index !! dn_object dnode = Some dnode /\
    first <= dn_object dnode < first + 32) as Helem.
  { intros dnode. split.
    - intros [k Hk]%list_elem_of_lookup. destruct (Forall2_lookup_r _ _ _ _ _ Hvals Hk) as (id & Hid & Hm).
      destruct (Hd _ _ Hm) as [_ <-]. split; [done|]. rewrite Forall_forall in Hin. apply Hin.
      by eapply list_elem_of_lookup_2.
    - intros [Hm Hr]. pose proof (Hall _ _ Hr Hm) as [k Hk]%list_elem_of_lookup.
      destruct (Forall2_lookup_l _ _ _ _ _ Hvals Hk) as (v & Hv & Hmv). rewrite Hm in Hmv. injection Hmv as ->.
      by eapply list_elem_of_lookup_2. }
  assert (existsb (fun dnode => dn_object dnode =? object) values = true <->
    is_Some (ix_raw_dnodes index !! object)) as Hex.
  { rewrite existsb_exists. split.
    - intros (d & Hd1 & Hd2). b2p. subst object. apply list_elem_of_In, Helem in Hd1 as [? _]. eauto.
    - intros [d Hm]. destruct (Hd _ _ Hm) as [_ Ho]. exists d. split; [|by apply Z.eqb_eq].
      apply list_elem_of_In, Helem. rewrite Ho. split; [done|lia]. }
  destruct (existsb _ values) eqn:He; cbn [negb wpe].
  - eexists. split; [done|]. cbn. split_and!; try done; try lia; [apply Z.mod_mul; lia|by apply sorted_by|by apply Hex].
  - destruct (ix_raw_dnodes index !! object) eqn:Hm; [|done].
    assert (false = true); [apply Hex; eauto|done].
Qed.

Definition raw_sample_index : ObjectIndex := {|
  ix_begin := sample_begin; ix_objects := {[dn_object sample_dnode := {|
    om_object_type := dn_object_type sample_dnode; om_bonus_type := 0; om_block_size := 512;
    om_max_block_id := 0; om_bonus := []; om_spill := None |}]};
  ix_data := ∅; ix_raw_crypto := Some (5, 1);
  ix_raw_dnodes := {[dn_object sample_dnode := sample_dnode]} |}.

Lemma raw_sample_index_ok : index_ok raw_sample_index.
Proof.
  assert (store_ok (ix_objects raw_sample_index) (ix_data raw_sample_index)) as Hs.
  { split; unfold raw_sample_index; cbn [ix_objects ix_data].
    - apply map_Forall_singleton. unfold meta_ok, is_u32. cbn. split_and!; try lia; [constructor|done].
    - apply map_Forall_empty.
    - intros id. unfold captured. rewrite lookup_empty. split; [intros []; done|].
      intros (meta & Hm & Hc). apply lookup_singleton_Some in Hm as [_ <-]. discriminate Hc. }
  split; [done|]. intros _. split; [done| |]; unfold raw_sample_index; cbn [ix_objects ix_raw_dnodes].
  - apply map_Forall_singleton. split; [apply sample_dnode_ok|done].
  - intros id. rewrite !lookup_singleton. case_decide; split; intros []; eauto; done.
Qed.

Lemma raw_sidecar_exact_witness :
  exists state, raw_sidecar_state raw_sample_index (dn_object sample_dnode) = Ok (Some state) /\
    (forall dnode, dnode ∈ ss_dnodes state <->
       ix_raw_dnodes raw_sample_index !! dn_object dnode = Some dnode /\
       ss_first_object state <= dn_object dnode < ss_first_object state + 32).
Proof.
  pose proof (raw_sidecar_exact raw_sample_index (dn_object sample_dnode) (5, 1) raw_sample_index_ok
    ltac:(split; vm_compute; discriminate) eq_refl) as H.
  destruct (raw_sidecar_state raw_sample_index (dn_object sample_dnode)) as [out|e| |] eqn:E;
    [|exfalso; revert E; vm_compute; discriminate..].
  destruct H as (state & -> & _ & _ & _ & _ & _ & H & _). exists state. split; [done|exact H].
Defined.

(** path normalisation is canonical: the result is an absolute path with
    the same components and no empty, dot or dot-dot component; normalising it
    again changes nothing; the only paths refused are those with a dot or
    dot-dot component. *)
Theorem normalize_path_canonical path :
  wpe (normalize_path path)
    (fun out => components out = components path /\ normalize_path out = Ok out /\
       out = SLASH :: join SLASH (components out) /\
       Forall (fun c => plain_component c /\ is_dots c = false) (components out))
    (fun _ => Exists (fun c => is_dots c = true) (components path)).
Proof.
  rewrite normalize_path_eq. destruct (existsb is_dots (components path)) eqn:He; cbn [wpe].
  - apply existsb_exists in He as (c & Hc & Hd). apply Exists_exists. exists c. by rewrite list_elem_of_In.
  - pose proof (components_absolute path) as Ha. rewrite normalize_path_eq, Ha, He. split_and!; try done.
    apply Forall_and. split; [apply components_plain|]. apply Forall_forall. intros c Hc.
    destruct (is_dots c) eqn:Hd; [|done]. rewrite <- He. symmetry. apply existsb_exists. exists c.
    by rewrite <- list_elem_of_In.
Qed.
