(* ===== verification/Resolve.v ===== *)
(** Paths in an indexed snapshot, src/src/filesystem.rs lines 523-620 and
    821-912: walking the directories' ZAPs, the system attributes of an object,
    and where its size is stored. The ZAP and SA codecs are the crate [zfs_core]:
    a type class gives what the code calls. *)

From stdpp Require Import sorting.
From S2P Require Import Prelude Bytes Stream Paths Encrypted EncryptedDnode Snapshots ObjectIndex.
#[local] Open Scope Z_scope.
#[local] Open Scope zse_scope.

(** ** The codec crate *)

(** The attributes the source names, and the rest. *)
Record ZplAttrs := {
  zp_mode : Z; zp_size : Z; zp_links : Z; zp_uid : Z; zp_gid : Z; zp_gen : Z; zp_parent : Z;
  zp_flags : Z; zp_atime : Z * Z; zp_mtime : Z * Z; zp_ctime : Z * Z; zp_crtime : Z * Z;
  zp_unknown_attr_ids : list Z; zp_rest : list Z;
}.

Class ZfsCore := {
  SaRegistry : Type;
  SaLayouts : Type;
  ZPL_DIRENT_OBJ_MASK : Z;
  zap_list : list Z -> list (list Z * Z);
  zap_lookup : list Z -> list Z -> option Z;
  parse_sa_registry : list Z -> SaRegistry;
  parse_sa_layouts : list Z -> SaLayouts;
  (** [registry.by_name(name).map(|attr| attr.id)], [registry.size_of(id)] *)
  by_name_id : SaRegistry -> list Z -> option Z;
  size_of : SaRegistry -> Z -> option Z;
  attr_ids : SaLayouts -> Z -> option (list Z);
  decode_sa_bonus : list Z -> SaRegistry -> SaLayouts -> option ZplAttrs;
  decode_znode_phys : list Z -> option ZplAttrs;
}.

(** Sizes are u16, and a layout is a vector in memory. *)
Class ZfsCoreLaws `{ZfsCore} := {
  size_of_u16 : forall registry id n, size_of registry id = Some n -> is_u16 n;
  attr_ids_len : forall layouts layout ids, attr_ids layouts layout = Some ids -> len ids <= U32_MAX;
  sa_size_u64 : forall bonus registry layouts attrs,
    bytes_ok bonus -> decode_sa_bonus bonus registry layouts = Some attrs -> is_u64 (zp_size attrs);
  znode_size_u64 : forall bonus attrs, bytes_ok bonus -> decode_znode_phys bonus = Some attrs -> is_u64 (zp_size attrs);
}.

(** ** Data (lines 52-70) *)

Record ResolvedPath := {
  normalized_path : list Z; object_id : Z; object_type : Z; bonus_type : Z; logical_size : Z;
  dirent_type : Z; rp_size_bonus_offset : option Z; rp_size_spill_offset : option Z;
}.

Record DirectoryEntry := {
  de_name : list Z; de_object_id : Z; de_dirent_type : Z; de_logical_size : option Z;
}.

Section resolve.
Context `{ZfsCore}.

(** ** System attributes (lines 821-912) *)

(** The walk over the layout's attributes up to the one searched for. *)
Fixpoint attribute_walk (registry : SaRegistry) (attr_id length : Z) (offset : Z) (ids : list Z)
  : result (option Z) :=
  match ids with
  | [] => Ok None
  | id :: ids =>
      if id =? attr_id then
        match size_of registry id with
        | None => Ok None
        | Some size =>
            let! end_ := add offset size in
            Ok (if end_ <=? length then Some offset else None)
        end
      else
        match size_of registry id with
        | None => Ok None
        | Some size =>
            if size =? 0 then Ok None
            else match checked_add offset size with
                 | None => Ok None
                 | Some offset => attribute_walk registry attr_id length offset ids
                 end
        end
  end.

Definition sa_attribute_offset (buffer : list Z) (name : string) (registry : SaRegistry)
    (layouts : SaLayouts) : result (option Z) :=
  if len buffer <? 8 then Ok None
  else
    match by_name_id registry (bytes_of_string name) with
    | None => Ok None
    | Some attr_id =>
        let! info := slice buffer 4 6 in
        let info := le_val info in
        let layout := Z.land info 0x03ff in
        let offset := Z.shiftl (Z.land (Z.shiftr info 10) 0x3f) 3 in
        match attr_ids layouts layout with
        | None => Ok None
        | Some ids => attribute_walk registry attr_id (len buffer) offset ids
        end
    end.

Definition is_some {A} (o : option A) : bool := match o with Some _ => true | None => false end.

Definition merge_spill_attrs (base spill : ZplAttrs) (buffer : list Z) (registry : SaRegistry)
    (layouts : SaLayouts) : result ZplAttrs :=
  let replace_if_present {A} (name : string) (field : ZplAttrs -> A) : result A :=
    let! offset := sa_attribute_offset buffer name registry layouts in
    Ok (if is_some offset then field spill else field base) in
  let! mode := replace_if_present "ZPL_MODE" zp_mode in
  let! size := replace_if_present "ZPL_SIZE" zp_size in
  let! links := replace_if_present "ZPL_LINKS" zp_links in
  let! uid := replace_if_present "ZPL_UID" zp_uid in
  let! gid := replace_if_present "ZPL_GID" zp_gid in
  let! gen := replace_if_present "ZPL_GEN" zp_gen in
  let! parent := replace_if_present "ZPL_PARENT" zp_parent in
  let! flags := replace_if_present "ZPL_FLAGS" zp_flags in
  let! atime := replace_if_present "ZPL_ATIME" zp_atime in
  let! mtime := replace_if_present "ZPL_MTIME" zp_mtime in
  let! ctime := replace_if_present "ZPL_CTIME" zp_ctime in
  let! crtime := replace_if_present "ZPL_CRTIME" zp_crtime in
  Ok {| zp_mode := mode; zp_size := size; zp_links := links; zp_uid := uid; zp_gid := gid;
        zp_gen := gen; zp_parent := parent; zp_flags := flags; zp_atime := atime; zp_mtime := mtime;
        zp_ctime := ctime; zp_crtime := crtime;
        zp_unknown_attr_ids := zp_unknown_attr_ids base ++ zp_unknown_attr_ids spill;
        zp_rest := zp_rest base |}.

Definition decode_attrs (meta : ObjectMeta) (registry : SaRegistry) (layouts : SaLayouts)
  : result (option ZplAttrs) :=
  if om_bonus_type meta =? DMU_OT_SA then
    match decode_sa_bonus (om_bonus meta) registry layouts with
    | None => Ok None
    | Some attrs =>
        match om_spill meta with
        | Some spill =>
            match decode_sa_bonus spill registry layouts with
            | Some spill_attrs =>
                let! attrs := merge_spill_attrs attrs spill_attrs spill registry layouts in
                Ok (Some attrs)
            | None => Ok (Some attrs)
            end
        | None => Ok (Some attrs)
        end
    end
  else if om_bonus_type meta =? DMU_OT_ZNODE then Ok (decode_znode_phys (om_bonus meta))
  else Ok None.

Definition size_bonus_offset (meta : ObjectMeta) (registry : SaRegistry) (layouts : SaLayouts)
  : result (option Z) :=
  if om_bonus_type meta =? DMU_OT_ZNODE then Ok (if 88 <=? len (om_bonus meta) then Some 80 else None)
  else if negb (om_bonus_type meta =? DMU_OT_SA) || (len (om_bonus meta) <? 8) then Ok None
  else sa_attribute_offset (om_bonus meta) "ZPL_SIZE" registry layouts.

Definition size_spill_offset (meta : ObjectMeta) (registry : SaRegistry) (layouts : SaLayouts)
  : result (option Z) :=
  if om_bonus_type meta =? DMU_OT_SA then
    match om_spill meta with
    | Some spill => sa_attribute_offset spill "ZPL_SIZE" registry layouts
    | None => Ok None
    end
  else Ok None.

(** ** Paths (lines 523-620) *)

Definition zap_entry (zap : list Z) (name : string) : option Z := zap_lookup zap (bytes_of_string name).

Definition sa_context (index : ObjectIndex) : result (SaRegistry * SaLayouts) :=
  let! master := ok_or (ix_data index !! 1) (Msg "ZPL master node object 1 has no data" []) in
  let! sa_master_id := ok_or (zap_entry master "SA_ATTRS") (Msg "ZPL master node has no SA_ATTRS entry" []) in
  let! sa_master := ok_or (ix_data index !! sa_master_id)
    (Msg "SA master object {sa_master_id} has no data" [sa_master_id]) in
  let! registry_id := ok_or (zap_entry sa_master "REGISTRY") (Msg "SA master object has no REGISTRY entry" []) in
  let! layouts_id := ok_or (zap_entry sa_master "LAYOUTS") (Msg "SA master object has no LAYOUTS entry" []) in
  let! registry := ok_or (ix_data index !! registry_id)
    (Msg "SA registry object {registry_id} has no data" [registry_id]) in
  let! layouts := ok_or (ix_data index !! layouts_id)
    (Msg "SA layouts object {layouts_id} has no data" [layouts_id]) in
  Ok (parse_sa_registry registry, parse_sa_layouts layouts).

(** One component: the object of the entry and its type, [(raw >> 60) as u8]. *)
Definition resolve_step (index : ObjectIndex) (at_ : Z * Z) (component : list Z) : result (Z * Z) :=
  let! directory := ok_or (ix_data index !! at_.1)
    (Msg "path component {component:?} is not a readable directory" []) in
  let! entry := ok_or (List.find (fun entry => bytes_eqb entry.1 component) (zap_list directory))
    (Msg "path {normalized:?} was not found in the stream" []) in
  let raw := entry.2 in
  Ok (Z.land raw ZPL_DIRENT_OBJ_MASK, Z.land (Z.shiftr raw 60) 0xff).

Definition resolve_path (index : ObjectIndex) (path : list Z) : result ResolvedPath :=
  let! normalized := normalize_path path in
  let! (registry, layouts) := sa_context index in
  let! master := ok_or (ix_data index !! 1) (Msg "ZPL master node object 1 is absent" []) in
  let! root := ok_or (zap_entry master "ROOT") (Msg "ZPL master node has no ROOT entry" []) in
  let! (current, dirent_type) := fold_res (resolve_step index) (root, 4) (components normalized) in
  let! meta := ok_or (ix_objects index !! current)
    (Msg "object {current} for path {normalized:?} has no OBJECT record" [current]) in
  let! attrs := decode_attrs meta registry layouts in
  let! attrs := ok_or attrs (Msg "could not decode ZPL metadata for object {current}" [current]) in
  let! bonus_offset := size_bonus_offset meta registry layouts in
  let! spill_offset := size_spill_offset meta registry layouts in
  Ok {| normalized_path := normalized; object_id := current; object_type := om_object_type meta;
        bonus_type := om_bonus_type meta; logical_size := zp_size attrs; dirent_type := dirent_type;
        rp_size_bonus_offset := bonus_offset; rp_size_spill_offset := spill_offset |}.

(** [String]'s order: the bytes, lexicographically. *)
Fixpoint bytes_leb (a b : list Z) : bool :=
  match a, b with
  | [], _ => true
  | _ :: _, [] => false
  | x :: a, y :: b => if x =? y then bytes_leb a b else x <? y
  end.

Definition name_le (x y : DirectoryEntry) : Prop := bytes_leb (de_name x) (de_name y) = true.
#[local] Instance name_le_dec : RelDecision name_le.
Proof. intros x y. unfold name_le. apply _. Defined.

Definition directory_entry (index : ObjectIndex) (registry : SaRegistry) (layouts : SaLayouts)
    (entry : list Z * Z) : result DirectoryEntry :=
  let raw := entry.2 in
  let object_id := Z.land raw ZPL_DIRENT_OBJ_MASK in
  let! attrs :=
    match ix_objects index !! object_id with
    | Some meta => decode_attrs meta registry layouts
    | None => Ok None
    end in
  Ok {| de_name := entry.1; de_object_id := object_id; de_dirent_type := Z.land (Z.shiftr raw 60) 0xff;
        de_logical_size := option_map zp_size attrs |}.

Definition list_directory (index : ObjectIndex) (path : list Z) : result (list DirectoryEntry) :=
  let! resolved := resolve_path index path in
  fail! negb (dirent_type resolved =? 4) with Msg "{} is not a directory" [] in
  let! (registry, layouts) := sa_context index in
  let! directory := ok_or (ix_data index !! object_id resolved)
    (Msg "directory object {} has no data" [object_id resolved]) in
  let! entries := map_res (directory_entry index registry layouts) (zap_list directory) in
  Ok (merge_sort name_le entries).
End resolve.
