(* ===== verification/ResolveProps.v ===== *)
(** The properties of path resolution and directory listing
    (src/src/filesystem.rs lines 523-620, 821-912). *)

From stdpp Require Import sorting.
From S2P Require Import Prelude Bytes Stream StreamProps Paths Encrypted EncryptedDnode Snapshots.
From S2P Require Import ObjectIndex IndexFacts Resolve.
#[local] Open Scope Z_scope.
#[local] Open Scope zse_scope.

(** ** Where an attribute is *)

Definition sizes_before `{ZfsCore} (registry : SaRegistry) (pre : list Z) (sizes : list Z) : Prop :=
  Forall2 (fun id n => size_of registry id = Some n /\ n <> 0) pre sizes.

(** The header of a system-attribute buffer: its layout and its own length. *)
Definition sa_layout (buffer : list Z) : Z := Z.land (le_val (ztake 2 (zdrop 4 buffer))) 0x03ff.
Definition sa_header_len (buffer : list Z) : Z :=
  Z.shiftl (Z.land (Z.shiftr (le_val (ztake 2 (zdrop 4 buffer))) 10) 0x3f) 3.

(** Attribute [name] starts at [off]: the attributes before it in the buffer's
    layout have fixed sizes that add up to [off], and it ends in the buffer. *)
Definition attribute_at `{ZfsCore} (buffer : list Z) (name : string) (registry : SaRegistry)
    (layouts : SaLayouts) (off : Z) : Prop :=
  8 <= len buffer /\
  exists id pre post sizes size,
    by_name_id registry (bytes_of_string name) = Some id /\
    attr_ids layouts (sa_layout buffer) = Some (pre ++ id :: post) /\ id ∉ pre /\
    sizes_before registry pre sizes /\ off = sa_header_len buffer + foldr Z.add 0 sizes /\
    size_of registry id = Some size /\ off + size <= len buffer.

Section attributes.
Context `{ZfsCoreLaws}.

Lemma attribute_walk_spec registry id length ids : forall offset,
  0 <= offset -> offset + U16_MAX * (len ids + 1) <= U64_MAX ->
  wp (attribute_walk registry id length offset ids) (fun o => forall off, o = Some off <->
    exists pre post sizes size, ids = pre ++ id :: post /\ id ∉ pre /\ sizes_before registry pre sizes /\
      off = offset + foldr Z.add 0 sizes /\ size_of registry id = Some size /\ off + size <= length).
Proof.
  induction ids as [|i ids IH]; intros offset Ho Hmax; cbn [attribute_walk].
  { apply wp_Ok. intros off. split; [done|]. intros (pre & ? & ? & ? & Hnil & _). by destruct pre. }
  rewrite len_cons in Hmax. pose proof (len_nonneg ids) as Hln. destruct (Z.eqb_spec i id) as [->|Hne].
  - destruct (size_of registry id) as [size|] eqn:Hsz.
    2: { apply wp_Ok. intros off. split; [done|]. by intros (? & ? & ? & ? & _ & _ & _ & _ & ? & _). }
    pose proof (size_of_u16 _ _ _ Hsz) as Hu. apply wp_bind, wp_add; [unfold is_u16 in *; lia|]. apply wp_Ok.
    intros off. split.
    + case_match; [|done]. intros [= <-]. b2p. exists [], ids, [], size. cbn.
      split_and!; try done; [apply not_elem_of_nil|constructor|lia].
    + intros (pre & post & sizes & size' & Heq & Hni & Hs & -> & [= <-] & Hle).
      destruct pre as [|i pre]; [|injection Heq as -> _; set_solver].
      apply Forall2_nil_inv_l in Hs as ->. cbn in *. rewrite Z.add_0_r in *. by rewrite (proj2 (Z.leb_le _ _)).
  - assert (forall P : Prop, (forall size, size_of registry i = Some size -> size <> 0 -> P) ->
      forall off pre post sizes size, i :: ids = pre ++ id :: post -> sizes_before registry pre sizes ->
        off = offset + foldr Z.add 0 sizes /\ size_of registry id = Some size -> P) as Hhead.
    { intros P HP off [|i' pre] post sizes size Heq Hs _; [by injection Heq as ->|]. injection Heq as <- _.
      inversion Hs as [|? ? ? ? []]; subst. eauto. }
    destruct (size_of registry i) as [n|] eqn:Hsz.
    2: { apply wp_Ok. intros off. split; [done|]. intros (pre & post & sizes & size & ? & ? & ? & ? & ? & ?).
         exfalso. by eapply Hhead. }
    pose proof (size_of_u16 _ _ _ Hsz) as Hu. destruct (Z.eqb_spec n 0) as [->|Hn].
    { apply wp_Ok. intros off. split; [done|]. intros (pre & post & sizes & size & ? & ? & ? & ? & ? & ?).
      exfalso. eapply Hhead; [|done..]. by intros ? [= <-]. }
    unfold checked_add. rewrite (proj2 (Z.leb_le _ _)) by (unfold is_u16 in *; lia).
    eapply wp_mono; [|apply IH; unfold is_u16 in *; lia]. intros o Ho' off. etransitivity; [apply Ho'|]. split.
    + intros (pre & post & sizes & size & -> & Hni & Hs & -> & Hid & Hle).
      exists (i :: pre), post, (n :: sizes), size. cbn. split_and!; try done; try lia; [set_solver|by constructor].
    + intros (pre & post & sizes & size & Heq & Hni & Hs & -> & Hid & Hle).
      destruct pre as [|i' pre]; [by injection Heq as ->|]. injection Heq as <- ->.
      inversion Hs as [|? n' ? sizes' [Hn' _] Hs']; subst. rewrite Hsz in Hn'. injection Hn' as <-. cbn in *.
      exists pre, post, sizes', size. split_and!; try done; try lia. set_solver.
Qed.

Lemma sa_attribute_offset_spec buffer name registry layouts :
  bytes_ok buffer ->
  wp (sa_attribute_offset buffer name registry layouts)
    (fun o => forall off, o = Some off <-> attribute_at buffer name registry layouts off).
Proof.
  intros Hb. unfold sa_attribute_offset, attribute_at.
  destruct (Z.ltb_spec (len buffer) 8); [apply wp_Ok; intros off; split; [done|lia]|].
  destruct (by_name_id registry (bytes_of_string name)) as [id|]; [|apply wp_Ok; naive_solver].
  unfold slice. rewrite (proj2 (get_range_Some buffer 4 6 (ztake 2 (zdrop 4 buffer)))) by (split_and!; done || lia).
  cbn [expect bind]. fold (sa_layout buffer) (sa_header_len buffer).
  destruct (attr_ids layouts (sa_layout buffer)) as [ids|] eqn:Hids; [|apply wp_Ok; naive_solver].
  assert (0 <= sa_header_len buffer <= 504) as Hh.
  { unfold sa_header_len. rewrite Z.shiftl_mul_pow2 by lia. change 0x3f with (Z.ones 6).
    rewrite Z.land_ones by lia. pose proof (Z.mod_pos_bound (Z.shiftr (le_val (ztake 2 (zdrop 4 buffer))) 10) (2 ^ 6)). lia. }
  apply attr_ids_len in Hids as Hl.
  eapply wp_mono; [|apply attribute_walk_spec; [lia|lia]]. intros o Ho off. etransitivity; [apply Ho|]. naive_solver.
Qed.
End attributes.

(** ** Decoding never panics *)

Section returns.
Context `{ZfsCoreLaws}.

Lemma safe_attribute_offset buffer name registry layouts :
  bytes_ok buffer -> safe (sa_attribute_offset buffer name registry layouts).
Proof. intros. by eapply wp_safe, sa_attribute_offset_spec. Qed.

Lemma attribute_walk_no_err registry id length offset ids err : attribute_walk registry id length offset ids <> Err err.
Proof.
  revert offset. induction ids as [|i ids IH]; intros offset; cbn; [done|].
  repeat (case_match; cbn; try done). unfold add. by case_match.
Qed.

Lemma attribute_offset_no_err buffer name registry layouts err :
  sa_attribute_offset buffer name registry layouts <> Err err.
Proof.
  unfold sa_attribute_offset. case_match; [done|]. case_match; [|done]. unfold slice.
  destruct (get_range buffer 4 6); cbn; [|done]. case_match; [|done]. apply attribute_walk_no_err.
Qed.

Lemma size_bonus_no_err meta registry layouts err : size_bonus_offset meta registry layouts <> Err err.
Proof. unfold size_bonus_offset. repeat (case_match; [done|]). apply attribute_offset_no_err. Qed.

Lemma size_spill_no_err meta registry layouts err : size_spill_offset meta registry layouts <> Err err.
Proof. unfold size_spill_offset. repeat (case_match; try done). apply attribute_offset_no_err. Qed.

Lemma safe_decode_attrs meta registry layouts : meta_ok meta -> safe (decode_attrs meta registry layouts).
Proof.
  intros (_ & _ & _ & Hspill). unfold decode_attrs.
  case_match; [|by case_match]. case_match; [|done]. destruct (om_spill meta) as [spill|]; [|done].
  case_match; [|done]. apply safe_bind; [|done]. unfold merge_spill_attrs.
  repeat (apply safe_bind; [apply safe_bind; [by apply safe_attribute_offset, Hspill|done]|intros ? _]). done.
Qed.

(** The size an object's attributes give is a u64. *)
Lemma wp_decode_attrs meta registry layouts :
  meta_ok meta -> wp (decode_attrs meta registry layouts) (fun o => forall attrs, o = Some attrs -> is_u64 (zp_size attrs)).
Proof.
  intros Hm. apply safe_wp; [by apply safe_decode_attrs|]. destruct Hm as (_ & _ & Hb & Hspill). unfold decode_attrs.
  intros o Ho attrs ->. destruct (_ =? DMU_OT_SA).
  - destruct (decode_sa_bonus (om_bonus meta) _ _) as [base|] eqn:Hbase; [|done]. pose proof (sa_size_u64 _ _ _ _ Hb Hbase) as Hsize.
    destruct (om_spill meta) as [spill|]; [|congruence].
    destruct (decode_sa_bonus spill _ _) as [sattrs|] eqn:Hsa; [|congruence].
    pose proof (sa_size_u64 _ _ _ _ (Hspill _ eq_refl) Hsa) as Hssize.
    unfold merge_spill_attrs in Ho. cbv zeta in Ho. inv_ok. simplify_eq. cbn [zp_size]. by case_match.
  - destruct (_ =? DMU_OT_ZNODE); [|done]. simplify_eq. by eapply znode_size_u64.
Qed.

Lemma wp_size_bonus_offset meta registry layouts :
  meta_ok meta -> wp (size_bonus_offset meta registry layouts) (fun o => forall off, o = Some off ->
    (om_bonus_type meta = DMU_OT_ZNODE /\ off = 80 /\ off + 8 <= len (om_bonus meta)) \/
    (om_bonus_type meta = DMU_OT_SA /\ attribute_at (om_bonus meta) "ZPL_SIZE" registry layouts off)).
Proof.
  intros (_ & _ & Hb & _). unfold size_bonus_offset. destruct (Z.eqb_spec (om_bonus_type meta) DMU_OT_ZNODE).
  { apply wp_Ok. case_match; [|done]. intros off [= <-]. b2p. left. split_and!; done || lia. }
  destruct (negb _ || _) eqn:Hs; [by apply wp_Ok|]. b2p. eapply wp_mono; [|by apply sa_attribute_offset_spec].
  intros o Ho off Hoff. right. split; [done|]. by apply Ho.
Qed.

Lemma wp_size_spill_offset meta registry layouts :
  meta_ok meta -> wp (size_spill_offset meta registry layouts) (fun o => forall off, o = Some off ->
    om_bonus_type meta = DMU_OT_SA /\
    exists spill, om_spill meta = Some spill /\ attribute_at spill "ZPL_SIZE" registry layouts off).
Proof.
  intros (_ & _ & _ & Hspill). unfold size_spill_offset. destruct (Z.eqb_spec (om_bonus_type meta) DMU_OT_SA); [|by apply wp_Ok].
  destruct (om_spill meta) as [spill|]; [|by apply wp_Ok].
  eapply wp_mono; [|by apply sa_attribute_offset_spec, Hspill]. intros o Ho off Hoff. split; [done|].
  exists spill. split; [done|]. by apply Ho.
Qed.

Lemma safe_sa_context index : safe (sa_context index).
Proof. unfold sa_context. repeat (apply safe_bind; [by apply wp_ok_or|intros ? _]). done. Qed.

Lemma safe_resolve_walk index at_ path : safe (fold_res (resolve_step index) at_ path).
Proof.
  apply wp_fold_res; [|done]. intros s c _ _. unfold resolve_step.
  repeat (apply safe_bind; [by apply wp_ok_or|intros ? _]). done.
Qed.
End returns.

(** ** Properties *)

Lemma wp_resolve_path `{ZfsCoreLaws} index path :
  map_Forall (fun _ => meta_ok) (ix_objects index) ->
  wp (resolve_path index path) (fun r => is_u64 (Resolve.logical_size r) /\
    exists meta registry layouts, ix_objects index !! object_id r = Some meta /\
      sa_context index = Ok (registry, layouts) /\
      object_type r = om_object_type meta /\ bonus_type r = om_bonus_type meta /\
      (forall off, rp_size_bonus_offset r = Some off ->
        (bonus_type r = DMU_OT_ZNODE /\ off = 80 /\ off + 8 <= len (om_bonus meta)) \/
        (bonus_type r = DMU_OT_SA /\ attribute_at (om_bonus meta) "ZPL_SIZE" registry layouts off)) /\
      (forall off, rp_size_spill_offset r = Some off -> bonus_type r = DMU_OT_SA /\
        exists spill, om_spill meta = Some spill /\ attribute_at spill "ZPL_SIZE" registry layouts off)).
Proof.
  intros Hm. unfold resolve_path. apply wp_bind, safe_wp.
  { rewrite normalize_path_eq. by case_match. }
  intros normalized _. apply wp_bind, safe_wp; [apply safe_sa_context|]. intros [registry layouts] Hctx.
  wp_step. wp_step. wp_step. wp_step. apply wp_bind, safe_wp; [apply safe_resolve_walk|]. intros [current dtype] _.
  wp_step. wp_step. match goal with Hx : ix_objects index !! _ = Some ?m |- _ => rename m into meta; rename Hx into Hmeta end.
  pose proof (Hm _ _ Hmeta) as Hok.
  apply wp_bind. eapply wp_mono; [|by apply wp_decode_attrs]. intros attrs Hattrs. wp_step. wp_step.
  apply wp_bind. eapply wp_mono; [|by apply wp_size_bonus_offset]. intros bo Hbo.
  apply wp_bind. eapply wp_mono; [|by apply wp_size_spill_offset]. intros so Hso. apply wp_Ok. cbn.
  split; [by apply Hattrs|]. exists meta, registry, layouts. by split_and!.
Qed.

Lemma safe_list_directory `{ZfsCoreLaws} index path :
  map_Forall (fun _ => meta_ok) (ix_objects index) -> safe (list_directory index path).
Proof.
  intros Hm. unfold list_directory. apply safe_bind; [by eapply wp_safe, wp_resolve_path|]. intros r _. destruct (negb _); [done|].
  apply safe_bind; [apply safe_sa_context|]. intros [registry layouts] _. apply safe_bind; [by apply wp_ok_or|]. intros directory _.
  apply safe_bind; [|done]. eapply wp_safe, (wp_map_res _ (fun _ => True)). intros entry _. unfold directory_entry. cbv zeta.
  apply wp_bind. destruct (ix_objects index !! _) as [meta|] eqn:Hmeta; [|done].
  eapply wp_mono; [|apply safe_decode_attrs; by eapply Hm]. done.
Qed.

(** resolving a path in an indexed snapshot never panics. The object it
    returns is in the index, and an offset it gives for the object's size is
    where the size is stored: at byte 80 of a znode bonus that reaches that
    far, or at the place the buffer's own layout gives ZPL_SIZE in the
    system-attribute bonus or spill, wholly inside the buffer. *)
Theorem resolve_path_returns `{ZfsCoreLaws} index path :
  map_Forall (fun _ => meta_ok) (ix_objects index) ->
  wp (resolve_path index path) (fun r =>
    exists meta registry layouts, ix_objects index !! object_id r = Some meta /\
      sa_context index = Ok (registry, layouts) /\
      object_type r = om_object_type meta /\ bonus_type r = om_bonus_type meta /\
      (forall off, rp_size_bonus_offset r = Some off ->
        (bonus_type r = DMU_OT_ZNODE /\ off = 80 /\ off + 8 <= len (om_bonus meta)) \/
        (bonus_type r = DMU_OT_SA /\ attribute_at (om_bonus meta) "ZPL_SIZE" registry layouts off)) /\
      (forall off, rp_size_spill_offset r = Some off -> bonus_type r = DMU_OT_SA /\
        exists spill, om_spill meta = Some spill /\ attribute_at spill "ZPL_SIZE" registry layouts off)).
Proof. intros Hm. eapply wp_mono; [|by apply wp_resolve_path]. by intros r [_ ?]. Qed.

(** A small ZAP codec for the witnesses: each entry is a length byte, a name and
    eight bytes of value; an attribute buffer of 24 bytes holds the size at 16. *)
Fixpoint toy_entries (fuel : nat) (b : list Z) : list (list Z * Z) :=
  match fuel, b with
  | S fuel, n :: b => (ztake n b, le_val (ztake 8 (zdrop n b))) :: toy_entries fuel (zdrop (n + 8) b)
  | _, _ => []
  end.

Definition toy_attrs (size : Z) : ZplAttrs := {|
  zp_mode := 0; zp_size := size; zp_links := 1; zp_uid := 0; zp_gid := 0; zp_gen := 0; zp_parent := 0;
  zp_flags := 0; zp_atime := (0, 0); zp_mtime := (0, 0); zp_ctime := (0, 0); zp_crtime := (0, 0);
  zp_unknown_attr_ids := []; zp_rest := [] |}.

#[export] Instance toy_zfs : ZfsCore := {
  SaRegistry := unit;
  SaLayouts := unit;
  ZPL_DIRENT_OBJ_MASK := 281474976710655;
  zap_list b := toy_entries (length b) b;
  zap_lookup b name := option_map snd (List.find (fun e => bytes_eqb e.1 name) (toy_entries (length b) b));
  parse_sa_registry _ := tt;
  parse_sa_layouts _ := tt;
  by_name_id _ name := if bytes_eqb name (bytes_of_string "ZPL_SIZE") then Some 6 else None;
  size_of _ _ := Some 8;
  attr_ids _ layout := if layout =? 2 then Some [5; 6] else None;
  decode_sa_bonus b _ _ := if len b =? 24 then Some (toy_attrs (le_val (zdrop 16 b))) else None;
  decode_znode_phys _ := None;
}.

#[export] Instance toy_zfs_laws : ZfsCoreLaws.
Proof.
  split; cbn.
  - intros _ _ n [= <-]. unfold is_u16. lia.
  - intros _ layout ids. case_match; [|done]. intros [= <-]. vm_compute. discriminate.
  - intros b _ _ attrs Hb. destruct (Z.eqb_spec (len b) 24) as [Hl|]; [|done]. intros [= <-]. cbn [zp_size toy_attrs].
    apply le_val_u64; [auto with zse|]. rewrite len_zdrop, Hl. lia.
  - done.
Qed.

Definition toy_entry (name : string) (value : Z) : list Z :=
  len (bytes_of_string name) :: bytes_of_string name ++ le_bytes 8 value.

(** A root directory (34) with a file [a] (object 8) of 5 bytes and a
    directory [d] (object 9) without attributes. *)
Definition toy_bonus (size : Z) : list Z := [0; 0; 0; 0; 2; 4; 0; 0] ++ zrepeat 8 0 ++ le_bytes 8 size.
Definition toy_meta (bonus : list Z) : ObjectMeta := {|
  om_object_type := 20; om_bonus_type := 44; om_block_size := 512; om_max_block_id := 0;
  om_bonus := bonus; om_spill := None |}.
Definition toy_index : ObjectIndex := {|
  ix_begin := sample_begin;
  ix_objects := {[34 := toy_meta (toy_bonus 0); 8 := toy_meta (toy_bonus 5); 9 := toy_meta []]};
  ix_data := {[1 := toy_entry "SA_ATTRS" 2 ++ toy_entry "ROOT" 34;
               2 := toy_entry "REGISTRY" 3 ++ toy_entry "LAYOUTS" 3; 3 := [];
               34 := toy_entry "d" 4611686018427387913 ++ toy_entry "a" 9223372036854775816]};
  ix_raw_crypto := None; ix_raw_dnodes := ∅ |}.

Lemma toy_index_metas : map_Forall (fun _ => meta_ok) (ix_objects toy_index).
Proof.
  unfold toy_index. cbn [ix_objects].
  assert (forall b, bytes_ok b -> meta_ok (toy_meta b)) as Hb.
  { intros b Hb. unfold meta_ok, is_u32. cbn. split_and!; try done; lia. }
  apply map_Forall_insert_2; [apply Hb, bytes_ok_dec; vm_compute; reflexivity|].
  apply map_Forall_insert_2; [apply Hb, bytes_ok_dec; vm_compute; reflexivity|].
  apply map_Forall_singleton, Hb. constructor.
Qed.

Lemma resolve_path_returns_witness :
  exists r, resolve_path toy_index (bytes_of_string "/a/") = Ok r /\ object_id r = 8 /\ logical_size r = 5 /\
    rp_size_bonus_offset r = Some 16 /\
    exists meta, ix_objects toy_index !! object_id r = Some meta /\
      (forall off, rp_size_bonus_offset r = Some off ->
        (bonus_type r = DMU_OT_ZNODE /\ off = 80 /\ off + 8 <= len (om_bonus meta)) \/
        (bonus_type r = DMU_OT_SA /\ attribute_at (om_bonus meta) "ZPL_SIZE" tt tt off)).
Proof.
  assert (map_Forall (fun _ => meta_ok) (ix_objects toy_index)) as Hm by apply toy_index_metas.
  pose proof (resolve_path_returns toy_index (bytes_of_string "/a/") Hm) as H.
  destruct (resolve_path toy_index (bytes_of_string "/a/")) as [r|e| |] eqn:E;
    [|exfalso; revert E; vm_compute; discriminate..].
  destruct H as (meta & [] & [] & Hmeta & _ & _ & _ & Hoff & _).
  exists r. split; [done|]. assert (match resolve_path toy_index (bytes_of_string "/a/") with
    | Ok r => (object_id r, logical_size r, rp_size_bonus_offset r) | _ => (0, 0, None) end = (8, 5, Some 16)) as Hr
    by (vm_compute; reflexivity). rewrite E in Hr. injection Hr as H1 H2 H3.
  split; [done|]. split; [done|]. split; [done|]. by exists meta.
Defined.

(** The names of a directory, in the order of its ZAP. *)
Lemma find_first {A} (entries : list (list Z * A)) e :
  NoDup entries.*1 -> e ∈ entries -> List.find (fun x => bytes_eqb x.1 e.1) entries = Some e.
Proof.
  intros Hnd He. induction entries as [|x entries IH]; [by apply not_elem_of_nil in He|]. cbn in *.
  apply NoDup_cons in Hnd as [Hx Hnd]. apply elem_of_cons in He as [->|He].
  - by rewrite bytes_eqb_refl.
  - destruct (bytes_eqb x.1 e.1) eqn:Hb; [|by apply IH]. apply bytes_eqb_eq in Hb. destruct Hx. rewrite Hb.
    by apply list_elem_of_fmap_2.
Qed.

Lemma components_child path name :
  plain_component name -> components (absolute (components path ++ [name])) = components path ++ [name].
Proof.
  intros Hn. apply components_join. apply Forall_app. split; [apply components_plain|by apply Forall_singleton].
Qed.

Lemma bytes_leb_total a b : bytes_leb a b = true \/ bytes_leb b a = true.
Proof.
  revert b. induction a as [|x a IH]; intros [|y b]; cbn; auto.
  rewrite (Z.eqb_sym y x). destruct (Z.eqb_spec x y); [apply IH|]. rewrite !Z.ltb_lt. lia.
Qed.

#[local] Instance name_le_total : Total name_le.
Proof. intros a b. apply bytes_leb_total. Qed.

(** The walk behind a path that resolves. *)
Lemma resolve_path_walk `{ZfsCore} index path r :
  resolve_path index path = Ok r ->
  existsb is_dots (components path) = false /\
  exists master root, ix_data index !! 1 = Some master /\ zap_entry master "ROOT" = Some root /\
    fold_res (resolve_step index) (root, 4) (components path) = Ok (object_id r, dirent_type r).
Proof.
  unfold resolve_path. rewrite normalize_path_eq. destruct (existsb is_dots (components path)); [done|].
  intros Hr. cbn [bind] in Hr. rewrite components_absolute in Hr. inv_ok. subst r. split; [done|]. eauto.
Qed.

(** The path of an entry of a directory that resolves. *)
Lemma resolve_child `{ZfsCoreLaws} index path resolved registry layouts directory entry e :
  map_Forall (fun _ => meta_ok) (ix_objects index) ->
  resolve_path index path = Ok resolved -> sa_context index = Ok (registry, layouts) ->
  ix_data index !! object_id resolved = Some directory ->
  NoDup (zap_list directory).*1 -> entry ∈ zap_list directory ->
  plain_component entry.1 -> is_dots entry.1 = false ->
  directory_entry index registry layouts entry = Ok e ->
  match de_logical_size e with
  | Some size => exists r, resolve_path index (absolute (components path ++ [entry.1])) = Ok r /\
      object_id r = de_object_id e /\ dirent_type r = de_dirent_type e /\ logical_size r = size
  | None => is_err (resolve_path index (absolute (components path ++ [entry.1]))) = true
  end.
Proof.
  intros Hm Hres Hctx Hdir Hnd Hin Hplain Hdots He.
  destruct (resolve_path_walk _ _ _ Hres) as (Hnodots & master & root & Hmaster & Hroot & Hwalk).
  unfold resolve_path. rewrite normalize_path_eq, components_child, existsb_app, Hnodots by done.
  cbn [existsb orb]. rewrite Hdots. cbn [orb bind]. rewrite components_child by done.
  rewrite Hctx, Hmaster. cbn [bind ok_or]. rewrite Hroot. cbn [bind ok_or].
  assert (resolve_step index (object_id resolved, dirent_type resolved) entry.1 =
    Ok (Z.land entry.2 ZPL_DIRENT_OBJ_MASK, Z.land (Z.shiftr entry.2 60) 0xff)) as Hstep.
  { unfold resolve_step. cbn [fst]. rewrite Hdir. cbn [bind ok_or]. by rewrite (find_first _ _ Hnd Hin). }
  rewrite fold_res_app, Hwalk. cbn [bind fold_res]. rewrite Hstep. cbn [bind].
  unfold directory_entry in He. destruct (ix_objects index !! Z.land entry.2 ZPL_DIRENT_OBJ_MASK) as [meta|] eqn:Hmeta.
  2: { cbn [bind] in He. injection He as <-. done. }
  cbn [bind ok_or]. apply bind_Ok in He as (attrs & Hattrs & [= <-]). rewrite Hattrs. cbn [bind de_logical_size].
  destruct attrs as [attrs|]; cbn [option_map ok_or bind]; [|done]. pose proof (Hm _ _ Hmeta) as Hok.
  destruct (safe_cases (size_bonus_offset meta registry layouts)) as [[bo ->]|[err Hbo]];
    [by eapply wp_safe, wp_size_bonus_offset| |]; cbn [bind].
  - destruct (safe_cases (size_spill_offset meta registry layouts)) as [[so ->]|[err Hso]];
      [by eapply wp_safe, wp_size_spill_offset|by eexists|].
    exfalso. by eapply size_spill_no_err.
  - exfalso. by eapply size_bonus_no_err.
Qed.

(** what a listing shows is what its paths resolve to. If a directory of an
    index lists, its entries are in the order of their names, and for every
    entry (when no two share a name, and the name is a legal component) the path
    of the directory with that name appended resolves to the entry's object and
    type with the entry's size; it fails to resolve just when the listing gives
    no size. *)
Theorem listed_entries_resolve `{ZfsCoreLaws} index path entries :
  map_Forall (fun _ => meta_ok) (ix_objects index) ->
  list_directory index path = Ok entries ->
  Sorted name_le entries /\
  (NoDup (map de_name entries) -> forall e, e ∈ entries -> plain_component (de_name e) -> is_dots (de_name e) = false ->
   match de_logical_size e with
   | Some size => exists r, resolve_path index (absolute (components path ++ [de_name e])) = Ok r /\
       object_id r = de_object_id e /\ dirent_type r = de_dirent_type e /\ logical_size r = size
   | None => is_err (resolve_path index (absolute (components path ++ [de_name e]))) = true
   end).
Proof.
  intros Hm Hl. unfold list_directory in Hl. inv_ok.
  match goal with Hx : resolve_path index path = Ok ?r |- _ => rename Hx into Hres; rename r into resolved end.
  b2p. match goal with Hx : dirent_type resolved = 4 |- _ => rename Hx into Htype end.
  match goal with Hx : sa_context index = Ok (?a, ?b) |- _ => rename Hx into Hctx; rename a into registry; rename b into layouts end.
  match goal with Hx : ix_data index !! _ = Some ?d |- _ => rename Hx into Hdir; rename d into directory end.
  match goal with Hx : map_res _ _ = Ok ?es |- _ => rename Hx into Hes; rename es into listed end.
  subst entries. split; [apply (Sorted_merge_sort name_le)|].
  intros Hnd e He Hplain Hdots. rewrite merge_sort_Permutation in He.
  assert (NoDup (map de_name listed)) as Hnd'.
  { revert Hnd. change (map de_name) with (fmap (M:=list) de_name). by rewrite merge_sort_Permutation. }
  assert (Forall2 (fun entry e => directory_entry index registry layouts entry = Ok e) (zap_list directory) listed) as Hall
    by by apply map_res_Ok.
  assert (map de_name listed = (zap_list directory).*1) as Hnames.
  { clear -Hall. induction Hall as [|entry e entries es Hd _ IH]; [done|]. cbn. f_equal; [|done].
    unfold directory_entry in Hd. inv_ok. by subst e. }
  apply list_elem_of_lookup in He as [k Hk]. destruct (Forall2_lookup_r _ _ _ _ _ Hall Hk) as (entry & Hentry & Hde).
  assert (de_name e = entry.1) as Hname by (unfold directory_entry in Hde; inv_ok; by subst e).
  rewrite Hname in *. eapply resolve_child; try done; [by rewrite <- Hnames|by eapply list_elem_of_lookup_2].
Qed.

Lemma listed_entries_resolve_witness :
  exists entries, list_directory toy_index [] = Ok entries /\ Sorted name_le entries /\
    map de_name entries = [bytes_of_string "a"; bytes_of_string "d"] /\
    exists e r, e ∈ entries /\ de_name e = bytes_of_string "a" /\ de_logical_size e = Some 5 /\
      resolve_path toy_index (bytes_of_string "/a") = Ok r /\
      object_id r = de_object_id e /\ dirent_type r = de_dirent_type e /\ logical_size r = 5.
Proof.
  assert (map_Forall (fun _ => meta_ok) (ix_objects toy_index)) as Hm by apply toy_index_metas.
  destruct (list_directory toy_index []) as [entries|err| |] eqn:E; [|exfalso; revert E; vm_compute; discriminate..].
  destruct (listed_entries_resolve toy_index [] entries Hm E) as [Hs Hr].
  exists entries. split; [done|]. split; [done|].
  assert (match list_directory toy_index [] with Ok entries => entries | _ => [] end =
    [{| de_name := bytes_of_string "a"; de_object_id := 8; de_dirent_type := 8; de_logical_size := Some 5 |};
     {| de_name := bytes_of_string "d"; de_object_id := 9; de_dirent_type := 4; de_logical_size := None |}]) as He
    by (vm_compute; reflexivity).
  rewrite E in He. subst entries. split; [reflexivity|].
  specialize (Hr ltac:(apply (bool_decide_unpack _); vm_compute; exact I) _ (list_elem_of_here _ _)).
  cbn [de_logical_size de_name] in Hr.
  destruct Hr as (r & Hr & H1 & H2 & H3); [split; [discriminate|]|reflexivity|].
  { apply (bool_decide_unpack _). vm_compute. exact I. }
  eexists _, r. split; [apply list_elem_of_here|]. split; [reflexivity|]. split; [reflexivity|].
  split; [exact Hr|]. split; [exact H1|]. split; [exact H2|exact H3].
Defined.
