(* ===== verification/Sparse.v ===== *)
(** Sparse files, src/src/sparse.rs: writing an extent with holes for its zero
    chunks, zeroing a range, copying a file by its allocated ranges. A file is
    its bytes and a cursor; the two system calls the Linux platform module makes
    are a type class. *)

From S2P Require Import Prelude Bytes EncryptedDnode Extents.

(** ** Files

    [std::fs::File] as the code uses it. Sizes and offsets are [off_t]: beyond
    [i64::MAX] the system refuses. Reads and writes of a regular file otherwise
    succeed, except a read past the end. *)

Record File := { contents : list Z; cursor : Z }.

Definition file_len (file : File) : Z := len (contents file).

Definition set_len (file : File) (n : Z) : result File :=
  fail! ISIZE_MAX <? n with Foreign "set_len: invalid argument" in
  Ok {| contents := resize (contents file) n 0; cursor := cursor file |}.

Definition seek (file : File) (n : Z) : result File :=
  fail! ISIZE_MAX <? n with Foreign "seek: invalid argument" in
  Ok {| contents := contents file; cursor := n |}.

(** A write behind the end leaves a hole of zeros. *)
Definition write_all (file : File) (bytes : list Z) : result File :=
  let end_ := cursor file + len bytes in
  if len bytes =? 0 then Ok file
  else
    fail! ISIZE_MAX <? end_ with Foreign "write: file too large" in
    let grown := if file_len file <? end_ then resize (contents file) end_ 0 else contents file in
    Ok {| contents := ztake (cursor file) grown ++ bytes ++ zdrop end_ grown; cursor := end_ |}.

Definition read_exact (file : File) (n : Z) : result (list Z * File) :=
  match get_range (contents file) (cursor file) (cursor file + n) with
  | Some bytes => Ok (bytes, {| contents := contents file; cursor := cursor file + n |})
  | None => Err (Foreign "failed to fill whole buffer")
  end.

(** ** The system calls *)

Inductive errno : Type := ENXIO | EINVAL | EOPNOTSUPP | OtherErrno (code : Z).

Class Os := {
  (** [fallocate(FALLOC_FL_PUNCH_HOLE | FALLOC_FL_KEEP_SIZE)]: the error, if
      any, and the file. *)
  fallocate_punch : File -> Z -> Z -> option errno * list Z;
  lseek_data : list Z -> Z -> Z + errno;
  lseek_hole : list Z -> Z -> Z + errno;
}.

(** As documented: a punched range reads as zero and the size stays; a call that
    fails changes nothing; what [SEEK_DATA] skips is a hole, and a hole reads
    as zero. *)
Class OsLaws `{Os} := {
  fallocate_spec : forall file offset n e l, 0 <= offset -> 0 <= n -> offset + n <= file_len file ->
    fallocate_punch file offset n = (e, l) ->
    match e with
    | None => l = ztake offset (contents file) ++ zrepeat n 0 ++ zdrop (offset + n) (contents file)
    | Some _ => l = contents file
    end;
  lseek_data_spec : forall l offset, 0 <= offset < len l ->
    match lseek_data l offset with
    | inl data => offset <= data < len l /\ forall i, offset <= i < data -> byte_at l i = 0
    | inr ENXIO => forall i, offset <= i -> byte_at l i = 0
    | inr _ => True
    end;
  lseek_hole_spec : forall l data, 0 <= data < len l ->
    match lseek_hole l data with inl hole => data <= hole <= len l | inr _ => True end;
}.

(** ** Definitions *)

Definition CHUNK_SIZE : Z := 1024 * 1024.

Section sparse.
Context `{Os}.

(** [platform::punch_hole] on Linux (lines 275-295) *)
Definition punch_hole (file : File) (offset length : Z) : result (bool * File) :=
  fail! ISIZE_MAX <? offset with Msg "sparse offset exceeds off_t" [] in
  fail! ISIZE_MAX <? length with Msg "sparse length exceeds off_t" [] in
  let '(e, l) := fallocate_punch file offset length in
  let file := {| contents := l; cursor := cursor file |} in
  match e with
  | None => Ok (true, file)
  | Some (EOPNOTSUPP | EINVAL) => Ok (false, file)
  | Some _ => Err (Context "punching a sparse file hole" [] (Foreign "fallocate"))
  end.

(** [fuel] bounds the chunks. *)
Fixpoint write_zeros_loop (fuel : nat) (file : File) (remaining : Z) : result File :=
  if remaining =? 0 then Ok file
  else
    match fuel with
    | O => OutOfFuel
    | S fuel =>
        let count := Z.min remaining (64 * 1024) in
        let! file := write_all file (zrepeat count 0) in
        write_zeros_loop fuel file (remaining - count)
    end.

Definition write_zeros (file : File) (offset length : Z) : result File :=
  let! file := seek file offset in
  write_zeros_loop (S (Z.to_nat (length / (64 * 1024)))) file length.

Definition zero_range (file : File) (offset length : Z) : result File :=
  let current_len := file_len file in
  if (current_len <=? offset) || (length =? 0) then Ok file
  else if length =? U64_MAX then set_len file offset
  else
    let! room := sub current_len offset in
    let length := Z.min length room in
    let! (punched, file) := punch_hole file offset length in
    if punched then Ok file else write_zeros file offset length.

Definition write_chunk (s : File * Z) (chunk : list Z) : result (File * Z) :=
  let '(file, position) := s in
  let! file :=
    if all_zero chunk then zero_range file position (len chunk)
    else let! file := seek file position in write_all file chunk in
  let! position := ok_or (checked_add position (len chunk)) (Msg "sparse extent offset overflow" []) in
  Ok (file, position).

Definition write_extent (file : File) (offset : Z) (bytes : list Z) : result File :=
  let! (file, _) := fold_res write_chunk (file, offset) (chunks CHUNK_SIZE bytes) in
  Ok file.

Fixpoint copy_range_loop (fuel : nat) (source destination : File) (remaining : Z) : result (File * File) :=
  if remaining =? 0 then Ok (source, destination)
  else
    match fuel with
    | O => OutOfFuel
    | S fuel =>
        let count := Z.min remaining CHUNK_SIZE in
        let! (buffer, source) := read_exact source count in
        let! destination := write_all destination buffer in
        copy_range_loop fuel source destination (remaining - count)
    end.

Definition copy_range (source destination : File) (offset length : Z) : result (File * File) :=
  let! source := seek source offset in
  let! destination := seek destination offset in
  copy_range_loop (S (Z.to_nat (length / CHUNK_SIZE))) source destination length.

(** [platform::copy_allocated] on Unix (lines 331-364). Each round moves the
    offset, so the length bounds the rounds. *)
Fixpoint copy_allocated (fuel : nat) (source destination : File) (offset length : Z)
  : result (bool * File * File) :=
  if length <=? offset then Ok (true, source, destination)
  else
    match fuel with
    | O => OutOfFuel
    | S fuel =>
        match lseek_data (contents source) offset with
        | inr ENXIO => Ok (true, source, destination)
        | inr (EINVAL | EOPNOTSUPP) => Ok (false, source, destination)
        | inr _ => Err (Context "locating sparse file data" [] (Foreign "lseek"))
        | inl data =>
            match lseek_hole (contents source) data with
            | inr (EINVAL | EOPNOTSUPP) => Ok (false, source, destination)
            | inr _ => Err (Context "locating sparse file hole" [] (Foreign "lseek"))
            | inl hole =>
                let end_ := Z.min hole length in
                if end_ <=? data then Ok (false, source, destination)
                else
                  let! (source, destination) := copy_range source destination data (end_ - data) in
                  copy_allocated fuel source destination end_ length
            end
        end
    end.

Fixpoint copy_loop (fuel : nat) (source destination : File) (offset length : Z) : result (File * File) :=
  if length <=? offset then Ok (source, destination)
  else
    match fuel with
    | O => OutOfFuel
    | S fuel =>
        let wanted := Z.min (length - offset) CHUNK_SIZE in
        let! (buffer, source) := read_exact source wanted in
        let! destination := write_extent destination offset buffer in
        let! offset := add offset wanted in
        copy_loop fuel source destination offset length
    end.

Definition copy (source destination : File) : result (Z * File) :=
  let length := file_len source in
  let! destination := set_len destination length in
  if length =? 0 then Ok (0, destination)
  else
    let! (copied, source, destination) := copy_allocated (S (Z.to_nat length)) source destination 0 length in
    if copied then Ok (length, destination)
    else
      let! source := seek source 0 in
      let! (_, destination) := copy_loop (S (Z.to_nat (length / CHUNK_SIZE))) source destination 0 length in
      Ok (length, destination).
End sparse.
