(* ===== verification/SparseFacts.v ===== *)
(** What the sparse-file primitives do to a file, as a function from offsets to
    bytes that is zero where the file ends: a hole and a written zero are the
    same, so the primitives have the plain file operations' meaning. *)

From S2P Require Import Prelude Bytes EncryptedDnode EncryptedFacts Extents Sparse.

Definition file_ok (file : File) : Prop :=
  bytes_ok (contents file) /\ file_len file <= ISIZE_MAX /\ 0 <= cursor file.

Definition reads (file : File) (i : Z) : Z := byte_at (contents file) i.

(** [bytes] put at [offset] over [old]. *)
Definition over (offset : Z) (bytes : list Z) (old : Z -> Z) (i : Z) : Z :=
  if (offset <=? i) && (i <? offset + len bytes) then byte_at bytes (i - offset) else old i.

Definition zeroed (offset length : Z) (old : Z -> Z) (i : Z) : Z :=
  if (offset <=? i) && (i <? offset + length) then 0 else old i.

Definition same_reads (file : File) (content : Z -> Z) : Prop :=
  forall i, 0 <= i -> reads file i = content i.

Lemma over_zeros offset n old i : 0 <= n -> over offset (zrepeat n 0) old i = zeroed offset n old i.
Proof. intros. unfold over, zeroed. rewrite byte_at_zeros, len_zrepeat, Z.max_r by done. done. Qed.

Lemma over_nil offset old i : over offset [] old i = old i.
Proof. unfold over. rewrite len_nil. case_match; [|done]. b2p. lia. Qed.

Lemma over_app offset a b old i :
  over offset (a ++ b) old i = over (offset + len a) b (over offset a old) i.
Proof.
  unfold over. rewrite len_app. pose proof (len_nonneg a). pose proof (len_nonneg b).
  destruct (Z.leb_spec offset i), (Z.leb_spec (offset + len a) i), (Z.ltb_spec i (offset + (len a + len b))),
    (Z.ltb_spec i (offset + len a + len b)), (Z.ltb_spec i (offset + len a)); cbn [andb]; try lia; try done;
    rewrite byte_at_app by lia.
  - rewrite (proj2 (Z.ltb_ge _ _)) by lia. f_equal. lia.
  - by rewrite (proj2 (Z.ltb_lt _ _)) by lia.
Qed.

Lemma all_zero_repeat l : all_zero l = true -> l = zrepeat (len l) 0.
Proof.
  intros Hz. apply all_zero_true in Hz. unfold zrepeat. rewrite len_nat.
  induction Hz as [|x l <- Hl IH]; [done|]. cbn. by f_equal.
Qed.

(** Files are equal when their lengths and bytes are. *)
Lemma contents_ext (l k : list Z) : len l = len k -> (forall i, 0 <= i -> byte_at l i = byte_at k i) -> l = k.
Proof.
  intros Hl Hi. apply list_eq. intros n. specialize (Hi (Z.of_nat n) ltac:(lia)).
  unfold byte_at, get in Hi. rewrite Hl in Hi.
  destruct (Z.leb_spec 0 (Z.of_nat n)); [|lia]. cbn [andb] in Hi. rewrite Nat2Z.id in Hi.
  destruct (Z.ltb_spec (Z.of_nat n) (len k)).
  - destruct (l !! n) as [x|] eqn:E1; [|apply lookup_ge_None in E1; unfold len in *; lia].
    destruct (k !! n) as [y|] eqn:E2; [|apply lookup_ge_None in E2; unfold len in *; lia]. cbn in Hi. by subst.
  - rewrite !lookup_ge_None_2; [done|unfold len in *; lia..].
Qed.

(** ** File operations *)

Lemma wp_set_len file n :
  file_ok file -> 0 <= n ->
  wp (set_len file n) (fun file' => file_ok file' /\ file_len file' = n /\ cursor file' = cursor file /\
    same_reads file' (fun i => if i <? n then reads file i else 0)).
Proof.
  intros (Hb & Hl & Hc) Hn. unfold set_len. wp_step. b2p. apply wp_Ok. unfold file_ok, file_len, reads, same_reads. cbn.
  rewrite len_resize by done. split_and!; [auto with zse|lia|lia|done|done|].
  intros i Hi. unfold reads. cbn. unfold resize. case_match; b2p.
  - destruct (Z.ltb_spec i n); [by apply byte_at_ztake|]. apply byte_at_out. rewrite len_ztake. lia.
  - rewrite byte_at_app by done. destruct (Z.ltb_spec i (len (contents file))); [by rewrite (proj2 (Z.ltb_lt _ _)) by lia|].
    rewrite byte_at_zeros. case_match; [|done]. by rewrite byte_at_out by lia.
Qed.

Lemma wp_seek file n (P : File -> Prop) :
  (n <= ISIZE_MAX -> P {| contents := contents file; cursor := n |}) -> wp (seek file n) P.
Proof. intros HP. unfold seek. wp_step. b2p. by apply wp_Ok, HP. Qed.

Lemma wp_write_all file bytes :
  file_ok file -> bytes_ok bytes ->
  wp (write_all file bytes) (fun file' => file_ok file' /\ cursor file' = cursor file + len bytes /\
    file_len file <= file_len file' <= Z.max (file_len file) (cursor file + len bytes) /\
    same_reads file' (over (cursor file) bytes (reads file))).
Proof.
  intros (Hb & Hl & Hc) Hbytes. unfold write_all. pose proof (len_nonneg bytes).
  destruct (Z.eqb_spec (len bytes) 0) as [Hz|Hnz].
  { apply wp_Ok. rewrite Hz. split_and!; try done; try lia. intros i Hi. unfold over. rewrite Hz.
    case_match; [|done]. b2p. lia. }
  wp_step. b2p. apply wp_Ok. unfold file_len in *. cbn.
  destruct (grown (contents file) (cursor file + len bytes)) as (Hg & Hgi & Hgb); [lia|]. cbv zeta in *.
  set (l := if _ <? _ then _ else _) in *. pose proof (len_nonneg (contents file)).
  assert (len (ztake (cursor file) l ++ bytes ++ zdrop (cursor file + len bytes) l) = len l) as Hlen by len_lia.
  split_and!; try lia.
  - split_and!; cbn; [auto 10 with zse|unfold file_len; cbn; lia|lia].
  - intros i Hi. unfold reads. cbn. rewrite byte_at_splice by lia. unfold over. by rewrite Hgi.
Qed.

Section facts.
Context `{OsLaws}.

Lemma wp_punch_hole file offset length :
  file_ok file -> 0 <= offset -> 0 <= length -> offset + length <= file_len file ->
  wp (punch_hole file offset length) (fun '(punched, file') =>
    file_ok file' /\ file_len file' = file_len file /\
    same_reads file' (if punched then zeroed offset length (reads file) else reads file)).
Proof.
  intros (Hb & Hl & Hc) Ho Hn Hle. unfold punch_hole. wp_step. wp_step.
  destruct (fallocate_punch file offset length) as [e l] eqn:Hf.
  pose proof (fallocate_spec _ _ _ _ _ Ho Hn Hle Hf) as Hs. destruct e as [e|]; subst l.
  - destruct e; try apply wp_Err; apply wp_Ok; split_and!; done.
  - unfold file_len in *. assert (len (zrepeat length 0) = length) as Hz by (rewrite len_zrepeat; lia).
    apply wp_Ok. unfold file_ok, file_len. cbn.
    assert (len (ztake offset (contents file) ++ zrepeat length 0 ++ zdrop (offset + length) (contents file))
      = len (contents file)) as Hlen by len_lia.
    split_and!; [auto 10 with zse|lia|lia|lia|].
    intros i Hi. unfold reads. cbn. pose proof (byte_at_splice (contents file) (zrepeat length 0) offset i) as Hsp.
    rewrite Hz in Hsp. rewrite Hsp by lia. unfold zeroed. by rewrite byte_at_zeros.
Qed.

Lemma wp_write_zeros_loop fuel : forall file remaining,
  file_ok file -> 0 <= remaining <= 64 * 1024 * Z.of_nat fuel ->
  wp (write_zeros_loop fuel file remaining) (fun file' => file_ok file' /\
    file_len file <= file_len file' <= Z.max (file_len file) (cursor file + remaining) /\
    same_reads file' (zeroed (cursor file) remaining (reads file))).
Proof.
  induction fuel as [|fuel IH]; intros file remaining Hok Hr; cbn [write_zeros_loop];
    (destruct (Z.eqb_spec remaining 0) as [->|Hnz];
     [apply wp_Ok; split_and!; try done; try lia; intros i Hi; unfold zeroed; case_match; [b2p; lia|done]|]); [lia|].
  cbv zeta. remember (Z.min remaining (64 * 1024)) as count eqn:Hc.
  assert (len (zrepeat count 0) = count) as Hlz by (rewrite len_zrepeat; lia).
  apply wp_bind. eapply wp_mono; [|apply wp_write_all; [done|auto with zse]].
  intros f1 (Hok1 & Hcur & Hlen & Hreads). rewrite Hlz in *.
  eapply wp_mono; [|apply IH; [done|lia]]. intros f2 (Hok2 & Hlen2 & Hreads2). split_and!; [done|lia|lia|].
  intros i Hi. rewrite Hreads2 by done. unfold zeroed. rewrite Hreads by done. rewrite over_zeros by lia. unfold zeroed.
  destruct (Z.leb_spec (cursor f1) i), (Z.ltb_spec i (cursor f1 + (remaining - count))), (Z.leb_spec (cursor file) i),
    (Z.ltb_spec i (cursor file + count)), (Z.ltb_spec i (cursor file + remaining)); cbn [andb]; try lia; done.
Qed.

Lemma wp_zero_range file offset length :
  file_ok file -> is_u64 offset -> is_u64 length ->
  wp (zero_range file offset length) (fun file' => file_ok file' /\
    file_len file' <= file_len file /\ (length <> U64_MAX -> file_len file' = file_len file) /\
    same_reads file' (zeroed offset length (reads file))).
Proof.
  unfold is_u64. intros Hok Ho Hn. assert (file_len file <= ISIZE_MAX) as Hmax by apply Hok. unfold ISIZE_MAX in Hmax.
  unfold zero_range. destruct (_ || _) eqn:Hz.
  { apply wp_Ok. split_and!; [done|lia|done|]. intros i Hi. unfold zeroed. destruct (_ && _) eqn:Hi'; [|done]. b2p.
    apply byte_at_out. apply orb_true_iff in Hz as [Hz|Hz]; b2p; unfold file_len in *; lia. }
  b2p. destruct (Z.eqb_spec length U64_MAX) as [->|Hu].
  - eapply wp_mono; [|apply wp_set_len; [done|lia]]. intros f (Hokf & Hlf & _ & Hr). split_and!; [done|lia|done|].
    intros i Hi. rewrite Hr by done. unfold zeroed. destruct (Z.ltb_spec i offset), (Z.leb_spec offset i); try lia; cbn [andb]; [done|].
    case_match; [done|]. b2p. symmetry. apply byte_at_out. unfold file_len in *. lia.
  - apply wp_bind, wp_sub; [lia|]. cbv zeta. remember (Z.min length _) as n eqn:Hmin.
    assert (forall i, 0 <= i -> zeroed offset n (reads file) i = zeroed offset length (reads file) i) as Hsame.
    { intros i Hi. unfold zeroed. destruct (Z.leb_spec offset i), (Z.ltb_spec i (offset + n)), (Z.ltb_spec i (offset + length));
        cbn [andb]; try lia; try done. apply byte_at_out. unfold file_len in *. lia. }
    apply wp_bind. eapply wp_mono; [|apply wp_punch_hole; [done|lia|lia|lia]].
    intros [punched f1] (Hok1 & Hl1 & Hr1). destruct punched.
    + apply wp_Ok. split_and!; [done|lia|done|]. intros i Hi. rewrite <- Hsame by done. by apply Hr1.
    + unfold write_zeros. apply wp_bind, wp_seek. intros Hos.
      eapply wp_mono; [|apply wp_write_zeros_loop].
      * intros f2 (Hok2 & Hl2 & Hr2). unfold file_len in *. cbn in *. split_and!; [done|lia|intros; lia|].
        intros i Hi. rewrite <- Hsame, Hr2 by done. unfold zeroed, reads in *. cbn. case_match; [done|].
        by apply Hr1.
      * split_and!; [apply Hok1|apply Hok1|cbn; lia].
      * change (64 * 1024) with 65536. pose proof (Z.div_mod n 65536 ltac:(lia)). pose proof (Z.mod_pos_bound n 65536 ltac:(lia)).
        pose proof (Z.div_pos n 65536). lia.
Qed.

Lemma wp_write_chunks cs : forall file position,
  file_ok file -> Forall bytes_ok cs -> Forall (fun c => len c <= CHUNK_SIZE) cs -> is_u64 position ->
  wp (fold_res write_chunk (file, position) cs) (fun '(file', position') =>
    file_ok file' /\ position' = position + len (concat cs) /\ is_u64 position' /\
    file_len file <= file_len file' <= Z.max (file_len file) position' /\
    same_reads file' (over position (concat cs) (reads file))).
Proof.
  induction cs as [|c cs IH]; intros file position Hok Hbs Hls Hp; cbn [fold_res concat].
  { apply wp_Ok. rewrite len_nil. split_and!; try done; try lia. intros i Hi. by rewrite over_nil. }
  inversion Hbs as [|? ? Hb Hbs']; inversion Hls as [|? ? Hl Hls']; subst. pose proof (len_nonneg c). unfold CHUNK_SIZE in Hl.
  apply wp_bind. unfold write_chunk at 1. apply wp_bind.
  apply (wp_mono _ (fun f1 => file_ok f1 /\ file_len file <= file_len f1 <= Z.max (file_len file) (position + len c) /\
    same_reads f1 (over position c (reads file)))).
  2: { destruct (all_zero c) eqn:Hz.
       - eapply wp_mono; [|apply wp_zero_range; [done|done|u64]]. intros f1 (Hok1 & _ & Hlen & Hr).
         split_and!; [done|rewrite Hlen by lia; lia|rewrite Hlen by lia; lia|].
         intros i Hi. rewrite Hr, <- over_zeros by done. by rewrite <- all_zero_repeat.
       - apply wp_bind, wp_seek. intros Hmax. eapply wp_mono; [|apply wp_write_all; [|done]].
         + intros f1 (Hok1 & _ & Hlen & Hr). split_and!; [done|apply Hlen|apply Hlen|exact Hr].
         + destruct Hok as (? & ? & ?). split_and!; [done|done|cbn; u64]. }
  intros f1 (Hok1 & Hlen1 & Hr1). wp_step. wp_step.
  match goal with Hx : checked_add _ _ = Some _ |- _ => apply checked_add_Some in Hx as [? ->] end. apply wp_Ok.
  assert (is_u64 (position + len c)) as Hp' by (unfold is_u64 in *; lia).
  eapply wp_mono; [|by apply IH]. intros [f2 p2] (Hok2 & -> & Hp2 & Hlen2 & Hr2). rewrite len_app.
  pose proof (len_nonneg (concat cs)).
  split_and!; [done|lia|unfold is_u64 in *; lia|lia|lia|]. intros i Hi. rewrite Hr2 by done. rewrite over_app.
  unfold over at 1 3. by rewrite Hr1.
Qed.

Lemma wp_sparse_write_extent file offset bytes :
  file_ok file -> bytes_ok bytes -> is_u64 offset ->
  wp (write_extent file offset bytes) (fun file' => file_ok file' /\
    file_len file <= file_len file' <= Z.max (file_len file) (offset + len bytes) /\
    same_reads file' (over offset bytes (reads file))).
Proof.
  intros Hok Hb Ho. unfold write_extent. apply wp_bind.
  assert (concat (chunks CHUNK_SIZE bytes) = bytes) as Hc by (by apply chunks_concat).
  eapply wp_mono; [|apply wp_write_chunks; [done| | |done]].
  - rewrite Hc. intros [f p] (Hokf & -> & _ & Hl & Hr). by apply wp_Ok.
  - apply Forall_forall. intros c Hin. apply Forall_forall. intros x Hx.
    rewrite <- Hc in Hb. apply (proj1 (Forall_forall _ _) Hb). by eapply concat_elem.
  - apply Forall_forall. intros c Hin. apply chunks_bound in Hin; [tauto|done].
Qed.

(** ** Copying *)

(** The loops read the source where they write the destination. *)
Lemma wp_read_exact file n (P : list Z * File -> Prop) :
  (forall bytes, len bytes = n -> bytes = ztake n (zdrop (cursor file) (contents file)) ->
     0 <= cursor file -> cursor file + n <= file_len file ->
     P (bytes, {| contents := contents file; cursor := cursor file + n |})) ->
  wp (read_exact file n) P.
Proof.
  intros HP. unfold read_exact. destruct (get_range _ _ _) as [bytes|] eqn:Hg; [|apply wp_Err].
  apply get_range_len in Hg as Hl. apply get_range_Some in Hg as (H1 & H2 & Hb). apply wp_Ok, HP.
  - lia.
  - rewrite Hb. f_equal. lia.
  - lia.
  - unfold file_len. lia.
Qed.

Lemma read_bytes l a n i :
  0 <= a -> 0 <= n -> a + n <= len l -> a <= i < a + n ->
  byte_at (ztake n (zdrop a l)) (i - a) = byte_at l i.
Proof. intros. rewrite byte_at_ztake, byte_at_zdrop by lia. f_equal. lia. Qed.

(** The destination after the bytes of [a, b) were copied into it. *)
Definition copied (source : list Z) (a b : Z) (old : Z -> Z) (i : Z) : Z :=
  if (a <=? i) && (i <? b) then byte_at source i else old i.

Lemma copied_step source a n b old new i :
  0 <= a -> 0 <= n -> a + n <= len source -> a + n <= b ->
  (new i = over a (ztake n (zdrop a source)) old i) ->
  copied source (a + n) b new i = copied source a b old i.
Proof.
  intros Ha Hn Hl Hb Hnew. unfold copied. assert (len (ztake n (zdrop a source)) = n) as Hlen by len_lia.
  rewrite Hnew. unfold over. rewrite Hlen.
  destruct (Z.leb_spec (a + n) i), (Z.ltb_spec i b), (Z.leb_spec a i), (Z.ltb_spec i (a + n));
    cbn [andb]; try lia; try done; by rewrite read_bytes by lia.
Qed.

Lemma wp_copy_range_loop fuel : forall source destination remaining,
  file_ok source -> file_ok destination -> cursor destination = cursor source ->
  0 <= remaining <= CHUNK_SIZE * Z.of_nat fuel -> cursor source + remaining <= file_len destination ->
  wp (copy_range_loop fuel source destination remaining) (fun '(source', destination') =>
    contents source' = contents source /\ file_ok source' /\ file_ok destination' /\
    file_len destination' = file_len destination /\
    same_reads destination' (copied (contents source) (cursor source) (cursor source + remaining) (reads destination))).
Proof.
  induction fuel as [|fuel IH]; intros source destination remaining Hs Hd Hc Hr Hl; cbn [copy_range_loop];
    (destruct (Z.eqb_spec remaining 0) as [->|Hnz];
     [apply wp_Ok; split_and!; try done; intros i Hi; unfold copied; case_match; [b2p; lia|done]|]); [lia|].
  cbv zeta. remember (Z.min remaining CHUNK_SIZE) as count eqn:Hcount. unfold CHUNK_SIZE in *.
  apply wp_bind, wp_read_exact. intros bytes Hlen Hbytes Hc0 Hin. destruct Hs as (Hsb & Hsl & _).
  assert (bytes_ok bytes) as Hbok by (subst bytes; auto with zse).
  apply wp_bind. eapply wp_mono; [|by apply wp_write_all].
  intros d1 (Hd1 & Hc1 & Hl1 & Hr1). rewrite Hlen, Hc in *.
  eapply wp_mono; [|apply IH; cbn; [|done|done|lia|lia]].
  - intros [s2 d2] (Hcont & Hs2 & Hd2 & Hl2 & Hr2). cbn in *. split_and!; try done; [lia|].
    intros i Hi. rewrite Hr2 by done. replace (cursor source + count + (remaining - count)) with (cursor source + remaining) by lia.
    apply copied_step; [lia|lia|unfold file_len in *; lia|lia|]. rewrite <- Hbytes. by apply Hr1.
  - split_and!; cbn; done || lia.
Qed.

Lemma wp_copy_range source destination offset length :
  file_ok source -> file_ok destination -> 0 <= offset -> 0 <= length -> offset + length <= file_len destination ->
  wp (copy_range source destination offset length) (fun '(source', destination') =>
    contents source' = contents source /\ file_ok source' /\ file_ok destination' /\
    file_len destination' = file_len destination /\
    same_reads destination' (copied (contents source) offset (offset + length) (reads destination))).
Proof.
  intros (Hs1 & Hs2 & _) (Hd1 & Hd2 & _) Ho Hn Hl. unfold copy_range.
  apply wp_bind, wp_seek. intros Hm. apply wp_bind, wp_seek. intros _.
  eapply wp_mono; [|apply wp_copy_range_loop]; cbn; try done.
  unfold CHUNK_SIZE. change (1024 * 1024) with 1048576. pose proof (Z.div_mod length 1048576 ltac:(lia)).
    pose proof (Z.mod_pos_bound length 1048576 ltac:(lia)). pose proof (Z.div_pos length 1048576). lia.
Qed.

Lemma wp_copy_allocated fuel : forall source destination offset,
  file_ok source -> file_ok destination -> file_len destination = file_len source -> 0 <= offset ->
  file_len source - offset <= Z.of_nat fuel ->
  (forall i, 0 <= i -> reads destination i = if i <? offset then reads source i else 0) ->
  wp (copy_allocated fuel source destination offset (file_len source)) (fun '(all, source', destination') =>
    contents source' = contents source /\ file_ok source' /\ file_ok destination' /\
    file_len destination' = file_len source /\
    (all = true -> same_reads destination' (reads source))).
Proof.
  induction fuel as [|fuel IH]; intros source destination offset Hs Hd Hl Ho Hf Hr; cbn [copy_allocated].
  all: destruct (Z.leb_spec (file_len source) offset) as [Hle|Hgt];
    [ apply wp_Ok; split_and!; try done; intros _ i Hi; rewrite Hr by done; case_match; [done|]; b2p;
      unfold reads; rewrite byte_at_out; [done|unfold file_len in *; lia] |].
  { lia. }
  pose proof (lseek_data_spec (contents source) offset) as Hdata.
  destruct (lseek_data (contents source) offset) as [data|e].
  2: { destruct e; try apply wp_Err; try (by apply wp_Ok). apply wp_Ok. split_and!; try done. intros _ i Hi.
       rewrite Hr by done. case_match; [done|]. b2p. symmetry. apply Hdata; [unfold file_len in *; lia|done]. }
  destruct Hdata as [Hdr Hdz]; [unfold file_len in *; lia|].
  pose proof (lseek_hole_spec (contents source) data) as Hhole.
  destruct (lseek_hole (contents source) data) as [hole|e]; [|destruct e; try apply wp_Err; by apply wp_Ok].
  cbv zeta. remember (Z.min hole (file_len source)) as end_ eqn:He. destruct (Z.leb_spec end_ data); [by apply wp_Ok|].
  apply wp_bind. eapply wp_mono; [|apply wp_copy_range; [done|done|lia|lia|lia]].
  intros [s1 d1] (Hc1 & Hs1 & Hd1 & Hl1 & Hr1).
  assert (file_len s1 = file_len source) as Hls by (unfold file_len; by rewrite Hc1).
  rewrite <- Hls. eapply wp_mono; [|apply IH; [done|done|lia|lia|lia|]].
  - intros [[all s2] d2] (Hc2 & Hs2 & Hd2 & Hl2 & Hr2). split_and!; [congruence|done|done|lia|].
    intros Ha i Hi. rewrite Hr2 by done. unfold reads. by rewrite Hc1.
  - intros i Hi. rewrite Hr1 by done. unfold copied, reads. rewrite Hc1.
    replace (data + (end_ - data)) with end_ by lia.
    destruct (Z.leb_spec data i), (Z.ltb_spec i end_); cbn [andb]; try lia; try done.
    + fold (reads destination i). rewrite Hr by done. case_match; b2p; [lia|done].
    + fold (reads destination i). rewrite Hr by done. case_match; [done|]. b2p. symmetry. apply Hdz. lia.
Qed.

Lemma wp_copy_loop fuel : forall source destination offset,
  file_ok source -> file_ok destination -> file_len destination = file_len source ->
  cursor source = offset -> 0 <= offset <= file_len source ->
  file_len source - offset <= CHUNK_SIZE * Z.of_nat fuel ->
  (forall i, 0 <= i < offset -> reads destination i = reads source i) ->
  wp (copy_loop fuel source destination offset (file_len source)) (fun '(source', destination') =>
    contents source' = contents source /\ file_ok destination' /\ file_len destination' = file_len source /\
    same_reads destination' (reads source)).
Proof.
  induction fuel as [|fuel IH]; intros source destination offset Hs Hd Hl Hc Ho Hf Hr; cbn [copy_loop].
  all: destruct (Z.leb_spec (file_len source) offset) as [Hle|Hgt];
    [ apply wp_Ok; split_and!; try done; intros i Hi; destruct (Z.lt_ge_cases i offset); [by apply Hr|];
      unfold reads; rewrite !byte_at_out; [done|unfold file_len in *; lia..] |].
  { unfold CHUNK_SIZE in *. lia. }
  cbv zeta. remember (Z.min (file_len source - offset) CHUNK_SIZE) as wanted eqn:Hw. unfold CHUNK_SIZE in *.
  assert (file_len source <= ISIZE_MAX) as Hmax by apply Hs. unfold ISIZE_MAX in *. destruct Hs as (Hsb & Hsl & Hsc).
  apply wp_bind, wp_read_exact. intros bytes Hlen Hbytes _ Hin. rewrite Hc in *.
  apply wp_bind. eapply wp_mono; [|apply wp_sparse_write_extent; [done| |u64]]; [|subst bytes; auto with zse].
  intros d1 (Hd1 & Hl1 & Hr1). rewrite Hlen in *. apply wp_bind, wp_add; [lia|].
  set (s1 := {| contents := contents source; cursor := offset + wanted |}).
  change (file_len source) with (file_len s1). eapply wp_mono; [|apply IH].
  - intros [s3 d3] Hp. exact Hp.
  - split_and!; [exact Hsb|exact Hsl|cbn; lia].
  - done.
  - change (file_len s1) with (file_len source). lia.
  - done.
  - change (file_len s1) with (file_len source). lia.
  - change (file_len s1) with (file_len source). lia.
  - intros i Hi. change (reads d1 i = reads source i). rewrite Hr1 by lia. unfold over. rewrite Hlen.
    destruct (Z.leb_spec offset i), (Z.ltb_spec i (offset + wanted)); cbn [andb]; try lia.
    + rewrite Hbytes. apply read_bytes; [lia|lia|unfold file_len in *; lia|lia].
    + apply Hr. lia.
Qed.

(** The copy has the bytes of the source, whatever the system says about its
    holes. *)
Lemma wp_copy source destination :
  file_ok source -> file_ok destination -> contents destination = [] ->
  wp (copy source destination) (fun '(n, destination') =>
    n = file_len source /\ file_ok destination' /\ contents destination' = contents source).
Proof.
  intros Hs Hd Hempty. unfold copy. pose proof (len_nonneg (contents source)) as Hpos. fold (file_len source) in Hpos.
  assert (file_len source <= ISIZE_MAX) as Hmax by apply Hs. cbv zeta.
  apply wp_bind. eapply wp_mono; [|by apply wp_set_len]. intros d0 (Hd0 & Hl0 & _ & Hr0).
  assert (same_reads d0 (fun _ => 0)) as Hz0.
  { intros i Hi. rewrite Hr0 by done. unfold reads. rewrite Hempty. case_match; [|done]. apply byte_at_out. unfold len; cbn [length]; lia. }
  assert (forall d, file_len d = file_len source -> same_reads d (reads source) -> contents d = contents source) as Hext.
  { intros d Hl Hr. by apply contents_ext. }
  destruct (Z.eqb_spec (file_len source) 0) as [Hz|Hnz].
  { apply wp_Ok. split_and!; [lia|done|]. apply Hext; [done|]. intros i Hi. rewrite Hz0 by done.
    unfold reads. rewrite byte_at_out; [done|unfold file_len in *; lia]. }
  apply wp_bind. eapply wp_mono; [|apply wp_copy_allocated; [done|done|done|lia|lia|]].
  2: { intros i Hi. rewrite Hz0 by done. case_match; [|done]. b2p. lia. }
  intros [[all s1] d1] (Hc1 & Hs1 & Hd1 & Hl1 & Hr1). destruct all.
  { apply wp_Ok. split_and!; [done|done|]. apply Hext; auto. }
  apply wp_bind, wp_seek. intros _. set (s2 := {| contents := contents s1; cursor := 0 |}).
  assert (file_len s2 = file_len source) as Hl2 by (unfold file_len, s2; cbn; by rewrite Hc1).
  rewrite <- Hl2. apply wp_bind. eapply wp_mono; [|apply wp_copy_loop; try lia].
  - intros [s3 d3] (Hc3 & Hd3 & Hl3 & Hr3). apply wp_Ok. split_and!; [done|done|]. apply Hext; [lia|].
    intros i Hi. rewrite Hr3 by done. unfold reads, s2. cbn. by rewrite Hc1.
  - destruct Hs1 as (? & ? & ?). split_and!; done.
  - done.
  - done.
  - unfold CHUNK_SIZE. change (1024 * 1024) with 1048576. pose proof (Z.div_mod (file_len s2) 1048576 ltac:(lia)).
    pose proof (Z.mod_pos_bound (file_len s2) 1048576 ltac:(lia)). pose proof (Z.div_pos (file_len s2) 1048576). lia.
Qed.
End facts.
