(* ===== verification/Operations.v ===== *)
(** Extracting an object of a snapshot chain and bringing an extracted file up to
    date from an incremental send, src/src/operations.rs. Files are the sparse
    files of [Sparse]; the SHA-256 digest is a crate. *)

From S2P Require Import Prelude Bytes Utf8 Stream StreamFacts Replay Compression NvList Encrypted.
From S2P Require Import EncryptedDnode Paths Snapshots Selected ObjectIndex Resolve Sparse.

(** The names that [Resolve] and [Sparse] share with other files are qualified. *)

(** The digest of crate [sha2] in hexadecimal: some function into 64 characters, which
    cannot tell all byte strings apart. *)
Class Digest := { sha256_hex : list Z -> list Z; sha256_hex_len : forall bytes, len (sha256_hex bytes) = 64 }.

(** ** Data and small operations (lines 24-54, 797-838, 1023-1091) *)

Definition SIDECAR_VERSION : Z := 1.
Definition MAX_REPLAY_BLOCK_SIZE : Z := 16 * 1024 * 1024.

Record Inspection := {
  in_begin : BeginRecord; in_snapshots : list BeginRecord; in_stream_bytes : Z;
  in_records : gmap string Z;
}.

Record EncryptionRequirement := { er_dataset_name : list Z; er_key_format : string }.

Record Sidecar := {
  sc_format_version : Z; sc_path : list Z; sc_object_id : Z; sc_object_type : Z; sc_bonus_type : Z;
  sc_logical_size : Z; sc_size_bonus_offset : option Z; sc_size_spill_offset : option Z;
  sc_snapshot_guid : list Z; sc_sha256 : list Z; sc_raw_state : option RawSidecarState;
}.

Definition hex_lower (d : Z) : Z := if d <? 10 then 48 + d else 87 + d.

(** [format!("0x{guid:016x}")] *)
Definition guid_string (guid : Z) : list Z :=
  bytes_of_string "0x" ++ map (fun k => hex_lower (Z.land (Z.shiftr guid (4 * (15 - k))) 15)) (seqZ 0 16).

Definition parse_guid (value : list Z) : result Z :=
  let value := default value (strip_prefix (bytes_of_string "0x") value) in
  ok_or (from_str_radix 16 U64_MAX value) (Context "invalid snapshot GUID {value:?}" [] (Foreign "ParseIntError")).

Definition read_stored_size (bytes : list Z) (offset : Z) (source : string) : result Z :=
  let! offset := ok_or (usize_try_from offset) (Msg "stored size offset is too large" []) in
  let! end_ := add offset 8 in
  let! value := ok_or (get_range bytes offset end_) (Msg (source +:+ " has a truncated size attribute") []) in
  Ok (le_val value).

(** The text of [raw_layout_compatible] and [free_raw_blocks] again. *)
Definition raw_apply_layout_compatible (dnode : RawDnode) (object : ObjectRecord) : bool :=
  (dn_object_type dnode =? obj_type object)
  && (dn_block_size dnode =? obj_block_size object)
  && (dn_slots dnode =? obj_dnode_slots object)
  && (dn_indirect_block_shift dnode =? obj_indirect_block_shift object)
  && (dn_levels dnode =? obj_levels object)
  && (dn_block_pointers dnode =? obj_block_pointers object).

Definition free_raw_apply_blocks (dnode : RawDnode) (offset length : Z) : result RawDnode :=
  let! end_ :=
    if length =? U64_MAX then Ok U64_MAX
    else ok_or (checked_add offset length) (Msg "raw FREE extent overflow" []) in
  Ok (set_blocks dnode (List.filter (fun block =>
    match checked_mul (bp_block_id block) (bp_logical_size block) with
    | None => false
    | Some start =>
        let block_end := saturating_add start (bp_logical_size block) in
        (block_end <=? offset) || (end_ <=? start)
    end) (dn_blocks dnode))).

(** ** What a stream holds (lines 56-87, 223-315) *)

Record inspect_state := { is_snapshots : list BeginRecord; is_records : gmap string Z; is_bytes : Z }.

Definition inspect_step (s : inspect_state) (record : Record_) : result inspect_state :=
  let name := RecordKind_name (kind record) in
  let! count := add (default 0 (is_records s !! name)) 1 in
  let! at_payload := add (stream_offset record) 312 in
  let! stream_bytes := add at_payload (len (payload record)) in
  Ok {| is_snapshots := match kind record with
          | Begin header => if header_type header =? DMU_SUBSTREAM then is_snapshots s ++ [header] else is_snapshots s
          | _ => is_snapshots s
          end;
        is_records := <[name := count]> (is_records s); is_bytes := stream_bytes |}.

Definition inspect_stream {R} `{Read R} (fuel : nat) (file : R) : result Inspection :=
  let! (s, reader) := each_record fuel inspect_step {| is_snapshots := []; is_records := ∅; is_bytes := 0 |}
    (StreamReader_new file) in
  fail! negb (saw_end reader) with Msg "stream has no END record" [] in
  let! begin := ok_or (head (is_snapshots s)) (Msg "stream has no snapshot substream" []) in
  Ok {| in_begin := begin; in_snapshots := is_snapshots s; in_stream_bytes := is_bytes s;
        in_records := is_records s |}.

Definition requirement (header : BeginRecord) (payload : list Z) : result EncryptionRequirement :=
  let! params := from_begin_payload payload in
  let! key_format := key_format_name params in
  Ok {| er_dataset_name := dataset_name header; er_key_format := key_format |}.

(** [encryption_requirement]'s loop, which returns from within. *)
Fixpoint find_requirement {R} `{Read R} (fuel : nat) (guid : Z) (self : StreamReader R)
  : result EncryptionRequirement :=
  match fuel with
  | O => OutOfFuel
  | S fuel =>
      let! (record, self) := map_err stream_error (next_record self) in
      match record with
      | None => Err (Msg "selected encrypted snapshot disappeared while reading its key metadata" [])
      | Some record =>
          match kind record with
          | Begin header =>
              if (header_type header =? DMU_SUBSTREAM) && (to_guid header =? guid)
              then requirement header (payload record)
              else find_requirement fuel guid self
          | _ => find_requirement fuel guid self
          end
      end
  end.

Definition encryption_requirement {R} `{Read R} (fuel : nat) (stream : R) (snapshot : option (list Z))
  : result (option EncryptionRequirement) :=
  let! plan := plan_snapshot fuel stream snapshot in
  if negb (has_bits (features (target plan)) FEATURE_RAW) then Ok None
  else
    let! r := find_requirement fuel (to_guid (target plan)) (StreamReader_new stream) in
    Ok (Some r).

Definition requirements_step (requirements : gmap Z EncryptionRequirement) (record : Record_)
  : result (gmap Z EncryptionRequirement) :=
  match kind record with
  | Begin header =>
      if (header_type header =? DMU_SUBSTREAM) && has_bits (features header) FEATURE_RAW then
        let! r := requirement header (payload record) in
        Ok (<[to_guid header := r]> requirements)
      else Ok requirements
  | _ => Ok requirements
  end.

Definition encryption_requirements {R} `{Read R} (fuel : nat) (stream : R)
  : result (gmap Z EncryptionRequirement) :=
  let! (requirements, _) := each_record fuel requirements_step ∅ (StreamReader_new stream) in
  Ok requirements.

(** The u32 [substreams] never passes 2. *)
Definition apply_requirement_step (s : option EncryptionRequirement * Z) (record : Record_)
  : result (option EncryptionRequirement * Z) :=
  match kind record with
  | Begin header =>
      if header_type header =? DMU_SUBSTREAM then
        let substreams := s.2 + 1 in
        fail! 1 <? substreams with Msg "apply accepts exactly one incremental snapshot substream" [] in
        if has_bits (features header) FEATURE_RAW then
          let! r := requirement header (payload record) in Ok (Some r, substreams)
        else Ok (s.1, substreams)
      else Ok s
  | _ => Ok s
  end.

Definition apply_encryption_requirement {R} `{Read R} (fuel : nat) (stream : R)
  : result (option EncryptionRequirement) :=
  let! (s, reader) := each_record fuel apply_requirement_step (None, 0) (StreamReader_new stream) in
  fail! negb (saw_end reader) with Msg "incremental stream has no END record" [] in
  fail! s.2 =? 0 with Msg "incremental stream has no snapshot substream" [] in
  Ok s.1.

(** ** Extraction (lines 137-196, 845-1031) *)

Section extraction.
Context `{Codecs} `{Crypto} `{Os} `{Digest}.

Definition replace_file_extent (file : File) (offset length : Z) (payload : list Z) : result File :=
  fail! MAX_REPLAY_BLOCK_SIZE <? length with Msg "embedded replay block exceeds the 16 MiB safety limit" [] in
  fail! length <? len payload with Msg "embedded replay payload exceeds its logical block length" [] in
  let! file := zero_range file offset length in
  write_extent file offset payload.

(** The second [match] of [replay_object]: the file, and whether the object
    exists. *)
Definition replay_record (object_id : Z) (s : File * bool) (record : Record_) : result (File * bool) :=
  let '(output, object_exists) := s in
  match kind record with
  | Object object =>
      if obj_object object =? object_id then
        let! output := if negb object_exists then set_len output 0 else Ok output in
        Ok (output, true)
      else Ok s
  | Write write =>
      if wr_object write =? object_id then
        let! plaintext := decode_replay_write (wr_compression_type write) (payload record) (wr_logical_size write) in
        let! output := write_extent output (wr_offset write) plaintext in
        Ok (output, object_exists)
      else Ok s
  | WriteEmbedded write =>
      if we_object write =? object_id then
        let! plaintext := decode_embedded_write (we_compression_type write) (we_embedded_type write)
          (payload record) (we_physical_size write) (we_logical_size write) in
        let! output := replace_file_extent output (we_offset write) (we_length write) plaintext in
        Ok (output, object_exists)
      else Ok s
  | WriteByRef => Err (Msg "deduplicated WRITE_BYREF streams are unsupported" [])
  | Free free =>
      if fr_object free =? object_id then
        let! output := zero_range output (fr_offset free) (fr_length free) in
        Ok (output, object_exists)
      else Ok s
  | FreeObjects range =>
      let end_ := saturating_add (fo_first_object range) (fo_object_count range) in
      if (fo_first_object range <=? object_id) && (object_id <? end_) then
        let! output := set_len output 0 in
        Ok (output, false)
      else Ok s
  | ObjectRange _ => Err (Msg "raw OBJECT_RANGE streams are unsupported" [])
  | Redact => Err (Msg "redacted streams are unsupported" [])
  | _ => Ok s
  end.

(** The plaintext of a raw WRITE. *)
Definition raw_plaintext (key : DatasetKey) (write : WriteRecord) (body : list Z) : result (list Z) :=
  let! protected :=
    if is_encrypted_object_type (wr_object_type write)
    then decrypt_block key (wr_salt write) (wr_iv write) (wr_mac write) [] body
    else let! _ := authenticate_block key body (wr_mac write) in Ok body in
  raw_decompress_block (wr_compression_type write) protected (wr_logical_size write).

Record raw_replay := { rr_active : option Z; rr_seen : gset Z; rr_key : option DatasetKey;
  rr_output : File; rr_exists : bool }.

Definition replay_raw_record (object_id : Z) (key : DatasetKey) (s : File * bool) (record : Record_)
  : result (File * bool) :=
  let '(output, object_exists) := s in
  match kind record with
  | Object object =>
      if obj_object object =? object_id then
        let! output := if negb object_exists then set_len output 0 else Ok output in
        Ok (output, true)
      else Ok s
  | Write write =>
      if wr_object write =? object_id then
        let! plaintext := raw_plaintext key write (payload record) in
        let! output := write_extent output (wr_offset write) plaintext in
        Ok (output, object_exists)
      else Ok s
  | Free free =>
      if fr_object free =? object_id then
        let! output := zero_range output (fr_offset free) (fr_length free) in
        Ok (output, object_exists)
      else Ok s
  | FreeObjects range =>
      let end_ := saturating_add (fo_first_object range) (fo_object_count range) in
      if (fo_first_object range <=? object_id) && (object_id <? end_) then
        let! output := set_len output 0 in
        Ok (output, false)
      else Ok s
  | WriteEmbedded write =>
      if we_object write =? object_id
      then Err (Msg "raw embedded WRITE records are unsupported" []) else Ok s
  | WriteByRef => Err (Msg "raw deduplicated WRITE_BYREF is unsupported" [])
  | Redact => Err (Msg "redacted streams are unsupported" [])
  | _ => Ok s
  end.

Definition replay_raw_step (object_id : Z) (selected : gset Z) (key_material : list Z) (s : raw_replay)
    (record : Record_) : result raw_replay :=
  match kind record with
  | Begin header =>
      match opened selected header with
      | Some guid =>
          let! params := from_begin_payload (payload record) in
          let! key := unlock params key_material in
          Ok {| rr_active := Some guid; rr_seen := {[guid]} ∪ rr_seen s; rr_key := Some key;
                rr_output := rr_output s; rr_exists := rr_exists s |}
      | None => Ok {| rr_active := None; rr_seen := rr_seen s; rr_key := rr_key s;
                      rr_output := rr_output s; rr_exists := rr_exists s |}
      end
  | _ =>
      match rr_active s with
      | None => Ok s
      | Some _ =>
          match kind record with
          | End_ => Ok {| rr_active := None; rr_seen := rr_seen s; rr_key := None;
                          rr_output := rr_output s; rr_exists := rr_exists s |}
          | _ =>
              let! key := expect (rr_key s) in
              let! (output, object_exists) := replay_raw_record object_id key (rr_output s, rr_exists s) record in
              Ok {| rr_active := rr_active s; rr_seen := rr_seen s; rr_key := rr_key s;
                    rr_output := output; rr_exists := object_exists |}
          end
      end
  end.

Definition replay_raw_object {R} `{Read R} (fuel : nat) (stream : R) (plan : SnapshotPlan)
    (object_id : Z) (output : File) (key_material : option (list Z)) : result File :=
  let! key_material := ok_or key_material (Msg "encrypted raw send requires a key" []) in
  let selected := list_to_set (chain plan) in
  let! (s, _) := each_record fuel (replay_raw_step object_id selected key_material)
    {| rr_active := None; rr_seen := ∅; rr_key := None; rr_output := output; rr_exists := false |}
    (StreamReader_new stream) in
  fail! negb (rr_exists s) with Msg "object {} was not present in the raw snapshot" [object_id] in
  fail! negb (Z.of_nat (size (rr_seen s)) =? len (chain plan))
    with Msg "stream changed between raw indexing and extraction" [] in
  Ok (rr_output s).

Definition replay_object {R} `{Read R} (fuel : nat) (stream : R) (plan : SnapshotPlan)
    (object_id : Z) (output : File) (key_material : option (list Z)) : result File :=
  if has_bits (features (target plan)) FEATURE_RAW
  then replay_raw_object fuel stream plan object_id output key_material
  else
    let selected := list_to_set (chain plan) in
    let! (s, reader) := each_record fuel (selected_step (replay_record object_id) selected)
      (selection_start (output, false)) (StreamReader_new stream) in
    fail! negb (saw_end reader) with Msg "stream has no END record" [] in
    fail! negb (Z.of_nat (size (sel_seen s)) =? len (chain plan))
      with Msg "stream changed between indexing and extraction" [] in
    Ok (sel_inner s).1.

(** What is written: the file at the output path, and the sidecar. [exists_] is
    [output.exists()]. *)
Definition extract_resolved_snapshot `{ZfsCore} {R} `{Read R} (fuel : nat) (stream : R) (plan : SnapshotPlan)
    (index : ObjectIndex) (resolved : ResolvedPath) (exists_ force : bool)
    (key_material : option (list Z)) (write_sidecar : bool) : result (File * Sidecar) :=
  fail! negb (Resolve.dirent_type resolved =? 8) with Msg "{} is not a regular file" [] in
  fail! exists_ && negb force with Msg "output {} already exists (pass --force to replace it)" [] in
  let temporary := {| contents := []; cursor := 0 |} in
  let! temporary := replay_object fuel stream plan (Resolve.object_id resolved) temporary key_material in
  let! temporary := set_len temporary (Resolve.logical_size resolved) in
  let! raw_state := if write_sidecar then raw_sidecar_state index (Resolve.object_id resolved) else Ok None in
  Ok (temporary, {|
    sc_format_version := SIDECAR_VERSION; sc_path := Resolve.normalized_path resolved;
    sc_object_id := Resolve.object_id resolved; sc_object_type := Resolve.object_type resolved;
    sc_bonus_type := Resolve.bonus_type resolved; sc_logical_size := Resolve.logical_size resolved;
    sc_size_bonus_offset := rp_size_bonus_offset resolved; sc_size_spill_offset := rp_size_spill_offset resolved;
    sc_snapshot_guid := guid_string (to_guid (ix_begin index)); sc_sha256 := sha256_hex (contents temporary);
    sc_raw_state := raw_state |}).

Definition extract_snapshot_with_key `{ZfsCore} {R} `{Read R} (fuel : nat) (stream : R) (path : list Z)
    (exists_ force : bool) (snapshot : option (list Z)) (key_material : option (list Z))
  : result (File * Sidecar) :=
  let! plan := plan_snapshot fuel stream snapshot in
  let! index := build_plan_with_key fuel stream plan key_material in
  let! resolved := resolve_path index path in
  extract_resolved_snapshot fuel stream plan index resolved exists_ force key_material true.

Definition list_directory_snapshot_with_key `{ZfsCore} {R} `{Read R} (fuel : nat) (stream : R) (path : list Z)
    (snapshot : option (list Z)) (key_material : option (list Z)) : result (list DirectoryEntry) :=
  let! plan := plan_snapshot fuel stream snapshot in
  let! index := build_plan_with_key fuel stream plan key_material in
  list_directory index path.
End extraction.
