(* ===== verification/Apply.v ===== *)
(** Bringing an extracted file up to date from an incremental send,
    src/src/operations.rs lines 317-808: the checks against the sidecar, the
    plain and the encrypted replay, the new sidecar. *)

From S2P Require Import Prelude Bytes Utf8 Stream StreamFacts Replay Compression NvList Encrypted.
From S2P Require Import EncryptedDnode Paths Snapshots Selected ObjectIndex Resolve Sparse.
From S2P Require Import Operations.

Section apply.
Context `{Codecs} `{Crypto} `{Os} `{Digest}.

(** ** Plain incrementals (lines 369-491) *)

Record apply_state := {
  as_begin : option BeginRecord; as_size : Z; as_changed : bool; as_deleted : bool; as_file : File;
}.

Definition set_file (s : apply_state) (file : File) : apply_state := {|
  as_begin := as_begin s; as_size := as_size s; as_changed := true; as_deleted := as_deleted s;
  as_file := file |}.
Definition set_size (s : apply_state) (size : Z) : apply_state := {|
  as_begin := as_begin s; as_size := size; as_changed := true; as_deleted := as_deleted s;
  as_file := as_file s |}.

Definition apply_begin (sidecar : Sidecar) (s : apply_state) (header : BeginRecord) : result apply_state :=
  match as_begin s with
  | Some _ => Err (Msg "apply accepts exactly one incremental snapshot substream" [])
  | None =>
      let! expected := parse_guid (sc_snapshot_guid sidecar) in
      fail! negb (from_guid header =? expected)
        with Msg "incremental stream starts from {}, but target metadata is at {}" [from_guid header] in
      Ok {| as_begin := Some header; as_size := as_size s; as_changed := as_changed s;
            as_deleted := as_deleted s; as_file := as_file s |}
  end.

Definition apply_object (sidecar : Sidecar) (s : apply_state) (object : ObjectRecord) (body : list Z)
  : result apply_state :=
  fail! negb (obj_bonus_type object =? sc_bonus_type sidecar)
    with Msg "target object's bonus type changed; re-extract from a new full stream" [] in
  match sc_size_bonus_offset sidecar with
  | Some offset =>
      let! offset := ok_or (usize_try_from offset) (Msg "stored size offset is too large" []) in
      let! end_ := add offset 8 in
      fail! len body <? end_ with Msg "incremental OBJECT record has a truncated size attribute" [] in
      let! value := slice body offset end_ in
      Ok (set_size s (le_val value))
  | None => Ok (set_size s (as_size s))
  end.

Definition apply_step (sidecar : Sidecar) (s : apply_state) (record : Record_) : result apply_state :=
  let target := sc_object_id sidecar in
  match kind record with
  | Begin header => if negb (header_type header =? DMU_SUBSTREAM) then Ok s else apply_begin sidecar s header
  | Object object => if obj_object object =? target then apply_object sidecar s object (payload record) else Ok s
  | Write write =>
      if wr_object write =? target then
        let! plaintext := decode_replay_write (wr_compression_type write) (payload record) (wr_logical_size write) in
        let! file := write_extent (as_file s) (wr_offset write) plaintext in
        Ok (set_file s file)
      else Ok s
  | WriteEmbedded write =>
      if we_object write =? target then
        let! plaintext := decode_embedded_write (we_compression_type write) (we_embedded_type write)
          (payload record) (we_physical_size write) (we_logical_size write) in
        let! file := replace_file_extent (as_file s) (we_offset write) (we_length write) plaintext in
        Ok (set_file s file)
      else Ok s
  | Spill spill =>
      if sp_object spill =? target then
        match sc_size_spill_offset sidecar with
        | Some offset =>
            let! plaintext := decode_replay_write (sp_compression_type spill) (payload record) (sp_logical_size spill) in
            let! size := read_stored_size plaintext offset "incremental SPILL block" in
            Ok (set_size s size)
        | None => Ok (set_size s (as_size s))
        end
      else Ok s
  | WriteByRef => Err (Msg "deduplicated WRITE_BYREF streams are unsupported" [])
  | Free free =>
      if fr_object free =? target then
        let! file := zero_range (as_file s) (fr_offset free) (fr_length free) in
        Ok (set_file s file)
      else Ok s
  | FreeObjects range =>
      let end_ := saturating_add (fo_first_object range) (fo_object_count range) in
      Ok (if (fo_first_object range <=? target) && (target <? end_)
          then {| as_begin := as_begin s; as_size := as_size s; as_changed := as_changed s;
                  as_deleted := true; as_file := as_file s |}
          else s)
  | ObjectRange _ => Err (Msg "raw OBJECT_RANGE streams are unsupported" [])
  | Redact => Err (Msg "redacted streams are unsupported" [])
  | End_ => Ok s
  end.

(** ** Encrypted incrementals (lines 495-808) *)

Definition finish_raw_apply_range (key : DatasetKey) (range : RawDnodeRange) (raw_dnodes : gmap Z RawDnode)
    (sidecar : Sidecar) (target_spill : option (list Z)) : result (option Z) :=
  let! end_ := ok_or (checked_add (rg_first_object range) (rg_object_slots range))
    (Msg "raw OBJECT_RANGE overflows its object IDs" []) in
  let! dnodes := range_values (rg_first_object range) end_ raw_dnodes in
  let! bonuses := decrypt_dnode_bonuses key range dnodes in
  let! target := ok_or (List.find (fun dnode => dn_object dnode =? sc_object_id sidecar) dnodes)
    (Msg "target dnode is absent from its authenticated raw range" []) in
  match sc_size_bonus_offset sidecar with
  | Some offset =>
      let bonus := default (dn_bonus_ciphertext target) (bonuses !! sc_object_id sidecar) in
      let! size := read_stored_size bonus offset "raw OBJECT bonus" in
      Ok (Some size)
  | None =>
      match sc_size_spill_offset sidecar with
      | Some offset =>
          let! spill := ok_or target_spill (Msg "target raw SA spill is absent" []) in
          let! size := read_stored_size spill offset "raw SPILL block" in
          Ok (Some size)
      | None => Ok None
      end
  end.

Record raw_apply := {
  ra_begin : option BeginRecord; ra_key : option DatasetKey; ra_range : option RawDnodeRange;
  ra_size : Z; ra_deleted : bool; ra_spill : option (list Z); ra_dnodes : gmap Z RawDnode; ra_file : File;
}.

Definition raw_apply_begin (sidecar : Sidecar) (raw_state : RawSidecarState) (key_material : list Z)
    (s : raw_apply) (header : BeginRecord) (body : list Z) : result raw_apply :=
  match ra_begin s with
  | Some _ => Err (Msg "apply accepts exactly one incremental snapshot substream" [])
  | None =>
      fail! negb (has_bits (features header) FEATURE_RAW)
        with Msg "raw incremental apply received a plaintext substream" [] in
      let! expected := parse_guid (sc_snapshot_guid sidecar) in
      fail! negb (from_guid header =? expected)
        with Msg "incremental stream starts from {}, but target metadata is at {}" [from_guid header] in
      let! params := from_begin_payload body in
      fail! negb (Encrypted.guid params =? ss_crypto_guid raw_state)
            || negb (version params =? ss_crypto_version raw_state)
        with Msg "raw incremental encryption identity does not match the extracted base" [] in
      let! key := unlock params key_material in
      Ok {| ra_begin := Some header; ra_key := Some key; ra_range := ra_range s; ra_size := ra_size s;
            ra_deleted := ra_deleted s; ra_spill := ra_spill s; ra_dnodes := ra_dnodes s; ra_file := ra_file s |}
  end.

(** The current range, if there is one, is taken and finished. *)
Definition raw_apply_finish (sidecar : Sidecar) (key : result DatasetKey) (s : raw_apply) : result raw_apply :=
  match ra_range s with
  | None => Ok s
  | Some range =>
      let! key := key in
      let! size := finish_raw_apply_range key range (ra_dnodes s) sidecar (ra_spill s) in
      Ok {| ra_begin := ra_begin s; ra_key := ra_key s; ra_range := None;
            ra_size := default (ra_size s) size; ra_deleted := ra_deleted s; ra_spill := ra_spill s;
            ra_dnodes := ra_dnodes s; ra_file := ra_file s |}
  end.

Definition raw_apply_object (target : Z) (s : raw_apply) (object : ObjectRecord) (body : list Z)
  : result raw_apply :=
  let id := obj_object object in
  let previous := ra_dnodes s !! id in
  let compatible := match previous with Some dnode => raw_apply_layout_compatible dnode object | None => false end in
  let! blocks := if compatible then let! p := expect previous in Ok (dn_blocks p) else Ok [] in
  let blocks := List.filter (fun block => bp_block_id block <=? obj_max_block_id object) blocks in
  let spill := if has_bits (obj_flags object) 0x04 && compatible
               then match previous with Some dnode => dn_spill dnode | None => None end else None in
  let dnode := {|
    dn_object := id; dn_object_type := obj_type object; dn_bonus_type := obj_bonus_type object;
    dn_block_size := obj_block_size object; dn_bonus_length := obj_bonus_length object;
    dn_checksum_type := obj_checksum_type object; dn_compression := obj_compression object;
    dn_slots := obj_dnode_slots object; dn_flags := obj_flags object;
    dn_indirect_block_shift := obj_indirect_block_shift object; dn_levels := obj_levels object;
    dn_block_pointers := obj_block_pointers object; dn_max_block_id := obj_max_block_id object;
    dn_bonus_ciphertext := body; dn_blocks := blocks; dn_spill := spill |} in
  Ok {| ra_begin := ra_begin s; ra_key := ra_key s; ra_range := ra_range s; ra_size := ra_size s;
        ra_deleted := if (id =? target) && bool_decide (previous = None) then true else ra_deleted s;
        ra_spill := if (id =? target) && negb (has_bits (obj_flags object) 0x04) then None else ra_spill s;
        ra_dnodes := <[id := dnode]> (ra_dnodes s); ra_file := ra_file s |}.

Definition raw_apply_set (s : raw_apply) (dnodes : gmap Z RawDnode) (spill : option (list Z)) (file : File)
  : raw_apply := {|
  ra_begin := ra_begin s; ra_key := ra_key s; ra_range := ra_range s; ra_size := ra_size s;
  ra_deleted := ra_deleted s; ra_spill := spill; ra_dnodes := dnodes; ra_file := file |}.

Definition raw_apply_write (target : Z) (key : DatasetKey) (s : raw_apply) (write : WriteRecord) (body : list Z)
  : result raw_apply :=
  let! dnode := ok_or (ra_dnodes s !! wr_object write)
    (Msg "raw WRITE for object {} has no dnode state" [wr_object write]) in
  fail! (wr_logical_size write =? 0) || negb (wr_offset write mod wr_logical_size write =? 0)
    with Msg "raw WRITE has an invalid block offset" [] in
  let pointer := {|
    bp_block_id := wr_offset write / wr_logical_size write; bp_object_type := wr_object_type write;
    bp_logical_size := wr_logical_size write; bp_physical_size := wr_compressed_size write;
    bp_compression := wr_compression_type write; bp_flags := wr_flags write; bp_mac := wr_mac write |} in
  let dnodes := <[wr_object write := set_blocks dnode (replace_block pointer (dn_blocks dnode))]> (ra_dnodes s) in
  let! file :=
    if wr_object write =? target then
      let! plaintext := raw_plaintext key write body in
      write_extent (ra_file s) (wr_offset write) plaintext
    else Ok (ra_file s) in
  Ok (raw_apply_set s dnodes (ra_spill s) file).

Definition raw_apply_spill (target : Z) (key : DatasetKey) (s : raw_apply) (spill : SpillRecord) (body : list Z)
  : result raw_apply :=
  let! dnode := ok_or (ra_dnodes s !! sp_object spill)
    (Msg "raw SPILL for object {} has no dnode state" [sp_object spill]) in
  let pointer := {|
    bp_block_id := U64_MAX; bp_object_type := 44; bp_logical_size := sp_logical_size spill;
    bp_physical_size := sp_compressed_size spill; bp_compression := sp_compression_type spill;
    bp_flags := sp_flags spill; bp_mac := sp_mac spill |} in
  let dnodes := <[sp_object spill := set_spill dnode (Some pointer)]> (ra_dnodes s) in
  let! target_spill :=
    if sp_object spill =? target then
      let! protected := decrypt_block key (sp_salt spill) (sp_iv spill) (sp_mac spill) [] body in
      let! plaintext := raw_decompress_block (sp_compression_type spill) protected (sp_logical_size spill) in
      Ok (Some plaintext)
    else Ok (ra_spill s) in
  Ok (raw_apply_set s dnodes target_spill (ra_file s)).

Definition raw_apply_free (target : Z) (s : raw_apply) (free : FreeRecord) : result raw_apply :=
  let! dnodes := update_if_present (fr_object free)
    (fun dnode => free_raw_apply_blocks dnode (fr_offset free) (fr_length free)) (ra_dnodes s) in
  let! file := if fr_object free =? target then zero_range (ra_file s) (fr_offset free) (fr_length free)
               else Ok (ra_file s) in
  Ok (raw_apply_set s dnodes (ra_spill s) file).

Definition raw_apply_free_objects (target : Z) (s : raw_apply) (range : FreeObjectsRecord) : raw_apply :=
  let end_ := saturating_add (fo_first_object range) (fo_object_count range) in
  {| ra_begin := ra_begin s; ra_key := ra_key s; ra_range := ra_range s; ra_size := ra_size s;
     ra_deleted := if (fo_first_object range <=? target) && (target <? end_) then true else ra_deleted s;
     ra_spill := ra_spill s; ra_dnodes := retain_outside (fo_first_object range) end_ (ra_dnodes s);
     ra_file := ra_file s |}.

(** A record of the open substream. *)
Definition raw_apply_record (sidecar : Sidecar) (raw_state : RawSidecarState) (key : DatasetKey)
    (s : raw_apply) (record : Record_) : result raw_apply :=
  let target := sc_object_id sidecar in
  let in_range := match ra_range s with Some _ => true | None => false end in
  match kind record with
  | ObjectRange range =>
      let! s := raw_apply_finish sidecar (Ok key) s in
      Ok {| ra_begin := ra_begin s; ra_key := ra_key s;
            ra_range :=
              if (or_first_object range =? ss_first_object raw_state)
                 && (or_object_slots range =? ss_object_slots raw_state)
              then Some {|
                rg_first_object := or_first_object range; rg_object_slots := or_object_slots range;
                rg_salt := or_salt range; rg_iv := or_iv range; rg_mac := or_mac range;
                rg_flags := or_flags range; rg_crypto_version := ss_crypto_version raw_state |}
              else None;
            ra_size := ra_size s; ra_deleted := ra_deleted s; ra_spill := ra_spill s;
            ra_dnodes := ra_dnodes s; ra_file := ra_file s |}
  | Object object => if in_range then raw_apply_object target s object (payload record) else Ok s
  | Write write => if in_range then raw_apply_write target key s write (payload record) else Ok s
  | Free free => if in_range then raw_apply_free target s free else Ok s
  | FreeObjects range => Ok (if in_range then raw_apply_free_objects target s range else s)
  | Spill spill => if in_range then raw_apply_spill target key s spill (payload record) else Ok s
  | WriteEmbedded _ => Err (Msg "WRITE_EMBEDDED is invalid in a raw send stream" [])
  | WriteByRef => Err (Msg "raw deduplicated WRITE_BYREF is unsupported" [])
  | Redact => Err (Msg "redacted streams are unsupported" [])
  | Begin _ | End_ => Ok s
  end.

Definition raw_apply_step (sidecar : Sidecar) (raw_state : RawSidecarState) (key_material : list Z)
    (s : raw_apply) (record : Record_) : result raw_apply :=
  match kind record with
  | Begin header =>
      if negb (header_type header =? DMU_SUBSTREAM) then Ok s
      else raw_apply_begin sidecar raw_state key_material s header (payload record)
  | End_ =>
      let! s := raw_apply_finish sidecar (expect (ra_key s)) s in
      Ok {| ra_begin := ra_begin s; ra_key := None; ra_range := ra_range s; ra_size := ra_size s;
            ra_deleted := ra_deleted s; ra_spill := ra_spill s; ra_dnodes := ra_dnodes s; ra_file := ra_file s |}
  | _ =>
      let! key := ok_or (ra_key s) (Msg "raw replay record appears outside its substream" []) in
      raw_apply_record sidecar raw_state key s record
  end.

(** The dnodes by their object; of two with one number the later stays. *)
Definition dnodes_by_object (dnodes : list RawDnode) : gmap Z RawDnode :=
  foldl (fun m dnode => <[dn_object dnode := dnode]> m) ∅ dnodes.

Definition apply_raw_incremental {R} `{Read R} (fuel : nat) (stream : R) (target : list Z)
    (sidecar : Sidecar) (key_material : option (list Z)) : result (File * Sidecar) :=
  let! key_material := ok_or key_material (Msg "raw incremental send requires a key" []) in
  let! raw_state := ok_or (sc_raw_state sidecar) (Msg "the extraction sidecar has no raw authentication state" []) in
  fail! negb (ss_object_slots raw_state =? 32) || negb (ss_first_object raw_state mod 32 =? 0)
    with Msg "the extraction sidecar has invalid raw dnode-range state" [] in
  let raw_dnodes := dnodes_by_object (ss_dnodes raw_state) in
  fail! negb (bool_decide (is_Some (raw_dnodes !! sc_object_id sidecar)))
    with Msg "the extraction sidecar is missing the target raw dnode" [] in
  let! (_, temporary) := copy {| contents := target; cursor := 0 |} {| contents := []; cursor := 0 |} in
  let! (s, reader) := each_record fuel (raw_apply_step sidecar raw_state key_material)
    {| ra_begin := None; ra_key := None; ra_range := None; ra_size := sc_logical_size sidecar;
       ra_deleted := false; ra_spill := ss_target_spill raw_state; ra_dnodes := raw_dnodes; ra_file := temporary |}
    (StreamReader_new stream) in
  fail! negb (saw_end reader) with Msg "incremental stream has no END record" [] in
  fail! ra_deleted s || negb (bool_decide (is_Some (ra_dnodes s !! sc_object_id sidecar)))
    with Msg "the target object was deleted or replaced; re-extract it from a new full stream" [] in
  let! begin := ok_or (ra_begin s) (Msg "incremental stream has no BEGIN record" []) in
  let! temporary := set_len (ra_file s) (ra_size s) in
  let! all := range_values 0 (U64_MAX + 1) (ra_dnodes s) in
  Ok (temporary, {|
    sc_format_version := sc_format_version sidecar; sc_path := sc_path sidecar;
    sc_object_id := sc_object_id sidecar; sc_object_type := sc_object_type sidecar;
    sc_bonus_type := sc_bonus_type sidecar; sc_logical_size := ra_size s;
    sc_size_bonus_offset := sc_size_bonus_offset sidecar; sc_size_spill_offset := sc_size_spill_offset sidecar;
    sc_snapshot_guid := guid_string (to_guid begin); sc_sha256 := sha256_hex (contents temporary);
    sc_raw_state := Some {|
      ss_crypto_guid := ss_crypto_guid raw_state; ss_crypto_version := ss_crypto_version raw_state;
      ss_first_object := ss_first_object raw_state; ss_object_slots := ss_object_slots raw_state;
      ss_dnodes := all; ss_target_spill := ra_spill s |} |}).

(** ** [apply_incremental_with_key] (lines 327-493)

    [target] and [sidecar] are what the two files hold. *)
Definition apply_incremental_with_key {R} `{Read R} (fuel : nat) (stream : R) (target : list Z)
    (sidecar : Sidecar) (key_material : option (list Z)) : result (File * Sidecar) :=
  fail! negb (sc_format_version sidecar =? SIDECAR_VERSION)
    with Msg "unsupported sidecar format version {}" [sc_format_version sidecar] in
  fail! negb (bytes_eqb (sha256_hex target) (sc_sha256 sidecar))
    with Msg "target {} does not match the extracted base file (SHA-256 differs)" [] in
  fail! negb (len target =? sc_logical_size sidecar)
    with Msg "target size is {current_size}, but extraction metadata expects {}" [len target; sc_logical_size sidecar] in
  let! requirement := apply_encryption_requirement fuel stream in
  match requirement with
  | Some _ => apply_raw_incremental fuel stream target sidecar key_material
  | None =>
      let! (_, temporary) := copy {| contents := target; cursor := 0 |} {| contents := []; cursor := 0 |} in
      let! (s, reader) := each_record fuel (apply_step sidecar)
        {| as_begin := None; as_size := sc_logical_size sidecar; as_changed := false; as_deleted := false;
           as_file := temporary |} (StreamReader_new stream) in
      fail! negb (saw_end reader) with Msg "incremental stream has no END record" [] in
      fail! as_deleted s with Msg "the target object was deleted or replaced; re-extract it from a new full stream" [] in
      fail! negb (as_changed s) with Msg "the incremental stream contains no changes for {}" [] in
      let! begin := ok_or (as_begin s) (Msg "incremental stream has no BEGIN record" []) in
      let! temporary := set_len (as_file s) (as_size s) in
      Ok (temporary, {|
        sc_format_version := sc_format_version sidecar; sc_path := sc_path sidecar;
        sc_object_id := sc_object_id sidecar; sc_object_type := sc_object_type sidecar;
        sc_bonus_type := sc_bonus_type sidecar; sc_logical_size := as_size s;
        sc_size_bonus_offset := sc_size_bonus_offset sidecar; sc_size_spill_offset := sc_size_spill_offset sidecar;
        sc_snapshot_guid := guid_string (to_guid begin); sc_sha256 := sha256_hex (contents temporary);
        sc_raw_state := None |})
  end.
End apply.
