(* ===== verification/OperationsFacts.v ===== *)
(** Extraction and updating against the meaning of the records: an object's
    content is a function from offsets to bytes, and every record acts on it. *)

From S2P Require Import Prelude Bytes Utf8 Stream StreamFacts Replay Compression NvList Encrypted.
From S2P Require Import EncryptedDnode Paths Snapshots Selected ObjectIndex IndexFacts Extents.
From S2P Require Import Resolve Sparse SparseFacts Operations Apply.

(** ** The meaning of the records of a plain send *)

Abbreviation content := (Z -> Z).

Section content.
Context `{Codecs}.

(** The object's bytes and whether it exists. *)
Definition content_record (object_id : Z) (s : content * bool) (record : Record_) : result (content * bool) :=
  let '(c, object_exists) := s in
  match kind record with
  | Object object =>
      if obj_object object =? object_id then Ok (if object_exists then c else fun _ => 0, true) else Ok s
  | Write write =>
      if wr_object write =? object_id then
        let! plaintext := decode_replay_write (wr_compression_type write) (payload record) (wr_logical_size write) in
        Ok (over (wr_offset write) plaintext c, object_exists)
      else Ok s
  | WriteEmbedded write =>
      if we_object write =? object_id then
        let! plaintext := decode_embedded_write (we_compression_type write) (we_embedded_type write)
          (payload record) (we_physical_size write) (we_logical_size write) in
        fail! MAX_REPLAY_BLOCK_SIZE <? we_length write
          with Msg "embedded replay block exceeds the 16 MiB safety limit" [] in
        fail! we_length write <? len plaintext
          with Msg "embedded replay payload exceeds its logical block length" [] in
        Ok (over (we_offset write) plaintext (zeroed (we_offset write) (we_length write) c), object_exists)
      else Ok s
  | Free free =>
      if fr_object free =? object_id then Ok (zeroed (fr_offset free) (fr_length free) c, object_exists) else Ok s
  | FreeObjects range =>
      if (fo_first_object range <=? object_id)
         && (object_id <? saturating_add (fo_first_object range) (fo_object_count range))
      then Ok (fun _ => 0, false) else Ok s
  | WriteByRef => Err (Msg "deduplicated WRITE_BYREF streams are unsupported" [])
  | ObjectRange _ => Err (Msg "raw OBJECT_RANGE streams are unsupported" [])
  | Redact => Err (Msg "redacted streams are unsupported" [])
  | Begin _ | End_ | Spill _ => Ok s
  end.

End content.

(** The first [size] bytes of a content. *)
Definition materialize (size : Z) (c : content) : list Z := map c (seqZ 0 size).

Lemma len_materialize size c : 0 <= size -> len (materialize size c) = size.
Proof. intros. unfold materialize, len. rewrite length_map, length_seqZ. lia. Qed.

Lemma byte_at_materialize size c i :
  0 <= i -> byte_at (materialize size c) i = if i <? size then c i else 0.
Proof.
  intros Hi. unfold byte_at, get, materialize, len. rewrite length_map, length_seqZ.
  destruct (Z.leb_spec 0 i), (Z.ltb_spec i (Z.of_nat (Z.to_nat size))), (Z.ltb_spec i size); cbn [andb]; try lia; try done.
  change (map c (seqZ 0 size)) with (c <$> seqZ 0 size). rewrite list_lookup_fmap, (lookup_seqZ_lt 0 size (Z.to_nat i)) by lia.
  cbn. f_equal. lia.
Qed.

(** A file cut or extended to [size]. *)
Lemma wp_set_len_content file size c :
  file_ok file -> 0 <= size -> same_reads file c ->
  wp (set_len file size) (fun file' => contents file' = materialize size c).
Proof.
  intros Hf Hs Hc. eapply wp_mono; [|by apply wp_set_len]. intros f' (Hok & Hl & _ & Hr). apply contents_ext.
  - unfold file_len in Hl. by rewrite len_materialize.
  - intros i Hi. rewrite byte_at_materialize by done. fold (reads f' i). rewrite Hr by done.
    case_match; [|done]. by apply Hc.
Qed.

(** ** Records a decoder may be given *)

Definition record_ok (record : Record_) : Prop :=
  kind_ok (kind record) /\ bytes_ok (payload record) /\ sizes_ok (kind record).

Section replay.
Context `{CodecLaws} `{OsLaws}.

Lemma over_ext offset b c c' i : c i = c' i -> over offset b c i = over offset b c' i.
Proof. intros. unfold over. by case_match. Qed.

Lemma zeroed_ext offset n c c' i : c i = c' i -> zeroed offset n c i = zeroed offset n c' i.
Proof. intros. unfold zeroed. by case_match. Qed.

Lemma wp_write_content file offset bytes c :
  file_ok file -> bytes_ok bytes -> is_u64 offset -> same_reads file c ->
  wp (write_extent file offset bytes) (fun file' => file_ok file' /\ same_reads file' (over offset bytes c)).
Proof.
  intros Hf Hb Ho Hc. eapply wp_mono; [|by apply wp_sparse_write_extent]. intros f' (Hok & _ & Hr).
  split; [done|]. intros i Hi. rewrite Hr by done. by apply over_ext, Hc.
Qed.

Lemma wp_zero_content file offset length c :
  file_ok file -> is_u64 offset -> is_u64 length -> same_reads file c ->
  wp (zero_range file offset length) (fun file' => file_ok file' /\ same_reads file' (zeroed offset length c)).
Proof.
  intros Hf Ho Hn Hc. eapply wp_mono; [|by apply wp_zero_range]. intros f' (Hok & _ & _ & Hr).
  split; [done|]. intros i Hi. rewrite Hr by done. by apply zeroed_ext, Hc.
Qed.

Lemma wp_replace_content file offset length payload c :
  file_ok file -> bytes_ok payload -> is_u64 offset -> is_u64 length -> same_reads file c ->
  wp (replace_file_extent file offset length payload) (fun file' =>
    (MAX_REPLAY_BLOCK_SIZE <? length) = false /\ (length <? len payload) = false /\
    file_ok file' /\ same_reads file' (over offset payload (zeroed offset length c))).
Proof.
  intros Hf Hb Ho Hn Hc. unfold replace_file_extent. wp_step. wp_step. apply wp_bind.
  eapply wp_mono; [|by apply wp_zero_content]. intros f1 [Hf1 Hc1].
  eapply wp_mono; [|by apply wp_write_content]. intros f2 [Hf2 Hc2]. done.
Qed.

Lemma wp_embedded_plain c t p ps n :
  bytes_ok p -> is_u32 n -> wp (decode_embedded_write c t p ps n) bytes_ok.
Proof.
  intros Hp Hn. eapply wp_mono; [|apply wp_decode_embedded_write; [done|unfold ISIZE_MAX; u64]]. by intros out [].
Qed.

Lemma wp_write_plain c p n :
  bytes_ok p -> c = 0 \/ n <= ISIZE_MAX -> wp (decode_replay_write c p n) bytes_ok.
Proof. intros Hp Hn. eapply wp_mono; [|by apply wp_sized_replay_write]. by intros out []. Qed.

(** [replay_record] implements [content_record]. *)
Lemma wp_replay_record object_id file object_exists c record :
  file_ok file -> same_reads file c -> record_ok record ->
  wp (replay_record object_id (file, object_exists) record) (fun s' =>
    exists c', content_record object_id (c, object_exists) record = Ok (c', s'.2) /\
      file_ok s'.1 /\ same_reads s'.1 c').
Proof.
  intros Hf Hc (Hk & Hp & Hsz). unfold replay_record, content_record.
  destruct (kind record) as [b|o|r|w|f| | |s|w|r|]; cbn [kind_ok sizes_ok] in *; try (by apply wp_Err);
    try (apply wp_Ok; by eauto).
  - destruct (_ =? object_id); [|apply wp_Ok; by eauto]. apply wp_bind. destruct object_exists; cbn [negb].
    + apply wp_Ok, wp_Ok. by eauto.
    + eapply wp_mono; [|by apply wp_set_len]. intros f' (Hf' & _ & _ & Hr). apply wp_Ok. cbn. eexists. split; [done|].
      split; [done|]. intros i Hi. rewrite Hr by done. by rewrite (proj2 (Z.ltb_ge i 0)) by lia.
  - cbv zeta. destruct (_ && _); [|apply wp_Ok; by eauto]. apply wp_bind.
    eapply wp_mono; [|by apply wp_set_len]. intros f' (Hf' & _ & _ & Hr'). apply wp_Ok. cbn. eexists. split; [done|].
    split; [done|]. intros i Hi. rewrite Hr' by done. by rewrite (proj2 (Z.ltb_ge i 0)) by lia.
  - destruct (_ =? object_id); [|apply wp_Ok; by eauto]. apply wp_bind.
    eapply wp_mono; [|apply wp_conj; [by apply wp_write_plain|intros a Ha; exact Ha]]. intros plain [Hplain ->].
    apply wp_bind. eapply wp_mono; [|apply wp_write_content; [done|done|tauto|done]]. intros f' [Hf' Hc']. apply wp_Ok.
    by eauto.
  - destruct (_ =? object_id); [|apply wp_Ok; by eauto]. apply wp_bind.
    eapply wp_mono; [|apply wp_zero_content; [done|tauto|tauto|done]]. intros f' [Hf' Hc']. apply wp_Ok. by eauto.
  - destruct (_ =? object_id); [|apply wp_Ok; by eauto]. apply wp_bind.
    eapply wp_mono; [|apply wp_conj; [by apply wp_embedded_plain; [|tauto]|intros a Ha; exact Ha]]. intros plain [Hplain ->].
    apply wp_bind. eapply wp_mono; [|apply wp_replace_content; [done|done|tauto|tauto|done]].
    intros f' (Hmax & Hlen & Hf' & Hc'). apply wp_Ok. cbn [bind]. rewrite Hmax, Hlen. cbn. by eauto.
Qed.
End replay.

(** ** Loops *)

(** A simulation of a step is one of the loop. *)
Lemma wp_fold_sim {E S T A} (f : S -> A -> res E S) (g : T -> A -> res E T) (Rel : S -> T -> Prop) l s t :
  (forall s t a, a ∈ l -> Rel s t -> wp (f s a) (fun s' => exists t', g t a = Ok t' /\ Rel s' t')) ->
  Rel s t -> wp (fold_res f s l) (fun s' => exists t', fold_res g t l = Ok t' /\ Rel s' t').
Proof.
  revert s t. induction l as [|a l IH]; intros s t Hstep Hr; cbn [fold_res]; [apply wp_Ok; by eauto|].
  apply wp_bind. eapply wp_mono; [|apply (Hstep s t a); [set_solver|done]]. intros s' (t' & Ht & Hr').
  eapply wp_mono; [|apply IH; [|done]].
  - intros s2 (t2 & Ht2 & Hr2). exists t2. by rewrite Ht.
  - intros; apply Hstep; [set_solver|done].
Qed.

(** An invariant that speaks of the records already seen. *)
Lemma wp_fold_prefix {E S A} (f : S -> A -> res E S) (P : list A -> S -> Prop) l s :
  P [] s -> (forall pre a s, a ∈ l -> P pre s -> wp (f s a) (P (pre ++ [a]))) -> wp (fold_res f s l) (P l).
Proof.
  intros H0 Hstep. assert (forall k pre s, P pre s -> (forall a, a ∈ k -> a ∈ l) -> wp (fold_res f s k) (P (pre ++ k))) as Hgen.
  { induction k as [|a k IH]; intros pre s0 Hp Hin; cbn [fold_res]; [by rewrite app_nil_r|].
    apply wp_bind. eapply wp_mono; [|apply (Hstep pre a); [apply Hin; set_solver|done]]. intros s1 Hs1.
    replace (pre ++ a :: k) with ((pre ++ [a]) ++ k) by (by rewrite <- app_assoc).
    apply IH; [done|]. intros; apply Hin; set_solver. }
  by apply (Hgen l [] s).
Qed.

Lemma chosen_elem selected active records record : record ∈ chosen selected active records -> record ∈ records.
Proof.
  revert active. induction records as [|r records IH]; intros active; cbn; [done|].
  destruct (kind r); try (intros ?%IH; set_solver);
    (destruct active; [intros [->|?%IH]%elem_of_cons; set_solver|intros ?%IH; set_solver]).
Qed.

(** ** Plain updates *)

(** The offsets of a sidecar the tool wrote lie in a buffer of a stream. *)
Definition offsets_ok (sidecar : Sidecar) : Prop :=
  is_u64 (sc_logical_size sidecar) /\
  (forall off, sc_size_bonus_offset sidecar = Some off -> 0 <= off <= U64_MAX - 8) /\
  (forall off, sc_size_spill_offset sidecar = Some off -> 0 <= off <= U64_MAX - 8).

Section apply_facts.
Context `{CodecLaws} `{OsLaws}.
Context (sidecar : Sidecar) (c0 : content).

Definition apply_inv (seen : list Record_) (s : apply_state) : Prop :=
  file_ok (as_file s) /\ is_u64 (as_size s) /\
  (as_deleted s = true \/ exists c,
     fold_res (content_record (sc_object_id sidecar)) (c0, true) seen = Ok (c, true) /\ same_reads (as_file s) c) /\
  match as_begin s with
  | None => substreams seen = []
  | Some h => substreams seen = [h] /\ parse_guid (sc_snapshot_guid sidecar) = Ok (from_guid h)
  end.

Lemma substreams_app l k : substreams (l ++ k) = substreams l ++ substreams k.
Proof. apply omap_app. Qed.

Lemma substreams_data record : (forall h, kind record <> Begin h) -> substreams [record] = [].
Proof. unfold substreams. cbn. intros Hb. destruct (kind record); try done. by destruct (Hb _ eq_refl). Qed.

(** A step that is not a BEGIN: what it does to the file is what the record
    means, unless the object was deleted. *)
Lemma apply_inv_step seen s s' record c c' :
  (forall h, kind record <> Begin h) ->
  as_begin s' = as_begin s -> is_u64 (as_size s') -> file_ok (as_file s') ->
  content_record (sc_object_id sidecar) (c, true) record = Ok (c', true) -> same_reads (as_file s') c' ->
  fold_res (content_record (sc_object_id sidecar)) (c0, true) seen = Ok (c, true) ->
  apply_inv seen s -> apply_inv (seen ++ [record]) s'.
Proof.
  intros Hnb Hb Hsize Hf Hstep Hr Hfold (_ & _ & _ & Hbegin). split_and!; [done|done| |].
  - right. exists c'. split; [|done]. rewrite fold_res_app, Hfold. cbn [bind fold_res]. by rewrite Hstep.
  - rewrite Hb, substreams_app, substreams_data, app_nil_r by done. done.
Qed.

Lemma apply_inv_deleted seen s s' record :
  (forall h, kind record <> Begin h) ->
  as_begin s' = as_begin s -> is_u64 (as_size s') -> file_ok (as_file s') -> as_deleted s' = true ->
  apply_inv seen s -> apply_inv (seen ++ [record]) s'.
Proof.
  intros Hnb Hb Hsize Hf Hd (_ & _ & _ & Hbegin). split_and!; [done|done|by left|].
  rewrite Hb, substreams_app, substreams_data, app_nil_r by done. done.
Qed.

Lemma wp_read_stored_size bytes off source :
  bytes_ok bytes -> 0 <= off <= U64_MAX - 8 -> wp (read_stored_size bytes off source) is_u64.
Proof.
  intros Hb Ho. unfold read_stored_size. rewrite usize_try_from_u64 by u64. cbn [ok_or bind].
  apply wp_bind, wp_add; [lia|]. wp_step. wp_step.
  match goal with Hx : get_range _ _ _ = Some _ |- _ => apply get_range_len in Hx as Hl; apply get_range_Some in Hx as (_ & _ & ->) end.
  apply wp_Ok, le_val_u64; [auto with zse|lia].
Qed.

Lemma wp_apply_object s object body :
  offsets_ok sidecar -> bytes_ok body -> is_u64 (as_size s) ->
  wp (apply_object sidecar s object body) (fun s' => exists size, is_u64 size /\ s' = set_size s size).
Proof.
  intros (_ & Hoff & _) Hb Hs. unfold apply_object. wp_step. destruct (sc_size_bonus_offset sidecar) as [off|].
  - specialize (Hoff off eq_refl). rewrite usize_try_from_u64 by u64. cbn [ok_or bind].
    apply wp_bind, wp_add; [lia|]. wp_step. b2p. apply wp_bind, wp_slice_fixed; [done|lia|lia|].
    intros value [Hl Hv]. apply wp_Ok. eexists. split; [|done]. apply le_val_u64; [done|lia].
  - apply wp_Ok. by eauto.
Qed.

(** The invariant of a state that keeps its file. *)
Lemma apply_inv_size seen s record size :
  (forall h, kind record <> Begin h) -> is_u64 size ->
  (forall c, content_record (sc_object_id sidecar) (c, true) record = Ok (c, true)) ->
  apply_inv seen s -> apply_inv (seen ++ [record]) (set_size s size).
Proof.
  intros Hnb Hsize Hid Hinv. assert (apply_inv seen s) as Hinv' by done. destruct Hinv' as (Hf & _ & Hc & _).
  destruct Hc as [Hd|(c & Hfold & Hr)]; [by apply (apply_inv_deleted seen s)|].
  by apply (apply_inv_step seen s _ _ c c).
Qed.

(** ... and of one that does not change at all. *)
Lemma apply_inv_same seen s record :
  (forall h, kind record <> Begin h) ->
  (forall c, content_record (sc_object_id sidecar) (c, true) record = Ok (c, true)) ->
  apply_inv seen s -> apply_inv (seen ++ [record]) s.
Proof.
  intros Hnb Hid Hinv. assert (apply_inv seen s) as Hinv' by done. destruct Hinv' as (Hf & Hs & Hc & _).
  destruct Hc as [Hd|(c & Hfold & Hr)]; [by apply (apply_inv_deleted seen s)|].
  by apply (apply_inv_step seen s _ _ c c).
Qed.

(** A change of the file to what the record means. *)
Lemma wp_apply_file seen s record (m : result File) (change : content -> content) :
  (forall h, kind record <> Begin h) ->
  apply_inv seen s ->
  (forall c, same_reads (as_file s) c -> wp m (fun f => file_ok f /\ same_reads f (change c) /\
     content_record (sc_object_id sidecar) (c, true) record = Ok (change c, true))) ->
  wp (let! file := m in Ok (set_file s file)) (apply_inv (seen ++ [record])).
Proof.
  intros Hnb Hinv Hm. assert (apply_inv seen s) as Hinv' by done. destruct Hinv' as (Hf & Hs & Hc & _).
  destruct Hc as [Hd|(c & Hfold & Hr)]; apply wp_bind.
  - eapply wp_mono; [|by apply (Hm (reads (as_file s)))]. intros f (Hff & _ & _). apply wp_Ok.
    by apply (apply_inv_deleted seen s).
  - eapply wp_mono; [|by apply (Hm c)]. intros f (Hff & Hrf & Hrec). apply wp_Ok.
    by apply (apply_inv_step seen s _ _ c (change c)).
Qed.

Lemma wp_apply_begin seen s header record :
  kind record = Begin header -> header_type header = DMU_SUBSTREAM -> apply_inv seen s ->
  wp (apply_begin sidecar s header) (apply_inv (seen ++ [record])).
Proof.
  intros Hk Ht (Hf & Hs & Hc & Hb). unfold apply_begin. destruct (as_begin s); [apply wp_Err|].
  apply wp_bind, safe_wp; [unfold parse_guid; by apply wp_ok_or|]. intros expected Hg. wp_step. b2p. apply wp_Ok.
  split_and!; cbn; try done.
  - destruct Hc as [Hd|(c & Hfold & Hr)]; [by left|right]. exists c. split; [|done].
    rewrite fold_res_app, Hfold. cbn [bind fold_res]. unfold content_record. rewrite Hk. done.
  - rewrite substreams_app, Hb. unfold substreams. cbn. rewrite Hk, Ht. cbn. split; [done|congruence].
Qed.

Lemma wp_apply_step seen s record :
  offsets_ok sidecar -> record_ok record ->
  (forall spill, kind record = Spill spill -> sp_compression_type spill = 0 \/ sp_logical_size spill <= ISIZE_MAX) ->
  apply_inv seen s -> wp (apply_step sidecar s record) (apply_inv (seen ++ [record])).
Proof.
  intros Hoff (Hk & Hp & Hsz) Hspill Hinv. assert (apply_inv seen s) as Hinv' by done. destruct Hinv' as (Hf & Hs & Hc & _).
  assert ((forall h, kind record <> Begin h) ->
    (forall c, content_record (sc_object_id sidecar) (c, true) record = Ok (c, true)) ->
    wp (E:=error) (Ok s) (apply_inv (seen ++ [record]))) as Hsame by (intros; by apply wp_Ok, apply_inv_same).
  unfold apply_step. cbv zeta.
  destruct (kind record) as [b|o|r|w|f| | |sp|w|r|] eqn:Hkind; cbn [kind_ok sizes_ok] in *; try (by apply wp_Err).
  - destruct (Z.eqb_spec (header_type b) DMU_SUBSTREAM) as [Ht|Ht]; cbn [negb]; [by eapply wp_apply_begin|].
    apply wp_Ok. destruct Hinv as (_ & _ & _ & Hb). split_and!; try done.
    + destruct Hc as [Hd|(c & Hfold & Hr)]; [by left|right]. exists c. split; [|done].
      rewrite fold_res_app, Hfold. cbn [bind fold_res]. unfold content_record. rewrite Hkind. done.
    + rewrite substreams_app. unfold substreams at 2 4. cbn. rewrite Hkind, (proj2 (Z.eqb_neq _ _) Ht). cbn. by rewrite app_nil_r.
  - destruct (obj_object o =? sc_object_id sidecar) eqn:Ho.
    + eapply wp_mono; [|by apply wp_apply_object]. intros s' (size & Hsize & ->).
      apply apply_inv_size; [by rewrite Hkind|done| |done]. intros c. unfold content_record. rewrite Hkind, Ho. done.
    + apply Hsame; [done|]. intros c. unfold content_record. rewrite Hkind, Ho. done.
  - apply wp_Ok. destruct (_ && _) eqn:Hcover.
    + apply (apply_inv_deleted seen s); try done. by rewrite Hkind.
    + apply apply_inv_same; [by rewrite Hkind| |done]. intros c. unfold content_record. by rewrite Hkind, Hcover.
  - destruct (wr_object w =? sc_object_id sidecar) eqn:Ho.
    + apply wp_bind. eapply wp_mono; [|apply wp_conj; [by apply wp_write_plain|intros a Ha; exact Ha]]. intros plain [Hplain Hd].
      apply (wp_apply_file _ _ _ _ (over (wr_offset w) plain)); [by rewrite Hkind|done|]. intros c Hcr.
      eapply wp_mono; [|apply wp_write_content; [done|done|tauto|exact Hcr]]. intros f' [Hf' Hc']. split_and!; [done|done|].
      unfold content_record. by rewrite Hkind, Ho, Hd.
    + apply Hsame; [done|]. intros c. unfold content_record. rewrite Hkind, Ho. done.
  - destruct (fr_object f =? sc_object_id sidecar) eqn:Ho.
    + apply (wp_apply_file _ _ _ _ (zeroed (fr_offset f) (fr_length f))); [by rewrite Hkind|done|]. intros c Hcr.
      eapply wp_mono; [|apply wp_zero_content; [done|tauto|tauto|exact Hcr]]. intros f' [Hf' Hc']. split_and!; [done|done|].
      unfold content_record. by rewrite Hkind, Ho.
    + apply Hsame; [done|]. intros c. unfold content_record. rewrite Hkind, Ho. done.
  - apply Hsame; [done|]. intros c. unfold content_record. by rewrite Hkind.
  - assert (forall c, content_record (sc_object_id sidecar) (c, true) record = Ok (c, true)) as Hid
      by (intros c; unfold content_record; by rewrite Hkind).
    assert (forall h, kind record <> Begin h) as Hnb by (by rewrite Hkind).
    destruct (_ =? sc_object_id sidecar); [|by apply Hsame]. destruct (sc_size_spill_offset sidecar) as [off|] eqn:Ho.
    + apply wp_bind. eapply wp_mono; [|apply wp_write_plain; [done|by apply Hspill]]. intros plain Hplain.
      apply wp_bind. eapply wp_mono; [|apply wp_read_stored_size; [done|by apply Hoff]]. intros size Hsize.
      by apply wp_Ok, apply_inv_size.
    + by apply wp_Ok, apply_inv_size.
  - destruct (we_object w =? sc_object_id sidecar) eqn:Ho.
    + apply wp_bind. eapply wp_mono; [|apply wp_conj; [by apply wp_embedded_plain; [|tauto]|intros a Ha; exact Ha]].
      intros plain [Hplain Hd].
      apply (wp_apply_file _ _ _ _ (fun c => over (we_offset w) plain (zeroed (we_offset w) (we_length w) c))); [by rewrite Hkind|done|].
      intros c Hcr. eapply wp_mono; [|apply wp_replace_content; [done|done|tauto|tauto|exact Hcr]].
      intros f' (Hmax & Hlen & Hf' & Hc'). split_and!; [done|done|].
      unfold content_record. rewrite Hkind, Ho, Hd. cbn [bind]. by rewrite Hmax, Hlen.
    + apply Hsame; [done|]. intros c. unfold content_record. rewrite Hkind, Ho. done.
Qed.
End apply_facts.

(** A stream without raw substreams needs no key. *)
Lemma wp_plain_requirement {R} `{Read R} fuel (stream : R) records r :
  read_all fuel (StreamReader_new stream) = Ok (records, r) ->
  (forall header, header ∈ substreams records -> has_bits (features header) FEATURE_RAW = false) ->
  wp (apply_encryption_requirement fuel stream) (fun requirement => requirement = None).
Proof.
  intros Hr Hplain. unfold apply_encryption_requirement. rewrite (each_record_read_all _ _ _ _ _ _ Hr), bind_assoc.
  apply wp_bind. eapply wp_mono; [|apply (wp_fold_res _ (fun s => s.1 = None)); [|done]].
  - intros [req n] Hreq. cbn in *. subst req. cbn [bind]. do 2 wp_step. by apply wp_Ok.
  - intros [req n] record Hin Hreq. cbn in *. subst req. unfold apply_requirement_step. cbn [fst snd].
    destruct (kind record) as [header| | | | | | | | | |] eqn:Hk; try by apply wp_Ok.
    destruct (header_type header =? DMU_SUBSTREAM) eqn:Ht; [|by apply wp_Ok]. wp_step.
    rewrite Hplain; [by apply wp_Ok|]. unfold substreams. apply list_elem_of_omap. exists record.
    split; [done|]. by rewrite Hk, Ht.
Qed.

Lemma file_ok_empty : file_ok {| contents := []; cursor := 0 |}.
Proof. split_and!; [by apply Forall_nil|by vm_compute|done]. Qed.

(** ** GUIDs as text *)

Lemma hex_lower_value d : 0 <= d < 16 -> to_digit 16 (hex_lower d) = Some d.
Proof.
  intros Hd. assert (forallb (fun d => match to_digit 16 (hex_lower d) with Some v => v =? d | None => false end) (seqZ 0 16) = true)
    as Hall by (vm_compute; reflexivity).
  rewrite forallb_forall in Hall. specialize (Hall d ltac:(apply list_elem_of_In, elem_of_seqZ; lia)). cbv beta in Hall.
  destruct (to_digit 16 (hex_lower d)); [|done]. b2p. by subst.
Qed.

Lemma guid_digits guid (n : nat) :
  is_u64 guid -> (n <= 16)%nat ->
  digits_value 16 U64_MAX (guid / 16 ^ Z.of_nat n)
    (map (fun k => hex_lower (Z.land (Z.shiftr guid (4 * (15 - k))) 15)) (seqZ (16 - Z.of_nat n) (Z.of_nat n))) = Some guid.
Proof.
  intros Hg. induction n as [|n IH]; intros Hn.
  - cbn. by rewrite Z.div_1_r.
  - rewrite seqZ_cons by lia. cbn [map digits_value].
    replace (15 - (16 - Z.of_nat (S n))) with (Z.of_nat n) by lia.
    assert (Z.land (Z.shiftr guid (4 * Z.of_nat n)) 15 = guid / 16 ^ Z.of_nat n mod 16) as Hd.
    { change 15 with (Z.ones 4). rewrite Z.land_ones, Z.shiftr_div_pow2 by lia.
      rewrite Z.pow_mul_r by lia. done. }
    rewrite Hd, hex_lower_value by (apply Z.mod_pos_bound; lia). cbv zeta.
    assert (guid / 16 ^ Z.of_nat (S n) * 16 + guid / 16 ^ Z.of_nat n mod 16 = guid / 16 ^ Z.of_nat n) as ->.
    { pose proof (Z.div_mod (guid / 16 ^ Z.of_nat n) 16 ltac:(lia)) as Hdm.
      rewrite Nat2Z.inj_succ, Z.pow_succ_r, (Z.mul_comm 16 (16 ^ _)), <- Z.div_div by lia. lia. }
    assert (guid / 16 ^ Z.of_nat n <= U64_MAX) as Hle.
    { apply (Z.le_trans _ guid); [|u64]. apply Z.div_le_upper_bound; [lia|].
      pose proof (Z.pow_pos_nonneg 16 (Z.of_nat n)). unfold is_u64 in *. nia. }
    rewrite (proj2 (Z.leb_le _ _) Hle). 
    replace (Z.succ (16 - Z.of_nat (S n))) with (16 - Z.of_nat n) by lia.
    replace (Z.pred (Z.of_nat (S n))) with (Z.of_nat n) by lia. apply IH. lia.
Qed.

Lemma from_str_radix_no_plus radix max d ds :
  d <> 43 -> from_str_radix radix max (d :: ds) = digits_value radix max 0 (d :: ds).
Proof. unfold from_str_radix. destruct d as [|p|p]; try done. repeat (destruct p as [p|p|]; try done). Qed.

Lemma parse_guid_string guid : is_u64 guid -> parse_guid (guid_string guid) = Ok guid.
Proof.
  intros Hg. unfold parse_guid, guid_string.
  assert (strip_prefix (bytes_of_string "0x") (bytes_of_string "0x" ++
    map (fun k => hex_lower (Z.land (Z.shiftr guid (4 * (15 - k))) 15)) (seqZ 0 16)) =
    Some (map (fun k => hex_lower (Z.land (Z.shiftr guid (4 * (15 - k))) 15)) (seqZ 0 16))) as -> by reflexivity.
  cbv zeta. cbn [from_option]. unfold id. pose proof (guid_digits guid 16 Hg ltac:(lia)) as Hd.
  change (Z.of_nat 16) with 16 in Hd. change (16 - 16) with 0 in Hd.
  rewrite Z.div_small in Hd by (unfold is_u64 in Hg; change (16 ^ 16) with TWO64; lia).
  destruct (map _ (seqZ 0 16)) as [|d ds] eqn:Hm; [discriminate Hm|].
  assert (d <> 43) as Hd43.
  { injection Hm as Hm _. subst d. unfold hex_lower.
    match goal with |- context [Z.land ?a ?b] => assert (0 <= Z.land a b) as H0 by (apply Z.land_nonneg; right; lia);
      revert H0; generalize (Z.land a b) end.
    intros z Hz. destruct (Z.ltb_spec z 10); lia. }
  by rewrite (from_str_radix_no_plus _ _ _ _ Hd43), Hd.
Qed.
