(* ===== verification/OperationsProps.v ===== *)
(** The properties of extraction and updating (src/src/operations.rs,
    src/src/sparse.rs), each with a concrete instance where it has hypotheses. *)

From S2P Require Import Prelude Bytes Utf8 Stream StreamFacts StreamWriter StreamProps Replay Paths.
From S2P Require Import Compression CompressionProps NvList NvWriter Encrypted EncryptedDnode.
From S2P Require Import EncryptedProps Extents Snapshots Selected ObjectIndex IndexFacts.
From S2P Require Import FilesystemProps Resolve ResolveProps Sparse SparseFacts Operations.
From S2P Require Import Apply OperationsFacts.

(** ** Concrete instances for the witnesses *)

(** A system that has no holes: every call is refused. *)
#[export] Instance plain_os : Os := {
  fallocate_punch file _ _ := (Some EOPNOTSUPP, contents file);
  lseek_data _ _ := inr EINVAL;
  lseek_hole _ _ := inr EINVAL;
}.

#[export] Instance plain_os_laws : OsLaws.
Proof. split; cbn; try done. intros file offset n e l _ _ _ [= <- <-]. done. Qed.

(** A system that punches holes and reports one stretch of data. *)
#[export] Instance hole_os : Os := {
  fallocate_punch file offset n := (None, ztake offset (contents file) ++ zrepeat n 0 ++ zdrop (offset + n) (contents file));
  lseek_data l offset := inl offset;
  lseek_hole l data := inl (len l);
}.

#[export] Instance hole_os_laws : OsLaws.
Proof.
  split; cbn.
  - intros file offset n e l _ _ _ [= <- <-]. done.
  - intros l offset Ho. split; [lia|]. lia.
  - intros l data Hd. lia.
Qed.

#[export] Instance toy_digest : Digest := {|
  sha256_hex l := le_bytes 64 (le_val l); sha256_hex_len l := len_le_bytes 64 (le_val l) |}.

(** ** Properties *)

(** the sparse primitives have the meaning of ordinary writes, whatever the
    file system does about holes. Writing an extent changes exactly its bytes
    (a chunk of zeros behind the end of the file may leave the file short, which
    reads the same), zeroing a range makes exactly its bytes zero (and with the
    length [u64::MAX] cuts the file there), and a copy has the bytes of its
    source; none of them panics or loops. *)
Theorem sparse_primitives_exact `{OsLaws} file offset length bytes :
  file_ok file -> bytes_ok bytes -> is_u64 offset -> is_u64 length ->
  wp (write_extent file offset bytes) (fun file' => file_ok file' /\
    file_len file <= file_len file' <= Z.max (file_len file) (offset + len bytes) /\
    same_reads file' (over offset bytes (reads file))) /\
  wp (zero_range file offset length) (fun file' => file_ok file' /\
    file_len file' <= file_len file /\ (length <> U64_MAX -> file_len file' = file_len file) /\
    same_reads file' (zeroed offset length (reads file))) /\
  wp (copy file {| contents := []; cursor := 0 |}) (fun '(n, file') =>
    n = file_len file /\ file_ok file' /\ contents file' = contents file).
Proof.
  intros Hf Hb Ho Hn. split_and!; [by apply wp_sparse_write_extent|by apply wp_zero_range|].
  apply wp_copy; [done| |done]. split_and!; [by apply Forall_nil|by vm_compute|done].
Qed.

Definition small_file : File := {| contents := [1; 2; 3; 4]; cursor := 0 |}.

Lemma small_file_ok : file_ok small_file.
Proof. split_and!; [apply bytes_ok_dec; vm_compute; reflexivity|vm_compute; discriminate|done]. Qed.

Lemma sparse_primitives_exact_witness :
  wp (write_extent small_file 6 [0; 0]) (fun file' => same_reads file' (over 6 [0; 0] (reads small_file))) /\
  wp (zero_range small_file 1 2) (fun file' => same_reads file' (zeroed 1 2 (reads small_file))) /\
  wp (copy small_file {| contents := []; cursor := 0 |}) (fun '(n, file') => contents file' = [1; 2; 3; 4]).
Proof.
  destruct (sparse_primitives_exact small_file 6 2 [0; 0]) as (H1 & _ & H3);
    [apply small_file_ok|apply bytes_ok_dec; reflexivity|unfold is_u64; lia|unfold is_u64; lia|].
  destruct (sparse_primitives_exact small_file 1 2 []) as (_ & H2 & _);
    [apply small_file_ok|by apply Forall_nil|unfold is_u64; lia|unfold is_u64; lia|].
  split_and!.
  - eapply wp_mono; [|exact H1]. by intros f (_ & _ & ?).
  - eapply wp_mono; [|exact H2]. by intros f (_ & _ & _ & ?).
  - eapply wp_mono; [|exact H3]. by intros [n f] (_ & _ & ?).
Defined.

(** The same on both systems. *)
Example sparse_run :
  @zero_range plain_os small_file 1 2 = Ok {| contents := [1; 0; 0; 4]; cursor := 3 |} /\
  @zero_range hole_os small_file 1 2 = Ok {| contents := [1; 0; 0; 4]; cursor := 0 |}.
Proof. split; vm_compute; reflexivity. Qed.

(** A snapshot GUID survives the sidecar: what [parse_guid] reads from the
    text that [guid_string] wrote is the GUID. *)
Theorem guid_roundtrip guid : is_u64 guid -> parse_guid (guid_string guid) = Ok guid.
Proof. apply parse_guid_string. Qed.

Lemma guid_roundtrip_witness :
  parse_guid (guid_string 1311768467463790320) = Ok 1311768467463790320 /\
  guid_string 1311768467463790320 = bytes_of_string "0x123456789abcdef0".
Proof. split; [apply guid_roundtrip; unfold is_u64; lia|reflexivity]. Defined.

(** *** Streams of the witnesses *)

Definition sizes_okb (k : RecordKind) : bool :=
  match k with
  | Write w => wr_logical_size w <=? ISIZE_MAX
  | Spill s => sp_logical_size s <=? ISIZE_MAX
  | _ => true
  end.

Lemma read_all_raw_sizes fuel (stream : list Z) records r :
  read_all fuel (StreamReader_new stream) = Ok (records, r) ->
  match read_all fuel (StreamReader_new stream) with
  | Ok (records, _) => forallb (fun record => sizes_okb (kind record)) records
  | _ => false end = true ->
  Forall (fun record => raw_sizes_ok (kind record)) records.
Proof.
  intros -> Hall. rewrite Forall_forall. intros record Hin. rewrite forallb_forall in Hall.
  specialize (Hall record (proj1 (list_elem_of_In _ _) Hin)). unfold sizes_okb in Hall.
  destruct (kind record); try exact I; by apply Z.leb_le.
Qed.

Lemma raw_sizes_sizes k : raw_sizes_ok k -> sizes_ok k.
Proof. destruct k; try done. intros ?. by right. Qed.

Lemma read_all_sizes fuel (stream : list Z) records r :
  read_all fuel (StreamReader_new stream) = Ok (records, r) ->
  match read_all fuel (StreamReader_new stream) with
  | Ok (records, _) => forallb (fun record => sizes_okb (kind record)) records
  | _ => false end = true ->
  Forall (fun record => sizes_ok (kind record)) records.
Proof.
  intros Hr Hall. eapply Forall_impl; [by apply (read_all_raw_sizes _ _ _ _ Hr)|].
  intros record. apply raw_sizes_sizes.
Qed.

Definition sample_resolved : ResolvedPath := {|
  normalized_path := bytes_of_string "/f"; Resolve.object_id := 9; object_type := 20; Resolve.bonus_type := 44;
  Resolve.logical_size := 8; dirent_type := 8; rp_size_bonus_offset := Some 16; rp_size_spill_offset := None |}.

(** The extraction, by the meaning of the records. *)
Lemma wp_extract_resolved `{CodecLaws} `{CryptoLaws} `{OsLaws} `{Digest} `{ZfsCore} {R} `{ReadLaws R}
    fuel (stream : R) plan index resolved exists_ force key write_sidecar records r :
  reader_wf (StreamReader_new stream) -> remaining stream < RECORD_SIZE * Z.of_nat fuel ->
  read_all fuel (StreamReader_new stream) = Ok (records, r) ->
  Forall (fun record => sizes_ok (kind record)) records ->
  has_bits (features (target plan)) FEATURE_RAW = false -> ix_raw_crypto index = None ->
  is_u64 (Resolve.logical_size resolved) -> is_u64 (to_guid (ix_begin index)) ->
  wp (extract_resolved_snapshot fuel stream plan index resolved exists_ force key write_sidecar)
    (fun '(file, sidecar) => exists c object_exists,
      fold_res (content_record (Resolve.object_id resolved)) (fun _ => 0, false)
        (chosen (list_to_set (chain plan)) false records) = Ok (c, object_exists) /\
      contents file = materialize (Resolve.logical_size resolved) c /\
      len (contents file) = sc_logical_size sidecar /\ sc_sha256 sidecar = sha256_hex (contents file) /\
      sc_object_id sidecar = Resolve.object_id resolved /\
      parse_guid (sc_snapshot_guid sidecar) = Ok (to_guid (ix_begin index))).
Proof.
  intros Hwf Hfuel Hread Hsizes Hplain Hcrypto Hsize Hguid.
  pose proof (read_all_in_range _ _ _ _ Hwf Hfuel Hread) as Hrange.
  assert (forall record, record ∈ records -> record_ok record) as Hrec.
  { intros record Hin. rewrite Forall_forall in Hsizes, Hrange. specialize (Hsizes _ Hin). specialize (Hrange _ Hin).
    unfold record_ok. tauto. }
  unfold extract_resolved_snapshot, replay_object. wp_step. wp_step. cbv zeta. rewrite Hplain.
  rewrite (each_record_read_all _ _ _ _ _ _ Hread).
  destruct (selected_loop (replay_record (Resolve.object_id resolved)) (list_to_set (chain plan)) records
    (selection_start ({| contents := []; cursor := 0 |}, false))) as [active ->].
  rewrite bool_decide_false by (by intros []). cbn [sel_inner selection_start]. rewrite !bind_assoc.
  apply wp_bind. eapply wp_mono; [|apply (wp_fold_sim _ (content_record (Resolve.object_id resolved))
    (fun s t => s.2 = t.2 /\ file_ok s.1 /\ same_reads s.1 t.1) _ _ (fun _ => 0, false))].
  - intros [file e] ([c e'] & Hc & He & Hf & Hr). cbn [fst snd] in *. subst e'. cbn [bind sel_inner sel_seen].
     destruct (negb (saw_end r)); [apply wp_Err|]. destruct (negb (Z.of_nat _ =? _)); [apply wp_Err|]. cbn [bind].
    apply wp_bind. eapply wp_mono; [|by apply wp_set_len_content; [|apply Hsize|]]. intros file' Hfile'.
    unfold raw_sidecar_state. rewrite Hcrypto.
    replace (if write_sidecar then Ok None else Ok None) with (Ok (E:=error) (A:=option RawSidecarState) None) by (by destruct write_sidecar).
    cbn [bind]. apply wp_Ok. exists c, e. cbn. rewrite Hfile'. split_and!; try done.
    + apply len_materialize, Hsize.
    + by apply parse_guid_string.
  - intros [file e] [c e'] record Hin (He & Hf & Hr). cbn [fst snd] in *. subst e'.
    eapply wp_mono; [|apply wp_replay_record; [done|done|]].
    + intros s' (c' & Hc' & Hf' & Hr'). exists (c', s'.2). by split_and!.
    + by apply Hrec, (chosen_elem (list_to_set (chain plan)) false).
  - split_and!; cbn; try done.
    intros i Hi. unfold reads. cbn. apply byte_at_out. unfold len. cbn. lia.
Qed.

(** The extraction returns, whether the stream can be read to its end or not. *)
Lemma safe_extract_resolved `{CodecLaws} `{CryptoLaws} `{OsLaws} `{Digest} `{ZfsCore} {R} `{ReadLaws R}
    fuel (stream : R) plan index resolved exists_ force key write_sidecar :
  reader_wf (StreamReader_new stream) -> remaining stream < RECORD_SIZE * Z.of_nat fuel ->
  (forall record, produces (StreamReader_new stream) record -> sizes_ok (kind record)) ->
  has_bits (features (target plan)) FEATURE_RAW = false -> ix_raw_crypto index = None -> is_u64 (Resolve.logical_size resolved) ->
  safe (extract_resolved_snapshot fuel stream plan index resolved exists_ force key write_sidecar).
Proof.
  intros Hwf Hfuel Hsizes Hplain Hcrypto Hsize. unfold safe, extract_resolved_snapshot, replay_object, raw_sidecar_state. rewrite Hplain, Hcrypto.
  wp_step. wp_step. cbv zeta. apply wp_bind, wp_bind. eapply wp_mono; [|apply (wp_each_record _ _ (fun _ s => file_ok (sel_inner s).1)); [done|exact Hfuel| |]].
  - intros [s r] (c & Hfile & _). wp_step. wp_step. apply wp_Ok. apply wp_bind. eapply wp_mono; [|apply wp_set_len; [exact Hfile|apply Hsize]].
    intros file' _. apply wp_bind. eapply wp_mono with (P := fun _ => True); [done|by destruct write_sidecar].
  - intros s c record c' Hp Hk Hb _ _ Hfile. apply (wp_selected_step _ (fun inner => file_ok inner.1)); [|done]. intros [file e] Hf.
    eapply wp_mono; [|apply (wp_replay_record _ file e (reads file)); [done|done|split_and!; auto]]. by intros s' (c2 & _ & ? & _).
  - apply file_ok_empty.
Qed.

(** C3: the extracted file holds exactly the object of the snapshot. For a target
    that is not raw, and records whose decompressed sizes fit an allocation, the
    extraction returns, whether the stream can be read to its end or not. Where it
    succeeds the stream has been read to its end, and replaying the records of the
    chain's snapshots, by their meaning on a content, gives a content whose first
    [logical_size] bytes are the file; the sidecar names the object, the snapshot,
    the size and the digest of those bytes. (An oversized compressed record
    panics.) *)
Theorem extract_is_replay `{CodecLaws} `{CryptoLaws} `{OsLaws} `{Digest} `{ZfsCore} {R} `{ReadLaws R}
    fuel (stream : R) plan index resolved exists_ force key write_sidecar :
  reader_wf (StreamReader_new stream) -> remaining stream < RECORD_SIZE * Z.of_nat fuel ->
  (forall record, produces (StreamReader_new stream) record -> sizes_ok (kind record)) ->
  has_bits (features (target plan)) FEATURE_RAW = false -> ix_raw_crypto index = None ->
  is_u64 (Resolve.logical_size resolved) -> is_u64 (to_guid (ix_begin index)) ->
  wp (extract_resolved_snapshot fuel stream plan index resolved exists_ force key write_sidecar)
    (fun '(file, sidecar) => exists records r c object_exists,
      read_all fuel (StreamReader_new stream) = Ok (records, r) /\
      fold_res (content_record (Resolve.object_id resolved)) (fun _ => 0, false)
        (chosen (list_to_set (chain plan)) false records) = Ok (c, object_exists) /\
      contents file = materialize (Resolve.logical_size resolved) c /\
      len (contents file) = sc_logical_size sidecar /\ sc_sha256 sidecar = sha256_hex (contents file) /\
      sc_object_id sidecar = Resolve.object_id resolved /\
      parse_guid (sc_snapshot_guid sidecar) = Ok (to_guid (ix_begin index))).
Proof.
  intros Hwf Hfuel Hsizes Hplain Hcrypto Hsize Hguid. apply safe_wp; [by apply safe_extract_resolved|]. intros [file sidecar] Hrun.
  assert (exists records r, read_all fuel (StreamReader_new stream) = Ok (records, r)) as (records & r & Hread).
  { unfold extract_resolved_snapshot, replay_object in Hrun. rewrite Hplain in Hrun. do 2 (case_match; [done|]). cbv zeta in Hrun.
    apply bind_Ok in Hrun as (file' & ([s r] & (records & Hread)%each_record_reads & _)%bind_Ok & _). by exists records, r. }
  assert (Forall (fun record => sizes_ok (kind record)) records) as Hall.
  { apply Forall_forall. intros record Hin. eapply Hsizes, read_all_produces; [exact Hread|exact Hin]. }
  destruct (wp_value _ _ _ (wp_extract_resolved fuel stream plan index resolved exists_ force key write_sidecar records r
    Hwf Hfuel Hread Hall Hplain Hcrypto Hsize Hguid) Hrun) as (c & e & Hc). by exists records, r, c, e.
Qed.

Lemma extract_is_replay_witness :
  wp (extract_resolved_snapshot 5 sample_bytes sample_plan toy_index sample_resolved false false None true)
    (fun '(file, sidecar) => exists records r c object_exists,
      read_all 5 (StreamReader_new sample_bytes) = Ok (records, r) /\
      fold_res (content_record 9) (fun _ => 0, false) (chosen (list_to_set [77]) false records) = Ok (c, object_exists) /\
      contents file = materialize 8 c /\ sc_sha256 sidecar = sha256_hex (contents file)).
Proof.
  destruct (read_all 5 (StreamReader_new sample_bytes)) as [[all last]| | |] eqn:E;
    [|exfalso; revert E; vm_compute; congruence..].
  rewrite <- E. eapply wp_mono; [|apply (extract_is_replay 5 sample_bytes sample_plan toy_index sample_resolved false false None true)].
  - intros [file sidecar] (records & r & c & e & H0 & H1 & H2 & _ & H3 & _). exists records, r, c, e.
    split; [exact H0|split; [exact H1|split; [exact H2|exact H3]]].
  - apply reader_wf_new; [apply bytes_ok_dec; vm_compute; reflexivity|vm_compute; discriminate].
  - vm_compute. reflexivity.
  - intros record Hin. assert (Forall (fun record => sizes_ok (kind record)) all) as Hall
      by (apply (read_all_sizes 5 sample_bytes all last E); vm_compute; reflexivity).
    rewrite Forall_forall in Hall. apply Hall. exact (produces_read_all 5 _ all last record E Hin).
  - reflexivity.
  - reflexivity.
  - split; vm_compute; discriminate.
  - split; vm_compute; discriminate.
Defined.

(** The extraction, run. *)
Example extract_run :
  match extract_resolved_snapshot 5 sample_bytes sample_plan toy_index sample_resolved false false None true with
  | Ok (file, sidecar) => contents file = [1; 2; 3; 4; 5; 6; 7; 8] /\ sc_logical_size sidecar = 8 /\
      sc_snapshot_guid sidecar = bytes_of_string "0x000000000000004d"
  | _ => False
  end.
Proof. vm_compute. repeat split; reflexivity. Qed.

(** C4: an update has the meaning of the records it carries. When
    [apply_incremental_with_key] accepts a plain incremental, the stream has one
    substream, it starts at the snapshot of the sidecar, the object lives to its
    end, the new file is the old one's bytes with every record of the stream
    applied, cut at the new size, and the new sidecar is that of the stream's
    snapshot. It does not panic on a sidecar whose offsets lie in a buffer. *)
Theorem apply_is_replay `{CodecLaws} `{CryptoLaws} `{OsLaws} `{Digest} {R} `{ReadLaws R}
    fuel (stream : R) old sidecar key records r :
  reader_wf (StreamReader_new stream) -> remaining stream < RECORD_SIZE * Z.of_nat fuel ->
  read_all fuel (StreamReader_new stream) = Ok (records, r) ->
  Forall (fun record => raw_sizes_ok (kind record)) records ->
  Forall (fun header => has_bits (features header) FEATURE_RAW = false) (substreams records) ->
  bytes_ok old -> len old <= ISIZE_MAX -> offsets_ok sidecar ->
  wp (apply_incremental_with_key fuel stream old sidecar key) (fun '(file, sidecar') => exists c header,
    fold_res (content_record (sc_object_id sidecar)) (byte_at old, true) records = Ok (c, true) /\
    contents file = materialize (sc_logical_size sidecar') c /\
    substreams records = [header] /\ parse_guid (sc_snapshot_guid sidecar) = Ok (from_guid header) /\
    sc_snapshot_guid sidecar' = guid_string (to_guid header) /\ sc_sha256 sidecar' = sha256_hex (contents file)).
Proof.
  intros Hwf Hfuel Hread Hsizes Hplain Hold Hmax Hoff.
  pose proof (read_all_in_range _ _ _ _ Hwf Hfuel Hread) as Hrange.
  rewrite Forall_forall in Hsizes. rewrite Forall_forall in Hrange. rewrite Forall_forall in Hplain.
  unfold apply_incremental_with_key. do 3 wp_step. apply wp_bind.
  eapply wp_mono; [|by apply (wp_plain_requirement _ _ _ _ Hread)]. intros requirement ->.
  apply wp_bind. eapply wp_mono; [|by apply wp_copy; [..|apply file_ok_empty|]].
  intros [n temporary] (_ & Htemp & Hcontents). cbn [contents] in Hcontents.
  rewrite (each_record_read_all _ _ _ _ _ _ Hread), bind_assoc. apply wp_bind.
  eapply wp_mono; [|apply (wp_fold_prefix _ (apply_inv sidecar (byte_at old)))].
  - intros s (Hf & Hs & Hc & Hb). cbn [bind]. do 3 wp_step. wp_step. wp_step.
    match goal with Hx : as_begin s = Some _ |- _ => rewrite Hx in Hb end. destruct Hb as [Hsub Hguid].
    destruct Hc as [Hd|(c & Hfold & Hr)]; [congruence|].
    wp_step. eapply wp_mono; [|by apply wp_set_len_content; [|apply Hs|]]. intros file Hfile. apply wp_Ok.
    exists c. eexists. split; [exact Hfold|]. split; [exact Hfile|]. by split.
  - split; [exact Htemp|split; [exact (proj1 Hoff)|split; [right|reflexivity]]]. exists (byte_at old). split; [reflexivity|].
    intros i Hi. unfold reads. cbn [as_file]. by rewrite Hcontents.
  - intros pre record s Hin Hinv. specialize (Hsizes _ Hin). apply wp_apply_step; try done.
    + destruct (Hrange _ Hin). unfold record_ok. split; [done|split; [done|]]. by apply raw_sizes_sizes.
    + intros spill Hk. rewrite Hk in Hsizes. by right.
Qed.

(** An incremental from the sample snapshot: four bytes of the object change. *)
Definition update_begin : BeginRecord := {|
  header_type := 1; to_guid := 78; from_guid := 77; creation_time := 6; objset_type := 2;
  begin_flags := 0; features := 4; dataset_name := [112; 64; 116] |}.
Definition update_write : WriteRecord := {|
  wr_object := 9; wr_object_type := 19; wr_offset := 4; wr_logical_size := 8;
  wr_checksum_type := 7; wr_flags := 0; wr_compressed_size := 0; wr_compression_type := 0;
  wr_salt := zrepeat 8 0; wr_iv := zrepeat 12 0; wr_mac := zrepeat 16 0 |}.
Definition update_bytes : list Z := write_stream initial_control Fletcher4_default
  [(Begin update_begin, []); (Write update_write, [9; 9; 9; 9; 0; 0; 0; 0]); (End_, [])].
Definition sample_sidecar : Sidecar := {|
  sc_format_version := SIDECAR_VERSION; sc_path := bytes_of_string "/f"; sc_object_id := 9; sc_object_type := 20;
  sc_bonus_type := 44; sc_logical_size := 8; sc_size_bonus_offset := Some 16; sc_size_spill_offset := None;
  sc_snapshot_guid := guid_string 77; sc_sha256 := sha256_hex sample_payload; sc_raw_state := None |}.

Lemma apply_is_replay_witness :
  exists records r, read_all 5 (StreamReader_new update_bytes) = Ok (records, r) /\
  wp (apply_incremental_with_key 5 update_bytes sample_payload sample_sidecar None)
    (fun '(file, sidecar') => exists c header,
      fold_res (content_record 9) (byte_at sample_payload, true) records = Ok (c, true) /\
      contents file = materialize (sc_logical_size sidecar') c /\ substreams records = [header]).
Proof.
  destruct (read_all 5 (StreamReader_new update_bytes)) as [[records r]| | |] eqn:E;
    [|exfalso; revert E; vm_compute; congruence..].
  exists records, r. split; [done|].
  eapply wp_mono; [|apply (apply_is_replay 5 update_bytes sample_payload sample_sidecar None records r)].
  - intros [file sidecar'] (c & h & H1 & H2 & H3 & _). exists c, h. split; [exact H1|split; [exact H2|exact H3]].
  - apply reader_wf_new; [apply bytes_ok_dec; vm_compute; reflexivity|vm_compute; discriminate].
  - vm_compute. reflexivity.
  - exact E.
  - apply (read_all_raw_sizes 5 update_bytes records r E). vm_compute. reflexivity.
  - assert (match read_all 5 (StreamReader_new update_bytes) with Ok (records, _) => substreams records | _ => [] end
      = [update_begin]) as Hs by (vm_compute; reflexivity). rewrite E in Hs. rewrite Hs.
    apply Forall_singleton. reflexivity.
  - apply bytes_ok_dec. reflexivity.
  - vm_compute. discriminate.
  - split; [split; vm_compute; discriminate|]. split; [intros off [= <-]; split; vm_compute; discriminate|]. intros off. discriminate.
Defined.

(** The update, run: the file grows to the end of the extent and is cut at the
    size the sidecar knows. *)
Example apply_run :
  match apply_incremental_with_key 5 update_bytes sample_payload sample_sidecar None with
  | Ok (file, sidecar) => contents file = [1; 2; 3; 4; 9; 9; 9; 9] /\ sc_snapshot_guid sidecar = guid_string 78
  | _ => False
  end.
Proof. vm_compute. split; reflexivity. Qed.

(** ** What the modelling showed *)

(** The offset of the size attribute is read from the sidecar and used
    unchecked: a sidecar that is damaged there makes [apply_incremental] panic
    (in a build with overflow checks) instead of refusing the record. *)
Theorem corrupt_size_offset_panics `{Codecs} `{Os} sidecar s record object offset :
  kind record = Object object -> sc_size_bonus_offset sidecar = Some offset -> U64_MAX - 8 < offset <= U64_MAX ->
  obj_object object = sc_object_id sidecar -> obj_bonus_type object = sc_bonus_type sidecar ->
  apply_step sidecar s record = Panic.
Proof.
  intros Hk Ho Hr Hid Hbonus. unfold apply_step, apply_object. rewrite Hk, Hid, Z.eqb_refl, Hbonus, Z.eqb_refl, Ho. cbn [negb].
  rewrite usize_try_from_u64 by u64. cbn [ok_or bind]. unfold add. by rewrite (proj2 (Z.leb_gt _ _)) by lia.
Qed.

Definition sample_object : ObjectRecord := {|
  obj_object := 9; obj_type := 20; obj_bonus_type := 44; obj_block_size := 512; obj_bonus_length := 8;
  obj_checksum_type := 7; obj_compression := 2; obj_dnode_slots := 1; obj_flags := 0; obj_raw_bonus_length := 0;
  obj_indirect_block_shift := 17; obj_levels := 1; obj_block_pointers := 1; obj_max_block_id := 0 |}.
Definition damaged_sidecar : Sidecar := {|
  sc_format_version := SIDECAR_VERSION; sc_path := bytes_of_string "/f"; sc_object_id := 9; sc_object_type := 20;
  sc_bonus_type := 44; sc_logical_size := 8; sc_size_bonus_offset := Some (U64_MAX - 2); sc_size_spill_offset := None;
  sc_snapshot_guid := guid_string 77; sc_sha256 := sha256_hex sample_payload; sc_raw_state := None |}.
Definition damaged_bytes : list Z := write_stream initial_control Fletcher4_default
  [(Begin update_begin, []); (Object sample_object, [1; 2; 3; 4; 5; 6; 7; 8]); (End_, [])].

Lemma corrupt_size_offset_panics_witness :
  (forall s, apply_step damaged_sidecar s
    {| stream_offset := 0; kind := Object sample_object; payload := [1; 2; 3; 4; 5; 6; 7; 8] |} = Panic) /\
  apply_incremental_with_key 5 damaged_bytes sample_payload damaged_sidecar None = Panic.
Proof.
  split; [|vm_compute; reflexivity]. intros s.
  apply (corrupt_size_offset_panics damaged_sidecar s _ sample_object (U64_MAX - 2)); [reflexivity..|lia|reflexivity|reflexivity].
Defined.

(** the encrypted update does not see that its target is deleted when the
    sender frees the whole range of dnodes, for which it sends FREEOBJECTS and
    no OBJECT_RANGE: outside a range the FREEOBJECTS record is ignored, the old
    file is kept as it is, and the sidecar is moved on to the new snapshot, where
    the file does not exist. (The plain update refuses such a stream.) *)
Theorem raw_deletion_missed `{Codecs} `{Crypto} `{OsLaws} `{Digest} {R} `{Read R}
    fuel (stream : R) old sidecar state material n temporary begin free end_ r header range params key :
  sc_raw_state sidecar = Some state -> ss_object_slots state = 32 -> ss_first_object state mod 32 = 0 ->
  is_Some (dnodes_by_object (ss_dnodes state) !! sc_object_id sidecar) ->
  bytes_ok old -> len old <= ISIZE_MAX -> sc_logical_size sidecar = len old ->
  copy {| contents := old; cursor := 0 |} {| contents := []; cursor := 0 |} = Ok (n, temporary) ->
  read_all fuel (StreamReader_new stream) = Ok ([begin; free; end_], r) -> saw_end r = true ->
  kind begin = Begin header -> header_type header = DMU_SUBSTREAM -> has_bits (features header) FEATURE_RAW = true ->
  parse_guid (sc_snapshot_guid sidecar) = Ok (from_guid header) ->
  from_begin_payload (payload begin) = Ok params -> unlock params material = Ok key ->
  Encrypted.guid params = ss_crypto_guid state -> version params = ss_crypto_version state ->
  kind free = FreeObjects range ->
  fo_first_object range <= sc_object_id sidecar < fo_first_object range + fo_object_count range ->
  kind end_ = End_ ->
  exists file sidecar', apply_raw_incremental fuel stream old sidecar (Some material) = Ok (file, sidecar') /\
    contents file = old /\ sc_snapshot_guid sidecar' = guid_string (to_guid header).
Proof.
  intros Hstate Hslots Hfirst Htarget Hold Hmax Hsize Hcopy Hread Hend Hb Ht Hraw Hguid Hparams Hunlock Hcg Hcv Hf _ He.
  assert (contents temporary = old) as Htemp.
  { assert (file_ok {| contents := old; cursor := 0 |}) as Hok by by split_and!.
    by destruct (wp_value _ _ _ (wp_copy _ _ Hok file_ok_empty eq_refl) Hcopy) as (_ & _ & ->). }
  destruct (range_values_spec (E:=error) 0 (U64_MAX + 1) (dnodes_by_object (ss_dnodes state)) ltac:(lia)) as (ids & values & Hv & _).
  unfold apply_raw_incremental. rewrite Hstate. cbn [ok_or bind]. rewrite Hslots, Hfirst, Z.eqb_refl, Z.eqb_refl. cbn [negb orb].
  rewrite (bool_decide_eq_true_2 _ Htarget). cbn [negb]. rewrite Hcopy. cbn [bind].
  rewrite (each_record_read_all _ _ _ _ _ _ Hread). cbn [fold_res].
  unfold raw_apply_step at 1. rewrite Hb, Ht, Z.eqb_refl. cbn [negb]. unfold raw_apply_begin. cbn [ra_begin].
  rewrite Hraw. cbn [negb]. rewrite Hguid. cbn [bind]. rewrite Z.eqb_refl. cbn [negb]. rewrite Hparams. cbn [bind].
  rewrite Hcg, Hcv, !Z.eqb_refl. cbn [negb orb]. rewrite Hunlock. cbn [bind].
  unfold raw_apply_step. rewrite Hf, He. cbn [ra_key ok_or bind]. unfold raw_apply_record. rewrite Hf. cbn [ra_range bind raw_apply_finish].
  cbn [ra_deleted ra_dnodes ra_begin ra_size ra_file orb]. rewrite Hend. cbn [negb].
  rewrite (bool_decide_eq_true_2 _ Htarget). cbn [negb ok_or bind]. unfold set_len at 1. rewrite Hsize, (proj2 (Z.ltb_ge _ _) Hmax).
  cbn [bind]. rewrite Hv. cbn [bind]. eexists _, _. split; [reflexivity|]. cbn [contents sc_snapshot_guid]. split; [|done].
  rewrite Htemp. unfold resize. rewrite Z.leb_refl. apply ztake_all. lia.
Qed.

Definition raw_update_begin : BeginRecord := {|
  header_type := 1; to_guid := 78; from_guid := 77; creation_time := 6; objset_type := 2;
  begin_flags := 0; features := FEATURE_RAW; dataset_name := [112; 64; 116] |}.
Definition raw_deletion_bytes : list Z := write_stream initial_control Fletcher4_default
  [(Begin raw_update_begin, write_xdr 1 0 (begin_nvlist [] sample_params));
   (FreeObjects {| fo_first_object := 0; fo_object_count := 32 |}, []); (End_, [])].
Definition sample_raw_dnode : RawDnode := {|
  dn_object := 9; dn_object_type := 20; dn_bonus_type := 44; dn_block_size := 512; dn_bonus_length := 8;
  dn_checksum_type := 7; dn_compression := 2; dn_slots := 1; dn_flags := 0; dn_indirect_block_shift := 17;
  dn_levels := 1; dn_block_pointers := 1; dn_max_block_id := 0; dn_bonus_ciphertext := []; dn_blocks := [];
  dn_spill := None |}.
Definition sample_raw_state : RawSidecarState := {|
  ss_crypto_guid := 4660; ss_crypto_version := 1; ss_first_object := 0; ss_object_slots := 32;
  ss_dnodes := [sample_raw_dnode]; ss_target_spill := None |}.
Definition raw_sidecar : Sidecar := {|
  sc_format_version := SIDECAR_VERSION; sc_path := bytes_of_string "/f"; sc_object_id := 9; sc_object_type := 20;
  sc_bonus_type := 44; sc_logical_size := 8; sc_size_bonus_offset := Some 16; sc_size_spill_offset := None;
  sc_snapshot_guid := guid_string 77; sc_sha256 := sha256_hex sample_payload; sc_raw_state := Some sample_raw_state |}.

Lemma raw_deletion_missed_witness :
  exists file sidecar', apply_raw_incremental 5 raw_deletion_bytes sample_payload raw_sidecar (Some (zrepeat 32 1)) = Ok (file, sidecar') /\
    contents file = sample_payload /\ sc_snapshot_guid sidecar' = guid_string 78.
Proof.
  destruct (read_all 5 (StreamReader_new raw_deletion_bytes)) as [[records r]| | |] eqn:E;
    [|exfalso; revert E; vm_compute; congruence..].
  assert (match read_all 5 (StreamReader_new raw_deletion_bytes) with
    | Ok (records, r) => (map (fun x => (kind x, payload x)) records, saw_end r) | _ => ([], false) end =
    ([(Begin raw_update_begin, write_xdr 1 0 (begin_nvlist [] sample_params));
      (FreeObjects {| fo_first_object := 0; fo_object_count := 32 |}, []); (End_, [])], true)) as Hr by (vm_compute; reflexivity).
  rewrite E in Hr. destruct records as [|b [|f [|e [|]]]]; try discriminate Hr. injection Hr as Hb Hp Hf _ He _ Hend.
  destruct (copy {| contents := sample_payload; cursor := 0 |} {| contents := []; cursor := 0 |}) as [[n t]| | |] eqn:Hc;
    [|exfalso; revert Hc; vm_compute; discriminate..].
  apply (raw_deletion_missed 5 raw_deletion_bytes sample_payload raw_sidecar sample_raw_state (zrepeat 32 1) n t b f e r
    raw_update_begin {| fo_first_object := 0; fo_object_count := 32 |} sample_params
    {| key_suite := 8; crypto_version := 1; master_key := zrepeat 32 17; hmac_key := zrepeat 64 34 |});
    try first [assumption|reflexivity].
  - eexists. vm_compute. reflexivity.
  - apply bytes_ok_dec. reflexivity.
  - vm_compute. discriminate.
  - rewrite Hp. vm_compute. reflexivity.
  - cbn. lia.
Defined.

(** The plain update refuses the like. *)
Example plain_deletion_seen :
  apply_incremental_with_key 5 (write_stream initial_control Fletcher4_default
    [(Begin update_begin, []); (FreeObjects {| fo_first_object := 0; fo_object_count := 32 |}, []); (End_, [])])
    sample_payload sample_sidecar None =
  Err (Msg "the target object was deleted or replaced; re-extract it from a new full stream" []).
Proof. vm_compute. reflexivity. Qed.
