(* ===== verification/Lznt1.v ===== *)
(** LZNT1, src/src/ntfs_compression.rs lines 333-417: the decoder of a chunk and
    of a sequence of chunks, and the reference it is compared with: a chunk is a
    list of tokens, its meaning the bytes they expand to, its encoding groups of
    eight tokens behind a byte of flags. *)

From S2P Require Import Prelude Bytes.

(** ** The decoder *)

Definition CHUNK : Z := 4096.

(** [while shift > 4 && (1 << (16 - shift)) < destination { shift -= 1 }]; from 12
    down to 4 there are eight rounds. *)
Fixpoint token_shift (rounds : nat) (shift destination : Z) : Z :=
  match rounds with
  | O => shift
  | S rounds =>
      if (4 <? shift) && (Z.shiftl 1 (16 - shift) <? destination)
      then token_shift rounds (shift - 1) destination else shift
  end.

(** [for _ in 0..length { output[destination] = output[destination - distance]; .. }] *)
Fixpoint copy_match (length : nat) (output : list Z) (destination distance : Z) : result (list Z * Z) :=
  match length with
  | O => Ok (output, destination)
  | S length =>
      let! from := sub destination distance in
      let! byte := index output from in
      let! output := set_index output destination byte in
      let! destination := add destination 1 in
      copy_match length output destination distance
  end.

Record chunk_state := { ck_source : Z; ck_destination : Z; ck_output : list Z }.

Definition decode_token (flags bit : Z) (input : list Z) (s : chunk_state) : result chunk_state :=
  if Z.land flags (Z.shiftl 1 bit) =? 0 then
    fail! negb (ck_destination s <? len (ck_output s)) with Msg "LZNT1 literal exceeds chunk" [] in
    let! byte := index input (ck_source s) in
    let! output := set_index (ck_output s) (ck_destination s) byte in
    let! destination := add (ck_destination s) 1 in
    let! source := add (ck_source s) 1 in
    Ok {| ck_source := source; ck_destination := destination; ck_output := output |}
  else
    let! after := add (ck_source s) 2 in
    let! token := ok_or (get_range input (ck_source s) after) (Msg "truncated LZNT1 back-reference" []) in
    let token := le_val token in
    let source := after in
    let shift := token_shift 8 12 (ck_destination s) in
    let distance := Z.shiftr token shift + 1 in
    let length := Z.land token (Z.shiftl 1 shift - 1) + 3 in
    fail! negb (distance <=? ck_destination s) with Msg "LZNT1 back-reference precedes chunk" [] in
    let! room := sub (len (ck_output s)) (ck_destination s) in
    fail! negb (length <=? room) with Msg "LZNT1 back-reference exceeds chunk" [] in
    let! (output, destination) := copy_match (Z.to_nat length) (ck_output s) (ck_destination s) distance in
    Ok {| ck_source := source; ck_destination := destination; ck_output := output |}.

(** [for bit in 0..8], left at the end of the input. *)
Fixpoint decode_bits (bits : list Z) (flags : Z) (input : list Z) (s : chunk_state) : result chunk_state :=
  match bits with
  | [] => Ok s
  | bit :: bits =>
      if ck_source s =? len input then Ok s
      else
        let! s := decode_token flags bit input s in
        decode_bits bits flags input s
  end.

(** Each round consumes the byte of flags, so the input bounds the rounds. *)
Fixpoint decode_groups (fuel : nat) (input : list Z) (s : chunk_state) : result chunk_state :=
  if len input <=? ck_source s then Ok s
  else
    match fuel with
    | O => OutOfFuel
    | S fuel =>
        let! flags := index input (ck_source s) in
        let! source := add (ck_source s) 1 in
        fail! negb (source <? len input) with Msg "LZNT1 flag byte has no data" [] in
        let! s := decode_bits (seqZ 0 8) flags input
          {| ck_source := source; ck_destination := ck_destination s; ck_output := ck_output s |} in
        decode_groups fuel input s
    end.

Definition decode_chunk (input output : list Z) : result (Z * list Z) :=
  let! s := decode_groups (length input) input {| ck_source := 0; ck_destination := 0; ck_output := output |} in
  Ok (ck_destination s, ck_output s).

(** A round of [decode_lznt1]: the new source and destination, and the output. *)
Definition decode_lznt1_chunk (input output : list Z) (required source destination : Z)
  : result (Z * Z * list Z) :=
  let! after := add source 2 in
  let! header := ok_or (get_range input source after) (Msg "truncated LZNT1 chunk header" []) in
  let header := le_val header in
  fail! header =? 0 with Msg "LZNT1 stream ended before initialized data" [] in
  fail! negb (Z.land header 0x7000 =? 0x3000) with Msg "invalid LZNT1 chunk signature" [] in
  let source := after in
  let size := Z.land header 0x0fff + 1 in
  let! after := add source size in
  let! chunk := ok_or (get_range input source after) (Msg "truncated LZNT1 chunk" []) in
  let source := after in
  let! limit := add destination CHUNK in
  let end_ := Z.min limit (len output) in
  fail! negb (destination <? end_) with Msg "LZNT1 output limit exceeded" [] in
  let! target := slice output destination end_ in
  let! (written, target) :=
    if Z.land header 0x8000 =? 0 then
      fail! negb (len chunk <=? len target) with Msg "LZNT1 raw chunk exceeds output" [] in
      let! target := copy_into target 0 chunk in
      Ok (len chunk, target)
    else decode_chunk chunk target in
  let! output := copy_into output destination target in
  let! reached := add destination written in
  fail! negb ((written =? CHUNK) || (required <=? reached))
    with Msg "short LZNT1 chunk before initialized data ends" [] in
  Ok (source, reached, output).

(** Each round consumes a header, so the input bounds the rounds. *)
Fixpoint decode_lznt1_loop (fuel : nat) (input output : list Z) (required source destination : Z)
  : result (list Z) :=
  if required <=? destination then Ok output
  else
    match fuel with
    | O => OutOfFuel
    | S fuel =>
        let! (source, destination, output) := decode_lznt1_chunk input output required source destination in
        decode_lznt1_loop fuel input output required source destination
    end.

Definition decode_lznt1 (input output : list Z) (required : Z) : result (list Z) :=
  fail! negb (required <=? len output) with Msg "LZNT1 output limit exceeded" [] in
  decode_lznt1_loop (S (length input)) input output required 0 0.

(** *** What is left in the output where decoding fails

    The decoder writes in place: of a chunk that is refused, what had been decoded
    before stays in the output. A token is refused before it is written. *)
Fixpoint bits_left (bits : list Z) (flags : Z) (input : list Z) (s : chunk_state) : list Z :=
  match bits with
  | [] => ck_output s
  | bit :: bits =>
      if ck_source s =? len input then ck_output s
      else match decode_token flags bit input s with Ok s => bits_left bits flags input s | _ => ck_output s end
  end.

Fixpoint groups_left (fuel : nat) (input : list Z) (s : chunk_state) : list Z :=
  match fuel with
  | O => ck_output s
  | S fuel =>
      if (len input <=? ck_source s) || (len input <=? ck_source s + 1) then ck_output s
      else
        let flags := default 0 (get input (ck_source s)) in
        let s := {| ck_source := ck_source s + 1; ck_destination := ck_destination s; ck_output := ck_output s |} in
        match decode_bits (seqZ 0 8) flags input s with
        | Ok s => groups_left fuel input s
        | _ => bits_left (seqZ 0 8) flags input s
        end
  end.

(** A chunk that is refused: before anything is written, while it is decoded, or
    after, because it is too short. *)
Definition chunk_left (input output : list Z) (source destination : Z) : list Z :=
  match get_range input source (source + 2) with
  | None => output
  | Some header =>
      let header := le_val header in
      let after := source + 2 + Z.land header 0x0fff + 1 in
      let end_ := Z.min (destination + CHUNK) (len output) in
      match get_range input (source + 2) after, get_range output destination end_ with
      | Some chunk, Some target =>
          if (header =? 0) || negb (Z.land header 0x7000 =? 0x3000) || negb (destination <? end_) then output
          else
            let target :=
              if Z.land header 0x8000 =? 0
              then (if len chunk <=? len target then chunk ++ zdrop (len chunk) target else target)
              else groups_left (length chunk) chunk {| ck_source := 0; ck_destination := 0; ck_output := target |} in
            ztake destination output ++ target ++ zdrop end_ output
      | _, _ => output
      end
  end.

Fixpoint lznt1_loop_left (fuel : nat) (input output : list Z) (required source destination : Z) : list Z :=
  match fuel with
  | O => output
  | S fuel =>
      if required <=? destination then output
      else match decode_lznt1_chunk input output required source destination with
        | Ok (source, destination, output) => lznt1_loop_left fuel input output required source destination
        | _ => chunk_left input output source destination
        end
  end.

Definition lznt1_left (input output : list Z) (required : Z) : list Z :=
  if required <=? len output then lznt1_loop_left (S (length input)) input output required 0 0 else output.

(** ** The reference: tokens and what they mean *)

Inductive lz_token := Literal (byte : Z) | Match (distance length : Z).

(** The bits of a token that hold the displacement: enough for the bytes so far,
    4 at least (MS-XCA 2.5.1.4). *)
Definition displacement_bits (position : Z) : Z := Z.max 4 (Z.log2_up position).

(** A match repeats bytes already there, those it has just produced too. *)
Fixpoint repeat_back (length : nat) (distance : Z) (out : list Z) : list Z :=
  match length with
  | O => out
  | S length => repeat_back length distance (out ++ [default 0 (get out (len out - distance))])
  end.

Definition expand_token (out : list Z) (t : lz_token) : list Z :=
  match t with
  | Literal byte => out ++ [byte]
  | Match distance length => repeat_back (Z.to_nat length) distance out
  end.
Definition expand (out : list Z) (ts : list lz_token) : list Z := foldl expand_token out ts.

(** What a token may be after [position] bytes, in a chunk of at most [limit]. *)
Definition token_ok (limit position : Z) (t : lz_token) : Prop :=
  match t with
  | Literal byte => is_byte byte /\ position < limit
  | Match distance length =>
      1 <= distance <= position /\ distance <= 2 ^ displacement_bits position /\
      3 <= length <= 2 ^ (16 - displacement_bits position) + 2 /\ position + length <= limit
  end.

Definition token_size (t : lz_token) : Z := match t with Literal _ => 1 | Match _ length => length end.

Fixpoint tokens_ok (limit position : Z) (ts : list lz_token) : Prop :=
  match ts with
  | [] => True
  | t :: ts => token_ok limit position t /\ tokens_ok limit (position + token_size t) ts
  end.

(** ** ... and how they are written *)

Definition write_token (position : Z) (t : lz_token) : list Z :=
  match t with
  | Literal byte => [byte]
  | Match distance length =>
      le_bytes 2 ((distance - 1) * 2 ^ (16 - displacement_bits position) + (length - 3))
  end.

Fixpoint write_tokens (position : Z) (ts : list lz_token) : list Z :=
  match ts with
  | [] => []
  | t :: ts => write_token position t ++ write_tokens (position + token_size t) ts
  end.

Definition is_match (t : lz_token) : bool := match t with Match _ _ => true | Literal _ => false end.
Definition sizes (ts : list lz_token) : Z := foldr (fun t n => token_size t + n) 0 ts.

Fixpoint flag_byte (ts : list lz_token) : Z :=
  match ts with [] => 0 | t :: ts => Z.b2z (is_match t) + 2 * flag_byte ts end.

(** Groups of eight; the last may be shorter. *)
Fixpoint groups (fuel : nat) (ts : list lz_token) : list (list lz_token) :=
  match fuel, ts with
  | _, [] => []
  | O, _ => []
  | S fuel, _ => take 8 ts :: groups fuel (drop 8 ts)
  end.

Fixpoint write_groups (position : Z) (gs : list (list lz_token)) : list Z :=
  match gs with
  | [] => []
  | g :: gs => (flag_byte g :: write_tokens position g) ++ write_groups (position + sizes g) gs
  end.

Definition write_chunk (ts : list lz_token) : list Z := write_groups 0 (groups (length ts) ts).

(** A chunk is stored or packed. *)
Inductive lz_chunk := Stored (bytes : list Z) | Packed (tokens : list lz_token).

Definition chunk_value (c : lz_chunk) : list Z :=
  match c with Stored bytes => bytes | Packed tokens => expand [] tokens end.
Definition chunk_data (c : lz_chunk) : list Z :=
  match c with Stored bytes => bytes | Packed tokens => write_chunk tokens end.
Definition write_lz (c : lz_chunk) : list Z :=
  le_bytes 2 (match c with Stored _ => 0x3000 | Packed _ => 0xb000 end + (len (chunk_data c) - 1)) ++ chunk_data c.

Definition lz_chunk_ok (c : lz_chunk) : Prop :=
  1 <= len (chunk_data c) <= CHUNK /\
  match c with Stored bytes => bytes_ok bytes | Packed tokens => tokens_ok CHUNK 0 tokens end.
