(* ===== verification/Lznt1Facts.v ===== *)
(** The LZNT1 decoder against the reference of [Lznt1]: on what the reference
    wrote it returns the value, and on any input what it returns is the value of
    some tokens. *)

From S2P Require Import Prelude Bytes Lznt1.

(** ** Tokens *)

Lemma token_shift_spec position :
  0 <= position <= CHUNK -> token_shift 8 12 position = 16 - displacement_bits position.
Proof.
  intros Hp. assert (forallb (fun p => token_shift 8 12 p =? 16 - displacement_bits p) (seqZ 0 4097) = true) as Hall
    by (vm_compute; reflexivity).
  rewrite forallb_forall in Hall. apply Z.eqb_eq, Hall, list_elem_of_In, elem_of_seqZ. unfold CHUNK in Hp. lia.
Qed.

Lemma displacement_bits_range position : 0 <= position <= CHUNK -> 4 <= displacement_bits position <= 12.
Proof.
  intros Hp. unfold displacement_bits. pose proof (Z.log2_up_le_mono position CHUNK ltac:(lia)) as Hm.
  change (Z.log2_up CHUNK) with 12 in Hm. lia.
Qed.

Lemma len_repeat_back n distance out : len (repeat_back n distance out) = len out + Z.of_nat n.
Proof. revert out. induction n as [|n IH]; intros out; cbn [repeat_back]; [lia|]. rewrite IH. len_lia. Qed.

Lemma len_expand_token out t : 0 <= token_size t -> len (expand_token out t) = len out + token_size t.
Proof. destruct t as [b|d l]; cbn; intros H; [len_lia|]. rewrite len_repeat_back. lia. Qed.

Lemma token_ok_size limit position t : token_ok limit position t -> 1 <= token_size t /\ position + token_size t <= limit.
Proof. destruct t; cbn; lia. Qed.

Lemma sizes_nonneg limit position ts : tokens_ok limit position ts -> 0 <= sizes ts.
Proof.
  revert position. induction ts as [|t ts IH]; intros position; cbn; [lia|].
  intros [Ht%token_ok_size Hts%IH]. fold (sizes ts) in *. lia.
Qed.

Lemma len_expand limit out ts : tokens_ok limit (len out) ts -> len (expand out ts) = len out + sizes ts.
Proof.
  revert out. induction ts as [|t ts IH]; intros out; cbn [tokens_ok]; [cbn; lia|]. intros [Ht Hts].
  pose proof (token_ok_size _ _ _ Ht). change (expand out (t :: ts)) with (expand (expand_token out t) ts).
  assert (len (expand_token out t) = len out + token_size t) as Hl by (apply len_expand_token; lia).
  rewrite IH; [rewrite Hl; cbn; fold (sizes ts); lia|by rewrite Hl].
Qed.

Lemma sizes_cons t ts : sizes (t :: ts) = token_size t + sizes ts.
Proof. reflexivity. Qed.

Lemma tokens_ok_app limit position ts us :
  tokens_ok limit position (ts ++ us) <-> tokens_ok limit position ts /\ tokens_ok limit (position + sizes ts) us.
Proof.
  revert position. induction ts as [|t ts IH]; intros position; cbn [app tokens_ok].
  - change (sizes []) with 0. rewrite Z.add_0_r. tauto.
  - rewrite IH, sizes_cons, Z.add_assoc. tauto.
Qed.

Lemma sizes_app ts us : sizes (ts ++ us) = sizes ts + sizes us.
Proof.
  induction ts as [|t ts IH]; [done|]. change ((t :: ts) ++ us) with (t :: ts ++ us). rewrite !sizes_cons, IH. lia.
Qed.

Lemma tokens_ok_limit limit position ts : position <= limit -> tokens_ok limit position ts -> position + sizes ts <= limit.
Proof.
  revert position. induction ts as [|t ts IH]; intros position Hp; cbn [tokens_ok].
  - change (sizes []) with 0. lia.
  - intros [Ht%token_ok_size Hts]. apply IH in Hts; [|lia]. rewrite sizes_cons. lia.
Qed.

(** ** Copying *)

Lemma set_index_next (out rest : list Z) r b :
  set_index (E:=error) (out ++ r :: rest) (len out) b = Ok ((out ++ [b]) ++ rest).
Proof.
  unfold set_index. pose proof (len_nonneg out). pose proof (len_nonneg rest).
  rewrite (proj2 (andb_true_iff _ _)) by (split; [apply Z.leb_le|apply Z.ltb_lt]; len_lia).
  rewrite ztake_app_len by done.
  replace (zdrop (len out + 1) (out ++ r :: rest)) with rest; [by rewrite <- app_assoc|].
  change (r :: rest) with ([r] ++ rest). rewrite app_assoc. by rewrite zdrop_app_len by len_lia.
Qed.

Lemma zdrop_S {A} n (l : list A) r : zdrop (Z.of_nat (S n)) (r :: l) = zdrop (Z.of_nat n) l.
Proof. unfold zdrop. by rewrite !Nat2Z.id. Qed.

Lemma copy_match_spec n distance : forall out rest,
  1 <= distance <= len out -> Z.of_nat n <= len rest -> len out + len rest <= U64_MAX ->
  copy_match n (out ++ rest) (len out) distance =
    Ok (repeat_back n distance out ++ zdrop (Z.of_nat n) rest, len out + Z.of_nat n).
Proof.
  induction n as [|n IH]; intros out rest Hd Hn Hmax; cbn [copy_match repeat_back].
  - by rewrite Z.add_0_r, zdrop_0 by lia.
  - destruct rest as [|r rest]; [rewrite len_nil in Hn; lia|]. rewrite len_cons in *.
    unfold sub. rewrite (proj2 (Z.leb_le _ _)) by lia. cbn [bind].
    destruct (get_is_Some out (len out - distance) ltac:(lia)) as [b Hb].
    rewrite (proj2 (index_Ok _ _ b)) by (rewrite get_app_l by lia; done). cbn [bind].
    rewrite set_index_next. cbn [bind]. unfold add. rewrite (proj2 (Z.leb_le _ _)) by lia. cbn [bind].
    rewrite Hb. cbn [default from_option id]. replace (len out + 1) with (len (out ++ [b])) by len_lia.
    rewrite IH by len_lia. rewrite zdrop_S. f_equal. f_equal. len_lia.
Qed.

(** ** One token *)

Lemma bit_clear flags bit : 0 <= bit -> (Z.land flags (Z.shiftl 1 bit) =? 0) = negb (Z.testbit flags bit).
Proof.
  intros Hb. rewrite Z.shiftl_1_l. destruct (Z.testbit flags bit) eqn:Ht; cbn [negb].
  - apply Z.eqb_neq. intros H. apply (f_equal (fun z => Z.testbit z bit)) in H.
    rewrite Z.land_spec, Z.pow2_bits_true, Ht, Z.bits_0 in H by done. done.
  - apply Z.eqb_eq, Z.bits_inj. intros i. rewrite Z.land_spec, Z.bits_0.
    destruct (decide (i = bit)) as [->|Hi]; [by rewrite Ht|]. rewrite Z.pow2_bits_false by lia. by rewrite andb_false_r.
Qed.

(** The state after [out] has been written, [rest] left. *)
Definition at_output (out rest : list Z) (source : Z) : chunk_state :=
  {| ck_source := source; ck_destination := len out; ck_output := out ++ rest |}.

(** Enough room, and nothing overflows. *)
Definition room_ok (input out rest : list Z) : Prop :=
  len out + len rest <= CHUNK /\ len input <= ISIZE_MAX.

Lemma decode_literal flags bit input out rest source b :
  room_ok input out rest -> 0 <= bit -> Z.testbit flags bit = false -> get input source = Some b -> 1 <= len rest ->
  decode_token flags bit input (at_output out rest source) =
    Ok (at_output (expand_token out (Literal b)) (zdrop 1 rest) (source + 1)).
Proof.
  intros [Hroom Hin] Hbit Hf Hb Hrest. unfold decode_token, at_output. cbn [ck_source ck_destination ck_output].
  rewrite bit_clear, Hf by done. cbn [negb]. destruct rest as [|r rest]; [rewrite len_nil in Hrest; lia|].
  rewrite (proj2 (Z.ltb_lt _ _)) by len_lia. cbn [negb]. rewrite (proj2 (index_Ok _ _ b) Hb). cbn [bind].
  rewrite set_index_next. cbn [bind]. apply get_lt in Hb. unfold CHUNK, ISIZE_MAX in *. unfold add.
  rewrite !(proj2 (Z.leb_le _ _)) by len_lia. cbn [bind expand_token]. unfold zdrop. cbn [drop Z.to_nat].
  f_equal. f_equal. len_lia.
Qed.

Lemma decode_match flags bit input out rest source token :
  room_ok input out rest -> 0 <= bit -> Z.testbit flags bit = true ->
  get_range input source (source + 2) = Some token ->
  let shift := 16 - displacement_bits (len out) in
  let distance := Z.shiftr (le_val token) shift + 1 in
  let length := Z.land (le_val token) (Z.shiftl 1 shift - 1) + 3 in
  bytes_ok token ->
  decode_token flags bit input (at_output out rest source) =
    if distance <=? len out
    then
      if length <=? len rest
      then Ok (at_output (expand_token out (Match distance length)) (zdrop length rest) (source + 2))
      else Err (Msg "LZNT1 back-reference exceeds chunk" [])
    else Err (Msg "LZNT1 back-reference precedes chunk" []).
Proof.
  intros [Hroom Hin] Hbit Hf Htok shift distance length Hb. unfold decode_token, at_output. cbn [ck_source ck_destination ck_output].
  rewrite bit_clear, Hf by done. cbn [negb]. pose proof (proj1 (get_range_Some _ _ _ _) Htok) as (Hs & Hl & _).
  unfold add at 1. rewrite (proj2 (Z.leb_le _ _)) by (unfold ISIZE_MAX in *; lia). cbn [bind]. rewrite Htok. cbn [ok_or bind].
  pose proof (len_nonneg out). pose proof (len_nonneg rest). rewrite token_shift_spec by lia. cbv zeta.
  fold shift. fold distance. fold length. destruct (distance <=? len out) eqn:Hd; cbn [negb]; [|done].
  unfold sub. rewrite (proj2 (Z.leb_le _ _)) by len_lia. cbn [bind].
  replace (len (out ++ rest) - len out) with (len rest) by len_lia.
  destruct (length <=? len rest) eqn:Hle; cbn [negb]; [|done]. b2p.
  assert (0 <= Z.land (le_val token) (Z.shiftl 1 shift - 1)) as Hland
    by (apply Z.land_nonneg; left; apply (le_val_bound _ Hb)).
  assert (0 <= Z.shiftr (le_val token) shift) as Hshift by (apply Z.shiftr_nonneg; apply (le_val_bound _ Hb)).
  rewrite copy_match_spec by (unfold CHUNK in *; unfold length, distance in *; lia). cbn [bind expand_token].
  rewrite Z2Nat.id by (unfold length; lia). f_equal. f_equal. rewrite len_repeat_back. unfold length in *. lia.
Qed.

Lemma token_fields token shift bits :
  0 <= token < 2 ^ (shift + bits) -> 0 <= shift -> 0 <= bits ->
  0 <= Z.shiftr token shift < 2 ^ bits /\ 0 <= Z.land token (Z.shiftl 1 shift - 1) < 2 ^ shift.
Proof.
  intros Ht Hs Hb. rewrite Z.shiftl_1_l. replace (2 ^ shift - 1) with (Z.ones shift) by (rewrite Z.ones_equiv; lia).
  rewrite Z.land_ones, Z.shiftr_div_pow2 by done. rewrite Z.pow_add_r in Ht by done.
  pose proof (Z.pow_pos_nonneg 2 shift ltac:(lia) Hs). split.
  - split; [apply Z.div_pos; lia|apply Z.div_lt_upper_bound; lia].
  - by apply Z.mod_pos_bound.
Qed.

Lemma wp_decode_token flags bit input out rest source :
  room_ok input out rest -> bytes_ok input -> 0 <= bit -> 0 <= source < len input ->
  wp (decode_token flags bit input (at_output out rest source)) (fun s' => exists t source',
    token_ok (len out + len rest) (len out) t /\ source < source' <= len input /\
    s' = at_output (expand_token out t) (zdrop (token_size t) rest) source').
Proof.
  intros Hroom Hb Hbit Hs. destruct (get_is_Some input source Hs) as [b Hget]. destruct (Z.testbit flags bit) eqn:Hf.
  - destruct (get_range input source (source + 2)) as [token|] eqn:Htok.
    + assert (bytes_ok token) as Hbt by (apply get_range_Some in Htok as (_ & _ & ->); auto with zse).
      rewrite (decode_match _ _ _ _ _ _ token) by done. cbv zeta.
      apply get_range_len in Htok as Hl. apply get_range_Some in Htok as (_ & Hend & _).
      pose proof (len_nonneg out). pose proof (len_nonneg rest).
      destruct (displacement_bits_range (len out)) as [Hlo Hhi]; [unfold room_ok in Hroom; lia|].
      pose proof (le_val_bound _ Hbt) as Hv. replace (len token) with 2 in Hv by lia.
      destruct (token_fields (le_val token) (16 - displacement_bits (len out)) (displacement_bits (len out)))
        as [Hd Hn]; [replace (16 - _ + _) with 16 by lia; change (2 ^ 16) with (256 ^ 2); lia|lia|lia|].
      repeat (apply wp_if; intros ?; [|apply wp_Err]). b2p. apply wp_Ok.
      match goal with |- context [expand_token out ?t] => exists t, (source + 2) end. split; [|split; [|reflexivity]].
      * cbn [token_ok]. lia.
      * lia.
    + unfold decode_token, at_output. cbn [ck_source ck_destination ck_output]. rewrite bit_clear, Hf by done. cbn [negb].
      apply wp_bind, wp_add; [unfold room_ok, ISIZE_MAX in *; lia|]. rewrite Htok. apply wp_Err.
  - destruct (Z.leb_spec 1 (len rest)) as [Hr|Hr].
    + rewrite (decode_literal _ _ _ _ _ _ b) by done. apply wp_Ok. exists (Literal b), (source + 1). cbn [token_ok token_size].
      split; [split; [apply (get_Forall _ _ _ _ Hb Hget)|lia]|]. split; [lia|done].
    + unfold decode_token, at_output. cbn [ck_source ck_destination ck_output]. rewrite bit_clear, Hf by done. cbn [negb].
      rewrite (proj2 (Z.ltb_ge _ _)) by len_lia. apply wp_Err.
Qed.

Lemma get_middle {A} (pre post : list A) a : get (pre ++ a :: post) (len pre) = Some a.
Proof.
  apply get_Some_lookup. split; [apply len_nonneg|]. rewrite len_nat, lookup_app_r by lia. by rewrite Nat.sub_diag.
Qed.

Lemma decode_token_written flags bit pre post out rest t limit :
  token_ok limit (len out) t -> limit <= len out + len rest -> 0 <= bit ->
  room_ok (pre ++ write_token (len out) t ++ post) out rest -> Z.testbit flags bit = is_match t ->
  decode_token flags bit (pre ++ write_token (len out) t ++ post) (at_output out rest (len pre)) =
    Ok (at_output (expand_token out t) (zdrop (token_size t) rest) (len pre + len (write_token (len out) t))).
Proof.
  intros Ht Hlimit Hbit Hroom Hf. destruct t as [b|d n]; cbn [write_token is_match token_ok token_size] in *.
  - rewrite (decode_literal _ _ _ _ _ _ b); [done|done|done|done|apply get_middle|lia].
  - assert (4 <= displacement_bits (len out) <= 12) as Hdb.
    { apply displacement_bits_range. unfold room_ok in Hroom. pose proof (len_nonneg out). pose proof (len_nonneg rest). lia. }
    set (shift := 16 - displacement_bits (len out)) in *. set (token := (d - 1) * 2 ^ shift + (n - 3)) in *.
    assert (0 < 2 ^ shift) as Hp by (apply Z.pow_pos_nonneg; lia).
    assert (0 <= token < 256 ^ Z.of_nat 2) as Htoken.
    { change (256 ^ Z.of_nat 2) with (2 ^ 16). replace 16 with (displacement_bits (len out) + shift) by lia.
      rewrite Z.pow_add_r by lia. unfold token. nia. }
    assert (le_val (le_bytes 2 token) = token) as Hval by (rewrite le_val_le_bytes; by apply Z.mod_small).
    rewrite (decode_match _ _ _ _ _ _ (le_bytes 2 token));
      [|done|done|done|apply get_range_app; rewrite ?len_le_bytes; lia|apply le_bytes_ok].
    fold shift. rewrite Hval, Z.shiftl_1_l. replace (2 ^ shift - 1) with (Z.ones shift) by (rewrite Z.ones_equiv; lia).
    rewrite Z.land_ones, Z.shiftr_div_pow2 by lia. unfold token. rewrite Z.div_add_l, Z.div_small by lia.
    rewrite (Z.add_comm (_ * _)), Z.mod_add, Z.mod_small by lia.
    replace (d - 1 + 0 + 1) with d by lia. replace (n - 3 + 3) with n by lia.
    rewrite !(proj2 (Z.leb_le _ _)) by lia. done.
Qed.

(** ** A group *)

Lemma decode_bits_at_end bits flags input s : ck_source s = len input -> decode_bits bits flags input s = Ok s.
Proof. intros Hs. destruct bits; cbn [decode_bits]; [done|]. by rewrite Hs, Z.eqb_refl. Qed.

Lemma testbit_flag_byte ts i : Z.testbit (flag_byte ts) (Z.of_nat i) = default false (is_match <$> ts !! i).
Proof.
  revert i. induction ts as [|t ts IH]; intros i; cbn [flag_byte]; [by rewrite Z.bits_0|].
  destruct i as [|i]; cbn [lookup list_lookup].
  - change (Z.of_nat 0) with 0. by rewrite Z.add_b2z_double_bit0.
  - rewrite Nat2Z.inj_succ, <- Z.div2_bits, Z.add_b2z_double_div2 by lia. apply IH.
Qed.

Lemma zdrop_sizes {A} (rest : list A) n m : 0 <= n -> 0 <= m -> zdrop m (zdrop n rest) = zdrop (n + m) rest.
Proof. intros. by rewrite zdrop_zdrop. Qed.

Lemma room_next input out rest t :
  room_ok input out rest -> 0 <= token_size t <= len rest -> room_ok input (expand_token out t) (zdrop (token_size t) rest).
Proof. intros [H1 H2] Ht. split; [|done]. rewrite len_expand_token, len_zdrop by lia. lia. Qed.

Lemma decode_bits_written ts : forall k flags pre post out rest limit,
  0 <= k <= 8 -> (forall i t, ts !! i = Some t -> Z.testbit flags (k + Z.of_nat i) = is_match t) ->
  len ts <= 8 - k -> len ts = 8 - k \/ post = [] ->
  tokens_ok limit (len out) ts -> limit <= len out + len rest ->
  room_ok (pre ++ write_tokens (len out) ts ++ post) out rest ->
  decode_bits (seqZ k (8 - k)) flags (pre ++ write_tokens (len out) ts ++ post) (at_output out rest (len pre)) =
    Ok (at_output (expand out ts) (zdrop (sizes ts) rest) (len pre + len (write_tokens (len out) ts))).
Proof.
  induction ts as [|t ts IH]; intros k flags pre post out rest limit Hk Hflags Hlen Hlast Hok Hlimit Hroom.
  - cbn [write_tokens expand foldl app]. change (sizes []) with 0. rewrite zdrop_0, len_nil, Z.add_0_r by lia.
    destruct Hlast as [Hl| ->]; [rewrite len_nil in Hl; replace k with 8 by lia; done|].
    apply decode_bits_at_end. rewrite app_nil_r. done.
  - cbn [tokens_ok] in Hok. destruct Hok as [Ht Hts]. rewrite len_cons in *. pose proof (len_nonneg ts).
    pose proof (token_ok_size _ _ _ Ht) as Hsize. rewrite seqZ_cons by lia. cbn [decode_bits write_tokens]. rewrite <- !app_assoc.
    assert (len (expand_token out t) = len out + token_size t) as Hout by (apply len_expand_token; lia).
    cbn [write_tokens] in Hroom. rewrite <- app_assoc in Hroom.
    assert (1 <= len (write_token (len out) t)) as Hw by (destruct t; cbn [write_token]; rewrite ?len_le_bytes; len_lia).
    rewrite (proj2 (Z.eqb_neq _ _)) by (cbn [at_output ck_source]; len_lia).
    rewrite (decode_token_written _ _ _ _ _ _ _ limit); [|done|done|lia|done|by rewrite <- (Hflags 0%nat t), Z.add_0_r].
    cbn [bind]. replace (Z.pred (8 - k)) with (8 - Z.succ k) by lia. rewrite app_assoc, <- len_app, <- Hout.
    rewrite (IH (Z.succ k) flags _ post _ _ limit).
    + f_equal. rewrite sizes_cons, zdrop_sizes by (try lia; by eapply sizes_nonneg). f_equal. rewrite !len_app. lia.
    + lia.
    + intros i u Hu. rewrite <- (Hflags (S i) u Hu). f_equal. lia.
    + lia.
    + destruct Hlast; [left; lia|by right].
    + by rewrite Hout.
    + rewrite Hout, len_zdrop. lia.
    + rewrite Hout, <- app_assoc. apply room_next; [done|]. lia.
Qed.

(** ** A chunk *)

Lemma expand_app out ts us : expand out (ts ++ us) = expand (expand out ts) us.
Proof. apply foldl_app. Qed.

Lemma len_write_tokens position ts : len ts <= len (write_tokens position ts).
Proof.
  revert position. induction ts as [|t ts IH]; intros position; cbn [write_tokens]; [done|].
  specialize (IH (position + token_size t)). assert (1 <= len (write_token position t)) by (destruct t; cbn [write_token]; rewrite ?len_le_bytes; len_lia).
  len_lia.
Qed.

Lemma decode_groups_written n : forall fuel ts pre out rest limit,
  (length ts <= n)%nat -> len (write_groups (len out) (groups n ts)) <= Z.of_nat fuel ->
  tokens_ok limit (len out) ts -> limit <= len out + len rest ->
  room_ok (pre ++ write_groups (len out) (groups n ts)) out rest ->
  decode_groups fuel (pre ++ write_groups (len out) (groups n ts)) (at_output out rest (len pre)) =
    Ok (at_output (expand out ts) (zdrop (sizes ts) rest) (len pre + len (write_groups (len out) (groups n ts)))).
Proof.
  induction n as [|n IH]; intros fuel ts pre out rest limit Hn Hfuel Hok Hlimit Hroom.
  all: destruct ts as [|t0 ts0]; [|try (cbn in Hn; lia)].
  1, 2: cbn [groups write_groups expand foldl]; change (sizes []) with 0; rewrite app_nil_r, zdrop_0, len_nil, Z.add_0_r by lia;
    destruct fuel; cbn [decode_groups at_output ck_source]; by rewrite Z.leb_refl.
  set (ts := t0 :: ts0) in *. assert (groups (S n) ts = take 8 ts :: groups n (drop 8 ts)) as Hg by done.
  rewrite Hg in *. cbn [write_groups] in *. set (g := take 8 ts) in *. set (us := drop 8 ts) in *.
  assert (ts = g ++ us) as Hts by (symmetry; apply take_drop).
  rewrite Hts in Hok. apply tokens_ok_app in Hok as [Hgok Husok].
  assert (len (expand out g) = len out + sizes g) as Hout by (by eapply len_expand).
  assert (len g <= 8) as Hg8 by (unfold g, len; rewrite length_take; lia).
  assert (1 <= len g) as Hg1 by (unfold g, ts; cbn [take]; len_lia).
  assert (0 <= sizes g) as Hsg by (by eapply sizes_nonneg).
  pose proof (token_ok_size _ _ _ (proj1 Hgok)) as Ht0.
  assert (len out + sizes g <= limit) as Hglimit by (apply (tokens_ok_limit limit (len out)); [lia|done]).
  pose proof (len_write_tokens (len out) g) as Hwg.
  set (tail := write_groups (len out + sizes g) (groups n us)) in *.
  assert (pre ++ (flag_byte g :: write_tokens (len out) g) ++ tail =
    (pre ++ [flag_byte g]) ++ write_tokens (len out) g ++ tail) as Hin by (by rewrite <- !app_assoc).
  destruct fuel as [|fuel]; [len_lia|]. cbn [decode_groups at_output ck_source ck_destination ck_output].
  assert (len (pre ++ (flag_byte g :: write_tokens (len out) g) ++ tail) <= ISIZE_MAX) as Hisize by apply Hroom.
  rewrite (proj2 (Z.leb_gt _ _)) by len_lia.
  rewrite (proj2 (index_Ok _ _ (flag_byte g))) by apply (get_middle pre (write_tokens (len out) g ++ tail)). cbn [bind].
  unfold add. rewrite (proj2 (Z.leb_le _ _)) by (unfold ISIZE_MAX in *; len_lia). cbn [bind].
  rewrite (proj2 (Z.ltb_lt _ _)) by len_lia. cbn [negb]. rewrite Hin in *.
  replace (len pre + 1) with (len (pre ++ [flag_byte g])) by len_lia.
  change 8 with (8 - 0) at 1. fold (at_output out rest (len (pre ++ [flag_byte g]))).
  rewrite (decode_bits_written g 0 (flag_byte g) _ tail out rest limit); [|lia| |lia| |done|lia|done].
  - cbn [bind]. rewrite app_assoc, <- len_app. unfold tail in *. rewrite <- Hout in *.
    rewrite (IH fuel us _ _ _ limit).
    + rewrite Hts, expand_app, sizes_app, zdrop_sizes; [|done|by eapply sizes_nonneg]. f_equal. f_equal. len_lia.
    + unfold us, ts in *. rewrite length_drop. cbn [length] in *. lia.
    + len_lia.
    + done.
    + rewrite len_zdrop. lia.
    + rewrite <- app_assoc. split; [|apply Hroom]. rewrite len_zdrop. destruct Hroom. lia.
  - intros i t Hi. rewrite Z.add_0_l, testbit_flag_byte, Hi. done.
  - destruct (decide (8 <= length ts)%nat) as [Hl|Hl].
    + left. unfold g, len. rewrite length_take. lia.
    + right. unfold tail, us. rewrite drop_ge by lia. by destruct n.
Qed.

Lemma decode_chunk_written ts output limit :
  tokens_ok limit 0 ts -> limit <= len output -> len output <= CHUNK -> len (write_chunk ts) <= ISIZE_MAX ->
  decode_chunk (write_chunk ts) output = Ok (len (expand [] ts), expand [] ts ++ zdrop (len (expand [] ts)) output).
Proof.
  intros Hok Hlimit Hout Hmax. unfold decode_chunk. change {| ck_source := 0; ck_destination := 0; ck_output := output |}
    with (at_output [] output 0). unfold write_chunk in *.
  pose proof (decode_groups_written (length ts) (length (write_groups 0 (groups (length ts) ts))) ts [] [] output limit) as Hw.
  change (len (@nil Z)) with 0 in Hw. cbn [app] in Hw. rewrite Hw; [|lia|unfold len; lia|done|lia|split; len_lia]. cbn [bind at_output ck_destination ck_output].
  by rewrite (len_expand limit []).
Qed.

Lemma wp_decode_bits bits flags input : forall out rest source,
  room_ok input out rest -> bytes_ok input -> Forall (fun bit => 0 <= bit) bits -> 0 <= source <= len input ->
  wp (decode_bits bits flags input (at_output out rest source)) (fun s' => exists ts source',
    tokens_ok (len out + len rest) (len out) ts /\ source <= source' <= len input /\
    s' = at_output (expand out ts) (zdrop (sizes ts) rest) source').
Proof.
  induction bits as [|bit bits IH]; intros out rest source Hroom Hb Hbits Hs; cbn [decode_bits].
  - apply wp_Ok. exists [], source. split; [done|]. split; [lia|]. change (sizes []) with 0. by rewrite zdrop_0 by lia.
  - apply Forall_cons in Hbits as [Hbit Hbits]. cbn [at_output ck_source]. destruct (Z.eqb_spec source (len input)) as [He|Hne].
    + apply wp_Ok. exists [], source. split; [done|]. split; [lia|]. change (sizes []) with 0. by rewrite zdrop_0 by lia.
    + apply wp_bind. eapply wp_mono; [|apply wp_decode_token; [done|done|done|lia]]. intros s' (t & source' & Ht & Hs' & ->).
      pose proof (token_ok_size _ _ _ Ht) as Hsize.
      eapply wp_mono; [|apply IH; [by apply room_next; [|lia]|done|done|lia]]. intros s2 (ts & source2 & Hts & Hs2 & ->).
      rewrite len_expand_token, len_zdrop in Hts by lia.
      replace (len out + token_size t + Z.max 0 (len rest - Z.max 0 (token_size t))) with (len out + len rest) in Hts by lia.
      exists (t :: ts), source2. split; [by split|]. split; [lia|]. rewrite sizes_cons, zdrop_sizes; [done|lia|by eapply sizes_nonneg].
Qed.

Lemma wp_decode_groups fuel input : forall out rest source,
  room_ok input out rest -> bytes_ok input -> 0 <= source <= len input -> len input - source <= Z.of_nat fuel ->
  wp (decode_groups fuel input (at_output out rest source)) (fun s' => exists ts,
    tokens_ok (len out + len rest) (len out) ts /\
    s' = at_output (expand out ts) (zdrop (sizes ts) rest) (len input)).
Proof.
  induction fuel as [|fuel IH]; intros out rest source Hroom Hb Hs Hfuel; cbn [decode_groups at_output ck_source];
    (destruct (Z.leb_spec (len input) source) as [Hle|Hgt];
     [apply wp_Ok; exists []; split; [done|]; change (sizes []) with 0; rewrite zdrop_0 by lia;
      by replace source with (len input) by lia|]); [lia|].
  apply wp_bind, wp_index; [lia|]. intros flags _. apply wp_bind, wp_add; [destruct Hroom; unfold ISIZE_MAX in *; lia|].
  wp_step. b2p. cbn [ck_destination ck_output]. apply wp_bind.
  eapply wp_mono; [|apply wp_decode_bits; [done|done| |lia]].
  2: { apply Forall_forall. intros bit Hbit%elem_of_seqZ. lia. }
  intros s' (ts & source' & Hts & Hs' & ->). assert (len out + sizes ts <= len out + len rest) as Htl by (apply (tokens_ok_limit _ (len out)); [len_lia|done]).
  pose proof (sizes_nonneg _ _ _ Hts) as Hsn. pose proof (len_expand _ _ _ Hts) as Hl.
  eapply wp_mono; [|apply IH; [|done|lia|lia]].
  - intros s2 (us & Hus & ->). rewrite Hl, len_zdrop in Hus.
    replace (len out + sizes ts + Z.max 0 (len rest - Z.max 0 (sizes ts))) with (len out + len rest) in Hus by lia.
    exists (ts ++ us). split; [by apply tokens_ok_app|].
    rewrite expand_app, sizes_app, zdrop_sizes; [done|done|by eapply sizes_nonneg].
  - split; [|apply Hroom]. rewrite Hl, len_zdrop. destruct Hroom. lia.
Qed.

Lemma wp_decode_chunk input output :
  len output <= CHUNK -> len input <= ISIZE_MAX -> bytes_ok input ->
  wp (decode_chunk input output) (fun '(written, output') => exists ts, tokens_ok (len output) 0 ts /\
    written = len (expand [] ts) /\ output' = expand [] ts ++ zdrop written output).
Proof.
  intros Ho Hi Hb. unfold decode_chunk. change {| ck_source := 0; ck_destination := 0; ck_output := output |}
    with (at_output [] output 0). apply wp_bind.
  eapply wp_mono; [|apply wp_decode_groups; [|done|len_lia|unfold len; lia]].
  - intros s (ts & Hts & ->). apply wp_Ok. cbn [at_output ck_destination ck_output]. exists ts.
    change (len (@nil Z)) with 0 in *. rewrite (len_expand _ [] _ Hts). done.
  - split; len_lia.
Qed.

Lemma tokens_ok_fits limit limit' position ts :
  tokens_ok limit position ts -> position + sizes ts <= limit' -> tokens_ok limit' position ts.
Proof.
  revert position. induction ts as [|t ts IH]; intros position; cbn [tokens_ok]; [done|]. rewrite sizes_cons.
  intros [Ht Hts] Hl. pose proof (sizes_nonneg _ _ _ Hts). split; [|by apply IH; [|lia]].
  destruct t; cbn [token_ok token_size] in *; [split; [apply Ht|lia]|lia].
Qed.

Lemma expand_bytes limit out ts : bytes_ok out -> tokens_ok limit (len out) ts -> bytes_ok (expand out ts).
Proof.
  revert out. induction ts as [|t ts IH]; intros out Hb; cbn [tokens_ok]; [done|]. intros [Ht Hts].
  pose proof (token_ok_size _ _ _ Ht). change (expand out (t :: ts)) with (expand (expand_token out t) ts).
  apply IH; [|by rewrite len_expand_token by lia].
  destruct t as [b|d n]; cbn [expand_token token_ok] in *; [apply Forall_app; split; [done|apply Forall_singleton, (proj1 Ht)]|].
  clear -Hb. revert out Hb. generalize (Z.to_nat n). intros k. induction k as [|k IH]; intros out Hb; cbn [repeat_back]; [done|].
  apply IH, Forall_app. split; [done|]. apply Forall_singleton. destruct (get out (len out - d)) as [b|] eqn:Hg; cbn; [|done].
  by apply (get_Forall _ _ _ _ Hb Hg).
Qed.

(** ** A sequence of chunks *)

Definition chunk_sound (c : lz_chunk) : Prop :=
  match c with Stored bytes => bytes_ok bytes /\ len bytes <= CHUNK | Packed tokens => tokens_ok CHUNK 0 tokens end.

Lemma chunk_ok_sound c : lz_chunk_ok c -> chunk_sound c.
Proof. destruct c; intros [H1 H2]; [|exact H2]. split; [exact H2|]. cbn [chunk_data] in H1. lia. Qed.

Lemma chunk_value_sound c : chunk_sound c -> bytes_ok (chunk_value c) /\ len (chunk_value c) <= CHUNK.
Proof.
  destruct c as [bytes|ts]; cbn [chunk_sound chunk_value]; [tauto|]. intros Hts.
  assert (tokens_ok CHUNK (len (@nil Z)) ts) as Hts' by done. split; [by apply (expand_bytes CHUNK)|].
  rewrite (len_expand CHUNK [] ts Hts'). apply tokens_ok_limit; [unfold CHUNK; len_lia|done].
Qed.

Lemma copy_into_middle (out mid rest new : list Z) n :
  n = len out -> len new = len mid ->
  copy_into (E:=error) (out ++ mid ++ rest) n new = Ok (out ++ new ++ rest).
Proof.
  intros -> Hl. unfold copy_into. rewrite (proj2 (andb_true_iff _ _)) by (split; apply Z.leb_le; len_lia).
  rewrite ztake_app_len by done. rewrite (app_assoc out mid), zdrop_app_len by len_lia. done.
Qed.

(** The part of the output a chunk may fill. *)
Lemma target_of (out rest : list Z) :
  let n := Z.min CHUNK (len rest) in
  slice (E:=error) (out ++ rest) (len out) (Z.min (len out + CHUNK) (len (out ++ rest))) = Ok (ztake n rest) /\
  rest = ztake n rest ++ zdrop n rest /\ len (ztake n rest) = n.
Proof.
  intros n. pose proof (len_nonneg out). pose proof (len_nonneg rest). unfold CHUNK in *.
  split; [|split; [symmetry; apply ztake_zdrop|rewrite len_ztake; lia]].
  apply slice_Ok. rewrite len_app. split; [lia|]. split; [lia|]. rewrite zdrop_app_len by done. f_equal. lia.
Qed.

Lemma header_fields tag n :
  tag = 0x3000 \/ tag = 0xb000 -> 1 <= n <= CHUNK ->
  let h := le_val (le_bytes 2 (tag + (n - 1))) in
  h = tag + (n - 1) /\ h <> 0 /\ Z.land h 0x7000 = 0x3000 /\ Z.land h 0x0fff + 1 = n /\ (Z.land h 0x8000 =? 0) = (tag =? 0x3000).
Proof.
  intros Htag Hn. assert (forallb (fun tag => forallb (fun n => let h := le_val (le_bytes 2 (tag + (n - 1))) in
    (h =? tag + (n - 1)) && negb (h =? 0) && (Z.land h 0x7000 =? 0x3000) && (Z.land h 0x0fff + 1 =? n) &&
    Bool.eqb (Z.land h 0x8000 =? 0) (tag =? 0x3000)) (seqZ 1 4096)) [0x3000; 0xb000] = true) as Hall by (vm_compute; reflexivity).
  rewrite forallb_forall in Hall. specialize (Hall tag ltac:(destruct Htag as [->| ->]; cbn; tauto)).
  rewrite forallb_forall in Hall. specialize (Hall n ltac:(apply list_elem_of_In, elem_of_seqZ; unfold CHUNK in Hn; lia)).
  cbv zeta in *. rewrite !andb_true_iff, negb_true_iff, !Z.eqb_eq, Z.eqb_neq, eqb_true_iff in Hall. tauto.
Qed.

Lemma len_write_lz c : lz_chunk_ok c -> len (write_lz c) = 2 + len (chunk_data c).
Proof. intros _. unfold write_lz. rewrite len_app, len_le_bytes. lia. Qed.

Lemma chunk_value_pos c : lz_chunk_ok c -> 1 <= len (chunk_value c).
Proof.
  intros [Hd Hc]. destruct c as [bytes|[|t ts]]; cbn [chunk_data chunk_value] in *; [lia| |].
  { change (write_chunk []) with (@nil Z) in Hd. rewrite len_nil in Hd. lia. }
  assert (tokens_ok CHUNK (len (@nil Z)) (t :: ts)) as Hok by done. rewrite (len_expand _ _ _ Hok), sizes_cons.
  destruct Hc as [Ht Hts]. pose proof (token_ok_size _ _ _ Ht). pose proof (sizes_nonneg _ _ _ Hts). len_lia.
Qed.

(** A chunk that was written is read back; what the decoder keeps behind it is
    the old output. *)
Lemma decode_lznt1_chunk_written c pre post out rest required :
  lz_chunk_ok c -> len (chunk_value c) <= len rest ->
  len (chunk_value c) = CHUNK \/ required <= len out + len (chunk_value c) ->
  len (pre ++ write_lz c ++ post) <= ISIZE_MAX -> len out + len rest <= ISIZE_MAX ->
  decode_lznt1_chunk (pre ++ write_lz c ++ post) (out ++ rest) required (len pre) (len out) =
    Ok (len (pre ++ write_lz c), len (out ++ chunk_value c), (out ++ chunk_value c) ++ zdrop (len (chunk_value c)) rest).
Proof.
  intros Hc Hroom Hlast Hin Hout. destruct (chunk_value_sound c (chunk_ok_sound c Hc)) as [_ Hcl]. pose proof Hc as [Hd _].
  unfold decode_lznt1_chunk. unfold ISIZE_MAX in *. pose proof (len_write_lz c Hc) as Hw.
  set (tag := match c with Stored _ => 0x3000 | Packed _ => 0xb000 end).
  destruct (header_fields tag (len (chunk_data c)) ltac:(destruct c; [by left|by right]) Hd) as (_ & Hz & Hsig & Hsz & Hkind).
  assert (write_lz c = le_bytes 2 (tag + (len (chunk_data c) - 1)) ++ chunk_data c) as Hwrite by done.
  set (header := le_bytes 2 _) in *. assert (len header = 2) as Hhl by apply len_le_bytes.
  assert (get_range (pre ++ write_lz c ++ post) (len pre) (len pre + 2) = Some header) as Hg1.
  { rewrite Hwrite, <- app_assoc. apply get_range_app; lia. }
  assert (get_range (pre ++ write_lz c ++ post) (len pre + 2) (len pre + 2 + len (chunk_data c)) = Some (chunk_data c)) as Hg2.
  { rewrite Hwrite, <- app_assoc, app_assoc. apply get_range_app; len_lia. }
  unfold add at 1. rewrite (proj2 (Z.leb_le _ _)) by len_lia. cbn [bind]. rewrite Hg1. cbn [ok_or bind]. cbv zeta.
  rewrite (proj2 (Z.eqb_neq _ _) Hz), Hsig, Hsz. cbn [negb Z.eqb Pos.eqb].
  unfold add at 1. rewrite (proj2 (Z.leb_le _ _)) by len_lia. cbn [bind]. rewrite Hg2. cbn [ok_or bind].
  unfold add at 1. rewrite (proj2 (Z.leb_le _ _)) by (unfold CHUNK; len_lia). cbn [bind].
  destruct (target_of out rest) as (Hslice & Hrest & Htl). set (n := Z.min CHUNK (len rest)) in *. set (target := ztake n rest) in *.
  pose proof (chunk_value_pos c Hc) as Hv1.
  rewrite (proj2 (Z.ltb_lt _ _)) by (unfold CHUNK in *; len_lia). cbn [negb]. rewrite Hslice. cbn [bind]. rewrite Hkind.
  match goal with |- bind ?m _ = _ => assert (m = Ok (len (chunk_value c), chunk_value c ++ zdrop (len (chunk_value c)) target)) as -> end.
  { destruct c as [bytes|ts]; cbn [tag Z.eqb Pos.eqb chunk_data chunk_value] in *.
    - rewrite (proj2 (Z.leb_le _ _)) by lia. cbn [negb].
      pose proof (copy_into_middle [] (ztake (len bytes) target) (zdrop (len bytes) target) bytes 0 eq_refl) as Hcopy.
      cbn [app] in Hcopy. rewrite ztake_zdrop in Hcopy. rewrite Hcopy; [done|]. rewrite len_ztake. lia.
    - destruct Hc as [_ Hts]. rewrite (decode_chunk_written ts target n); [done| |lia|lia|unfold ISIZE_MAX, CHUNK in *; lia].
      apply (tokens_ok_fits CHUNK); [done|]. assert (tokens_ok CHUNK (len (@nil Z)) ts) as Hok by done.
      rewrite (len_expand _ _ _ Hok) in *. len_lia. }
  cbn [bind]. rewrite Hrest at 1. rewrite (copy_into_middle out target _ _ (len out)); [|done|len_lia]. cbn [bind].
  unfold add at 1. rewrite (proj2 (Z.leb_le _ _)) by len_lia. cbn [bind].
  replace ((len (chunk_value c) =? CHUNK) || (required <=? len out + len (chunk_value c))) with true.
  2: { symmetry. apply orb_true_iff. rewrite Z.eqb_eq, Z.leb_le. done. }
  cbn [negb]. f_equal. f_equal; [f_equal; len_lia|]. rewrite <- !app_assoc. f_equal. f_equal.
  rewrite Hrest at 2. rewrite zdrop_app. fold target. f_equal. rewrite (zdrop_0 _ (zdrop n rest)) by lia. done.
Qed.

(** ** The whole stream *)

Definition lz_values (cs : list lz_chunk) : list Z := concat (map chunk_value cs).
Definition lz_bytes (cs : list lz_chunk) : list Z := concat (map write_lz cs).

(** Every chunk but the last fills 4096 bytes. *)
Fixpoint full_chunks (cs : list lz_chunk) : Prop :=
  match cs with
  | [] => True
  | c :: cs => (cs = [] \/ len (chunk_value c) = CHUNK) /\ full_chunks cs
  end.

Lemma lz_values_cons c cs : lz_values (c :: cs) = chunk_value c ++ lz_values cs.
Proof. done. Qed.
Lemma lz_bytes_cons c cs : lz_bytes (c :: cs) = write_lz c ++ lz_bytes cs.
Proof. done. Qed.

Lemma decode_lznt1_loop_written cs : forall fuel pre post out rest required,
  Forall lz_chunk_ok cs -> full_chunks cs -> required <= len out + len (lz_values cs) -> len (lz_values cs) <= len rest ->
  len (lz_bytes cs) < Z.of_nat fuel -> len (pre ++ lz_bytes cs ++ post) <= ISIZE_MAX -> len out + len rest <= ISIZE_MAX ->
  exists output', decode_lznt1_loop fuel (pre ++ lz_bytes cs ++ post) (out ++ rest) required (len pre) (len out) = Ok output' /\
    len output' = len (out ++ rest) /\ ztake required output' = ztake required (out ++ lz_values cs).
Proof.
  induction cs as [|c cs IH]; intros fuel pre post out rest required Hok Hfull Hreq Hroom Hfuel Hin Hout;
    (destruct fuel as [|fuel]; [len_lia|]); cbn [decode_lznt1_loop]; destruct (Z.leb_spec required (len out)) as [Hle|Hgt].
  1, 3: eexists; split; [done|]; split; [done|]; rewrite !ztake_app, !(ztake_0 (required - len out)) by lia; done.
  { change (len (lz_values [])) with 0 in Hreq. lia. }
  apply Forall_cons in Hok as [Hc Hcs]. cbn [full_chunks] in Hfull. destruct Hfull as [Hc' Hfull].
  rewrite lz_values_cons, lz_bytes_cons in *. pose proof (len_write_lz c Hc) as Hw. pose proof Hc as [Hd _].
  rewrite <- app_assoc in *. rewrite decode_lznt1_chunk_written; [|done|len_lia| |done|done].
  2: { destruct Hc' as [->|?]; [right|by left]. change (lz_values []) with (@nil Z) in Hreq. len_lia. }
  cbn [bind]. rewrite app_assoc.
  destruct (IH fuel (pre ++ write_lz c) post (out ++ chunk_value c) (zdrop (len (chunk_value c)) rest) required) as (output' & H1 & H2 & H3);
    [done|done|len_lia|len_lia|len_lia|by rewrite <- app_assoc|len_lia|].
  exists output'. split; [exact H1|]. split; [rewrite H2; len_lia|]. by rewrite H3, <- app_assoc.
Qed.

(** The chunk a decoder comes to. *)
Definition chunk_read (input out rest : list Z) (required source : Z) : Z * Z * list Z -> Prop :=
  fun '(source', reached, output') => exists c,
    chunk_sound c /\ len (chunk_value c) <= len rest /\ source < source' <= len input /\
    (len (chunk_value c) = CHUNK \/ required <= reached) /\
    reached = len (out ++ chunk_value c) /\ output' = (out ++ chunk_value c) ++ zdrop (len (chunk_value c)) rest.

Lemma wp_chunk_body chunk (h : Z) target :
  bytes_ok chunk -> len target <= CHUNK -> len chunk <= ISIZE_MAX ->
  wp (if Z.land h 0x8000 =? 0 then
        fail! negb (len chunk <=? len target) with Msg "LZNT1 raw chunk exceeds output" [] in
        let! target := copy_into target 0 chunk in Ok (len chunk, target)
      else decode_chunk chunk target)
    (fun '(written, target') => exists c, chunk_sound c /\ written = len (chunk_value c) /\
       len (chunk_value c) <= len target /\ target' = chunk_value c ++ zdrop (len (chunk_value c)) target).
Proof.
  intros Hb Ht Hc. apply wp_if; intros _.
  - wp_step. b2p. pose proof (copy_into_middle [] (ztake (len chunk) target) (zdrop (len chunk) target) chunk 0 eq_refl) as Hcopy.
    cbn [app] in Hcopy. rewrite ztake_zdrop in Hcopy. rewrite Hcopy by (rewrite len_ztake; len_lia). cbn [bind]. apply wp_Ok.
    exists (Stored chunk). cbn [chunk_sound chunk_value]. split; [split; [done|lia]|]. done.
  - eapply wp_mono; [|by apply wp_decode_chunk]. intros [written target'] (ts & Hts & -> & ->).
    assert (tokens_ok (len target) (len (@nil Z)) ts) as Hok by done. pose proof (len_expand _ _ _ Hok) as Hl.
    assert (0 + sizes ts <= len target) as Hlim by (apply tokens_ok_limit; [len_lia|done]).
    change (len (@nil Z)) with 0 in Hl. exists (Packed ts). cbn [chunk_sound chunk_value].
    split; [by apply (tokens_ok_fits (len target)); [|lia]|]. split; [done|]. split; [lia|done].
Qed.

Lemma wp_decode_lznt1_chunk input out rest required source :
  bytes_ok input -> 0 <= source <= len input -> len input <= ISIZE_MAX -> len out + len rest <= ISIZE_MAX ->
  wp (decode_lznt1_chunk input (out ++ rest) required source (len out)) (chunk_read input out rest required source).
Proof.
  intros Hb Hs Hi Ho. unfold decode_lznt1_chunk. unfold ISIZE_MAX in *. pose proof (len_nonneg out). pose proof (len_nonneg rest).
  apply wp_bind, wp_add; [lia|]. wp_step. wp_step. rename a into header. cbv zeta. wp_step. wp_step.
  match goal with Hx : get_range _ _ _ = Some header |- _ => pose proof Hx as Hg; apply get_range_Some in Hg as (_ & Hg & Hh) end.
  assert (bytes_ok header) as Hhb by (rewrite Hh; auto with zse).
  assert (0 <= Z.land (le_val header) 0xfff) as Hsz by (apply Z.land_nonneg; by right).
  assert (Z.land (le_val header) 0xfff < 4096) as Hsz2.
  { change 0xfff with (Z.ones 12). rewrite Z.land_ones by lia. by apply Z.mod_pos_bound. }
  apply wp_bind, wp_add; [lia|]. wp_step. wp_step. rename a into chunk.
  match goal with Hx : get_range _ _ _ = Some chunk |- _ => pose proof (get_range_len _ _ _ _ Hx) as Hcl; apply get_range_Some in Hx as (_ & Hce & Hcs) end.
  apply wp_bind, wp_add; [unfold CHUNK; lia|]. wp_step. b2p.
  destruct (target_of out rest) as (Hslice & Hrest & Htl). rewrite Hslice. cbn [bind].
  set (n := Z.min CHUNK (len rest)) in *. set (target := ztake n rest) in *.
  apply wp_bind. eapply wp_mono; [|apply wp_chunk_body; [rewrite Hcs; auto with zse|lia|unfold ISIZE_MAX; lia]].
  intros [written target'] (c & Hc & -> & Hcl' & ->). pose proof (chunk_value_sound c Hc) as [_ Hcv].
  rewrite Hrest at 1. rewrite (copy_into_middle out target _ _ (len out)); [|done|len_lia]. cbn [bind].
  apply wp_bind, wp_add; [unfold CHUNK in *; lia|]. wp_step. apply wp_Ok. exists c. split; [done|]. split; [lia|]. split; [lia|].
  split; [b2p; match goal with Hx : _ || _ = true |- _ => apply orb_true_iff in Hx as [?|?] end; b2p; [by left|by right]|].
  split; [len_lia|].
  rewrite <- !app_assoc. f_equal. f_equal. rewrite Hrest at 2. rewrite zdrop_app. fold target. f_equal.
  by rewrite (zdrop_0 _ (zdrop n rest)) by lia.
Qed.

Lemma wp_decode_lznt1_loop fuel : forall input out rest required source,
  bytes_ok input -> 0 <= source <= len input -> len input <= ISIZE_MAX -> len out + len rest <= ISIZE_MAX ->
  len input - source < Z.of_nat fuel ->
  wp (decode_lznt1_loop fuel input (out ++ rest) required source (len out)) (fun output' => exists cs,
    Forall chunk_sound cs /\ full_chunks cs /\ len (lz_values cs) <= len rest /\ required <= len out + len (lz_values cs) /\
    (required <= len out -> cs = []) /\ output' = (out ++ lz_values cs) ++ zdrop (len (lz_values cs)) rest).
Proof.
  induction fuel as [|fuel IH]; intros input out rest required source Hb Hs Hi Ho Hfuel; [lia|]. cbn [decode_lznt1_loop].
  destruct (Z.leb_spec required (len out)) as [Hle|Hgt].
  { apply wp_Ok. exists []. change (lz_values []) with (@nil Z). rewrite len_nil, app_nil_r, zdrop_0 by lia.
    split; [done|]. split; [done|]. split; [apply len_nonneg|]. split; [lia|]. by split. }
  apply wp_bind. eapply wp_mono; [|by apply wp_decode_lznt1_chunk].
  intros [[source' reached] output'] (c & Hc & Hroom & Hs' & Hfull & -> & ->).
  eapply wp_mono; [|apply IH; [done|lia|done|rewrite len_zdrop; len_lia|lia]].
  intros output' (cs & Hcs & Hfcs & Hl & Hreq & Hlast & ->). rewrite len_zdrop in Hl. exists (c :: cs). rewrite lz_values_cons.
  pose proof (len_nonneg (chunk_value c)). split; [by constructor|].
  split; [split; [destruct Hfull as [?|?]; [by right|left; by apply Hlast]|done]|].
  split; [len_lia|]. split; [len_lia|]. split; [lia|].
  rewrite zdrop_zdrop, app_assoc by len_lia. f_equal. f_equal. len_lia.
Qed.
