(* ===== verification/NtfsStream.v ===== *)
(** Reading a compressed NTFS attribute, src/src/ntfs_compression.rs lines
    16-330: the run map that [CompressedStream::open] builds from the attributes
    of a file, the decoding of one compression unit, and positioned reads over
    the one-unit cache. The attributes come from the [ntfs] crate and the bytes
    from a positioned reader; both are arguments. *)

From S2P Require Import Prelude Bytes Lznt1.

Definition MAX_RUNS : Z := 1000000.

Record Run := { run_start : Z; run_end : Z; run_physical : option Z }.

Record CompressedStream := {
  cs_runs : list Run; cs_length : Z; cs_initialized : Z; cs_unit_size : Z; cs_cache : list Z;
  cs_cached_unit : option Z;
}.

Record Extent := {
  ex_start : Z; ex_end : Z; ex_length : Z; ex_initialized : Z; ex_runs : list Run;
}.

(** ** What the [ntfs] crate says of a file *)

Inductive NtfsAttributeType := AttributeList | Data | OtherAttribute.

(** A raw attribute: where it lies, its record, and its data runs (allocated
    size and position) if it is nonresident. *)
Record NtfsAttribute := {
  at_ty : result NtfsAttributeType; at_name_length : Z; at_position : option Z; at_record_data : list Z;
  at_value : result (option (list (result (Z * option Z))));
}.

(** An entry of an attribute list; [to_file] and [to_attribute] in one. *)
Record NtfsListEntry := {
  le_ty : result NtfsAttributeType; le_name_length : Z; le_attribute : result NtfsAttribute;
}.

(** An item of [attributes_raw]; the list is read when the type says so. *)
Record NtfsItem := { it_attribute : NtfsAttribute; it_list : result (list (result NtfsListEntry)) }.

(** ** The run map (lines 36-230) *)

Definition is_power_of_two (n : Z) : bool := (0 <? n) && (Z.land n (n - 1) =? 0).

(** The loop over the data runs: the runs, the offset behind them, the count. *)
Definition add_run (cluster end_ volume : Z) (s : list Run * Z * Z) (run : result (Z * option Z))
  : result (list Run * Z * Z) :=
  let '(runs, offset, run_count) := s in
  fail! negb (run_count <? MAX_RUNS) with Msg "NTFS run count exceeds the safety limit" [] in
  let! run_count := add run_count 1 in
  let! (size, physical) := run in
  fail! negb (negb (size =? 0) && (size mod cluster =? 0)) with Msg "invalid NTFS data run length" [] in
  let! next := ok_or (checked_add offset size) (Msg "NTFS run length overflow" []) in
  fail! negb (next <=? end_) with Msg "NTFS data run exceeds its extent" [] in
  fail! match physical with
        | Some physical => negb (match checked_add physical size with Some v => v <=? volume | None => false end)
        | None => false
        end with Msg "NTFS data run is outside the volume" [] in
  Ok (runs ++ [{| run_start := offset; run_end := next; run_physical := physical |}], next, run_count).

Record open_state := { op_seen : gset Z; op_extents : list Extent; op_run_count : Z }.

Definition add_extent (cluster volume : Z) (s : open_state) (attribute : NtfsAttribute) : result open_state :=
  let! position := ok_or (at_position attribute) (Msg "NTFS attribute has no disk position" []) in
  if bool_decide (position ∈ op_seen s) then Ok s
  else
    let seen := {[position]} ∪ op_seen s in
    fail! negb (len (op_extents s) <? MAX_RUNS) with Msg "NTFS extent count exceeds the safety limit" [] in
    let h := at_record_data attribute in
    let! nonresident := if 64 <=? len h then let! b := index h 8 in Ok (b =? 1) else Ok false in
    fail! negb nonresident with Msg "invalid compressed NTFS nonresident header" [] in
    let! flags := slice h 12 14 in
    let flags := le_val flags in
    fail! negb ((Z.land flags 0x00ff =? 1) && (Z.land flags 0x4000 =? 0))
      with Msg "unsupported NTFS compression format or encrypted stream" [] in
    let! exponent := index h 34 in
    let! first_vcn := slice h 16 24 in
    fail! negb ((exponent =? 4) || ((exponent =? 0) && negb (bytes_eqb first_vcn (zrepeat 8 0))))
      with Msg "unsupported NTFS compression unit exponent {}" [exponent] in
    let! start := ok_or (checked_mul (le_val first_vcn) cluster) (Msg "NTFS VCN overflow" []) in
    let! last_vcn := slice h 24 32 in
    let! end_ := ok_or
      (match checked_add (le_val last_vcn) 1 with Some v => checked_mul v cluster | None => None end)
      (Msg "NTFS VCN overflow" []) in
    let! length := slice h 48 56 in
    let! initialized := slice h 56 64 in
    let! run_offset := slice h 32 34 in
    let run_offset := le_val run_offset in
    fail! negb ((64 <=? run_offset) && (run_offset <? len h)) with Msg "invalid NTFS mapping-pairs offset" [] in
    let! value := at_value attribute in
    match value with
    | None => Err (Msg "compressed NTFS extent is not a raw nonresident attribute" [])
    | Some data_runs =>
        let! (runs, offset, run_count) := fold_res (add_run cluster end_ volume) ([], start, op_run_count s) data_runs in
        fail! negb (offset =? end_) with Msg "NTFS run map does not cover its declared extent" [] in
        Ok {| op_seen := seen;
              op_extents := op_extents s ++ [{| ex_start := start; ex_end := end_; ex_length := le_val length;
                ex_initialized := le_val initialized; ex_runs := runs |}];
              op_run_count := run_count |}
    end.

(** An entry of an attribute list. [count] is a [usize]-like i32 that the limit
    keeps small. *)
Definition open_entry (cluster volume : Z) (s : open_state * Z) (entry : result NtfsListEntry)
  : result (open_state * Z) :=
  let '(s, count) := s in
  let! count := add count 1 in
  fail! negb (count <=? MAX_RUNS) with Msg "NTFS attribute list exceeds the safety limit" [] in
  let! entry := entry in
  let! ty := le_ty entry in
  match ty with
  | Data =>
      if negb (le_name_length entry =? 0) then Ok (s, count)
      else
        let! attribute := le_attribute entry in
        let! s := add_extent cluster volume s attribute in
        Ok (s, count)
  | _ => Ok (s, count)
  end.

Definition open_item (cluster volume : Z) (s : open_state) (item : result NtfsItem) : result open_state :=
  let! item := item in
  let! ty := at_ty (it_attribute item) in
  match ty with
  | AttributeList =>
      let! entries := it_list item in
      let! (s, _) := fold_res (open_entry cluster volume) (s, 0) entries in
      Ok s
  | Data =>
      if at_name_length (it_attribute item) =? 0 then add_extent cluster volume s (it_attribute item) else Ok s
  | OtherAttribute => Ok s
  end.

(** [sort_by_key], which is stable: an extent goes behind its equals. *)
Fixpoint insert_extent (x : Extent) (l : list Extent) : list Extent :=
  match l with
  | [] => [x]
  | y :: l => if ex_start x <? ex_start y then x :: y :: l else y :: insert_extent x l
  end.
Definition sort_extents (l : list Extent) : list Extent := foldl (fun l x => insert_extent x l) [] l.

Definition join_extent (s : list Run * Z) (extent : Extent) : result (list Run * Z) :=
  let '(runs, end_) := s in
  fail! negb (ex_start extent =? end_) with Msg "NTFS compressed extents overlap or have a gap at byte {end}" [end_] in
  let end_ := ex_end extent in
  fail! negb (saturating_add (len runs) (len (ex_runs extent)) <=? MAX_RUNS)
    with Msg "NTFS run count exceeds the safety limit" [] in
  Ok (runs ++ ex_runs extent, end_).

(** [cluster] is the u32 cluster size of the volume, [volume] its size. *)
Definition CompressedStream_open (cluster volume : Z) (items : list (result NtfsItem)) : result CompressedStream :=
  fail! negb (is_power_of_two cluster && ((512 <=? cluster) && (cluster <=? 4096)))
    with Msg "unsupported NTFS compression cluster size {cluster}" [cluster] in
  let! s := fold_res (open_item cluster volume) {| op_seen := ∅; op_extents := []; op_run_count := 0 |} items in
  let extents := sort_extents (op_extents s) in
  let! first := ok_or (head extents) (Msg "compressed NTFS stream has no data extents" []) in
  fail! negb (ex_start first =? 0) with Msg "compressed NTFS stream is missing its first extent" [] in
  let length := ex_length first in
  let initialized := ex_initialized first in
  fail! negb (initialized <=? length) with Msg "NTFS initialized length exceeds file length" [] in
  let! unit_size := mul cluster 16 in
  let! unit_size := ok_or (usize_try_from unit_size) (Foreign "TryFromIntError") in
  let! (runs, end_) := fold_res join_extent ([], 0) extents in
  let! required := ok_or (checked_mul (div_ceil initialized unit_size) unit_size) (Msg "NTFS compression length overflow" []) in
  fail! negb (required <=? end_) with Msg "NTFS compressed run map ends before initialized data" [] in
  Ok {| cs_runs := runs; cs_length := length; cs_initialized := initialized; cs_unit_size := unit_size;
        cs_cache := zrepeat unit_size 0; cs_cached_unit := None |}.

(** ** Reading (lines 232-322) *)

(** [reader.seek(SeekFrom::Start(p))?; reader.read_exact(..)?] for [n] bytes.
    Every use seeks first, so the cursor is no state. *)
Class Disk := disk_read : Z -> Z -> result (list Z).

Class DiskLaws `{Disk} := {
  wp_disk_read : forall p n, 0 <= p -> 0 <= n <= ISIZE_MAX -> wp (disk_read p n) (fun bytes => len bytes = n /\ bytes_ok bytes);
}.

Section read.
Context `{Disk}.

Fixpoint load_runs (runs : list Run) (end_ position : Z) (packed : list Z) (sparse : bool)
  : result (Z * list Z * bool) :=
  match runs with
  | [] => Ok (position, packed, sparse)
  | run :: runs =>
      if position =? end_ then Ok (position, packed, sparse)
      else
        fail! negb ((run_start run <=? position) && (position <? run_end run))
          with Msg "missing NTFS compression run" [] in
        let! count := sub (Z.min (run_end run) end_) position in
        match run_physical run with
        | Some physical =>
            fail! sparse with Msg "allocated NTFS clusters follow sparse padding within a compression unit" [] in
            let! within := sub position (run_start run) in
            let! from := ok_or (checked_add physical within) (Msg "NTFS physical offset overflow" []) in
            let! bytes := disk_read from count in
            let! position := add position count in
            load_runs runs end_ position (packed ++ bytes) sparse
        | None =>
            let! position := add position count in
            load_runs runs end_ position packed true
        end
  end.

(** [partition_point(|run| run.end <= start)] on runs in order. *)
Fixpoint runs_from (start : Z) (runs : list Run) : list Run :=
  match runs with
  | [] => []
  | run :: rest => if run_end run <=? start then runs_from start rest else runs
  end.

Definition set_cache (self : CompressedStream) (cache : list Z) (unit_ : option Z) : CompressedStream := {|
  cs_runs := cs_runs self; cs_length := cs_length self; cs_initialized := cs_initialized self;
  cs_unit_size := cs_unit_size self; cs_cache := cache; cs_cached_unit := unit_ |}.

(** What a unit's runs hold, and whether they end sparse. *)
Definition packed_unit (self : CompressedStream) (unit_ : Z) : result (Z * list Z * bool) :=
  let! start := ok_or (checked_mul unit_ (cs_unit_size self)) (Msg "NTFS unit offset overflow" []) in
  let! end_ := ok_or (checked_add start (cs_unit_size self)) (Msg "NTFS unit offset overflow" []) in
  let! (position, packed, sparse) := load_runs (runs_from start (cs_runs self)) end_ start [] false in
  fail! negb (position =? end_) with Msg "truncated NTFS compression unit run map" [] in
  Ok (start, packed, sparse).

(** The new cache; [cached_unit] is the caller's. *)
Definition load_unit (self : CompressedStream) (unit_ : Z) : result (list Z) :=
  let! (start, packed, sparse) := packed_unit self unit_ in
  let cache := zrepeat (len (cs_cache self)) 0 in
  if len packed =? 0 then Ok cache
  else if negb sparse then copy_from_slice cache packed
  else
    let! initialized := sub (cs_initialized self) start in
    let required := Z.min initialized (cs_unit_size self) in
    decode_lznt1 packed cache required.

(** The cache where loading fails: as it was if the runs cannot be read, and else
    what has been decoded. *)
Definition spoiled_cache (self : CompressedStream) (unit_ : Z) : list Z :=
  match packed_unit self unit_ with
  | Ok (start, packed, _) =>
      lznt1_left packed (zrepeat (len (cs_cache self)) 0) (Z.min (cs_initialized self - start) (cs_unit_size self))
  | _ => cs_cache self
  end.

(** What is read, and the stream that it leaves, with an error too. *)
Definition read_m (A : Type) : Type := result A * CompressedStream.
Definition read_bind {A B} (m : read_m A) (k : A -> CompressedStream -> read_m B) : read_m B :=
  match m with
  | (Ok a, self) => k a self
  | (Err e, self) => (Err e, self)
  | (Panic, self) => (Panic, self)
  | (OutOfFuel, self) => (OutOfFuel, self)
  end.

(** [cached_unit] changes only where loading succeeds. *)
Definition cache_unit (self : CompressedStream) (unit_ : Z) : read_m unit :=
  if bool_decide (cs_cached_unit self = Some unit_) then (Ok tt, self)
  else
    match load_unit self unit_ with
    | Ok cache => (Ok tt, set_cache self cache (Some unit_))
    | r => ((let! _ := with_context "decoding NTFS compression unit {unit}" [unit_] r in Ok tt),
            set_cache self (spoiled_cache self unit_) (cs_cached_unit self))
    end.

(** The bytes of the cache that a round copies. *)
Definition cached_bytes (self : CompressedStream) (position remaining : Z) : result (list Z) :=
  let within := position mod cs_unit_size self in
  let! room := sub (cs_unit_size self) within in
  let! initialized := sub (cs_initialized self) position in
  let count := Z.min (Z.min remaining room) initialized in
  let! end_ := add within count in
  slice (cs_cache self) within end_.

(** The loop of [read_exact_at]: what has been copied of the buffer, which an error
    drops. A round copies a byte at least, so the length bounds the rounds. *)
Fixpoint read_loop (fuel : nat) (self : CompressedStream) (position remaining : Z) : read_m (list Z) :=
  if remaining =? 0 then (Ok [], self)
  else
    match fuel with
    | O => (OutOfFuel, self)
    | S fuel =>
        if cs_initialized self <=? position then (Ok (zrepeat remaining 0), self)
        else
          read_bind (cache_unit self (position / cs_unit_size self)) (fun _ self =>
          read_bind (cached_bytes self position remaining, self) (fun bytes self =>
          read_bind (add position (len bytes), self) (fun position self =>
          read_bind (read_loop fuel self position (remaining - len bytes)) (fun rest self => (Ok (bytes ++ rest), self)))))
    end.

(** Reads [n] bytes. *)
Definition read_exact_at (self : CompressedStream) (offset n : Z) : read_m (list Z) :=
  if negb (match checked_add offset n with Some end_ => end_ <=? cs_length self | None => false end)
  then (Err (Msg "read exceeds compressed NTFS file length" []), self)
  else read_loop (Z.to_nat n) self offset n.
End read.
