(* ===== verification/NtfsProps.v ===== *)
(** Compressed NTFS attributes (src/src/ntfs_compression.rs): run maps and cached
    reads, the invariant of a stream, that the cache is invisible; the properties,
    each with a concrete instance where it has hypotheses. *)

From S2P Require Import Prelude Bytes Extents Lznt1 Lznt1Facts NtfsStream.

(** ** Run maps *)

(** [runs] follow each other from [a] to [b], none empty. *)
Fixpoint covers (a : Z) (runs : list Run) (b : Z) : Prop :=
  match runs with
  | [] => a = b
  | run :: runs =>
      run_start run = a /\ a < run_end run /\ (forall p, run_physical run = Some p -> 0 <= p) /\
      covers (run_end run) runs b
  end.

Lemma covers_le a runs b : covers a runs b -> a <= b.
Proof.
  revert a. induction runs as [|run runs IH]; intros a; cbn; [lia|]. intros (_ & ? & _ & Hc%IH). lia.
Qed.

Lemma covers_app a runs b runs' c : covers a runs b -> covers b runs' c -> covers a (runs ++ runs') c.
Proof.
  revert a. induction runs as [|run runs IH]; intros a; cbn; [by intros ->|]. intros (? & ? & ? & Hc) Hc'.
  split_and!; auto.
Qed.

(** What an opened stream satisfies. *)
Definition stream_ok (s : CompressedStream) : Prop :=
  1 <= cs_unit_size s <= 65536 /\ is_u64 (cs_length s) /\ 0 <= cs_initialized s <= cs_length s /\
  len (cs_cache s) = cs_unit_size s /\
  exists b, b <= U64_MAX /\ covers 0 (cs_runs s) b /\
    div_ceil (cs_initialized s) (cs_unit_size s) * cs_unit_size s <= b.

(** The part of the runs at [start] or behind it. *)
Definition runs_at (start : Z) (runs : list Run) (b : Z) : Prop :=
  exists a, covers a runs b /\ a <= start /\ match runs with [] => True | run :: _ => start < run_end run end.

Lemma runs_from_spec start runs a b :
  covers a runs b -> a <= start < b -> runs_at start (runs_from start runs) b.
Proof.
  revert a. induction runs as [|run runs IH]; intros a; cbn [covers runs_from]; [lia|].
  intros (Hs & Hlt & Hp & Hc) Hr. destruct (Z.leb_spec (run_end run) start).
  - apply (IH (run_end run)); [done|lia].
  - exists a. split; [|lia]. by split_and!.
Qed.

Section read.
Context `{DiskLaws}.

Lemma wp_load_runs runs end_ : forall position packed sparse b,
  0 <= position <= end_ -> end_ - position <= ISIZE_MAX -> end_ <= b -> b <= U64_MAX -> bytes_ok packed ->
  (position < end_ -> runs_at position runs b) ->
  wp (load_runs runs end_ position packed sparse) (fun '(position', packed', sparse') =>
    position' = end_ /\ bytes_ok packed' /\ len packed <= len packed' <= len packed + (end_ - position) /\
    (sparse' = false -> sparse = false /\ len packed' = len packed + (end_ - position))).
Proof.
  induction runs as [|run runs IH]; intros position packed sparse b Hp Hi He Hb Hbytes Hat; cbn [load_runs].
  - apply wp_Ok. destruct (decide (position = end_)) as [->|Hne]; [split; [done|split; [done|split; [lia|intros ->; split; [done|lia]]]]|].
    destruct Hat as (a & Hc & Ha & _); [lia|]. cbn in Hc. lia.
  - destruct (Z.eqb_spec position end_) as [->|Hne]; [apply wp_Ok; split; [done|split; [done|split; [lia|intros ->; split; [done|lia]]]]|].
    destruct Hat as (a & (Hs & Hlt & Hphys & Hc) & Ha & Hend); [lia|].
    assert (forall q, q = Z.min (run_end run) end_ -> q < end_ -> runs_at q runs b) as Hnext.
    { intros q -> Hq. exists (run_end run). split; [done|]. split; [lia|]. destruct runs as [|run2 runs]; [done|].
      cbn in Hc. lia. }
    rewrite (proj2 (Z.leb_le _ _)), (proj2 (Z.ltb_lt _ _)) by lia. cbn [andb negb].
    apply wp_bind, wp_sub; [lia|]. destruct (run_physical run) as [physical|].
    + specialize (Hphys _ eq_refl). wp_step. apply wp_bind, wp_sub; [lia|]. wp_step. wp_step.
      match goal with Hx : checked_add _ _ = Some _ |- _ => apply checked_add_Some in Hx as [_ ->] end.
      apply wp_bind. eapply wp_mono; [|apply wp_disk_read; lia]. intros bytes [Hl Hbb].
      apply wp_bind, wp_add; [lia|]. eapply wp_mono; [|apply (IH _ _ _ b)]; try lia.
      * intros [[p' k'] s'] (-> & Hk & Hlen & Hns). rewrite !len_app in *. split_and!; try done; try lia. intros [? ?]%Hns. split; [done|lia].
      * apply Forall_app. by split.
      * apply Hnext. lia.
    + apply wp_bind, wp_add; [lia|]. eapply wp_mono; [|apply (IH _ _ _ b)]; try lia; try done.
      * intros [[p' k'] s'] (-> & Hk & Hlen & Hns). split_and!; try done; try lia. by intros [? ?]%Hns.
      * apply Hnext. lia.
Qed.

(** ** A unit *)

Lemma unit_in_map s unit_ :
  stream_ok s -> 0 <= unit_ -> unit_ * cs_unit_size s < cs_initialized s ->
  exists b, covers 0 (cs_runs s) b /\ b <= U64_MAX /\ unit_ * cs_unit_size s + cs_unit_size s <= b.
Proof.
  intros ((Hu & _) & _ & _ & _ & b & Hb & Hc & Hreq) Hn Hi. exists b. split; [done|]. split; [done|].
  assert (unit_ + 1 <= div_ceil (cs_initialized s) (cs_unit_size s)) as Hdiv.
  { pose proof (div_ceil_bounds (cs_initialized s) (cs_unit_size s) ltac:(lia)). nia. }
  nia.
Qed.

Lemma wp_load_unit s unit_ :
  stream_ok s -> 0 <= unit_ -> unit_ * cs_unit_size s < cs_initialized s ->
  wp (load_unit s unit_) (fun cache => len cache = cs_unit_size s /\ bytes_ok cache).
Proof.
  intros Hok Hn Hi. destruct (unit_in_map s unit_ Hok Hn Hi) as (b & Hc & Hb & He).
  destruct Hok as (Hu & Hlen & Hinit & Hcache & _). unfold load_unit, packed_unit. wp_step. wp_step. wp_step.
  match goal with Hx : checked_mul _ _ = Some _ |- _ => apply checked_mul_Some in Hx as [_ ->] end. wp_step. wp_step.
  match goal with Hx : checked_add _ _ = Some _ |- _ => apply checked_add_Some in Hx as [_ ->] end.
  set (start := unit_ * cs_unit_size s) in *. assert (0 <= start) by (unfold start; nia).
  apply wp_bind. eapply wp_mono; [|apply (wp_load_runs _ _ _ _ _ b); [lia|unfold ISIZE_MAX; lia|lia|done|constructor|]].
  2: { intros _. apply (runs_from_spec start _ 0 b); [done|lia]. }
  intros [[position packed] sparse] (-> & Hp & Hpl & Hns). rewrite len_nil in *. wp_step. apply wp_Ok. cbv zeta.
  rewrite Hcache. apply wp_if; intros _; [apply wp_Ok; split; [rewrite len_zrepeat; lia|auto with zse]|].
  apply wp_if; intros Hsp.
  - apply negb_true_iff in Hsp. destruct (Hns Hsp) as [_ Hl].
    apply wp_copy_from_slice; [rewrite len_zrepeat; lia|]. split; [lia|done].
  - apply wp_bind, wp_sub; [lia|]. unfold decode_lznt1. wp_step.
    pose proof (wp_decode_lznt1_loop (S (length packed)) packed [] (zrepeat (cs_unit_size s) 0)
      (Z.min (cs_initialized s - start) (cs_unit_size s)) 0 Hp) as Hd.
    change (len (@nil Z)) with 0 in Hd. rewrite len_zrepeat in Hd.
    eapply wp_mono; [|apply Hd; unfold ISIZE_MAX, len in *; lia].
    intros cache (cs & Hcs & _ & Hvl & _ & _ & ->). cbn [app]. split; [rewrite len_app, len_zdrop, len_zrepeat; len_lia|].
    apply Forall_app. split; [|auto with zse]. apply Forall_concat, Forall_map. eapply Forall_impl; [exact Hcs|]. apply chunk_value_sound.
Qed.

(** ** The cache *)

(** What a failed decoding leaves is as long as the output. *)
Lemma set_index_Ok_len {E A} (l l' : list A) i v : set_index (E:=E) l i v = Ok l' -> len l' = len l.
Proof. unfold set_index. case_match; [|done]. intros [= <-]. b2p. len_lia. Qed.

Lemma copy_into_Ok_len {E A} (l s l' : list A) off : copy_into (E:=E) l off s = Ok l' -> len l' = len l.
Proof. unfold copy_into. case_match; [|done]. intros [= <-]. b2p. len_lia. Qed.

(** Decoding a token keeps the length and does not step back. *)
Definition decoded_on (s s' : chunk_state) : Prop :=
  len (ck_output s') = len (ck_output s) /\ ck_destination s <= ck_destination s'.

Lemma copy_match_len n : forall output destination distance out,
  copy_match n output destination distance = Ok out -> len out.1 = len output /\ destination <= out.2.
Proof.
  induction n as [|n IH]; intros output destination distance out; cbn [copy_match]; [by intros [= <-]|].
  intros (from & _ & (byte & _ & (o & Ho & (d & Hd & Hc)%bind_Ok)%bind_Ok)%bind_Ok)%bind_Ok.
  apply set_index_Ok_len in Ho. apply add_Ok in Hd as [_ ->]. apply IH in Hc as [Hl Hd]. split; [congruence|lia].
Qed.

Lemma decode_token_on flags bit input s s' : decode_token flags bit input s = Ok s' -> decoded_on s s'.
Proof.
  unfold decode_token, decoded_on. case_match.
  - case_match; [done|]. intros (byte & _ & (o & Ho & (d & Hd & (x & _ & [= <-])%bind_Ok)%bind_Ok)%bind_Ok)%bind_Ok.
    apply set_index_Ok_len in Ho. apply add_Ok in Hd as [_ ->]. cbn. split; [done|lia].
  - intros (after & _ & (token & _ & Ht)%bind_Ok)%bind_Ok. cbv zeta in Ht. case_match; [done|].
    apply bind_Ok in Ht as (room & _ & Ht). case_match; [done|]. apply bind_Ok in Ht as ([o d] & Hc & [= <-]).
    by apply copy_match_len in Hc.
Qed.

Lemma decode_bits_on bits flags input : forall s s', decode_bits bits flags input s = Ok s' -> decoded_on s s'.
Proof.
  unfold decoded_on. induction bits as [|bit bits IH]; intros s s'; cbn [decode_bits]; [by intros [= <-]|]. case_match; [by intros [= <-]|].
  intros (s1 & [? ?]%decode_token_on & [? ?]%IH)%bind_Ok. split; [congruence|lia].
Qed.

Lemma decode_groups_on fuel input : forall s s', decode_groups fuel input s = Ok s' -> decoded_on s s'.
Proof.
  unfold decoded_on. induction fuel as [|fuel IH]; intros s s'; cbn [decode_groups]; (case_match; [by intros [= <-]|]); [done|].
  intros (flags & _ & (source & _ & Hc)%bind_Ok)%bind_Ok. case_match; [done|].
  apply bind_Ok in Hc as (s1 & [? ?]%decode_bits_on & [? ?]%IH). cbn in *. split; [congruence|lia].
Qed.

Lemma len_bits_left bits flags input : forall s, len (bits_left bits flags input s) = len (ck_output s).
Proof.
  induction bits as [|bit bits IH]; intros s; cbn [bits_left]; [done|]. case_match; [done|].
  destruct (decode_token flags bit input s) as [s1| | |] eqn:Ht; try done. rewrite IH. by apply decode_token_on in Ht as [? _].
Qed.

Lemma len_groups_left fuel input : forall s, len (groups_left fuel input s) = len (ck_output s).
Proof.
  induction fuel as [|fuel IH]; intros s; cbn [groups_left]; [done|]. case_match; [done|]. cbv zeta.
  match goal with |- context [decode_bits ?b ?f ?i ?s0] => set (s0' := s0); destruct (decode_bits b f i s0') as [s1| | |] eqn:Hb end;
    try (by rewrite len_bits_left). rewrite IH. by apply decode_bits_on in Hb as [-> _].
Qed.

Lemma len_chunk_left input output source destination : 0 <= destination -> len (chunk_left input output source destination) = len output.
Proof.
  intros Hd. unfold chunk_left. case_match; [|done]. cbv zeta. case_match; [|done]. case_match; [|done]. case_match; [done|].
  match goal with Hg : get_range output _ _ = Some ?target |- _ => apply get_range_len in Hg as Ht; apply get_range_Some in Hg as (? & ? & _);
    match goal with |- context [if Z.land ?h 0x8000 =? 0 then ?a else ?b] =>
      assert (len (if Z.land h 0x8000 =? 0 then a else b) = len target) as Hl end end.
  { case_match; [|by rewrite len_groups_left]. case_match; [|done]. b2p. len_lia. }
  rewrite !len_app, Hl, len_ztake, len_zdrop. lia.
Qed.

Lemma decode_lznt1_chunk_len input output required source destination out :
  decode_lznt1_chunk input output required source destination = Ok out -> 0 <= destination -> len out.2 = len output /\ 0 <= out.1.2.
Proof.
  unfold decode_lznt1_chunk. intros (after & _ & (header & _ & Hc)%bind_Ok)%bind_Ok Hd. cbv zeta in Hc. case_match; [done|]. case_match; [done|].
  apply bind_Ok in Hc as (after' & _ & (chunk & _ & (limit & _ & Hc)%bind_Ok)%bind_Ok). case_match; [done|].
  apply bind_Ok in Hc as (target & _ & ([written target'] & Hw & (o & Ho & (reached & Hr & Hc)%bind_Ok)%bind_Ok)%bind_Ok).
  case_match; [done|]. injection Hc as <-. cbn [fst snd]. apply copy_into_Ok_len in Ho. apply add_Ok in Hr as [_ ->]. split; [done|].
  assert (0 <= written); [|lia]. case_match.
  - case_match; [done|]. apply bind_Ok in Hw as (t & _ & [= <- _]). apply len_nonneg.
  - unfold decode_chunk in Hw. by apply bind_Ok in Hw as (s1 & [_ Hs]%decode_groups_on & [= <- _]).
Qed.

Lemma len_lznt1_left input output required : len (lznt1_left input output required) = len output.
Proof.
  unfold lznt1_left. case_match; [|done]. generalize (S (length input)) as fuel. intros fuel.
  assert (forall output source destination, 0 <= destination -> len (lznt1_loop_left fuel input output required source destination) = len output) as Hx;
    [|by apply Hx].
  induction fuel as [|fuel IH]; intros o source destination Hd; cbn [lznt1_loop_left]; [done|]. case_match; [done|].
  destruct (decode_lznt1_chunk _ _ _ _ _) as [[[s d] o']| | |] eqn:Hc; try (by apply len_chunk_left).
  apply decode_lznt1_chunk_len in Hc as [Hl Hd']; [|done]. cbn [fst snd] in *. by rewrite IH.
Qed.

(** The bytes of the stream, each from its unit alone. *)
Definition content_byte (s : CompressedStream) (i : Z) : result Z :=
  if cs_initialized s <=? i then Ok 0
  else let! bytes := load_unit s (i / cs_unit_size s) in Ok (byte_at bytes (i mod cs_unit_size s)).

Definition coherent (s : CompressedStream) : Prop :=
  match cs_cached_unit s with None => True | Some unit_ => load_unit s unit_ = Ok (cs_cache s) end.

(** [s'] is [s] with another unit in its cache. *)
Definition recached (s s' : CompressedStream) : Prop :=
  s' = set_cache s (cs_cache s') (cs_cached_unit s') /\ len (cs_cache s') = len (cs_cache s).

Lemma recached_refl s : recached s s.
Proof. split; [by destruct s|done]. Qed.

Lemma recached_trans s s' s'' : recached s s' -> recached s' s'' -> recached s s''.
Proof. intros [H1 L1] [H2 L2]. split; [|congruence]. rewrite H2, H1. by destruct s''. Qed.

Lemma recached_set s cache unit_ : len cache = len (cs_cache s) -> recached s (set_cache s cache unit_).
Proof. done. Qed.

Lemma recached_packed s s' unit_ : recached s s' -> packed_unit s' unit_ = packed_unit s unit_.
Proof. intros [-> _]. done. Qed.

Lemma recached_load s s' unit_ : recached s s' -> load_unit s' unit_ = load_unit s unit_.
Proof. intros Hr. unfold load_unit. rewrite (recached_packed s s') by done. destruct Hr as [H1 L1]. rewrite L1. rewrite H1. done. Qed.

Lemma recached_content s s' i : recached s s' -> content_byte s' i = content_byte s i.
Proof. intros Hr. unfold content_byte. rewrite (recached_load s s') by done. destruct Hr as [-> _]. done. Qed.

Lemma recached_ok s s' : recached s s' -> stream_ok s -> stream_ok s'.
Proof. intros [H1 L1] (Hu & Hl & Hi & Hc & Hb). unfold stream_ok. rewrite L1. rewrite H1. by cbn. Qed.

(** A failed load leaves the cache its length. *)
Lemma recached_spoiled s unit_ unit' : recached s (set_cache s (spoiled_cache s unit_) unit').
Proof.
  apply recached_set. unfold spoiled_cache. destruct (packed_unit s unit_) as [[[start packed] sparse]|e| |]; try done.
  rewrite len_lznt1_left, len_zrepeat. pose proof (len_nonneg (cs_cache s)). lia.
Qed.

(** Some position of a range is in a unit that cannot be decoded. *)
Definition undecodable (s : CompressedStream) (position n : Z) : Prop :=
  exists i, position <= i < position + n /\ is_err (content_byte s i) = true.

(** Where a read has got to: what it has read, with a cache that is right; or a unit
    of the range cannot be decoded. *)
Definition read_post (s : CompressedStream) (position remaining : Z) (out : read_m (list Z)) : Prop :=
  let '(r, s') := out in recached s s' /\
  match r with
  | Ok bytes => coherent s' /\ len bytes = remaining /\ forall i, 0 <= i < remaining -> content_byte s (position + i) = Ok (byte_at bytes i)
  | Err _ => undecodable s position remaining
  | _ => False
  end.

(** The unit of a position, in the cache afterwards. *)
Lemma cache_unit_cases s position :
  stream_ok s -> coherent s -> 0 <= position < cs_initialized s ->
  let unit_ := position / cs_unit_size s in
  (exists s', cache_unit s unit_ = (Ok tt, s') /\ recached s s' /\ coherent s' /\ load_unit s unit_ = Ok (cs_cache s')) \/
  (exists e s', cache_unit s unit_ = (Err e, s') /\ recached s s' /\ is_err (content_byte s position) = true).
Proof.
  intros Hok Hco Hp unit_. assert (1 <= cs_unit_size s) as Hus by apply Hok. unfold cache_unit. case_bool_decide as Hc.
  { left. exists s. split; [done|]. split; [apply recached_refl|]. split; [done|]. unfold coherent in Hco. by rewrite Hc in Hco. }
  assert (wp (load_unit s unit_) (fun cache => len cache = cs_unit_size s /\ bytes_ok cache)) as Hw.
  { apply wp_load_unit; [done|apply Z.div_pos; lia|]. unfold unit_. pose proof (Z.mul_div_le position (cs_unit_size s) ltac:(lia)). lia. }
  destruct (load_unit s unit_) as [cache|e| |] eqn:Hload; try done.
  - left. eexists. split; [done|]. destruct Hw as [Hl _].
    assert (recached s (set_cache s cache (Some unit_))) as Hr by (apply recached_set; rewrite Hl; symmetry; apply Hok).
    split; [done|]. split; [|done]. unfold coherent. cbn [set_cache cs_cached_unit cs_cache]. by rewrite (recached_load s).
  - right. eexists _, _. split; [done|]. split; [apply recached_spoiled|]. unfold content_byte. rewrite (proj2 (Z.leb_gt _ _)) by lia.
    fold unit_. by rewrite Hload.
Qed.

(** The bytes of a round: those of the positions in the cached unit, one at least. *)
Lemma cached_bytes_Ok s s1 position remaining :
  stream_ok s -> recached s s1 -> load_unit s (position / cs_unit_size s) = Ok (cs_cache s1) ->
  0 <= position < cs_initialized s -> 0 < remaining -> position + remaining <= cs_length s ->
  exists bytes, cached_bytes s1 position remaining = Ok bytes /\ 1 <= len bytes <= remaining /\
    forall i, 0 <= i < len bytes -> content_byte s (position + i) = Ok (byte_at bytes i).
Proof.
  intros Hok Hr1 Hload Hp Hn Hlen. assert (1 <= cs_unit_size s <= 65536) as Hus by apply Hok. assert (cs_length s <= U64_MAX) as Hl64 by apply Hok.
  assert (len (cs_cache s1) = cs_unit_size s) as Hcache by (rewrite (proj2 Hr1); apply Hok). unfold cached_bytes.
  assert (cs_unit_size s1 = cs_unit_size s /\ cs_initialized s1 = cs_initialized s) as [-> ->] by (by rewrite (proj1 Hr1)).
  set (us := cs_unit_size s) in *. pose proof (Z.mod_pos_bound position us ltac:(lia)) as Hw. set (within := position mod us) in *.
  unfold sub. rewrite !(proj2 (Z.leb_le _ _)) by lia. cbn [bind].
  set (count := Z.min (Z.min remaining (us - within)) (cs_initialized s - position)). assert (1 <= count) as Hcount by lia.
  unfold add. rewrite (proj2 (Z.leb_le _ _)) by lia. cbn [bind].
  exists (ztake count (zdrop within (cs_cache s1))). assert (len (ztake count (zdrop within (cs_cache s1))) = count) as Hbl by (rewrite len_ztake, len_zdrop; lia).
  split; [apply slice_Ok; split; [lia|]; split; [lia|]; f_equal; lia|]. rewrite Hbl. split; [lia|]. intros i Hi.
  unfold content_byte. rewrite (proj2 (Z.leb_gt _ _)) by lia. fold us.
  pose proof (Z.div_mod position us ltac:(lia)) as Hdm. fold within in Hdm.
  assert ((position + i) / us = position / us /\ (position + i) mod us = within + i) as [-> ->].
  { assert (position + i = us * (position / us) + (within + i)) as -> by lia.
    rewrite Z.add_comm, Z.mul_comm, Z.div_add, Z.mod_add by lia. rewrite Z.div_small, Z.mod_small by lia. lia. }
  rewrite Hload. cbn [bind]. f_equal. rewrite byte_at_ztake, byte_at_zdrop by lia. done.
Qed.

Lemma undecodable_mono s s1 p n q m : recached s s1 -> p <= q -> q + m <= p + n -> undecodable s1 q m -> undecodable s p n.
Proof. intros Hr Hp Hn (i & Hi & He). exists i. split; [lia|]. by rewrite <- (recached_content s s1). Qed.

Lemma read_loop_post fuel : forall s position remaining,
  stream_ok s -> coherent s -> 0 <= position -> 0 <= remaining <= Z.of_nat fuel -> position + remaining <= cs_length s ->
  read_post s position remaining (read_loop fuel s position remaining).
Proof.
  induction fuel as [|fuel IH]; intros s position remaining Hok Hco Hp Hr Hlen; cbn [read_loop];
    (destruct (Z.eqb_spec remaining 0) as [->|Hnz]; [split; [apply recached_refl|]; split; [done|]; split; [done|]; lia|]); [lia|].
  destruct (Z.leb_spec (cs_initialized s) position) as [Hle|Hlt].
  { split; [apply recached_refl|]. split; [done|]. split; [rewrite len_zrepeat; lia|]. intros i Hi.
    unfold content_byte. rewrite (proj2 (Z.leb_le _ _)) by lia. by rewrite byte_at_zeros. }
  destruct (cache_unit_cases s position Hok Hco ltac:(lia)) as [(s1 & -> & Hr1 & Hco1 & Hload)|(e & s1 & -> & Hr1 & He)]; cbn [read_bind].
  2: { split; [done|]. exists position. split; [lia|done]. }
  destruct (cached_bytes_Ok s s1 position remaining Hok Hr1 Hload) as (bytes & Hbytes & Hbl & Hcontent); [lia..|].
  rewrite Hbytes. cbn [read_bind]. assert (cs_length s <= U64_MAX) as Hl64 by apply Hok.
  unfold add. rewrite (proj2 (Z.leb_le _ U64_MAX)) by lia. cbn [read_bind].
  assert (cs_length s1 = cs_length s) as Hl1 by (by rewrite (proj1 Hr1)).
  pose proof (IH s1 (position + len bytes) (remaining - len bytes) (recached_ok _ _ Hr1 Hok) Hco1 ltac:(lia) ltac:(lia) ltac:(lia)) as Hrest.
  destruct (read_loop fuel s1 _ _) as [[rest|e| |] s2]; cbn [read_bind read_post] in *; destruct Hrest as [Hr2 Hrest]; try done;
    (split; [by eapply recached_trans|]).
  - destruct Hrest as (Hco2 & Hl2 & Hrest). split; [done|]. split; [len_lia|]. intros i Hi. rewrite byte_at_app by lia.
    destruct (Z.ltb_spec i (len bytes)); [by apply Hcontent; lia|]. rewrite <- (recached_content s s1) by done. rewrite <- Hrest by lia. f_equal. lia.
  - eapply undecodable_mono; [exact Hr1|..|exact Hrest]; lia.
Qed.

(** A read of a stream with a right cache. *)
Lemma read_exact_post s offset n :
  stream_ok s -> coherent s -> 0 <= offset -> 0 <= n -> offset + n <= cs_length s -> read_post s offset n (read_exact_at s offset n).
Proof.
  intros Hok Hco Ho Hn Hin. assert (cs_length s <= U64_MAX) as Hl by apply Hok. unfold read_exact_at, checked_add.
  rewrite (proj2 (Z.leb_le (offset + n) U64_MAX)), (proj2 (Z.leb_le (offset + n) _)) by lia. cbn [negb]. apply read_loop_post; (done || lia).
Qed.

(** What is read are bytes. *)
Lemma read_post_bytes s position n s' bytes :
  stream_ok s -> 0 <= position -> read_post s position n (Ok bytes, s') -> bytes_ok bytes.
Proof.
  intros Hok Hp (_ & _ & Hl & Hbytes). apply Forall_lookup. intros i b Hi. pose proof (lookup_lt_Some _ _ _ Hi) as Hlt.
  assert (0 <= Z.of_nat i < len bytes) as Hi' by (unfold len; lia). specialize (Hbytes (Z.of_nat i) ltac:(lia)).
  assert (byte_at bytes (Z.of_nat i) = b) as Hib.
  { unfold byte_at, get. rewrite (proj2 (Z.leb_le 0 _)), (proj2 (Z.ltb_lt _ (len bytes))) by lia. cbn [andb]. by rewrite Nat2Z.id, Hi. }
  rewrite Hib in Hbytes.
  unfold content_byte in Hbytes. assert (1 <= cs_unit_size s) by apply Hok. destruct (Z.leb_spec (cs_initialized s) (position + Z.of_nat i)) as [|Hin]; [by injection Hbytes as <-|].
  apply bind_Ok in Hbytes as (cache & Hload & [= Hb]).
  pose proof (Z.mul_div_le (position + Z.of_nat i) (cs_unit_size s) ltac:(lia)) as Hmul.
  assert (0 <= (position + Z.of_nat i) / cs_unit_size s) as Hu by (apply Z.div_pos; lia).
  pose proof (wp_value _ _ _ (wp_load_unit s ((position + Z.of_nat i) / cs_unit_size s) Hok Hu ltac:(lia)) Hload) as [_ Hcache].
  rewrite <- Hb. unfold byte_at. destruct (get cache _) as [x|] eqn:Hx; [by apply (get_Forall _ _ _ _ Hcache Hx)|done].
Qed.

End read.

(** ** Opening *)

Definition extent_ok (x : Extent) : Prop :=
  covers (ex_start x) (ex_runs x) (ex_end x) /\ ex_end x <= U64_MAX /\ is_u64 (ex_length x) /\ is_u64 (ex_initialized x).

(** The numbers the crate hands over are u64, the record is bytes. *)
Definition run_ok (run : result (Z * option Z)) : Prop :=
  wp run (fun r => 0 <= r.1 /\ forall p, r.2 = Some p -> 0 <= p).
Definition attribute_ok (attribute : NtfsAttribute) : Prop :=
  bytes_ok (at_record_data attribute) /\
  wp (at_value attribute) (fun value => forall runs, value = Some runs -> Forall run_ok runs).
Definition entry_ok (entry : NtfsListEntry) : Prop := safe (le_ty entry) /\ wp (le_attribute entry) attribute_ok.
Definition item_ok (item : NtfsItem) : Prop :=
  safe (at_ty (it_attribute item)) /\ attribute_ok (it_attribute item) /\
  wp (it_list item) (Forall (fun entry => wp entry entry_ok)).

(** [MAX_RUNS] keeps the counters small. *)
Definition open_ok (s : open_state) : Prop := Forall extent_ok (op_extents s) /\ 0 <= op_run_count s <= MAX_RUNS.

Lemma wp_add_run cluster end_ volume start s run :
  run_ok run -> end_ <= U64_MAX -> covers start s.1.1 s.1.2 /\ 0 <= s.2 <= MAX_RUNS ->
  wp (add_run cluster end_ volume s run) (fun s' => covers start s'.1.1 s'.1.2 /\ 0 <= s'.2 <= MAX_RUNS).
Proof.
  intros Hrun He. destruct s as [[runs offset] run_count]. cbn [fst snd]. intros [Hc Hn]. unfold add_run. wp_step. b2p.
  apply wp_bind, wp_add; [unfold MAX_RUNS in *; lia|]. apply wp_bind. eapply wp_mono; [|exact Hrun].
  intros [size physical] [Hs Hp]. cbn [fst snd] in *. wp_step. wp_step. wp_step. wp_step.
  match goal with Hx : checked_add _ _ = Some _ |- _ => apply checked_add_Some in Hx as [_ ->] end.
  wp_step. apply wp_Ok. cbn [fst snd]. b2p. split; [|lia]. apply (covers_app _ _ offset); [done|]. cbn. split; [done|].
  split; [lia|]. by split.
Qed.

Lemma wp_add_extent cluster volume s attribute :
  1 <= cluster <= U32_MAX -> attribute_ok attribute -> open_ok s -> wp (add_extent cluster volume s attribute) open_ok.
Proof.
  intros Hcl [Hb Hv] [Hx Hn]. unfold add_extent. wp_step. wp_step. case_bool_decide; [by apply wp_Ok|]. wp_step. cbv zeta.
  match goal with |- wp (bind ?m _) _ => assert (wp m (fun b => b = true -> 64 <= len (at_record_data attribute))) as Hm end.
  { apply wp_if; intros Hl; b2p; [|by apply wp_Ok]. apply wp_bind, wp_index; [lia|]. intros b _. by apply wp_Ok. }
  apply wp_bind. eapply wp_mono; [|exact Hm]. intros nonresident Hlen. wp_step. b2p. specialize (Hlen ltac:(done)).
  set (h := at_record_data attribute) in *.
  apply wp_bind, wp_slice; [lia|lia|]. intros flags _ _. wp_step. apply wp_bind, wp_index; [lia|]. intros exponent _.
  apply wp_bind, wp_slice_fixed; [done|lia|lia|]. intros first [Hfl Hfb]. wp_step. wp_step. wp_step. rename a into start.
  match goal with Hy : checked_mul _ _ = Some _ |- _ => apply checked_mul_Some in Hy as [_ ->] end.
  apply wp_bind, wp_slice_fixed; [done|lia|lia|]. intros last [Hll Hlb]. wp_step. wp_step. rename a into end_.
  assert (end_ <= U64_MAX) as He.
  { match goal with Hy : _ = Some end_ |- _ => revert Hy end. destruct (checked_add _ 1); [|done].
    intros Hy%checked_mul_Some. lia. }
  apply wp_bind, wp_slice_fixed; [done|lia|lia|]. intros length [Hel Heb].
  apply wp_bind, wp_slice_fixed; [done|lia|lia|]. intros initialized [Hil Hib].
  apply wp_bind, wp_slice_fixed; [done|lia|lia|]. intros run_offset _. wp_step. apply wp_bind.
  eapply wp_mono; [|exact Hv]. intros [data_runs|] Hruns; [|apply wp_Err]. specialize (Hruns _ eq_refl). rewrite Forall_forall in Hruns.
  apply wp_bind. eapply wp_mono; [|apply (wp_fold_res _ (fun s' => covers (le_val first * cluster) s'.1.1 s'.1.2 /\ 0 <= s'.2 <= MAX_RUNS))].
  - intros [[runs offset] run_count] [Hc Hrc]. cbn [fst snd] in *. wp_step. b2p. subst offset. apply wp_Ok. split; [|done].
    cbn [op_extents]. apply Forall_app. split; [done|]. apply Forall_singleton.
    split; [done|]. split; [done|]. split; apply le_val_u64; done || lia.
  - intros s' run Hin Hs'. apply wp_add_run; [by apply Hruns|done|done].
  - done.
Qed.

Lemma wp_open_item cluster volume s item :
  1 <= cluster <= U32_MAX -> wp item item_ok -> open_ok s -> wp (open_item cluster volume s item) open_ok.
Proof.
  intros Hcl Hitem Hs. unfold open_item. apply wp_bind. eapply wp_mono; [|exact Hitem]. intros i (Hty & Ha & Hlist).
  apply wp_bind. eapply wp_mono; [|exact Hty]. intros [] _; [| |by apply wp_Ok].
  - apply wp_bind. eapply wp_mono; [|exact Hlist]. intros entries Hentries. rewrite Forall_forall in Hentries.
    apply wp_bind. eapply wp_mono; [|apply (wp_fold_res _ (fun s' => open_ok s'.1 /\ 0 <= s'.2 <= MAX_RUNS))].
    + intros [s' count] [Hs' _]. by apply wp_Ok.
    + intros [s' count] entry Hin [Hs' Hn]. cbn [fst snd] in *. unfold open_entry.
      apply wp_bind, wp_add; [unfold MAX_RUNS in *; lia|]. wp_step. b2p. apply wp_bind.
      eapply wp_mono; [|by apply Hentries]. intros e (Hety & Hea). apply wp_bind. eapply wp_mono; [|exact Hety].
      assert (forall s2, open_ok s2 -> wp (E:=error) (Ok (s2, count + 1)) (fun s' => open_ok s'.1 /\ 0 <= s'.2 <= MAX_RUNS)) as Hdone
        by (intros; apply wp_Ok; cbn [fst snd]; split; [done|lia]).
      intros [] _; [by apply Hdone| |by apply Hdone]. apply wp_if; intros _; [by apply Hdone|].
      apply wp_bind. eapply wp_mono; [|exact Hea]. intros attribute Hattr. apply wp_bind.
      eapply wp_mono; [|by apply wp_add_extent]. intros s2 Hs2. by apply Hdone.
    + split; [done|]. unfold MAX_RUNS; cbn; lia.
  - apply wp_if; intros _; [by apply wp_add_extent|by apply wp_Ok].
Qed.

Lemma insert_extent_Forall P x l : P x -> Forall P l -> Forall P (insert_extent x l).
Proof. intros Hx. induction 1 as [|y l Hy Hl IH]; cbn; [by constructor|]. case_match; by repeat constructor. Qed.

Lemma sort_extents_Forall P l : Forall P l -> Forall P (sort_extents l).
Proof.
  unfold sort_extents. assert (forall acc, Forall P acc -> Forall P l -> Forall P (foldl (fun l x => insert_extent x l) acc l)) as H.
  { induction l as [|x l IH]; intros acc Hacc Hl; cbn; [done|]. apply Forall_cons in Hl as [Hx Hl].
    apply IH; [by apply insert_extent_Forall|done]. }
  by apply H.
Qed.

Lemma wp_join_extents extents : forall runs end_,
  covers 0 runs end_ -> end_ <= U64_MAX -> Forall extent_ok extents ->
  wp (fold_res join_extent (runs, end_) extents) (fun '(runs, end_) => covers 0 runs end_ /\ end_ <= U64_MAX).
Proof.
  intros runs end_ Hc He Hx. rewrite Forall_forall in Hx.
  eapply wp_mono; [|apply (wp_fold_res _ (fun s => covers 0 s.1 s.2 /\ s.2 <= U64_MAX))]; [by intros []| |done].
  intros [runs' end'] extent Hin [Hc' He']. cbn [fst snd] in *. unfold join_extent. wp_step. wp_step. apply wp_Ok. b2p. cbn [fst snd].
  destruct (Hx extent Hin) as (Hxc & Hxe & _). split; [|done]. eapply covers_app; [done|]. by subst.
Qed.

(** What is opened can be read. *)
Lemma wp_open cluster volume items :
  is_u32 cluster -> Forall (fun item => wp item item_ok) items ->
  wp (CompressedStream_open cluster volume items) (fun s => stream_ok s /\ cs_cached_unit s = None).
Proof.
  intros Hcl Hitems. rewrite Forall_forall in Hitems. unfold CompressedStream_open. wp_step. b2p.
  apply wp_bind. eapply wp_mono; [|apply (wp_fold_res _ open_ok)].
  - intros s [Hx _]. apply sort_extents_Forall in Hx. wp_step. wp_step. rename a into first. wp_step. wp_step. b2p.
    assert (extent_ok first) as Hf.
    { destruct (sort_extents (op_extents s)); [done|]. by apply Forall_cons in Hx as [Hx _]; simplify_eq/=. }
    destruct Hf as (_ & _ & Hlen & Hini). apply wp_bind, wp_mul; [lia|]. rewrite usize_try_from_u64 by u64. cbn [ok_or bind].
    apply wp_bind. eapply wp_mono; [|apply wp_join_extents; [done|done|exact Hx]]. intros [runs end_] [Hc He].
    wp_step. wp_step. wp_step. b2p. apply wp_Ok. split; [|done].
    match goal with Hy : checked_mul _ _ = Some _ |- _ => apply checked_mul_Some in Hy as [_ ->] end.
    split; [cbn; lia|]. split; [done|]. split; [cbn; u64|]. split; [cbn [cs_cache cs_unit_size]; rewrite len_zrepeat; lia|].
    exists end_. cbn. done.
  - intros s item Hin Hs. apply wp_open_item; [lia|by apply Hitems|done].
  - split; [constructor|]. cbn. unfold MAX_RUNS. lia.
Qed.

(** C39: LZNT1 round trip. Whatever chunks a writer produces, stored or packed
    into literals and back-references (which may overlap what they produce),
    every one but the last of 4096 bytes, with anything behind them: the decoder
    returns a buffer of the same length that begins with the required part of
    their value. *)
Theorem lznt1_roundtrip cs padding output required :
  Forall lz_chunk_ok cs -> full_chunks cs ->
  required <= len (lz_values cs) <= len output -> len output <= ISIZE_MAX ->
  len (lz_bytes cs ++ padding) <= ISIZE_MAX ->
  exists output', decode_lznt1 (lz_bytes cs ++ padding) output required = Ok output' /\
    len output' = len output /\ ztake required output' = ztake required (lz_values cs).
Proof.
  intros Hok Hfull [Hreq Hroom] Hout Hin. unfold decode_lznt1. rewrite (proj2 (Z.leb_le _ _)) by lia. cbn [negb].
  apply (decode_lznt1_loop_written cs _ [] padding [] output required); [done|done|rewrite len_nil; lia|done| |done|len_lia].
  unfold len. rewrite length_app. lia.
Qed.

Definition sample_tokens : list lz_token :=
  [Literal 97; Literal 98; Match 2 6; Literal 99; Match 1 3; Match 12 3; Literal 100; Literal 101; Literal 102].
Definition sample_chunks : list lz_chunk := [Stored (zrepeat 4096 65); Packed sample_tokens].

Lemma lznt1_roundtrip_witness :
  exists output', decode_lznt1 (lz_bytes sample_chunks ++ [0; 0; 7]) (zrepeat 8192 0) 4110 = Ok output' /\
    ztake 4110 output' = zrepeat 4096 65 ++ [97; 98; 97; 98; 97; 98; 97; 98; 99; 99; 99; 99; 97; 98].
Proof.
  destruct (lznt1_roundtrip sample_chunks [0; 0; 7] (zrepeat 8192 0) 4110) as (output' & H & _ & Ht).
  - unfold sample_chunks. apply Forall_cons. split; [|apply Forall_singleton].
    + split; [vm_compute; split; discriminate|]. by apply Forall_zrepeat.
    + split; [vm_compute; split; discriminate|]. unfold sample_tokens. cbn [tokens_ok token_ok token_size]. vm_compute. intuition discriminate.
  - cbn [full_chunks]. split; [right; vm_compute; reflexivity|]. split; [by left|done].
  - vm_compute. split; discriminate.
  - vm_compute. discriminate.
  - vm_compute. discriminate.
  - exists output'. split; [exact H|]. rewrite Ht. vm_compute. reflexivity.
Defined.

(** whatever it is given, the LZNT1 decoder returns, without a panic and
    within the length of its input; and when it accepts, its output is the
    value of a sequence of chunks, every one but the last of 4096 bytes, each
    stored or the expansion of tokens that never reach before their chunk nor
    past 4096 bytes, as many as the required bytes need; the bytes behind them
    are untouched. *)
Theorem lznt1_sound input output required :
  bytes_ok input -> len input <= ISIZE_MAX -> len output <= ISIZE_MAX ->
  wp (decode_lznt1 input output required) (fun output' => exists cs,
    Forall chunk_sound cs /\ full_chunks cs /\ required <= len (lz_values cs) <= len output /\
    output' = lz_values cs ++ zdrop (len (lz_values cs)) output).
Proof.
  intros Hb Hi Ho. unfold decode_lznt1. wp_step.
  pose proof (wp_decode_lznt1_loop (S (length input)) input [] output required 0 Hb) as Hd.
  change (len (@nil Z)) with 0 in Hd. cbn [app] in Hd. eapply wp_mono; [|apply Hd; unfold len in *; lia].
  intros output' (cs & H1 & H2 & H3 & H4 & _ & H5). by exists cs.
Qed.

Lemma lznt1_sound_witness :
  wp (decode_lznt1 [2; 0xb0; 0; 65; 66] [9; 9; 9] 2) (fun output' => exists cs, output' = lz_values cs ++ zdrop (len (lz_values cs)) [9; 9; 9]) /\
  decode_lznt1 [2; 0xb0; 0; 65; 66] [9; 9; 9] 2 = Ok [65; 66; 9].
Proof.
  split; [|vm_compute; reflexivity].
  eapply wp_mono; [|apply (lznt1_sound [2; 0xb0; 0; 65; 66] [9; 9; 9] 2);
    [apply bytes_ok_dec; reflexivity|vm_compute; discriminate|vm_compute; discriminate]].
  intros output' (cs & _ & _ & _ & H). exists cs. exact H.
Defined.

(** the run map. Whatever the attributes of the file say, opening returns,
    and a stream it returns has runs that follow each other without a gap from 0
    to beyond the last unit with initialized bytes, an initialized length within
    the length, a unit of 16 clusters, and an empty cache. *)
Theorem opened_stream_ok cluster volume items :
  is_u32 cluster -> Forall (fun item => wp item item_ok) items ->
  wp (CompressedStream_open cluster volume items) (fun s => stream_ok s /\ cs_cached_unit s = None).
Proof. apply wp_open. Qed.

(** A file of one unit: a cluster of packed data and 15 of padding. *)
Definition sample_header : list Z :=
  zrepeat 8 0 ++ [1; 0; 0; 0] ++ [1; 0; 0; 0] ++ le_bytes 8 0 ++ le_bytes 8 15 ++ le_bytes 2 64 ++ [4] ++ zrepeat 5 0 ++
  le_bytes 8 8192 ++ le_bytes 8 30 ++ le_bytes 8 18 ++ [0].
Definition sample_item : NtfsItem := {|
  it_attribute := {| at_ty := Ok Data; at_name_length := 0; at_position := Some 4096; at_record_data := sample_header;
    at_value := Ok (Some [Ok (512, Some 1024); Ok (7680, None)]) |};
  it_list := Err (Foreign "not a list") |}.
Definition sample_stream : CompressedStream := {|
  cs_runs := [{| run_start := 0; run_end := 512; run_physical := Some 1024 |};
              {| run_start := 512; run_end := 8192; run_physical := None |}];
  cs_length := 30; cs_initialized := 18; cs_unit_size := 8192; cs_cache := zrepeat 8192 0; cs_cached_unit := None |}.

Lemma sample_item_ok : item_ok sample_item.
Proof.
  split; [done|]. split; [|done]. split; [apply bytes_ok_dec; vm_compute; reflexivity|]. intros runs [= <-].
  repeat constructor; try discriminate. intros p [= <-]. discriminate.
Qed.

Lemma sample_stream_ok : stream_ok sample_stream.
Proof.
  pose proof (wp_open 512 65536 [Ok sample_item] ltac:(split; vm_compute; discriminate)
    ltac:(apply Forall_singleton; exact sample_item_ok)) as H.
  assert (CompressedStream_open 512 65536 [Ok sample_item] = Ok sample_stream) as Ho by (vm_compute; reflexivity).
  rewrite Ho in H. apply H.
Qed.

Lemma opened_stream_ok_witness :
  CompressedStream_open 512 65536 [Ok sample_item] = Ok sample_stream /\
  stream_ok sample_stream.
Proof.
  assert (CompressedStream_open 512 65536 [Ok sample_item] = Ok sample_stream) as H by (vm_compute; reflexivity).
  split; [exact H|].
  pose proof (opened_stream_ok 512 65536 [Ok sample_item] ltac:(split; vm_compute; discriminate)
    ltac:(apply Forall_singleton; exact sample_item_ok)) as Hok.
  rewrite H in Hok. apply Hok.
Defined.

(** C40: the cache is invisible until a unit cannot be decoded. From a stream
    whose cache is right, a read within the length returns, byte for byte, what
    the compression unit of each position holds when it is decoded alone, and
    zeros beyond the initialized length, whatever unit was cached before, and
    leaves a right cache. It fails exactly where a position of the range is in a
    unit that cannot be decoded, and then nothing is promised of the cache. A read
    beyond the length is refused and changes nothing. It never panics. *)
Theorem compressed_read_exact `{DiskLaws} s offset n :
  stream_ok s -> coherent s -> is_u64 offset -> is_u64 n ->
  let '(r, s') := read_exact_at s offset n in
  recached s s' /\ stream_ok s' /\
  match r with
  | Ok bytes => offset + n <= cs_length s /\ coherent s' /\ len bytes = n /\
      forall i, 0 <= i < n -> content_byte s (offset + i) = Ok (byte_at bytes i)
  | Err _ => cs_length s < offset + n /\ s' = s \/ offset + n <= cs_length s /\ undecodable s offset n
  | _ => False
  end.
Proof.
  intros Hok Hco [Ho _] [Hn _]. destruct (Z.le_gt_cases (offset + n) (cs_length s)) as [Hin|Hout].
  - pose proof (read_exact_post s offset n Hok Hco Ho Hn Hin) as Hpost. destruct (read_exact_at s offset n) as [r s'].
    destruct Hpost as [Hr Hpost]. split; [done|]. split; [by apply (recached_ok s)|]. by destruct r; [split|right|..].
  - unfold read_exact_at. assert (match checked_add offset n with Some end_ => end_ <=? cs_length s | None => false end = false) as ->.
    { unfold checked_add. case_match; [|done]. apply Z.leb_gt. case_match; [|done]. by simplify_eq. }
    cbn [negb]. split; [apply recached_refl|]. split; [done|]. by left.
Qed.

(** The witnesses' disk: the packed chunk at 1024. *)
#[export] Instance sample_disk : Disk := fun p n =>
  let image := zrepeat 1024 0 ++ write_lz (Packed sample_tokens) ++ zrepeat 4096 0 in
  ok_or (get_range image p (p + n)) (Foreign "failed to fill whole buffer").

#[export] Instance sample_disk_laws : DiskLaws.
Proof.
  split. intros p n Hp Hn. apply wp_ok_or. intros bytes Hg. apply get_range_len in Hg as Hl. split; [lia|].
  apply get_range_Some in Hg as (_ & _ & ->). apply Forall_ztake, Forall_zdrop, bytes_ok_dec. vm_compute. reflexivity.
Qed.

Lemma compressed_read_exact_witness :
  let '(r, s') := read_exact_at sample_stream 10 18 in
  r = Ok [99; 99; 97; 98; 97; 100; 101; 102; 0; 0; 0; 0; 0; 0; 0; 0; 0; 0] /\ recached sample_stream s' /\ coherent s'.
Proof.
  assert ((read_exact_at sample_stream 10 18).1 = Ok [99; 99; 97; 98; 97; 100; 101; 102; 0; 0; 0; 0; 0; 0; 0; 0; 0; 0]) as Hread by (vm_compute; reflexivity).
  pose proof (compressed_read_exact sample_stream 10 18 sample_stream_ok I ltac:(split; discriminate) ltac:(split; discriminate)) as Hx.
  destruct (read_exact_at sample_stream 10 18) as [r s']. cbn [fst] in Hread. split; [exact Hread|]. rewrite Hread in Hx.
  destruct Hx as (Hr & _ & _ & Hco & _). split; [exact Hr|exact Hco].
Defined.

(** The finding about the cache: a second unit that cannot be decoded leaves the
    number of the first in [cached_unit], and the first is then read from what the
    failure left in the cache. *)
Definition two_units : CompressedStream := {|
  cs_runs := [{| run_start := 0; run_end := 8192; run_physical := Some 1024 |};
              {| run_start := 8192; run_end := 8704; run_physical := Some 0 |};
              {| run_start := 8704; run_end := 16384; run_physical := None |}];
  cs_length := 9000; cs_initialized := 8200; cs_unit_size := 8192; cs_cache := zrepeat 8192 0; cs_cached_unit := None |}.

Example stale_cache :
  let disk : Disk := fun _ n => Ok (zrepeat n 97) in
  let '(first, s) := read_exact_at two_units 0 2 in
  let '(damaged, s) := read_exact_at s 8192 1 in
  let '(again, _) := read_exact_at s 0 2 in
  first = Ok [97; 97] /\ is_err damaged = true /\ again = Ok [0; 0].
Proof. vm_compute. by split_and!. Qed.
