(* ===== verification/Image.v ===== *)
(** The lazy image of an object, src/src/inception.rs lines 1740-2156: the map of
    segments that replaying a chain of snapshots leaves, and positioned reads
    that decode a block when they come to it. *)

From stdpp Require Import sorting.
From S2P Require Import Prelude Bytes Utf8 Stream StreamFacts Replay Compression NvList Encrypted.
From S2P Require Import EncryptedDnode Paths Snapshots Selected ObjectIndex.

#[local] Open Scope Z_scope.
#[local] Open Scope zse_scope.

(** The CRC-32 of a payload is a crate. *)
Class Crc32 := crc32_hash : list Z -> Z.

(** ** Blocks (lines 1740-1864) *)

Inductive BlockEncoding :=
| ReplayBlock (compression : Z)
| EmbeddedBlock (compression embedded_type physical_size : Z)
| RawBlock (key_index : Z) (encrypted : bool) (compression : Z) (salt iv mac : list Z).

Record BlockDescriptor := {
  bd_id : Z; bd_payload_offset : Z; bd_payload_len : Z; bd_payload_crc32 : Z; bd_logical_len : Z;
  bd_encoding : BlockEncoding;
}.

Record Segment := { sg_end : Z; sg_block : BlockDescriptor; sg_block_offset : Z }.

Abbreviation SegmentMap := (gmap Z Segment).

(** [range(a..b)], in the order of the keys; a reversed range panics. *)
Definition map_range (a b : Z) (m : SegmentMap) : result (list (Z * Segment)) :=
  if b <? a then Panic else Ok (merge_sort key_le (map_to_list (filter (fun kv => a <= kv.1 /\ kv.1 < b) m))).

(** [range(..=start).next_back()] *)
Definition last_up_to (start : Z) (m : SegmentMap) : option (Z * Segment) :=
  last (merge_sort key_le (map_to_list (filter (fun kv => kv.1 <= start) m))).

(** A key of the loop of [remove]: the segment goes, what sticks out of the range
    is preserved. *)
Definition remove_key (start end_ : Z) (s : SegmentMap * list (Z * Segment)) (key : Z)
  : result (SegmentMap * list (Z * Segment)) :=
  let '(m, preserved) := s in
  match m !! key with
  | None => Ok s
  | Some segment =>
      let before := if key <? start
        then [(key, {| sg_end := start; sg_block := sg_block segment; sg_block_offset := sg_block_offset segment |})]
        else [] in
      let! after :=
        if end_ <? sg_end segment then
          let! skipped := sub end_ key in
          let! block_offset := add (sg_block_offset segment) skipped in
          Ok [(end_, {| sg_end := sg_end segment; sg_block := sg_block segment; sg_block_offset := block_offset |})]
        else Ok [] in
      Ok (delete key m, preserved ++ before ++ after)
  end.

Definition remove_range (m : SegmentMap) (start length : Z) : result SegmentMap :=
  let! end_ :=
    if length =? U64_MAX then Ok U64_MAX
    else ok_or (checked_add start length) (Msg "nested FREE range overflows" []) in
  if start =? end_ then Ok m
  else
    let! within := map_range start end_ m in
    let keys := map fst within in
    let keys :=
      match last_up_to start m with
      | Some (key, segment) =>
          if (start <? sg_end segment) && negb (bool_decide (key ∈ keys)) then keys ++ [key] else keys
      | None => keys
      end in
    let! (m, preserved) := fold_res (remove_key start end_) (m, []) keys in
    Ok (foldl (fun m kv => <[kv.1 := kv.2]> m) m preserved).

Definition insert_range (m : SegmentMap) (start length : Z) (block : BlockDescriptor) : result SegmentMap :=
  if length =? 0 then Ok m
  else
    let! m := remove_range m start length in
    let! end_ := ok_or (checked_add start length) (Msg "nested WRITE range overflows" []) in
    Ok (<[start := {| sg_end := end_; sg_block := block; sg_block_offset := 0 |}]> m).

(** ** Building (lines 1866-2012) *)

Record StreamImage := {
  im_file : list Z; im_len : Z; im_segments : SegmentMap; im_keys : list DatasetKey;
  im_cache : option (Z * list Z);
}.

Record image_state := {
  is_active : bool; is_key : option Z; is_seen : gset Z; is_object_type : option Z; is_exists : bool;
  is_map : SegmentMap; is_keys : list DatasetKey; is_next_id : Z;
}.

Section image.
Context `{Codecs} `{Crypto} `{Crc32}.

Definition image_begin (selected : gset Z) (key_material : option (list Z)) (s : image_state)
    (header : BeginRecord) (body : list Z) : result image_state :=
  let active := (header_type header =? DMU_SUBSTREAM) && bool_decide (to_guid header ∈ selected) in
  let seen := if active then {[to_guid header]} ∪ is_seen s else is_seen s in
  let! (keys, current) :=
    if active && has_bits (features header) FEATURE_RAW then
      let! material := ok_or key_material (Msg "encrypted raw send requires a key" []) in
      let! params := from_begin_payload body in
      let! key := unlock params material in
      let keys := is_keys s ++ [key] in
      Ok (keys, Some (len keys - 1))
    else Ok (is_keys s, None) in
  Ok {| is_active := active; is_key := current; is_seen := seen; is_object_type := is_object_type s;
        is_exists := is_exists s; is_map := is_map s; is_keys := keys; is_next_id := is_next_id s |}.

Definition set_map (s : image_state) (m : SegmentMap) (next_id : Z) : image_state := {|
  is_active := is_active s; is_key := is_key s; is_seen := is_seen s; is_object_type := is_object_type s;
  is_exists := is_exists s; is_map := m; is_keys := is_keys s; is_next_id := next_id |}.

Definition set_object (s : image_state) (object_type : option Z) (object_exists : bool) (m : SegmentMap) : image_state := {|
  is_active := is_active s; is_key := is_key s; is_seen := is_seen s; is_object_type := object_type;
  is_exists := object_exists; is_map := m; is_keys := is_keys s; is_next_id := is_next_id s |}.

(** The descriptor of a record's payload. *)
Definition describe (s : image_state) (record : Record_) (logical_len : Z) (encoding : BlockEncoding)
  : result BlockDescriptor :=
  let! payload_offset := add (stream_offset record) RECORD_SIZE in
  Ok {| bd_id := is_next_id s; bd_payload_offset := payload_offset; bd_payload_len := len (payload record);
        bd_payload_crc32 := crc32_hash (payload record); bd_logical_len := logical_len; bd_encoding := encoding |}.

Definition image_write (s : image_state) (write : WriteRecord) (record : Record_) : result image_state :=
  fail! negb (is_exists s) with Msg "nested image WRITE appears before its OBJECT record" [] in
  let encoding :=
    match is_key s with
    | Some key_index => RawBlock key_index (is_encrypted_object_type (wr_object_type write))
        (wr_compression_type write) (wr_salt write) (wr_iv write) (wr_mac write)
    | None => ReplayBlock (wr_compression_type write)
    end in
  let! descriptor := describe s record (wr_logical_size write) encoding in
  let! next_id := add (is_next_id s) 1 in
  let! m := insert_range (is_map s) (wr_offset write) (wr_logical_size write) descriptor in
  Ok (set_map s m next_id).

Definition image_write_embedded (s : image_state) (write : EmbeddedWriteRecord) (record : Record_) : result image_state :=
  fail! match is_key s with Some _ => true | None => false end
    with Msg "raw encrypted embedded WRITE records are unsupported" [] in
  let! descriptor := describe s record (we_logical_size write)
    (EmbeddedBlock (we_compression_type write) (we_embedded_type write) (we_physical_size write)) in
  let! next_id := add (is_next_id s) 1 in
  let! m := remove_range (is_map s) (we_offset write) (we_length write) in
  let! m := insert_range m (we_offset write) (Z.min (we_logical_size write) (we_length write)) descriptor in
  Ok (set_map s m next_id).

Definition image_record (object_id : Z) (s : image_state) (record : Record_) : result image_state :=
  match kind record with
  | Object object =>
      if obj_object object =? object_id then
        let m := if bool_decide (is_object_type s = Some (obj_type object)) then is_map s else ∅ in
        Ok (set_object s (Some (obj_type object)) true m)
      else Ok s
  | Write write => if wr_object write =? object_id then image_write s write record else Ok s
  | WriteEmbedded write => if we_object write =? object_id then image_write_embedded s write record else Ok s
  | Free free =>
      if fr_object free =? object_id then
        let! m := remove_range (is_map s) (fr_offset free) (fr_length free) in
        Ok (set_map s m (is_next_id s))
      else Ok s
  | FreeObjects range =>
      let end_ := saturating_add (fo_first_object range) (fo_object_count range) in
      Ok (if (fo_first_object range <=? object_id) && (object_id <? end_) then set_object s None false ∅ else s)
  | WriteByRef => Err (Msg "deduplicated WRITE_BYREF streams are unsupported" [])
  | Redact => Err (Msg "redacted streams are unsupported" [])
  | _ => Ok s
  end.

Definition image_step (object_id : Z) (selected : gset Z) (key_material : option (list Z)) (s : image_state)
    (record : Record_) : result image_state :=
  match kind record with
  | Begin header => image_begin selected key_material s header (payload record)
  | End_ => Ok {| is_active := false; is_key := None; is_seen := is_seen s; is_object_type := is_object_type s;
                  is_exists := is_exists s; is_map := is_map s; is_keys := is_keys s; is_next_id := is_next_id s |}
  | _ => if negb (is_active s) then Ok s else image_record object_id s record
  end.

(** [stream] is what the scanner reads, [file] what the file holds when it is
    opened again to be read from. *)
Definition StreamImage_build {R} `{Read R} (fuel : nat) (stream : R) (file : list Z) (plan : SnapshotPlan)
    (object_id logical_size : Z) (key_material : option (list Z)) : result StreamImage :=
  let! (s, reader) := each_record fuel (image_step object_id (list_to_set (chain plan)) key_material)
    {| is_active := false; is_key := None; is_seen := ∅; is_object_type := None; is_exists := false;
       is_map := ∅; is_keys := []; is_next_id := 1 |} (StreamReader_new stream) in
  fail! negb (saw_end reader) with Msg "ZFS send stream has no END record" [] in
  fail! negb (Z.of_nat (size (is_seen s)) =? len (chain plan))
    with Msg "stream changed while indexing the nested image" [] in
  fail! negb (is_exists s) with Msg "nested image object {} is absent from the selected snapshot" [object_id] in
  Ok {| im_file := file; im_len := logical_size; im_segments := is_map s; im_keys := is_keys s; im_cache := None |}.

(** ** Reading (lines 2014-2156) *)

(** Positioned reads of a regular file. *)
Definition read_file_exact_at (file : list Z) (offset n : Z) : result (list Z) :=
  if n =? 0 then Ok [] else ok_or (get_range file offset (offset + n)) (Foreign "short positioned read").

(** What [decode] computes when the block is not cached. *)
Definition decode_block (file : list Z) (keys : list DatasetKey) (descriptor : BlockDescriptor) : result (list Z) :=
  let! payload := with_context "reading replay payload at offset {} from {}" [bd_payload_offset descriptor]
    (read_file_exact_at file (bd_payload_offset descriptor) (bd_payload_len descriptor)) in
  fail! negb (crc32_hash payload =? bd_payload_crc32 descriptor)
    with Msg "ZFS send payload changed after inception mode indexed it" [] in
  let! decoded :=
    match bd_encoding descriptor with
    | ReplayBlock compression => decode_replay_write compression payload (bd_logical_len descriptor)
    | EmbeddedBlock compression embedded_type physical_size =>
        fail! U32_MAX <? bd_logical_len descriptor
          with Context "embedded logical size exceeds u32" [] (Foreign "TryFromIntError") in
        decode_embedded_write compression embedded_type payload physical_size (bd_logical_len descriptor)
    | RawBlock key_index encrypted compression salt iv mac =>
        let! key := ok_or (get keys key_index) (Msg "raw replay key is missing" []) in
        let! protected :=
          if encrypted then decrypt_block key salt iv mac [] payload
          else let! _ := authenticate_block key payload mac in Ok payload in
        raw_decompress_block compression protected (bd_logical_len descriptor)
    end in
  fail! negb (len decoded =? bd_logical_len descriptor)
    with Msg "decoded replay block is {} bytes, expected {}" [len decoded; bd_logical_len descriptor] in
  Ok decoded.

(** With the one-block cache behind its lock. *)
Definition decode (self : StreamImage) (cache : option (Z * list Z)) (descriptor : BlockDescriptor)
  : result (list Z * option (Z * list Z)) :=
  let miss :=
    let! decoded := decode_block (im_file self) (im_keys self) descriptor in
    Ok (decoded, Some (bd_id descriptor, decoded)) in
  match cache with
  | Some (id, bytes) => if id =? bd_id descriptor then Ok (bytes, cache) else miss
  | None => miss
  end.

Definition read_segment (self : StreamImage) (offset end_ : Z) (s : list Z * option (Z * list Z)) (kv : Z * Segment)
  : result (list Z * option (Z * list Z)) :=
  let '(buffer, cache) := s in
  let '(segment_start, segment) := kv in
  if sg_end segment <=? offset then Ok s
  else
    let copy_start := Z.max segment_start offset in
    let copy_end := Z.min (sg_end segment) end_ in
    let! destination_start := sub copy_start offset in
    let! destination_end := sub copy_end offset in
    let! source := add (sg_block_offset segment) copy_start in
    let! source_start := sub source segment_start in
    let! count := sub destination_end destination_start in
    let! source_end := add source_start count in
    let! (decoded, cache) := decode self cache (sg_block segment) in
    let! bytes := ok_or (get_range decoded source_start source_end)
      (Msg "nested extent points outside its decoded replay block" []) in
    let! buffer := copy_into buffer destination_start bytes in
    Ok (buffer, cache).

Definition set_image_cache (self : StreamImage) (cache : option (Z * list Z)) : StreamImage := {|
  im_file := im_file self; im_len := im_len self; im_segments := im_segments self; im_keys := im_keys self;
  im_cache := cache |}.

(** Reads [n] bytes. *)
Definition image_read_exact_at (self : StreamImage) (offset n : Z) : result (list Z * StreamImage) :=
  let! end_ := ok_or (checked_add offset n) (Msg "nested send-file read offset overflows" []) in
  fail! im_len self <? end_
    with Msg "nested read [{offset}, {end}) exceeds the {}-byte ZFS file" [offset; end_; im_len self] in
  let buffer := zrepeat n 0 in
  if n =? 0 then Ok (buffer, self)
  else
    let! segments := map_range 0 end_ (im_segments self) in
    let! (buffer, cache) := fold_res (read_segment self offset end_) (buffer, im_cache self) segments in
    Ok (buffer, set_image_cache self cache).
End image.
