(* ===== verification/DiskImage.v ===== *)
(** Bounded read-only images, src/src/inception.rs: the trait [ImageRead] (lines
    38-44), the image inside an object, the slice of an image (796-835) and the
    cursor over one (837-882). *)

From S2P Require Import Prelude Bytes Utf8 Stream StreamFacts Replay Compression NvList Encrypted.
From S2P Require Import EncryptedDnode Paths Snapshots Selected ObjectIndex Image.

(** ** Definitions *)

(** A trait object is the record of its operations. [image_read offset n] is what
    [read_exact_at] leaves in a buffer of [n] bytes; a cache behind a lock does not
    show in it. *)
Record ImageRead := { image_len : Z; image_read : Z -> Z -> result (list Z) }.

Definition StreamImage_image `{Codecs} `{Crypto} `{Crc32} (self : StreamImage) : ImageRead := {|
  image_len := im_len self;
  image_read offset n := let! (bytes, _) := image_read_exact_at self offset n in Ok bytes |}.

Record SlicedImage := { sl_source : ImageRead; sl_base : Z; sl_len : Z }.

Definition SlicedImage_new (source : ImageRead) (base length : Z) : result SlicedImage :=
  let! end_ := ok_or (checked_add base length) (Msg "nested partition byte range overflows" []) in
  fail! (length =? 0) || (image_len source <? end_)
    with Msg "nested partition [{base}, {end}) is outside the {}-byte image" [base; end_; image_len source] in
  Ok {| sl_source := source; sl_base := base; sl_len := length |}.

Definition SlicedImage_read_exact_at (self : SlicedImage) (offset n : Z) : result (list Z) :=
  let! end_ := ok_or (checked_add offset n) (Msg "nested partition read offset overflows" []) in
  fail! sl_len self <? end_
    with Msg "nested partition read [{offset}, {end}) exceeds {} bytes" [offset; end_; sl_len self] in
  let! at_ := add (sl_base self) offset in
  image_read (sl_source self) at_ n.

Definition SlicedImage_image (self : SlicedImage) : ImageRead :=
  {| image_len := sl_len self; image_read := SlicedImage_read_exact_at self |}.

(** *** A cursor *)

Record SourceCursor := { cu_source : ImageRead; cu_position : Z }.

Definition SourceCursor_new (source : ImageRead) : SourceCursor := {| cu_source := source; cu_position := 0 |}.

(** [read] into a buffer of [n] bytes; [usize::try_from] of the smaller of two
    lengths, one of them a usize, cannot fail. *)
Definition SourceCursor_read (self : SourceCursor) (n : Z) : result (list Z * SourceCursor) :=
  if (image_len (cu_source self) <=? cu_position self) || (n =? 0) then Ok ([], self)
  else
    let! available := sub (image_len (cu_source self)) (cu_position self) in
    let count := Z.min available n in
    let! bytes := image_read (cu_source self) (cu_position self) count in
    let! position := add (cu_position self) count in
    Ok (bytes, {| cu_source := cu_source self; cu_position := position |}).

Inductive SeekFrom := SeekStart (value : Z) | SeekCurrent (value : Z) | SeekEnd (value : Z).

(** The sums are i128, where they are exact. *)
Definition SourceCursor_seek (self : SourceCursor) (position : SeekFrom) : result (Z * SourceCursor) :=
  let next := match position with
    | SeekStart value => value
    | SeekCurrent value => cu_position self + value
    | SeekEnd value => image_len (cu_source self) + value
    end in
  fail! (next <? 0) || (image_len (cu_source self) <? next)
    with Foreign "seek is outside the bounded nested volume" in
  Ok (next, {| cu_source := cu_source self; cu_position := next |}).

(** ** The contract

    "Implementations must either fill the entire buffer or fail." *)

Definition image_ok (i : ImageRead) : Prop :=
  is_u64 (image_len i) /\
  forall offset n, is_u64 offset -> 0 <= n <= ISIZE_MAX ->
    wp (image_read i offset n) (fun bytes => len bytes = n /\ bytes_ok bytes).

Lemma wp_image_read i offset n (P : list Z -> Prop) :
  image_ok i -> is_u64 offset -> 0 <= n <= ISIZE_MAX -> (forall bytes, fixed n bytes -> P bytes) -> wp (image_read i offset n) P.
Proof. intros [_ Hr] Ho Hn HP. eapply wp_mono; [|by apply Hr]. intros bytes [? ?]. by apply HP. Qed.

(** A slice lies inside its source. *)
Definition slice_ok (s : SlicedImage) : Prop :=
  image_ok (sl_source s) /\ 0 <= sl_base s /\ 0 < sl_len s /\ sl_base s + sl_len s <= image_len (sl_source s).

Lemma wp_SlicedImage_new source base length :
  image_ok source -> 0 <= base -> 0 <= length ->
  wp (SlicedImage_new source base length) (fun s =>
    slice_ok s /\ s = {| sl_source := source; sl_base := base; sl_len := length |}).
Proof.
  intros Hi Hb Hl. unfold SlicedImage_new. wp_steps. match goal with Hc : checked_add _ _ = _ |- _ => apply checked_add_Some in Hc as [? ->] end.
  b2p. split; [|done]. unfold slice_ok. cbn. split; [done|lia].
Qed.

Lemma slice_read s offset n :
  slice_ok s -> 0 <= offset -> 0 <= n -> offset + n <= sl_len s ->
  SlicedImage_read_exact_at s offset n = image_read (sl_source s) (sl_base s + offset) n.
Proof.
  intros ([Hlen _] & Hb & Hl & Hin) Ho Hn Hfit. unfold SlicedImage_read_exact_at, checked_add, add.
  rewrite (proj2 (Z.leb_le _ U64_MAX)) by u64. cbn [ok_or bind]. rewrite (proj2 (Z.ltb_ge _ _)) by lia.
  rewrite (proj2 (Z.leb_le _ U64_MAX)) by u64. done.
Qed.

Lemma slice_image_ok s : slice_ok s -> image_ok (SlicedImage_image s).
Proof.
  intros Hs. pose proof Hs as (Hi & Hb & Hl & Hin). pose proof Hi as [Hlen _]. split; [cbn; u64|]. intros offset n Ho Hn. cbn [image_read SlicedImage_image].
  destruct (Z.le_gt_cases (offset + n) (sl_len s)).
  - rewrite slice_read by (done || u64). apply wp_image_read; [done|u64|done|]. by intros bytes [? ?].
  - unfold SlicedImage_read_exact_at. wp_step. wp_step. match goal with Hc : checked_add _ _ = _ |- _ => apply checked_add_Some in Hc as [? ->] end.
    rewrite (proj2 (Z.ltb_lt _ _)) by lia. apply wp_Err.
Qed.

(** The cursor stays inside its source, and what it reads is there. *)
Definition cursor_ok (c : SourceCursor) : Prop := image_ok (cu_source c) /\ 0 <= cu_position c <= image_len (cu_source c).

Lemma wp_SourceCursor_read c n :
  cursor_ok c -> 0 <= n <= ISIZE_MAX ->
  wp (SourceCursor_read c n) (fun '(bytes, c') =>
    len bytes = Z.min n (image_len (cu_source c) - cu_position c) /\ bytes_ok bytes /\
    cursor_ok c' /\ cu_source c' = cu_source c /\ cu_position c' = cu_position c + len bytes).
Proof.
  intros [Hi Hp] Hn. pose proof Hi as [Hlen _]. unfold SourceCursor_read. destruct (_ || _) eqn:He.
  - apply wp_Ok. change (len []) with 0. apply orb_true_iff in He as [He|He]; b2p; (split; [lia|]; split; [by apply Forall_nil|]; split; [done|]; split; [done|lia]).
  - b2p. apply wp_bind, wp_sub; [lia|]. cbv zeta. apply wp_bind, wp_image_read; [done|u64|lia|]. intros bytes [Hl Hb].
    apply wp_bind, wp_add; [u64|]. apply wp_Ok. cbn [cu_source cu_position]. split; [lia|]. split; [done|].
    split; [|split; [done|lia]]. split; [done|cbn; lia].
Qed.

Lemma wp_SourceCursor_seek c position :
  cursor_ok c -> wp (SourceCursor_seek c position) (fun '(next, c') => cursor_ok c' /\ cu_source c' = cu_source c /\ cu_position c' = next).
Proof. intros [Hi _]. unfold SourceCursor_seek. cbv zeta. wp_steps. b2p. split; [|done]. split; [done|cbn; lia]. Qed.

(** An image held in memory. *)
Definition bytes_image (l : list Z) : ImageRead := {|
  image_len := len l;
  image_read offset n := ok_or (get_range l offset (offset + n)) (Foreign "read outside the image") |}.

Lemma bytes_image_ok l : bytes_ok l -> len l <= U64_MAX -> image_ok (bytes_image l).
Proof.
  intros Hb Hl. pose proof (len_nonneg l). split; [cbn; u64|]. intros offset n Ho Hn. cbn. apply wp_ok_or. intros bytes Hg.
  apply get_range_len in Hg as Hlen. apply get_range_Some in Hg as (_ & _ & ->). split; [lia|auto with zse].
Qed.

(** ** Images of bytes

    What an image promises to those who read it: it is these bytes. *)
Class ImageOf (i : ImageRead) (l : list Z) : Prop := {
  image_of_len : image_len i = len l;
  image_of_bytes : bytes_ok l;
  image_of_max : len l <= U64_MAX;
  image_of_read : forall offset n, 0 <= offset -> 0 <= n -> offset + n <= len l -> image_read i offset n = Ok (ztake n (zdrop offset l));
  image_of_out : forall offset n, 0 <= offset -> 0 <= n -> len l < offset + n -> exists e, image_read i offset n = Err e;
}.

Lemma image_of_ok i l : ImageOf i l -> image_ok i.
Proof.
  intros [Hl Hb Hm Hr Ho]. pose proof (len_nonneg l). split; [u64|]. intros offset n [Hoff _] [Hn _].
  destruct (Z.le_gt_cases (offset + n) (len l)) as [Hin|Hout].
  - rewrite Hr by done. apply wp_Ok. split; [rewrite len_ztake, len_zdrop; lia|auto with zse].
  - destruct (Ho offset n) as [e ->]; [done|done|lia|]. apply wp_Err.
Qed.

#[export] Instance bytes_image_of l : bytes_ok l -> len l <= U64_MAX -> ImageOf (bytes_image l) l.
Proof.
  intros Hb Hm. split; [done|done|done| |]; intros offset n Ho Hn Hin; cbn [image_read bytes_image].
  - assert (get_range l offset (offset + n) = Some (ztake n (zdrop offset l))) as ->; [|done].
    apply get_range_Some. split; [lia|]. split; [lia|]. f_equal. lia.
  - destruct (get_range l offset (offset + n)) as [s|] eqn:Hg; [|by eexists]. apply get_range_Some in Hg as (_ & Hle & _). lia.
Qed.

Lemma slice_image_of source l base n :
  ImageOf source l -> 0 <= base -> 0 < n -> base + n <= len l ->
  ImageOf (SlicedImage_image {| sl_source := source; sl_base := base; sl_len := n |}) (ztake n (zdrop base l)).
Proof.
  intros Hi Hb Hn Hin. pose proof Hi as [Hl Hbytes Hm Hr Ho]. assert (len (ztake n (zdrop base l)) = n) as Hln by (rewrite len_ztake, len_zdrop; lia).
  assert (slice_ok {| sl_source := source; sl_base := base; sl_len := n |}) as Hs by (split; [by eapply image_of_ok|cbn; lia]).
  split; [cbn; lia|auto with zse|lia| |]; intros offset k Hoff Hk Hfit; rewrite Hln in Hfit; cbn [image_read SlicedImage_image].
  - rewrite (slice_read _ offset k Hs) by (cbn; lia). cbn [sl_source sl_base]. rewrite Hr by lia. f_equal.
    rewrite (ztake_zdrop_comm n), ztake_zdrop_comm by lia. rewrite zdrop_zdrop by lia. rewrite (ztake_zdrop_comm k (base + offset)) by lia.
    rewrite ztake_ztake by lia. do 2 f_equal; lia.
  - unfold SlicedImage_read_exact_at. destruct (checked_add offset k) as [end_|] eqn:Hc; [|by eexists]. apply checked_add_Some in Hc as [_ ->].
    cbn [ok_or bind sl_len]. rewrite (proj2 (Z.ltb_lt n (offset + k))) by lia. by eexists.
Qed.
