(* ===== verification/Partitions.v ===== *)
(** Partition tables of a disk image, src/src/inception.rs lines 1321-1640: GPT with
    its backup header, MBR with logical partitions. *)

From S2P Require Import Prelude Bytes Utf8 Stream Compression NvList Encrypted EncryptedDnode Paths.
From S2P Require Import Snapshots.
From S2P Require Import Operations Image DiskImage.

(** ** Constants (lines 33-35) *)

Definition MAX_GPT_ENTRIES : Z := 16384.
Definition MAX_GPT_ENTRY_BYTES : Z := 64 * 1024 * 1024.
Definition MAX_EBR_PARTITIONS : nat := 128.

(** ** What the language does for it *)

Definition saturating_mul (a b : Z) : Z := Z.min (a * b) U64_MAX.

(** [chunks_exact(n)]: what does not fill a chunk is left out. *)
Definition chunks_exact {A} (n : Z) (l : list A) : list (list A) := chunks n (ztake (len l / n * n) l).

(** The [Display] of an unsigned integer below 10^20. *)
Fixpoint decimal_digits (fuel : nat) (n : Z) : list Z :=
  match fuel with
  | O => []
  | S fuel => (if n <? 10 then [] else decimal_digits fuel (n / 10)) ++ [48 + n mod 10]
  end.
Definition decimal (n : Z) : list Z := decimal_digits 20 n.

(** [{:0nx}] *)
Definition hex_padded (digits n : Z) : list Z :=
  map (fun k => hex_lower (Z.land (Z.shiftr n (4 * (digits - 1 - k))) 15)) (seqZ 0 digits).

(** A character as UTF-8. *)
Definition encode_utf8 (c : Z) : list Z :=
  if c <? 128 then [c]
  else if c <? 2048 then [192 + c / 64; 128 + c mod 64]
  else if c <? 65536 then [224 + c / 4096; 128 + c / 64 mod 64; 128 + c mod 64]
  else [240 + c / 262144; 128 + c / 4096 mod 64; 128 + c / 64 mod 64; 128 + c mod 64].

(** [String::from_utf16_lossy]: surrogates without their partner become U+FFFD. *)
Fixpoint from_utf16_lossy (units : list Z) : list Z :=
  match units with
  | [] => []
  | u :: rest =>
      if (0xd800 <=? u) && (u <? 0xdc00) then
        match rest with
        | v :: rest' =>
            if (0xdc00 <=? v) && (v <? 0xe000)
            then encode_utf8 (0x10000 + (u - 0xd800) * 1024 + (v - 0xdc00)) ++ from_utf16_lossy rest'
            else REPLACEMENT ++ from_utf16_lossy rest
        | [] => REPLACEMENT
        end
      else if (0xdc00 <=? u) && (u <? 0xe000) then REPLACEMENT ++ from_utf16_lossy rest
      else encode_utf8 u ++ from_utf16_lossy rest
  end.

Fixpoint take_while {A} (p : A -> bool) (l : list A) : list A :=
  match l with
  | [] => []
  | a :: l => if p a then a :: take_while p l else []
  end.

(** ** GPT (lines 1356-1512) *)

Record PartitionLayout := {
  pl_selector : list Z; pl_scheme : list Z; pl_partition : Z; pl_offset : Z; pl_length : Z;
  pl_partition_type : list Z; pl_name : list Z;
}.

Definition format_gpt_guid (bytes : list Z) : result (list Z) :=
  let! a := slice bytes 0 4 in
  let! b := slice bytes 4 6 in
  let! c := slice bytes 6 8 in
  let! d := slice bytes 8 10 in
  let! e := slice bytes 10 16 in
  Ok (hex_padded 8 (le_val a) ++ [45] ++ hex_padded 4 (le_val b) ++ [45] ++ hex_padded 4 (le_val c) ++ [45] ++
      concat (map (hex_padded 2) d) ++ [45] ++ concat (map (hex_padded 2) e)).

Definition EFI_PART : list Z := bytes_of_string "EFI PART".

Section gpt.
Context `{Crc32}.

Definition gpt_name (entry : list Z) : result (list Z) :=
  let! bytes := slice entry 56 (Z.min (len entry) 128) in
  Ok (from_utf16_lossy (take_while (fun value => negb (value =? 0)) (map le_val (chunks_exact 2 bytes)))).

(** A round of the loop over the entries. *)
Definition gpt_entry (sector_size first_usable_lba last_usable_lba : Z) (partitions : list PartitionLayout)
    (e : Z * list Z) : result (list PartitionLayout) :=
  let '(index, entry) := e in
  let! type := slice entry 0 16 in
  if all_zero type then Ok partitions
  else
    let! first_lba := le_u64 entry 32 in
    let! last_lba := le_u64 entry 40 in
    fail! (first_lba <? first_usable_lba) || (last_lba <? first_lba) || (last_usable_lba <? last_lba)
      with Msg "GPT partition {} range {first_lba}..={last_lba} is outside the usable range" [index + 1; first_lba; last_lba] in
    let! offset := ok_or (checked_mul first_lba sector_size) (Msg "GPT partition offset overflows" []) in
    let! difference := sub last_lba first_lba in
    let! count := add difference 1 in
    let! length := ok_or (checked_mul count sector_size) (Msg "GPT partition length overflows" []) in
    let! name := gpt_name entry in
    let! partition_type := format_gpt_guid type in
    Ok (partitions ++ [{| pl_selector := bytes_of_string "gpt" ++ decimal (index + 1);
      pl_scheme := bytes_of_string "gpt"; pl_partition := index + 1; pl_offset := offset; pl_length := length;
      pl_partition_type := partition_type; pl_name := name |}]).

(** The header, once its checksum and its own address are right: the usable
    range and where the entries are. *)
Record GptHeader := {
  gh_first_usable : Z; gh_last_usable : Z; gh_entry_lba : Z; gh_entry_count : Z; gh_entry_size : Z;
  gh_entries_crc : Z;
}.

Definition parse_gpt_header (source : ImageRead) (sector_size header_lba : Z) : result GptHeader :=
  let! at_ := mul header_lba sector_size in
  let! sector := image_read source at_ sector_size in
  let! signature := slice sector 0 8 in
  fail! negb (bytes_eqb signature EFI_PART) with Msg "missing GPT signature" [] in
  let! header_size := le_u32 sector 12 in
  fail! negb ((92 <=? header_size) && (header_size <=? len sector))
    with Msg "invalid GPT header size {header_size}" [header_size] in
  let! expected_header_crc := le_u32 sector 16 in
  let! header := slice sector 0 header_size in
  let! header := fill header 16 20 0 in
  fail! negb (crc32_hash header =? expected_header_crc)
    with Msg "GPT header CRC mismatch (stored {expected_header_crc:#010x}, computed {actual_header_crc:#010x})"
      [expected_header_crc; crc32_hash header] in
  let! current_lba := le_u64 sector 24 in
  fail! negb (current_lba =? header_lba)
    with Msg "GPT current LBA is {current_lba}, expected {header_lba}" [current_lba; header_lba] in
  let total_lbas := image_len source / sector_size in
  let! alternate_lba := le_u64 sector 32 in
  fail! (total_lbas <=? alternate_lba) || (alternate_lba =? current_lba)
    with Msg "GPT alternate LBA {alternate_lba} is invalid" [alternate_lba] in
  let! first_usable_lba := le_u64 sector 40 in
  let! last_usable_lba := le_u64 sector 48 in
  fail! (first_usable_lba =? 0) || (last_usable_lba <? first_usable_lba) || (total_lbas <=? last_usable_lba)
    with Msg "GPT usable range {first_usable_lba}..={last_usable_lba} is outside the nested disk"
      [first_usable_lba; last_usable_lba] in
  let! entry_lba := le_u64 sector 72 in
  let! entry_count := le_u32 sector 80 in
  let! entry_size := le_u32 sector 84 in
  let! expected_entries_crc := le_u32 sector 88 in
  fail! (entry_count =? 0) || (MAX_GPT_ENTRIES <? entry_count)
    with Msg "GPT entry count {entry_count} is outside 1..={MAX_GPT_ENTRIES}" [entry_count] in
  fail! negb ((128 <=? entry_size) && (entry_size <=? 4096)) || negb (entry_size mod 8 =? 0)
    with Msg "GPT entry size {entry_size} is invalid" [entry_size] in
  Ok {| gh_first_usable := first_usable_lba; gh_last_usable := last_usable_lba; gh_entry_lba := entry_lba;
        gh_entry_count := entry_count; gh_entry_size := entry_size; gh_entries_crc := expected_entries_crc |}.

(** The entry array (lines 1432-1456). *)
Definition read_gpt_entries (source : ImageRead) (sector_size : Z) (header : GptHeader) : result (list Z) :=
  let! entries_len := ok_or (checked_mul (gh_entry_count header) (gh_entry_size header))
    (Msg "GPT entry-array size overflows" []) in
  fail! MAX_GPT_ENTRY_BYTES <? entries_len with Msg "GPT entry array exceeds the 64 MiB safety limit" [] in
  let! entries_offset := ok_or (checked_mul (gh_entry_lba header) sector_size) (Msg "GPT entry-array offset overflows" []) in
  let! entries_end := ok_or (checked_add entries_offset entries_len) (Msg "GPT entry-array end overflows" []) in
  fail! image_len source <? entries_end with Msg "GPT entry array is outside the nested image" [] in
  let! entries := image_read source entries_offset entries_len in
  fail! negb (crc32_hash entries =? gh_entries_crc header)
    with Msg "GPT entry-array CRC mismatch (stored {expected_entries_crc:#010x}, computed {actual_entries_crc:#010x})"
      [gh_entries_crc header; crc32_hash entries] in
  Ok entries.

Definition parse_gpt (source : ImageRead) (sector_size header_lba : Z) : result (list PartitionLayout) :=
  let! header := parse_gpt_header source sector_size header_lba in
  let! entries := read_gpt_entries source sector_size header in
  fold_res (gpt_entry sector_size (gh_first_usable header) (gh_last_usable header)) []
    (enumerate (chunks_exact (gh_entry_size header) entries)).

(** Where headers are looked for: sector 1 and the last, with two sector sizes. *)
Definition gpt_candidates (source : ImageRead) : list (Z * Z) :=
  concat (map (fun sector_size =>
    if image_len source <? saturating_mul sector_size 2 then []
    else [(sector_size, 1); (sector_size, image_len source / sector_size - 1)]) [512; 4096]).

(** The two nested loops; [errors] only words the message. *)
Fixpoint gpt_search (source : ImageRead) (candidates : list (Z * Z)) (saw_signature : bool)
  : result (option (list PartitionLayout)) :=
  match candidates with
  | [] =>
      fail! saw_signature with Msg "GPT signatures were found but no header validated ({})" [] in
      Ok None
  | (sector_size, lba) :: candidates =>
      let offset := saturating_mul lba sector_size in
      catch (image_read source offset 8) (fun signature =>
        if negb (bytes_eqb signature EFI_PART) then gpt_search source candidates saw_signature
        else
          catch (parse_gpt source sector_size lba) (fun partitions => Ok (Some partitions))
            (fun _ => gpt_search source candidates true))
        (fun _ => gpt_search source candidates saw_signature)
  end.

Definition discover_gpt (source : ImageRead) : result (option (list PartitionLayout)) :=
  gpt_search source (gpt_candidates source) false.
End gpt.

(** ** MBR (lines 1514-1640) *)

Definition mbr_layout (source : ImageRead) (number kind start_lba sectors : Z) : result PartitionLayout :=
  let! offset := ok_or (checked_mul start_lba 512) (Msg "MBR partition offset overflows" []) in
  let! length := ok_or (checked_mul sectors 512) (Msg "MBR partition length overflows" []) in
  let! end_ := ok_or (checked_add offset length) (Msg "MBR partition end overflows" []) in
  fail! (start_lba =? 0) || (image_len source <? end_)
    with Msg "MBR partition {number} lies outside the nested image" [number] in
  Ok {| pl_selector := bytes_of_string "mbr" ++ decimal number; pl_scheme := bytes_of_string "mbr";
        pl_partition := number; pl_offset := offset; pl_length := length;
        pl_partition_type := bytes_of_string "0x" ++ hex_padded 2 kind; pl_name := [] |}.

Definition is_extended (kind : Z) : bool := (kind =? 0x05) || (kind =? 0x0f) || (kind =? 0x85).

(** The type, the start and the number of sectors of a table entry. *)
Definition mbr_entry (sector : list Z) (at_ : Z) : result (Z * Z * Z) :=
  let! entry := slice sector at_ (at_ + 16) in
  let! kind := index entry 4 in
  let! start := le_u32 entry 8 in
  let! sectors := le_u32 entry 12 in
  Ok (kind, start, sectors).

(** The four entries of the table: the primary partitions and the extended
    containers. *)
Definition mbr_primary (source : ImageRead) (sector : list Z) (s : list PartitionLayout * list (Z * Z)) (index : Z)
  : result (list PartitionLayout * list (Z * Z)) :=
  let '(partitions, extended) := s in
  let! (kind, start, sectors) := mbr_entry sector (446 + index * 16) in
  if (kind =? 0) || (sectors =? 0) then Ok s
  else if is_extended kind then Ok (partitions, extended ++ [(start, sectors)])
  else
    let! layout := mbr_layout source (index + 1) kind start sectors in
    Ok (partitions ++ [layout], extended).

(** The chain of boot records of a container; the bound on it is the code's own.
    [logical_number] is a u32 that counts at most 512 partitions. *)
Fixpoint ebr_loop (rounds : nat) (source : ImageRead) (base container_sectors container_end : Z)
    (ebr_lba : Z) (seen : gset Z) (s : list PartitionLayout * Z) : result (list PartitionLayout * Z) :=
  match rounds with
  | O => Err (Msg "MBR extended-partition chain exceeds {MAX_EBR_PARTITIONS} entries" [])
  | S rounds =>
      let '(partitions, logical_number) := s in
      fail! bool_decide (ebr_lba ∈ seen)
        with Msg "MBR extended-partition chain contains a loop at LBA {ebr_lba}" [ebr_lba] in
      let! offset := ok_or (checked_mul ebr_lba 512) (Msg "EBR offset overflows" []) in
      let! ebr := with_context "reading EBR at LBA {ebr_lba}" [ebr_lba] (image_read source offset 512) in
      let! signature := slice ebr 510 512 in
      fail! negb (bytes_eqb signature [0x55; 0xaa])
        with Msg "extended partition has an invalid EBR signature at LBA {ebr_lba}" [ebr_lba] in
      let! (kind, relative, sectors) := mbr_entry ebr 446 in
      let! s :=
        if negb (kind =? 0) && negb (sectors =? 0) then
          let! start := ok_or (checked_add ebr_lba relative) (Msg "logical MBR partition LBA overflows" []) in
          let! logical_end := ok_or (checked_add start sectors) (Msg "logical MBR partition range overflows" []) in
          fail! (start <? base) || (container_end <? logical_end)
            with Msg "logical MBR partition lies outside its extended container" [] in
          let! layout := mbr_layout source logical_number kind start sectors in
          Ok (partitions ++ [layout], logical_number + 1)
        else Ok (partitions, logical_number) in
      let! (next_kind, next_relative, next_sectors) := mbr_entry ebr 462 in
      if (next_kind =? 0) || (next_sectors =? 0) then Ok s
      else
        fail! negb (is_extended next_kind)
          with Msg "EBR link entry has non-extended partition type 0x{:02x}" [next_kind] in
        fail! container_sectors <=? next_relative
          with Msg "next EBR lies outside its extended-partition container" [] in
        let! next := ok_or (checked_add base next_relative) (Msg "next EBR LBA overflows" []) in
        ebr_loop rounds source base container_sectors container_end next ({[ebr_lba]} ∪ seen) s
  end.

Definition mbr_container (source : ImageRead) (s : list PartitionLayout * Z) (container : Z * Z)
  : result (list PartitionLayout * Z) :=
  let '(base, container_sectors) := container in
  let! container_end := ok_or (checked_add base container_sectors) (Msg "MBR extended-partition range overflows" []) in
  fail! (base =? 0) || (image_len source <? saturating_mul container_end 512)
    with Msg "MBR extended-partition container lies outside the nested image" [] in
  ebr_loop MAX_EBR_PARTITIONS source base container_sectors container_end base ∅ s.

Definition discover_mbr (source : ImageRead) : result (list PartitionLayout) :=
  if image_len source <? 512 then Ok []
  else
    let! sector := image_read source 0 512 in
    let! signature := slice sector 510 512 in
    if negb (bytes_eqb signature [0x55; 0xaa]) then Ok []
    else
      let! (partitions, extended) := fold_res (mbr_primary source sector) ([], []) (seqZ 0 4) in
      let! (partitions, _) := fold_res (mbr_container source) (partitions, 5) extended in
      Ok partitions.
