(* ===== verification/Volumes.v ===== *)
(** Inspecting a disk image, src/src/inception.rs: the container (lines 640-741),
    the file system of a volume (1331-1354, 1642-1738), the session with its
    volumes (133-141, 286-340) and their selection (488-534). Container and file
    system parsers are crates. *)

From S2P Require Import Prelude Bytes Utf8 Stream Compression NvList Encrypted EncryptedDnode Paths.
From S2P Require Import Snapshots.
From S2P Require Import Operations Image DiskImage Partitions.

(** ** Crates *)

Inductive FatVariant := VariantFat12 | VariantFat16 | VariantFat32 | VariantExFat.

(** What the code calls of the crates qcow2, vmdk, ntfs, fat and ext4-view. The
    readers are handed a cursor over an image or the image itself. *)
Class DiskCrates := {
  Qcow2Reader : Type;
  qcow2_from_reader : ImageRead -> result Qcow2Reader;
  virtual_disk_size : Qcow2Reader -> Z;
  qcow2_read : Qcow2Reader -> Z -> Z -> result (list Z);
  VmdkReader : Type;
  vmdk_open_on_device : ImageRead -> result VmdkReader;
  virtual_size : VmdkReader -> Z;
  vmdk_read_at : VmdkReader -> Z -> Z -> result (list Z);
  ntfs_new : ImageRead -> result unit;
  fat_open : ImageRead -> result FatVariant;
  ext4_load : ImageRead -> result unit;
}.

(** ** The container (lines 66-88, 640-741) *)

Inductive DiskContainerKind := ContainerRaw | ContainerQcow2 | ContainerVmdk.

Section container.
Context `{DiskCrates}.

Record QcowImage := { qc_reader : Qcow2Reader; qc_length : Z }.

(** [seek] and [read_exact] of the reader behind the lock. *)
Definition QcowImage_read_exact_at (self : QcowImage) (offset n : Z) : result (list Z) :=
  let! end_ := ok_or (checked_add offset n) (Msg "QCOW2 virtual read offset overflows" []) in
  fail! qc_length self <? end_
    with Msg "QCOW2 virtual read [{offset}, {end}) exceeds {} bytes" [offset; end_; qc_length self] in
  qcow2_read (qc_reader self) offset n.

Definition QcowImage_image (self : QcowImage) : ImageRead :=
  {| image_len := qc_length self; image_read := QcowImage_read_exact_at self |}.

Definition VmdkImage_image (self : VmdkReader) : ImageRead :=
  {| image_len := virtual_size self; image_read := vmdk_read_at self |}.

(** [windows(n).any(..)] over the bytes of a pattern of that length. *)
Fixpoint has_window (pattern l : list Z) : bool :=
  match l with
  | [] => false
  | _ :: rest => bytes_eqb (ztake (len pattern) l) pattern || has_window pattern rest
  end.

Definition starts_with (pattern l : list Z) : bool := bytes_eqb (ztake (len pattern) l) pattern.

Definition open_disk_container (source : ImageRead) : result (DiskContainerKind * ImageRead) :=
  let! header := image_read source 0 512 in
  let! magic := slice header 0 4 in
  if bytes_eqb magic [81; 70; 73; 0xfb] then
    let! version_bytes := slice header 4 8 in
    let version := be_val version_bytes in
    fail! negb ((2 <=? version) && (version <=? 3))
      with Msg "QCOW version {version} is not supported; inception mode requires a self-contained QCOW2 v2 or v3 image" [version] in
    let! reader := with_context "opening QCOW2 container" [] (qcow2_from_reader source) in
    Ok (ContainerQcow2, QcowImage_image {| qc_reader := reader; qc_length := virtual_disk_size reader |})
  else if bytes_eqb magic (bytes_of_string "KDMV") then
    let! reader := with_context "opening VMDK container" [] (vmdk_open_on_device source) in
    Ok (ContainerVmdk, VmdkImage_image reader)
  else
    fail! starts_with (bytes_of_string "# Disk DescriptorFile") header || has_window (bytes_of_string "createType") header
      with Msg "this is a VMDK descriptor that references external extent files; inception mode currently supports self-contained monolithicSparse VMDK files only" [] in
    Ok (ContainerRaw, source).
End container.

(** ** The file system of a volume *)

Inductive FilesystemKind := Ntfs | Fat12 | Fat16 | Fat32 | Exfat | Ext4.

Record VolumeInfo := {
  vi_selector : list Z; vi_scheme : list Z; vi_partition : Z; vi_offset : Z; vi_length : Z;
  vi_partition_type : list Z; vi_name : list Z; vi_filesystem : option FilesystemKind; vi_diagnostic : option error;
}.

Definition volume_info (layout : PartitionLayout) (filesystem : option FilesystemKind) (diagnostic : option error) : VolumeInfo := {|
  vi_selector := pl_selector layout; vi_scheme := pl_scheme layout; vi_partition := pl_partition layout;
  vi_offset := pl_offset layout; vi_length := pl_length layout; vi_partition_type := pl_partition_type layout;
  vi_name := pl_name layout; vi_filesystem := filesystem; vi_diagnostic := diagnostic |}.

Definition is_power_of_two (n : Z) : bool := (0 <? n) && (Z.land n (n - 1) =? 0).

Definition looks_like_fat (boot : list Z) : result bool :=
  let! bytes_per_sector := slice boot 11 13 in
  let! sectors_per_cluster := index boot 13 in
  let! reserved_sectors := slice boot 14 16 in
  let! fat_count := index boot 16 in
  let! total_sectors_16 := slice boot 19 21 in
  let! total_sectors_32 := slice boot 32 36 in
  let! signature := slice boot 510 512 in
  Ok (bytes_eqb signature [0x55; 0xaa] && bool_decide (le_val bytes_per_sector ∈ [512; 1024; 2048; 4096])
      && is_power_of_two sectors_per_cluster && negb (le_val reserved_sectors =? 0)
      && bool_decide (fat_count ∈ [1; 2])
      && (negb (le_val total_sectors_16 =? 0) || negb (le_val total_sectors_32 =? 0))).

Definition fat_kind (variant : FatVariant) : FilesystemKind :=
  match variant with
  | VariantFat12 => Fat12
  | VariantFat16 => Fat16
  | VariantFat32 => Fat32
  | VariantExFat => Exfat
  end.

(** The layout of the whole disk as one volume (lines 307-316, 1341-1349). *)
Definition raw_layout (length : Z) : PartitionLayout := {|
  pl_selector := bytes_of_string "raw"; pl_scheme := bytes_of_string "raw"; pl_partition := 0; pl_offset := 0;
  pl_length := length; pl_partition_type := bytes_of_string "unpartitioned"; pl_name := [] |}.

Section probe.
Context `{DiskCrates} `{Crc32}.

(** A file system it is, or the reason why not. Nothing in it is an error. *)
Definition probe_filesystem (sliced : SlicedImage) (layout : PartitionLayout) (boot : list Z) : result VolumeInfo :=
  let image := SlicedImage_image sliced in
  let! oem := slice boot 3 11 in
  if bytes_eqb oem (bytes_of_string "NTFS    ") then
    catch (ntfs_new image) (fun _ => Ok (volume_info layout (Some Ntfs) None))
      (fun error => Ok (volume_info layout None (Some (Context "invalid NTFS: {error}" [] error))))
  else
    let! fat := if bytes_eqb oem (bytes_of_string "EXFAT   ") then Ok true else looks_like_fat boot in
    let unrecognized := volume_info layout None (Some (Msg "no supported filesystem signature was found" [])) in
    if fat then
      catch (fat_open image) (fun variant => Ok (volume_info layout (Some (fat_kind variant)) None))
        (fun error => Ok (volume_info layout None (Some (Context "invalid FAT-family filesystem: {error}" [] error))))
    else if 1082 <=? pl_length layout then
      catch (SlicedImage_read_exact_at sliced (1024 + 56) 2) (fun magic =>
          if bytes_eqb magic [0x53; 0xef] then
            catch (with_context "opening ext filesystem" [] (ext4_load image)) (fun _ => Ok (volume_info layout (Some Ext4) None))
              (fun error => Ok (volume_info layout None (Some (Context "invalid ext filesystem: {error:#}" [] error))))
          else Ok unrecognized)
        (fun _ => Ok unrecognized)
    else Ok unrecognized.

Definition probe_volume (source : ImageRead) (layout : PartitionLayout) : result VolumeInfo :=
  catch (SlicedImage_new source (pl_offset layout) (pl_length layout)) (fun sliced =>
      catch (SlicedImage_read_exact_at sliced 0 512) (probe_filesystem sliced layout)
        (fun error => Ok (volume_info layout None (Some (Context "reading boot sector: {error:#}" [] error)))))
    (fun error => Ok (volume_info layout None (Some error))).

Definition discover_partitions (source : ImageRead) : result (list PartitionLayout) :=
  let! gpt := discover_gpt source in
  match gpt with
  | Some result => Ok result
  | None =>
      let! raw := probe_volume source (raw_layout (image_len source)) in
      match vi_filesystem raw with
      | Some _ => Ok []
      | None => discover_mbr source
      end
  end.

(** ** The session *)

Record InceptionSession := {
  se_source : ImageRead; se_image_path : list Z; se_stored_size : Z; se_disk_size : Z;
  se_container : DiskContainerKind; se_image_offset : Z; se_volumes : list VolumeInfo;
}.

Definition inspect_source_at (source : ImageRead) (image_path : list Z) (image_offset : Z) (image_length : option Z)
  : result InceptionSession :=
  fail! image_len source <? image_offset
    with Msg "nested image offset {image_offset} exceeds ZFS file size {}" [image_offset; image_len source] in
  let! rest := sub (image_len source) image_offset in
  let stored_size := default rest image_length in
  let! window := SlicedImage_new source image_offset stored_size in
  fail! stored_size <? 512 with Msg "nested image window is only {stored_size} bytes" [stored_size] in
  let! (container, source) := open_disk_container (SlicedImage_image window) in
  let disk_size := image_len source in
  fail! disk_size <? 512 with Msg "nested virtual disk is only {disk_size} bytes" [disk_size] in
  let! layouts := discover_partitions source in
  let layouts := match layouts with [] => [raw_layout disk_size] | _ => layouts end in
  let! volumes := map_res (probe_volume source) layouts in
  Ok {| se_source := source; se_image_path := image_path; se_stored_size := stored_size; se_disk_size := disk_size;
        se_container := container; se_image_offset := image_offset; se_volumes := volumes |}.
End probe.

(** [str::eq_ignore_ascii_case] *)
Definition to_ascii_lowercase (b : Z) : Z := if (65 <=? b) && (b <=? 90) then b + 32 else b.
Definition eq_ignore_ascii_case (a b : list Z) : bool := bytes_eqb (map to_ascii_lowercase a) (map to_ascii_lowercase b).

Definition select_volume (self : InceptionSession) (selector : option (list Z)) : result VolumeInfo :=
  match selector with
  | Some selector =>
      ok_or (List.find (fun volume => eq_ignore_ascii_case (vi_selector volume) selector) (se_volumes self))
        (Msg "volume {selector:?} was not found (available: {})" [])
  | None =>
      match List.filter (fun volume => bool_decide (is_Some (vi_filesystem volume))) (se_volumes self) with
      | [only] => Ok only
      | [] => Err (Msg "{} contains no supported NTFS, FAT, exFAT, or ext filesystem" [])
      | _ => Err (Msg "{} contains multiple supported volumes ({}); choose one with --volume" [])
      end
  end.

Definition volume_source (self : InceptionSession) (volume : VolumeInfo) : result SlicedImage :=
  SlicedImage_new (se_source self) (vi_offset volume) (vi_length volume).
