(* ===== verification/PartitionFacts.v ===== *)
(** What the partition tables of [Partitions] and the volumes of [Volumes] keep:
    every layout lies inside its image, and its selector is its own. Then a
    reference writer of GPT headers and entries, and that the reader of
    [Partitions] reads back what it wrote. *)

From S2P Require Import Prelude Bytes Utf8 Stream StreamFacts StreamWriter Compression NvList Encrypted EncryptedDnode EncryptedFacts.
From S2P Require Import Paths Snapshots Operations Image DiskImage Partitions Volumes.

(** ** Decimal numbers *)

Definition decimal_value (l : list Z) : Z := foldl (fun v d => 10 * v + (d - 48)) 0 l.

Lemma decimal_digits_value fuel n : 0 <= n < 10 ^ Z.of_nat fuel -> decimal_value (decimal_digits fuel n) = n.
Proof.
  revert n. induction fuel as [|fuel IH]; intros n Hn; [cbn in *; lia|]. cbn [decimal_digits].
  rewrite Nat2Z.inj_succ, Z.pow_succ_r in Hn by lia. unfold decimal_value. rewrite foldl_app. cbn [foldl].
  assert (foldl (fun v d => 10 * v + (d - 48)) 0 (if n <? 10 then [] else decimal_digits fuel (n / 10)) = n / 10) as ->.
  { destruct (Z.ltb_spec n 10); [cbn; symmetry; apply Z.div_small; lia|]. apply IH.
    split; [apply Z.div_pos; lia|]. apply Z.div_lt_upper_bound; lia. }
  pose proof (Z.div_mod n 10). lia.
Qed.

Definition MAX_NUMBER : Z := 1000000.

Lemma decimal_inj n m : 0 <= n <= MAX_NUMBER -> 0 <= m <= MAX_NUMBER -> decimal n = decimal m -> n = m.
Proof.
  unfold MAX_NUMBER, decimal. intros Hn Hm He. rewrite <- (decimal_digits_value 20 n), <- (decimal_digits_value 20 m) by (cbn; lia).
  by rewrite He.
Qed.

Lemma decimal_digits_range fuel n : 0 <= n -> Forall (fun d => 48 <= d <= 57) (decimal_digits fuel n).
Proof.
  revert n. induction fuel as [|fuel IH]; intros n Hn; cbn [decimal_digits]; [by apply Forall_nil|]. apply Forall_app. split.
  - destruct (n <? 10); [by apply Forall_nil|]. apply IH. apply Z.div_pos; lia.
  - apply Forall_singleton. pose proof (Z.mod_pos_bound n 10). lia.
Qed.

(** ** Numbered layouts *)

(** A selector has no upper-case letters. *)
Definition lowercase (l : list Z) : Prop := map to_ascii_lowercase l = l.

Lemma lowercase_decimal scheme n : lowercase scheme -> 0 <= n -> lowercase (scheme ++ decimal n).
Proof.
  unfold lowercase. intros Hs Hn. rewrite map_app, Hs. f_equal. pose proof (decimal_digits_range 20 n Hn) as Hd.
  unfold decimal. induction Hd as [|d l Hd _ IH]; [done|]. cbn [map]. rewrite IH. f_equal. unfold to_ascii_lowercase.
  by rewrite (proj2 (Z.leb_gt 65 d)) by lia.
Qed.

Definition layout_inside (source : ImageRead) (p : PartitionLayout) : Prop :=
  0 <= pl_offset p /\ 0 < pl_length p /\ pl_offset p + pl_length p <= image_len source.

(** The partitions of a table, with numbers up to [hi]. *)
Definition numbered (source : ImageRead) (scheme : list Z) (hi : Z) (l : list PartitionLayout) : Prop :=
  NoDup (map pl_partition l) /\
  Forall (fun p => layout_inside source p /\ 1 <= pl_partition p <= hi /\ pl_selector p = scheme ++ decimal (pl_partition p)) l.

Lemma numbered_nil source scheme hi : numbered source scheme hi [].
Proof. split; [constructor|by apply Forall_nil]. Qed.

Lemma numbered_mono source scheme hi hi' l : hi <= hi' -> numbered source scheme hi l -> numbered source scheme hi' l.
Proof. intros Hle [Hd Hf]. split; [done|]. eapply Forall_impl; [exact Hf|]. intros p (?&?&?). split; [done|]. split; [lia|done]. Qed.

Lemma numbered_snoc source scheme hi l p :
  numbered source scheme hi l -> layout_inside source p -> 0 <= hi < pl_partition p ->
  pl_selector p = scheme ++ decimal (pl_partition p) -> numbered source scheme (pl_partition p) (l ++ [p]).
Proof.
  intros [Hd Hf] Hp Hn Hs. split.
  - rewrite map_app. apply NoDup_app. split; [done|]. split; [|apply NoDup_singleton]. intros n Hin Hin2.
    apply list_elem_of_singleton in Hin2 as ->. change (map pl_partition l) with (pl_partition <$> l) in Hin.
    apply list_elem_of_fmap in Hin as (q & Hq & Hin). rewrite Forall_forall in Hf. destruct (Hf _ Hin) as (_ & ? & _). lia.
  - apply Forall_app. split; [|apply Forall_singleton; split; [done|]; split; [lia|done]].
    eapply Forall_impl; [exact Hf|]. intros q (?&?&?). split; [done|]. split; [lia|done].
Qed.

(** Selectors tell the partitions of a table apart. *)
Lemma numbered_selectors source scheme hi l :
  hi <= MAX_NUMBER -> numbered source scheme hi l -> NoDup (map pl_selector l).
Proof.
  intros Hhi [Hd Hf]. induction l as [|p l IH]; [constructor|]. apply NoDup_cons in Hd as [Hp Hd].
  apply Forall_cons in Hf as [(_ & Hn & Hs) Hf]. cbn [map]. apply NoDup_cons. split; [|by apply IH].
  change (map pl_selector l) with (pl_selector <$> l). change (map pl_partition l) with (pl_partition <$> l) in Hp.
  intros (q & Hq & Hin)%list_elem_of_fmap. apply Hp, list_elem_of_fmap. exists q. split; [|done].
  rewrite Forall_forall in Hf. destruct (Hf _ Hin) as (_ & Hqn & Hqs). rewrite Hs, Hqs in Hq. apply app_inv_head in Hq.
  apply decimal_inj; [lia|lia|done].
Qed.

(** ** GPT *)

Lemma wp_format_gpt_guid bytes : len bytes = 16 -> safe (format_gpt_guid bytes).
Proof. intros Hl. unfold format_gpt_guid, safe. do 5 (apply wp_bind, wp_slice; [lia|lia|]; intros ? _ _). by apply wp_Ok. Qed.

Section gpt_facts.
Context `{Crc32}.

Lemma wp_gpt_name entry : 56 <= len entry -> safe (gpt_name entry).
Proof. intros Hl. unfold gpt_name, safe. apply wp_bind, wp_slice; [lia|lia|]. intros ? _ _. by apply wp_Ok. Qed.

Lemma wp_gpt_entry source sector_size first last_ ps index entry :
  image_ok source -> (sector_size = 512 \/ sector_size = 4096) -> 0 <= first -> last_ < image_len source / sector_size ->
  bytes_ok entry -> 128 <= len entry -> 0 <= index -> numbered source (bytes_of_string "gpt") index ps ->
  wp (gpt_entry sector_size first last_ ps (index, entry)) (numbered source (bytes_of_string "gpt") (index + 1)).
Proof.
  intros [Hlen _] Hss Hf Hl Hb He Hi Hps. unfold gpt_entry. apply wp_bind, wp_slice; [lia|lia|]. intros type _ Htype.
  apply wp_if; intros Hz; [apply wp_Ok; eapply numbered_mono; [|done]; lia|].
  apply wp_bind, wp_le_u64; [done|lia|lia|]. intros first_lba H1. apply wp_bind, wp_le_u64; [done|lia|lia|]. intros last_lba H2.
  apply wp_if; intros Hr; [apply wp_Err|]. b2p.
  assert (image_len source / sector_size * sector_size <= image_len source) as Hq
    by (rewrite Z.mul_comm; apply Z.mul_div_le; lia).
  assert ((last_lba + 1) * sector_size <= image_len source) as Hend by nia.
  wp_step. wp_step. match goal with Hc : checked_mul _ _ = _ |- _ => apply checked_mul_Some in Hc as [? ->] end.
  apply wp_bind, wp_sub; [lia|]. apply wp_bind, wp_add; [u64|].
  wp_step. wp_step. match goal with Hc : checked_mul _ _ = _ |- _ => apply checked_mul_Some in Hc as [? ->] end.
  apply wp_bind. eapply wp_mono; [|apply wp_gpt_name; lia]. intros name _.
  apply wp_bind. eapply wp_mono; [|apply wp_format_gpt_guid; lia]. intros text _. apply wp_Ok.
  set (p := {| pl_selector := _ |}). change (index + 1) with (pl_partition p). eapply numbered_snoc; [done| |cbn; lia|done].
  unfold layout_inside. cbn. nia.
Qed.

Lemma wp_gpt_entries source sector_size first last_ l : forall ps index,
  image_ok source -> (sector_size = 512 \/ sector_size = 4096) -> 0 <= first -> last_ < image_len source / sector_size ->
  Forall (fun entry => bytes_ok entry /\ 128 <= len entry) l -> 0 <= index -> numbered source (bytes_of_string "gpt") index ps ->
  wp (fold_res (gpt_entry sector_size first last_) ps (zip (seqZ index (len l)) l))
    (numbered source (bytes_of_string "gpt") (index + len l)).
Proof.
  induction l as [|entry l IH]; intros ps index Hi Hss Hf Hl He Hidx Hps.
  { apply wp_Ok. by rewrite len_nil, Z.add_0_r. }
  apply Forall_cons in He as [[Hb He] Hall]. rewrite seqZ_cons by (rewrite len_cons; pose proof (len_nonneg l); lia).
  cbn [zip zip_with fold_res]. apply wp_bind. eapply wp_mono; [|by apply (wp_gpt_entry source)].
  intros ps' Hps'. rewrite len_cons. replace (Z.pred (1 + len l)) with (len l) by lia.
  replace (index + (1 + len l)) with (Z.succ index + len l) by lia. apply IH; try done; lia.
Qed.

Lemma chunks_exact_Forall n (l : list Z) :
  0 < n -> bytes_ok l -> Forall (fun chunk => bytes_ok chunk /\ len chunk = n) (chunks_exact n l) /\ len (chunks_exact n l) = len l / n.
Proof.
  intros Hn Hb. unfold chunks_exact. pose proof (len_nonneg l) as Hl0.
  assert (len l / n * n <= len l) as Hq by (rewrite Z.mul_comm; apply Z.mul_div_le; lia).
  assert (exists k, len l / n = Z.of_nat k) as [k Hk] by (exists (Z.to_nat (len l / n)); rewrite Z2Nat.id; [done|apply Z.div_pos; lia]).
  assert (len (ztake (len l / n * n) l) = Z.of_nat k * n) as Hlen.
  { rewrite len_ztake, Hk. nia. }
  assert (bytes_ok (ztake (len l / n * n) l)) as Hbt by auto with zse. rewrite Hk in *. clear Hk Hq Hb.
  generalize dependent (ztake (Z.of_nat k * n) l). clear l Hl0. intros l Hlen Hb.
  unfold chunks. assert (Z.of_nat k <= len l) as Hfuel by nia. unfold len in Hfuel at 1.
  assert (k <= length l)%nat as Hf by lia. clear Hfuel. revert Hf. generalize (length l) as fuel. intros fuel. revert fuel l Hlen Hb.
  induction k as [|k IH]; intros fuel l Hlen Hb Hf.
  - destruct l; [|rewrite len_cons in Hlen; pose proof (len_nonneg l); lia]. destruct fuel; cbn [chunks_fuel]; (split; [by apply Forall_nil|done]).
  - destruct fuel as [|fuel]; [lia|]. destruct l as [|b l]; [change (len []) with 0 in Hlen; nia|]. cbn [chunks_fuel].
    set (l0 := b :: l) in *. clearbody l0.
    destruct (IH fuel (zdrop n l0)) as [H1 H2]; [rewrite len_zdrop; nia|auto with zse|lia|].
    split; [|rewrite len_cons, H2; lia]. constructor; [|done]. split; [auto with zse|]. rewrite len_ztake. nia.
Qed.

Definition header_ok (source : ImageRead) (sector_size : Z) (h : GptHeader) : Prop :=
  0 < gh_first_usable h /\ gh_last_usable h < image_len source / sector_size /\ is_u64 (gh_entry_lba h) /\
  1 <= gh_entry_count h <= MAX_GPT_ENTRIES /\ 128 <= gh_entry_size h <= 4096.

Lemma wp_parse_gpt_header source sector_size header_lba :
  image_ok source -> (sector_size = 512 \/ sector_size = 4096) -> 0 <= header_lba <= image_len source / sector_size ->
  wp (parse_gpt_header source sector_size header_lba) (header_ok source sector_size).
Proof.
  intros Hi Hss Hlba. pose proof Hi as [Hlen _].
  assert (image_len source / sector_size * sector_size <= image_len source) as Hq by (rewrite Z.mul_comm; apply Z.mul_div_le; lia).
  unfold parse_gpt_header. apply wp_bind, wp_mul; [u64 || nia|]. apply wp_bind, wp_image_read; [done|unfold is_u64 in *; nia|unfold ISIZE_MAX; lia|].
  intros sector [Hs Hb]. apply wp_bind, wp_slice; [lia|lia|]. intros ? _ _. apply wp_if; intros _; [apply wp_Err|].
  apply wp_bind, wp_le_u32; [done|lia|lia|]. intros header_size Hh. apply wp_if; intros Hr; [apply wp_Err|]. b2p.
  apply wp_bind, wp_le_u32; [done|lia|lia|]. intros ? _. apply wp_bind, wp_slice; [lia|lia|]. intros header _ Hhl.
  apply wp_bind, wp_fill; [lia|lia|]. intros _. apply wp_if; intros _; [apply wp_Err|].
  apply wp_bind, wp_le_u64; [done|lia|lia|]. intros ? _. apply wp_if; intros _; [apply wp_Err|]. cbv zeta.
  apply wp_bind, wp_le_u64; [done|lia|lia|]. intros ? _. apply wp_if; intros _; [apply wp_Err|].
  apply wp_bind, wp_le_u64; [done|lia|lia|]. intros first Hf. apply wp_bind, wp_le_u64; [done|lia|lia|]. intros last_ Hl.
  apply wp_if; intros Hrange; [apply wp_Err|]. b2p. apply wp_bind, wp_le_u64; [done|lia|lia|]. intros entry_lba He.
  do 3 (apply wp_bind, wp_le_u32; [done|lia|lia|]; intros ? ?).
  apply wp_if; intros Hc; [apply wp_Err|]. apply wp_if; intros Hz; [apply wp_Err|]. b2p. apply wp_Ok.
  unfold header_ok. cbn. split; [u64|]. split; [done|]. split; [done|]. u64.
Qed.

Lemma wp_read_gpt_entries source sector_size h :
  image_ok source -> (sector_size = 512 \/ sector_size = 4096) -> header_ok source sector_size h ->
  wp (read_gpt_entries source sector_size h) (fixed (gh_entry_count h * gh_entry_size h)).
Proof.
  intros Hi Hss (_ & _ & Hlba & Hc & Hz). pose proof Hi as [Hlen _]. unfold read_gpt_entries.
  wp_step. wp_step. match goal with Hx : checked_mul _ _ = _ |- _ => apply checked_mul_Some in Hx as [? ->] end.
  wp_step. b2p. wp_step. wp_step. match goal with Hx : checked_mul _ _ = _ |- _ => apply checked_mul_Some in Hx as [? ->] end.
  wp_step. wp_step. match goal with Hx : checked_add _ _ = _ |- _ => apply checked_add_Some in Hx as [? ->] end.
  wp_step. apply wp_bind, wp_image_read; [done|unfold is_u64 in *; nia|unfold MAX_GPT_ENTRY_BYTES, ISIZE_MAX in *; nia|].
  intros bytes Hb. wp_step. by apply wp_Ok.
Qed.

Lemma wp_parse_gpt source sector_size header_lba :
  image_ok source -> (sector_size = 512 \/ sector_size = 4096) -> 0 <= header_lba <= image_len source / sector_size ->
  wp (parse_gpt source sector_size header_lba) (numbered source (bytes_of_string "gpt") MAX_GPT_ENTRIES).
Proof.
  intros Hi Hss Hlba. unfold parse_gpt. apply wp_bind. eapply wp_mono; [|by apply wp_parse_gpt_header]. intros h Hh.
  apply wp_bind. eapply wp_mono; [|by apply wp_read_gpt_entries]. intros entries [Hl Hb].
  destruct Hh as (Hf & Hlast & _ & Hc & Hz). destruct (chunks_exact_Forall (gh_entry_size h) entries ltac:(lia) Hb) as [Hall Hlen].
  eapply wp_mono; [|apply wp_gpt_entries; [done|done|lia|done| |lia|apply numbered_nil]].
  - intros ps Hps. eapply numbered_mono; [|exact Hps]. rewrite Hlen, Hl, Z.div_mul by lia. lia.
  - eapply Forall_impl; [exact Hall|]. intros chunk [? ?]. split; [done|lia].
Qed.

Lemma wp_gpt_search source candidates saw :
  image_ok source ->
  Forall (fun '(sector_size, lba) => (sector_size = 512 \/ sector_size = 4096) /\ 0 <= lba <= image_len source / sector_size) candidates ->
  wp (gpt_search source candidates saw) (fun found =>
    match found with Some ps => numbered source (bytes_of_string "gpt") MAX_GPT_ENTRIES ps | None => True end).
Proof.
  intros Hi. revert saw. induction candidates as [|[ss lba] candidates IH]; intros saw Hc; cbn [gpt_search].
  { wp_step. by apply wp_Ok. }
  apply Forall_cons in Hc as [[Hss Hlba] Hc]. cbv zeta. pose proof Hi as [Hlen _].
  eapply wp_catch; [apply wp_image_read; [done|unfold saturating_mul, is_u64 in *; nia|unfold ISIZE_MAX; lia|intros b Hb; exact I]| |].
  - intros signature _. apply wp_if; intros _; [by apply IH|].
    eapply wp_catch; [by apply wp_parse_gpt|intros ps Hps; by apply wp_Ok|intros e; by apply IH].
  - intros e. by apply IH.
Qed.

Lemma gpt_candidates_ok source :
  image_ok source ->
  Forall (fun '(sector_size, lba) => (sector_size = 512 \/ sector_size = 4096) /\ 0 <= lba <= image_len source / sector_size) (gpt_candidates source).
Proof.
  intros [Hlen _]. unfold gpt_candidates. cbn [map concat]. rewrite app_nil_r.
  assert (forall ss, ss = 512 \/ ss = 4096 -> Forall (fun '(sector_size, lba) => (sector_size = 512 \/ sector_size = 4096) /\
    0 <= lba <= image_len source / sector_size)
    (if image_len source <? saturating_mul ss 2 then [] else [(ss, 1); (ss, image_len source / ss - 1)])) as Hone.
  { intros ss Hss. destruct (Z.ltb_spec (image_len source) (saturating_mul ss 2)) as [|Hge]; [by apply Forall_nil|].
    unfold saturating_mul in Hge. assert (2 <= image_len source / ss) by (apply Z.div_le_lower_bound; lia).
    constructor; [split; [done|lia]|]. constructor; [split; [done|lia]|]. by apply Forall_nil. }
  apply Forall_app. split; apply Hone; lia.
Qed.
End gpt_facts.

(** ** MBR *)

Lemma wp_mbr_layout source number kind start sectors :
  image_ok source -> 0 <= start -> 0 < sectors ->
  wp (mbr_layout source number kind start sectors) (fun p =>
    layout_inside source p /\ pl_partition p = number /\ pl_selector p = bytes_of_string "mbr" ++ decimal number).
Proof.
  intros [Hlen _] Hst Hse. unfold mbr_layout.
  wp_step. wp_step. match goal with Hx : checked_mul _ _ = _ |- _ => apply checked_mul_Some in Hx as [? ->] end.
  wp_step. wp_step. match goal with Hx : checked_mul _ _ = _ |- _ => apply checked_mul_Some in Hx as [? ->] end.
  wp_step. wp_step. match goal with Hx : checked_add _ _ = _ |- _ => apply checked_add_Some in Hx as [? ->] end.
  wp_step. b2p. apply wp_Ok. split; [|done]. unfold layout_inside. cbn. u64.
Qed.

Lemma wp_mbr_entry sector at_ (P : Z * Z * Z -> Prop) :
  bytes_ok sector -> 0 <= at_ -> at_ + 16 <= len sector ->
  (forall kind start sectors, is_byte kind -> is_u32 start -> is_u32 sectors -> P (kind, start, sectors)) -> wp (mbr_entry sector at_) P.
Proof.
  intros Hb Ha Hl HP. unfold mbr_entry. apply wp_bind, wp_slice_fixed; [done|lia|lia|]. intros entry [He Heb].
  apply wp_bind, wp_index_byte; [done|lia|]. intros kind Hk.
  do 2 (apply wp_bind, wp_le_u32; [done|lia|lia|]; intros ? ?). apply wp_Ok. by apply HP.
Qed.

Definition mbr := bytes_of_string "mbr".

(** The containers carry u32 fields of the table. *)
Definition containers_ok (l : list (Z * Z)) : Prop := Forall (fun '(start, sectors) => is_u32 start /\ is_u32 sectors) l.

Lemma wp_mbr_primary source sector index ps extended :
  image_ok source -> fixed 512 sector -> 0 <= index < 4 ->
  numbered source mbr index ps -> containers_ok extended -> len extended <= index ->
  wp (mbr_primary source sector (ps, extended) index) (fun '(ps', extended') =>
    numbered source mbr (index + 1) ps' /\ containers_ok extended' /\ len extended' <= index + 1).
Proof.
  intros Hi [Hl Hb] Hidx Hps Hext Hlen. assert (numbered source mbr (index + 1) ps) as Hps1 by (by eapply numbered_mono; [|exact Hps]; lia).
  unfold mbr_primary. apply wp_bind, wp_mbr_entry; [done|lia|lia|]. intros kind start sectors Hk Hs Hn.
  apply wp_if; intros Hz; [apply wp_Ok; split; [done|]; split; [done|lia]|]. b2p.
  apply wp_if; intros Hx.
  - apply wp_Ok. split; [done|]. split; [|len_lia]. apply Forall_app. split; [done|]. by apply Forall_singleton.
  - apply wp_bind. eapply wp_mono; [|apply wp_mbr_layout; [done|u64|u64]]. intros p (Hp & Hnum & Hsel). apply wp_Ok.
    split; [|split; [done|lia]]. rewrite <- Hnum. apply (numbered_snoc _ _ index); [done|done|lia|by rewrite Hnum].
Qed.

(** At most one logical partition per boot record. *)
Lemma wp_ebr_loop rounds source base container_sectors container_end : forall ebr_lba seen ps number,
  image_ok source -> is_u32 base -> container_sectors <= U32_MAX -> is_u64 ebr_lba -> 1 <= number ->
  numbered source mbr (number - 1) ps ->
  wp (ebr_loop rounds source base container_sectors container_end ebr_lba seen (ps, number)) (fun '(ps', number') =>
    number <= number' <= number + Z.of_nat rounds /\ numbered source mbr (number' - 1) ps').
Proof.
  induction rounds as [|rounds IH]; intros ebr_lba seen ps number Hi Hbase Hcs Hlba Hn Hps; cbn [ebr_loop]; [apply wp_Err|].
  pose proof Hi as [Hlen _]. wp_step. wp_step. wp_step. match goal with Hx : checked_mul _ _ = _ |- _ => apply checked_mul_Some in Hx as [? ->] end.
  apply wp_bind, wp_with_context, wp_image_read; [done|u64|unfold ISIZE_MAX; lia|]. intros ebr [Hl Hb].
  apply wp_bind, wp_slice; [lia|lia|]. intros ? _ _. wp_step.
  apply wp_bind, wp_mbr_entry; [done|lia|lia|]. intros kind relative sectors Hk Hrel Hsec. apply wp_bind.
  apply (wp_mono _ (fun '(ps', number') => number <= number' <= number + 1 /\ numbered source mbr (number' - 1) ps')).
  - intros [ps' number'] [Hn' Hps']. apply wp_bind, wp_mbr_entry; [done|lia|lia|]. intros next_kind next_relative next_sectors _ Hnr _.
    apply wp_if; intros _; [apply wp_Ok; split; [lia|done]|]. wp_step. wp_step. b2p. wp_step. wp_step.
    match goal with Hx : checked_add _ _ = _ |- _ => apply checked_add_Some in Hx as [? ->] end.
    eapply wp_mono; [|apply IH; [done|done|done|u64|lia|exact Hps']]. intros [ps2 n2] [? ?]. split; [lia|done].
  - destruct (negb (kind =? 0) && negb (sectors =? 0)) eqn:Hlog; [|apply wp_Ok; split; [lia|done]]. b2p.
    wp_step. wp_step. match goal with Hx : checked_add ebr_lba _ = _ |- _ => apply checked_add_Some in Hx as [? ->] end.
    wp_step. wp_step. wp_step.
    match goal with Hx : checked_add (_ + _) _ = _ |- _ => apply checked_add_Some in Hx as [? ->] end.
    apply wp_bind. eapply wp_mono; [|apply wp_mbr_layout; [done|u64|u64]]. intros p (Hp & Hnum & Hsel). apply wp_Ok.
    split; [lia|]. replace (number + 1 - 1) with number by lia. rewrite <- Hnum. eapply numbered_snoc; [done|done|lia|by rewrite Hnum].
Qed.

Lemma wp_mbr_containers source extended : forall ps number,
  image_ok source -> containers_ok extended -> 1 <= number -> numbered source mbr (number - 1) ps ->
  wp (fold_res (mbr_container source) (ps, number) extended) (fun '(ps', number') =>
    numbered source mbr (number' - 1) ps' /\ number' <= number + 128 * len extended).
Proof.
  induction extended as [|[base sectors] extended IH]; intros ps number Hi Hc Hn Hps; cbn [fold_res].
  { apply wp_Ok. split; [done|]. unfold len. cbn [length]. lia. }
  apply Forall_cons in Hc as [[Hb Hs] Hc]. apply wp_bind. unfold mbr_container at 1. wp_step. wp_step.
  match goal with Hx : checked_add _ _ = _ |- _ => apply checked_add_Some in Hx as [? ->] end. wp_step.
  eapply wp_mono; [|apply wp_ebr_loop; [done|done|u64|u64|done|done]]. intros [ps1 n1] [Hn1 Hps1].
  eapply wp_mono; [|apply (IH ps1 n1); [done|done|lia|done]]. intros [ps2 n2] [Hps2 Hn2]. split; [done|].
  rewrite len_cons. unfold MAX_EBR_PARTITIONS in Hn1. lia.
Qed.

Lemma wp_discover_mbr source :
  image_ok source -> wp (discover_mbr source) (numbered source mbr MAX_NUMBER).
Proof.
  intros Hi. unfold discover_mbr. apply wp_if; intros _; [apply wp_Ok, numbered_nil|].
  apply wp_bind, wp_image_read; [done|u64|unfold ISIZE_MAX; lia|]. intros sector Hs. pose proof Hs as [Hl Hb].
  apply wp_bind, wp_slice; [lia|lia|]. intros ? _ _. apply wp_if; intros _; [apply wp_Ok, numbered_nil|].
  assert (seqZ 0 4 = [0; 1; 2; 3]) as -> by reflexivity. apply wp_bind.
  assert (forall l k ps ext, 0 <= k -> k + len l <= 4 -> l = seqZ k (len l) -> numbered source mbr k ps -> containers_ok ext -> len ext <= k ->
    wp (fold_res (mbr_primary source sector) (ps, ext) l) (fun '(ps', ext') => numbered source mbr 4 ps' /\ containers_ok ext' /\ len ext' <= 4)) as Hfold.
  { induction l as [|index l IH]; intros k ps ext Hk Hle Heq Hps Hext Hlen; cbn [fold_res].
    - apply wp_Ok. rewrite len_nil in Hle. split; [eapply numbered_mono; [|done]; lia|]. split; [done|lia].
    - pose proof (len_nonneg l). rewrite len_cons in *. rewrite seqZ_cons in Heq by lia. injection Heq as -> Heq. apply wp_bind.
      eapply wp_mono; [|apply wp_mbr_primary; [done|exact Hs|lia|done|done|done]]. intros [ps1 ext1] (Hps1 & Hext1 & Hlen1).
      apply (IH (k + 1)); try done; [lia|lia|]. rewrite Heq at 1. f_equal; lia. }
  eapply wp_mono; [|apply (Hfold [0; 1; 2; 3] 0); [lia|vm_compute; discriminate|reflexivity|apply numbered_nil|by apply Forall_nil|vm_compute; discriminate]].
  intros [ps ext] (Hps & Hext & Hlen). apply wp_bind.
  eapply wp_mono; [|apply (wp_mbr_containers source ext ps 5); [done|done|lia|done]]. intros [ps' n] [Hps' Hn]. apply wp_Ok.
  eapply numbered_mono; [|done]. unfold MAX_NUMBER. lia.
Qed.

(** ** Volumes *)

(** What the crates document: readers fill a buffer or fail, and opening does
    not panic. *)
Class DiskCratesLaws `{DiskCrates} := {
  qcow2_spec : forall i, image_ok i -> wp (qcow2_from_reader i) (fun r => is_u64 (virtual_disk_size r) /\
    forall offset n, is_u64 offset -> 0 <= n <= ISIZE_MAX -> wp (qcow2_read r offset n) (fixed n));
  vmdk_spec : forall i, image_ok i -> wp (vmdk_open_on_device i) (fun r => is_u64 (virtual_size r) /\
    forall offset n, is_u64 offset -> 0 <= n <= ISIZE_MAX -> wp (vmdk_read_at r offset n) (fixed n));
  ntfs_new_spec : forall i, image_ok i -> safe (ntfs_new i);
  fat_open_spec : forall i, image_ok i -> safe (fat_open i);
  ext4_load_spec : forall i, image_ok i -> safe (ext4_load i);
}.

Section volumes.
Context `{DiskCratesLaws} `{Crc32}.

Lemma wp_open_disk_container source :
  image_ok source -> 512 <= image_len source -> wp (open_disk_container source) (fun '(_, disk) => image_ok disk).
Proof.
  intros Hi Hlen. unfold open_disk_container. apply wp_bind, wp_image_read; [done|u64|unfold ISIZE_MAX; lia|]. intros header [Hl Hb].
  apply wp_bind, wp_slice; [lia|lia|]. intros ? _ _. apply wp_if; intros _.
  - apply wp_bind, wp_slice; [lia|lia|]. intros ? _ _. cbv zeta. wp_step. apply wp_bind, wp_with_context.
    eapply wp_mono; [|by apply qcow2_spec]. intros r [Hsize Hread]. apply wp_Ok. split; [done|]. intros offset n Ho Hn.
    cbn [image_read QcowImage_image]. unfold QcowImage_read_exact_at. wp_step. wp_step. wp_step. eapply wp_mono; [|by apply Hread]. by intros b [? ?].
  - apply wp_if; intros _; [|wp_step; by apply wp_Ok]. apply wp_bind, wp_with_context. eapply wp_mono; [|by apply vmdk_spec].
    intros r [Hsize Hread]. apply wp_Ok. split; [done|]. intros offset n Ho Hn. eapply wp_mono; [|by apply Hread]. by intros b [? ?].
Qed.

Lemma wp_looks_like_fat boot : fixed 512 boot -> safe (looks_like_fat boot).
Proof.
  intros [Hl Hb]. unfold looks_like_fat, safe. apply wp_bind, wp_slice; [lia|lia|]. intros ? _ _.
  apply wp_bind, wp_index; [lia|]. intros ? _. apply wp_bind, wp_slice; [lia|lia|]. intros ? _ _.
  apply wp_bind, wp_index; [lia|]. intros ? _. do 3 (apply wp_bind, wp_slice; [lia|lia|]; intros ? _ _). by apply wp_Ok.
Qed.

(** A volume has the place and the selector of its layout. *)
Definition volume_of (layout : PartitionLayout) (v : VolumeInfo) : Prop :=
  exists filesystem diagnostic, v = volume_info layout filesystem diagnostic.

Lemma volume_of_info layout filesystem diagnostic : volume_of layout (volume_info layout filesystem diagnostic).
Proof. by exists filesystem, diagnostic. Qed.

Lemma wp_probe_filesystem sliced layout boot :
  slice_ok sliced -> fixed 512 boot -> wp (probe_filesystem sliced layout boot) (volume_of layout).
Proof.
  intros Hs Hb. pose proof (slice_image_ok _ Hs) as Hi. unfold probe_filesystem. cbv zeta.
  apply wp_bind, wp_slice; [lia|destruct Hb; lia|]. intros oem _ _. apply wp_if; intros _.
  { eapply wp_catch; [by apply ntfs_new_spec|intros ? _|intros ?]; apply wp_Ok, volume_of_info. }
  apply wp_bind. eapply (wp_mono _ (fun _ => True)).
  2: { apply wp_if; intros _; [by apply wp_Ok|by apply wp_looks_like_fat]. }
  intros fat _. apply wp_if; intros _.
  { eapply wp_catch; [by apply fat_open_spec|intros ? _|intros ?]; apply wp_Ok, volume_of_info. }
  apply wp_if; intros _; [|apply wp_Ok, volume_of_info].
  eapply wp_catch; [apply (wp_image_read (SlicedImage_image sliced)); [done|u64|unfold ISIZE_MAX; lia|intros b Hbb; exact I]| |].
  - intros magic _. apply wp_if; intros _; [|apply wp_Ok, volume_of_info].
    eapply wp_catch; [apply wp_with_context; by apply ext4_load_spec|intros ? _|intros ?]; apply wp_Ok, volume_of_info.
  - intros e. apply wp_Ok, volume_of_info.
Qed.

Lemma wp_probe_volume source layout :
  image_ok source -> 0 <= pl_offset layout -> 0 <= pl_length layout -> wp (probe_volume source layout) (volume_of layout).
Proof.
  intros Hi Ho Hl. unfold probe_volume. eapply wp_catch; [by apply wp_SlicedImage_new| |].
  - intros sliced [Hs _]. eapply wp_catch; [apply (wp_image_read (SlicedImage_image sliced)); [by apply slice_image_ok|u64|unfold ISIZE_MAX; lia|intros b Hb; exact Hb]| |].
    + intros boot Hb. by apply wp_probe_filesystem.
    + intros e. apply wp_Ok, volume_of_info.
  - intros e. apply wp_Ok, volume_of_info.
Qed.

Lemma wp_discover_partitions source :
  image_ok source -> wp (discover_partitions source) (fun layouts =>
    Forall (fun p => layout_inside source p /\ lowercase (pl_selector p)) layouts /\ NoDup (map pl_selector layouts)).
Proof.
  intros Hi. assert (forall scheme hi l, lowercase scheme -> hi <= MAX_NUMBER -> numbered source scheme hi l ->
    Forall (fun p => layout_inside source p /\ lowercase (pl_selector p)) l /\ NoDup (map pl_selector l)) as Hout.
  { intros scheme hi l Hlow Hhi Hl. split; [|by eapply numbered_selectors]. destruct Hl as [_ Hf]. eapply Forall_impl; [exact Hf|].
    intros p (? & ? & ->). split; [done|]. apply lowercase_decimal; [done|lia]. }
  unfold discover_partitions, discover_gpt. apply wp_bind. eapply wp_mono; [|apply wp_gpt_search; [done|by apply gpt_candidates_ok]].
  intros [ps|] Hps; [apply wp_Ok, (Hout (bytes_of_string "gpt") MAX_GPT_ENTRIES); [reflexivity|unfold MAX_GPT_ENTRIES, MAX_NUMBER; lia|exact Hps]|].
  destruct Hi as [Hlen Hread]. apply wp_bind. eapply wp_mono; [|apply wp_probe_volume; [done|done|cbn; u64]]. intros raw _.
  destruct (vi_filesystem raw); [apply wp_Ok; split; [by apply Forall_nil|constructor]|].
  eapply wp_mono; [|by apply wp_discover_mbr]. intros ps2 Hps2. apply (Hout mbr MAX_NUMBER); [reflexivity|lia|exact Hps2].
Qed.
End volumes.

(** ** The writer *)

(** The hash is 32 bits wide. *)
Class Crc32Laws `{Crc32} := { crc32_u32 : forall l, is_u32 (crc32_hash l) }.

Record GptPart := {
  gp_type : list Z; gp_unique : list Z; gp_first : Z; gp_last : Z; gp_attributes : Z; gp_name : list Z;
}.

(** An entry of [size] bytes, unused or a partition; the name is 36 UTF-16 units. *)
Definition entry_bytes (size : Z) (part : option GptPart) : list Z :=
  match part with
  | None => zrepeat size 0
  | Some p =>
      gp_type p ++ gp_unique p ++ le_bytes 8 (gp_first p) ++ le_bytes 8 (gp_last p) ++ le_bytes 8 (gp_attributes p) ++
      concat (map (le_bytes 2) (gp_name p ++ zrepeat (36 - len (gp_name p)) 0)) ++ zrepeat (size - 128) 0
  end.

Definition entries_bytes (size : Z) (parts : list (option GptPart)) : list Z := concat (map (entry_bytes size) parts).

Record GptTable := {
  gt_sector_size : Z; gt_lba : Z; gt_alternate : Z; gt_first_usable : Z; gt_last_usable : Z; gt_guid : list Z;
  gt_entry_lba : Z; gt_entry_size : Z; gt_parts : list (option GptPart);
}.

Section writer.
Context `{Crc32}.

Definition header_bytes (t : GptTable) (crc : Z) : list Z :=
  EFI_PART ++ le_bytes 4 0x10000 ++ le_bytes 4 92 ++ le_bytes 4 crc ++ le_bytes 4 0 ++ le_bytes 8 (gt_lba t) ++
  le_bytes 8 (gt_alternate t) ++ le_bytes 8 (gt_first_usable t) ++ le_bytes 8 (gt_last_usable t) ++ gt_guid t ++
  le_bytes 8 (gt_entry_lba t) ++ le_bytes 4 (len (gt_parts t)) ++ le_bytes 4 (gt_entry_size t) ++
  le_bytes 4 (crc32_hash (entries_bytes (gt_entry_size t) (gt_parts t))).

Definition sector_bytes (t : GptTable) : list Z :=
  header_bytes t (crc32_hash (header_bytes t 0)) ++ zrepeat (gt_sector_size t - 92) 0.
End writer.

(** What the reader makes of a partition. *)
Definition layout_of (sector_size index : Z) (p : GptPart) : PartitionLayout := {|
  pl_selector := bytes_of_string "gpt" ++ decimal (index + 1); pl_scheme := bytes_of_string "gpt";
  pl_partition := index + 1; pl_offset := gp_first p * sector_size;
  pl_length := (gp_last p - gp_first p + 1) * sector_size;
  pl_partition_type := match format_gpt_guid (gp_type p) with Ok text => text | _ => [] end;
  pl_name := from_utf16_lossy (gp_name p) |}.

Fixpoint layouts_of (sector_size index : Z) (parts : list (option GptPart)) : list PartitionLayout :=
  match parts with
  | [] => []
  | None :: parts => layouts_of sector_size (index + 1) parts
  | Some p :: parts => layout_of sector_size index p :: layouts_of sector_size (index + 1) parts
  end.

Definition part_ok (first last : Z) (p : GptPart) : Prop :=
  fixed 16 (gp_type p) /\ all_zero (gp_type p) = false /\ fixed 16 (gp_unique p) /\ is_u64 (gp_attributes p) /\
  first <= gp_first p <= gp_last p /\ gp_last p <= last /\
  Forall (fun unit_ => 0 < unit_ <= U16_MAX) (gp_name p) /\ len (gp_name p) <= 36.

(** A table that fits an image of [size] bytes. *)
Definition table_ok (size : Z) (t : GptTable) : Prop :=
  (gt_sector_size t = 512 \/ gt_sector_size t = 4096) /\ size <= ISIZE_MAX /\
  0 <= gt_lba t < size / gt_sector_size t /\ 0 <= gt_alternate t < size / gt_sector_size t /\ gt_alternate t <> gt_lba t /\
  0 < gt_first_usable t <= gt_last_usable t /\ gt_last_usable t < size / gt_sector_size t /\ fixed 16 (gt_guid t) /\
  0 <= gt_entry_lba t /\ 128 <= gt_entry_size t <= 4096 /\ gt_entry_size t mod 8 = 0 /\
  1 <= len (gt_parts t) <= MAX_GPT_ENTRIES /\
  gt_entry_lba t * gt_sector_size t + len (gt_parts t) * gt_entry_size t <= size /\
  Forall (fun part => match part with Some p => part_ok (gt_first_usable t) (gt_last_usable t) p | None => True end) (gt_parts t).

(** ** Chunks *)

Lemma chunks_concat_exact {A} n (ls : list (list A)) :
  0 < n -> Forall (fun l => len l = n) ls -> chunks n (concat ls) = ls.
Proof.
  intros Hn Hls. unfold chunks. assert (length ls <= length (concat ls))%nat as Hf.
  { induction Hls as [|l ls Hl Hls IH]; [done|]. cbn [concat length]. rewrite length_app. unfold len in Hl. lia. }
  revert Hf. generalize (length (concat ls)) as fuel. intros fuel. revert ls Hls. induction fuel as [|fuel IH]; intros ls Hls Hf.
  - by destruct ls; [|cbn in Hf; lia].
  - destruct ls as [|l ls]; [done|]. apply Forall_cons in Hls as [Hl Hls]. cbn [concat length] in *.
    destruct l as [|a l]; [change (len []) with 0 in Hl; lia|]. cbn [chunks_fuel app].
    change (a :: l ++ concat ls) with ((a :: l) ++ concat ls). rewrite <- Hl at 1 2.
    rewrite ztake_app_len, zdrop_app_len by done. rewrite Hl, IH by (done || lia). done.
Qed.

Lemma len_concat {A} n (ls : list (list A)) : Forall (fun l => len l = n) ls -> len (concat ls) = len ls * n.
Proof. induction 1 as [|l ls Hl Hls IH]; [done|]. cbn [concat]. rewrite len_app, len_cons, IH, Hl. lia. Qed.

Lemma chunks_exact_concat {A} n (ls : list (list A)) :
  0 < n -> Forall (fun l => len l = n) ls -> chunks_exact n (concat ls) = ls.
Proof.
  intros Hn Hls. unfold chunks_exact. rewrite (len_concat n ls Hls), Z.div_mul by lia.
  rewrite <- (len_concat n ls Hls), ztake_all by done. by apply chunks_concat_exact.
Qed.

Lemma take_while_stop {A} (p : A -> bool) l k :
  forallb p l = true -> match k with [] => True | a :: _ => p a = false end -> take_while p (l ++ k) = l.
Proof.
  induction l as [|a l IH]; intros Hl Hk; cbn.
  - destruct k; [done|]. cbn. by rewrite Hk.
  - cbn in Hl. apply andb_true_iff in Hl as [Ha Hl]. rewrite Ha. f_equal. by apply IH.
Qed.

(** ** Reading an entry *)

Lemma name_units units :
  Forall (fun unit_ => 0 < unit_ <= U16_MAX) units -> len units <= 36 ->
  len (concat (map (le_bytes 2) (units ++ zrepeat (36 - len units) 0))) = 72 /\
  take_while (fun value => negb (value =? 0))
    (map le_val (chunks_exact 2 (concat (map (le_bytes 2) (units ++ zrepeat (36 - len units) 0))))) = units.
Proof.
  intros Hu Hl. set (all := units ++ zrepeat (36 - len units) 0).
  assert (Forall (fun l => len l = 2) (map (le_bytes 2) all)) as Htwo.
  { apply Forall_forall. intros l Hin. change (map (le_bytes 2) all) with (le_bytes 2 <$> all) in Hin.
    apply list_elem_of_fmap in Hin as (u & -> & _). by rewrite len_le_bytes. }
  split.
  - rewrite (len_concat 2) by done. unfold len at 1. rewrite length_map. fold (len all). unfold all. rewrite len_app, len_zrepeat. lia.
  - rewrite chunks_exact_concat by (done || lia). rewrite map_map.
    assert (map (fun u => le_val (le_bytes 2 u)) all = all) as ->.
    { rewrite <- (map_id all) at 2. apply map_ext_in. intros u Hin%list_elem_of_In. rewrite le_val_le_bytes. apply Z.mod_small.
      unfold all in Hin. apply elem_of_app in Hin as [Hin|Hin]; [rewrite Forall_forall in Hu; specialize (Hu _ Hin); cbn; lia|].
      unfold zrepeat in Hin. apply elem_of_replicate in Hin as [-> _]. cbn. lia. }
    unfold all. apply take_while_stop.
    + apply forallb_forall. intros u Hin%list_elem_of_In. rewrite Forall_forall in Hu. specialize (Hu _ Hin).
      apply negb_true_iff, Z.eqb_neq. lia.
    + unfold zrepeat. by destruct (Z.to_nat (36 - len units)).
Qed.

Lemma entry_bytes_len first last size part :
  128 <= size -> match part with Some p => part_ok first last p | None => True end -> len (entry_bytes size part) = size.
Proof.
  intros Hs Hp. destruct part as [p|]; cbn [entry_bytes]; [|rewrite len_zrepeat; lia].
  destruct Hp as ([Ht _] & _ & [Hu _] & _ & _ & _ & Hn & Hl). destruct (name_units _ Hn Hl) as [Hname _].
  rewrite !len_app, !len_le_bytes, Hname, Ht, Hu, len_zrepeat. lia.
Qed.

(** With the sector size a constant, the bounds of a table are linear. *)
Ltac by_sector Hss := destruct Hss as [Hss|Hss]; rewrite Hss in *; Z.to_euclidean_division_equations; lia.

Section reader.
Context `{Crc32Laws}.

Lemma gpt_entry_written sector_size first last size ps index p :
  (sector_size = 512 \/ sector_size = 4096) -> 128 <= size -> 0 <= first -> (last + 1) * sector_size <= ISIZE_MAX ->
  part_ok first last p ->
  gpt_entry sector_size first last ps (index, entry_bytes size (Some p)) = Ok (ps ++ [layout_of sector_size index p]).
Proof.
  intros Hss Hs Hf Hlast ([Ht Htb] & Hz & [Hu Hub] & Ha & Hr1 & Hr2 & Hn & Hl). destruct (name_units _ Hn Hl) as [Hnl Hname].
  unfold ISIZE_MAX in Hlast. assert (is_u64 (gp_first p)) by (unfold is_u64; nia). assert (is_u64 (gp_last p)) by (unfold is_u64; nia).
  assert (gpt_name (entry_bytes size (Some p)) = Ok (from_utf16_lossy (gp_name p))) as Hgn.
  { unfold gpt_name. rewrite (entry_bytes_len first last) by (done || by repeat split; try done; lia). rewrite Z.min_r by lia. cbn [entry_bytes].
    rewrite !slice_app_skip by (autorewrite with len; lia). rewrite slice_app_here by (autorewrite with len; lia). cbn [bind]. by rewrite Hname. }
  unfold gpt_entry. cbn [entry_bytes] in *. read_field. cbn [bind]. rewrite Hz. rewrite Hgn. clear Hgn.
  repeat read_field. cbn [bind]. repeat read_field. cbn [bind].
  rewrite (proj2 (Z.ltb_ge _ first)), (proj2 (Z.ltb_ge _ (gp_first p))), (proj2 (Z.ltb_ge last _)) by lia. cbn [orb].
  unfold checked_mul. rewrite (proj2 (Z.leb_le (gp_first p * sector_size) _)) by nia. cbn [ok_or bind].
  unfold sub. rewrite (proj2 (Z.leb_le (gp_first p) _)) by lia. cbn [bind]. unfold add. rewrite (proj2 (Z.leb_le _ U64_MAX)) by nia. cbn [bind].
  rewrite (proj2 (Z.leb_le _ U64_MAX)) by nia. cbn [ok_or bind].
  pose proof (wp_format_gpt_guid _ Ht) as Hg. unfold layout_of.
  assert (exists text, format_gpt_guid (gp_type p) = Ok text) as [text ->].
  { unfold format_gpt_guid in *. unfold slice in *. repeat match goal with |- context [get_range ?l ?a ?b] => destruct (get_range l a b); cbn [expect bind] in * end; try done; by eexists. }
  done.
Qed.

Lemma gpt_entries_written sector_size first last size parts : forall ps index,
  (sector_size = 512 \/ sector_size = 4096) -> 128 <= size -> 0 <= first -> (last + 1) * sector_size <= ISIZE_MAX ->
  Forall (fun part => match part with Some p => part_ok first last p | None => True end) parts ->
  fold_res (gpt_entry sector_size first last) ps (zip (seqZ index (len parts)) (map (entry_bytes size) parts)) =
    Ok (ps ++ layouts_of sector_size index parts).
Proof.
  induction parts as [|part parts IH]; intros ps index Hss Hs Hf Hl Hall; [cbn; by rewrite app_nil_r|].
  apply Forall_cons in Hall as [Hp Hall]. rewrite seqZ_cons by (rewrite len_cons; pose proof (len_nonneg parts); lia).
  cbn [map zip zip_with fold_res layouts_of]. rewrite len_cons. replace (Z.pred (1 + len parts)) with (len parts) by lia.
  change (Z.succ index) with (index + 1). destruct part as [p|].
  - rewrite gpt_entry_written by done. cbn [bind]. rewrite IH by done. by rewrite <- app_assoc.
  - assert (gpt_entry sector_size first last ps (index, entry_bytes size None) = Ok ps) as ->; [|cbn [bind]; by apply IH].
    unfold gpt_entry. cbn [entry_bytes]. replace size with (16 + (size - 16)) by lia. rewrite <- (zrepeat_app 16 (size - 16)) by lia.
    rewrite slice_app_here by (rewrite ?len_zrepeat; lia). reflexivity.
Qed.

(** ** Reading the header and the entries *)

(** The image holds the bytes [l]. *)
Definition holds (source : ImageRead) (l : list Z) : Prop :=
  image_len source = len l /\ len l <= ISIZE_MAX /\
  forall offset n bytes, 0 <= offset -> 0 <= n -> get_range l offset (offset + n) = Some bytes -> image_read source offset n = Ok bytes.

(** The table is in the bytes [l]. *)
Definition table_in (l : list Z) (t : GptTable) : Prop :=
  table_ok (len l) t /\
  get_range l (gt_lba t * gt_sector_size t) (gt_lba t * gt_sector_size t + gt_sector_size t) = Some (sector_bytes t) /\
  get_range l (gt_entry_lba t * gt_sector_size t)
    (gt_entry_lba t * gt_sector_size t + len (gt_parts t) * gt_entry_size t) = Some (entries_bytes (gt_entry_size t) (gt_parts t)).

Definition header_of_table (t : GptTable) : GptHeader := {|
  gh_first_usable := gt_first_usable t; gh_last_usable := gt_last_usable t; gh_entry_lba := gt_entry_lba t;
  gh_entry_count := len (gt_parts t); gh_entry_size := gt_entry_size t;
  gh_entries_crc := crc32_hash (entries_bytes (gt_entry_size t) (gt_parts t)) |}.

Lemma len_header_bytes t crc : len (gt_guid t) = 16 -> len (header_bytes t crc) = 92.
Proof. intros Hg. unfold header_bytes. rewrite !len_app, !len_le_bytes, Hg. reflexivity. Qed.

Lemma fill_zero {E} (a b c : list Z) x y :
  x = len a -> y = len a + len b -> fill (E:=E) (a ++ b ++ c) x y 0 = Ok (a ++ zrepeat (len b) 0 ++ c).
Proof.
  intros -> ->. unfold fill. pose proof (len_nonneg a). pose proof (len_nonneg b). pose proof (len_nonneg c).
  rewrite !len_app, !(proj2 (Z.leb_le _ _)) by lia. cbn [andb]. rewrite ztake_app_len by done.
  assert (zdrop (len a + len b) (a ++ b ++ c) = c) as -> by (rewrite (app_assoc a b c); apply zdrop_app_len; by rewrite len_app).
  by replace (len a + len b - len a) with (len b) by lia.
Qed.

(** The checksum is computed over the header with a zero checksum. *)
Lemma fill_crc t crc : fill (E:=error) (header_bytes t crc) 16 20 0 = Ok (header_bytes t 0).
Proof.
  assert (exists tail, forall c, header_bytes t c = (EFI_PART ++ le_bytes 4 0x10000 ++ le_bytes 4 92) ++ le_bytes 4 c ++ tail) as [tail Ht].
  { eexists. intros c. unfold header_bytes. rewrite <- !app_assoc. reflexivity. }
  rewrite !Ht. rewrite fill_zero; [|reflexivity|by rewrite len_le_bytes]. by rewrite len_le_bytes.
Qed.

Lemma table_widths size t :
  table_ok size t ->
  is_u64 (gt_lba t) /\ is_u64 (gt_alternate t) /\ is_u64 (gt_first_usable t) /\ is_u64 (gt_last_usable t) /\
  is_u64 (gt_entry_lba t) /\ is_u32 (len (gt_parts t)) /\ is_u32 (gt_entry_size t) /\
  0 <= gt_lba t * gt_sector_size t <= U64_MAX /\ 0 <= gt_sector_size t.
Proof.
  intros (Hss & Hmax & Hlba & Halt & Hne & Hfu & Hlu & _ & Helba & Hes & _ & Hcount & Hfit & _).
  unfold ISIZE_MAX, MAX_GPT_ENTRIES, is_u64, is_u32 in *. assert (0 <= len (gt_parts t) * gt_entry_size t) by nia. by_sector Hss.
Qed.

(** Where the reader finds the fields. *)
Lemma sector_fields t crc :
  len (gt_guid t) = 16 -> is_u32 crc -> is_u64 (gt_lba t) -> is_u64 (gt_alternate t) -> is_u64 (gt_first_usable t) ->
  is_u64 (gt_last_usable t) -> is_u64 (gt_entry_lba t) -> is_u32 (len (gt_parts t)) -> is_u32 (gt_entry_size t) ->
  let entries_crc := crc32_hash (entries_bytes (gt_entry_size t) (gt_parts t)) in
  let sector := header_bytes t crc ++ zrepeat (gt_sector_size t - 92) 0 in
  slice (E:=error) sector 0 8 = Ok EFI_PART /\
  (forall o v, o = 12 /\ v = 92 \/ o = 16 /\ v = crc \/ o = 80 /\ v = len (gt_parts t) \/ o = 84 /\ v = gt_entry_size t \/
    o = 88 /\ v = entries_crc -> le_u32 (E:=error) sector o = Ok v) /\
  (forall o v, o = 24 /\ v = gt_lba t \/ o = 32 /\ v = gt_alternate t \/ o = 40 /\ v = gt_first_usable t \/
    o = 48 /\ v = gt_last_usable t \/ o = 72 /\ v = gt_entry_lba t -> le_u64 (E:=error) sector o = Ok v).
Proof.
  intros Hguid. intros. assert (is_u32 92) by (unfold is_u32; lia). assert (is_u32 entries_crc) by apply crc32_u32.
  assert (len EFI_PART = 8) as Hefi by reflexivity.
  unfold sector, header_bytes. rewrite <- !app_assoc. split; [apply slice_app_here; done|]. fold entries_crc. clearbody entries_crc.
  split; intros o v [[-> ->]|[[-> ->]|[[-> ->]|[[-> ->]|[-> ->]]]]]; repeat read_field; reflexivity.
Qed.

Lemma parse_header_written source l t :
  holds source l -> table_in l t -> parse_gpt_header source (gt_sector_size t) (gt_lba t) = Ok (header_of_table t).
Proof.
  intros (Hlen & Hmax & Hread) (Ht & Hsector & _). destruct (table_widths _ _ Ht) as (H1 & H2 & H3 & H4 & H5 & H6 & H7 & Hat & Hpos).
  destruct Ht as (Hss & _ & Hlba & Halt & Hne & Hfu & Hlu & [Hguid _] & Helba & Hes & Hmod & Hcount & Hfit & _).
  pose proof (len_nonneg l). unfold ISIZE_MAX, MAX_GPT_ENTRIES in *.
  unfold parse_gpt_header. unfold mul. rewrite (proj2 (Z.leb_le _ _)) by lia. cbn [bind].
  rewrite (Hread _ _ _ (proj1 Hat) Hpos Hsector). cbn [bind]. unfold sector_bytes.
  pose proof (crc32_u32 (header_bytes t 0)) as Hcrc. set (crc := crc32_hash (header_bytes t 0)) in *.
  pose proof (len_header_bytes t crc Hguid) as Hhl.
  destruct (sector_fields t crc Hguid Hcrc H1 H2 H3 H4 H5 H6 H7) as (Hsig & H32 & H64).
  assert (slice (E:=error) (header_bytes t crc ++ zrepeat (gt_sector_size t - 92) 0) 0 92 = Ok (header_bytes t crc)) as Hslice
    by (apply slice_app_here; lia).
  assert (len (header_bytes t crc ++ zrepeat (gt_sector_size t - 92) 0) = gt_sector_size t) as Hsl by (rewrite len_app, len_zrepeat; lia).
  rewrite Hsl. set (sector := header_bytes t crc ++ _) in *. rewrite Hsig. cbn [bind].
  change (negb (bytes_eqb EFI_PART EFI_PART)) with false. cbv iota.
  rewrite (H32 12 92) by tauto. cbn [bind]. rewrite (proj2 (Z.leb_le 92 (gt_sector_size t))) by lia. change (negb ((92 <=? 92) && true)) with false. cbv iota.
  rewrite (H32 16 crc) by tauto. cbn [bind]. rewrite Hslice. cbn [bind]. rewrite fill_crc. cbn [bind]. fold crc. rewrite Z.eqb_refl. cbn [negb].
  rewrite (H64 24 (gt_lba t)) by tauto. cbn [bind]. rewrite Z.eqb_refl. cbn [negb]. cbv zeta. rewrite Hlen.
  rewrite (H64 32 (gt_alternate t)) by tauto. cbn [bind]. rewrite (proj2 (Z.leb_gt _ (gt_alternate t))), (proj2 (Z.eqb_neq (gt_alternate t) _)) by lia. cbn [orb].
  rewrite (H64 40 (gt_first_usable t)), (H64 48 (gt_last_usable t)) by tauto. cbn [bind].
  rewrite (proj2 (Z.eqb_neq (gt_first_usable t) 0)), (proj2 (Z.ltb_ge (gt_last_usable t) _)), (proj2 (Z.leb_gt _ (gt_last_usable t))) by lia. cbn [orb].
  rewrite (H64 72 (gt_entry_lba t)), (H32 80 (len (gt_parts t))), (H32 84 (gt_entry_size t)),
    (H32 88 (crc32_hash (entries_bytes (gt_entry_size t) (gt_parts t)))) by tauto. cbn [bind].
  unfold MAX_GPT_ENTRIES. rewrite (proj2 (Z.eqb_neq (len (gt_parts t)) 0)), (proj2 (Z.ltb_ge 16384 _)) by lia. cbn [orb].
  rewrite (proj2 (Z.leb_le 128 _)), (proj2 (Z.leb_le (gt_entry_size t) 4096)), Hmod by lia. reflexivity.
Qed.

(** The reader returns the partitions of a table that was written. *)
Lemma parse_gpt_written source l t :
  holds source l -> table_in l t ->
  parse_gpt source (gt_sector_size t) (gt_lba t) = Ok (layouts_of (gt_sector_size t) 0 (gt_parts t)).
Proof.
  intros Hh Ht. unfold parse_gpt. rewrite (parse_header_written source l t Hh Ht). cbn [bind].
  destruct Hh as (Hlen & Hmax & Hread).
  destruct Ht as ((Hss & _ & Hlba & _ & _ & Hfu & Hlu & _ & Helba & Hes & _ & Hcount & Hfit & Hparts) & _ & Hentries).
  unfold ISIZE_MAX, MAX_GPT_ENTRIES in *.
  assert (0 <= gt_entry_lba t * gt_sector_size t <= len l) as Hat by (split; [by_sector Hss|nia]).
  assert (0 <= len (gt_parts t) * gt_entry_size t <= 64 * 1024 * 1024) as Hel by nia.
  assert ((gt_last_usable t + 1) * gt_sector_size t <= 9223372036854775807) as Hlast by by_sector Hss.
  assert (read_gpt_entries source (gt_sector_size t) (header_of_table t) = Ok (entries_bytes (gt_entry_size t) (gt_parts t))) as ->.
  { unfold read_gpt_entries, checked_mul, checked_add, MAX_GPT_ENTRY_BYTES. cbn [header_of_table gh_entry_count gh_entry_size gh_entry_lba gh_entries_crc].
    rewrite (proj2 (Z.leb_le (len (gt_parts t) * gt_entry_size t) _)) by lia. cbn [ok_or bind].
    rewrite (proj2 (Z.ltb_ge (64 * 1024 * 1024) _)) by lia.
    rewrite (proj2 (Z.leb_le (gt_entry_lba t * gt_sector_size t) _)) by lia. cbn [ok_or bind].
    rewrite (proj2 (Z.leb_le (gt_entry_lba t * gt_sector_size t + _) _)) by lia. cbn [ok_or bind].
    rewrite Hlen, (proj2 (Z.ltb_ge (len l) _)) by lia. rewrite (Hread _ _ _ (proj1 Hat) (proj1 Hel) Hentries). cbn [bind].
    by rewrite Z.eqb_refl. }
  cbn [bind header_of_table gh_first_usable gh_last_usable gh_entry_size]. unfold entries_bytes, enumerate.
  rewrite chunks_exact_concat; [|lia|].
  - assert (len (map (entry_bytes (gt_entry_size t)) (gt_parts t)) = len (gt_parts t)) as -> by (unfold len; by rewrite length_map).
    rewrite gpt_entries_written; [done|done|lia|lia|unfold ISIZE_MAX; lia|exact Hparts].
  - apply Forall_forall. intros e Hin. change (map ?f ?k) with (f <$> k) in Hin. apply list_elem_of_fmap in Hin as (part & -> & Hin).
    rewrite Forall_forall in Hparts. apply (entry_bytes_len (gt_first_usable t) (gt_last_usable t)); [lia|by apply Hparts].
Qed.

(** The search passes over what does not parse. *)
Lemma gpt_search_skips source before candidate after saw :
  image_ok source ->
  Forall (fun '(sector_size, lba) => 0 <= lba * sector_size <= U64_MAX /\ exists e, parse_gpt source sector_size lba = Err e) before ->
  exists saw', gpt_search source (before ++ candidate :: after) saw = gpt_search source (candidate :: after) saw'.
Proof.
  intros [_ Hi] Hb. revert saw. induction Hb as [|[ss lba] before [Hr [e He]] Hb IH]; intros saw; [by exists saw|].
  cbn [app gpt_search]. cbv zeta. assert (wp (image_read source (saturating_mul lba ss) 8) (fun _ => True)) as Hw.
  { eapply wp_mono; [|apply Hi; [unfold saturating_mul, is_u64; lia|unfold ISIZE_MAX; lia]]. done. }
  destruct (image_read source (saturating_mul lba ss) 8) as [signature|e1| |]; [|by cbn [catch]|done..]. cbn [catch].
  destruct (negb _); [done|]. rewrite He. cbn [catch]. apply IH.
Qed.
End reader.
