(* ===== verification/SegmentFacts.v ===== *)
(** The segment map of [Image] as a function from offsets to bytes: removing a
    range makes exactly its bytes zero, inserting a block puts its bytes there. *)

From stdpp Require Import sorting.
From S2P Require Import Prelude Bytes Utf8 Stream StreamFacts Replay Compression NvList Encrypted.
From S2P Require Import EncryptedDnode Paths Extents Snapshots Selected ObjectIndex IndexFacts.
From S2P Require Import Sparse SparseFacts Image.
#[local] Open Scope Z_scope.
#[local] Open Scope zse_scope.

(** ** Ranges of a map *)

Lemma sorted_entries (m : SegmentMap) (P : Z * Segment -> Prop) `{!forall kv, Decision (P kv)} :
  let l := merge_sort key_le (map_to_list (filter P m)) in
  (forall kv, kv ∈ l <-> m !! kv.1 = Some kv.2 /\ P kv) /\ NoDup l.*1 /\ StronglySorted key_le l.
Proof.
  intros l. assert (l ≡ₚ map_to_list (filter P m)) as Hp by apply merge_sort_Permutation. split; [|split].
  - intros [k v]. rewrite Hp, elem_of_map_to_list, map_lookup_filter_Some. done.
  - rewrite Hp. apply NoDup_fst_map_to_list.
  - apply Sorted_StronglySorted; [intros [] [] []; unfold key_le; cbn; lia|].
    apply Sorted_merge_sort. intros [] []; unfold key_le; cbn; lia.
Qed.

Lemma map_range_spec a b (m : SegmentMap) :
  a <= b -> exists l, map_range a b m = Ok l /\
    (forall kv, kv ∈ l <-> m !! kv.1 = Some kv.2 /\ a <= kv.1 /\ kv.1 < b) /\ NoDup l.*1 /\ StronglySorted key_le l.
Proof.
  intros Hab. unfold map_range. rewrite (proj2 (Z.ltb_ge _ _)) by done. eexists. split; [done|]. apply sorted_entries.
Qed.

Lemma last_up_to_spec start (m : SegmentMap) :
  match last_up_to start m with
  | Some (key, segment) => m !! key = Some segment /\ key <= start /\ forall k s, m !! k = Some s -> k <= start -> k <= key
  | None => forall k s, m !! k = Some s -> start < k
  end.
Proof.
  unfold last_up_to. destruct (sorted_entries m (fun kv => kv.1 <= start)) as (Hin & _ & Hs).
  set (l := merge_sort key_le _) in *. clearbody l. destruct (last l) as [[key segment]|] eqn:Hl.
  - apply last_Some in Hl as [l' ->]. destruct (proj1 (Hin (key, segment))) as [Hm Hk]; [set_solver|]. split; [done|]. split; [done|].
    intros k s Hks Hle. assert ((k, s) ∈ l' ++ [(key, segment)]) as Hk' by (by apply Hin).
    apply elem_of_app in Hk' as [Hk'|Hk']; [|by apply list_elem_of_singleton in Hk' as [= -> ->]].
    clear -Hs Hk'. induction l' as [|kv l' IH]; [by apply not_elem_of_nil in Hk'|]. cbn in Hs.
    apply StronglySorted_inv in Hs as [Hs Hf]. apply elem_of_cons in Hk' as [<-|Hk']; [|by apply IH].
    rewrite Forall_forall in Hf. apply (Hf (key, segment)). set_solver.
  - apply last_None in Hl as ->. intros k s Hks. destruct (Z.le_gt_cases k start) as [Hle|]; [|done].
    assert ((k, s) ∈ @nil (Z * Segment)) as Hbad by (by apply Hin). by apply not_elem_of_nil in Hbad.
Qed.

Lemma extend_lookup (p : list (Z * Segment)) (m : SegmentMap) k :
  match foldl (fun m kv => <[kv.1 := kv.2]> m) m p !! k with
  | Some s => (k, s) ∈ p \/ (k ∉ p.*1 /\ m !! k = Some s)
  | None => k ∉ p.*1 /\ m !! k = None
  end.
Proof.
  revert m. induction p as [|[k0 s0] p IH]; intros m; cbn [foldl fst snd].
  - destruct (m !! k) eqn:Hm; [right|]; (split; [apply not_elem_of_nil|done]).
  - specialize (IH (<[k0:=s0]> m)). destruct (foldl _ _ _ !! k) as [s|].
    + destruct IH as [Hin|[Hnin Hm]]; [left; by right|]. destruct (decide (k = k0)) as [->|Hne].
      * rewrite lookup_insert_eq in Hm. injection Hm as <-. left. by left.
      * rewrite lookup_insert_ne in Hm by done. right. split; [|done]. cbn. by rewrite not_elem_of_cons.
    + destruct IH as [Hnin Hm]. apply lookup_insert_None in Hm as [Hm Hne]. split; [|done]. cbn. by rewrite not_elem_of_cons.
Qed.

(** ** Removing *)

(** What sticks out of a range. *)
Definition pieces (start end_ key : Z) (s : Segment) : list (Z * Segment) :=
  (if key <? start then [(key, {| sg_end := start; sg_block := sg_block s; sg_block_offset := sg_block_offset s |})] else []) ++
  (if end_ <? sg_end s
   then [(end_, {| sg_end := sg_end s; sg_block := sg_block s; sg_block_offset := sg_block_offset s + (end_ - key) |})] else []).

Lemma pieces_spec start end_ k0 s0 k s :
  (k, s) ∈ pieces start end_ k0 s0 <->
    (k = k0 /\ k0 < start /\ s = {| sg_end := start; sg_block := sg_block s0; sg_block_offset := sg_block_offset s0 |}) \/
    (k = end_ /\ end_ < sg_end s0 /\
     s = {| sg_end := sg_end s0; sg_block := sg_block s0; sg_block_offset := sg_block_offset s0 + (end_ - k0) |}).
Proof.
  unfold pieces. rewrite elem_of_app. destruct (Z.ltb_spec k0 start), (Z.ltb_spec end_ (sg_end s0));
    rewrite ?list_elem_of_singleton, ?elem_of_nil; naive_solver lia.
Qed.

(** Segments are not empty, lie in u64, and do not overlap; the offset into the
    block is at most the position. *)
Definition segment_ok (k : Z) (s : Segment) : Prop := 0 <= sg_block_offset s <= k /\ k < sg_end s <= U64_MAX.
Definition disjoint_segments (m : SegmentMap) : Prop :=
  forall k1 s1 k2 s2, m !! k1 = Some s1 -> m !! k2 = Some s2 -> k1 < k2 -> sg_end s1 <= k2.
Definition map_ok (m : SegmentMap) : Prop := (forall k s, m !! k = Some s -> segment_ok k s) /\ disjoint_segments m.

(** The segments that meet a range. *)
Definition meets (start end_ k : Z) (s : Segment) : Prop := k < end_ /\ start < sg_end s.

Lemma remove_keys_fold start end_ keys : forall (m : SegmentMap) p,
  NoDup keys -> (forall k, k ∈ keys -> exists s, m !! k = Some s /\ segment_ok k s /\ k <= end_ <= U64_MAX) ->
  exists m' p', fold_res (remove_key start end_) (m, p) keys = Ok (m', p') /\
    (forall k, m' !! k = if decide (k ∈ keys) then None else m !! k) /\
    (forall kv, kv ∈ p' <-> kv ∈ p \/ exists k s, k ∈ keys /\ m !! k = Some s /\ kv ∈ pieces start end_ k s).
Proof.
  induction keys as [|key keys IH]; intros m p Hnd Hkeys; cbn [fold_res].
  { exists m, p. split; [done|]. split; [done|]. intros kv. split; [by left|]. intros [?|(k & s & Hk & _)]; [done|].
    by apply not_elem_of_nil in Hk. }
  apply NoDup_cons in Hnd as [Hkey Hnd]. destruct (Hkeys key ltac:(by left)) as (s & Hm & Hs & He).
  assert (remove_key start end_ (m, p) key = Ok (delete key m, p ++ pieces start end_ key s)) as ->.
  { unfold remove_key. rewrite Hm. unfold pieces. destruct (Z.ltb_spec end_ (sg_end s)); [|done].
    unfold sub. rewrite (proj2 (Z.leb_le _ _)) by lia. cbn [bind]. unfold add.
    rewrite (proj2 (Z.leb_le _ _)) by (unfold segment_ok in Hs; lia). done. }
  cbn [bind]. destruct (IH (delete key m) (p ++ pieces start end_ key s) Hnd) as (m' & p' & H1 & H2 & H3).
  { intros k Hk. destruct (Hkeys k ltac:(by right)) as (s' & Hm' & Hs'). exists s'. rewrite lookup_delete_ne; [done|]. by intros ->. }
  exists m', p'. split; [done|]. split.
  - intros k. rewrite H2. destruct (decide (k = key)) as [->|Hne].
    + rewrite (decide_True (P:=key ∈ key :: keys)) by (by left). case_decide; [done|]. by rewrite lookup_delete_eq.
    + rewrite lookup_delete_ne by done. repeat case_decide; set_solver.
  - intros kv. rewrite H3, elem_of_app. split.
    + intros [[?|?]|(k & s' & Hk & Hl & Hp)]; [by left|right; exists key, s; split; [by left|done]|].
      apply lookup_delete_Some in Hl as [_ Hl]. right. exists k, s'. split; [by right|done].
    + intros [?|(k & s' & Hk & Hl & Hp)]; [left; by left|]. apply elem_of_cons in Hk as [->|Hk].
      * rewrite Hm in Hl. injection Hl as <-. left. by right.
      * right. exists k, s'. rewrite lookup_delete_ne by (by intros ->). done.
Qed.

(** The keys [remove] collects are those of the segments that meet the range. *)
Lemma collected_keys start end_ (m : SegmentMap) l :
  map_ok m -> start < end_ ->
  (forall kv, kv ∈ l <-> m !! kv.1 = Some kv.2 /\ start <= kv.1 /\ kv.1 < end_) -> NoDup l.*1 ->
  let keys := match last_up_to start m with
    | Some (key, segment) =>
        if (start <? sg_end segment) && negb (bool_decide (key ∈ map fst l)) then map fst l ++ [key] else map fst l
    | None => map fst l end in
  NoDup keys /\ forall k, k ∈ keys <-> exists s, m !! k = Some s /\ meets start end_ k s.
Proof.
  intros [Hok Hdis] Hse Hl Hnd. pose proof (last_up_to_spec start m) as Hlast.
  assert (forall k, k ∈ map fst l <-> exists s, m !! k = Some s /\ start <= k /\ k < end_) as Hin.
  { intros k. change (map fst l) with (l.*1). rewrite list_elem_of_fmap. split.
    - intros ([k' s] & -> & Hkv). exists s. by apply Hl in Hkv.
    - intros (s & Hm & Hk). exists (k, s). split; [done|]. by apply Hl. }
  assert (forall k s, m !! k = Some s -> start <= k -> meets start end_ k s <-> k < end_) as Hbig.
  { intros k s Hm Hk. unfold meets. destruct (Hok _ _ Hm). lia. }
  destruct (last_up_to start m) as [[key segment]|].
  - destruct Hlast as (Hkey & Hle & Hmax).
    assert (forall k s, m !! k = Some s -> k < start -> meets start end_ k s -> k = key /\ s = segment) as Hpred.
    { intros k s Hm Hk [_ Hs]. destruct (decide (k = key)) as [->|Hne]; [split; [done|congruence]|].
      pose proof (Hmax k s Hm ltac:(lia)). pose proof (Hdis k s key segment Hm Hkey ltac:(lia)). lia. }
    destruct ((start <? sg_end segment) && negb (bool_decide (key ∈ map fst l))) eqn:Hc; intros keys.
    + apply andb_true_iff in Hc as [Hseg Hkn]. apply Z.ltb_lt in Hseg. apply negb_true_iff, bool_decide_eq_false in Hkn.
      split; [apply NoDup_app; split; [done|]; split; [|apply NoDup_singleton]; intros k Hk Hk'; apply list_elem_of_singleton in Hk' as ->; done|].
      intros k. unfold keys. rewrite elem_of_app, Hin, list_elem_of_singleton. split.
      * intros [(s & Hm & Hk1 & Hk2)| ->]; [exists s; split; [done|]; by apply Hbig|]. exists segment. split; [done|]. split; lia.
      * intros (s & Hm & Hmeet). destruct (Z.le_gt_cases start k) as [Hk|Hk].
        -- left. exists s. split; [done|]. split; [done|]. apply Hmeet.
        -- right. by apply (Hpred k s).
    + split; [done|]. intros k. unfold keys. rewrite Hin. split.
      * intros (s & Hm & Hk1 & Hk2). exists s. split; [done|]. by apply Hbig.
      * intros (s & Hm & Hmeet). exists s. split; [done|]. destruct (Z.le_gt_cases start k) as [Hk|Hk]; [split; [done|apply Hmeet]|].
        destruct (Hpred k s Hm Hk Hmeet) as [-> ->]. destruct Hmeet as [Hm1 Hm2].
        rewrite (proj2 (Z.ltb_lt _ _) Hm2) in Hc. cbn in Hc. apply negb_false_iff, bool_decide_eq_true, Hin in Hc.
        destruct Hc as (? & _ & ? & _). lia.
  - intros keys. split; [done|]. intros k. unfold keys. rewrite Hin. split.
    + intros (s & Hm & Hk1 & Hk2). exists s. split; [done|]. by apply Hbig.
    + intros (s & Hm & Hmeet). exists s. split; [done|]. pose proof (Hlast k s Hm). split; [lia|apply Hmeet].
Qed.

(** What [remove] leaves: the segments that do not meet the range, and the pieces
    of those that do. *)
Lemma remove_range_Ok m start end_ length :
  map_ok m -> 0 <= start < end_ -> end_ <= U64_MAX ->
  (if length =? U64_MAX then Ok U64_MAX else ok_or (checked_add start length) (Msg "nested FREE range overflows" [])) = Ok end_ ->
  exists m', remove_range m start length = Ok m' /\
    forall k s, m' !! k = Some s <->
      (m !! k = Some s /\ ~ meets start end_ k s) \/
      (exists k0 s0, m !! k0 = Some s0 /\ meets start end_ k0 s0 /\ (k, s) ∈ pieces start end_ k0 s0).
Proof.
  intros Hm Hse He Hend. unfold remove_range. rewrite Hend. cbn [bind]. rewrite (proj2 (Z.eqb_neq _ _)) by lia.
  destruct (map_range_spec start end_ m ltac:(lia)) as (l & -> & Hl & Hnd & _). cbn [bind]. cbv zeta.
  destruct (collected_keys start end_ m l Hm ltac:(lia) Hl Hnd) as [Hknd Hkeys]. set (keys := match last_up_to start m with Some _ => _ | None => _ end) in *.
  destruct (remove_keys_fold start end_ keys m [] Hknd) as (m' & p' & -> & Hm' & Hp').
  { intros k (s & Hk & Hmeet)%Hkeys. exists s. split; [done|]. split; [by apply Hm|]. destruct Hmeet. lia. }
  cbn [bind]. eexists. split; [done|]. destruct Hm as [Hok Hdis].
  assert (forall k s, (k, s) ∈ p' <-> exists k0 s0, m !! k0 = Some s0 /\ meets start end_ k0 s0 /\ (k, s) ∈ pieces start end_ k0 s0) as Hpieces.
  { intros k s. rewrite Hp'. split.
    - intros [Hbad|(k0 & s0 & Hk0 & Hl0 & Hin)]; [by apply not_elem_of_nil in Hbad|]. apply Hkeys in Hk0 as (s' & Hs' & Hmeet).
      exists k0, s0. replace s0 with s' by congruence. replace s' with s0 in * by congruence. done.
    - intros (k0 & s0 & Hl0 & Hmeet & Hin). right. exists k0, s0. split; [apply Hkeys; by exists s0|done]. }
  (* pieces have keys of their own *)
  assert (forall k s k0 s0 s', m !! k0 = Some s0 -> meets start end_ k0 s0 -> (k, s) ∈ pieces start end_ k0 s0 ->
    m !! k = Some s' -> meets start end_ k s') as Hown.
  { intros k s k0 s0 s' Hl0 Hmeet [(-> & _ & _)|(-> & Hend0 & _)]%pieces_spec Hl'; [by replace s' with s0 by congruence|].
    pose proof (Hdis k0 s0 end_ s' Hl0 Hl' ltac:(apply Hmeet)). lia. }
  assert (forall k s s', (k, s) ∈ p' -> (k, s') ∈ p' -> s = s') as Huniq.
  { intros k s s' (k0 & s0 & Hl0 & Hm0 & Hin0)%Hpieces (k1 & s1 & Hl1 & Hm1 & Hin1)%Hpieces.
    apply pieces_spec in Hin0, Hin1. destruct Hm0 as [Hm01 Hm02], Hm1 as [Hm11 Hm12].
    assert (k0 = k1) as <-.
    { destruct Hin0 as [(-> & ? & _)|(-> & ? & _)], Hin1 as [(? & ? & _)|(? & ? & _)]; [lia..|].
      destruct (Z.lt_trichotomy k0 k1) as [Hlt|[?|Hlt]]; [|done|].
      - pose proof (Hdis _ _ _ _ Hl0 Hl1 Hlt). lia.
      - pose proof (Hdis _ _ _ _ Hl1 Hl0 Hlt). lia. }
    replace s1 with s0 in * by congruence.
    destruct Hin0 as [(-> & ? & ->)|(-> & ? & ->)], Hin1 as [(? & ? & ->)|(? & ? & ->)]; (done || lia). }
  intros k s. pose proof (extend_lookup p' m' k) as Hex. rewrite Hm' in Hex.
  assert (forall s', (k, s') ∈ p' -> k ∈ p'.*1) as Hfst by (intros s' Hin; apply list_elem_of_fmap; by exists (k, s')).
  assert (k ∈ keys <-> exists s', m !! k = Some s' /\ meets start end_ k s') as Hkk by apply Hkeys.
  destruct (foldl _ m' p' !! k) as [s'|]; split.
  - intros [= <-]. destruct Hex as [Hin|[Hnin Hlk]]; [right; by apply Hpieces|]. left. case_decide; [done|].
    split; [done|]. intros Hmeet. apply H, Hkk. by exists s'.
  - intros [[Hlk Hn]|Hp]; f_equal.
    + destruct Hex as [Hin|[Hnin Hlk']].
      * apply Hpieces in Hin as (k0 & s0 & Hl0 & Hmeet & Hin). destruct Hn. by apply (Hown k s' k0 s0).
      * case_decide; [done|]. congruence.
    + apply Hpieces in Hp. destruct Hex as [Hin|[Hnin _]]; [by apply (Huniq k)|]. destruct Hnin. by apply (Hfst s).
  - done.
  - destruct Hex as [Hnin Hlk]. intros [[Hlk' Hn]|Hp].
    + case_decide as Hd; [|congruence]. apply Hkk in Hd as (s' & Hs' & Hmeet). destruct Hn. by replace s with s' by congruence.
    + apply Hpieces, Hfst in Hp. done.
Qed.

(** ** What a map shows *)

Section shows.
Context (value : BlockDescriptor -> list Z -> Prop).

(** The segment's part of its block is what the content has there. *)
Definition shows (c : Z -> Z) (k : Z) (s : Segment) : Prop :=
  exists bytes, value (sg_block s) bytes /\ sg_block_offset s + (sg_end s - k) <= len bytes /\
    forall x, k <= x < sg_end s -> c x = byte_at bytes (sg_block_offset s + (x - k)).

(** ... and where there is no segment the content is zero. *)
Definition map_shows (m : SegmentMap) (c : Z -> Z) : Prop :=
  map_ok m /\ (forall k s, m !! k = Some s -> shows c k s) /\
  forall x, 0 <= x -> (forall k s, m !! k = Some s -> ~ k <= x < sg_end s) -> c x = 0.

Lemma map_shows_empty c : (forall x, c x = 0) -> map_shows ∅ c.
Proof. intros Hc. split; [split; [|intros ? ? ? ? H]; done|]. split; [done|]. intros; apply Hc. Qed.

Lemma map_shows_ext m c c' : (forall x, 0 <= x -> c x = c' x) -> map_shows m c -> map_shows m c'.
Proof.
  intros Hc (Hok & Hs & Hz). split; [done|]. split.
  - intros k s Hk. destruct (Hs k s Hk) as (bytes & Hv & Hl & Hb). exists bytes. split; [done|]. split; [done|].
    intros x Hx. rewrite <- Hc by (pose proof (proj1 Hok k s Hk) as H0; unfold segment_ok in H0; lia). by apply Hb.
  - intros x Hx Hn. rewrite <- Hc by done. by apply Hz.
Qed.

(** A piece shows what its segment showed. *)
Lemma piece_shows start end_ k0 s0 k s c :
  start < end_ -> segment_ok k0 s0 -> meets start end_ k0 s0 -> (k, s) ∈ pieces start end_ k0 s0 -> shows c k0 s0 ->
  segment_ok k s /\ ~ meets start end_ k s /\ k0 <= k /\ sg_end s <= sg_end s0 /\ (sg_end s <= start \/ end_ <= k) /\ shows c k s.
Proof.
  intros Hse [Ho He] [Hm1 Hm2] Hin (bytes & Hv & Hl & Hb). apply pieces_spec in Hin as [(-> & Hk & ->)|(-> & Hk & ->)];
    unfold segment_ok, meets, shows; cbn [sg_end sg_block sg_block_offset].
  - split; [lia|]. split; [lia|]. split; [lia|]. split; [lia|]. split; [lia|]. exists bytes. split; [done|]. split; [lia|].
    intros x Hx. apply Hb. lia.
  - split; [lia|]. split; [lia|]. split; [lia|]. split; [lia|]. split; [lia|]. exists bytes. split; [done|]. split; [lia|].
    intros x Hx. rewrite Hb by lia. f_equal. lia.
Qed.

Lemma remove_shows m m' start end_ c c' :
  map_shows m c -> 0 <= start < end_ -> end_ <= U64_MAX ->
  (forall k s, m' !! k = Some s <->
      (m !! k = Some s /\ ~ meets start end_ k s) \/
      (exists k0 s0, m !! k0 = Some s0 /\ meets start end_ k0 s0 /\ (k, s) ∈ pieces start end_ k0 s0)) ->
  (forall x, 0 <= x < U64_MAX -> c' x = if (start <=? x) && (x <? end_) then 0 else c x) ->
  (forall x, U64_MAX <= x -> c x = 0 -> c' x = 0) ->
  map_shows m' c' /\ forall k s, m' !! k = Some s -> ~ meets start end_ k s.
Proof.
  intros ((Hok & Hdis) & Hs & Hz) Hse He Hm' Hc' Hc'2.
  (* every segment of m' lies within one of m, outside the range *)
  assert (forall k s, m' !! k = Some s -> exists k0 s0, m !! k0 = Some s0 /\ segment_ok k s /\ ~ meets start end_ k s /\
    k0 <= k /\ sg_end s <= sg_end s0 /\ (sg_end s <= start \/ end_ <= k) /\ shows c k s) as Hin.
  { intros k s [[Hk Hn]|(k0 & s0 & Hk0 & Hmeet & Hp)]%Hm'.
    - exists k, s. split; [done|]. split; [by apply Hok|]. split; [done|]. split; [lia|]. split; [lia|].
      split; [unfold meets in Hn; lia|]. by apply Hs.
    - exists k0, s0. split; [done|]. apply (piece_shows start end_ k0 s0); auto. lia. }
  split; [split; [split|split]|].
  - intros k s Hk. by destruct (Hin k s Hk) as (_ & _ & _ & ? & _).
  - intros k1 s1 k2 s2 Hk1 Hk2 Hlt. destruct (Hin _ _ Hk1) as (a1 & t1 & Ha1 & [_ H1] & _ & Hl1 & Hr1 & Ho1 & _).
    destruct (Hin _ _ Hk2) as (a2 & t2 & Ha2 & [_ H2] & _ & Hl2 & Hr2 & Ho2 & _).
    destruct (Z.lt_trichotomy a1 a2) as [Hl|[Hl|Hl]].
    + pose proof (Hdis _ _ _ _ Ha1 Ha2 Hl). lia.
    + (* two pieces of one segment: the left ends at the range, the right begins behind it *)
      apply Hm' in Hk1, Hk2. destruct Hk1 as [[Hk1 Hn1]|(b1 & u1 & Hb1 & Hmb1 & Hp1)].
      * destruct Hk2 as [[Hk2 Hn2]|(b2 & u2 & Hb2 & Hmb2 & Hp2)]; [by apply (Hdis k1 s1 k2 s2)|].
        destruct (decide (k1 = b2)) as [->|Hne]; [replace u2 with s1 in * by congruence; done|].
        destruct (Z.lt_trichotomy k1 b2) as [Hx|[?|Hx]]; [|done|].
        -- pose proof (Hdis _ _ _ _ Hk1 Hb2 Hx). apply pieces_spec in Hp2. destruct Hmb2. lia.
        -- pose proof (Hdis _ _ _ _ Hb2 Hk1 Hx). destruct Hmb2. unfold meets in Hn1. apply pieces_spec in Hp2. lia.
      * apply pieces_spec in Hp1. destruct Hmb1 as [Hq1 Hq2].
        destruct Hk2 as [[Hk2 Hn2]|(b2 & u2 & Hb2 & [Hq3 Hq4] & Hp2)].
        -- destruct Hp1 as [(-> & ? & ->)|(-> & ? & ->)]; cbn [sg_end].
           ++ destruct (decide (b1 = k2)) as [->|]; [lia|]. pose proof (Hdis _ _ _ _ Hb1 Hk2 Hlt). lia.
           ++ destruct (Z.lt_trichotomy b1 k2) as [Hx|[?|Hx]]; [by apply (Hdis b1 u1 k2 s2)|lia|lia].
        -- apply pieces_spec in Hp2. destruct Hp1 as [(-> & ? & ->)|(-> & ? & ->)], Hp2 as [(-> & ? & ->)|(-> & ? & ->)]; cbn [sg_end]; try lia.
           pose proof (Hdis _ _ _ _ Hb1 Hb2 Hlt). lia.
    + pose proof (Hdis _ _ _ _ Ha2 Ha1 Hl). lia.
  - intros k s Hk. destruct (Hin k s Hk) as (_ & _ & _ & [Hk1 Hk2] & _ & _ & _ & Hout & bytes & Hv & Hl & Hb).
    exists bytes. split; [done|]. split; [done|]. intros x Hx. rewrite Hc' by lia.
    destruct (Z.leb_spec start x), (Z.ltb_spec x end_); cbn [andb]; try lia; by apply Hb.
  - intros x Hx Hn. assert (forall k s, m !! k = Some s -> k <= x < sg_end s -> start <= x < end_) as Hcov.
    { intros k s Hk Hkx. destruct (decide (k < end_ /\ start < sg_end s)) as [Hmeet|Hnm].
      - destruct (decide (start <= x < end_)) as [|Hnx]; [done|exfalso]. destruct (Z.lt_ge_cases x start) as [Hlt|Hge].
        + apply (Hn k {| sg_end := start; sg_block := sg_block s; sg_block_offset := sg_block_offset s |}); [|cbn; lia].
          apply Hm'. right. exists k, s. split; [done|]. split; [done|]. apply pieces_spec. left. split; [done|]. split; [lia|done].
        + apply (Hn end_ {| sg_end := sg_end s; sg_block := sg_block s; sg_block_offset := sg_block_offset s + (end_ - k) |}); [|cbn; lia].
          apply Hm'. right. exists k, s. split; [done|]. split; [done|]. apply pieces_spec. right. split; [done|]. split; [lia|done].
      - exfalso. apply (Hn k s); [|done]. apply Hm'. by left. }
    destruct (Z.lt_ge_cases x U64_MAX) as [Hlt|Hge].
    + rewrite Hc' by lia. destruct ((start <=? x) && (x <? end_)) eqn:Hr; [done|]. apply Hz; [done|]. intros k s Hk Hkx.
      specialize (Hcov k s Hk Hkx). rewrite (proj2 (Z.leb_le _ _)), (proj2 (Z.ltb_lt _ _)) in Hr by lia. done.
    + apply Hc'2; [lia|]. apply Hz; [done|]. intros k s Hk Hkx. destruct (Hok k s Hk). lia.
  - intros k s Hk. by destruct (Hin k s Hk) as (_ & _ & _ & _ & ? & _).
Qed.

(** ** Blocks *)

(** A block's id tells it apart, and ids not below [next] are free. *)
Definition blocks_ok (m : SegmentMap) (next : Z) : Prop :=
  forall k1 s1, m !! k1 = Some s1 -> bd_id (sg_block s1) < next /\
    forall k2 s2, m !! k2 = Some s2 -> bd_id (sg_block s1) = bd_id (sg_block s2) -> sg_block s1 = sg_block s2.

Lemma blocks_ok_empty next : blocks_ok ∅ next.
Proof. intros k1 s1 Hk. by rewrite lookup_empty in Hk. Qed.

Lemma blocks_ok_mono m m' next next' :
  next <= next' -> (forall k s, m' !! k = Some s -> exists k0 s0, m !! k0 = Some s0 /\ sg_block s = sg_block s0) ->
  blocks_ok m next -> blocks_ok m' next'.
Proof.
  intros Hn Hsub Hb k1 s1 Hk1. destruct (Hsub _ _ Hk1) as (a1 & t1 & Ha1 & ->). destruct (Hb _ _ Ha1) as [Hlt Heq].
  split; [lia|]. intros k2 s2 Hk2. destruct (Hsub _ _ Hk2) as (a2 & t2 & Ha2 & ->). by apply (Heq a2).
Qed.

Lemma blocks_ok_insert m next k s :
  bd_id (sg_block s) = next -> blocks_ok m next -> blocks_ok (<[k := s]> m) (next + 1).
Proof.
  intros Hs Hb k1 s1 [[<- <-]|[_ Hk1]]%lookup_insert_Some.
  - split; [lia|]. intros k2 s2 [[<- <-]|[_ Hk2]]%lookup_insert_Some Heq; [done|]. destruct (Hb _ _ Hk2). lia.
  - destruct (Hb _ _ Hk1) as [Hlt Hall]. split; [lia|].
    intros k2 s2 [[<- <-]|[_ Hk2]]%lookup_insert_Some Heq; [lia|]. by apply (Hall k2).
Qed.

(** ** The two operations *)

Lemma wp_remove_shows m start length c next :
  map_shows m c -> blocks_ok m next -> is_u64 start -> is_u64 length ->
  wp (remove_range m start length) (fun m' =>
    map_shows m' (zeroed start length c) /\ blocks_ok m' next /\
    (length <> 0 -> start + length <= U64_MAX -> forall k s, m' !! k = Some s -> ~ meets start (start + length) k s)).
Proof.
  intros Hm Hb Hs Hl. pose proof Hm as (Hok & _ & Hz).
  destruct (if length =? U64_MAX then Ok U64_MAX else ok_or (checked_add start length) (Msg "nested FREE range overflows" []))
    as [end_|e| |] eqn:Hend; [|unfold remove_range; rewrite Hend; apply wp_Err|case_match; [|destruct (checked_add start length)]; discriminate Hend..].
  assert (end_ = Z.min (start + length) U64_MAX /\ (length <> U64_MAX -> start + length <= U64_MAX)) as [He Hle].
  { destruct (Z.eqb_spec length U64_MAX) as [->|Hne]; [injection Hend as <-; u64|].
    apply ok_or_Ok, checked_add_Some in Hend as [? ->]. lia. }
  destruct (decide (start = end_)) as [Heq|Hne].
  - assert (remove_range m start length = Ok m) as ->.
    { unfold remove_range. rewrite Hend. cbn [bind]. by rewrite (proj2 (Z.eqb_eq _ _) Heq). }
    apply wp_Ok. split; [|split; [done|intros; lia]]. apply (map_shows_ext m c); [|done]. intros x Hx. unfold zeroed.
    destruct (Z.leb_spec start x), (Z.ltb_spec x (start + length)); cbn [andb]; try done.
    apply Hz; [done|]. intros k s Hk Hkx. destruct (proj1 Hok k s Hk). lia.
  - destruct (remove_range_Ok m start end_ length Hok ltac:(u64) ltac:(lia) Hend) as (m' & -> & Hm'). apply wp_Ok.
    destruct (remove_shows m m' start end_ c (zeroed start length c) Hm ltac:(u64) ltac:(lia) Hm') as [Hshow Hout].
    { intros x Hx. unfold zeroed. destruct (Z.leb_spec start x), (Z.ltb_spec x (start + length)), (Z.ltb_spec x end_); cbn [andb]; try done; exfalso; clear Hend; lia. }
    { intros x Hx Hcx. unfold zeroed. by destruct (_ && _). }
    split; [done|]. split.
    + apply (blocks_ok_mono m m' next next); [lia| |done]. intros k s [[Hk _]|(k0 & s0 & Hk0 & _ & Hp)]%Hm'; [by exists k, s|].
      exists k0, s0. split; [done|]. by apply pieces_spec in Hp as [(_ & _ & ->)|(_ & _ & ->)].
    + intros _ Hsum. replace (start + length) with end_ by lia. done.
Qed.

Lemma wp_insert_shows m start length block bytes c next :
  map_shows m c -> blocks_ok m next -> is_u64 start -> is_u64 length ->
  value block bytes -> len bytes = length -> bd_id block = next ->
  wp (insert_range m start length block) (fun m' => map_shows m' (over start bytes c) /\ blocks_ok m' (next + 1)).
Proof.
  intros Hm Hb Hs Hl Hv Hlen Hid. unfold insert_range. apply wp_if; intros H0; b2p.
  { apply wp_Ok. split; [|apply (blocks_ok_mono m m next); [lia|by eauto|done]].
    apply (map_shows_ext m c); [|done]. intros x Hx. unfold over. rewrite Hlen, H0.
    by destruct (Z.leb_spec start x), (Z.ltb_spec x (start + 0)); cbn [andb]; try lia. }
  apply wp_bind. eapply wp_mono; [|by apply wp_remove_shows]. intros m1 (((Hok & Hdis) & Hsh & Hz) & Hb1 & Hout).
  wp_step. wp_step. match goal with Hc : checked_add _ _ = _ |- _ => apply checked_add_Some in Hc as [Hsum ->] end.
  specialize (Hout ltac:(lia) ltac:(lia)). unfold meets in Hout. apply wp_Ok.
  set (s0 := {| sg_end := start + length; sg_block := block; sg_block_offset := 0 |}).
  assert (forall x, over start bytes c x = if (start <=? x) && (x <? start + length) then byte_at bytes (x - start) else zeroed start length c x) as Hc'.
  { intros x. unfold over, zeroed. rewrite Hlen. by case_match. }
  split; [|by apply blocks_ok_insert]. split; [split|split].
  - intros k s [[<- <-]|[_ Hk]]%lookup_insert_Some; [|by apply Hok]. unfold segment_ok. cbn. u64.
  - intros k1 s1 k2 s2 [[<- <-]|[Hn1 Hk1]]%lookup_insert_Some [[<- <-]|[Hn2 Hk2]]%lookup_insert_Some Hlt; unfold s0; cbn [sg_end]; try lia.
    + destruct (Hok _ _ Hk2). pose proof (Hout _ _ Hk2). u64.
    + pose proof (Hout _ _ Hk1). u64.
    + by apply (Hdis k1 s1 k2 s2).
  - intros k s [[<- <-]|[Hn Hk]]%lookup_insert_Some.
    + exists bytes. cbn. split; [done|]. split; [lia|]. intros x Hx. rewrite Hc'.
      rewrite (proj2 (Z.leb_le _ _)), (proj2 (Z.ltb_lt _ _)) by lia. done.
    + destruct (Hsh _ _ Hk) as (b & Hbv & Hbl & Hbb). exists b. split; [done|]. split; [done|]. intros x Hx. rewrite Hc'.
      pose proof (Hout _ _ Hk) as Ho. destruct (Z.leb_spec start x), (Z.ltb_spec x (start + length)); cbn [andb]; try lia; by apply Hbb.
  - intros x Hx Hn. rewrite Hc'. destruct (Z.leb_spec start x), (Z.ltb_spec x (start + length)); cbn [andb].
    { destruct (Hn start s0); [apply lookup_insert_eq|cbn; lia]. }
    all: apply Hz; [done|]; intros k s Hk Hkx; apply (Hn k s); [|done]; rewrite lookup_insert_ne; [done|];
      intros <-; pose proof (Hout _ _ Hk); destruct (Hok _ _ Hk); u64.
Qed.
End shows.
