(* ===== verification/ImageProps.v ===== *)
(** The lazy image (src/src/inception.rs, lines 1740-2156) against the eager meaning
    of the records: what the map built from a stream shows is what extraction would
    write, and positioned reads return exactly that. *)

From S2P Require Import Prelude Bytes Utf8 Stream StreamFacts StreamWriter StreamProps Compression CompressionProps NvList Encrypted.
From S2P Require Import EncryptedDnode EncryptedProps Resolve ResolveProps Replay Paths Extents Snapshots Selected ObjectIndex IndexFacts FilesystemProps Sparse.
From S2P Require Import SparseFacts Operations OperationsFacts OperationsProps Image SegmentFacts.
#[local] Open Scope Z_scope.
#[local] Open Scope zse_scope.

(** ** Where a payload lies in the file *)

(** The payload of [record] is in [file] behind its header. *)
Definition stored (file : list Z) (record : Record_) : Prop :=
  0 <= stream_offset record /\
  get_range file (stream_offset record + RECORD_SIZE) (stream_offset record + RECORD_SIZE + len (payload record))
    = Some (payload record).

Lemma apply_kind_inner {R} (r r' : StreamReader R) header k conclusion off :
  apply_kind r header k conclusion off = Ok r' -> inner r' = inner r /\ offset r' = offset r.
Proof. unfold apply_kind. destruct k; intros Ha; inv_ok; by subst. Qed.

Lemma next_record_bytes (r r' : StreamReader (list Z)) record :
  next_record r = Ok (Some record, r') -> exists header, inner r = header ++ payload record ++ inner r'.
Proof.
  unfold next_record. cbn [read_one Read_list]. destruct (inner r) as [|first src]; cbn [map_err bind].
  { repeat case_match; intros Hn; discriminate Hn. }
  cbv zeta. intros Hn. apply bind_Ok in Hn as ([rest src1] & Hrest & Hn). apply map_err_Ok in Hrest. cbn [Stream.read_exact Read_list] in Hrest.
  destruct (_ <=? len src); [|discriminate Hrest]. injection Hrest as <- <-.
  do 3 apply bind_Ok in Hn as (? & _ & Hn). destruct (_ <? _); [discriminate Hn|]. apply bind_Ok in Hn as (n & _ & Hn).
  apply bind_Ok in Hn as ([body src2] & Hbody & Hn). apply map_err_Ok in Hbody. cbn [Stream.read_exact Read_list] in Hbody.
  destruct (_ <=? len _); [|discriminate Hbody]. injection Hbody as <- <-.
  do 2 apply bind_Ok in Hn as (? & _ & Hn). apply bind_Ok in Hn as (r2 & Ha & Hn). apply bind_Ok in Hn as (next & _ & Hn).
  injection Hn as <- <-. apply apply_kind_inner in Ha as [Ha _]. cbn [inner payload] in *. rewrite Ha, ztake_zdrop.
  exists (first :: ztake (RECORD_SIZE - 1) src). cbn [app]. by rewrite ztake_zdrop.
Qed.

Lemma read_all_stored file fuel : forall (r r' : StreamReader (list Z)) records pre,
  reader_wf r -> file = pre ++ inner r -> offset r = len pre ->
  read_all fuel r = Ok (records, r') -> Forall (stored file) records.
Proof.
  induction fuel as [|fuel IH]; intros r r' records pre Hwf Hfile Hoff Hr; [done|]. cbn [read_all] in Hr.
  apply bind_Ok in Hr as ([record r1] & Hn & Hr). pose proof (wp_value _ _ _ (wp_next_record r Hwf) Hn) as Hpost.
  destruct record as [record|]; [|injection Hr as <- <-; constructor]. apply next_record_bytes in Hn as (header & Hin).
  cbn [next_post] in Hpost. destruct Hpost as (Hwf1 & _ & _ & _ & Hso & Hoff1 & Hrem & _). cbn in Hrem.
  apply bind_Ok in Hr as ([records' r2] & Hr & [= <- <-]).
  assert (len header = RECORD_SIZE) as Hh by (rewrite Hin, !len_app in Hrem; lia). constructor.
  - pose proof (len_nonneg pre). split; [lia|].
    rewrite Hfile, Hin, Hso, Hoff. replace (pre ++ header ++ payload record ++ inner r1)
      with ((pre ++ header) ++ payload record ++ inner r1) by (by rewrite <- app_assoc).
    apply get_range_app; rewrite len_app; lia.
  - apply (IH r1 r2 records' (pre ++ header ++ payload record)); [done| | |done].
    + by rewrite Hfile, Hin, <- !app_assoc.
    + rewrite !len_app. lia.
Qed.

(** Every record takes its header from the source. *)
Lemma read_all_count {R} `{ReadLaws R} fuel : forall (r r' : StreamReader R) records,
  reader_wf r -> read_all fuel r = Ok (records, r') -> RECORD_SIZE * len records <= remaining (inner r).
Proof.
  unfold RECORD_SIZE. induction fuel as [|fuel IH]; intros r r' records Hwf Hr; [done|]. cbn [read_all] in Hr.
  apply bind_Ok in Hr as ([record r1] & Hn & Hr). pose proof (wp_value _ _ _ (wp_next_record r Hwf) Hn) as Hpost.
  destruct record as [record|]; [|injection Hr as <- <-; apply remaining_nonneg].
  cbn [next_post] in Hpost. destruct Hpost as (Hwf1 & _ & _ & _ & _ & _ & Hrem & _). unfold RECORD_SIZE in Hrem.
  apply bind_Ok in Hr as ([records' r2] & Hr & [= <- <-]). specialize (IH _ _ _ Hwf1 Hr). pose proof (len_nonneg (payload record)).
  rewrite len_cons. lia.
Qed.

Section image_facts.
Context `{CodecLaws} `{Crypto} `{Crc32}.

(** ** Decoding what a record described *)

Definition decodes (file : list Z) (keys : list DatasetKey) (block : BlockDescriptor) (bytes : list Z) : Prop :=
  decode_block file keys block = Ok bytes /\ len bytes <= ISIZE_MAX.

Lemma read_stored file record :
  stored file record -> read_file_exact_at file (stream_offset record + RECORD_SIZE) (len (payload record)) = Ok (payload record).
Proof.
  intros [_ Hs]. unfold read_file_exact_at. destruct (Z.eqb_spec (len (payload record)) 0) as [Hl|Hl].
  - destruct (payload record); [done|]. rewrite len_cons in Hl. pose proof (len_nonneg l). lia.
  - by rewrite Hs.
Qed.

Lemma decode_stored file keys record id logical_len encoding bytes :
  stored file record -> len bytes = logical_len -> len bytes <= ISIZE_MAX ->
  match encoding with
  | ReplayBlock c => decode_replay_write c (payload record) logical_len
  | EmbeddedBlock c t p =>
      if U32_MAX <? logical_len then Err (Foreign "TryFromIntError")
      else decode_embedded_write c t (payload record) p logical_len
  | RawBlock _ _ _ _ _ _ => Err (Foreign "raw")
  end = Ok bytes ->
  decodes file keys {| bd_id := id; bd_payload_offset := stream_offset record + RECORD_SIZE;
    bd_payload_len := len (payload record); bd_payload_crc32 := crc32_hash (payload record);
    bd_logical_len := logical_len; bd_encoding := encoding |} bytes.
Proof.
  intros Hs Hl Hmax Henc. split; [|done]. unfold decode_block. cbn [bd_payload_offset bd_payload_len bd_payload_crc32 bd_logical_len bd_encoding].
  rewrite read_stored by done. cbn [with_context map_err bind]. rewrite Z.eqb_refl. cbn [negb].
  destruct encoding as [c|c t p|]; [| |discriminate Henc].
  - rewrite Henc. cbn [bind]. by rewrite (proj2 (Z.eqb_eq _ _) Hl).
  - destruct (_ <? _); [discriminate Henc|]. rewrite Henc. cbn [bind]. by rewrite (proj2 (Z.eqb_eq _ _) Hl).
Qed.

Lemma wp_describe file s record logical_len encoding (P : BlockDescriptor -> Prop) :
  stored file record -> len file <= ISIZE_MAX ->
  P {| bd_id := is_next_id s; bd_payload_offset := stream_offset record + RECORD_SIZE;
       bd_payload_len := len (payload record); bd_payload_crc32 := crc32_hash (payload record);
       bd_logical_len := logical_len; bd_encoding := encoding |} ->
  wp (describe s record logical_len encoding) P.
Proof.
  intros [Hso Hs] Hf HP. apply get_range_Some in Hs as (? & ? & _). pose proof (len_nonneg (payload record)).
  unfold describe. apply wp_bind, wp_add; [unfold ISIZE_MAX in Hf; lia|]. by apply wp_Ok.
Qed.

(** ** Building *)

(** The meaning of a record for an image: that for a file, but that an OBJECT of
    another type empties the object. The object's bytes and its type, if it exists. *)
Definition image_content (object_id : Z) (s : content * option Z) (record : Record_) : result (content * option Z) :=
  let '(c, ty) := s in
  match kind record with
  | Object object =>
      if obj_object object =? object_id
      then Ok (if bool_decide (ty = Some (obj_type object)) then c else fun _ => 0, Some (obj_type object)) else Ok s
  | _ =>
      let! (c, object_exists) := content_record object_id (c, is_some ty) record in
      Ok (c, if object_exists : bool then ty else None)
  end.

Lemma same_type (ty : option Z) : (if is_some ty then ty else None) = ty.
Proof. by destruct ty. Qed.

(** The same as for a file where no OBJECT gives the object another type. *)
Lemma image_content_same object_id ty records : forall c e,
  Forall (fun record => match kind record with Object o => obj_object o = object_id -> obj_type o = ty | _ => True end) records ->
  fold_res (image_content object_id) (c, if e : bool then Some ty else None) records =
    let! (c', e') := fold_res (content_record object_id) (c, e) records in Ok (c', if e' : bool then Some ty else None).
Proof.
  induction records as [|record records IH]; intros c e Hall; [done|]. apply Forall_cons in Hall as [Hty Hall]. cbn [fold_res].
  assert (image_content object_id (c, if e then Some ty else None) record =
    let! (c', e') := content_record object_id (c, e) record in Ok (c', if e' : bool then Some ty else None)) as ->.
  { unfold image_content. destruct (kind record) as [b|o|r|w|f| | |sp|w|r|] eqn:Hk.
    2: { unfold content_record. rewrite Hk. destruct (Z.eqb_spec (obj_object o) object_id) as [Ho|Ho]; [|done]. rewrite (Hty Ho).
         destruct e; [by rewrite bool_decide_true|by rewrite bool_decide_false]. }
    all: replace (is_some (if e then Some ty else None)) with e by (by destruct e).
    all: unfold content_record; rewrite Hk; repeat case_match; try done.
    all: repeat match goal with |- context [bind (decode_replay_write ?a ?b ?c) _] => destruct (decode_replay_write a b c); cbn [bind]
      | |- context [bind (decode_embedded_write ?a ?b ?c ?d ?e) _] => destruct (decode_embedded_write a b c d e); cbn [bind] end; try done.
    all: repeat case_match; done. }
  destruct (content_record object_id (c, e) record) as [[c1 e1]| | |]; cbn [bind]; [by apply IH|done..].
Qed.

(** The state of the build against the eager one, after fewer than [n] blocks. *)
Definition image_sim (file : list Z) (n : Z) (active : bool) (s : image_state) (t : content * option Z) : Prop :=
  is_active s = active /\ is_exists s = is_some t.2 /\ is_object_type s = t.2 /\ is_key s = None /\ is_keys s = [] /\
  map_shows (decodes file []) (is_map s) t.1 /\ blocks_ok (is_map s) (is_next_id s) /\ 1 <= is_next_id s <= n.

(** No chosen substream is raw. *)
Definition plain_for (selected : gset Z) (record : Record_) : Prop :=
  match kind record with
  | Begin header => opened selected header <> None -> has_bits (features header) FEATURE_RAW = false
  | _ => True
  end.

(** A record the build may be given. *)
Definition image_record_ok (file : list Z) (selected : gset Z) (record : Record_) : Prop :=
  stored file record /\ record_ok record /\ plain_for selected record.

Lemma image_sim_mono file n n' a s t : n <= n' -> image_sim file n a s t -> image_sim file n' a s t.
Proof. intros Hn (?&?&?&?&?&?&?&?). repeat (split; [done|]). lia. Qed.

Lemma image_sim_map file n a s c e c' m next :
  image_sim file n a s (c, e) -> map_shows (decodes file []) m c' -> blocks_ok m next -> is_next_id s <= next <= n ->
  image_sim file n a (set_map s m next) (c', e).
Proof. intros (?&?&?&?&?&?&?&?) Hm Hb Hn. repeat (split; [done|]). cbn. lia. Qed.

Lemma image_sim_clear file n a s c ty ty' (e' : bool) :
  image_sim file n a s (c, ty) -> e' = is_some ty' ->
  image_sim file n a (set_object s ty' e' ∅) (fun _ => 0, ty').
Proof.
  intros (?&?&?&?&?&?&?&?) ->. do 5 (split; [done|]). split; [by apply map_shows_empty|]. split; [apply blocks_ok_empty|done].
Qed.

Section build.
Context (file : list Z) (object_id : Z) (selected : gset Z).
Hypothesis file_len_ok : len file <= ISIZE_MAX.

Lemma wp_image_write n a s c e record write plain :
  image_sim file n a s (c, e) -> n < U64_MAX -> stored file record -> record_ok record -> kind record = Write write ->
  decode_replay_write (wr_compression_type write) (payload record) (wr_logical_size write) = Ok plain ->
  wp (image_write s write record) (fun s' => image_sim file (n + 1) a s' (over (wr_offset write) plain c, e)).
Proof.
  intros Hsim Hn Hst (Hk & Hp & Hsz) Hkind Hplain. rewrite Hkind in Hk, Hsz. cbn [kind_ok sizes_ok] in Hk, Hsz.
  pose proof (wp_value _ _ _ (wp_sized_replay_write _ _ _ Hp Hsz) Hplain) as [Hlen _].
  pose proof Hsim as (_ & _ & _ & Hkey & _ & Hm & Hb & Hid). unfold image_write. wp_step. rewrite Hkey. cbv zeta.
  apply wp_bind, (wp_describe file); [done..|]. apply wp_bind, wp_add; [lia|]. apply wp_bind.
  eapply wp_mono; [|apply (wp_insert_shows (decodes file []) _ _ _ _ plain c (is_next_id s)); [done|done|tauto|tauto| |done|done]].
  - intros m [Hm' Hb']. apply wp_Ok. apply (image_sim_map file (n + 1) a s c e); [|done|done|lia].
    by apply (image_sim_mono _ n); [lia|].
  - apply decode_stored; [done|done| |done]. destruct Hsz as [Hz|Hz]; [|lia]. rewrite Hz in Hplain. cbn [Z.eqb decode_replay_write] in Hplain.
    destruct (usize_try_from _); [|discriminate Hplain]. cbn [ok_or bind] in Hplain. destruct (negb _); [discriminate Hplain|].
    injection Hplain as <-. destruct Hst as [_ Hst]. apply get_range_Some in Hst as (? & ? & _). unfold RECORD_SIZE in *. lia.
Qed.

Lemma wp_image_write_embedded n a s c e record write plain :
  image_sim file n a s (c, e) -> n < U64_MAX -> stored file record -> record_ok record -> kind record = WriteEmbedded write ->
  decode_embedded_write (we_compression_type write) (we_embedded_type write) (payload record)
    (we_physical_size write) (we_logical_size write) = Ok plain -> len plain <= we_length write ->
  wp (image_write_embedded s write record) (fun s' =>
    image_sim file (n + 1) a s' (over (we_offset write) plain (zeroed (we_offset write) (we_length write) c), e)).
Proof.
  intros Hsim Hn Hst (Hk & Hp & _) Hkind Hplain Hfit. rewrite Hkind in Hk. cbn [kind_ok] in Hk.
  assert (is_u32 (we_logical_size write)) as Hu by tauto.
  assert (we_logical_size write <= ISIZE_MAX) as Hi by (unfold ISIZE_MAX; u64).
  pose proof (wp_value _ _ _ (wp_decode_embedded_write _ _ _ _ _ Hp Hi) Hplain) as [Hlen _].
  pose proof Hsim as (_ & _ & _ & Hkey & _ & Hm & Hb & Hid). unfold image_write_embedded. rewrite Hkey.
  apply wp_bind, (wp_describe file); [done..|]. apply wp_bind, wp_add; [lia|]. apply wp_bind.
  eapply wp_mono; [|apply wp_remove_shows; [exact Hm|exact Hb|tauto|tauto]]. intros m1 (Hm1 & Hb1 & _). apply wp_bind.
  rewrite Z.min_l by lia.
  eapply wp_mono; [|apply (wp_insert_shows (decodes file []) m1 _ _ _ plain
    (zeroed (we_offset write) (we_length write) c) (is_next_id s)); [exact Hm1|done|tauto|u64| |done|done]].
  - intros m [Hm' Hb']. apply wp_Ok. apply (image_sim_map file (n + 1) a s c e); [|done|done|lia].
    by apply (image_sim_mono _ n); [lia|].
  - apply decode_stored; [done|done|lia|]. rewrite (proj2 (Z.ltb_ge _ _)) by u64. exact Hplain.
Qed.

(** A record of a chosen snapshot does to the map what it means for the content. *)
Lemma wp_image_record n a s t t' record :
  image_sim file n a s t -> n < U64_MAX -> image_record_ok file selected record ->
  image_content object_id t record = Ok t' ->
  wp (image_record object_id s record) (fun s' => image_sim file (n + 1) a s' t').
Proof.
  destruct t as [c ty]. intros Hsim Hn (Hst & Hrec & _) Hc.
  assert (image_sim file (n + 1) a s (c, ty)) as Hsim1 by (apply (image_sim_mono _ n); [lia|done]).
  pose proof Hsim as (_ & He & Hot & Hkey & Hkeys & Hm & Hb & Hid). cbn [fst snd] in He, Hot, Hm.
  assert (t' = (c, ty) -> wp (E:=error) (Ok s) (fun s' => image_sim file (n + 1) a s' t')) as Hsame
    by (intros ->; by apply wp_Ok).
  pose proof Hrec as (Hk & Hp & Hsz).
  unfold image_record, image_content, content_record in *. destruct (kind record) as [b|o|r|w|f| | |sp|w|r|] eqn:Hkind;
    cbn [kind_ok sizes_ok] in Hk, Hsz; try discriminate Hc;
    try (cbn [bind] in Hc; rewrite same_type in Hc; injection Hc as <-; by apply Hsame).
  - destruct (Z.eqb_spec (obj_object o) object_id) as [Ho|Ho]; [|injection Hc as <-; by apply Hsame].
    injection Hc as <-. apply wp_Ok. rewrite Hot. case_bool_decide as Hsty.
    + subst ty. destruct Hsim1 as (? & _ & _ & ? & ? & ? & ? & ?). by repeat (split; [done|]).
    + by apply (image_sim_clear _ _ _ _ c ty).
  - cbv zeta in Hc. cbv zeta. destruct (_ && _); cbn [bind] in Hc; [|rewrite same_type in Hc; injection Hc as <-; by apply Hsame].
    injection Hc as <-. apply wp_Ok. by apply (image_sim_clear _ _ _ _ c ty).
  - destruct (_ =? object_id); [|cbn [bind] in Hc; rewrite same_type in Hc; injection Hc as <-; by apply Hsame].
    rewrite bind_assoc in Hc. apply bind_Ok in Hc as (plain & Hplain & Hc). cbn [bind] in Hc. rewrite same_type in Hc. injection Hc as <-.
    by apply (wp_image_write n a s c ty record w plain).
  - destruct (_ =? object_id); cbn [bind] in Hc; rewrite same_type in Hc; injection Hc as <-; [|by apply Hsame]. apply wp_bind.
    eapply wp_mono; [|apply wp_remove_shows; [exact Hm|exact Hb|tauto|tauto]]. intros m (Hm' & Hb' & _). apply wp_Ok.
    apply (image_sim_map file (n + 1) a s c ty); [done|done|done|lia].
  - destruct (_ =? object_id); [|cbn [bind] in Hc; rewrite same_type in Hc; injection Hc as <-; by apply Hsame].
    rewrite bind_assoc in Hc. apply bind_Ok in Hc as (plain & Hplain & Hc).
    destruct (_ <? _); [discriminate Hc|]. destruct (Z.ltb_spec (we_length w) (len plain)); [discriminate Hc|].
    cbn [bind] in Hc. rewrite same_type in Hc. injection Hc as <-. by apply (wp_image_write_embedded n a s c ty record w plain).
Qed.

Lemma wp_image_begin material n a s t record header :
  image_sim file n a s t -> kind record = Begin header -> image_record_ok file selected record ->
  wp (image_begin selected material s header (payload record))
    (fun s' => image_sim file n (bool_decide (is_Some (opened selected header))) s' t).
Proof.
  intros (_ & He & Hot & Hkey & Hkeys & Hm) Hkind (_ & _ & Hraw). unfold plain_for in Hraw. rewrite Hkind in Hraw. unfold image_begin, opened in *. cbv zeta.
  destruct ((header_type header =? DMU_SUBSTREAM) && bool_decide (to_guid header ∈ selected)); cbn [andb].
  - rewrite Hraw by done. cbn [bind]. apply wp_Ok. by repeat (split; [done|]).
  - cbn [bind]. apply wp_Ok. by repeat (split; [done|]).
Qed.

(** ... and all the records to the map what extraction does to the file. *)
Lemma wp_image_loop material records : forall n a s t t',
  image_sim file n a s t -> n + len records <= U64_MAX ->
  Forall (image_record_ok file selected) records ->
  fold_res (image_content object_id) t (chosen selected a records) = Ok t' ->
  wp (fold_res (image_step object_id selected material) s records) (fun s' => exists n' a', image_sim file n' a' s' t').
Proof.
  induction records as [|record records IH]; intros n a s t t' Hsim Hn Hall Hc; cbn [fold_res chosen] in *.
  { injection Hc as <-. apply wp_Ok. by exists n, a. }
  rewrite len_cons in Hn. pose proof (len_nonneg records). apply Forall_cons in Hall as [Hrec Hall]. apply wp_bind.
  assert (is_active s = a) as Ha by apply Hsim.
  assert (forall s1 a1, image_sim file n a1 s1 t -> fold_res (image_content object_id) t (chosen selected a1 records) = Ok t' ->
    wp (fold_res (image_step object_id selected material) s1 records) (fun s' => exists n' a', image_sim file n' a' s' t')) as Hskip
    by (intros s1 a1 Hs1; apply (IH n); [done|lia|done]).
  assert ((forall h, kind record <> Begin h) -> kind record <> End_ ->
    fold_res (image_content object_id) t (if a then record :: chosen selected a records else chosen selected a records) = Ok t' ->
    wp (if negb (is_active s) then Ok s else image_record object_id s record)
      (fun s1 => wp (fold_res (image_step object_id selected material) s1 records) (fun s' => exists n' a', image_sim file n' a' s' t'))) as Hdata.
  { intros Hb He Hf. rewrite Ha. destruct a; cbn [negb]; [|apply wp_Ok; by apply (Hskip s false)].
    cbn [fold_res] in Hf. apply bind_Ok in Hf as (t1 & Ht1 & Hf).
    eapply wp_mono; [|apply (wp_image_record n true s t t1); [done|lia|done|done]]. intros s1 Hs1.
    apply (IH (n + 1) true s1 t1); [done|lia|done|done]. }
  unfold image_step at 1. destruct (kind record) as [header| | | | | | | | | |] eqn:Hkind; try (by apply Hdata).
  - eapply wp_mono; [|by eapply wp_image_begin]. intros s1 Hs1. by apply (Hskip s1 _ Hs1).
  - apply wp_Ok. apply (Hskip _ false); [|done]. destruct Hsim as (_ & ? & ? & _ & ?). by repeat (split; [done|]).
Qed.
End build.

(** ** Reading *)

(** The image shows the content [c]. *)
Definition image_shows (self : StreamImage) (c : content) : Prop :=
  map_shows (decodes (im_file self) (im_keys self)) (im_segments self) c /\
  (exists next, blocks_ok (im_segments self) next) /\ im_len self <= ISIZE_MAX.

(** The cached bytes are those of their block. *)
Definition cache_ok (self : StreamImage) (cache : option (Z * list Z)) : Prop :=
  match cache with
  | None => True
  | Some (id, bytes) => forall k s, im_segments self !! k = Some s -> bd_id (sg_block s) = id ->
      decodes (im_file self) (im_keys self) (sg_block s) bytes
  end.

Lemma decode_cached self cache k s bytes next :
  blocks_ok (im_segments self) next -> cache_ok self cache -> im_segments self !! k = Some s ->
  decodes (im_file self) (im_keys self) (sg_block s) bytes ->
  exists cache', decode self cache (sg_block s) = Ok (bytes, cache') /\ cache_ok self cache'.
Proof.
  intros Hb Hc Hk Hd. assert (cache_ok self (Some (bd_id (sg_block s), bytes))) as Hnew.
  { intros k2 s2 Hk2 Hid. destruct (Hb _ _ Hk2) as [_ Heq]. by rewrite (Heq k s Hk Hid). }
  assert (exists cache', (let! decoded := decode_block (im_file self) (im_keys self) (sg_block s) in
    Ok (decoded, Some (bd_id (sg_block s), decoded))) = Ok (bytes, cache') /\ cache_ok self cache') as Hmiss.
  { exists (Some (bd_id (sg_block s), bytes)). split; [|done]. by destruct Hd as [-> _]. }
  unfold decode. cbv zeta. destruct cache as [[id cached]|]; [destruct (Z.eqb_spec id (bd_id (sg_block s))) as [->|]|].
  - exists (Some (bd_id (sg_block s), cached)). split; [|done]. destruct (Hc k s Hk eq_refl) as [Hcd _]. destruct Hd as [Hd _].
    by replace bytes with cached by congruence.
  - exact Hmiss.
  - exact Hmiss.
Qed.

Lemma read_segment_Ok self c offset end_ buffer cache k s :
  image_shows self c -> cache_ok self cache -> im_segments self !! k = Some s ->
  0 <= offset < end_ -> end_ <= im_len self -> k < end_ -> len buffer = end_ - offset ->
  exists buffer' cache', read_segment self offset end_ (buffer, cache) (k, s) = Ok (buffer', cache') /\
    cache_ok self cache' /\ len buffer' = end_ - offset /\
    forall i, 0 <= i < end_ - offset ->
      byte_at buffer' i = if (k <=? offset + i) && (offset + i <? sg_end s) then c (offset + i) else byte_at buffer i.
Proof.
  intros ((Hok & Hsh & _) & [next Hb] & Hlen) Hc Hk Hoff Hend Hke Hl.
  destruct (proj1 Hok _ _ Hk) as [Hbo Hse]. destruct (Hsh _ _ Hk) as (bytes & Hd & Hfit & Hbytes).
  unfold read_segment. destruct (Z.leb_spec (sg_end s) offset) as [Hout|Hin].
  { exists buffer, cache. split; [done|]. split; [done|]. split; [done|]. intros i Hi.
    by rewrite (proj2 (Z.ltb_ge _ _)), andb_false_r by lia. }
  cbv zeta. assert (len bytes <= ISIZE_MAX) as Hbl by apply Hd. unfold ISIZE_MAX in *.
  destruct (decode_cached self cache k s bytes next Hb Hc Hk Hd) as (cache' & Hdec & Hc').
  set (a := Z.max k offset). set (b := Z.min (sg_end s) end_).
  assert (offset <= a < b /\ k <= a /\ b <= sg_end s /\ b <= end_) as Hab by lia.
  assert (forall x, (k <=? x) && (x <? sg_end s) = true -> offset <= x < end_ -> a <= x < b) as Hin_ab
    by (intros x Hx Hx2; b2p; lia).
  assert (forall x, a <= x < b -> (k <=? x) && (x <? sg_end s) = true) as Hab_in
    by (intros x Hx; apply andb_true_iff; split; [apply Z.leb_le|apply Z.ltb_lt]; lia).
  clearbody a b.
  unfold sub, add. rewrite (proj2 (Z.leb_le offset a)), (proj2 (Z.leb_le offset b)) by lia. cbn [bind].
  rewrite (proj2 (Z.leb_le _ U64_MAX)) by lia. cbn [bind].
  rewrite (proj2 (Z.leb_le k _)) by lia. cbn [bind]. rewrite (proj2 (Z.leb_le (a - offset) _)) by lia. cbn [bind].
  rewrite (proj2 (Z.leb_le _ U64_MAX)) by lia. cbn [bind]. rewrite Hdec. cbn [bind].
  set (source := sg_block_offset s + a - k). set (count := b - offset - (a - offset)).
  assert (get_range bytes source (source + count) = Some (ztake count (zdrop source bytes))) as ->.
  { apply get_range_Some. split; [lia|]. split; [lia|]. f_equal. lia. }
  cbn [ok_or bind]. assert (len (ztake count (zdrop source bytes)) = count) as Hpl by (rewrite len_ztake, len_zdrop; lia).
  unfold copy_into. rewrite (proj2 (Z.leb_le 0 _)), Hpl, (proj2 (Z.leb_le _ (len buffer))) by lia. cbn [andb bind].
  eexists _, cache'. split; [reflexivity|]. split; [done|]. split; [rewrite !len_app, len_ztake, len_zdrop; lia|].
  intros i Hi. rewrite <- Hpl at 2. rewrite byte_at_splice by lia. rewrite Hpl.
  destruct (Z.leb_spec (a - offset) i), (Z.ltb_spec i (a - offset + count)); cbn [andb].
  - rewrite Hab_in by lia. rewrite Hbytes by lia. rewrite byte_at_ztake, byte_at_zdrop by lia. f_equal. lia.
  - destruct ((k <=? offset + i) && _) eqn:Hx; [|done]. specialize (Hin_ab _ Hx). lia.
  - destruct ((k <=? offset + i) && _) eqn:Hx; [|done]. specialize (Hin_ab _ Hx). lia.
  - lia.
Qed.

(** Reading the segments of a list fills in what they cover. *)
Lemma read_segments_Ok self c offset end_ l : forall buffer cache,
  image_shows self c -> 0 <= offset < end_ -> end_ <= im_len self ->
  (forall kv, kv ∈ l -> im_segments self !! kv.1 = Some kv.2 /\ kv.1 < end_) ->
  cache_ok self cache -> len buffer = end_ - offset ->
  exists buffer' cache', fold_res (read_segment self offset end_) (buffer, cache) l = Ok (buffer', cache') /\
    cache_ok self cache' /\ len buffer' = end_ - offset /\
    forall i, 0 <= i < end_ - offset ->
      byte_at buffer' i = c (offset + i) \/
      (byte_at buffer' i = byte_at buffer i /\ forall kv, kv ∈ l -> ~ kv.1 <= offset + i < sg_end kv.2).
Proof.
  induction l as [|[k s] l IH]; intros buffer cache Hsh Hoff Hend Hl Hc Hb; cbn [fold_res].
  { exists buffer, cache. split; [done|]. split; [done|]. split; [done|]. intros i _. right. split; [done|]. intros kv Hkv.
    by apply not_elem_of_nil in Hkv. }
  destruct (Hl (k, s) ltac:(by left)) as [Hk Hke]. cbn [fst snd] in Hk, Hke.
  destruct (read_segment_Ok self c offset end_ buffer cache k s Hsh Hc Hk Hoff Hend Hke Hb) as (b1 & c1 & -> & Hc1 & Hb1 & Hi1).
  cbn [bind]. destruct (IH b1 c1 Hsh Hoff Hend) as (b2 & c2 & Hf & Hc2 & Hb2 & Hi2); [intros; apply Hl; by right|done|done|].
  exists b2, c2. split; [done|]. split; [done|]. split; [done|]. intros i Hi. destruct (Hi2 i Hi) as [->|[-> Hn]]; [by left|].
  rewrite Hi1 by done. destruct (Z.leb_spec k (offset + i)), (Z.ltb_spec (offset + i) (sg_end s)); cbn [andb]; [by left|right..].
  all: split; [done|]; intros kv [->|Hkv]%elem_of_cons; [cbn; lia|by apply Hn].
Qed.
End image_facts.

(** C13: the segment map is a refinement of the records' meaning. For snapshots that
    are not raw, with records whose decompressed sizes fit an allocation: where the
    records of the chosen snapshots can be replayed, the build returns, and an image
    that it gives shows the content that replaying them gives. Whatever WRITE, FREE,
    embedded WRITE, OBJECT and FREEOBJECTS records overlap, cut, cover or delete each
    other, the blocks the map points to decode to the bytes that [image_content] has
    there, and what no segment covers is zero. [image_content] is the meaning that
    extraction has ([content_record]) but for an OBJECT record that gives the object
    another type, which empties the image and not the extracted file: where no record
    does that, the image shows what extraction writes. *)
Theorem image_is_replay `{CodecLaws} `{Crypto} `{Crc32} fuel (file : list Z) plan object_id logical_size key records r c ty :
  reader_wf (StreamReader_new file) -> len file < RECORD_SIZE * Z.of_nat fuel ->
  read_all fuel (StreamReader_new file) = Ok (records, r) ->
  Forall (fun record => sizes_ok (kind record)) records ->
  Forall (plain_for (list_to_set (chain plan))) records ->
  logical_size <= ISIZE_MAX ->
  let replayed := chosen (list_to_set (chain plan)) false records in
  fold_res (image_content object_id) (fun _ => 0, None) replayed = Ok (c, ty) ->
  wp (StreamImage_build fuel file file plan object_id logical_size key) (fun image =>
    is_some ty = true /\ image_shows image c /\ cache_ok image (im_cache image) /\ im_len image = logical_size) /\
  forall ty', Forall (fun record => match kind record with Object o => obj_object o = object_id -> obj_type o = ty' | _ => True end) replayed ->
    fold_res (content_record object_id) (fun _ => 0, false) replayed = Ok (c, is_some ty).
Proof.
  intros Hwf Hfuel Hread Hsizes Hplain Hlen replayed Hc. split.
  2: { intros ty' Hty. rewrite (image_content_same object_id ty' replayed (fun _ => 0) false Hty) in Hc.
       apply bind_Ok in Hc as ([c' e'] & -> & [= -> <-]). do 2 f_equal. by destruct e'. }
  pose proof (read_all_in_range _ _ _ _ Hwf Hfuel Hread) as Hrange.
  pose proof (read_all_stored file fuel _ _ _ [] Hwf eq_refl eq_refl Hread) as Hstored.
  assert (Forall (image_record_ok file (list_to_set (chain plan))) records) as Hrecs.
  { rewrite Forall_forall in *. intros record Hin. split; [by apply Hstored|]. split; [|by apply Hplain].
    destruct (Hrange _ Hin). split; [done|]. split; [done|]. by apply Hsizes. }
  pose proof Hwf as (_ & _ & Hmax & _). cbn in Hmax. unfold MAX_OFFSET in Hmax. fold (len file) in Hmax.
  unfold StreamImage_build. rewrite (each_record_read_all _ _ _ _ _ _ Hread), bind_assoc. apply wp_bind.
  pose proof (read_all_count _ _ _ _ Hwf Hread) as Hcount. cbn [remaining ReadLaws_list inner StreamReader_new] in Hcount.
  assert (len file <= ISIZE_MAX) as Hfile by (unfold ISIZE_MAX; lia). unfold RECORD_SIZE in Hcount.
  eapply wp_mono; [|apply (wp_image_loop file object_id _ Hfile key records 1 false _ (fun _ => 0, None) (c, ty));
    [|lia|exact Hrecs|exact Hc]].
  - intros s (n & a & _ & He & _ & _ & Hkeys & Hm & Hb & _). cbn [fst snd bind] in *. do 3 wp_step. apply wp_Ok.
    b2p. split; [congruence|]. split; [|by split]. split; [|split; [by eexists|done]]. cbn. by rewrite Hkeys.
  - do 5 (split; [done|]). split; [by apply map_shows_empty|]. split; [apply blocks_ok_empty|]. cbn. lia.
Qed.

(** A snapshot with an object whose extents overlap: eight bytes, two of
    them freed, and four that a second WRITE puts over the last two. *)
#[export] Instance toy_crc32 : Crc32 := fun l => le_val l mod 4294967296.

Definition image_write_record : WriteRecord := {|
  wr_object := 9; wr_object_type := 19; wr_offset := 0; wr_logical_size := 8;
  wr_checksum_type := 7; wr_flags := 0; wr_compressed_size := 0; wr_compression_type := 0;
  wr_salt := zrepeat 8 0; wr_iv := zrepeat 12 0; wr_mac := zrepeat 16 0 |}.
Definition image_free_record : FreeRecord := {| fr_object := 9; fr_offset := 2; fr_length := 2 |}.
Definition image_overwrite_record : WriteRecord := {|
  wr_object := 9; wr_object_type := 19; wr_offset := 6; wr_logical_size := 4;
  wr_checksum_type := 7; wr_flags := 0; wr_compressed_size := 0; wr_compression_type := 0;
  wr_salt := zrepeat 8 0; wr_iv := zrepeat 12 0; wr_mac := zrepeat 16 0 |}.
Definition image_bytes : list Z := write_stream initial_control Fletcher4_default
  [(Begin sample_begin, []); (Object sample_object, [1; 2; 3; 4; 5; 6; 7; 8]);
   (Write image_write_record, [11; 12; 13; 14; 15; 16; 17; 18]); (Free image_free_record, []);
   (Write image_overwrite_record, [21; 22; 23; 24]); (End_, [])].

Definition plain_forb (record : Record_) : bool :=
  match kind record with Begin header => negb (has_bits (features header) FEATURE_RAW) | _ => true end.

Lemma plain_for_all selected records : forallb plain_forb records = true -> Forall (plain_for selected) records.
Proof.
  rewrite forallb_forall, Forall_forall. intros Hall record Hin%list_elem_of_In. specialize (Hall _ Hin).
  unfold plain_forb, plain_for in *. destruct (kind record); [b2p; intros; done|done..].
Qed.

Lemma one_type_all ty records :
  forallb (fun record => match kind record with Object o => obj_type o =? ty | _ => true end) records = true ->
  Forall (fun record => match kind record with Object o => obj_object o = 9 -> obj_type o = ty | _ => True end) records.
Proof.
  rewrite forallb_forall, Forall_forall. intros Hall record Hin%list_elem_of_In. specialize (Hall _ Hin).
  destruct (kind record); try done. by b2p.
Qed.

Lemma image_is_replay_witness :
  exists records r c, read_all 7 (StreamReader_new image_bytes) = Ok (records, r) /\
  fold_res (content_record 9) (fun _ => 0, false) (chosen (list_to_set [77]) false records) = Ok (c, true) /\
  materialize 10 c = [11; 12; 0; 0; 15; 16; 21; 22; 23; 24] /\
  wp (StreamImage_build 7 image_bytes image_bytes sample_plan 9 10 None) (fun image =>
    image_shows image c /\ cache_ok image (im_cache image)).
Proof.
  destruct (read_all 7 (StreamReader_new image_bytes)) as [[records r]| | |] eqn:E;
    [|exfalso; revert E; vm_compute; congruence..].
  pose (m := match read_all 7 (StreamReader_new image_bytes) with Ok (records, _) => records | _ => [] end).
  assert (records = m) as Hm by (unfold m; rewrite E; reflexivity).
  destruct (fold_res (image_content 9) (fun _ => 0, None) (chosen (list_to_set [77]) false records)) as [[c e]| | |] eqn:F;
    [|exfalso; revert F; rewrite Hm; vm_compute; congruence..].
  assert (e = Some 20) as ->.
  { assert (match fold_res (image_content 9) (fun _ => 0, None) (chosen (list_to_set [77]) false m) with Ok (_, e) => e | _ => None end = Some 20)
      as He by (vm_compute; reflexivity). rewrite <- Hm, F in He. exact He. }
  destruct (image_is_replay 7 image_bytes sample_plan 9 10 None records r c (Some 20)) as [Hbuild Hsame].
  - apply reader_wf_new; [apply bytes_ok_dec; vm_compute; reflexivity|vm_compute; discriminate].
  - vm_compute. reflexivity.
  - exact E.
  - apply (read_all_sizes 7 image_bytes records r E). vm_compute. reflexivity.
  - apply plain_for_all. rewrite Hm. vm_compute. reflexivity.
  - vm_compute. discriminate.
  - exact F.
  - exists records, r, c. split; [reflexivity|]. split; [|split].
    + apply (Hsame 20). apply one_type_all. rewrite Hm. vm_compute. reflexivity.
    + assert (match fold_res (image_content 9) (fun _ => 0, None) (chosen (list_to_set [77]) false m) with
        Ok (c, _) => materialize 10 c | _ => [] end = [11; 12; 0; 0; 15; 16; 21; 22; 23; 24]) as Hc by (vm_compute; reflexivity).
      rewrite <- Hm, F in Hc. exact Hc.
    + eapply wp_mono; [|exact Hbuild]. intros image (_ & H1 & H2 & _). split; [exact H1|exact H2].
Defined.

(** The finding: an OBJECT that changes the object's type empties the image, and
    extraction keeps the bytes. *)
Definition retyped_object : ObjectRecord := {|
  obj_object := 9; obj_type := 19; obj_bonus_type := 44; obj_block_size := 512; obj_bonus_length := 8;
  obj_checksum_type := 7; obj_compression := 2; obj_dnode_slots := 1; obj_flags := 0; obj_raw_bonus_length := 0;
  obj_indirect_block_shift := 17; obj_levels := 1; obj_block_pointers := 1; obj_max_block_id := 0 |}.
Definition retyped_bytes : list Z := write_stream initial_control Fletcher4_default
  [(Begin sample_begin, []); (Object sample_object, [1; 2; 3; 4; 5; 6; 7; 8]);
   (Write image_write_record, [11; 12; 13; 14; 15; 16; 17; 18]); (Object retyped_object, [1; 2; 3; 4; 5; 6; 7; 8]); (End_, [])].

Example retyped_object_differs :
  match StreamImage_build 6 retyped_bytes retyped_bytes sample_plan 9 8 None with
  | Ok image => match image_read_exact_at image 0 8 with Ok (bytes, _) => bytes | _ => [] end | _ => [] end = zrepeat 8 0 /\
  match extract_resolved_snapshot 6 retyped_bytes sample_plan toy_index sample_resolved false false None false with
  | Ok (file, _) => contents file | _ => [] end = [11; 12; 13; 14; 15; 16; 17; 18].
Proof. split; vm_compute; reflexivity. Qed.

Lemma image_read_shows `{CodecLaws} `{Crypto} `{Crc32} image c offset n :
  image_shows image c -> cache_ok image (im_cache image) -> 0 <= offset -> 0 <= n ->
  if offset + n <=? im_len image then
    exists image', image_read_exact_at image offset n = Ok (materialize n (fun i => c (offset + i)), image') /\
      image_shows image' c /\ cache_ok image' (im_cache image') /\ im_len image' = im_len image
  else exists e, image_read_exact_at image offset n = Err e.
Proof.
  intros Hshow Hcache Ho Hn. pose proof Hshow as ((Hok & Hsh & Hz) & [next Hb] & Hlen). unfold ISIZE_MAX in Hlen.
  unfold image_read_exact_at, checked_add. destruct (Z.leb_spec (offset + n) (im_len image)) as [Hin|Hout].
  2: { destruct (_ <=? U64_MAX); cbn [ok_or bind]; [|by eexists]. rewrite (proj2 (Z.ltb_lt _ _)) by lia. by eexists. }
  rewrite (proj2 (Z.leb_le _ U64_MAX)) by lia. cbn [ok_or bind]. rewrite (proj2 (Z.ltb_ge _ _)) by lia. cbv zeta.
  destruct (Z.eqb_spec n 0) as [->|Hn0]; [exists image; by split|].
  destruct (map_range_spec 0 (offset + n) (im_segments image) ltac:(lia)) as (l & -> & Hl & _ & _). cbn [bind].
  destruct (read_segments_Ok image c offset (offset + n) l (zrepeat n 0) (im_cache image)) as (b & cache & -> & Hc & Hbl & Hbytes);
    [done|lia|lia|by intros kv (? & ? & ?)%Hl|done|rewrite len_zrepeat; lia|].
  cbn [bind]. exists (set_image_cache image cache). split; [|split; [exact Hshow|split; [exact Hc|done]]].
  f_equal. f_equal. apply contents_ext; [rewrite len_materialize; lia|]. intros i Hi. rewrite byte_at_materialize by done.
  destruct (Z.ltb_spec i n); [|rewrite byte_at_out; [done|lia]]. destruct (Hbytes i ltac:(lia)) as [->|[-> Hno]]; [done|].
  rewrite byte_at_zeros. symmetry. apply Hz; [lia|]. intros k s Hk Hks. apply (Hno (k, s)); [|done]. apply Hl.
  pose proof (proj1 Hok _ _ Hk) as [Hs1 Hs2]. cbn. split; [done|lia].
Qed.

(** C14: positioned reads of an image are exact: for every range inside the image
    [read_exact_at] succeeds and returns exactly the content's bytes there,
    whatever segments the range cuts and whether or not a block is cached; the
    image it leaves shows the same content with a cache that is still right. A
    range that ends behind the image is refused. *)
Theorem image_reads_exact `{CodecLaws} `{Crypto} `{Crc32} image c offset n :
  image_shows image c -> cache_ok image (im_cache image) -> 0 <= offset -> 0 <= n ->
  if offset + n <=? im_len image then
    exists image', image_read_exact_at image offset n = Ok (materialize n (fun i => c (offset + i)), image') /\
      image_shows image' c /\ cache_ok image' (im_cache image') /\ im_len image' = im_len image
  else exists e, image_read_exact_at image offset n = Err e.
Proof. apply image_read_shows. Qed.

(** An image of one block that lies at offset 2. *)
Definition sample_block_descriptor : BlockDescriptor := {|
  bd_id := 1; bd_payload_offset := 3; bd_payload_len := 4; bd_payload_crc32 := crc32_hash [5; 6; 7; 8];
  bd_logical_len := 4; bd_encoding := ReplayBlock 0 |}.
Definition sample_image : StreamImage := {|
  im_file := [0; 0; 0; 5; 6; 7; 8]; im_len := 9;
  im_segments := <[2 := {| sg_end := 6; sg_block := sample_block_descriptor; sg_block_offset := 0 |}]> ∅;
  im_keys := []; im_cache := None |}.

Lemma sample_image_shows : image_shows sample_image (over 2 [5; 6; 7; 8] (fun _ => 0)).
Proof.
  assert (map_shows (decodes (im_file sample_image) []) ∅ (fun _ => 0)) as Hempty by (by apply map_shows_empty).
  assert (wp (insert_range ∅ 2 4 sample_block_descriptor) (fun m =>
    map_shows (decodes (im_file sample_image) []) m (over 2 [5; 6; 7; 8] (fun _ => 0)) /\ blocks_ok m 2)) as Hins.
  { apply (wp_insert_shows _ _ _ _ _ _ _ 1 Hempty (blocks_ok_empty 1)); [unfold is_u64; lia|unfold is_u64; lia| |reflexivity|reflexivity].
    split; [vm_compute; reflexivity|vm_compute; discriminate]. }
  assert (insert_range ∅ 2 4 sample_block_descriptor = Ok (im_segments sample_image)) as Hrun by (vm_compute; reflexivity).
  rewrite Hrun in Hins. destruct Hins as [Hm Hb]. split; [exact Hm|]. split; [exists 2; exact Hb|vm_compute; discriminate].
Qed.

Lemma image_reads_exact_witness :
  (exists image, image_read_exact_at sample_image 1 4 = Ok ([0; 5; 6; 7], image)) /\
  exists e, image_read_exact_at sample_image 7 4 = Err e.
Proof.
  split.
  - destruct (image_reads_exact sample_image (over 2 [5; 6; 7; 8] (fun _ => 0)) 1 4) as (image & Hr & _);
      [exact sample_image_shows|exact I|lia|lia|]. exists image. rewrite Hr. vm_compute. reflexivity.
  - exact (image_reads_exact sample_image (over 2 [5; 6; 7; 8] (fun _ => 0)) 7 4 sample_image_shows I ltac:(lia) ltac:(lia)).
Defined.
