(* ===== verification/PartitionProps.v ===== *)
(** The properties of partition tables and volumes (src/src/inception.rs, lines
    133-141, 286-340, 488-534, 796-835, 1321-1738). *)

From S2P Require Import Prelude Bytes Utf8 Stream StreamFacts Compression CompressionProps NvList.
From S2P Require Import Encrypted EncryptedDnode EncryptedFacts.
From S2P Require Import EncryptedProps Paths Snapshots Operations Image ImageProps DiskImage.
From S2P Require Import Partitions Volumes PartitionFacts.

(** ** Lemmas *)

Lemma raw_layout_inside source : 0 < image_len source -> layout_inside source (raw_layout (image_len source)).
Proof. intros Hl. unfold layout_inside. cbn. lia. Qed.

Lemma find_selector (volumes : list VolumeInfo) v :
  NoDup (map vi_selector volumes) -> Forall (fun v => lowercase (vi_selector v)) volumes -> v ∈ volumes ->
  List.find (fun volume => eq_ignore_ascii_case (vi_selector volume) (vi_selector v)) volumes = Some v.
Proof.
  intros Hd Hlow Hin. assert (lowercase (vi_selector v)) as Hv by (rewrite Forall_forall in Hlow; by apply Hlow).
  induction volumes as [|u volumes IH]; [by apply not_elem_of_nil in Hin|]. apply NoDup_cons in Hd as [Hu Hd].
  apply Forall_cons in Hlow as [Hul Hlow]. cbn [List.find]. unfold eq_ignore_ascii_case at 1. rewrite Hul, Hv.
  destruct (bytes_eqb (vi_selector u) (vi_selector v)) eqn:He.
  - apply bytes_eqb_eq in He. apply elem_of_cons in Hin as [->|Hin]; [done|]. destruct Hu. rewrite He.
    change (map vi_selector volumes) with (vi_selector <$> volumes). apply list_elem_of_fmap. by exists v.
  - apply elem_of_cons in Hin as [->|Hin]; [|by apply IH]. assert (bytes_eqb (vi_selector u) (vi_selector u) = true) as Hr
      by (by apply bytes_eqb_eq). congruence.
Qed.

Section inspect.
Context `{DiskCratesLaws} `{Crc32}.

Definition probed (source : ImageRead) (layouts : list PartitionLayout) (volumes : list VolumeInfo) : Prop :=
  Forall2 volume_of layouts volumes.

Lemma wp_probe_all source layouts :
  image_ok source -> Forall (layout_inside source) layouts ->
  wp (map_res (probe_volume source) layouts) (probed source layouts).
Proof.
  intros Hi. induction layouts as [|l layouts IH]; intros Hl; cbn [map_res]; [apply wp_Ok; constructor|].
  apply Forall_cons in Hl as [(? & ? & _) Hl]. apply wp_bind. eapply wp_mono; [|apply wp_probe_volume; [done|lia|lia]]. intros v Hv.
  apply wp_bind. eapply wp_mono; [|by apply IH]. intros vs Hvs. apply wp_Ok. by constructor.
Qed.

Lemma probed_selectors source layouts volumes : probed source layouts volumes -> map vi_selector volumes = map pl_selector layouts.
Proof. induction 1 as [|l v layouts volumes (fs & d & ->) _ IH]; [done|]. cbn [map]. by rewrite IH. Qed.
End inspect.

(** What a volume of a session is good for. *)
Definition volume_ok (s : InceptionSession) (v : VolumeInfo) : Prop :=
  0 <= vi_offset v /\ 0 < vi_length v /\ vi_offset v + vi_length v <= se_disk_size s /\
  select_volume s (Some (vi_selector v)) = Ok v /\
  exists sliced, volume_source s v = Ok sliced /\ forall offset n, 0 <= offset -> 0 <= n ->
    if offset + n <=? vi_length v
    then SlicedImage_read_exact_at sliced offset n = image_read (se_source s) (vi_offset v + offset) n
    else exists e, SlicedImage_read_exact_at sliced offset n = Err e.

Lemma open_container_raw `{DiskCrates} source disk : open_disk_container source = Ok (ContainerRaw, disk) -> disk = source.
Proof.
  unfold open_disk_container. intros Ho. apply bind_Ok in Ho as (header & _ & Ho). apply bind_Ok in Ho as (magic & _ & Ho). case_match.
  - apply bind_Ok in Ho as (v & _ & Ho). cbv zeta in Ho. case_match; [done|]. by apply bind_Ok in Ho as (r & _ & Ho).
  - case_match; [by apply bind_Ok in Ho as (r & _ & Ho)|]. case_match; [done|]. by injection Ho as <-.
Qed.

(** What an inspected session is. *)
Record inspected (source : ImageRead) (offset : Z) (s : InceptionSession) : Prop := {
  in_size : 512 <= se_disk_size s;
  in_disk : se_disk_size s = image_len (se_source s);
  in_volumes : se_volumes s <> [];
  in_inside : Forall (volume_ok s) (se_volumes s);
  in_source : image_ok (se_source s);
  in_window : 0 <= se_stored_size s /\ offset + se_stored_size s <= image_len source;
  in_raw : se_container s = ContainerRaw ->
    se_source s = SlicedImage_image {| sl_source := source; sl_base := offset; sl_len := se_stored_size s |};
}.

Lemma wp_inspect_source_at `{DiskCratesLaws} `{Crc32} source path offset length :
  image_ok source -> is_u64 offset -> match length with Some n => is_u64 n | None => True end ->
  wp (inspect_source_at source path offset length) (inspected source offset).
Proof.
  intros Hi Ho Hn. pose proof Hi as [Hlen _]. unfold inspect_source_at. wp_step. b2p. apply wp_bind, wp_sub; [lia|]. cbv zeta.
  apply wp_bind. eapply wp_mono; [|apply wp_SlicedImage_new; [done|u64|destruct length; cbn; u64]]. intros window [Hw ->]. pose proof Hw as (_ & _ & Hwl & Hwin). cbn [sl_len sl_base sl_source] in Hwl, Hwin.
  wp_step. b2p. apply wp_bind. eapply wp_mono; [|apply wp_conj; [apply wp_open_disk_container; [by apply slice_image_ok|cbn; lia]|intros a Ha; exact Ha]].
  intros [container disk] [Hd Hopen]. wp_step. b2p. apply wp_bind. eapply wp_mono; [|by apply wp_discover_partitions]. intros layouts [Hin Hnd].
  set (all := match layouts with [] => _ | _ => _ end).
  assert (all <> [] /\ Forall (fun p => layout_inside disk p /\ lowercase (pl_selector p)) all /\ NoDup (map pl_selector all)) as (Hne & Hall & Hand).
  { unfold all. destruct layouts as [|l layouts]; [|done]. split; [done|]. split; [|apply NoDup_singleton].
    apply Forall_singleton. split; [apply raw_layout_inside; lia|reflexivity]. }
  clearbody all. apply wp_bind. eapply wp_mono; [|apply wp_probe_all; [done|eapply Forall_impl; [exact Hall|by intros p [? _]]]].
  intros volumes Hv. apply wp_Ok. cbn [se_disk_size se_source se_volumes]. split; cbn [se_disk_size se_source se_volumes se_stored_size se_container]; [done|done|by intros ->; inversion Hv; subst| |done|lia|by intros ->; apply open_container_raw in Hopen].
  pose proof (probed_selectors _ _ _ Hv) as Hsel. rewrite <- Hsel in Hand.
  assert (Forall (fun v => exists p, volume_of p v /\ layout_inside disk p /\ lowercase (pl_selector p)) volumes) as Hvs.
  { clear -Hv Hall. induction Hv as [|p v all volumes Hpv _ IH]; [constructor|]. apply Forall_cons in Hall as [? Hall]. constructor; [by exists p|by apply IH]. }
  assert (Forall (fun v => lowercase (vi_selector v)) volumes) as Hlow.
  { eapply Forall_impl; [exact Hvs|]. by intros v (p & (fs & d & ->) & _ & ?). }
  rewrite Forall_forall in Hvs |- *. intros v Hvin. destruct (Hvs v Hvin) as (p & (fs & d & ->) & (Ho1 & Hl1 & Hend) & _).
  unfold volume_ok. cbn [vi_offset vi_length volume_info se_disk_size se_source]. split; [done|]. split; [done|]. split; [done|]. split.
  { unfold select_volume. cbn [se_volumes]. by rewrite find_selector. }
  unfold volume_source, SlicedImage_new. cbn [vi_offset vi_length volume_info se_source].
  pose proof (proj1 Hd) as Hdl. unfold checked_add. rewrite (proj2 (Z.leb_le _ U64_MAX)) by u64. cbn [ok_or bind].
  rewrite (proj2 (Z.eqb_neq _ 0)), (proj2 (Z.ltb_ge (image_len disk) _)) by lia. cbn [orb].
  eexists. split; [reflexivity|]. intros o n Hoo Hnn. destruct (Z.leb_spec (o + n) (pl_length p)).
  - by rewrite slice_read by (unfold slice_ok; cbn; (done || lia)).
  - unfold SlicedImage_read_exact_at, checked_add. destruct (_ <=? U64_MAX); cbn [ok_or bind]; [|by eexists]. cbn [sl_len].
    rewrite (proj2 (Z.ltb_lt _ _)) by lia. by eexists.
Qed.

(** ** Properties *)

(** C15: inspecting an image returns, whatever its bytes are, and what it reports
    can be used: there is a volume, every volume lies inside the disk, is found
    by its selector and by no other's, and can be opened as a slice whose reads
    are exactly the reads of the disk behind the volume's offset, up to its end
    and not beyond. GPT and MBR tables, chains of extended boot records with
    loops, partitions that leave the disk and file systems that are not one are
    all covered. *)
Theorem volumes_inside `{DiskCratesLaws} `{Crc32} source path offset length :
  image_ok source -> is_u64 offset -> match length with Some n => is_u64 n | None => True end ->
  wp (inspect_source_at source path offset length) (fun s =>
    512 <= se_disk_size s /\ se_disk_size s = image_len (se_source s) /\ se_volumes s <> [] /\
    Forall (volume_ok s) (se_volumes s)).
Proof.
  intros Hi Ho Hn. eapply wp_mono; [|by apply wp_inspect_source_at]. intros s [Hsize Hdisk Hne Hin _ _ _]. by split_and!.
Qed.

(** C16: a GPT is recovered from whichever of its headers is intact. When a table
    lies at one of the places where headers are looked for (sector 1 or the last
    sector, of 512 or 4096 bytes), and at the places before it nothing parses,
    because the header there is damaged, missing or of another sector size, the
    partitions found are exactly those of the table, with their numbers, places,
    lengths, types and names. *)
Theorem gpt_recovered `{DiskCrates} `{Crc32Laws} source l t before after :
  image_ok source -> holds source l -> table_in l t ->
  gpt_candidates source = before ++ (gt_sector_size t, gt_lba t) :: after ->
  Forall (fun '(sector_size, lba) => exists e, parse_gpt source sector_size lba = Err e) before ->
  discover_partitions source = Ok (layouts_of (gt_sector_size t) 0 (gt_parts t)).
Proof.
  intros Hi Hh Ht Hc Hb. pose proof (gpt_candidates_ok source Hi) as Hcs. rewrite Hc in Hcs. apply Forall_app in Hcs as [Hcb _].
  unfold discover_partitions, discover_gpt. rewrite Hc.
  destruct (gpt_search_skips source before (gt_sector_size t, gt_lba t) after false Hi) as [saw ->].
  { rewrite Forall_forall in *. intros [ss lba] Hin. specialize (Hb _ Hin). specialize (Hcb _ Hin). cbn in Hb, Hcb. destruct Hcb as [Hss Hlba].
    destruct Hi as [Hlen _]. split; [|done]. unfold is_u64 in Hlen. by_sector Hss. }
  cbn [gpt_search]. cbv zeta. destruct (table_widths _ _ (proj1 Ht)) as (_ & _ & _ & _ & _ & _ & _ & Hat & _).
  pose proof (parse_gpt_written source l t Hh Ht) as Hparse.
  assert (image_read source (saturating_mul (gt_lba t) (gt_sector_size t)) 8 = Ok EFI_PART) as ->.
  { destruct Hh as (_ & _ & Hread). destruct Ht as ((Hss & _) & Hsector & _). unfold saturating_mul. rewrite Z.min_l by lia.
    apply Hread; [lia|lia|]. apply get_range_Some in Hsector as (? & ? & Hs). apply get_range_Some.
    split; [lia|]. split; [by_sector Hss|]. unfold sector_bytes, header_bytes in Hs. rewrite <- !app_assoc in Hs.
    assert (EFI_PART = ztake 8 (ztake (gt_lba t * gt_sector_size t + gt_sector_size t - gt_lba t * gt_sector_size t)
      (zdrop (gt_lba t * gt_sector_size t) l))) as -> by (rewrite <- Hs; by rewrite ztake_app_len).
    rewrite ztake_ztake by by_sector Hss. f_equal. lia. }
  cbn [catch]. change (negb (bytes_eqb EFI_PART EFI_PART)) with false. cbv iota. rewrite Hparse. reflexivity.
Qed.

(** ** Witnesses *)

(** Crates that know no container, and no file system but ext. *)
#[export] Instance toy_crates : DiskCrates := {
  Qcow2Reader := unit; qcow2_from_reader _ := Err (Foreign "qcow2"); virtual_disk_size _ := 0;
  qcow2_read _ _ _ := Err (Foreign "qcow2");
  VmdkReader := unit; vmdk_open_on_device _ := Err (Foreign "vmdk"); virtual_size _ := 0;
  vmdk_read_at _ _ _ := Err (Foreign "vmdk");
  ntfs_new _ := Err (Foreign "ntfs"); fat_open _ := Err (Foreign "fat"); ext4_load _ := Ok tt;
}.

#[export] Instance toy_crates_laws : DiskCratesLaws.
Proof. split; intros; done. Qed.

#[export] Instance toy_crc32_laws : Crc32Laws.
Proof. split. intros l. unfold crc32_hash, toy_crc32, is_u32. pose proof (Z.mod_pos_bound (le_val l) 4294967296). lia. Qed.

(** A disk of three sectors with one MBR partition of two. *)
Definition mbr_disk : list Z :=
  zrepeat 446 0 ++ [0; 0; 0; 0; 7; 0; 0; 0] ++ le_bytes 4 1 ++ le_bytes 4 2 ++ zrepeat 48 0 ++ [0x55; 0xaa] ++ zrepeat 1024 3.

Lemma volumes_inside_witness :
  wp (inspect_source_at (bytes_image mbr_disk) [] 0 None) (fun s => Forall (volume_ok s) (se_volumes s)).
Proof.
  eapply wp_mono; [|apply (volumes_inside (bytes_image mbr_disk) [] 0 None)].
  - intros s (_ & _ & _ & Hv). exact Hv.
  - apply bytes_image_ok; [apply bytes_ok_dec; vm_compute; reflexivity|vm_compute; discriminate].
  - split; vm_compute; discriminate.
  - exact I.
Defined.

(** The session, run. *)
Example inspect_run :
  match inspect_source_at (bytes_image mbr_disk) [] 0 None with
  | Ok s => map (fun v => (vi_selector v, vi_offset v, vi_length v)) (se_volumes s) = [(bytes_of_string "mbr1", 512, 1024)]
  | _ => False
  end.
Proof. vm_compute. reflexivity. Qed.

(** A disk of six sectors whose primary GPT header is gone: an entry in sector 2,
    the backup header in the last. *)
Definition sample_part : GptPart := {|
  gp_type := [1; 2; 3; 4; 5; 6; 7; 8; 9; 10; 11; 12; 13; 14; 15; 16]; gp_unique := zrepeat 16 9;
  gp_first := 3; gp_last := 4; gp_attributes := 0; gp_name := [66; 65] |}.
Definition sample_table : GptTable := {|
  gt_sector_size := 512; gt_lba := 5; gt_alternate := 1; gt_first_usable := 3; gt_last_usable := 4;
  gt_guid := zrepeat 16 7; gt_entry_lba := 2; gt_entry_size := 128; gt_parts := [None; Some sample_part] |}.
Definition gpt_disk : list Z :=
  zrepeat 1024 0 ++ entries_bytes 128 (gt_parts sample_table) ++ zrepeat 256 0 ++ zrepeat 1024 0 ++ sector_bytes sample_table.

Lemma gpt_recovered_witness :
  discover_partitions (bytes_image gpt_disk) = Ok [layout_of 512 1 sample_part].
Proof.
  assert (len gpt_disk = 3072) as Hlen by (vm_compute; reflexivity).
  apply (gpt_recovered (bytes_image gpt_disk) gpt_disk sample_table [(512, 1)] []).
  - apply bytes_image_ok; [apply bytes_ok_dec; vm_compute; reflexivity|rewrite Hlen; lia].
  - split; [reflexivity|]. split; [rewrite Hlen; vm_compute; discriminate|]. intros offset n bytes _ _ Hg. cbn. rewrite Hg. reflexivity.
  - split; [|split; vm_compute; reflexivity]. unfold table_ok. rewrite Hlen. cbn [gt_sector_size gt_lba gt_alternate gt_first_usable gt_last_usable gt_guid gt_entry_lba gt_entry_size gt_parts sample_table].
    unfold ISIZE_MAX, MAX_GPT_ENTRIES. change (3072 / 512) with 6. change (len [None; Some sample_part]) with 2.
    split; [lia|]. split; [lia|]. split; [lia|]. split; [lia|]. split; [lia|]. split; [lia|]. split; [lia|].
    split; [split; [reflexivity|apply bytes_ok_dec; reflexivity]|]. split; [lia|]. split; [lia|]. split; [reflexivity|]. split; [lia|]. split; [lia|].
    constructor; [exact I|]. constructor; [|constructor]. unfold part_ok. cbn [gp_type gp_unique gp_first gp_last gp_attributes gp_name sample_part].
    split; [split; [reflexivity|apply bytes_ok_dec; reflexivity]|]. split; [reflexivity|].
    split; [split; [reflexivity|apply bytes_ok_dec; reflexivity]|]. split; [split; vm_compute; discriminate|]. split; [lia|]. split; [lia|].
    split; [constructor; [lia|]; constructor; [lia|]; constructor|vm_compute; discriminate].
  - vm_compute. reflexivity.
  - constructor; [|constructor]. eexists. vm_compute. reflexivity.
Defined.
