(* ===== verification/Sources.v ===== *)
(** Reads of files and devices, src/src/source.rs: positioned reads that a device
    may answer short, reads aligned to its sectors, the pinned handles, and the
    image over a local file (inception.rs, 537-576). *)

From S2P Require Import Prelude Bytes Utf8 Stream StreamFacts Compression NvList Encrypted.
From S2P Require Import EncryptedDnode Paths Snapshots.
From S2P Require Import ObjectIndex Image DiskImage.

(** ** The system

    [read_at position n] is [pread]: the bytes it delivers, none at the end. *)
Class Device (D : Type) := { read_at : D -> Z -> Z -> result (list Z) }.

(** A device with sectors of [block] bytes that holds [l]: reads whose place and
    length are whole sectors deliver at least a sector, and whole sectors only.
    Nothing is said of other reads. *)
Class DeviceLaws {D} `{Device D} (d : D) (block : Z) (l : list Z) := {
  device_sectors : len l mod block = 0;
  device_bytes : bytes_ok l;
  device_read : forall position n, 0 <= position -> 0 < n -> position mod block = 0 -> n mod block = 0 ->
    exists k, read_at d position n = Ok (ztake k (zdrop position l)) /\ 0 <= k <= n /\ k mod block = 0 /\
      (position < len l -> 0 < k /\ position + k <= len l) /\ (len l <= position -> k = 0);
}.

(** [metadata] of an open file, the platform's device controls, and the seek to
    the end: an operation the system refuses is its error. *)
Class DeviceInfo (D : Type) := {
  dev_metadata : D -> result (bool * Z);
  dev_block_size : D -> result Z;
  dev_block_count : D -> result Z;
  dev_length_info : D -> result Z;
  dev_seek_end : D -> result Z;
}.

(** ** Definitions *)

Inductive Platform := Windows | MacOS | OtherPlatform.

#[export] Instance platform_eq_dec : EqDecision Platform.
Proof. solve_decision. Defined.

Definition validate_block_size (size : Z) : result Z :=
  fail! negb ((512 <=? size) && (size <=? 1024 * 1024)) || negb (Z.land size (size - 1) =? 0)
    with Msg "Disk reported an invalid sector size: {size}" [size] in
  Ok size.

(** *** The size of a device *)

Section info.
Context {D : Type} `{DeviceInfo D}.

(** The length of a Windows drive is signed. *)
Definition device_length (platform : Platform) (file : D) : result Z :=
  match platform with
  | Windows =>
      let! length := map_err (Context "querying physical drive length" []) (dev_length_info file) in
      fail! length <? 0 with Msg "physical drive reported a negative length" [] in Ok length
  | MacOS =>
      let! block_size := map_err (Context "querying disk length" []) (dev_block_size file) in
      let! block_count := map_err (Context "querying disk length" []) (dev_block_count file) in
      ok_or (checked_mul block_count block_size) (Msg "disk length overflows u64" [])
  | OtherPlatform => Err (Msg "platform has no block-device length control" [])
  end.

(** The length in the metadata, of a regular file or where it is not zero. *)
Definition metadata_length (file : D) : option Z :=
  match dev_metadata file with
  | Ok (is_file, length) => if is_file || negb (length =? 0) then Some length else None
  | _ => None
  end.

Definition source_length (platform : Platform) (file : D) : result Z :=
  match metadata_length file with
  | Some length => Ok length
  | None =>
      let! length := catch (device_length platform file) Ok
        (fun _ => map_err (Context "determining the size of {} ({device_error:#})" []) (dev_seek_end file)) in
      fail! length =? 0 with Msg "could not determine the size of {}" [] in
      Ok length
  end.

Definition is_regular (file : D) : bool :=
  match dev_metadata file with Ok (is_file, _) => is_file | _ => false end.

Definition source_block_size (platform : Platform) (file : D) : result Z :=
  if is_regular file then Ok 1
  else
    match platform with
    | Windows | MacOS =>
        let! size := map_err (Context "querying disk sector size" []) (dev_block_size file) in
        validate_block_size size
    | OtherPlatform => Ok 1
    end.
End info.

(** *** Reads *)

Section source.
Context {D : Type} `{Device D}.

(** The loop of [positioned_read]: what the buffer holds from [complete] on. A
    round delivers a byte at least, so the length bounds the rounds. *)
Fixpoint positioned_loop (fuel : nat) (file : D) (offset complete n : Z) : result (list Z) :=
  if n <=? complete then Ok []
  else
    match fuel with
    | O => OutOfFuel
    | S fuel =>
        let! position := ok_or (checked_add offset complete) (Msg "source read offset overflows" []) in
        let! bytes := read_at file position (n - complete) in
        fail! len bytes =? 0 with Msg "Source ended during a read; the drive may have been disconnected" [] in
        let! rest := positioned_loop fuel file offset (complete + len bytes) n in
        Ok (bytes ++ rest)
    end.

Definition positioned_read (file : D) (offset n : Z) : result (list Z) := positioned_loop (Z.to_nat n) file offset 0 n.

(** The loop over the scratch space of [capacity] bytes; what the scratch space
    keeps beyond [read] from an earlier round is not used. *)
Fixpoint aligned_loop (fuel : nat) (file : D) (block_size capacity offset complete n : Z) : result (list Z) :=
  if n <=? complete then Ok []
  else
    match fuel with
    | O => OutOfFuel
    | S fuel =>
        let! position := ok_or (checked_add offset complete) (Msg "device read offset overflows" []) in
        let start := position / block_size * block_size in
        let! skip := sub position start in
        let! left_ := sub n complete in
        let! room := sub capacity skip in
        let count := Z.min left_ room in
        let! end_ := add skip count in
        let! read := mul (div_ceil end_ block_size) block_size in
        if capacity <? read then Panic
        else
          let! scratch := positioned_read file start read in
          let! bytes := slice scratch skip end_ in
          let! rest := aligned_loop fuel file block_size capacity offset (complete + count) n in
          Ok (bytes ++ rest)
    end.

(** Reads [n] bytes. [is_multiple_of] a zero divisor is true of zero only, as [mod] is. *)
Definition source_read_exact_at (file : D) (block_size offset n : Z) : result (list Z) :=
  if n =? 0 then Ok []
  else if (block_size =? 1) || ((offset mod block_size =? 0) && (n mod block_size =? 0)) then positioned_read file offset n
  else
    let! below := sub block_size 1 in
    let! capacity := mul (div_ceil (Z.min (saturating_add n below) (1024 * 1024)) block_size) block_size in
    aligned_loop (Z.to_nat n) file block_size capacity offset 0 n.

(** *** An image over a local file (inception.rs) *)

Record FileImage := { fi_file : D; fi_block_size : Z; fi_len : Z }.

Definition FileImage_read_exact_at (self : FileImage) (offset n : Z) : result (list Z) :=
  let! end_ := ok_or (checked_add offset n) (Msg "standalone image read offset overflows" []) in
  fail! fi_len self <? end_
    with Msg "standalone image read [{offset}, {end}) exceeds {} bytes" [offset; end_; fi_len self] in
  source_read_exact_at (fi_file self) (fi_block_size self) offset n.

Definition FileImage_image (self : FileImage) : ImageRead :=
  {| image_len := fi_len self; image_read := FileImage_read_exact_at self |}.
End source.
Arguments FileImage D : clear implicits.

(** *** Pinned handles

    A handle's identity is its device, inode and device number. *)

Record Handle (D : Type) := { hd_identity : Z * Z * Z; hd_read_only : bool; hd_file : D }.
Arguments hd_identity {D}.
Arguments hd_read_only {D}.
Arguments hd_file {D}.

Section handles.
Context {D : Type} `{Device D} `{DeviceInfo D}.
Implicit Types (authorized : gmap (list Z) (Handle D)) (file : Handle D).

(** What the system says of a path, and what opening it for reading gives. *)
Record paths_state := { ps_metadata : list Z -> result (Z * Z * Z); ps_open : list Z -> result (Handle D) }.

Definition register_authorized_source authorized (path : list Z) file : result (gmap (list Z) (Handle D)) :=
  fail! negb (hd_read_only file) with Msg "An authorized source handle must be read-only" [] in
  Ok (<[path := file]> authorized).

Definition release_authorized_sources authorized (keep : option (list Z)) : gmap (list Z) (Handle D) :=
  filter (fun kv => Some kv.1 = keep) authorized.

Definition open_read_only (system : paths_state) authorized (path : list Z) : result (Handle D) :=
  match authorized !! path with
  | Some file =>
      let! current := ps_metadata system path in
      fail! negb (bool_decide (current = hd_identity file))
        with Foreign "The approved device changed or was disconnected. Choose the drive again." in
      Ok file
  | None => ps_open system path
  end.

Definition FileImage_open (platform : Platform) (system : paths_state) authorized (path : list Z) : result (FileImage D) :=
  let! file := map_err (Context "opening standalone disk image {} read-only" []) (open_read_only system authorized path) in
  let! length := source_length platform (hd_file file) in
  let! block_size := source_block_size platform (hd_file file) in
  Ok {| fi_file := hd_file file; fi_block_size := block_size; fi_len := length |}.
End handles.
Arguments paths_state D : clear implicits.
