(* ===== verification/SourceProps.v ===== *)
(** Properties of the reads of files and devices: whatever the sector size and
    however short the device answers, a positioned read is the bytes asked for. *)

From stdpp Require Import sorting.
From S2P Require Import Prelude Bytes Utf8 Stream StreamFacts Compression NvList Encrypted.
From S2P Require Import EncryptedDnode Paths Snapshots.
From S2P Require Import ObjectIndex Image DiskImage Sources.

#[local] Open Scope Z_scope.
#[local] Open Scope zse_scope.

Section reads.
Context {D : Type} `{Device D}.

Lemma mod_0_sub a b block : a mod block = 0 -> b mod block = 0 -> (a - b) mod block = 0.
Proof. intros Ha Hb. rewrite Zminus_mod, Ha, Hb. by apply Zmod_0_l. Qed.

Lemma mod_0_add a b block : a mod block = 0 -> b mod block = 0 -> (a + b) mod block = 0.
Proof. intros Ha Hb. rewrite Zplus_mod, Ha, Hb. by apply Zmod_0_l. Qed.

Lemma multiple_le block a b : 0 < block -> a * block < b * block + block -> a <= b.
Proof. intros. apply Z.lt_succ_r, (Z.mul_lt_mono_pos_r block); lia. Qed.

Lemma positioned_loop_exact (d : D) block l `{!DeviceLaws d block l} fuel offset complete n :
  len l <= U64_MAX -> 0 <= offset -> 0 <= complete <= n -> offset + n <= len l ->
  (offset + complete) mod block = 0 -> (n - complete) mod block = 0 -> n - complete <= Z.of_nat fuel ->
  positioned_loop fuel d offset complete n = Ok (ztake (n - complete) (zdrop (offset + complete) l)).
Proof.
  intros Hmax Ho. revert complete. induction fuel as [|fuel IH]; intros complete Hc Hin Hat Hn Hfuel; cbn [positioned_loop];
    (destruct (Z.leb_spec n complete); [by rewrite ztake_0 by lia|]); [lia|].
  unfold checked_add. rewrite (proj2 (Z.leb_le _ U64_MAX)) by u64. cbn [ok_or bind].
  destruct (device_read (offset + complete) (n - complete)) as (k & -> & Hk & Hkm & Hpos & _); [lia..|]. cbn [bind].
  destruct Hpos as [Hk0 Hkl]; [lia|].
  assert (len (ztake k (zdrop (offset + complete) l)) = k) as -> by len_lia.
  rewrite (proj2 (Z.eqb_neq k 0)) by lia.
  assert (offset + (complete + k) = (offset + complete) + k) as Hassoc by lia.
  rewrite IH; [|lia|lia|rewrite Hassoc; by apply mod_0_add| |lia].
  - cbn [bind]. f_equal. rewrite Hassoc. replace (n - (complete + k)) with (n - complete - k) by lia. apply range_split; lia.
  - replace (n - (complete + k)) with (n - complete - k) by lia. by apply mod_0_sub.
Qed.

Lemma positioned_read_exact (d : D) block l `{!DeviceLaws d block l} offset n :
  len l <= U64_MAX -> 0 <= offset -> 0 <= n -> offset + n <= len l -> offset mod block = 0 -> n mod block = 0 ->
  positioned_read d offset n = Ok (ztake n (zdrop offset l)).
Proof.
  intros. unfold positioned_read. rewrite (positioned_loop_exact d block l) by (rewrite ?Z.add_0_r, ?Z.sub_0_r; lia).
  by rewrite Z.add_0_r, Z.sub_0_r.
Qed.

Lemma aligned_loop_exact (d : D) block l `{!DeviceLaws d block l} capacity fuel offset complete n :
  len l <= U64_MAX -> 0 < block <= capacity -> capacity mod block = 0 -> capacity <= ISIZE_MAX ->
  0 <= offset -> 0 <= complete <= n -> offset + n <= len l -> n - complete <= Z.of_nat fuel ->
  aligned_loop fuel d block capacity offset complete n = Ok (ztake (n - complete) (zdrop (offset + complete) l)).
Proof.
  intros Hmax Hb Hcap Hcap' Ho. revert complete. induction fuel as [|fuel IH]; intros complete Hc Hin Hfuel; cbn [aligned_loop];
    (destruct (Z.leb_spec n complete); [by rewrite ztake_0 by lia|]); [lia|].
  unfold checked_add. rewrite (proj2 (Z.leb_le _ U64_MAX)) by u64. cbn [ok_or bind]. cbv zeta.
  set (position := offset + complete). set (start := position / block * block).
  assert (0 <= start <= position /\ position - start < block) as (Hs & Hskip).
  { unfold start. pose proof (Z.div_mod position block ltac:(lia)). pose proof (Z.mod_pos_bound position block ltac:(lia)).
    pose proof (Z.div_pos position block ltac:(lia) ltac:(lia)). nia. }
  unfold sub, add, mul. rewrite (proj2 (Z.leb_le start position)) by lia. cbn [bind].
  rewrite (proj2 (Z.leb_le complete n)) by lia. cbn [bind]. rewrite (proj2 (Z.leb_le (position - start) capacity)) by lia. cbn [bind].
  set (skip := position - start) in *. set (count := Z.min (n - complete) (capacity - skip)).
  assert (0 < count) by lia. rewrite (proj2 (Z.leb_le (skip + count) _)) by (unfold ISIZE_MAX in *; lia). cbn [bind].
  pose proof (div_ceil_bounds (skip + count) block ltac:(lia)) as Hread. set (blocks := div_ceil (skip + count) block) in *.
  assert (exists c, capacity = c * block) as [c Hc'] by (by apply Z.mod_divide; [lia|]).
  assert (exists m, len l = m * block) as [m Hm] by (apply Z.mod_divide; [lia|]; by eapply device_sectors).
  assert (blocks * block <= capacity) by (rewrite Hc'; apply Z.mul_le_mono_nonneg_r; [lia|apply (multiple_le block); lia]).
  assert (start + blocks * block <= len l).
  { rewrite Hm. unfold start at 1. rewrite <- Z.mul_add_distr_r. apply Z.mul_le_mono_nonneg_r; [lia|].
    apply (multiple_le block); [lia|]. rewrite Z.mul_add_distr_r. fold start. lia. }
  rewrite (proj2 (Z.leb_le (blocks * block) _)) by (unfold ISIZE_MAX in *; lia). cbn [bind].
  rewrite (proj2 (Z.ltb_ge _ _)) by lia.
  rewrite (positioned_read_exact d block l) by (lia || (unfold start; by apply Z.mod_mul; lia)). cbn [bind].
  rewrite slice_range by lia. replace (start + skip) with position by lia. cbn [bind]. rewrite IH by lia. cbn [bind]. f_equal.
  replace (offset + (complete + count)) with (position + count) by lia.
  replace (n - (complete + count)) with (n - complete - count) by lia. apply range_split; lia.
Qed.
End reads.

Section image.
Context {D : Type} `{Device D}.

Lemma validate_block_size_Ok size b : validate_block_size size = Ok b -> b = size /\ 512 <= size <= 1024 * 1024.
Proof.
  unfold validate_block_size. destruct (_ || _) eqn:Hv; [done|]. intros [= <-]. b2p. split; [done|lia].
Qed.

Lemma source_read_exact (d : D) block l `{!DeviceLaws d block l} offset n :
  len l <= U64_MAX -> (block = 1 \/ validate_block_size block = Ok block) ->
  0 <= offset -> 0 <= n <= ISIZE_MAX -> offset + n <= len l ->
  source_read_exact_at d block offset n = Ok (ztake n (zdrop offset l)).
Proof.
  intros Hmax Hblock Ho Hn Hin. unfold source_read_exact_at.
  destruct (Z.eqb_spec n 0) as [->|Hn0]; [by rewrite ztake_0|].
  destruct ((block =? 1) || _) eqn:Hal.
  - apply (positioned_read_exact d block l); try lia.
    all: apply orb_true_iff in Hal as [Hal|Hal]; b2p; [by rewrite Hal, Z.mod_1_r|done].
  - apply orb_false_iff in Hal as [Hone _]. b2p. destruct Hblock as [?|Hv]; [done|]. apply validate_block_size_Ok in Hv as [_ Hb].
    unfold sub, mul, saturating_add. rewrite (proj2 (Z.leb_le 1 block)) by lia. cbn [bind].
    rewrite (Z.min_l (n + (block - 1))) by (unfold ISIZE_MAX in *; lia).
    pose proof (div_ceil_bounds (Z.min (n + (block - 1)) (1024 * 1024)) block ltac:(lia)) as Hcap.
    rewrite (proj2 (Z.leb_le _ U64_MAX)) by lia. cbn [bind].
    rewrite (aligned_loop_exact d block l) by (lia || (unfold ISIZE_MAX; lia) || (apply Z.mod_mul; lia)).
    by rewrite Z.add_0_r, Z.sub_0_r.
Qed.

(** The block size an image is opened with is one of the two kinds. *)
Lemma source_block_size_valid `{DeviceInfo D} platform (d : D) block :
  source_block_size platform d = Ok block -> block = 1 \/ validate_block_size block = Ok block.
Proof.
  unfold source_block_size. destruct (is_regular d); [intros [= <-]; by left|].
  assert (forall size b, validate_block_size size = Ok b -> validate_block_size b = Ok b) as Hv
    by (intros size b Hv; by pose proof (validate_block_size_Ok _ _ Hv) as [-> _]).
  destruct platform; intros Hb; inv_ok; eauto.
Qed.

(** C26: A positioned read of a device or a file is exact. On a device that
    answers only whole sectors at whole-sector places, and may answer any read
    short, the image over it gives every range inside the contents exactly as it
    stands there, at any offset and length, and refuses a range that ends
    behind them. *)
Theorem aligned_reads_exact (d : D) block l `{!DeviceLaws d block l} offset n :
  len l <= U64_MAX -> (block = 1 \/ validate_block_size block = Ok block) ->
  is_u64 offset -> 0 <= n <= ISIZE_MAX ->
  let image := {| fi_file := d; fi_block_size := block; fi_len := len l |} in
  (offset + n <= len l -> FileImage_read_exact_at image offset n = Ok (ztake n (zdrop offset l))) /\
  (len l < offset + n -> is_err (FileImage_read_exact_at image offset n) = true).
Proof.
  intros Hmax Hblock Ho Hn image. unfold FileImage_read_exact_at, checked_add. cbn [image fi_len fi_file fi_block_size]. split; intros Hin.
  - rewrite (proj2 (Z.leb_le _ U64_MAX)) by lia. cbn [ok_or bind]. rewrite (proj2 (Z.ltb_ge _ _)) by lia.
    apply (source_read_exact d block l); [done|done|u64|done|done].
  - destruct (Z.leb_spec (offset + n) U64_MAX); cbn [ok_or bind]; [|done]. by rewrite (proj2 (Z.ltb_lt _ _)) by lia.
Qed.

Lemma file_image_ok (d : D) block l `{!DeviceLaws d block l} :
  len l <= U64_MAX -> (block = 1 \/ validate_block_size block = Ok block) ->
  image_ok (FileImage_image {| fi_file := d; fi_block_size := block; fi_len := len l |}).
Proof.
  intros Hmax Hblock. pose proof (len_nonneg l). split; [cbn; u64|]. intros offset n Ho Hn. cbn [image_read FileImage_image].
  unfold FileImage_read_exact_at. cbn [fi_len fi_file fi_block_size]. wp_steps.
  match goal with Hc : checked_add _ _ = _ |- _ => apply checked_add_Some in Hc as [? ->] end. b2p.
  rewrite (source_read_exact d block l) by (done || u64). apply wp_Ok. split; [unfold is_u64 in *; len_lia|].
  pose proof (device_bytes (d := d) (block := block) (l := l)). auto with zse.
Qed.
End image.

(** ** A device

    Sectors of 512 bytes; every read is answered with one sector only. *)
Record SlowDisk := { sd_contents : list Z }.

#[export] Instance slow_disk : Device SlowDisk := {
  read_at d position n :=
    if (position mod 512 =? 0) && (n mod 512 =? 0) then Ok (ztake (Z.min n 512) (zdrop position (sd_contents d)))
    else Err (Foreign "Invalid argument") }.

Lemma slow_disk_laws l : len l mod 512 = 0 -> bytes_ok l -> DeviceLaws {| sd_contents := l |} 512 l.
Proof.
  intros Hl Hb. split; [done|done|]. intros position n Hp Hn Hpm Hnm. cbn [read_at slow_disk sd_contents].
  rewrite Hpm, Hnm. cbn [Z.eqb andb].
  destruct (Z.lt_ge_cases position (len l)) as [Hin|Hout].
  - pose proof (len_nonneg l). assert (512 <= n /\ position + 512 <= len l) as [Hn' Hin'] by (Z.to_euclidean_division_equations; lia).
    exists 512. rewrite Z.min_r by lia. split; [done|]. split; [lia|]. split; [done|lia].
  - exists 0. split; [rewrite zdrop_all by lia; unfold ztake; by rewrite !take_nil|]. split; [lia|]. split; [done|lia].
Qed.

Definition counting (n : Z) : list Z := map (fun i => Z.of_nat i mod 251) (seq 0 (Z.to_nat n)).

Example aligned_reads_exact_witness :
  FileImage_read_exact_at {| fi_file := {| sd_contents := counting 2048 |}; fi_block_size := 512; fi_len := len (counting 2048) |} 509 700
  = Ok (ztake 700 (zdrop 509 (counting 2048))).
Proof.
  refine (proj1 (aligned_reads_exact {| sd_contents := counting 2048 |} 512 (counting 2048)
    (DeviceLaws0 := slow_disk_laws _ _ _) 509 700 _ _ _ _) _).
  - vm_compute. reflexivity.
  - apply bytes_ok_dec. vm_compute. reflexivity.
  - vm_compute. discriminate.
  - right. vm_compute. reflexivity.
  - split; vm_compute; discriminate.
  - split; vm_compute; discriminate.
  - vm_compute. discriminate.
Defined.
