(* ===== verification/Datto.v ===== *)
(** Datto agent images, src/src/datto.rs: the key stash of an agent, and the
    positioned plaintext of a [.detto] image; with the choice of the stash
    (inception.rs, 610-638). *)

From S2P Require Import Prelude Bytes Utf8 Stream StreamFacts Compression NvList Encrypted.
From S2P Require Import EncryptedDnode Paths Snapshots.
From S2P Require Import Selected ObjectIndex Resolve Image DiskImage Partitions Volumes.

(** ** Crates

    xts-mode with AES-256, base64 (URL-safe, no padding), PBKDF2 over SHA3-256, and
    serde_json at the three types the code deserialises. *)
Class DattoCrates := {
  (** [decrypt_area(area, sector_size, first_sector_index, get_tweak_default)] with
      the two halves of the key. *)
  xts_decrypt_area : list Z -> list Z -> list Z -> Z -> Z -> list Z;
  base64_decode : list Z -> option (list Z);
  pbkdf2_hmac_sha3_256 : list Z -> list Z -> Z -> Z -> list Z;
  json_key_stash : list Z -> option (list (list Z));
  json_protected_header : list Z -> option (list Z * Z);
  json_master_key : list Z -> option (list Z);
}.

(** What the code relies on: an area is decrypted sector by sector, each with its
    index; what the decoders return are bytes, an iteration count a u32. *)
Class DattoCratesLaws `{DattoCrates} := {
  xts_area_len : forall k1 k2 area size index, len (xts_decrypt_area k1 k2 area size index) = len area;
  xts_area_bytes : forall k1 k2 area size index, bytes_ok (xts_decrypt_area k1 k2 area size index);
  xts_area_app : forall k1 k2 a b size index m, 0 < size -> 0 <= m -> len a = m * size ->
    xts_decrypt_area k1 k2 (a ++ b) size index =
      xts_decrypt_area k1 k2 a size index ++ xts_decrypt_area k1 k2 b size (index + m);
  base64_bytes : forall text l, base64_decode text = Some l -> bytes_ok l;
  pbkdf2_sha3_len : forall p s i n, 0 <= n -> len (pbkdf2_hmac_sha3_256 p s i n) = n;
}.

(** ** Definitions *)

Definition DETTO_SECTOR_SIZE : Z := 512.
Definition MAX_PBKDF2_ITERATIONS : Z := 10000000.

Section datto.
Context `{Crypto} `{DattoCrates}.

(** *** The key stash *)

Definition decode_base64 (value : list Z) : result (list Z) :=
  ok_or (base64_decode value) (Context "decoding {label} as base64url" [] (Foreign "base64")).

(** [parts.as_slice()] of exactly five fields. *)
Definition jwe_fields (token : list Z) : result (list Z * list Z * list Z * list Z) :=
  match split_on DOT token with
  | [protected; _; iv; ciphertext; tag] => Ok (protected, iv, ciphertext, tag)
  | _ => Err (Msg "Datto key stash JWE must contain five compact fields" [])
  end.

(** [Nonce::from_slice] and [Tag::from_slice] panic on another length. *)
Definition decrypt_in_place_detached (key nonce aad buffer tag : list Z) : result (list Z) :=
  if negb ((len nonce =? 12) && (len tag =? 16)) then Panic
  else ok_or (aead_open Aes256Gcm key nonce aad buffer tag)
    (Msg "the Datto agent password did not authenticate the key stash" []).

(** [copy_from_slice] into the 64 bytes of the key. *)
Definition derive_agent_key (stash password : list Z) : result (list Z) :=
  fail! is_empty password with Msg "the Datto agent password is empty" [] in
  let! user_keys_jwe := ok_or (json_key_stash stash) (Context "parsing Datto key stash JSON" [] (Foreign "serde_json")) in
  let! token := ok_or (head user_keys_jwe) (Msg "Datto key stash has no user_keys_jwe entry" []) in
  let! (protected, iv, ciphertext, tag) := jwe_fields token in
  let! protected_bytes := decode_base64 protected in
  let! (p2s, p2c) := ok_or (json_protected_header protected_bytes)
    (Context "parsing Datto protected header" [] (Foreign "serde_json")) in
  fail! (p2c =? 0) || (MAX_PBKDF2_ITERATIONS <? p2c)
    with Msg "Datto PBKDF2 iteration count {} is outside 1..={MAX_PBKDF2_ITERATIONS}" [p2c] in
  let! salt := decode_base64 p2s in
  let! iv := decode_base64 iv in
  let! tag := decode_base64 tag in
  fail! negb (len iv =? 12) || negb (len tag =? 16)
    with Msg "Datto JWE requires a 12-byte IV and 16-byte authentication tag" [] in
  let wrapping_key := pbkdf2_hmac_sha3_256 password salt p2c 32 in
  let! plaintext := decode_base64 ciphertext in
  let! plaintext := decrypt_in_place_detached wrapping_key iv protected plaintext tag in
  let! k := ok_or (json_master_key plaintext) (Context "parsing decrypted Datto master key" [] (Foreign "serde_json")) in
  let! decoded := decode_base64 k in
  fail! negb (len decoded =? 64) with Msg "Datto AES-XTS key is {} bytes, not 64" [len decoded] in
  copy_from_slice (zrepeat 64 0) decoded.

(** *** The image *)

Record DettoImage := { dt_source : ImageRead; dt_key : list Z }.

Definition DettoImage_new (source : ImageRead) (key : list Z) : result DettoImage :=
  fail! (image_len source =? 0) || negb (image_len source mod DETTO_SECTOR_SIZE =? 0)
    with Msg ".detto image size must be a non-zero multiple of 512 bytes" [] in
  Ok {| dt_source := source; dt_key := key |}.

Definition DettoImage_read_exact_at (self : DettoImage) (offset n : Z) : result (list Z) :=
  let! end_ := ok_or (checked_add offset n) (Msg ".detto read offset overflows" []) in
  fail! image_len (dt_source self) <? end_
    with Msg ".detto read [{offset}, {end}) exceeds {} bytes" [offset; end_; image_len (dt_source self)] in
  if n =? 0 then Ok []
  else
    let aligned_start := offset / DETTO_SECTOR_SIZE * DETTO_SECTOR_SIZE in
    let! aligned_end := mul (div_ceil end_ DETTO_SECTOR_SIZE) DETTO_SECTOR_SIZE in
    let! area := sub aligned_end aligned_start in
    let! ciphertext := image_read (dt_source self) aligned_start area in
    let! first := slice (dt_key self) 0 32 in
    let! second := slice_from (dt_key self) 32 in
    let plaintext := xts_decrypt_area first second ciphertext DETTO_SECTOR_SIZE (aligned_start / DETTO_SECTOR_SIZE) in
    let! within := sub offset aligned_start in
    let! end_within := add within n in
    slice plaintext within end_within.

Definition DettoImage_image (self : DettoImage) : ImageRead :=
  {| image_len := image_len (dt_source self); image_read := DettoImage_read_exact_at self |}.
End datto.

(** *** Which stash *)

Definition ends_with (suffix l : list Z) : bool := bytes_eqb (zdrop (len l - len suffix) l) suffix && (len suffix <=? len l).

Definition is_detto (image_path : list Z) : bool :=
  ends_with (bytes_of_string ".detto") (map to_ascii_lowercase image_path).

Definition find_datto_key_stash (entries : result (list DirectoryEntry)) : result (list Z) :=
  let! entries := map_err (Context "listing Datto agent /config directory" []) entries in
  let matches := List.map (fun entry => bytes_of_string "/config/" ++ de_name entry)
    (List.filter (fun entry => (de_dirent_type entry =? 8)
       && ends_with (bytes_of_string ".encryptionkeystash") (map to_ascii_lowercase (de_name entry))) entries) in
  match matches with
  | [only] => Ok only
  | [] => Err (Msg "no *.encryptionKeyStash file was found in {dataset}/config; provide --key-stash" [])
  | _ => Err (Msg "multiple *.encryptionKeyStash files were found in {dataset}/config; choose one with --key-stash" [])
  end.
