(* ===== verification/DattoProps.v ===== *)
(** Properties of Datto agent images: a positioned read is a range of the plaintext
    of the whole image, and a key stash gives back the key that was sealed in it. *)

From stdpp Require Import sorting.
From S2P Require Import Prelude Bytes Utf8 Stream StreamFacts Compression NvList NvWriter Encrypted.
From S2P Require Import EncryptedDnode EncryptedFacts Paths Snapshots.
From S2P Require Import Selected ObjectIndex Resolve Image DiskImage Partitions Volumes PartitionFacts.
From S2P Require Import EncryptedProps Datto.

#[local] Open Scope Z_scope.
#[local] Open Scope zse_scope.

(** ** Reading *)

Section image.
Context `{Crypto} `{DattoCratesLaws}.

(** The plaintext of an image held as [l]. *)
Definition detto_plaintext (key l : list Z) : list Z := xts_decrypt_area (ztake 32 key) (zdrop 32 key) l 512 0.

Lemma len_detto_plaintext key l : len (detto_plaintext key l) = len l.
Proof. apply xts_area_len. Qed.

(** Sectors decrypt apart: a run of them is the same run of the plaintext. *)
Lemma xts_range k1 k2 l first count :
  0 <= first -> 0 <= count -> (first + count) * 512 <= len l ->
  xts_decrypt_area k1 k2 (ztake (count * 512) (zdrop (first * 512) l)) 512 first
  = ztake (count * 512) (zdrop (first * 512) (xts_decrypt_area k1 k2 l 512 0)).
Proof.
  intros Hf Hc Hin. rewrite <- (ztake_zdrop (first * 512) l) at 2.
  rewrite (xts_area_app _ _ _ _ _ _ first) by (lia || len_lia). rewrite zdrop_app_len by (rewrite xts_area_len; len_lia).
  rewrite <- (ztake_zdrop (count * 512) (zdrop (first * 512) l)) at 2.
  rewrite (xts_area_app _ _ _ _ _ _ count) by (lia || len_lia). by rewrite ztake_app_len by (rewrite xts_area_len; len_lia).
Qed.

(** C27: A read of an encrypted agent image is exact. Whatever its offset and
    length, a read inside the image gives those bytes of the plaintext of the
    whole image, decrypting only the sectors it touches with their own indices;
    a range that ends behind the image is refused. *)
Theorem detto_reads_exact source l key self offset n :
  holds source l -> len key = 64 -> DettoImage_new source key = Ok self ->
  is_u64 offset -> 0 <= n <= ISIZE_MAX ->
  (offset + n <= len l -> DettoImage_read_exact_at self offset n = Ok (ztake n (zdrop offset (detto_plaintext key l)))) /\
  (len l < offset + n -> is_err (DettoImage_read_exact_at self offset n) = true).
Proof.
  intros (Hlen & Hmax & Hread) Hkey Hnew Ho Hn. unfold is_u64, ISIZE_MAX in *. unfold DettoImage_new in Hnew.
  destruct (_ || _) eqn:Hbad; [done|]. injection Hnew as <-. b2p. unfold DETTO_SECTOR_SIZE in *.
  unfold DettoImage_read_exact_at, checked_add. cbn [dt_source dt_key]. rewrite Hlen in *. split; intros Hin.
  2: { destruct (Z.leb_spec (offset + n) U64_MAX); cbn [ok_or bind]; [|done]. by rewrite (proj2 (Z.ltb_lt _ _)) by lia. }
  rewrite (proj2 (Z.leb_le _ U64_MAX)) by lia. cbn [ok_or bind]. rewrite (proj2 (Z.ltb_ge _ _)) by lia.
  destruct (Z.eqb_spec n 0) as [->|Hn0]; [by rewrite ztake_0|]. cbv zeta. unfold DETTO_SECTOR_SIZE, mul, sub, add.
  set (first := offset / 512). pose proof (div_ceil_bounds (offset + n) 512 ltac:(lia)) as Hend. set (last := div_ceil (offset + n) 512) in *.
  assert (0 <= first /\ first * 512 <= offset /\ first * 512 + 512 > offset) as (Hf & Hf1 & Hf2)
    by (unfold first; Z.to_euclidean_division_equations; lia).
  assert (last * 512 <= len l) by (Z.to_euclidean_division_equations; lia).
  rewrite (proj2 (Z.leb_le (last * 512) _)) by lia. cbn [bind]. rewrite (proj2 (Z.leb_le (first * 512) _)) by lia. cbn [bind].
  replace (last * 512 - first * 512) with ((last - first) * 512) by lia.
  rewrite (Hread (first * 512) ((last - first) * 512) (ztake ((last - first) * 512) (zdrop (first * 512) l))); [|lia|lia|].
  2: { apply get_range_Some. split; [lia|]. split; [lia|]. f_equal. lia. }
  cbn [bind]. unfold slice_from, slice at 1. rewrite (proj2 (get_range_Some key 0 32 (ztake 32 key))) by (split; [lia|]; split; [lia|done]).
  cbn [expect bind]. unfold slice at 1.
  rewrite (proj2 (get_range_Some key 32 (len key) (zdrop 32 key))) by (split; [lia|]; split; [lia|]; rewrite ztake_all; [done|len_lia]).
  cbn [expect bind]. rewrite (proj2 (Z.leb_le (first * 512) offset)) by lia. cbn [bind].
  rewrite (proj2 (Z.leb_le (offset - first * 512 + n) _)) by lia. cbn [bind].
  rewrite Z.div_mul by lia. rewrite xts_range by lia.
  rewrite slice_range by (rewrite ?xts_area_len; lia). f_equal. unfold detto_plaintext. f_equal. f_equal. lia.
Qed.

End image.

(** ** The key stash *)

(** What a sender of key stashes has: the inverses of the decoders. *)
Class DattoSeal `{Crypto} `{DattoCrates} := {
  base64_encode : list Z -> list Z;
  base64_decode_encode : forall l, bytes_ok l -> base64_decode (base64_encode l) = Some l;
  base64_alphabet : forall l, bytes_ok l -> DOT ∉ base64_encode l /\ bytes_ok (base64_encode l);
  write_key_stash : list Z -> list Z;
  json_key_stash_written : forall token, json_key_stash (write_key_stash token) = Some [token];
  write_protected_header : list Z -> Z -> list Z;
  json_protected_header_written : forall salt iterations, bytes_ok salt -> is_u32 iterations ->
    json_protected_header (write_protected_header salt iterations) = Some (salt, iterations) /\
    bytes_ok (write_protected_header salt iterations);
  write_master_key : list Z -> list Z;
  json_master_key_written : forall k, bytes_ok k -> json_master_key (write_master_key k) = Some k /\ bytes_ok (write_master_key k);
}.

Section stash.
Context `{CryptoLaws} `{!DattoCrates} {Hdatto : DattoCratesLaws} `{!DattoSeal} `{!AeadSeal}.

(** The protected header of a stash, and the stash: the master key sealed under the
    password, the header authenticated with it. *)
Definition stash_header (salt : list Z) (iterations : Z) : list Z :=
  base64_encode (write_protected_header (base64_encode salt) iterations).

Definition stash_sealed (password salt : list Z) (iterations : Z) (iv key : list Z) : list Z * list Z :=
  aead_encrypt Aes256Gcm (pbkdf2_hmac_sha3_256 password salt iterations 32) iv (stash_header salt iterations)
    (write_master_key (base64_encode key)).

Definition stash_of (password salt : list Z) (iterations : Z) (iv key : list Z) : list Z :=
  let '(ciphertext, tag) := stash_sealed password salt iterations iv key in
  write_key_stash (join DOT [stash_header salt iterations; []; base64_encode iv; base64_encode ciphertext; base64_encode tag]).

Lemma decode_base64_encode l : bytes_ok l -> decode_base64 (base64_encode l) = Ok l.
Proof. intros Hl. unfold decode_base64. by rewrite base64_decode_encode. Qed.

(** The key stash of a Datto agent gives back its key. For a stash that seals
    a 64-byte key under a password, any salt and iteration count in the
    accepted range, [derive_agent_key] with the password returns exactly the key;
    and on any stash and password at all it returns, with an error or a key of 64
    bytes. *)
Theorem agent_key_recovered password salt iterations iv key ciphertext tag :
  password <> [] -> bytes_ok salt -> 1 <= iterations <= MAX_PBKDF2_ITERATIONS -> fixed 12 iv -> fixed 64 key ->
  stash_sealed password salt iterations iv key = (ciphertext, tag) -> bytes_ok ciphertext -> fixed 16 tag ->
  derive_agent_key (stash_of password salt iterations iv key) password = Ok key /\
  forall stash password, wp (derive_agent_key stash password) (fixed 64).
Proof.
  intros Hp Hs Hit [Hiv Hivb] [Hk Hkb] Hseal Hc [Ht Htb]. split.
  - unfold derive_agent_key, stash_of. rewrite Hseal. destruct password as [|b password]; [done|]. cbn [is_empty].
    assert (is_u32 iterations) as Hu by (unfold MAX_PBKDF2_ITERATIONS in Hit; unfold is_u32; lia).
    destruct (base64_alphabet salt Hs) as [_ Hsb]. destruct (json_protected_header_written _ _ Hsb Hu) as [Hph Hphb].
    destruct (base64_alphabet _ Hphb) as [Hd1 _]. destruct (base64_alphabet _ Hivb) as [Hd2 _].
    destruct (base64_alphabet _ Hc) as [Hd3 _]. destruct (base64_alphabet _ Htb) as [Hd4 _]. destruct (base64_alphabet _ Hkb) as [_ Hkeb].
    destruct (json_master_key_written _ Hkeb) as [Hm Hmb].
    rewrite json_key_stash_written. cbn [ok_or bind head]. unfold jwe_fields. rewrite split_on_join.
    2: done. 2: by repeat (apply List.Forall_cons; [first [done|apply not_elem_of_nil]|]).
    cbn [bind]. unfold stash_header at 1. rewrite decode_base64_encode by done. cbn [bind]. rewrite Hph. cbn [ok_or bind].
    rewrite (proj2 (Z.eqb_neq iterations 0)) by lia. rewrite (proj2 (Z.ltb_ge _ _)) by lia. cbn [orb].
    rewrite !decode_base64_encode by done. cbn [bind]. rewrite Hiv, Ht. cbn [negb Z.eqb Pos.eqb orb].
    unfold decrypt_in_place_detached. rewrite Hiv, Ht. cbn [negb Z.eqb Pos.eqb andb].
    unfold stash_sealed in Hseal. rewrite (aead_open_seals Aes256Gcm _ _ _ _ _ _ (pbkdf2_sha3_len (b :: password) salt iterations 32 ltac:(lia)) Hmb Hseal). cbn [ok_or bind].
    rewrite Hm. cbn [ok_or bind]. rewrite decode_base64_encode by done. cbn [bind]. rewrite Hk. cbn [negb Z.eqb Pos.eqb].
    unfold copy_from_slice. by rewrite Hk.
  - clear -Hdatto. intros stash password. unfold derive_agent_key, decode_base64, jwe_fields, decrypt_in_place_detached. wp_steps.
    repeat case_match; try apply wp_Err. apply wp_Ok. wp_steps. cbv zeta. wp_steps. b2p. destruct a2 as [p2s p2c].
    wp_steps. cbv zeta. wp_steps. b2p.
    match goal with Hi : len ?iv = 12, Ht : len ?tag = 16 |- context [negb ((len ?iv =? 12) && (len ?tag =? 16))] => rewrite Hi, Ht end.
    cbn [negb Z.eqb Pos.eqb andb]. wp_steps. b2p. match goal with Hk : len ?decoded = 64, Hd : base64_decode _ = Some ?decoded |- _ =>
      apply wp_copy_from_slice; [by rewrite Hk|split; [done|by eapply base64_bytes]] end.
Qed.
End stash.

(** ** Concrete crates

    Each byte of a sector is xored with the sector's index and a byte of the key;
    base64 writes two letters per byte; the documents are their fields. *)

Definition toy_xts (k1 k2 area : list Z) (size index : Z) : list Z :=
  imap (fun i b => Z.lxor b (Z.land (index + Z.of_nat i / size + le_val (ztake 1 k1 ++ ztake 1 k2)) 255) mod 256) area.

Fixpoint toy_decode (text : list Z) : option (list Z) :=
  match text with
  | [] => Some []
  | hi :: lo :: text =>
      let b := (hi - 65) * 16 + (lo - 65) in
      if (0 <=? b) && (b <? 256) then
        match toy_decode text with Some l => Some (b :: l) | None => None end
      else None
  | _ => None
  end.

Definition toy_encode (l : list Z) : list Z := flat_map (fun b => [65 + b / 16; 65 + b mod 16]) l.

#[export] Instance toy_datto : DattoCrates := {
  xts_decrypt_area := toy_xts;
  base64_decode := toy_decode;
  pbkdf2_hmac_sha3_256 p s i n := le_bytes (Z.to_nat n) (le_val p + le_val s + i);
  json_key_stash stash := Some [stash];
  json_protected_header text := Some (zdrop 4 text, le_val (ztake 4 text));
  json_master_key text := Some text;
}.

#[export] Instance toy_datto_laws : DattoCratesLaws.
Proof.
  split.
  - intros. cbn [xts_decrypt_area toy_datto]. unfold toy_xts, len. by rewrite length_imap.
  - intros. cbn [xts_decrypt_area toy_datto]. apply Forall_lookup_2. intros i x Hx. apply list_lookup_imap_Some in Hx as (b & _ & ->).
    unfold is_byte. pose proof (Z.mod_pos_bound (Z.lxor b (Z.land (index + Z.of_nat i / size + le_val (ztake 1 k1 ++ ztake 1 k2)) 255)) 256). lia.
  - intros k1 k2 a b size index m Hsize Hm Ha. cbn [xts_decrypt_area toy_datto]. unfold toy_xts. rewrite imap_app. f_equal.
    apply imap_ext. intros i x _. do 4 f_equal. unfold len in Ha. cbn. rewrite Nat2Z.inj_add, Ha. rewrite Z.div_add_l by lia. lia.
  - intros text l. cbn [base64_decode toy_datto]. revert l.
    induction text as [text IH] using (well_founded_induction (Wf_nat.well_founded_ltof _ (@length Z))). intros l.
    destruct text as [|hi [|lo text]]; [intros [= <-]; by apply Forall_nil|done|].
    cbn [toy_decode]. destruct (_ && _) eqn:Hb; [|done]. destruct (toy_decode text) as [l'|] eqn:Hd; [|done]. intros [= <-]. b2p.
    apply List.Forall_cons; [unfold is_byte; lia|]. by apply (IH text); [unfold Wf_nat.ltof; cbn; lia|].
  - intros. cbn -[le_bytes]. rewrite len_le_bytes. lia.
Qed.

Lemma toy_encode_decode l : bytes_ok l -> toy_decode (toy_encode l) = Some l.
Proof.
  induction 1 as [|b l Hb _ IH]; [done|]. unfold is_byte in Hb. cbn [toy_encode flat_map app toy_decode]. fold (toy_encode l).
  replace ((65 + b / 16 - 65) * 16 + (65 + b mod 16 - 65)) with b by (Z.to_euclidean_division_equations; lia).
  rewrite (proj2 (Z.leb_le _ _)), (proj2 (Z.ltb_lt _ _)) by lia. cbn [andb]. by rewrite IH.
Qed.

Lemma toy_encode_range l : bytes_ok l -> Forall (fun b => 65 <= b <= 80) (toy_encode l).
Proof.
  induction 1 as [|b l Hb _ IH]; [by apply Forall_nil|]. unfold is_byte in Hb. cbn [toy_encode flat_map app].
  repeat (apply List.Forall_cons; [Z.to_euclidean_division_equations; lia|]). done.
Qed.

#[export] Instance toy_datto_seal : DattoSeal.
Proof.
  refine {| base64_encode := toy_encode; write_key_stash t := t; write_master_key k := k;
            write_protected_header salt iterations := le_bytes 4 iterations ++ salt |}.
  - apply toy_encode_decode.
  - intros l Hl. pose proof (toy_encode_range l Hl) as Hr. rewrite Forall_forall in Hr. split.
    + intros Hin. apply Hr in Hin. unfold DOT in Hin. lia.
    + apply Forall_forall. intros b Hb. apply Hr in Hb. unfold is_byte. lia.
  - done.
  - intros salt iterations Hs Hi. cbn [json_protected_header toy_datto]. split; [|apply Forall_app_2; auto with zse].
    by rewrite zdrop_app_len, ztake_app_len, le_val_u32_roundtrip.
  - done.
Defined.

Example agent_key_recovered_witness :
  let iv := zrepeat 12 7 in let key := zrepeat 64 90 in let password := bytes_of_string "agent" in
  let '(ciphertext, tag) := stash_sealed password [1; 2; 3] 4096 iv key in
  derive_agent_key (stash_of password [1; 2; 3] 4096 iv key) password = Ok key.
Proof.
  refine (proj1 (agent_key_recovered (bytes_of_string "agent") [1; 2; 3] 4096 (zrepeat 12 7) (zrepeat 64 90)
    (fst (stash_sealed (bytes_of_string "agent") [1; 2; 3] 4096 (zrepeat 12 7) (zrepeat 64 90)))
    (snd (stash_sealed (bytes_of_string "agent") [1; 2; 3] 4096 (zrepeat 12 7) (zrepeat 64 90))) _ _ _ _ _ _ _ _)).
  - done.
  - apply bytes_ok_dec. vm_compute. reflexivity.
  - unfold MAX_PBKDF2_ITERATIONS. lia.
  - apply fixed_zrepeat; [lia|unfold is_byte; lia].
  - apply fixed_zrepeat; [lia|unfold is_byte; lia].
  - apply surjective_pairing.
  - apply bytes_ok_dec. vm_compute. reflexivity.
  - split; [vm_compute; reflexivity|apply bytes_ok_dec; vm_compute; reflexivity].
Defined.

Definition detto_bytes : list Z := map (fun i => Z.of_nat i mod 256) (seq 0 1536).

Example detto_reads_exact_witness :
  exists self, DettoImage_new (bytes_image detto_bytes) (zrepeat 64 60) = Ok self /\
    DettoImage_read_exact_at self 333 777 = Ok (ztake 777 (zdrop 333 (detto_plaintext (zrepeat 64 60) detto_bytes))).
Proof.
  eexists. split; [reflexivity|].
  refine (proj1 (detto_reads_exact (bytes_image detto_bytes) detto_bytes (zrepeat 64 60) _ 333 777 _ _ _ _ _) _).
  - split; [reflexivity|]. split; [vm_compute; discriminate|]. intros offset n bytes _ _ Hg. cbn [image_read bytes_image]. by rewrite Hg.
  - reflexivity.
  - reflexivity.
  - split; discriminate.
  - split; discriminate.
  - vm_compute. discriminate.
Defined.
