(* ===== verification/HostFs.v ===== *)
(** The host's file system, as far as the sources use std::fs and tempfile: a
    store of nodes, the operations with their errors, and faults. An operation
    that the system refuses leaves the store as it was, except that a recursive
    removal may have removed a part. Then postconditions of computations on the
    store, well-formed stores, and what each operation does to a lookup. *)

From S2P Require Import Prelude Bytes.

(** ** The store

    A path is the list of its names, the last one first: the directory of
    [name :: d] is [d]. *)

Abbreviation name := (list Z).
Abbreviation path := (list (list Z)).

Inductive Node := NDir | NFile (bytes : list Z) | NOther.

#[export] Instance node_eq_dec : EqDecision Node.
Proof. solve_decision. Defined.

Abbreviation store := (gmap path Node).

(** [p] is [d] or inside it. *)
Abbreviation under d p := (d `suffix_of` p).

(** The system calls made so far name the faults. *)
Record host := { h_store : store; h_clock : nat }.

(** [fault c]: call [c] is refused. A refused recursive removal keeps what
    [survives]. *)
Class Faults := { fault : nat -> bool; survives : nat -> path -> bool }.

(** The name the crate tempfile makes up for a prefix in a directory. *)
Class TempNames := { temp_name : string -> store -> path -> name }.

Class TempNamesLaws `{TempNames} := {
  temp_fresh : forall prefix st d, st !! (temp_name prefix st d :: d) = None;
  temp_prefixed : forall prefix st d, exists rest, temp_name prefix st d = bytes_of_string prefix ++ rest;
}.

(** ** Computations on the store *)

Definition fs_m (A : Type) : Type := host -> result A * host.

Definition fs_ret {A} (r : result A) : fs_m A := fun h => (r, h).

Definition fs_bind {A B} (m : fs_m A) (k : A -> fs_m B) : fs_m B := fun h =>
  match m h with
  | (Ok a, h) => k a h
  | (Err e, h) => (Err e, h)
  | (Panic, h) => (Panic, h)
  | (OutOfFuel, h) => (OutOfFuel, h)
  end.

(** [if let Err(error) = m { handler }] and [let _ = m]. *)
Definition fs_catch {A B} (m : fs_m A) (k : A -> fs_m B) (handler : error -> fs_m B) : fs_m B := fun h =>
  match m h with
  | (Ok a, h) => k a h
  | (Err e, h) => handler e h
  | (Panic, h) => (Panic, h)
  | (OutOfFuel, h) => (OutOfFuel, h)
  end.

Definition fs_ignore {A} (m : fs_m A) : fs_m unit := fs_catch m (fun _ => fs_ret (Ok tt)) (fun _ => fs_ret (Ok tt)).

Definition fs_context {A} (what : string) (m : fs_m A) : fs_m A := fun h =>
  let '(r, h) := m h in (map_err (Context what []) r, h).

Notation "'let*' x ':=' m 'in' k" := (fs_bind m (fun x => k))
  (at level 10, x pattern, m at level 100, k at level 200, format "'[v' 'let*'  x  ':='  m  'in' '/' k ']'") : zse_scope.

(** ** Operations of std::fs *)

(** [symlink_metadata(path)], which does not fault. *)
Definition metadata (p : path) : fs_m (option Node) := fun h => (Ok (h_store h !! p), h).

Definition path_exists (p : path) : fs_m bool := let* node := metadata p in fs_ret (Ok (bool_decide (is_Some node))).

Abbreviation io what := (Err (Foreign what)).

Definition is_dir (st : store) (p : path) : bool := bool_decide (st !! p = Some NDir).

Definition create_dir_in (p : path) (st : store) : result store :=
  match p with
  | [] => io "File exists"
  | _ :: d =>
      match st !! p with
      | Some _ => io "File exists"
      | None => if is_dir st d then Ok (<[p := NDir]> st) else io "No such file or directory"
      end
  end.

(** A new file that must not be there yet. *)
Definition create_file_in (p : path) (st : store) : result store :=
  match p with
  | [] => io "Is a directory"
  | _ :: d =>
      match st !! p with
      | Some _ => io "File exists"
      | None => if is_dir st d then Ok (<[p := NFile []]> st) else io "No such file or directory"
      end
  end.

Definition write_in (p : path) (bytes : list Z) (st : store) : result store :=
  match st !! p with
  | Some (NFile _) => Ok (<[p := NFile bytes]> st)
  | _ => io "No such file or directory"
  end.

(** Where a path of [src] goes when [src] becomes [dst]. *)
Definition rebase (src dst p : path) : path := take (length p - length src) p ++ dst.

Definition moved (src dst : path) (st : store) : store :=
  list_to_map (omap (fun '(p, n) => if decide (under src p) then Some (rebase src dst p, n) else None) (map_to_list st)).

Definition has_entries (st : store) (d : path) : bool :=
  bool_decide (filter (fun '(p, _) => under d p /\ p <> d) st <> ∅).

(** What stands at [dst] must give way: a file to a file, an empty directory to a
    directory. *)
Definition rename_in (src dst : path) (st : store) : result store :=
  match st !! src with
  | None => io "No such file or directory"
  | Some node =>
      if bool_decide (src = dst) then Ok st
      else if bool_decide (under src dst) then io "Invalid argument"
      else if negb (is_dir st (tail dst)) || bool_decide (dst = []) then io "No such file or directory"
      else
        let gives_way := match st !! dst, node with
          | None, _ => true
          | Some NDir, NDir => negb (has_entries st dst)
          | Some NDir, _ | Some _, NDir => false
          | Some _, _ => true
          end in
        if gives_way then Ok (moved src dst st ∪ filter (fun '(p, _) => ~ under src p /\ p <> dst) st)
        else io "Directory not empty"
  end.

Definition remove_file_in (p : path) (st : store) : result store :=
  match st !! p with
  | None => io "No such file or directory"
  | Some NDir => io "Is a directory"
  | Some _ => Ok (delete p st)
  end.

Definition without (p : path) (st : store) : store := filter (fun '(q, _) => ~ under p q) st.

Section calls.
Context `{Faults}.

(** A call, refused or not. *)
Definition call (op : store -> result store) : fs_m unit := fun h =>
  let after st := {| h_store := st; h_clock := S (h_clock h) |} in
  if fault (h_clock h) then (io "Input/output error", after (h_store h))
  else
    match op (h_store h) with
    | Ok st => (Ok tt, after st)
    | Err e => (Err e, after (h_store h))
    | Panic => (Panic, after (h_store h))
    | OutOfFuel => (OutOfFuel, after (h_store h))
    end.

Definition create_dir (p : path) : fs_m unit := call (create_dir_in p).
Definition create_file (p : path) : fs_m unit := call (create_file_in p).
Definition write_all (p : path) (bytes : list Z) : fs_m unit := call (write_in p bytes).
Definition rename (src dst : path) : fs_m unit := call (rename_in src dst).
Definition remove_file (p : path) : fs_m unit := call (remove_file_in p).

Definition remove_dir_all (p : path) : fs_m unit := fun h =>
  let after st := {| h_store := st; h_clock := S (h_clock h) |} in
  if fault (h_clock h) then
    (io "Input/output error", after (filter (fun '(q, _) => ~ under p q \/ survives (h_clock h) q = true) (h_store h)))
  else if is_dir (h_store h) p then (Ok tt, after (without p (h_store h)))
  else (io "Not a directory", after (h_store h)).

Fixpoint create_dir_all (p : path) : fs_m unit := fun h =>
  if is_dir (h_store h) p then (Ok tt, h)
  else
    match p with
    | [] => create_dir [] h
    | _ :: d => (let* _ := create_dir_all d in create_dir p) h
    end.

(** *** tempfile *)

Context `{TempNames}.

Definition make_temp {A} (prefix : string) (parent : path) (make : path -> fs_m A) : fs_m path := fun h =>
  let p := temp_name prefix (h_store h) parent :: parent in (let* _ := make p in fs_ret (Ok p)) h.

(** A [TempDir] lives in [body]; its drop removes it and ignores errors. *)
Definition drop_after {A} (drop : fs_m unit) (body : fs_m A) : fs_m A := fun h =>
  let '(r, h) := body h in let '(_, h) := drop h in (r, h).
End calls.

(** ** Postconditions

    [fs_wp m h P E]: from [h], [m] ends with a value that satisfies [P], or with an
    error in a state that satisfies [E]; it neither panics nor runs out of fuel. *)

Definition fs_wp {A} (m : fs_m A) (h : host) (P : A -> host -> Prop) (E : host -> Prop) : Prop :=
  match m h with
  | (Ok a, h') => P a h'
  | (Err _, h') => E h'
  | (Panic, _) | (OutOfFuel, _) => False
  end.

Section fs_wp.
Context `{Faults}.

Lemma fs_wp_bind {A B} (m : fs_m A) (k : A -> fs_m B) h P E :
  fs_wp m h (fun a h' => fs_wp (k a) h' P E) E -> fs_wp (fs_bind m k) h P E.
Proof. unfold fs_wp, fs_bind. by destruct (m h) as [[] ?]. Qed.

Lemma fs_wp_catch {A B} (m : fs_m A) (k : A -> fs_m B) handler h P E :
  fs_wp m h (fun a h' => fs_wp (k a) h' P E) (fun h' => forall e, fs_wp (handler e) h' P E) ->
  fs_wp (fs_catch m k handler) h P E.
Proof. unfold fs_wp, fs_catch. destruct (m h) as [[] ?]; try done. intros Hh. apply Hh. Qed.

Lemma fs_wp_mono {A} (m : fs_m A) h P E (P' : A -> host -> Prop) (E' : host -> Prop) :
  (forall a h', P a h' -> P' a h') -> (forall h', E h' -> E' h') -> fs_wp m h P E -> fs_wp m h P' E'.
Proof. unfold fs_wp. destruct (m h) as [[] ?]; auto. Qed.

Lemma fs_wp_ret {A} (r : result A) h P E : wpe r (fun a => P a h) (fun _ => E h) -> fs_wp (fs_ret r) h P E.
Proof. unfold fs_wp, fs_ret. by destruct r. Qed.

Lemma fs_wp_context {A} what (m : fs_m A) h P E : fs_wp m h P E -> fs_wp (fs_context what m) h P E.
Proof. unfold fs_wp, fs_context. by destruct (m h) as [[] ?]. Qed.

Lemma fs_wp_ignore {A} (m : fs_m A) h P E :
  fs_wp m h (fun _ h' => P tt h') (fun h' => P tt h') -> fs_wp (fs_ignore m) h P E.
Proof. intros Hm. unfold fs_ignore. apply fs_wp_catch. eapply fs_wp_mono; [..|exact Hm]; intros; by apply fs_wp_ret. Qed.

Lemma fs_wp_exists p h P E : P (bool_decide (is_Some (h_store h !! p))) h -> fs_wp (path_exists p) h P E.
Proof. done. Qed.

Lemma fs_wp_metadata p h P E : P (h_store h !! p) h -> fs_wp (metadata p) h P E.
Proof. done. Qed.

(** What a call leaves when it is refused, and when it is done. *)
Definition after (st : store) (h : host) : host := {| h_store := st; h_clock := S (h_clock h) |}.

Lemma fs_wp_call op h (P : unit -> host -> Prop) (E : host -> Prop) :
  safe (op (h_store h)) ->
  E (after (h_store h) h) -> (forall st, fault (h_clock h) = false -> op (h_store h) = Ok st -> P tt (after st h)) ->
  fs_wp (call op) h P E.
Proof.
  intros Hsafe HE HP. unfold fs_wp, call, after in *. destruct (fault _); [done|]. destruct (op (h_store h)); try done. by apply HP.
Qed.

Lemma fs_wp_remove_dir_all p h (P : unit -> host -> Prop) (E : host -> Prop) :
  (forall st, (forall q, ~ under p q -> st !! q = h_store h !! q) -> E (after st h)) ->
  (fault (h_clock h) = false -> P tt (after (without p (h_store h)) h)) -> fs_wp (remove_dir_all p) h P E.
Proof.
  intros HE HP. unfold fs_wp, remove_dir_all, after in *. destruct (fault _).
  - apply HE. intros q Hq. rewrite map_lookup_filter. destruct (h_store h !! q); cbn; [|done]. by rewrite option_guard_True by auto.
  - destruct (is_dir _ _); [by apply HP|by apply HE].
Qed.

Lemma fs_wp_drop {A} drop (m : fs_m A) h P E :
  fs_wp m h (fun a h' => P a (drop h').2) (fun h' => E (drop h').2) -> fs_wp (drop_after drop m) h P E.
Proof. unfold fs_wp, drop_after. destruct (m h) as [[] ?]; destruct (drop _); done. Qed.
End fs_wp.

(** ** Lookups *)

Lemma lookup_without (p : path) (st : store) (q : path) : without p st !! q = if decide (under p q) then None else st !! q.
Proof.
  unfold without. rewrite map_lookup_filter. destruct (st !! q) as [n|]; cbn; [|by case_match].
  destruct (decide (under p q)); [by rewrite option_guard_False by auto|by rewrite option_guard_True by auto].
Qed.

Lemma rebase_app (src dst r : path) : rebase src dst (r ++ src) = r ++ dst.
Proof. unfold rebase. rewrite length_app. replace (length r + length src - length src)%nat with (length r) by lia. by rewrite take_app_length. Qed.

Lemma lookup_moved (src dst : path) (st : store) (r : path) : moved src dst st !! (r ++ dst) = st !! (r ++ src).
Proof.
  unfold moved. set (l := omap _ _).
  assert (forall q n, (q, n) ∈ l <-> exists r', q = r' ++ dst /\ st !! (r' ++ src) = Some n) as Hl.
  { intros q n. unfold l. rewrite list_elem_of_omap. split.
    - intros ([p n'] & Hin%elem_of_map_to_list & Hp). destruct (decide (under src p)) as [[r' ->]|]; [|done].
      injection Hp as <- <-. exists r'. by rewrite rebase_app.
    - intros (r' & -> & Hr). exists (r' ++ src, n). split; [by apply elem_of_map_to_list|].
      rewrite decide_True by (by exists r'). by rewrite rebase_app. }
  destruct (st !! (r ++ src)) as [n|] eqn:Hn.
  - apply elem_of_list_to_map_1'; [|apply Hl; eauto].
    intros n' (r' & Hr' & Hn')%Hl. apply app_inv_tail in Hr' as <-. congruence.
  - apply not_elem_of_list_to_map_1. intros ([q n] & Hq & Hin)%list_elem_of_fmap. cbn in Hq. subst q.
    apply Hl in Hin as (r' & Hr' & Hn'). apply app_inv_tail in Hr' as <-. congruence.
Qed.

Lemma lookup_moved_out (src dst : path) (st : store) (q : path) : ~ under dst q -> moved src dst st !! q = None.
Proof.
  intros Hq. unfold moved. apply not_elem_of_list_to_map_1. intros ([q' n] & -> & Hin)%list_elem_of_fmap.
  apply list_elem_of_omap in Hin as ([p n'] & _ & Hp). destruct (decide (under src p)) as [[r ->]|]; [|done].
  injection Hp as Hp _. cbn in Hq. apply Hq. exists r. by rewrite <- Hp, rebase_app.
Qed.

(** Where [dst] is free and apart from [src], a rename moves what is under [src] and
    nothing else. *)
Lemma rename_moves (src dst : path) (st st' : store) :
  (forall q, under dst q -> st !! q = None) -> ~ under src dst -> ~ under dst src ->
  rename_in src dst st = Ok st' ->
  (forall r, st' !! (r ++ dst) = st !! (r ++ src)) /\ (forall q, under src q -> st' !! q = None) /\
  (forall q, ~ under src q -> ~ under dst q -> st' !! q = st !! q).
Proof.
  intros Hfree Hsd Hds Hr. unfold rename_in in Hr. destruct (st !! src) as [node|] eqn:Hsrc; [|done].
  destruct (bool_decide (src = dst)) eqn:Heq; [apply bool_decide_eq_true in Heq as ->; by destruct Hsd|].
  rewrite bool_decide_false in Hr by done. destruct (_ || _); [done|]. cbv zeta in Hr.
  rewrite (Hfree dst) in Hr by done. injection Hr as <-. split; [|split].
  - intros r. rewrite lookup_union. rewrite lookup_moved. destruct (st !! (r ++ src)); [by rewrite union_Some_l|].
    rewrite map_lookup_filter, (Hfree (r ++ dst)) by (by exists r). done.
  - intros q Hq. rewrite lookup_union. rewrite lookup_moved_out.
    + rewrite map_lookup_filter. destruct (st !! q); cbn; [|done]. by rewrite option_guard_False by tauto.
    + intros Hq'. destruct (suffix_weak_total _ _ _ Hq Hq'); done.
  - intros q Hq Hq'. rewrite lookup_union, lookup_moved_out by done. rewrite map_lookup_filter.
    destruct (st !! q); cbn; [|done]. rewrite option_guard_True; [done|]. split; [done|]. by intros ->.
Qed.

(** ** Well-formed stores: what is in the store is in a directory *)

Definition store_wf (st : store) : Prop :=
  st !! [] = Some NDir /\ forall x d, is_Some (st !! (x :: d)) -> st !! d = Some NDir.

Lemma wf_free st (d p : path) : store_wf st -> st !! d = None -> under d p -> st !! p = None.
Proof.
  intros [_ Hwf] Hd [r ->]. induction r as [|x r IH]; [done|]. change ((x :: r) ++ d) with (x :: r ++ d).
  destruct (st !! (x :: r ++ d)) eqn:Hx; [|done]. specialize (Hwf x (r ++ d)). rewrite Hx, IH in Hwf. exfalso. by discriminate Hwf; eexists.
Qed.

Lemma wf_insert st x (d : path) n :
  store_wf st -> st !! (x :: d) = None -> st !! d = Some NDir -> store_wf (<[x :: d := n]> st).
Proof.
  intros [Hr Hwf] Hx Hd. split; [by rewrite lookup_insert_ne|]. intros y e Hy.
  assert (st !! e = Some NDir) as He.
  { destruct (decide (y :: e = x :: d)) as [[= -> ->]|Hne]; [done|]. rewrite lookup_insert_ne in Hy by done. by apply (Hwf y). }
  rewrite lookup_insert_ne; [done|]. intros <-. congruence.
Qed.

(** Directories made on the way to [p], and nothing else. *)
Definition grown (p : path) (st st' : store) : Prop :=
  forall q, st' !! q = st !! q \/ (under q p /\ st !! q = None /\ st' !! q = Some NDir).

Section calls.
Context `{Faults}.

Lemma fs_wp_create_dir x d h (P : unit -> host -> Prop) (E : host -> Prop) :
  E (after (h_store h) h) ->
  (h_store h !! (x :: d) = None -> h_store h !! d = Some NDir -> P tt (after (<[x :: d := NDir]> (h_store h)) h)) ->
  fs_wp (create_dir (x :: d)) h P E.
Proof.
  intros HE HP. unfold create_dir. apply fs_wp_call; [|done|].
  - cbn [create_dir_in]. case_match; [done|]. by case_match.
  - intros st _. cbn [create_dir_in]. destruct (h_store h !! (x :: d)) eqn:Hx; [done|]. unfold is_dir.
    case_bool_decide as Hd; [|done]. intros [= <-]. by apply HP.
Qed.

Lemma create_dir_all_grows p h :
  store_wf (h_store h) ->
  fs_wp (create_dir_all p) h
    (fun _ h' => store_wf (h_store h') /\ h_store h' !! p = Some NDir /\ grown p (h_store h) (h_store h'))
    (fun h' => store_wf (h_store h') /\ grown p (h_store h) (h_store h')).
Proof.
  revert h. induction p as [|x d IH]; intros h Hwf; unfold fs_wp; cbn [create_dir_all]; unfold is_dir; case_bool_decide as Hp.
  1, 3: split; [done|]; split; [done|]; intros q; by left.
  1: destruct Hwf; congruence.
  fold (fs_wp (fs_bind (create_dir_all d) (fun _ => create_dir (x :: d))) h
    (fun _ h' => store_wf (h_store h') /\ h_store h' !! (x :: d) = Some NDir /\ grown (x :: d) (h_store h) (h_store h'))
    (fun h' => store_wf (h_store h') /\ grown (x :: d) (h_store h) (h_store h'))).
  assert (forall st', grown d (h_store h) st' -> grown (x :: d) (h_store h) st') as Hup.
  { intros st' Hg q. destruct (Hg q) as [?|(? & ? & ?)]; [by left|right]. split; [by apply suffix_cons_r|done]. }
  apply fs_wp_bind. eapply fs_wp_mono; [| |by apply IH].
  - intros _ h1 (Hwf1 & Hd1 & Hg1). apply fs_wp_create_dir; cbn [h_store after]; [auto|]. intros Hx Hd.
    split; [by apply wf_insert|]. split; [by rewrite lookup_insert_eq|]. intros q.
    destruct (decide (q = x :: d)) as [->|Hq]; [|rewrite lookup_insert_ne by done; by apply Hup].
    rewrite lookup_insert_eq. right. split; [done|]. split; [|done]. destruct (Hg1 (x :: d)) as [He|(? & ? & ?)]; congruence.
  - intros h1 [? ?]. auto.
Qed.

Lemma fs_wp_rename (src dst : path) h (P : unit -> host -> Prop) (E : host -> Prop) :
  (fault (h_clock h) = true \/ (forall st, rename_in src dst (h_store h) <> Ok st) -> E (after (h_store h) h)) ->
  (forall st, fault (h_clock h) = false -> rename_in src dst (h_store h) = Ok st -> P tt (after st h)) -> fs_wp (rename src dst) h P E.
Proof.
  intros HE HP. unfold fs_wp, rename, call, after in *. destruct (fault _); [by apply HE; left|].
  destruct (rename_in src dst (h_store h)) eqn:Hr; [by apply HP|apply HE; right; congruence|..].
  all: unfold rename_in in Hr; repeat (case_match; try done).
Qed.
End calls.

Lemma rename_source (src dst : path) st st' : rename_in src dst st = Ok st' -> is_Some (st !! src).
Proof. unfold rename_in. destruct (st !! src); [by eexists|done]. Qed.

(** A rename to a free place in a directory is possible. *)
Lemma rename_possible (src dst : path) st :
  is_Some (st !! src) -> st !! dst = None -> dst <> [] -> st !! tail dst = Some NDir -> ~ under src dst ->
  exists st', rename_in src dst st = Ok st'.
Proof.
  intros [node Hs] Hd Hne Hdir Hsd. unfold rename_in, is_dir. rewrite Hs. rewrite bool_decide_false by (by intros ->).
  rewrite bool_decide_false by done. rewrite bool_decide_true by done. rewrite bool_decide_false by done. cbn [negb orb].
  cbv zeta. rewrite Hd. by eexists.
Qed.
