(* ===== verification/Tree.v ===== *)
(** Staged extraction of directory trees, src/src/tree.rs. *)

From S2P Require Import Prelude Bytes Utf8 Stream StreamFacts Compression NvList Encrypted.
From S2P Require Import EncryptedDnode Paths Snapshots.
From S2P Require Import Selected ObjectIndex Resolve Image DiskImage Partitions Volumes HostFs.

(** ** Definitions *)

Definition MAX_TREE_ENTRIES : Z := 1000000.
Definition MAX_TREE_DEPTH : Z := 256.

Record RecursiveExtraction := { files : Z; directories : Z; logical_bytes : Z; skipped_entries : Z }.

(** *** Names *)

Fixpoint trim_end_matches (c : Z) (l : list Z) : list Z :=
  match l with
  | [] => []
  | x :: l => match trim_end_matches c l with [] => if x =? c then [] else [x] | rest => x :: rest end
  end.

Definition source_child (parent name : list Z) : list Z :=
  if bytes_eqb parent [SLASH] then SLASH :: name else trim_end_matches SLASH parent ++ SLASH :: name.

Definition to_ascii_uppercase (b : Z) : Z := if (97 <=? b) && (b <=? 122) then b - 32 else b.

Definition reserved_stem (stem : list Z) : bool :=
  existsb (fun s => bytes_eqb stem (bytes_of_string s)) ["CON"; "PRN"; "AUX"; "NUL"]%string
  || ((len stem =? 4) && (starts_with (bytes_of_string "COM") stem || starts_with (bytes_of_string "LPT") stem)
      && match get stem 3 with Some b => (49 <=? b) && (b <=? 57) | None => false end).

Definition validate_windows (name : list Z) : result unit :=
  fail! existsb (fun b => bool_decide (b ∈ [60; 62; 58; 34; 124; 63; 42])) name
        || match last name with Some b => (b =? DOT) || (b =? 32) | None => false end
    with Msg "backup entry name {name:?} is not representable on Windows" [] in
  let stem := map to_ascii_uppercase (default name (head (split_on DOT name))) in
  fail! reserved_stem stem with Msg "backup entry name {name:?} is a reserved Windows device name" [] in
  Ok tt.

Definition validate_component (windows : bool) (name : list Z) : result unit :=
  fail! is_empty name || is_dots name || bool_decide (SLASH ∈ name) || bool_decide (92 ∈ name) || bool_decide (0 ∈ name)
    with Msg "backup entry name {name:?} cannot be represented safely as one path component" [] in
  if windows then validate_windows name else Ok tt.

(** [directory.join(name)] as the system walks it: an absolute name starts at the
    root, [..] goes up. *)
Definition path_join (directory : path) (name : list Z) : path :=
  let start := match name with b :: _ => if b =? SLASH then [] else directory | [] => directory end in
  foldl (fun at_ component =>
    if bytes_eqb component [DOT] then at_ else if bytes_eqb component [DOT; DOT] then tail at_ else component :: at_)
    start (components name).

(** *** The extraction *)

Section tree.
Context `{Faults} `{TempNames}.

Definition remove_staged_path (p : path) : fs_m unit :=
  let* node := metadata p in
  match node with
  | None => fs_context "reading replaced destination metadata at {}" (fs_ret (io "No such file or directory"))
  | Some NDir => fs_context "removing replaced destination staged at {}" (remove_dir_all p)
  | Some _ => fs_context "removing replaced destination staged at {}" (remove_file p)
  end.

Section extraction.
Variable windows : bool.
Variable list_ : list Z -> result (list DirectoryEntry).
Variable extract : list Z -> path -> fs_m Z.

(** A directory still to do: its source, its target, its depth; the last one
    pushed comes first. *)
Record todo := { td_source : list Z; td_target : path; td_depth : Z }.

Definition tree_total (result : RecursiveExtraction) : Z :=
  saturating_add (saturating_add (files result) (directories result)) (skipped_entries result).

Definition tree_entry (dir : todo) (s : RecursiveExtraction * list todo) (entry : DirectoryEntry)
  : fs_m (RecursiveExtraction * list todo) :=
  let (result, stack) := s in
  if MAX_TREE_ENTRIES <=? tree_total result then
    fs_ret (Err (Msg "backup directory tree exceeds the {MAX_TREE_ENTRIES}-entry safety limit" [MAX_TREE_ENTRIES]))
  else
    let* _ := fs_ret (validate_component windows (de_name entry)) in
    let source_path := source_child (td_source dir) (de_name entry) in
    let target_path := path_join (td_target dir) (de_name entry) in
    if de_dirent_type entry =? 4 then
      let* _ := fs_context "creating recovered directory {}" (create_dir target_path) in
      let* directories := fs_ret (add (directories result) 1) in
      let* depth := fs_ret (add (td_depth dir) 1) in
      fs_ret (Ok ({| files := files result; directories := directories; logical_bytes := logical_bytes result;
                     skipped_entries := skipped_entries result |},
                  {| td_source := source_path; td_target := target_path; td_depth := depth |} :: stack))
    else if de_dirent_type entry =? 8 then
      let* bytes := fs_context "extracting {source_path:?} to {}" (extract source_path target_path) in
      let* files := fs_ret (add (files result) 1) in
      let* logical_bytes := fs_ret (ok_or (checked_add (logical_bytes result) bytes)
        (Msg "recursive extraction byte count overflows" [])) in
      fs_ret (Ok ({| files := files; directories := directories result; logical_bytes := logical_bytes;
                     skipped_entries := skipped_entries result |}, stack))
    else
      let* skipped := fs_ret (add (skipped_entries result) 1) in
      fs_ret (Ok ({| files := files result; directories := directories result; logical_bytes := logical_bytes result;
                     skipped_entries := skipped |}, stack)).

Fixpoint tree_entries (dir : todo) (s : RecursiveExtraction * list todo) (entries : list DirectoryEntry)
  : fs_m (RecursiveExtraction * list todo) :=
  match entries with
  | [] => fs_ret (Ok s)
  | entry :: entries => let* s := tree_entry dir s entry in tree_entries dir s entries
  end.

(** Every directory pushed counts towards the limit, so the limit bounds the rounds. *)
Fixpoint tree_loop (fuel : nat) (s : RecursiveExtraction * list todo) : fs_m RecursiveExtraction :=
  match s.2 with
  | [] => fs_ret (Ok s.1)
  | dir :: stack =>
      match fuel with
      | O => fs_ret OutOfFuel
      | S fuel =>
          if MAX_TREE_DEPTH <? td_depth dir then
            fs_ret (Err (Msg "backup directory tree exceeds the {MAX_TREE_DEPTH}-level safety limit" [MAX_TREE_DEPTH]))
          else
            let* entries := fs_ret (list_ (td_source dir)) in
            let* s := tree_entries dir (s.1, stack) entries in
            tree_loop fuel s
      end
  end.

Definition stage_tree (source_root : list Z) (staged_root : path) : fs_m RecursiveExtraction :=
  let* _ := create_dir staged_root in
  tree_loop (Z.to_nat MAX_TREE_ENTRIES)
    ({| files := 0; directories := 1; logical_bytes := 0; skipped_entries := 0 |},
     [{| td_source := source_root; td_target := staged_root; td_depth := 0 |}]).

(** The staged tree takes the destination's place; where it cannot, what was set
    aside goes back. *)
Definition replace_destination (previous staged_root destination : path) : fs_m unit :=
  fs_catch (rename staged_root destination) (fun _ => fs_ret (Ok tt)) (fun error =>
    let* aside := path_exists previous in
    let* _ := if aside : bool then fs_ignore (rename previous destination) else fs_ret (Ok tt) in
    fs_context "publishing recovered directory {}" (fs_ret (Err error))).

Definition publish_tree (staging staged_root destination : path) (result : RecursiveExtraction) : fs_m RecursiveExtraction :=
  let previous := path_join staging (bytes_of_string "previous") in
  let* existing := path_exists destination in
  let* _ := if existing : bool
    then fs_context "staging existing destination {} for replacement" (rename destination previous)
    else fs_ret (Ok tt) in
  let* _ := replace_destination previous staged_root destination in
  let* aside := path_exists previous in
  let* _ := if aside : bool then remove_staged_path previous else fs_ret (Ok tt) in
  fs_ret (Ok result).

(** The destination is a name in a directory: [parent] and its default ["."] are
    the directory. *)
Definition extract_directory_tree (source_root : list Z) (parent : path) (destination_name : name) (force : bool)
  : fs_m RecursiveExtraction :=
  let destination := destination_name :: parent in
  let* existing := path_exists destination in
  if existing && negb force then fs_ret (Err (Msg "destination {} already exists (pass --force to replace it)" []))
  else
    let* _ := fs_context "creating destination parent {}" (create_dir_all parent) in
    let* staging := fs_context "creating extraction staging directory in {}" (make_temp ".zfse-tree-" parent create_dir) in
    drop_after (remove_dir_all staging) (
      let staged_root := path_join staging (bytes_of_string "recovered") in
      let* result := stage_tree source_root staged_root in
      publish_tree staging staged_root destination result).
End extraction.
End tree.
