(* ===== verification/TreeFacts.v ===== *)
(** The staged tree: what a source directory shows, that the loop of the extraction
    builds it, entry by entry, and how it is published: the renames, the rollback,
    the drop of the staging directory, and what the whole extraction leaves on
    success and on failure. *)

From stdpp Require Import sorting.
From S2P Require Import Prelude Bytes Utf8 Stream StreamFacts Compression NvList Encrypted EncryptedDnode Paths Snapshots.
From S2P Require Import Selected ObjectIndex Resolve Image DiskImage Partitions Volumes HostFs Tree.
#[local] Open Scope Z_scope.
#[local] Open Scope zse_scope.

(** ** Names *)

Lemma components_one name : name <> [] -> SLASH ∉ name -> components name = [name].
Proof. intros Hne Hs. unfold components. rewrite split_on_clean by done. by destruct name. Qed.

Lemma validate_component_Ok windows name :
  validate_component windows name = Ok tt -> name <> [] /\ is_dots name = false /\ SLASH ∉ name /\ 0 ∉ name.
Proof.
  unfold validate_component. destruct (_ || _) eqn:Hb; [done|]. intros _. b2p.
  repeat match goal with Hx : bool_decide _ = false |- _ => apply bool_decide_eq_false in Hx end. by destruct name.
Qed.

(** A valid name stays in the directory it is joined to. *)
Lemma path_join_valid directory name :
  name <> [] -> is_dots name = false -> SLASH ∉ name -> path_join directory name = name :: directory.
Proof.
  intros Hne Hdots Hs. unfold path_join. rewrite components_one by done. apply orb_false_iff in Hdots as [Hdot Hup]. cbn [foldl].
  destruct name as [|b name]; [done|]. assert (b <> SLASH) as Hb by (intros ->; apply Hs; left).
  rewrite (proj2 (Z.eqb_neq b SLASH) Hb). by rewrite Hdot, Hup.
Qed.

Lemma wp_validate_component windows name : safe (validate_component windows name).
Proof.
  unfold validate_component, validate_windows. repeat case_match; by cbn.
Qed.

(** ** What a source directory shows *)

Section tree.
Context `{Faults}.
Variable windows : bool.
Variable list_ : list Z -> result (list DirectoryEntry).
Variable extract : list Z -> path -> fs_m Z.
(** The bytes of a source file. *)
Variable content : list Z -> option (list Z).

(** [shows source r n]: below the directory [source], at the path [r], is [n]. *)
Inductive shows : list Z -> path -> Node -> Prop :=
| shows_here source : shows source [] NDir
| shows_file source entries entry bytes :
    list_ source = Ok entries -> entry ∈ entries -> de_dirent_type entry = 8 ->
    content (source_child source (de_name entry)) = Some bytes -> shows source [de_name entry] (NFile bytes)
| shows_dir source entries entry r n :
    list_ source = Ok entries -> entry ∈ entries -> de_dirent_type entry = 4 ->
    shows (source_child source (de_name entry)) r n -> shows source (r ++ [de_name entry]) n.

(** What one entry shows. *)
Definition entry_shows (source : list Z) (entry : DirectoryEntry) (r : path) (n : Node) : Prop :=
  (de_dirent_type entry = 8 /\ r = [de_name entry] /\
    exists bytes, content (source_child source (de_name entry)) = Some bytes /\ n = NFile bytes) \/
  (de_dirent_type entry = 4 /\ exists r', r = r' ++ [de_name entry] /\ shows (source_child source (de_name entry)) r' n).

Lemma shows_entries source entries r n :
  list_ source = Ok entries -> (shows source r n /\ r <> [] <-> exists entry, entry ∈ entries /\ entry_shows source entry r n).
Proof.
  intros Hl. split.
  - intros [Hs Hr]. destruct Hs as [|source entries' entry bytes Hl' Hin Ht Hc|source entries' entry r n Hl' Hin Ht Hs]; [done|..].
    + assert (entries' = entries) as -> by congruence. exists entry. split; [done|]. left. eauto.
    + assert (entries' = entries) as -> by congruence. exists entry. split; [done|]. right. eauto.
  - intros (entry & Hin & [(Ht & -> & bytes & Hc & ->)|(Ht & r' & -> & Hs)]).
    + split; [by eapply shows_file|done].
    + split; [by eapply shows_dir|]. by destruct r'.
Qed.

Lemma shows_nil source n : shows source [] n <-> n = NDir.
Proof.
  split; [|intros ->; constructor]. inversion 1 as [| |? ? ? r ? ? ? ? ? Hr]; [done|]. by destruct r.
Qed.

(** What an extraction of one file into a directory must do: make the target with
    the file's bytes, or fail with changes in the directory only. *)
Definition extract_ok : Prop :=
  forall source x d h, store_wf (h_store h) -> h_store h !! d = Some NDir ->
    fs_wp (extract source (x :: d)) h
      (fun _ h' => h_store h !! (x :: d) = None /\
        exists bytes, content source = Some bytes /\ h_store h' = <[x :: d := NFile bytes]> (h_store h))
      (fun h' => forall q, ~ under d q -> h_store h' !! q = h_store h !! q).

(** ** The loop *)

Section stage.
Hypothesis Hlist : forall source, safe (list_ source).
Hypothesis Hextract : extract_ok.
(** The store before, the staged root, the source's. *)
Variables (before : store) (root : path) (source_root : list Z).

Definition framed (st : store) : Prop := forall q, ~ under root q -> st !! q = before !! q.

(** What the source shows is in the store, or still to come. *)
Definition stage_inv (st : store) (to_come : path -> Node -> Prop) : Prop :=
  store_wf st /\ framed st /\
  forall r n, shows source_root r n <-> st !! (r ++ root) = Some n \/ to_come r n.

Definition item_ok (st : store) (item : todo) : Prop :=
  under root (td_target item) /\ st !! td_target item = Some NDir /\ 0 <= td_depth item <= MAX_TREE_DEPTH + 1.

Lemma items_insert st (p : path) n stack : st !! p = None -> Forall (item_ok st) stack -> Forall (item_ok (<[p := n]> st)) stack.
Proof.
  intros Hp Hs. eapply Forall_impl; [exact Hs|]. intros item (Hu & Hd & ?). split; [done|]. split; [|done]. rewrite lookup_insert_ne; [done|]. congruence.
Qed.

Definition pending (stack : list todo) (r : path) (n : Node) : Prop :=
  exists item tr r', item ∈ stack /\ td_target item = tr ++ root /\ r = r' ++ tr /\ r' <> [] /\ shows (td_source item) r' n.

Definition entries_pending (dir : todo) (tr : path) (entries : list DirectoryEntry) (r : path) (n : Node) : Prop :=
  exists entry r', entry ∈ entries /\ r = r' ++ tr /\ entry_shows (td_source dir) entry r' n.

Definition count (result : RecursiveExtraction) : Z := files result + directories result + skipped_entries result.

Definition counts_ok (result : RecursiveExtraction) : Prop :=
  0 <= files result /\ 0 <= directories result /\ 0 <= skipped_entries result /\ count result <= MAX_TREE_ENTRIES.

Lemma tree_total_count result : counts_ok result -> tree_total result = count result.
Proof. unfold counts_ok, count, tree_total, saturating_add, MAX_TREE_ENTRIES. lia. Qed.

Lemma framed_insert st (p : path) n : framed st -> under root p -> framed (<[p := n]> st).
Proof. intros Hf Hp q Hq. rewrite lookup_insert_ne; [by apply Hf|]. by intros <-. Qed.

(** A node put at a free place, of all that is to come. *)
Lemma stage_inv_insert st (p : path) x node (to_come to_come' : path -> Node -> Prop) :
  stage_inv st to_come -> st !! (x :: p ++ root) = None -> st !! (p ++ root) = Some NDir ->
  (forall r n, to_come r n <-> (r = x :: p /\ n = node) \/ to_come' r n) ->
  stage_inv (<[x :: p ++ root := node]> st) to_come'.
Proof.
  intros (Hwf & Hf & Hshow) Hx Hd Hto. split; [by apply wf_insert|]. split.
  { apply framed_insert; [done|]. by exists (x :: p). }
  intros r n. rewrite Hshow, Hto. destruct (decide (r = x :: p)) as [->|Hne].
  - change ((x :: p) ++ root) with (x :: p ++ root). rewrite Hx, lookup_insert_eq. naive_solver.
  - rewrite lookup_insert_ne; [naive_solver|]. intros He. apply (app_inv_tail root (x :: p)) in He. naive_solver.
Qed.

(** *** What is to come of an entry *)

Lemma entries_pending_cons dir tr entry entries r n :
  entries_pending dir tr (entry :: entries) r n <->
    (exists r', r = r' ++ tr /\ entry_shows (td_source dir) entry r' n) \/ entries_pending dir tr entries r n.
Proof. unfold entries_pending. setoid_rewrite elem_of_cons. naive_solver. Qed.

Lemma pending_cons item stack tr r n :
  td_target item = tr ++ root ->
  (pending (item :: stack) r n <->
    (exists r', r = r' ++ tr /\ r' <> [] /\ shows (td_source item) r' n) \/ pending stack r n).
Proof.
  intros Ht. unfold pending. setoid_rewrite elem_of_cons. split.
  - intros (item' & t & r' & [->|Hin] & Ht' & -> & Hr & Hs); [left|right; exists item', t, r'; tauto].
    rewrite Ht in Ht'. apply app_inv_tail in Ht' as <-. eauto.
  - intros [(r' & -> & Hr & Hs)|(item' & t & r' & Hin & Hrest)]; [exists item, tr, r'; tauto|exists item', t, r'; tauto].
Qed.

Lemma directory_to_come source entry tr r n :
  de_dirent_type entry = 4 ->
  ((exists r', r = r' ++ tr /\ entry_shows source entry r' n) <->
    (r = de_name entry :: tr /\ n = NDir) \/
    exists r', r = r' ++ de_name entry :: tr /\ r' <> [] /\ shows (source_child source (de_name entry)) r' n).
Proof.
  intros H4. split.
  - intros (r' & -> & [[? _]|(_ & r'' & -> & Hs)]); [congruence|]. rewrite <- app_assoc. cbn [app].
    destruct r'' as [|y r'']; [left; by apply shows_nil in Hs as ->|right; by exists (y :: r'')].
  - intros [[-> ->]|(r' & -> & Hr' & Hs)].
    + exists [de_name entry]. split; [done|]. right. split; [done|]. exists []. split; [done|]. constructor.
    + exists (r' ++ [de_name entry]). rewrite <- app_assoc. split; [done|]. right. eauto.
Qed.

Lemma file_to_come source entry tr body r n :
  de_dirent_type entry = 8 -> content (source_child source (de_name entry)) = Some body ->
  ((exists r', r = r' ++ tr /\ entry_shows source entry r' n) <-> (r = de_name entry :: tr /\ n = NFile body)).
Proof.
  intros H8 Hbody. split.
  - intros (r' & -> & [(_ & -> & body' & Hb & ->)|[? _]]); [|congruence]. split; [done|]. congruence.
  - intros [-> ->]. exists [de_name entry]. split; [done|]. left. eauto.
Qed.

(** *** A step

    The state of the loop over the entries of [dir], whose target is [tr] below the
    root. *)
Definition entries_inv (dir : todo) (tr : path) (entries : list DirectoryEntry) (s : RecursiveExtraction * list todo) (h : host) : Prop :=
  Forall (item_ok (h_store h)) s.2 /\ h_store h !! (tr ++ root) = Some NDir /\ counts_ok s.1 /\
  stage_inv (h_store h) (fun r n => pending s.2 r n \/ entries_pending dir tr entries r n).

Lemma directory_step dir tr result stack entry entries h :
  0 <= td_depth dir <= MAX_TREE_DEPTH -> count result < MAX_TREE_ENTRIES -> de_dirent_type entry = 4 ->
  h_store h !! (de_name entry :: tr ++ root) = None -> h_store h !! (tr ++ root) = Some NDir ->
  entries_inv dir tr (entry :: entries) (result, stack) h ->
  entries_inv dir tr entries
    ({| files := files result; directories := directories result + 1; logical_bytes := logical_bytes result;
        skipped_entries := skipped_entries result |},
     {| td_source := source_child (td_source dir) (de_name entry); td_target := de_name entry :: tr ++ root;
        td_depth := td_depth dir + 1 |} :: stack)
    (after (<[de_name entry :: tr ++ root := NDir]> (h_store h)) h).
Proof.
  intros Hdepth Hlt H4 Hfree Hdir (Hstack & _ & Hcount & Hinv). unfold counts_ok, count in *. split; [|split; [|split]]; cbn [fst snd h_store after].
  - apply List.Forall_cons; [|by apply items_insert]. split; cbn [td_target td_depth]; [by exists (de_name entry :: tr)|].
    rewrite lookup_insert_eq. unfold MAX_TREE_DEPTH in *. split; [done|lia].
  - rewrite lookup_insert_ne; [done|]. congruence.
  - unfold counts_ok, count. cbn. cbn [fst] in Hcount. lia.
  - eapply stage_inv_insert; [exact Hinv|done..|]. intros r n. cbn [snd]. rewrite entries_pending_cons, directory_to_come by done.
    rewrite (pending_cons _ stack (de_name entry :: tr)) by done. cbn [td_source]. tauto.
Qed.

Lemma tree_entry_step dir tr s entry entries h :
  td_target dir = tr ++ root -> 0 <= td_depth dir <= MAX_TREE_DEPTH -> entries_inv dir tr (entry :: entries) s h ->
  fs_wp (tree_entry windows extract dir s entry) h
    (fun s' h' => entries_inv dir tr entries s' h' /\ count s'.1 = count s.1 + 1 /\ (length s'.2 <= length s.2 + 1)%nat)
    (fun h' => framed (h_store h')).
Proof.
  intros Htr Hdepth Hall. pose proof Hall as (Hstack & Hdirectory & Hcount & Hinv). pose proof Hinv as (Hwf & Hframe & Hshow).
  destruct s as [result stack]. cbn [fst snd] in *. unfold tree_entry. rewrite tree_total_count by done.
  destruct (Z.leb_spec MAX_TREE_ENTRIES (count result)) as [|Hlt]; [by apply fs_wp_ret|].
  apply fs_wp_bind, fs_wp_ret.
  destruct (safe_cases _ (wp_validate_component windows (de_name entry))) as [[[] Hv]|[e Hv]]; rewrite Hv; [cbn [wpe]|done].
  apply validate_component_Ok in Hv as (Hne & Hdots & Hslash & _). cbv zeta. rewrite path_join_valid, Htr by done.
  pose proof Hcount as Hcount'. unfold counts_ok, count, MAX_TREE_ENTRIES in Hcount'.
  destruct (Z.eqb_spec (de_dirent_type entry) 4) as [H4|H4]; [|destruct (Z.eqb_spec (de_dirent_type entry) 8) as [H8|H8]].
  - apply fs_wp_bind, fs_wp_context, fs_wp_create_dir; [done|]. intros Hfree Hdir.
    apply fs_wp_bind, fs_wp_ret. unfold add. rewrite (proj2 (Z.leb_le (directories result + 1) _)) by lia. cbn [wpe].
    apply fs_wp_bind, fs_wp_ret. rewrite (proj2 (Z.leb_le (td_depth dir + 1) _)) by (unfold MAX_TREE_DEPTH in *; lia). cbn [wpe].
    apply fs_wp_ret. cbn [wpe fst snd length]. split; [by apply directory_step|]. unfold count. cbn. lia.
  - apply fs_wp_bind, fs_wp_context. eapply fs_wp_mono; [| |by apply Hextract].
    2: { intros h' Hsame q Hq. rewrite Hsame; [by apply Hframe|]. intros Hq'. apply Hq. etrans; [|exact Hq']. by exists tr. }
    intros bytes h' (Hfree & body & Hbody & Hst).
    assert (stage_inv (h_store h') (fun r n => pending stack r n \/ entries_pending dir tr entries r n)) as Hinv'.
    { rewrite Hst. eapply stage_inv_insert; [exact Hinv|done..|]. intros r n. cbn [snd]. rewrite entries_pending_cons, file_to_come by done. tauto. }
    apply fs_wp_bind, fs_wp_ret. unfold add. rewrite (proj2 (Z.leb_le (files result + 1) _)) by lia. cbn [wpe].
    apply fs_wp_bind, fs_wp_ret. destruct (checked_add _ _) as [total|]; cbn [ok_or wpe].
    2: { by destruct Hinv' as (_ & ? & _). }
    apply fs_wp_ret. cbn [wpe fst snd]. split; [|unfold count; cbn; lia]. split; [cbn [snd]; rewrite Hst; by apply items_insert|].
    split; [rewrite Hst, lookup_insert_ne by congruence; done|]. split; [|done].
    unfold counts_ok, count, MAX_TREE_ENTRIES in *. cbn. lia.
  - apply fs_wp_bind, fs_wp_ret. unfold add. rewrite (proj2 (Z.leb_le (skipped_entries result + 1) _)) by lia. cbn [wpe].
    apply fs_wp_ret. cbn [wpe fst snd]. split; [|unfold count; cbn; lia]. split; [done|]. split; [done|].
    split; [unfold counts_ok, count, MAX_TREE_ENTRIES in *; cbn; lia|]. split; [done|]. split; [done|]. intros r n.
    rewrite Hshow, entries_pending_cons. cbn [snd].
    assert (~ exists r', r = r' ++ tr /\ entry_shows (td_source dir) entry r' n) by (intros (r' & _ & [[? _]|[? _]]); congruence). tauto.
Qed.

Lemma tree_entries_steps dir tr s entries h :
  td_target dir = tr ++ root -> 0 <= td_depth dir <= MAX_TREE_DEPTH -> entries_inv dir tr entries s h ->
  fs_wp (tree_entries windows extract dir s entries) h
    (fun s' h' => entries_inv dir tr [] s' h' /\ count s.1 <= count s'.1 /\
      Z.of_nat (length s'.2) - count s'.1 <= Z.of_nat (length s.2) - count s.1)
    (fun h' => framed (h_store h')).
Proof.
  intros Htr Hdepth. revert s h. induction entries as [|entry entries IH]; intros s h Hinv; cbn [tree_entries].
  { apply fs_wp_ret. cbn [wpe]. split; [done|lia]. }
  apply fs_wp_bind. eapply fs_wp_mono; [| |by eapply tree_entry_step]; [|done].
  intros s1 h1 (Hinv1 & Hc1 & Hl1). eapply fs_wp_mono; [| |by apply IH]; [|done]. intros s2 h2 (Hinv2 & Hc2 & Hl2). split; [done|lia].
Qed.

(** Rounds that suffice: what the limit leaves, and what is on the stack. *)
Lemma tree_loop_builds fuel s h :
  Forall (item_ok (h_store h)) s.2 -> counts_ok s.1 -> stage_inv (h_store h) (pending s.2) ->
  MAX_TREE_ENTRIES - count s.1 + Z.of_nat (length s.2) <= Z.of_nat fuel ->
  fs_wp (tree_loop windows list_ extract fuel s) h
    (fun _ h' => stage_inv (h_store h') (fun _ _ => False)) (fun h' => framed (h_store h')).
Proof.
  revert s h. induction fuel as [|fuel IH]; intros [result stack] h Hstack Hcount Hinv Hfuel; cbn [fst snd] in *;
    (destruct stack as [|dir stack]; cbn [tree_loop fst snd];
      [apply fs_wp_ret; destruct Hinv as (? & ? & Hs); split; [done|]; split; [done|]; intros r n; rewrite Hs; unfold pending; set_solver|]).
  - unfold counts_ok in Hcount. cbn [length] in Hfuel. lia.
  - inversion Hstack as [|? ? ([tr Htr] & Hdir & Hd) Hstack']; subst. pose proof Hinv as (Hwf & Hframe & Hshow).
    destruct (Z.ltb_spec MAX_TREE_DEPTH (td_depth dir)); [by apply fs_wp_ret|].
    apply fs_wp_bind, fs_wp_ret. destruct (safe_cases _ (Hlist (td_source dir))) as [[entries Hl]|[e Hl]]; rewrite Hl; [cbn [wpe]|done].
    apply fs_wp_bind. eapply fs_wp_mono; [| |apply (tree_entries_steps dir tr)]; [|done|done|lia|].
    + intros [result' stack'] h' ((Hst' & _ & Hc' & Hinv') & Hle & Hlen). cbn [fst snd] in *. apply IH; [done|done| |cbn [fst snd]; cbn [length] in Hfuel; lia].
      destruct Hinv' as (? & ? & Hs). split; [done|]. split; [done|]. intros r n. rewrite Hs. unfold entries_pending. set_solver.
    + split; [done|]. split; [by rewrite <- Htr|]. split; [done|]. cbn [snd]. split; [done|]. split; [done|]. intros r n. rewrite Hshow, (pending_cons _ _ tr) by done.
      assert ((exists r', r = r' ++ tr /\ r' <> [] /\ shows (td_source dir) r' n) <-> entries_pending dir tr entries r n) as ->; [|tauto].
      unfold entries_pending. split.
      * intros (r' & -> & Hr & Hs). destruct (proj1 (shows_entries _ _ r' n Hl) (conj Hs Hr)) as (entry & ? & ?). eauto.
      * intros (entry & r' & Hin & -> & Hs). destruct (proj2 (shows_entries _ _ r' n Hl) (ex_intro _ entry (conj Hin Hs))). eauto.
Qed.
End stage.
End tree.

(** No call is refused; at most one is. *)
Definition no_fault `{Faults} : Prop := forall c, fault c = false.
Definition single_fault `{Faults} : Prop := forall c c', fault c = true -> fault c' = true -> c = c'.

Section tree.
Context `{Faults} `{TempNamesLaws}.
Variable windows : bool.
Variable list_ : list Z -> result (list DirectoryEntry).
Variable extract : list Z -> path -> fs_m Z.
Variable content : list Z -> option (list Z).
Hypothesis Hlist : forall source, safe (list_ source).
Hypothesis Hextract : extract_ok extract content.

Abbreviation shows := (shows list_ content).

(** ** Staging *)

Lemma stage_tree_builds source_root x d h :
  store_wf (h_store h) ->
  fs_wp (stage_tree windows list_ extract source_root (x :: d)) h
    (fun _ h' => stage_inv list_ content (h_store h) (x :: d) source_root (h_store h') (fun _ _ => False))
    (fun h' => framed (h_store h) (x :: d) (h_store h')).
Proof.
  intros Hwf. unfold stage_tree. apply fs_wp_bind, fs_wp_create_dir; [done|]. intros Hfree Hdir.
  eapply fs_wp_mono; [| |apply (tree_loop_builds windows list_ extract content Hlist Hextract (h_store h) (x :: d) source_root)]; [done|done|..].
  - apply List.Forall_cons; [|done]. split; cbn [td_target td_depth h_store after]; [done|]. rewrite lookup_insert_eq. unfold MAX_TREE_DEPTH. split; [done|lia].
  - unfold counts_ok, count, MAX_TREE_ENTRIES. cbn. lia.
  - cbn [snd h_store after]. split; [by apply wf_insert|]. split.
    + intros q Hq. rewrite lookup_insert_ne; [done|]. by intros <-.
    + intros r n. rewrite (pending_cons list_ content (x :: d) _ [] []) by done. cbn [td_source]. setoid_rewrite app_nil_r.
      assert (~ pending list_ content (x :: d) [] r n) by (intros (? & ? & ? & Hin & _); by apply elem_of_nil in Hin).
      destruct r as [|y r].
      * rewrite shows_nil. cbn [app]. rewrite lookup_insert_eq. naive_solver.
      * assert (<[x :: d := NDir]> (h_store h) !! ((y :: r) ++ x :: d) = None) as ->.
        { rewrite lookup_insert_ne by (intros He; apply (f_equal length) in He; rewrite length_app in He; cbn in He; lia).
          apply (wf_free _ (x :: d)); [done|done|by eexists]. }
        naive_solver.
  - cbn [fst snd length]. unfold count. cbn [files directories skipped_entries]. rewrite Z2Nat.id by (unfold MAX_TREE_ENTRIES; lia). lia.
Qed.

(** ** Publishing *)

Section publish.
Variables (parent : path) (tn dn : name) (source_root : list Z).
Hypothesis Hnames : dn <> tn.
Abbreviation staging := (tn :: parent).
Abbreviation destination := (dn :: parent).
Definition RECOVERED : name := bytes_of_string "recovered".
Definition PREVIOUS : name := bytes_of_string "previous".

(** Away from the destination and the staging directory nothing changes. *)
Definition outside (st st' : store) : Prop := forall q, ~ under destination q -> ~ under staging q -> st' !! q = st !! q.
Definition same_destination (st st' : store) : Prop := forall r, st' !! (r ++ destination) = st !! (r ++ destination).
Definition recovered (st : store) : Prop := forall r n, st !! (r ++ destination) = Some n <-> shows source_root r n.

(** The store when publishing starts. *)
Definition staged (st : store) : Prop :=
  store_wf st /\ st !! staging = Some NDir /\ (forall q, under (PREVIOUS :: staging) q -> st !! q = None) /\
  forall r n, st !! (r ++ RECOVERED :: staging) = Some n <-> shows source_root r n.

Definition published (st st' : store) : Prop := recovered st' /\ outside st st' /\ st' !! staging = Some NDir.

(** What a failure leaves: the old destination or the new one; the old one where it
    is not the system that failed. *)
Definition kept (st st' : store) : Prop :=
  (single_fault -> same_destination st st' \/ recovered st') /\ (no_fault -> same_destination st st').
Definition refused (st st' : store) : Prop := outside st st' /\ kept st st'.

Lemma kept_same st st' : same_destination st st' -> kept st st'.
Proof. split; auto. Qed.

Lemma apart (a b : name) (x y r : path) (d : path) : a <> b -> r = x ++ a :: d -> r = y ++ b :: d -> False.
Proof.
  intros Hab -> He. assert (length x = length y) by (apply (f_equal length) in He; rewrite !length_app in He; cbn in He; lia).
  apply app_inj_1 in He as [_ [= ?]]; done.
Qed.

Lemma not_under_sibling (a b : name) (d : path) : a <> b -> forall q, under (a :: d) q -> ~ under (b :: d) q.
Proof. intros Hab q [x Hx] [y Hy]. by eapply apart. Qed.

Lemma under_child x (d q : path) : under (x :: d) q -> under d q.
Proof. intros [r ->]. exists (r ++ [x]). by rewrite <- app_assoc. Qed.

Lemma not_under_own_child x (d : path) : ~ under (x :: d) d.
Proof. intros Hs%suffix_length. cbn in Hs. lia. Qed.

Hint Resolve under_child not_under_own_child : core.

(** A removal inside the staging directory keeps what is published. *)
Lemma published_without st st' st'' :
  published st st' -> (forall q, ~ under (PREVIOUS :: staging) q -> st'' !! q = st' !! q) -> published st st''.
Proof.
  intros (Hr & Ho & Hs) Hsame. split; [|split].
  - intros r n. rewrite Hsame; [done|]. intros Hu%under_child. eapply not_under_sibling; [|exact Hu|by exists r]. done.
  - intros q Hd Ht. rewrite Hsame; [by apply Ho|]. intros Hu. apply Ht. by eapply under_child.
  - rewrite Hsame; [done|]. apply not_under_own_child.
Qed.

Lemma under_previous q : under (PREVIOUS :: staging) q -> under staging q.
Proof. apply under_child. Qed.

Lemma under_recovered q : under (RECOVERED :: staging) q -> under staging q.
Proof. apply under_child. Qed.

Lemma destination_apart q : under destination q -> ~ under staging q.
Proof. by apply not_under_sibling. Qed.

(** *** The three renames *)

Lemma set_aside st st1 :
  staged st -> rename_in destination (PREVIOUS :: staging) st = Ok st1 ->
  (forall r, st1 !! (r ++ PREVIOUS :: staging) = st !! (r ++ destination)) /\ (forall q, under destination q -> st1 !! q = None) /\
  (forall q, ~ under destination q -> ~ under (PREVIOUS :: staging) q -> st1 !! q = st !! q).
Proof.
  intros (_ & _ & Hfree & _). apply rename_moves; [done|..].
  - intros Hu. eapply destination_apart; [exact Hu|]. by apply under_previous.
  - intros Hu%under_previous. by eapply destination_apart.
Qed.

Lemma put_back st st1 st2 :
  staged st -> rename_in destination (PREVIOUS :: staging) st = Ok st1 ->
  rename_in (PREVIOUS :: staging) destination st1 = Ok st2 -> same_destination st st2 /\ outside st st2.
Proof.
  intros Hst Hr1 Hr2. destruct (set_aside _ _ Hst Hr1) as (Hm & Hgone & Hkeep).
  apply rename_moves in Hr2 as (Hm2 & _ & Hkeep2); [|done| |].
  - split; [intros r; by rewrite Hm2, Hm|]. intros q Hd Hs. rewrite Hkeep2; [|by intros ?%under_previous|done].
    apply Hkeep; [done|by intros ?%under_previous].
  - intros Hu%under_previous. by eapply destination_apart.
  - intros Hu. eapply destination_apart; [exact Hu|]. by apply under_previous.
Qed.

(** [st1] is the staged store, or that with the destination set aside. *)
Lemma put_in_place st st1 st2 :
  staged st -> (forall q, under destination q -> st1 !! q = None) ->
  (forall q, ~ under destination q -> ~ under (PREVIOUS :: staging) q -> st1 !! q = st !! q) ->
  rename_in (RECOVERED :: staging) destination st1 = Ok st2 ->
  published st st2 /\ st2 !! (PREVIOUS :: staging) = st1 !! (PREVIOUS :: staging).
Proof.
  intros (_ & Hdir & _ & Hrec) Hgone Hkeep Hr. apply rename_moves in Hr as (Hm & _ & Hkeep2); [|done| |].
  - assert (forall q, under (PREVIOUS :: staging) q -> ~ under (RECOVERED :: staging) q) as Hsib by (by apply not_under_sibling).
    assert (forall q, under (RECOVERED :: staging) q -> ~ under (PREVIOUS :: staging) q) as Hsib' by (by apply not_under_sibling).
    split; [split; [|split]|].
    + intros r n. rewrite Hm, Hkeep; [done|intros Hu; eapply destination_apart; [exact Hu|apply under_recovered; by exists r]|].
      apply Hsib'. by exists r.
    + intros q Hd Hs. rewrite Hkeep2; [|by intros ?%under_recovered|done]. apply Hkeep; [done|by intros ?%under_previous].
    + rewrite Hkeep2; [|apply not_under_own_child|by intros Hu%destination_apart].
      rewrite Hkeep; [done|by intros Hu%destination_apart|apply not_under_own_child].
    + apply Hkeep2; [by apply Hsib|]. intros Hu%destination_apart. by apply Hu, under_previous.
  - intros Hu%under_recovered. by eapply destination_apart.
  - intros Hu. eapply destination_apart; [exact Hu|]. by apply under_recovered.
Qed.

Lemma fs_wp_remove_staged p h (P : unit -> host -> Prop) (E : host -> Prop) :
  is_Some (h_store h !! p) ->
  (forall h', (forall q, ~ under p q -> h_store h' !! q = h_store h !! q) -> P tt h' /\ (~ no_fault -> E h')) ->
  fs_wp (remove_staged_path p) h P E.
Proof.
  intros [node Hp] HPE. unfold remove_staged_path. apply fs_wp_bind, fs_wp_metadata. rewrite Hp.
  assert (fault (h_clock h) = true -> ~ no_fault) as Hfault by (intros Hf Hno; by rewrite Hno in Hf).
  unfold no_fault in *. destruct node; apply fs_wp_context.
  - unfold fs_wp, remove_dir_all, is_dir. rewrite bool_decide_true by done. destruct (fault _) eqn:Hf.
    + apply HPE; [|by apply Hfault]. intros q Hq. cbn [h_store]. rewrite map_lookup_filter. destruct (h_store h !! q); cbn; [|done].
      by rewrite option_guard_True by auto.
    + apply HPE. intros q Hq. cbn [h_store]. by rewrite lookup_without, decide_False.
  - unfold fs_wp, remove_file, call, remove_file_in. rewrite Hp. destruct (fault _) eqn:Hf; [by apply HPE; [|apply Hfault]|].
    apply HPE. intros q Hq. cbn [h_store]. rewrite lookup_delete_ne; [done|]. by intros <-.
  - unfold fs_wp, remove_file, call, remove_file_in. rewrite Hp. destruct (fault _) eqn:Hf; [by apply HPE; [|apply Hfault]|].
    apply HPE. intros q Hq. cbn [h_store]. rewrite lookup_delete_ne; [done|]. by intros <-.
Qed.

(** *** The whole *)

(** The replacement, the destination set aside or not there. *)
Lemma replace_destination_spec st h (aside : bool) :
  staged st -> st !! parent = Some NDir ->
  (if aside then rename_in destination (PREVIOUS :: staging) st = Ok (h_store h) else h_store h = st /\ st !! destination = None) ->
  fs_wp (replace_destination (PREVIOUS :: staging) (RECOVERED :: staging) destination) h
    (fun _ h' => published st (h_store h')) (fun h' => refused st (h_store h')).
Proof.
  intros Hst Hparent Haside. pose proof Hst as (Hwf & Hdir & Hprev & Hrec).
  assert ((forall q, under destination q -> h_store h !! q = None) /\
    (forall q, ~ under destination q -> ~ under (PREVIOUS :: staging) q -> h_store h !! q = st !! q)) as [Hgone Hkeep].
  { destruct aside; [by destruct (set_aside _ _ Hst Haside)|]. destruct Haside as [-> Hfree]. split; [|done].
    intros q Hq. by eapply wf_free. }
  assert (h_store h !! (RECOVERED :: staging) = Some NDir) as Hsrc.
  { rewrite Hkeep; [apply (Hrec [] NDir), shows_nil; done| |].
    - intros Hu%destination_apart. by apply Hu, under_recovered.
    - by apply not_under_sibling with (a := RECOVERED). }
  assert (h_store h !! parent = Some NDir) as Hpar.
  { rewrite Hkeep; [done|apply not_under_own_child|]. intros Hu%under_previous. by apply not_under_own_child in Hu. }
  unfold replace_destination. apply fs_wp_catch, fs_wp_rename.
  - intros Hbad e. assert (fault (h_clock h) = true) as Hfault.
    { destruct Hbad as [|Hno]; [done|]. destruct (rename_possible (RECOVERED :: staging) destination (h_store h)) as [st2 Hst2];
        [by rewrite Hsrc|by apply Hgone|done|done| |by destruct (Hno st2)]. intros Hu%under_recovered. by eapply destination_apart. }
    apply fs_wp_bind, fs_wp_exists. cbn [h_store after].
    destruct aside.
    + destruct (set_aside _ _ Hst Haside) as (Hm & _ & _). specialize (Hm []). cbn [app] in Hm.
      rewrite bool_decide_true by (rewrite Hm; by eapply rename_source).
      apply fs_wp_bind, fs_wp_ignore, fs_wp_rename; intros.
      * apply fs_wp_context, fs_wp_ret. cbn [wpe h_store after h_clock] in *. split; [intros q Hd Hs; apply Hkeep; [done|by intros ?%under_previous]|].
        split; [|intros Hno; by rewrite Hno in Hfault]. intros Hsingle. exfalso. match goal with Hb : _ \/ _ |- _ => destruct Hb as [Hf|Hno] end; [specialize (Hsingle _ _ Hfault Hf); lia|].
        destruct (rename_possible (PREVIOUS :: staging) destination (h_store h)) as [st2 Hst2];
          [rewrite Hm; by eapply rename_source|by apply Hgone|done|done| |by destruct (Hno st2)]. intros Hu%under_previous. by eapply destination_apart.
      * apply fs_wp_context, fs_wp_ret. cbn [wpe h_store after] in *. destruct (put_back st (h_store h) st0) as [Hsame Hout]; [done..|].
        split; [done|]. by apply kept_same.
    + destruct Haside as [Heq Hfree]. rewrite Heq, (Hprev (PREVIOUS :: staging)) by done. rewrite bool_decide_false by (by intros []).
      apply fs_wp_bind, fs_wp_ret. apply fs_wp_context, fs_wp_ret. cbn [wpe h_store after]. rewrite ?Heq. split; [done|]. by apply kept_same.
  - intros st2 _ Hst2. apply fs_wp_ret. cbn [wpe h_store after]. by destruct (put_in_place st (h_store h) st2).
Qed.

Lemma publish_spec st h result :
  staged st -> st !! parent = Some NDir -> h_store h = st ->
  fs_wp (publish_tree staging (RECOVERED :: staging) destination result) h
    (fun _ h' => published st (h_store h')) (fun h' => refused st (h_store h')).
Proof.
  intros Hst Hparent Hh. unfold publish_tree. cbv zeta.
  change (path_join staging (bytes_of_string "previous")) with (PREVIOUS :: staging).
  assert (forall h' (aside : bool), published st (h_store h') -> (aside = true -> is_Some (h_store h' !! (PREVIOUS :: staging))) ->
    fs_wp (let* _ := if aside : bool then remove_staged_path (PREVIOUS :: staging) else fs_ret (Ok tt) in fs_ret (Ok result)) h'
      (fun _ h'' => published st (h_store h'')) (fun h'' => refused st (h_store h''))) as Hdiscard.
  { intros h' [|] Hp Hx; apply fs_wp_bind; [|by apply fs_wp_ret]. apply fs_wp_remove_staged; [by apply Hx|]. intros h'' Hsame.
    assert (published st (h_store h'')) as (? & ? & ?) by (by eapply published_without). split; [by apply fs_wp_ret|].
    intros Hfault. split; [done|]. split; [auto|done]. }
  assert (forall h' (aside : bool),
    (if aside then rename_in destination (PREVIOUS :: staging) st = Ok (h_store h') else h_store h' = st /\ st !! destination = None) ->
    fs_wp (let* _ := replace_destination (PREVIOUS :: staging) (RECOVERED :: staging) destination in
           let* aside := path_exists (PREVIOUS :: staging) in
           let* _ := if aside : bool then remove_staged_path (PREVIOUS :: staging) else fs_ret (Ok tt) in fs_ret (Ok result)) h'
      (fun _ h'' => published st (h_store h'')) (fun h'' => refused st (h_store h''))) as Hrest.
  { intros h' aside Ha. apply fs_wp_bind. eapply fs_wp_mono; [| |by eapply replace_destination_spec]; [|done].
    intros u h2 Hp. apply fs_wp_bind, fs_wp_exists. apply Hdiscard; [done|]. by intros ?%bool_decide_eq_true. }
  apply fs_wp_bind, fs_wp_exists. rewrite Hh. case_bool_decide as Hex; apply fs_wp_bind.
  - apply fs_wp_context, fs_wp_rename; rewrite Hh.
    + intros _. cbn [h_store after]. split; [done|]. by apply kept_same.
    + intros st1 _ Hr. by apply (Hrest _ true).
  - apply fs_wp_ret. apply (Hrest h false). split; [done|]. by apply eq_None_not_Some.
Qed.
End publish.

(** ** The whole extraction *)

(** The temporary directory is staged, next to the destination. *)
Lemma staged_after_loop parent tn source_root g st :
  store_wf g -> g !! (tn :: parent) = None -> g !! parent = Some NDir ->
  stage_inv list_ content (<[tn :: parent := NDir]> g) (RECOVERED :: tn :: parent) source_root st (fun _ _ => False) ->
  staged parent tn source_root st.
Proof.
  intros Hg Hfree Hpar (Hwf & Hf & Hs). split; [done|]. split; [|split].
  - rewrite Hf by apply not_under_own_child. by rewrite lookup_insert_eq.
  - intros q Hq. rewrite Hf by by apply (not_under_sibling PREVIOUS RECOVERED).
    rewrite lookup_insert_ne; [|intros <-; by apply not_under_own_child in Hq]. by apply (wf_free g (tn :: parent)); [..|by apply (under_child PREVIOUS)].
  - intros r n. rewrite Hs. tauto.
Qed.

(** What is not the destination nor the staging directory stays, but for missing
    parents that are made. *)
Definition settled (parent : path) (tn dn : name) (st st' : store) : Prop :=
  forall q, ~ under (dn :: parent) q -> ~ under (tn :: parent) q ->
    st' !! q = st !! q \/ (under q parent /\ st !! q = None /\ st' !! q = Some NDir).

Lemma grown_below (parent : path) x st st' : grown parent st st' -> forall r, st' !! (r ++ x :: parent) = st !! (r ++ x :: parent).
Proof.
  intros Hg r. destruct (Hg (r ++ x :: parent)) as [?|[Hu _]]; [done|]. apply suffix_length in Hu. rewrite length_app in Hu. cbn in Hu. lia.
Qed.

(** The body that the staging directory lives in. *)
Lemma staged_body_spec parent tn dn source_root g h :
  dn <> tn -> store_wf g -> g !! (tn :: parent) = None -> g !! parent = Some NDir -> h_store h = <[tn :: parent := NDir]> g ->
  fs_wp (let* result := stage_tree windows list_ extract source_root (RECOVERED :: tn :: parent) in
         publish_tree (tn :: parent) (RECOVERED :: tn :: parent) (dn :: parent) result) h
    (fun _ h' => recovered parent dn source_root (h_store h') /\ outside parent tn dn g (h_store h') /\ h_store h' !! (tn :: parent) = Some NDir)
    (fun h' => outside parent tn dn g (h_store h') /\
      kept parent dn source_root g (h_store h')).
Proof.
  intros Hnames Hg Hfree Hpar Hh.
  assert (forall st : store, framed (h_store h) (RECOVERED :: tn :: parent) st -> outside parent tn dn g st /\ same_destination parent dn g st) as Hframed.
  { intros st Hf. rewrite Hh in Hf. split.
    - intros q Hd Ht. rewrite Hf by (intros Hu; by apply Ht, (under_child RECOVERED)). rewrite lookup_insert_ne; [done|]. intros <-. by apply Ht.
    - intros r. assert (~ under (tn :: parent) (r ++ dn :: parent)) as Hout by (apply (not_under_sibling dn tn); [done|by exists r]).
      rewrite Hf by (intros Hu; by apply Hout, (under_child RECOVERED)). rewrite lookup_insert_ne; [done|]. intros He. apply Hout. by rewrite <- He. }
  apply fs_wp_bind. eapply fs_wp_mono; [| |apply stage_tree_builds; rewrite Hh; by apply wf_insert].
  2: { intros h' [? ?]%Hframed. split; [done|]. by apply kept_same. }
  intros result h3 Hinv. pose proof Hinv as (_ & Hf & _). destruct (Hframed _ Hf) as [Hout Hsame]. rewrite Hh in Hinv.
  eapply fs_wp_mono; [| |eapply (publish_spec parent tn dn source_root Hnames (h_store h3) h3 result); [by eapply staged_after_loop| |done]].
  - intros _ h4 (Hrec & Hout4 & Hdir). split; [done|]. split; [|done]. intros q Hd Ht. by rewrite Hout4, Hout.
  - intros h4 [Hout4 Hs]. split; [intros q Hd Ht; by rewrite Hout4, Hout|]. 
    assert (forall st, same_destination parent dn (h_store h3) st -> same_destination parent dn g st) as Htrans
      by (intros st Hs' r; by rewrite Hs', Hsame).
    destruct Hs as [Hs1 Hs2]. split; [|auto]. intros [?|?]%Hs1; auto.
  - rewrite Hout; [done|apply not_under_own_child..].
Qed.

Lemma drop_spec (p : path) h :
  (forall q, ~ under p q -> h_store (remove_dir_all p h).2 !! q = h_store h !! q) /\
  (no_fault -> h_store h !! p = Some NDir -> forall q, under p q -> h_store (remove_dir_all p h).2 !! q = None).
Proof.
  split.
  - intros q Hq. assert (fs_wp (remove_dir_all p) h (fun _ h' => h_store h' !! q = h_store h !! q) (fun h' => h_store h' !! q = h_store h !! q)) as Hw.
    { apply fs_wp_remove_dir_all; [by intros st Hst; apply Hst|]. intros _. cbn [h_store after]. by rewrite lookup_without, decide_False. }
    unfold fs_wp in Hw. by destruct (remove_dir_all p h) as [[] ?].
  - intros Hno Hp q Hq. unfold remove_dir_all, is_dir. rewrite Hno, bool_decide_true by done. cbn [snd h_store].
    by rewrite lookup_without, decide_True.
Qed.

Lemma extraction_spec parent dn source_root force h :
  store_wf (h_store h) -> (forall rest, dn <> bytes_of_string ".zfse-tree-" ++ rest) ->
  fs_wp (extract_directory_tree windows list_ extract source_root parent dn force) h
    (fun _ h' => exists tn, h_store h !! (tn :: parent) = None /\ settled parent tn dn (h_store h) (h_store h') /\
      recovered parent dn source_root (h_store h') /\ (h_store h !! (dn :: parent) = None \/ force = true) /\
      (no_fault -> forall q, under (tn :: parent) q -> h_store h' !! q = None))
    (fun h' => exists tn, h_store h !! (tn :: parent) = None /\ settled parent tn dn (h_store h) (h_store h') /\
      kept parent dn source_root (h_store h) (h_store h')).
Proof.
  intros Hwf Hdn. unfold extract_directory_tree. cbv zeta. apply fs_wp_bind, fs_wp_exists.
  assert (forall st : store, grown parent (h_store h) st -> exists tn, h_store h !! (tn :: parent) = None /\ settled parent tn dn (h_store h) st /\
      kept parent dn source_root (h_store h) st) as Hearly.
  { intros st Hg. exists (temp_name ".zfse-tree-" (h_store h) parent). split; [apply temp_fresh|].
    split; [intros q _ _; apply Hg|]. apply kept_same. intros r. by apply grown_below. }
  destruct (_ && negb force) eqn:Hforce; [apply fs_wp_ret, Hearly; intros q; by left|].
  assert (h_store h !! (dn :: parent) = None \/ force = true) as Hallowed.
  { apply andb_false_iff in Hforce as [Hforce|Hforce]; [left|right; by destruct force].
    by apply bool_decide_eq_false, eq_None_not_Some in Hforce. }
  apply fs_wp_bind, fs_wp_context. eapply fs_wp_mono; [| |by apply create_dir_all_grows].
  2: { intros h1 [_ Hg]. by apply Hearly. }
  intros _ h1 (Hwf1 & Hpar1 & Hg). apply fs_wp_bind, fs_wp_context.
  set (tn := temp_name ".zfse-tree-" (h_store h1) parent).
  assert (h_store h1 !! (tn :: parent) = None) as Hfresh by apply temp_fresh.
  assert (h_store h !! (tn :: parent) = None) as Hfresh0 by (pose proof (grown_below parent tn _ _ Hg []) as He; cbn [app] in He; congruence).
  assert (dn <> tn) as Hnames by (intros ->; destruct (temp_prefixed ".zfse-tree-" (h_store h1) parent) as [rest Hrest]; by eapply Hdn).
  change (fs_wp (make_temp ".zfse-tree-" parent create_dir) h1) with (fs_wp (let* _ := create_dir (tn :: parent) in fs_ret (Ok (tn :: parent))) h1).
  apply fs_wp_bind, fs_wp_create_dir; [by apply Hearly|]. intros _ _. apply fs_wp_ret. cbn [wpe].
  change (path_join (tn :: parent) (bytes_of_string "recovered")) with (RECOVERED :: tn :: parent).
  assert (forall q, under (dn :: parent) q -> ~ under (tn :: parent) q) as Hsib by by apply not_under_sibling.
  apply fs_wp_drop. eapply fs_wp_mono; [| |by apply (staged_body_spec parent tn dn source_root (h_store h1))].
  - intros _ h3 (Hrec & Hout & Hdir). destruct (drop_spec (tn :: parent) h3) as [Hkeep Hclean]. exists tn. split; [done|].
    split; [intros q Hd Ht; rewrite Hkeep, Hout by done; apply Hg|]. split; [|auto].
    intros r n. rewrite Hkeep; [done|]. apply Hsib. by exists r.
  - intros h3 [Hout Hs]. destruct (drop_spec (tn :: parent) h3) as [Hkeep _]. exists tn. split; [done|].
    split; [intros q Hd Ht; rewrite Hkeep, Hout by done; apply Hg|]. 
    assert (same_destination parent dn (h_store h1) (h_store h3) ->
      same_destination parent dn (h_store h) (h_store (remove_dir_all (tn :: parent) h3).2)) as Hsame.
    { intros Hs' r. rewrite Hkeep by (apply Hsib; by exists r). rewrite Hs'. by apply grown_below. }
    destruct Hs as [Hs1 Hs2]. split; [|auto]. intros [?|Hrec]%Hs1; [auto|right].
    intros r n. rewrite Hkeep; [done|]. apply Hsib. by exists r.
Qed.
End tree.
