(* ===== verification/HostExtract.v ===== *)
(** Extraction on the host's file system, src/src/operations.rs: temporary files
    and their rename (lines 1035-1053), one file of a tree (144-202), and a tree
    of a snapshot (204-236). *)

From S2P Require Import Prelude Bytes Utf8 Stream StreamFacts Replay Compression NvList Encrypted.
From S2P Require Import EncryptedDnode Paths Extents Snapshots Selected ObjectIndex Resolve Sparse.
From S2P Require Import Operations.
From S2P Require Import Image DiskImage Partitions Volumes HostFs Tree.

(** ** Definitions *)

Section host.
Context `{Faults} `{TempNames}.

Definition temporary_for (p : path) : fs_m path :=
  let parent := tail p in
  let* _ := create_dir_all parent in
  fs_context "creating temporary file in {}" (make_temp ".tmp" parent create_file).

Definition persist_replace (temporary p : path) (force : bool) : fs_m unit :=
  let* existing := path_exists p in
  if existing && negb force then fs_ret (Err (Msg "{} already exists" []))
  else fs_context "persisting {}: {}" (rename temporary p).

(** A call that reads or flushes: it may be refused, and changes nothing. *)
Definition touch : fs_m unit := call Ok.

(** The temporary file's life: what is computed is written to it, it is flushed and
    renamed; where any of that fails its drop removes it and ignores errors. *)
Definition write_replaced {A} (write : result (list Z * A)) (output : path) (force : bool) : fs_m A :=
  let* temporary := temporary_for output in
  fs_catch (
      let* (bytes, a) := fs_ret write in
      let* _ := write_all temporary bytes in
      let* _ := touch in
      let* _ := persist_replace temporary output force in
      fs_ret (Ok a))
    (fun a => fs_ret (Ok a))
    (fun error => let* _ := fs_ignore (remove_file temporary) in fs_ret (Err error)).

Section operations.
Context `{Codecs} `{Crypto} `{Os} `{Digest} `{ZfsCore} {R : Type} `{Read R}.

(** [extract_resolved_snapshot] without a sidecar: the file is written, then read
    again for its digest. *)
Definition extract_resolved_to (fuel : nat) (stream : R) (plan : SnapshotPlan) (index : ObjectIndex) (resolved : ResolvedPath)
    (output : path) (force : bool) (key_material : option (list Z)) : fs_m Sidecar :=
  if negb (Resolve.dirent_type resolved =? 8) then fs_ret (Err (Msg "{} is not a regular file" []))
  else
    let* existing := path_exists output in
    if existing && negb force then fs_ret (Err (Msg "output {} already exists (pass --force to replace it)" []))
    else
      let* sidecar := write_replaced
        (let! (file, sidecar) := extract_resolved_snapshot fuel stream plan index resolved existing force key_material false in
         Ok (contents file, sidecar)) output force in
      let* _ := touch in
      fs_ret (Ok sidecar).

(** The closure that extracts one file of a tree. *)
Definition extract_tree_file (fuel : nat) (stream : R) (plan : SnapshotPlan) (index : ObjectIndex) (key_material : option (list Z))
    (source : list Z) (output : path) : fs_m Z :=
  let* resolved := fs_ret (resolve_path index source) in
  let* sidecar := extract_resolved_to fuel stream plan index resolved output false key_material in
  fs_ret (Ok (sc_logical_size sidecar)).

Definition extract_tree_snapshot_with_key (windows : bool) (fuel : nat) (stream : R) (path_ : list Z)
    (parent : path) (destination_name : name) (force : bool) (snapshot : option (list Z)) (key_material : option (list Z))
  : fs_m RecursiveExtraction :=
  let* plan := fs_ret (plan_snapshot fuel stream snapshot) in
  let* index := fs_ret (build_plan_with_key fuel stream plan key_material) in
  extract_directory_tree windows (list_directory index) (extract_tree_file fuel stream plan index key_material)
    path_ parent destination_name force.
End operations.
End host.
