(* ===== verification/TreeProps.v ===== *)
(** Properties of the staged extraction: what it publishes, what a failure leaves,
    and, for the tree of a snapshot, that every file has the snapshot's bytes. *)

From stdpp Require Import sorting.
From S2P Require Import Prelude Bytes Utf8 Stream StreamFacts StreamWriter StreamProps Replay Paths.
From S2P Require Import Compression CompressionProps NvList NvWriter Encrypted EncryptedDnode.
From S2P Require Import EncryptedProps Extents Snapshots Selected ObjectIndex IndexFacts.
From S2P Require Import FilesystemProps Resolve ResolveProps Sparse SparseFacts Operations.
From S2P Require Import OperationsFacts OperationsProps Image DiskImage Partitions Volumes.
From S2P Require Import HostFs Tree TreeFacts HostExtract.

#[local] Open Scope Z_scope.
#[local] Open Scope zse_scope.

Section write.
Context `{Faults} `{TempNamesLaws}.

Definition changed_below (d : path) (st st' : store) : Prop := forall q, ~ under d q -> st' !! q = st !! q.

Lemma changed_below_insert d x st st' n : changed_below d st st' -> changed_below d st (<[x :: d := n]> st').
Proof. intros Hc q Hq. rewrite lookup_insert_ne; [by apply Hc|]. intros <-. apply Hq. by apply suffix_cons_r. Qed.

(** A new file renamed to a free name of its directory. *)
Lemma persisted x t (d : path) bytes st st' :
  store_wf st -> st !! (t :: d) = None -> st !! (x :: d) = None -> x <> t ->
  rename_in (t :: d) (x :: d) (<[t :: d := NFile bytes]> st) = Ok st' -> st' = <[x :: d := NFile bytes]> st.
Proof.
  intros Hwf Ht Hx Hne Hr.
  assert (forall q, under (x :: d) q -> q <> t :: d) as Hq.
  { intros q Hu ->. eapply (not_under_sibling x t); [done|exact Hu|done]. }
  apply rename_moves in Hr as (Hm & Hgone & Hkeep).
  - apply map_eq. intros q. destruct (decide (under (x :: d) q)) as [[r ->]|Hnx].
    + rewrite Hm. destruct r as [|y r]; [cbn [app]; by rewrite !lookup_insert_eq|].
      assert (forall z : name, (y :: r) ++ z :: d <> z :: d) as Hlong.
      { intros z He. apply (f_equal length) in He. rewrite length_app in He. cbn in He. lia. }
      rewrite !lookup_insert_ne by (intros He; by apply (Hlong _ (eq_sym He))).
      rewrite (wf_free st (t :: d)) by (done || by exists (y :: r)). by rewrite (wf_free st (x :: d)) by (done || by exists (y :: r)).
    + rewrite lookup_insert_ne by (by intros <-). destruct (decide (under (t :: d) q)) as [Hnt|Hnt].
      * rewrite Hgone by done. symmetry. by apply (wf_free st (t :: d)).
      * rewrite Hkeep by done. rewrite lookup_insert_ne; [done|]. by intros <-.
  - intros q Hu. rewrite lookup_insert_ne; [by apply (wf_free st (x :: d))|]. intros <-. by eapply Hq.
  - intros Hu. by eapply (not_under_sibling t x); [done|exact Hu|].
  - intros Hu. by eapply Hq.
Qed.

Lemma fs_wp_touch h (P : unit -> host -> Prop) (E : host -> Prop) :
  P tt (after (h_store h) h) -> E (after (h_store h) h) -> fs_wp touch h P E.
Proof. intros HP HE. apply fs_wp_call; [done|done|]. by intros st _ [= <-]. Qed.

(** The file appears whole, or the directory is all that may have changed. *)
Lemma write_replaced_spec {A} (write : result (list Z * A)) x (d : path) h :
  safe write -> store_wf (h_store h) -> h_store h !! d = Some NDir ->
  fs_wp (write_replaced write (x :: d) false) h
    (fun a h' => h_store h !! (x :: d) = None /\ exists bytes, write = Ok (bytes, a) /\ h_store h' = <[x :: d := NFile bytes]> (h_store h))
    (fun h' => changed_below d (h_store h) (h_store h')).
Proof.
  intros Hsafe Hwf Hd. unfold write_replaced, temporary_for. cbn [tail]. cbv zeta.
  apply fs_wp_bind, fs_wp_bind.
  assert (create_dir_all d h = (Ok tt, h)) as Hdir by (destruct d; cbn [create_dir_all]; unfold is_dir; by rewrite bool_decide_true).
  unfold fs_wp at 1. rewrite Hdir. apply fs_wp_context. set (t := temp_name ".tmp" (h_store h) d).
  assert (h_store h !! (t :: d) = None) as Ht by apply temp_fresh.
  change (fs_wp (make_temp ".tmp" d create_file) h) with (fs_wp (let* _ := create_file (t :: d) in fs_ret (Ok (t :: d))) h).
  assert (create_file_in (t :: d) (h_store h) = Ok (<[t :: d := NFile []]> (h_store h))) as Hcreate
    by (unfold create_file_in, is_dir; by rewrite Ht, bool_decide_true).
  apply fs_wp_bind, fs_wp_call; rewrite ?Hcreate; [done|done|]. intros st _ [= <-]. apply fs_wp_ret. cbn [wpe].
  assert (forall h' e P, changed_below d (h_store h) (h_store h') ->
    fs_wp (let* _ := fs_ignore (remove_file (t :: d)) in fs_ret (Err (A:=A) e)) h' P
      (fun h' => changed_below d (h_store h) (h_store h'))) as Hcleanup.
  { intros h' e P Hc. apply fs_wp_bind, fs_wp_ignore, fs_wp_call.
    - unfold remove_file_in. by repeat case_match.
    - by apply fs_wp_ret.
    - intros st' _ Hr. apply fs_wp_ret. cbn [wpe h_store after]. intros q Hq. unfold remove_file_in in Hr.
      assert (st' = delete (t :: d) (h_store h')) as -> by (repeat case_match; congruence).
      rewrite lookup_delete_ne; [by apply Hc|]. intros <-. apply Hq. by apply suffix_cons_r. }
  assert (forall n, changed_below d (h_store h) (<[t :: d := n]> (h_store h))) as Hbelow by (intros n; by apply changed_below_insert).
  apply fs_wp_catch, fs_wp_bind, fs_wp_ret. cbn [h_store after].
  destruct (safe_cases _ Hsafe) as [[[bytes a] Hw]|[e Hw]]; rewrite Hw; cbn [wpe]; [|intros e'; by apply Hcleanup, Hbelow].
  assert (write_in (t :: d) bytes (<[t :: d := NFile []]> (h_store h)) = Ok (<[t :: d := NFile bytes]> (h_store h))) as Hwrite
    by (unfold write_in; by rewrite lookup_insert_eq, insert_insert_eq).
  apply fs_wp_bind, fs_wp_call; cbn [h_store after]; rewrite ?Hwrite; [done|by intros e; apply Hcleanup, Hbelow|]. intros st _ [= <-]. apply fs_wp_bind, fs_wp_touch; cbn [h_store after]; [|by intros e; apply Hcleanup, Hbelow].
  apply fs_wp_bind, fs_wp_bind, fs_wp_exists. cbn [h_store after]. destruct (decide (x = t)) as [->|Hne].
  { rewrite lookup_insert_eq, bool_decide_true by (by eexists). cbn [andb negb]. apply fs_wp_ret. cbn [wpe]. intros e. by apply Hcleanup, Hbelow. }
  rewrite lookup_insert_ne by congruence. case_bool_decide as Hx; cbn [andb negb]; [apply fs_wp_ret; cbn [wpe]; intros e; by apply Hcleanup, Hbelow|].
  apply eq_None_not_Some in Hx.
  apply fs_wp_context, fs_wp_rename; cbn [h_store after].
  - intros _ e. by apply Hcleanup, Hbelow.
  - intros st _ Hr. apply fs_wp_ret. cbn [wpe]. apply fs_wp_ret. cbn [wpe h_store after]. split; [done|]. exists bytes. split; [done|].
    by apply (persisted x t).
Qed.
End write.

(** ** The tree of a snapshot *)

Section snapshot.
Context `{CodecLaws} `{CryptoLaws} `{OsLaws} `{Digest} `{ZfsCoreLaws} {R : Type} `{ReadLaws R}.
Context `{Faults} `{TempNamesLaws}.

(** The bytes of a source file, by the meaning of the records of the plan's
    snapshots. *)
Definition snapshot_content (records : list Record_) (plan : SnapshotPlan) (index : ObjectIndex) (source : list Z) : option (list Z) :=
  match resolve_path index source with
  | Ok resolved =>
      if Resolve.dirent_type resolved =? 8 then
        match fold_res (content_record (Resolve.object_id resolved)) (fun _ => 0, false)
                (chosen (list_to_set (chain plan)) false records) with
        | Ok (c, _) => Some (materialize (Resolve.logical_size resolved) c)
        | _ => None
        end
      else None
  | _ => None
  end.

(** What a plain stream and its index are. *)
Record plain_source (fuel : nat) (stream : R) (plan : SnapshotPlan) (index : ObjectIndex) (records : list Record_) : Prop := {
  ps_reader : reader_wf (StreamReader_new stream);
  ps_fuel : remaining stream < RECORD_SIZE * Z.of_nat fuel;
  ps_read : exists r, read_all fuel (StreamReader_new stream) = Ok (records, r);
  ps_sizes : Forall (fun record => sizes_ok (kind record)) records;
  ps_plain : has_bits (features (target plan)) FEATURE_RAW = false;
  ps_crypto : ix_raw_crypto index = None;
  ps_metas : map_Forall (fun _ => meta_ok) (ix_objects index);
  ps_guid : is_u64 (to_guid (ix_begin index));
}.

Lemma extract_tree_file_ok fuel stream plan index records key :
  plain_source fuel stream plan index records ->
  extract_ok (extract_tree_file fuel stream plan index key) (snapshot_content records plan index).
Proof.
  intros [Hwf Hfuel [r Hread] Hsizes Hplain Hcrypto Hmetas Hguid] source x d h Hst Hd.
  assert (changed_below d (h_store h) (h_store h)) as Hsame by done.
  unfold extract_tree_file, extract_resolved_to. apply fs_wp_bind, fs_wp_ret.
  destruct (safe_cases (resolve_path index source)) as [[resolved Hres]|[e Hres]]; [by eapply wp_safe, wp_resolve_path| |by rewrite Hres].
  rewrite Hres. cbn [wpe]. destruct (Z.eqb_spec (Resolve.dirent_type resolved) 8) as [Hfile|Hfile]; [|by apply fs_wp_bind, fs_wp_ret].
  cbn [negb]. apply fs_wp_bind, fs_wp_bind, fs_wp_exists. case_bool_decide as Hx; cbn [andb negb]; [by apply fs_wp_ret|].
  apply eq_None_not_Some in Hx.
  pose proof (wp_extract_resolved fuel stream plan index resolved false false key false records r Hwf Hfuel Hread Hsizes Hplain Hcrypto
    (proj1 (wp_value _ _ _ (wp_resolve_path index source Hmetas) Hres)) Hguid) as Hext.
  set (m := extract_resolved_snapshot fuel stream plan index resolved false false key false) in *.
  apply fs_wp_bind. eapply fs_wp_mono; [| |apply (write_replaced_spec _ x d h); [|done..]].
  - intros sidecar h1 (_ & bytes & Hw & Hst1). apply bind_Ok in Hw as ([file sc] & Hm & [= <- <-]).
    rewrite Hm in Hext. cbn [wp wpe] in Hext. destruct Hext as (c & e & Hfold & Hc & _).
    apply fs_wp_bind, fs_wp_touch; cbn [h_store after].
    + apply fs_wp_ret. cbn [wpe]. apply fs_wp_ret. cbn [wpe h_store after]. split; [done|]. exists (contents file). split; [|done].
      unfold snapshot_content. rewrite Hres, Hfile. cbn [Z.eqb Pos.eqb]. by rewrite Hfold, Hc.
    + rewrite Hst1. by apply changed_below_insert.
  - done.
  - apply safe_bind; [by eapply wp_safe|]. by intros [file sc] _.
Qed.
End snapshot.

(** ** Properties *)

(** C6: The extraction of a directory is all or nothing. It always returns. When it
    reports success, whatever calls the system refused on the way, the destination
    holds exactly what the source directory shows: its directories, its regular
    files with their bytes, nothing for links and special entries, and nothing of a
    tree that stood there before; an existing destination is replaced only by
    force. When it reports an error, what stood at the destination is untouched
    unless the system itself refused a call, and if it refused only one the
    destination is either what it was or already the whole new tree. Nothing else
    changes but for parents that were missing and the staging directory, which is
    gone after a success without refusals. *)
Theorem tree_atomic `{Faults} `{TempNamesLaws} windows list_ extract content parent dn source_root force h :
  (forall source, safe (list_ source)) -> extract_ok extract content ->
  store_wf (h_store h) -> (forall rest, dn <> bytes_of_string ".zfse-tree-" ++ rest) ->
  let '(r, h') := extract_directory_tree windows list_ extract source_root parent dn force h in
  let new_tree := forall r n, h_store h' !! (r ++ dn :: parent) = Some n <-> shows list_ content source_root r n in
  let old_tree := forall r, h_store h' !! (r ++ dn :: parent) = h_store h !! (r ++ dn :: parent) in
  safe r /\ exists tn, h_store h !! (tn :: parent) = None /\ settled parent tn dn (h_store h) (h_store h') /\
    (is_ok r = true -> new_tree /\ (h_store h !! (dn :: parent) = None \/ force = true) /\
      (no_fault -> forall q, under (tn :: parent) q -> h_store h' !! q = None)) /\
    (is_err r = true -> (no_fault -> old_tree) /\ (single_fault -> old_tree \/ new_tree)).
Proof.
  intros Hlist Hext Hwf Hdn.
  pose proof (extraction_spec windows list_ extract content Hlist Hext parent dn source_root force h Hwf Hdn) as Hspec.
  unfold fs_wp in Hspec. destruct (extract_directory_tree windows list_ extract source_root parent dn force h) as [[result|e| |] h']; try done.
  - split; [done|]. destruct Hspec as (tn & Hfresh & Hsettled & Hrec & Hforce & Hclean). exists tn.
    split; [done|]. split; [done|]. by split.
  - split; [done|]. destruct Hspec as (tn & Hfresh & Hsettled & Hsingle & Hno). exists tn.
    split; [done|]. split; [done|]. by split.
Qed.

(** C5: The tree of a snapshot is extracted exactly. When extracting a directory of
    a plain send stream reports success, the destination holds exactly the
    directories and regular files below that path of the indexed snapshot, and the
    bytes of each file are the content that the records of the plan's snapshots
    give its object, cut at the file's size. *)
Theorem tree_snapshot_recovered `{CodecLaws} `{CryptoLaws} `{OsLaws} `{Digest} `{ZfsCoreLaws} {R : Type} `{ReadLaws R}
    {HF : Faults} `{TempNamesLaws} windows fuel (stream : R) path_ parent dn force snapshot key plan index records h result h' :
  plan_snapshot fuel stream snapshot = Ok plan -> build_plan_with_key fuel stream plan key = Ok index ->
  plain_source fuel stream plan index records ->
  store_wf (h_store h) -> (forall rest, dn <> bytes_of_string ".zfse-tree-" ++ rest) ->
  extract_tree_snapshot_with_key windows fuel stream path_ parent dn force snapshot key h = (Ok result, h') ->
  (exists tn, h_store h !! (tn :: parent) = None /\ settled parent tn dn (h_store h) (h_store h')) /\
  forall r n, h_store h' !! (r ++ dn :: parent) = Some n <->
    shows (list_directory index) (snapshot_content records plan index) path_ r n.
Proof.
  intros Hplan Hindex Hsource Hwf Hdn Hrun. unfold extract_tree_snapshot_with_key, fs_bind, fs_ret in Hrun. rewrite Hplan, Hindex in Hrun.
  assert (forall source, safe (list_directory index source)) as Hlist by (intros source; by eapply safe_list_directory, ps_metas).
  pose proof (extraction_spec windows _ _ _ Hlist (extract_tree_file_ok fuel stream plan index records key Hsource) parent dn path_ force h Hwf Hdn) as Hspec.
  unfold fs_wp in Hspec. rewrite Hrun in Hspec. destruct Hspec as (tn & Hfresh & Hsettled & Hrec & _). split; [|done]. by exists tn.
Qed.

(** ** A host

    A temporary name is the prefix and more letters than any name has. *)

Definition longest (st : store) : nat := foldr (fun (pn : path * Node) m => Nat.max (length (List.hd [] pn.1)) m) 0%nat (map_to_list st).

Lemma longest_name (st : store) x (d : path) n : st !! (x :: d) = Some n -> (length x <= longest st)%nat.
Proof.
  intros Hx. apply elem_of_map_to_list in Hx. unfold longest. induction (map_to_list st) as [|[p m] l IH]; [by apply elem_of_nil in Hx|].
  apply elem_of_cons in Hx as [[= <- <-]|Hx]; cbn [foldr fst]; [cbn [List.hd]; lia|]. specialize (IH Hx). lia.
Qed.

#[export] Instance toy_names : TempNames := {
  temp_name prefix st d := bytes_of_string prefix ++ replicate (S (longest st)) 97;
}.

#[export] Instance toy_names_laws : TempNamesLaws.
Proof.
  split; [|intros; by eexists]. intros prefix st d. destruct (st !! _) eqn:Hn; [|done].
  apply longest_name in Hn. cbn [temp_name toy_names] in Hn. rewrite length_app, length_replicate in Hn. lia.
Qed.

(** Refusals at the given calls; a refused removal removes nothing. *)
Definition faults_at (calls : list nat) : Faults := {| fault c := bool_decide (c ∈ calls); survives _ _ := true |}.

Definition toy_extract `{Faults} (content : list Z -> option (list Z)) (source : list Z) (output : path) : fs_m Z :=
  let* existing := path_exists output in
  if existing : bool then fs_ret (Err (Msg "output {} already exists (pass --force to replace it)" []))
  else write_replaced (let! bytes := ok_or (content source) (Msg "{} is not a regular file" []) in Ok (bytes, len bytes)) output false.

Lemma toy_extract_ok `{Faults} content : extract_ok (toy_extract content) content.
Proof.
  intros source x d h Hwf Hd. unfold toy_extract. apply fs_wp_bind, fs_wp_exists. case_bool_decide as Hx; [by apply fs_wp_ret|].
  apply eq_None_not_Some in Hx. eapply fs_wp_mono; [| |apply write_replaced_spec; [|done..]]; [|done|by destruct (content source)].
  intros n h' (_ & bytes & Hw & Hst). split; [done|]. exists bytes. split; [|done]. destruct (content source); [|done]. by injection Hw as -> _.
Qed.

(** A source with a file, a link and a directory with a file. *)
Definition entry_of (name : string) (type : Z) : DirectoryEntry :=
  {| de_name := bytes_of_string name; de_object_id := 1; de_dirent_type := type; de_logical_size := None |}.

Definition toy_list (source : list Z) : result (list DirectoryEntry) :=
  if bytes_eqb source (bytes_of_string "/s") then Ok [entry_of "a" 8; entry_of "l" 10; entry_of "d" 4]
  else if bytes_eqb source (bytes_of_string "/s/d") then Ok [entry_of "b" 8]
  else Err (Msg "{} is not a directory" []).

Definition toy_content (source : list Z) : option (list Z) :=
  if bytes_eqb source (bytes_of_string "/s/a") then Some [1; 2]
  else if bytes_eqb source (bytes_of_string "/s/d/b") then Some [3] else None.

Lemma toy_list_safe source : safe (toy_list source).
Proof. unfold toy_list. by repeat case_match. Qed.

(** A host with an old file at the destination [/o]. *)
Definition out_name : name := bytes_of_string "o".
Definition toy_host : host := {| h_store := {[ [] := NDir; [out_name] := NFile [9] ]}; h_clock := 0 |}.

Lemma toy_host_wf : store_wf (h_store toy_host).
Proof.
  split; [reflexivity|]. intros x d [n Hx]. cbn [toy_host h_store] in *.
  apply lookup_insert_Some in Hx as [[Hx _]|[_ Hx]]; [done|]. apply lookup_singleton_Some in Hx as [[= <- <-] _]. reflexivity.
Qed.

Lemma out_name_plain rest : out_name <> bytes_of_string ".zfse-tree-" ++ rest.
Proof. discriminate. Qed.

Definition toy_run (calls : list nat) : result RecursiveExtraction * host :=
  extract_directory_tree (H := faults_at calls) false toy_list (toy_extract (H := faults_at calls) toy_content) (bytes_of_string "/s") [] out_name true toy_host.

Lemma single_fault_at call : @single_fault (faults_at [call]).
Proof. intros c c' Hc%bool_decide_eq_true Hc'%bool_decide_eq_true. set_solver. Qed.

(** A run without refusals publishes the tree; where the rename that publishes
    (call 12) is refused, the old file is put back. *)
Lemma tree_atomic_witness :
  (is_ok (toy_run []).1 = true /\
    h_store (toy_run []).2 !! [bytes_of_string "b"; bytes_of_string "d"; out_name] = Some (NFile [3]) /\
    forall r n, h_store (toy_run []).2 !! (r ++ [out_name]) = Some n <-> shows toy_list toy_content (bytes_of_string "/s") r n) /\
  (is_err (toy_run [12%nat]).1 = true /\ h_store (toy_run [12%nat]).2 !! [out_name] = Some (NFile [9]) /\
    ((forall r, h_store (toy_run [12%nat]).2 !! (r ++ [out_name]) = h_store toy_host !! (r ++ [out_name])) \/
     forall r n, h_store (toy_run [12%nat]).2 !! (r ++ [out_name]) = Some n <-> shows toy_list toy_content (bytes_of_string "/s") r n)).
Proof.
  split; (split; [vm_compute; reflexivity|]; split; [vm_compute; reflexivity|]).
  - pose proof (tree_atomic (H := faults_at []) false toy_list (toy_extract (H := faults_at []) toy_content) toy_content [] out_name
      (bytes_of_string "/s") true toy_host toy_list_safe (toy_extract_ok (H := faults_at []) toy_content) toy_host_wf out_name_plain) as Hatomic.
    fold (toy_run []) in Hatomic. assert (is_ok (toy_run []).1 = true) as Hok by (vm_compute; reflexivity).
    destruct (toy_run []) as [r h']. cbn [fst snd] in *. destruct Hatomic as (_ & tn & _ & _ & Hatomic & _). exact (proj1 (Hatomic Hok)).
  - pose proof (tree_atomic (H := faults_at [12%nat]) false toy_list (toy_extract (H := faults_at [12%nat]) toy_content) toy_content [] out_name
      (bytes_of_string "/s") true toy_host toy_list_safe (toy_extract_ok (H := faults_at [12%nat]) toy_content) toy_host_wf out_name_plain) as Hatomic.
    fold (toy_run [12%nat]) in Hatomic. assert (is_err (toy_run [12%nat]).1 = true) as Herr by (vm_compute; reflexivity).
    destruct (toy_run [12%nat]) as [r h']. cbn [fst snd] in *. destruct Hatomic as (_ & tn & _ & _ & _ & Hatomic).
    exact (proj2 (Hatomic Herr) (single_fault_at 12)).
Defined.

(** Where the rename that would put it back is refused too (call 13), the drop of
    the staging directory removes the old file: nothing of it is left. *)
Example double_failure_loses_destination :
  is_err (toy_run [12%nat; 13%nat]).1 = true /\ h_store (toy_run [12%nat; 13%nat]).2 = {[ [] := NDir ]}.
Proof. split; vm_compute; reflexivity. Qed.

(** *** A snapshot with a directory

    The root directory (34) holds the file [hello.c] (8) of five bytes. *)
Definition tree_object (id type bonus_type : Z) : ObjectRecord := {|
  obj_object := id; obj_type := type; obj_bonus_type := bonus_type; obj_block_size := 512; obj_bonus_length := 24;
  obj_checksum_type := 7; obj_compression := 2; obj_dnode_slots := 1; obj_flags := 0; obj_raw_bonus_length := 0;
  obj_indirect_block_shift := 17; obj_levels := 1; obj_block_pointers := 1; obj_max_block_id := 0 |}.

Definition tree_write (id type size : Z) : WriteRecord := {|
  wr_object := id; wr_object_type := type; wr_offset := 0; wr_logical_size := size; wr_checksum_type := 7; wr_flags := 0;
  wr_compressed_size := 0; wr_compression_type := 0; wr_salt := zrepeat 8 0; wr_iv := zrepeat 12 0; wr_mac := zrepeat 16 0 |}.

Definition tree_bytes : list Z := write_stream initial_control Fletcher4_default
  [(Begin sample_begin, []);
   (Object (tree_object 1 21 0), zrepeat 24 0); (Write (tree_write 1 21 32), toy_entry "SA_ATTRS" 2 ++ toy_entry "ROOT" 34 ++ [0; 0]);
   (Object (tree_object 2 45 0), zrepeat 24 0); (Write (tree_write 2 45 40), toy_entry "REGISTRY" 3 ++ toy_entry "LAYOUTS" 3 ++ zrepeat 7 0);
   (Object (tree_object 3 46 0), zrepeat 24 0);
   (Object (tree_object 34 20 44), toy_bonus 0); (Write (tree_write 34 20 16), toy_entry "hello.c" 9223372036854775816);
   (Object (tree_object 8 19 44), toy_bonus 5); (Write (tree_write 8 19 8), [104; 101; 108; 108; 111; 0; 0; 0]); (End_, [])].

Definition tree_plan : SnapshotPlan :=
  match plan_snapshot 12 tree_bytes None with Ok plan => plan | _ => sample_plan end.
Definition tree_index : ObjectIndex :=
  match build_plan_with_key 12 tree_bytes tree_plan None with Ok index => index | _ => toy_index end.

Abbreviation snapshot_run :=
  (extract_tree_snapshot_with_key (H := faults_at []) false 12 tree_bytes [SLASH] [] out_name true None None toy_host).

Definition meta_okb (meta : ObjectMeta) : bool :=
  let bytes_okb := forallb (fun b => (0 <=? b) && (b <? 256)) in
  ((0 <=? om_object_type meta) && (om_object_type meta <=? U32_MAX)) && ((0 <=? om_bonus_type meta) && (om_bonus_type meta <=? U32_MAX)) &&
  bytes_okb (om_bonus meta) && match om_spill meta with Some spill => bytes_okb spill | None => true end.

Lemma metas_ok (m : gmap Z ObjectMeta) : forallb (fun kv => meta_okb kv.2) (map_to_list m) = true -> map_Forall (fun _ => meta_ok) m.
Proof.
  intros Hall k meta Hk. rewrite forallb_forall in Hall. assert (meta_okb meta = true) as Hok.
  { apply elem_of_map_to_list, list_elem_of_In in Hk. by apply Hall in Hk. }
  unfold meta_okb in Hok. b2p. split; [unfold is_u32; lia|]. split; [unfold is_u32; lia|]. split; [by apply bytes_ok_dec|].
  intros spill Hs. rewrite Hs in *. by apply bytes_ok_dec.
Qed.

Lemma tree_source : exists records, plain_source 12 tree_bytes tree_plan tree_index records.
Proof.
  destruct (read_all 12 (StreamReader_new tree_bytes)) as [[records r]| | |] eqn:E; [|exfalso; revert E; vm_compute; congruence..].
  exists records. split.
  - apply reader_wf_new; [apply bytes_ok_dec; vm_compute; reflexivity|vm_compute; discriminate].
  - vm_compute. reflexivity.
  - by exists r.
  - apply (read_all_sizes 12 tree_bytes records r E). vm_compute. reflexivity.
  - vm_compute. reflexivity.
  - vm_compute. reflexivity.
  - apply metas_ok. vm_compute. reflexivity.
  - split; vm_compute; discriminate.
Qed.

Lemma tree_snapshot_recovered_witness :
  h_store snapshot_run.2 !! [bytes_of_string "hello.c"; out_name] = Some (NFile (bytes_of_string "hello")) /\
  exists records, forall r n, h_store snapshot_run.2 !! (r ++ [out_name]) = Some n <->
    shows (list_directory tree_index) (snapshot_content records tree_plan tree_index) [SLASH] r n.
Proof.
  split; [vm_compute; reflexivity|]. destruct tree_source as [records Hsource]. exists records.
  assert (plan_snapshot 12 tree_bytes None = Ok tree_plan) as Hplan by (vm_compute; reflexivity).
  assert (build_plan_with_key 12 tree_bytes tree_plan None = Ok tree_index) as Hindex by (vm_compute; reflexivity).
  assert (is_ok snapshot_run.1 = true) as Hok by (vm_compute; reflexivity).
  destruct snapshot_run as [r h'] eqn:Hrun. cbn [fst snd] in *. destruct r as [result|e| |]; [|discriminate Hok..].
  exact (proj2 (tree_snapshot_recovered (HF := faults_at []) false 12 tree_bytes [SLASH] [] out_name true None None tree_plan tree_index records
    toy_host result h' Hplan Hindex Hsource toy_host_wf out_name_plain Hrun)).
Defined.
