(* ===== verification/PoolBlocks.v ===== *)
(** Blocks of an offline pool member, src/src/pool.rs: block pointers, dnodes and
    object sets (lines 485-584), one block from its copies (1693-1999), and the
    tree of indirect blocks under a dnode (1503-1613). The on-disk codecs and
    checksums are the crate [zfs_core]: a type class gives what the code calls. *)

From S2P Require Import Prelude Bytes Compression NvList Encrypted EncryptedDnode.
From S2P Require Import Image DiskImage Partitions.

(** ** The codec crate *)

Inductive Endian := Little | Big.

#[export] Instance endian_eq_dec : EqDecision Endian.
Proof. solve_decision. Defined.

(** The variants the source names; its [unreachable!] says there are no others. *)
Inductive ChecksumType :=
| Inherit | On | Off | Label | GangHeader | Zilog | Fletcher2 | Fletcher4 | Sha256 | OtherChecksum (raw : Z).

#[export] Instance checksum_type_eq_dec : EqDecision ChecksumType.
Proof. solve_decision. Defined.

(** Of each structure, the fields the source names and the rest. *)
Record Dva := { dva_vdev : Z; dva_gang : bool; dva_rest : list Z }.

Record Blkptr := {
  blk_dvas : list Dva; blk_embedded : bool; blk_embedded_payload : list Z; blk_compression : Z;
  blk_checksum : Z; blk_byteorder : Endian; blk_checksum_words : list Z; blk_level : Z;
  blk_object_type : Z; blk_rest : list Z;
}.

Record Dnode := {
  dn_type : Z; dn_nlevels : Z; dn_bonustype : Z; dn_maxblkid : Z; dn_bonus : list Z; dn_endian : Endian;
  dn_blkptrs : list Blkptr; dn_rest : list Z;
}.

Record ObjsetPhys := { os_type : Z; os_endian : Endian; os_rest : list Z }.

Class ZfsDisk := {
  BLKPTR_SIZE : Z;
  DNODE_SIZE : Z;
  MAX_BLOCK_SIZE : Z;
  MAX_INDIRECT_LEVELS : Z;
  DMU_OST_META : Z;
  DMU_OST_ZFS : Z;
  (** [Reader::new(endian).u64(bytes, offset)] and [u16] *)
  reader_u64 : Endian -> list Z -> Z -> Z;
  reader_u16 : Endian -> list Z -> Z -> Z;
  dva_is_empty : Dva -> bool;
  physical_byte_offset : Dva -> Z;
  Blkptr_parse : list Z -> Endian -> Blkptr;
  lsize_bytes : Blkptr -> Z;
  psize_bytes : Blkptr -> Z;
  blk_is_hole : Blkptr -> bool;
  embedded_data : Blkptr -> list Z;
  ChecksumType_from_raw : Z -> ChecksumType;
  checksum_verify : ChecksumType -> Endian -> list Z -> list Z -> option bool;
  checksum_fletcher2 : list Z -> Endian -> list Z;
  checksum_fletcher4 : list Z -> Endian -> list Z;
  checksum_sha256 : list Z -> list Z;
  Dnode_parse : list Z -> Endian -> option Dnode;
  data_block_size : Dnode -> Z;
  indirect_block_size : Dnode -> Z;
  ObjsetPhys_parse : list Z -> Endian -> result ObjsetPhys;
}.

(** Sizes of the on-disk format, the ranges of the integer types, and the four
    words of a checksum. *)
Class ZfsDiskLaws `{ZfsDisk} := {
  blkptr_size : BLKPTR_SIZE = 128;
  dnode_size : DNODE_SIZE = 512;
  max_block_size : 0 <= MAX_BLOCK_SIZE <= ISIZE_MAX;
  reader_u64_spec : forall endian bytes offset word, get_range bytes offset (offset + 8) = Some word ->
    reader_u64 endian bytes offset = match endian with Little => le_val word | Big => be_val word end;
  reader_u64_range : forall endian bytes offset, bytes_ok bytes -> is_u64 (reader_u64 endian bytes offset);
  offset_u64 : forall dva, is_u64 (physical_byte_offset dva);
  lsize_u64 : forall pointer, is_u64 (lsize_bytes pointer);
  psize_u64 : forall pointer, is_u64 (psize_bytes pointer);
  payload_len : forall raw endian, len (blk_embedded_payload (Blkptr_parse raw endian)) = 112;
  embedded_bytes : forall pointer, bytes_ok (blk_embedded_payload pointer) -> bytes_ok (embedded_data pointer);
  payload_bytes : forall raw endian, bytes_ok raw -> bytes_ok (blk_embedded_payload (Blkptr_parse raw endian));
  fletcher2_words : forall raw endian, len (checksum_fletcher2 raw endian) = 4;
  fletcher4_words : forall raw endian, len (checksum_fletcher4 raw endian) = 4;
  sha256_words : forall raw, len (checksum_sha256 raw) = 4;
  checksum_words : forall raw endian, len (blk_checksum_words (Blkptr_parse raw endian)) = 4;
  pointer_level : forall raw endian, 0 <= blk_level (Blkptr_parse raw endian);
  dnode_levels : forall raw endian dnode, Dnode_parse raw endian = Some dnode ->
    is_u8 (dn_nlevels dnode) /\ is_u64 (dn_maxblkid dnode) /\ (bytes_ok raw -> bytes_ok (dn_bonus dnode));
  data_block_u64 : forall dnode, 0 <= data_block_size dnode <= ISIZE_MAX;
  indirect_block_u64 : forall dnode, is_u64 (indirect_block_size dnode);
  objset_parse_safe : forall raw endian, safe (ObjsetPhys_parse raw endian);
}.

(** [a >> n] on u64: a shift by the width or more panics. *)
Definition shr {E} (a n : Z) : res E Z := if n <? 64 then Ok (Z.shiftr a n) else Panic.

(** ** Pointers, dnodes and object sets *)

Definition DMU_OT_DNODE : Z := 10.
Definition DMU_OT_OBJSET : Z := 11.

Record PoolBlockPointer := { pb_pointer : Blkptr; pb_raw : list Z; pb_endian : Endian }.
Record PoolDnode := { pd_dnode : Dnode; pd_pointers : list PoolBlockPointer }.
Record PoolObjset := { po_objset : ObjsetPhys; meta_dnode : PoolDnode }.

Definition set_payload (pointer : Blkptr) (payload : list Z) : Blkptr := {|
  blk_dvas := blk_dvas pointer; blk_embedded := blk_embedded pointer; blk_embedded_payload := payload;
  blk_compression := blk_compression pointer; blk_checksum := blk_checksum pointer;
  blk_byteorder := blk_byteorder pointer; blk_checksum_words := blk_checksum_words pointer;
  blk_level := blk_level pointer; blk_object_type := blk_object_type pointer; blk_rest := blk_rest pointer |}.

Definition set_blkptrs (dnode : Dnode) (pointers : list Blkptr) : Dnode := {|
  dn_type := dn_type dnode; dn_nlevels := dn_nlevels dnode; dn_bonustype := dn_bonustype dnode;
  dn_maxblkid := dn_maxblkid dnode; dn_bonus := dn_bonus dnode; dn_endian := dn_endian dnode;
  dn_blkptrs := pointers; dn_rest := dn_rest dnode |}.

Section disk.
Context `{ZfsDisk}.

Definition payload_word (raw : list Z) (endian : Endian) (s : list Z * Z) (word : Z) : result (list Z * Z) :=
  let '(payload, output) := s in
  if (word =? 6) || (word =? 10) then Ok (payload, output)
  else
    let bytes := le_bytes 8 (reader_u64 endian raw (word * 8)) in
    let! payload := copy_into payload output bytes in
    Ok (payload, output + 8).

Definition correct_embedded_payload (pointer : Blkptr) (raw : list Z) (endian : Endian) : result Blkptr :=
  if negb (blk_embedded pointer) then Ok pointer
  else
    let! (payload, _) := fold_res (payload_word raw endian) (blk_embedded_payload pointer, 0) (seqZ 0 16) in
    Ok (set_payload pointer payload).

Definition parse_blkptr (raw : list Z) (endian : Endian) : result Blkptr :=
  correct_embedded_payload (Blkptr_parse raw endian) raw endian.

Definition blkptr_uses_crypt (raw : list Z) (endian : Endian) : bool :=
  negb (Z.land (reader_u64 endian raw 48) (Z.shiftl 1 61) =? 0).

Definition PoolBlockPointer_parse (raw : list Z) (endian : Endian) : result PoolBlockPointer :=
  let! bytes := ok_or (get_range raw 0 BLKPTR_SIZE) (Msg "truncated on-disk block pointer" []) in
  let! pointer := parse_blkptr bytes endian in
  Ok {| pb_pointer := pointer; pb_raw := bytes; pb_endian := endian |}.

Definition uses_crypt (p : PoolBlockPointer) : bool := blkptr_uses_crypt (pb_raw p) (pb_endian p).

Definition PoolDnode_parse (raw : list Z) (endian : Endian) : result PoolDnode :=
  let! dnode := ok_or (Dnode_parse raw endian) (Msg "on-disk dnode is truncated" []) in
  let! pointers := map_res (fun index =>
      let offset := 64 + index * BLKPTR_SIZE in
      let! pointer := ok_or (get_range raw offset (offset + BLKPTR_SIZE))
        (Msg "dnode block pointer {index} is truncated" [index]) in
      PoolBlockPointer_parse pointer endian)
    (seqZ 0 (len (dn_blkptrs dnode))) in
  Ok {| pd_dnode := set_blkptrs dnode (map pb_pointer pointers); pd_pointers := pointers |}.

Definition blkptr (dnode : PoolDnode) (index : Z) : option PoolBlockPointer := get (pd_pointers dnode) index.

Definition PoolObjset_parse (raw : list Z) (endian : Endian) : result PoolObjset :=
  let! objset := ObjsetPhys_parse raw endian in
  let! dnode := PoolDnode_parse raw endian in
  Ok {| po_objset := objset; meta_dnode := dnode |}.
End disk.

(** ** One block *)

(** The functions a block pointer may not carry. *)
Definition unsupported_checksum (checksum : ChecksumType) : bool :=
  match checksum with
  | Inherit | On | OtherChecksum _ | Label | GangHeader | Zilog => true
  | Off | Fletcher2 | Fletcher4 | Sha256 => false
  end.

(** The loop over the copies of a block: [None] from a copy is its message in the
    list of errors. *)
Fixpoint first_copy (read : Dva -> result (option (list Z))) (dvas : list Dva) : result (option (list Z)) :=
  match dvas with
  | [] => Ok None
  | dva :: dvas =>
      let! data := read dva in
      match data with Some data => Ok (Some data) | None => first_copy read dvas end
  end.

(** A copy whose failure is noted. *)
Definition attempt {A B} (m : result A) (k : A -> result (option B)) : result (option B) :=
  catch m k (fun _ => Ok None).

(** [pointer.checksum_words], and its first two words. *)
Definition words_eqb (a b : list Z) : bool := bytes_eqb a b.

Section blocks.
Context `{ZfsDisk} `{Codecs}.

Definition read_copy (source : ImageRead) (expected_vdev : Z) (pointer : Blkptr) (checksum : ChecksumType)
    (dva : Dva) : result (option (list Z)) :=
  if dva_is_empty dva then Ok None
  else if negb (dva_vdev dva =? expected_vdev) then Ok None
  else if dva_gang dva then Ok None
  else
    attempt (image_read source (physical_byte_offset dva) (psize_bytes pointer)) (fun raw =>
      if bool_decide (checksum_verify checksum (blk_byteorder pointer) raw (blk_checksum_words pointer) = Some false)
      then Ok None
      else attempt (decompress_block (blk_compression pointer) raw (lsize_bytes pointer)) (fun data => Ok (Some data))).

Definition read_block_from (source : ImageRead) (expected_vdev : Z) (pointer : Blkptr) : result (list Z) :=
  let logical_size := lsize_bytes pointer in
  fail! (logical_size =? 0) || (MAX_BLOCK_SIZE <? logical_size)
    with Msg "block logical size {logical_size} is outside the supported range" [logical_size] in
  if blk_embedded pointer then decompress_block (blk_compression pointer) (embedded_data pointer) logical_size
  else if blk_is_hole pointer then Ok (zrepeat logical_size 0)
  else
    let physical_size := psize_bytes pointer in
    fail! (physical_size =? 0) || (MAX_BLOCK_SIZE <? physical_size)
      with Msg "block physical size {physical_size} is outside the safety limit" [physical_size] in
    let checksum := ChecksumType_from_raw (blk_checksum pointer) in
    fail! unsupported_checksum checksum with Msg "unsupported on-disk checksum function {}" [blk_checksum pointer] in
    let! data := first_copy (read_copy source expected_vdev pointer checksum) (blk_dvas pointer) in
    ok_or data (Msg "no readable copy of block pointer: {}" []).
End blocks.

Section crypt.
Context `{ZfsDisk} `{Codecs} `{Crypto}.

(** [computed[i] ^= computed[j]] *)
Definition fold_word (computed : list Z) (i j : Z) : result (list Z) :=
  let! a := index computed i in
  let! b := index computed j in
  set_index computed i (Z.lxor a b).

(** The checksum an encrypted block is compared by: the weak ones are folded into
    the two words that remain, except for object sets. *)
Definition physical_checksum (pointer : Blkptr) (checksum : ChecksumType) (raw : list Z) : result (option (list Z)) :=
  let! computed := match checksum with
    | Off => Ok None
    | Fletcher2 => Ok (Some (checksum_fletcher2 raw (blk_byteorder pointer)))
    | Fletcher4 => Ok (Some (checksum_fletcher4 raw (blk_byteorder pointer)))
    | Sha256 => Ok (Some (checksum_sha256 raw))
    | _ => Panic
    end in
  match checksum, computed with
  | (Fletcher2 | Fletcher4), Some computed =>
      if blk_object_type pointer =? DMU_OT_OBJSET then Ok (Some computed)
      else
        let! computed := fold_word computed 0 2 in
        let! computed := fold_word computed 1 3 in
        Ok (Some computed)
  | _, _ => Ok computed
  end.

Definition checksum_mismatch (pointer : Blkptr) (computed : option (list Z)) : result bool :=
  match computed with
  | None => Ok false
  | Some computed =>
      if blk_object_type pointer =? DMU_OT_OBJSET then Ok (negb (words_eqb computed (blk_checksum_words pointer)))
      else
        let! left_ := slice computed 0 2 in
        let! right_ := slice (blk_checksum_words pointer) 0 2 in
        Ok (negb (words_eqb left_ right_))
  end.

Definition pool_crypt_params (raw : list Z) : result (list Z * list Z * list Z) :=
  let! salt := slice raw 32 40 in
  let! word := slice raw 40 48 in
  let! tail := slice raw 92 96 in
  let! iv := copy_into (zrepeat 12 0) 0 word in
  let! iv := copy_into iv 8 tail in
  let! mac := slice raw 112 128 in
  Ok (salt, iv, mac).

Definition indirect_mac (block : list Z) (crypto_version : Z) : result (list Z) :=
  fail! negb (len block mod BLKPTR_SIZE =? 0) with Msg "encrypted indirect block is not a block-pointer array" [] in
  let! parts := map_res (fun pointer => pool_block_pointer_auth pointer crypto_version) (chunks BLKPTR_SIZE block) in
  slice (sha512 (concat parts)) 0 16.

(** What a copy's bytes stand for once they are authenticated. *)
Definition protected_data (key : DatasetKey) (pointer : PoolBlockPointer) (body_encrypted : bool)
    (parameters : list Z * list Z * list Z) (raw : list Z) : result (list Z) :=
  let object_type := blk_object_type (pb_pointer pointer) in
  if body_encrypted then
    let '(salt, iv, mac) := parameters in
    if object_type =? DMU_OT_DNODE then decrypt_pool_dnode_block key salt iv mac raw
    else decrypt_block key salt iv mac [] raw
  else if (blk_level (pb_pointer pointer) =? 0) && negb (object_type =? DMU_OT_OBJSET) then
    let! mac := slice (pb_raw pointer) 112 128 in
    let! _ := with_context "authenticating native-encrypted ZFS metadata" [] (authenticate_block key raw mac) in
    Ok raw
  else Ok raw.

Definition is_body_encrypted (pointer : Blkptr) : bool :=
  (blk_level pointer =? 0) && is_encrypted_object_type (blk_object_type pointer).

Definition read_pool_copy (source : ImageRead) (expected_vdev : Z) (pointer : PoolBlockPointer) (key : DatasetKey)
    (checksum : ChecksumType) (dva : Dva) : result (option (list Z)) :=
  let p := pb_pointer pointer in
  let body_encrypted := is_body_encrypted p in
  if dva_is_empty dva then Ok None
  else if negb (dva_vdev dva =? expected_vdev) then Ok None
  else if dva_gang dva then Ok None
  else
    attempt (image_read source (physical_byte_offset dva) (psize_bytes p)) (fun raw =>
      let! computed := physical_checksum p checksum raw in
      let! mismatch := checksum_mismatch p computed in
      if mismatch then Ok None
      else
        let! parameters := if body_encrypted then pool_crypt_params (pb_raw pointer) else Ok ([], [], []) in
        attempt (protected_data key pointer body_encrypted parameters raw) (fun protected =>
          attempt (decompress_block (blk_compression p) protected (lsize_bytes p)) (fun decoded =>
            if 0 <? blk_level p then
              let! digest := indirect_mac decoded (crypto_version key) in
              let! mac := slice (pb_raw pointer) 112 128 in
              Ok (if bytes_eqb digest mac then Some decoded else None)
            else Ok (Some decoded)))).

Definition read_pool_block_from (source : ImageRead) (expected_vdev : Z) (pointer : PoolBlockPointer)
    (key : option DatasetKey) : result (list Z) :=
  let p := pb_pointer pointer in
  if negb (uses_crypt pointer) then read_block_from source expected_vdev p
  else
    let! key := ok_or key (Msg "native-encrypted ZFS block requires a dataset key" []) in
    let logical_size := lsize_bytes p in
    let physical_size := psize_bytes p in
    fail! (logical_size =? 0) || (MAX_BLOCK_SIZE <? logical_size)
      with Msg "encrypted block logical size {logical_size} is outside the safety limit" [logical_size] in
    fail! (physical_size =? 0) || (MAX_BLOCK_SIZE <? physical_size)
      with Msg "encrypted block physical size {physical_size} is outside the safety limit" [physical_size] in
    fail! blk_embedded p || blk_is_hole p
      with Msg "native-encrypted block pointer has an invalid embedded/hole layout" [] in
    let checksum := ChecksumType_from_raw (blk_checksum p) in
    fail! unsupported_checksum checksum with Msg "unsupported on-disk checksum function {}" [blk_checksum p] in
    let copies := if is_body_encrypted p then 2 else 3 in
    let! data := first_copy (read_pool_copy source expected_vdev pointer key checksum) (ztake copies (blk_dvas p)) in
    ok_or data (Msg "no readable copy of native-encrypted block pointer: {}" []).

(** The message authentication code of an object set's portable part. *)
Definition verify_objset_mac (raw : list Z) (endian : Endian) (key : DatasetKey) : result unit :=
  fail! negb (bool_decide (endian = Little))
    with Msg "native-encrypted big-endian objset authentication is unsupported" [] in
  fail! len raw <? 752 with Msg "encrypted objset is too short to contain its portable MAC" [] in
  let! pointer_count := index raw 3 in
  let! pointer_end := ok_or (match checked_add 64 (saturating_mul pointer_count BLKPTR_SIZE) with
      | Some end_ => if end_ <=? 512 then Some end_ else None
      | None => None
      end) (Msg "encrypted objset meta-dnode has invalid block pointers" []) in
  let type_ := be_bytes 8 (reader_u64 endian raw 704) in
  let! core := slice raw 0 64 in
  let! core := portable_core core in
  let! pointers := slice raw 64 pointer_end in
  let! parts := map_res (fun pointer => pool_block_pointer_auth pointer (crypto_version key)) (chunks BLKPTR_SIZE pointers) in
  let! flags := index raw 7 in
  let! spill :=
    if has_bits flags 0x04 then
      let! start := sub 512 BLKPTR_SIZE in
      let! pointer := slice raw start 512 in
      pool_block_pointer_auth pointer (crypto_version key)
    else Ok [] in
  let! mac := slice raw 720 752 in
  with_context "encrypted objset portable MAC mismatch" []
    (authenticate_bytes key (type_ ++ le_bytes 8 0 ++ core ++ concat parts ++ spill) mac).

(** ** The tree under a dnode *)

Definition is_power_of_two (n : Z) : bool := (0 <? n) && (Z.land n (n - 1) =? 0).

(** From a pointer [level] steps above the leaves down to the leaf of [block_id];
    [None] is a hole on the way. *)
Fixpoint indirect_walk (source : ImageRead) (key : option DatasetKey) (endian : Endian) (pointers_per_indirect shift block_id : Z)
    (level : nat) (pointer : PoolBlockPointer) : result (option PoolBlockPointer) :=
  match level with
  | O => Ok (Some pointer)
  | S level =>
      if blk_is_hole (pb_pointer pointer) then Ok None
      else
        let! block := read_pool_block_from source 0 pointer key in
        let! moved := shr block_id (Z.of_nat level * shift) in
        let child_index := default U64_MAX (usize_try_from (Z.land moved (pointers_per_indirect - 1))) in
        let offset := saturating_mul child_index BLKPTR_SIZE in
        let! child := ok_or (get_range block offset (saturating_add offset BLKPTR_SIZE))
          (Msg "indirect child pointer {child_index} is truncated" [child_index]) in
        let! pointer := PoolBlockPointer_parse child endian in
        indirect_walk source key endian pointers_per_indirect shift block_id level pointer
  end.

Definition read_dnode_data_with_key (source : ImageRead) (dnode : PoolDnode) (block_id : Z) (key : option DatasetKey)
  : result (list Z) :=
  let d := pd_dnode dnode in
  fail! (dn_nlevels d =? 0) || (MAX_INDIRECT_LEVELS <? dn_nlevels d)
    with Msg "unsupported dnode indirection level {}" [dn_nlevels d] in
  fail! dn_maxblkid d <? block_id
    with Msg "logical block {block_id} exceeds dnode maximum {}" [block_id; dn_maxblkid d] in
  let pointers_per_indirect := Z.max (indirect_block_size d / BLKPTR_SIZE) 1 in
  fail! negb (is_power_of_two pointers_per_indirect)
    with Msg "dnode indirect block has a non-power-of-two pointer count" [] in
  let shift := Z.log2 pointers_per_indirect in
  let! top_level := sub (dn_nlevels d) 1 in
  let! moved := shr block_id (top_level * shift) in
  let top_index := default U64_MAX (usize_try_from moved) in
  let! pointer := ok_or (blkptr dnode top_index)
    (Msg "logical block {block_id} selects absent top block pointer {top_index}" [block_id; top_index]) in
  let! leaf := indirect_walk source key (dn_endian d) pointers_per_indirect shift block_id (Z.to_nat top_level) pointer in
  match leaf with
  | None => Ok (zrepeat (data_block_size d) 0)
  | Some pointer =>
      if blk_is_hole (pb_pointer pointer) then Ok (zrepeat (data_block_size d) 0)
      else read_pool_block_from source 0 pointer key
  end.

(** ** Objects *)

Definition MAX_ZAP_BYTES : Z := 64 * 1024 * 1024.

Definition dnode_with_key (source : ImageRead) (objset : PoolObjset) (object_id : Z) (key : option DatasetKey)
  : result (option PoolDnode) :=
  let meta := meta_dnode objset in
  let block_size := data_block_size (pd_dnode meta) in
  if block_size <? DNODE_SIZE then Ok None
  else
    let per_block := block_size / DNODE_SIZE in
    let block_id := object_id / per_block in
    if dn_maxblkid (pd_dnode meta) <? block_id then Ok None
    else
      let within := saturating_mul (default U64_MAX (usize_try_from (object_id mod per_block))) DNODE_SIZE in
      let! block := read_dnode_data_with_key source meta block_id key in
      let! raw := ok_or (get_range block within (len block))
        (Msg "dnode object {object_id} starts outside its meta-dnode block" [object_id]) in
      let! dnode := with_context "decoding dnode object {object_id}" [object_id]
        (PoolDnode_parse raw (os_endian (po_objset objset))) in
      Ok (if dn_type (pd_dnode dnode) =? 0 then None else Some dnode).

Definition read_zap_object_with_key (source : ImageRead) (dnode : PoolDnode) (key : option DatasetKey) : result (list Z) :=
  let block_size := data_block_size (pd_dnode dnode) in
  fail! block_size =? 0 with Msg "ZAP object has a zero block size" [] in
  let max_blocks := Z.max (MAX_ZAP_BYTES / block_size) 1 in
  let requested := saturating_add (default U64_MAX (usize_try_from (dn_maxblkid (pd_dnode dnode)))) 1 in
  fail! max_blocks <? requested with Msg "ZAP object exceeds the {MAX_ZAP_BYTES}-byte safety limit" [MAX_ZAP_BYTES] in
  let! blocks := map_res (fun block_id => read_dnode_data_with_key source dnode block_id key) (seqZ 0 requested) in
  Ok (concat blocks).
End crypt.
