(* ===== verification/PoolSource.v ===== *)
(** Sources of an offline pool member, src/src/pool.rs lines 98-483: a file or a
    partition of it as a bounded reader, the cursor a container is read through,
    vdev labels, and the partition tables that lead to the partitions. *)

From S2P Require Import Prelude Bytes Utf8 Stream StreamFacts Compression NvList Encrypted.
From S2P Require Import EncryptedDnode Paths Snapshots ObjectIndex Operations Image DiskImage Partitions Sources PoolBlocks.

(** ** Labels of the crate [zfs_core], and the crate [luks] *)

Record Uberblock := { ub_txg : Z; ub_endian : Endian; ub_rest : list Z }.

Class ZfsLabels := {
  LABEL_SIZE : Z;
  NvConfig : Type;
  get_str : NvConfig -> string -> option (list Z);
  get_u64 : NvConfig -> string -> option Z;
  get_nvlist : NvConfig -> string -> option NvConfig;
  (** The active uberblock and the configuration. *)
  VdevLabel_parse : list Z -> result (Uberblock * NvConfig);
  (** The offsets at the front, and those at the back where there is room. *)
  label_offsets : Z -> list Z * option (list Z);
  rootbp_full : Uberblock -> Blkptr;
}.

(** A label fits into memory; labels are read at offsets of the source. *)
Class ZfsLabelsLaws `{ZfsLabels} := {
  rootbp_fields : forall uberblock, bytes_ok (blk_embedded_payload (rootbp_full uberblock)) /\
    len (blk_checksum_words (rootbp_full uberblock)) = 4 /\ 0 <= blk_level (rootbp_full uberblock);
  label_size : 0 <= LABEL_SIZE <= U32_MAX;
  label_parse_safe : forall bytes, safe (VdevLabel_parse bytes);
  label_offsets_u64 : forall n, is_u64 n -> Forall is_u64 (label_offsets n).1 /\ Forall is_u64 (default [] (label_offsets n).2);
}.

Section source.
Context {D : Type} `{Device D} `{DeviceInfo D} `{ZfsLabels}.

(** ** A file or a partition (lines 98-185) *)

Record FileSource := { fs_file : D; fs_block_size : Z; fs_base_offset : Z; fs_len : Z }.

(** The file is opened read-only before; [open] is given its handle. *)
Definition FileSource_open (platform : Platform) (file : D) : result FileSource :=
  let! length := source_length platform file in
  fail! length <? 4 * LABEL_SIZE
    with Msg "pool member {} is only {len} bytes (too small to contain four ZFS labels)" [length] in
  let! block_size := source_block_size platform file in
  Ok {| fs_file := file; fs_block_size := block_size; fs_base_offset := 0; fs_len := length |}.

Definition FileSource_slice (self : FileSource) (number offset length : Z) : result FileSource :=
  let! end_ := ok_or (checked_add offset length) (Msg "GPT partition {number} byte range overflows" [number]) in
  fail! (length <? 4 * LABEL_SIZE) || (fs_len self <? end_)
    with Msg "GPT partition {number} is outside the source bounds" [number] in
  let! base := ok_or (checked_add (fs_base_offset self) offset) (Msg "GPT partition base offset overflows" []) in
  Ok {| fs_file := fs_file self; fs_block_size := fs_block_size self; fs_base_offset := base; fs_len := length |}.

Definition FileSource_read_exact_at (self : FileSource) (offset n : Z) : result (list Z) :=
  let! end_ := ok_or (checked_add offset n) (Msg "pool-member read offset overflow" []) in
  fail! fs_len self <? end_ with Msg "read [{offset}, {end}) is outside {} ({} bytes)" [offset; end_; fs_len self] in
  let! physical := ok_or (checked_add (fs_base_offset self) offset) (Msg "pool-member physical read offset overflow" []) in
  with_context "reading {} from {}" [n] (source_read_exact_at (fs_file self) (fs_block_size self) physical n).

Definition FileSource_image (self : FileSource) : ImageRead :=
  {| image_len := fs_len self; image_read := FileSource_read_exact_at self |}.

(** ** The cursor (lines 187-232) *)

Record FileSourceCursor := { cur_source : FileSource; cur_position : Z }.

Definition FileSourceCursor_new (source : FileSource) : FileSourceCursor := {| cur_source := source; cur_position := 0 |}.

(** [Read::read]: the bytes delivered. *)
Definition cursor_read (self : FileSourceCursor) (n : Z) : result (list Z * FileSourceCursor) :=
  let length := fs_len (cur_source self) in
  if (n =? 0) || (length <=? cur_position self) then Ok ([], self)
  else
    let! left_ := sub length (cur_position self) in
    let count := default n (usize_try_from (Z.min left_ n)) in
    let! bytes := map_err (fun _ => Foreign "other") (FileSource_read_exact_at (cur_source self) (cur_position self) count) in
    let! position := add (cur_position self) count in
    Ok (bytes, {| cur_source := cur_source self; cur_position := position |}).

Inductive SeekFrom := SeekStart (value : Z) | SeekCurrent (value : Z) | SeekEnd (value : Z).

(** The sums are of i128, which hold them. *)
Definition cursor_seek (self : FileSourceCursor) (position : SeekFrom) : result (Z * FileSourceCursor) :=
  let length := fs_len (cur_source self) in
  let next := match position with
    | SeekStart value => value
    | SeekCurrent value => cur_position self + value
    | SeekEnd value => length + value
    end in
  fail! (next <? 0) || (length <? next) with Foreign "seek is outside the bounded pool source" in
  Ok (next, {| cur_source := cur_source self; cur_position := next |}).

(** ** Containers (lines 234-307) *)

(** The crate [luks] opens a container through the cursor: the size of the payload
    and its reads. *)
Class Luks := { unlock_with_passphrase : FileSourceCursor -> list Z -> result (Z * (Z -> Z -> result (list Z))) }.

Record LuksSource := { lk_payload : Z -> Z -> result (list Z); lk_len : Z }.

Definition LuksSource_read_exact_at (self : LuksSource) (offset n : Z) : result (list Z) :=
  let! end_ := ok_or (checked_add offset n) (Msg "LUKS payload read offset overflows" []) in
  fail! lk_len self <? end_ with Msg "LUKS payload read [{offset}, {end}) exceeds {} bytes" [offset; end_; lk_len self] in
  map_err (Context "reading decrypted LUKS payload" []) (lk_payload self offset n).

Inductive PoolSource := PlainSource (source : FileSource) | LuksContainer (source : LuksSource).

Definition PoolSource_image (self : PoolSource) : ImageRead :=
  match self with
  | PlainSource source => FileSource_image source
  | LuksContainer source => {| image_len := lk_len source; image_read := LuksSource_read_exact_at source |}
  end.

Definition LUKS_MAGIC : list Z := bytes_of_string "LUKS" ++ [0xba; 0xbe].

Definition is_luks (source : FileSource) : result bool :=
  catch (FileSource_read_exact_at source 0 6) (fun magic => Ok (bytes_eqb magic LUKS_MAGIC)) (fun _ => Ok false).

Context `{Luks}.

Definition unlock_luks (source : FileSource) (passphrase : list Z) : result PoolSource :=
  fail! is_empty passphrase with Msg "the LUKS container passphrase is empty" [] in
  let! (length, payload) := map_err (Context "unlocking LUKS container" [])
    (unlock_with_passphrase (FileSourceCursor_new source) passphrase) in
  Ok (LuksContainer {| lk_payload := payload; lk_len := length |}).
End source.
Arguments FileSource D : clear implicits.
Arguments PoolSource D : clear implicits.
Arguments Luks D : clear implicits.

(** ** Labels (lines 309-326) *)

Definition read_label `{ZfsLabels} (source : ImageRead) (parsed : list (Z * (Uberblock * NvConfig))) (offset : Z)
  : result (list (Z * (Uberblock * NvConfig))) :=
  catch (image_read source offset LABEL_SIZE) (fun bytes =>
    catch (VdevLabel_parse bytes) (fun label => Ok (parsed ++ [(offset, label)])) (fun _ => Ok parsed))
    (fun _ => Ok parsed).

(** The labels that can be read; the failures only word a message. *)
Definition read_labels `{ZfsLabels} (source : ImageRead) : result (list (Z * (Uberblock * NvConfig))) :=
  let '(front, back) := label_offsets (image_len source) in
  fold_res (read_label source) [] (front ++ default [] back).

(** ** Partition tables (lines 328-483) *)

Record GptPartition := { gp_number : Z; gp_offset : Z; gp_length : Z }.

Definition pool_mbr_entry (source_len : Z) (sector : list Z) (partitions : list GptPartition) (index : Z) : result (list GptPartition) :=
  let! entry := slice sector (446 + index * 16) (446 + (index + 1) * 16) in
  let! partition_type := Bytes.index entry 4 in
  if (partition_type =? 0) || (partition_type =? 0xee) then Ok partitions
  else
    let! first := slice entry 8 12 in
    let! count := slice entry 12 16 in
    let first_lba := le_val first in
    let sectors := le_val count in
    if (first_lba =? 0) || (sectors =? 0) then Ok partitions
    else
      let! offset := ok_or (checked_mul first_lba 512) (Msg "MBR partition {} offset overflows" [index + 1]) in
      let! length := ok_or (checked_mul sectors 512) (Msg "MBR partition {} length overflows" [index + 1]) in
      let! end_ := ok_or (checked_add offset length) (Msg "MBR partition {} end overflows" [index + 1]) in
      if end_ <=? source_len
      then Ok (partitions ++ [{| gp_number := index + 1; gp_offset := offset; gp_length := length |}])
      else Ok partitions.

Definition mbr_partitions (source : ImageRead) : result (list GptPartition) :=
  let! sector := with_context "reading MBR sector" [] (image_read source 0 512) in
  let! signature := slice sector 510 512 in
  fail! negb (bytes_eqb signature [0x55; 0xaa]) with Msg "MBR signature is absent" [] in
  fold_res (pool_mbr_entry (image_len source) sector) [] (seqZ 0 4).

Definition little_u32 (bytes : list Z) (offset : Z) : result Z :=
  let! end_ := add offset 4 in
  let! value := ok_or (get_range bytes offset end_) (Msg "truncated GPT u32 at byte {offset}" [offset]) in
  Ok (le_val value).

Definition little_u64 (bytes : list Z) (offset : Z) : result Z :=
  let! end_ := add offset 8 in
  let! value := ok_or (get_range bytes offset end_) (Msg "truncated GPT u64 at byte {offset}" [offset]) in
  Ok (le_val value).

Definition pool_gpt_entry (source_len sector_size : Z) (partitions : list GptPartition) (e : Z * list Z) : result (list GptPartition) :=
  let '(index, entry) := e in
  let! type := slice entry 0 16 in
  if all_zero type then Ok partitions
  else
    let! first_lba := little_u64 entry 32 in
    let! last_lba := little_u64 entry 40 in
    if (first_lba =? 0) || (last_lba <? first_lba) then Ok partitions
    else
      let! offset := ok_or (checked_mul first_lba sector_size) (Msg "GPT partition {} offset overflows" [index + 1]) in
      let! sectors := ok_or (match checked_sub last_lba first_lba with Some span => checked_add span 1 | None => None end)
        (Msg "GPT partition {} length overflows" [index + 1]) in
      let! length := ok_or (checked_mul sectors sector_size) (Msg "GPT partition {} byte length overflows" [index + 1]) in
      let! end_ := ok_or (checked_add offset length) (Msg "GPT partition {} end overflows" [index + 1]) in
      if end_ <=? source_len
      then Ok (partitions ++ [{| gp_number := index + 1; gp_offset := offset; gp_length := length |}])
      else Ok partitions.

Section tables.
Context `{Crc32}.

(** The header at sector 1: where the entries are, their number, size and
    checksum; [None] where the next sector size is tried. *)
Definition pool_gpt_header (sector : list Z) : result (option (Z * Z * Z * Z)) :=
  if negb (bool_decide (get_range sector 0 8 = Some EFI_PART)) then Ok None
  else
    let! header_size := little_u32 sector 12 in
    if negb ((92 <=? header_size) && (header_size <=? len sector)) then Ok None
    else
      let! expected_header_crc := little_u32 sector 16 in
      let! header := slice sector 0 header_size in
      let! header := fill header 16 20 0 in
      if negb (crc32_hash header =? expected_header_crc) then Ok None
      else
        let! entries_lba := little_u64 sector 72 in
        let! entry_count := little_u32 sector 80 in
        let! entry_size := little_u32 sector 84 in
        let! expected_entries_crc := little_u32 sector 88 in
        if (entry_count =? 0) || negb ((128 <=? entry_size) && (entry_size <=? 4096)) || negb (Z.land entry_size 7 =? 0)
        then Ok None
        else Ok (Some (entries_lba, entry_count, entry_size, expected_entries_crc)).

(** One sector size. *)
Definition pool_gpt_at (source : ImageRead) (sector_size : Z) : result (option (list GptPartition)) :=
  if image_len source <? saturating_mul sector_size 3 then Ok None
  else
    catch (image_read source sector_size sector_size) (fun sector =>
      let! header := pool_gpt_header sector in
      match header with
      | None => Ok None
      | Some (entries_lba, entry_count, entry_size, expected_entries_crc) =>
          let! table_size := ok_or (match checked_mul entry_count entry_size with
              | Some size => if size <=? 64 * 1024 * 1024 then Some size else None
              | None => None
              end) (Msg "GPT partition table exceeds the 64 MiB safety limit" []) in
          let! table_offset := ok_or (checked_mul entries_lba sector_size) (Msg "GPT partition table offset overflows" []) in
          let! table := with_context "reading GPT partition entries" [] (image_read source table_offset table_size) in
          if negb (crc32_hash table =? expected_entries_crc) then Ok None
          else
            let! partitions := fold_res (pool_gpt_entry (image_len source) sector_size) []
              (enumerate (chunks_exact entry_size table)) in
            Ok (Some partitions)
      end) (fun _ => Ok None).

Fixpoint pool_gpt_search (source : ImageRead) (sizes : list Z) : result (list GptPartition) :=
  match sizes with
  | [] => Err (Msg "no valid GPT header was found ({})" [])
  | sector_size :: sizes =>
      let! partitions := pool_gpt_at source sector_size in
      match partitions with Some partitions => Ok partitions | None => pool_gpt_search source sizes end
  end.

Definition gpt_partitions (source : ImageRead) : result (list GptPartition) := pool_gpt_search source [512; 4096].

(** The partitions of a disk: GPT first, then MBR, then none. *)
Definition partitions_or_none (source : ImageRead) : result (list GptPartition) :=
  catch (gpt_partitions source) Ok (fun _ => catch (mbr_partitions source) Ok (fun _ => Ok [])).
End tables.
