(* ===== verification/PoolBlockFacts.v ===== *)
(** Lemmas on pool blocks: what parsing guarantees, that reads return, which copy
    of a block is returned and what authenticates it, and the walk down a tree of
    indirect blocks. *)

From S2P Require Import Prelude Bytes Stream StreamFacts Compression NvList Encrypted EncryptedDnode.
From S2P Require Import EncryptedFacts DnodeWalks IndexFacts Image DiskImage Partitions PartitionFacts PoolBlocks.

(** ** Pointers and dnodes *)

Definition pointer_ok (p : Blkptr) : Prop := bytes_ok (blk_embedded_payload p) /\ len (blk_checksum_words p) = 4 /\ 0 <= blk_level p.

Definition pool_pointer_ok (p : PoolBlockPointer) : Prop := fixed 128 (pb_raw p) /\ pointer_ok (pb_pointer p).

Definition pool_dnode_ok (d : PoolDnode) : Prop :=
  is_u8 (dn_nlevels (pd_dnode d)) /\ is_u64 (dn_maxblkid (pd_dnode d)) /\ bytes_ok (dn_bonus (pd_dnode d)) /\
  Forall pool_pointer_ok (pd_pointers d).

Section parse.
Context `{ZfsDiskLaws}.

(** The payload's words, in the order of the pointer's, without the property and
    the birth word. *)
Definition payload_words : list Z := [0; 1; 2; 3; 4; 5; 7; 8; 9; 11; 12; 13; 14; 15].

Definition payload_of (raw : list Z) (endian : Endian) : list Z :=
  concat (map (fun word => le_bytes 8 (reader_u64 endian raw (word * 8))) payload_words).

Lemma payload_word_step raw endian done_ rest word :
  len rest >= 8 -> word <> 6 -> word <> 10 ->
  payload_word raw endian (done_ ++ rest, len done_) word =
    Ok ((done_ ++ le_bytes 8 (reader_u64 endian raw (word * 8))) ++ zdrop 8 rest, len (done_ ++ le_bytes 8 (reader_u64 endian raw (word * 8)))).
Proof.
  intros Hl H6 H10. unfold payload_word. rewrite (proj2 (Z.eqb_neq _ _) H6), (proj2 (Z.eqb_neq _ _) H10). cbn [orb]. cbv zeta.
  pose proof (len_nonneg done_). unfold copy_into. rewrite len_le_bytes, !len_app.
  rewrite (proj2 (Z.leb_le 0 _)), (proj2 (Z.leb_le _ _)) by lia. cbn [andb bind].
  rewrite ztake_app_len by done. rewrite zdrop_app, zdrop_all by lia. rewrite <- app_assoc, len_le_bytes. cbn [app].
  repeat f_equal; lia.
Qed.

Definition is_payload_word (word : Z) : bool := negb ((word =? 6) || (word =? 10)).

Lemma payload_words_fold raw endian : forall words done_ rest,
  len rest >= 8 * len (List.filter is_payload_word words) ->
  fold_res (payload_word raw endian) (done_ ++ rest, len done_) words =
    let out := done_ ++ concat (map (fun word => le_bytes 8 (reader_u64 endian raw (word * 8))) (List.filter is_payload_word words)) in
    Ok (out ++ zdrop (8 * len (List.filter is_payload_word words)) rest, len out).
Proof.
  induction words as [|word words IH]; intros done_ rest Hl; cbn zeta.
  - cbn [List.filter map concat fold_res]. by rewrite app_nil_r, zdrop_0 by done.
  - destruct ((word =? 6) || (word =? 10)) eqn:Hw.
    + assert (List.filter is_payload_word (word :: words) = List.filter is_payload_word words) as Hf
        by (cbn [List.filter]; unfold is_payload_word at 1; by rewrite Hw).
      rewrite Hf in *. cbn [fold_res]. unfold payload_word at 1. rewrite Hw. cbn [bind]. by apply IH.
    + assert (List.filter is_payload_word (word :: words) = word :: List.filter is_payload_word words) as Hf
        by (cbn [List.filter]; unfold is_payload_word at 1; by rewrite Hw).
      rewrite Hf in *. b2p. rewrite len_cons in *. pose proof (len_nonneg (List.filter is_payload_word words)).
      cbn [fold_res]. rewrite payload_word_step by (done || lia). cbn [bind]. rewrite IH by (rewrite len_zdrop; lia). cbn zeta.
      cbn [map concat]. rewrite zdrop_zdrop, <- !app_assoc by lia.
      by replace (8 + 8 * len (List.filter is_payload_word words)) with (8 * (1 + len (List.filter is_payload_word words))) by lia.
Qed.

Lemma payload_words_written raw endian payload :
  len payload = 112 ->
  fold_res (payload_word raw endian) (payload, 0) (seqZ 0 16) = Ok (payload_of raw endian, 112).
Proof.
  intros Hl. pose proof (payload_words_fold raw endian (seqZ 0 16) [] payload) as Hf. cbn zeta in Hf.
  change (List.filter is_payload_word (seqZ 0 16)) with payload_words in Hf. change (len payload_words) with 14 in Hf.
  rewrite zdrop_all, app_nil_r in Hf by lia. cbn [app] in Hf. change (len (@nil Z)) with 0 in Hf. rewrite Hf by lia.
  fold (payload_of raw endian). do 2 f_equal.
Qed.

Lemma payload_of_ok raw endian : fixed 112 (payload_of raw endian).
Proof.
  unfold payload_of. cbn [payload_words map concat]. split; [by rewrite !len_app, !len_le_bytes|]. auto 20 with zse.
Qed.

(** An embedded pointer gets its payload words, whatever the crate put there. *)
Lemma parse_blkptr_Ok raw endian :
  parse_blkptr raw endian =
    Ok (if blk_embedded (Blkptr_parse raw endian) then set_payload (Blkptr_parse raw endian) (payload_of raw endian)
        else Blkptr_parse raw endian).
Proof.
  unfold parse_blkptr, correct_embedded_payload. destruct (blk_embedded _); [|done]. cbn [negb].
  by rewrite payload_words_written by apply payload_len.
Qed.

Lemma wp_PoolBlockPointer_parse raw endian :
  bytes_ok raw -> wp (PoolBlockPointer_parse raw endian) (fun p => pool_pointer_ok p /\ pb_endian p = endian).
Proof.
  intros Hb. unfold PoolBlockPointer_parse. rewrite blkptr_size. wp_step. wp_step.
  match goal with Hg : get_range _ _ _ = Some _ |- _ => pose proof (get_range_len _ _ _ _ Hg); apply get_range_Some in Hg as (_ & _ & ->) end.
  wp_step. rewrite parse_blkptr_Ok. do 2 wp_step. split; [|done]. unfold pool_pointer_ok, pointer_ok. cbn [pb_pointer pb_raw].
  assert (bytes_ok (ztake (128 - 0) (zdrop 0 raw))) as Hr by auto with zse. split; [by split|].
  destruct (blk_embedded _); split_and!; cbn; try apply checksum_words; try apply pointer_level; [apply payload_of_ok|by apply payload_bytes].
Qed.

Lemma wp_PoolDnode_parse raw endian :
  bytes_ok raw -> wp (PoolDnode_parse raw endian) pool_dnode_ok.
Proof.
  intros Hb. unfold PoolDnode_parse. wp_step. wp_step. match goal with Hp : Dnode_parse _ _ = Some _ |- _ => apply dnode_levels in Hp as (? & ? & Hbonus) end.
  wp_step. eapply wp_mono; [|apply (wp_map_res _ pool_pointer_ok)].
  - intros ps [Hps _]. wp_steps. split_and!; cbn; auto.
  - intros index _. wp_step. wp_step. match goal with Hg : get_range _ _ _ = Some _ |- _ => apply get_range_Some in Hg as (_ & _ & ->) end.
    eapply wp_mono; [|apply wp_PoolBlockPointer_parse; auto with zse]. by intros p [? _].
Qed.

Lemma wp_PoolObjset_parse raw endian :
  bytes_ok raw -> wp (PoolObjset_parse raw endian) (fun o => pool_dnode_ok (meta_dnode o)).
Proof.
  intros Hb. unfold PoolObjset_parse. wp_step. eapply wp_mono; [|apply objset_parse_safe]. intros objset _.
  wp_step. eapply wp_mono; [|by apply wp_PoolDnode_parse]. intros d Hd. by apply wp_Ok.
Qed.
End parse.

(** ** One block from its copies *)

(** The first copy that reads, where every copy before it was passed over. *)
Lemma first_copy_Some read dvas data :
  first_copy read dvas = Ok (Some data) <->
  exists before dva after, dvas = before ++ dva :: after /\ Forall (fun d => read d = Ok None) before /\ read dva = Ok (Some data).
Proof.
  induction dvas as [|dva dvas IH]; cbn [first_copy].
  - split; [done|]. by intros ([]&?&?&?&_).
  - rewrite bind_Ok. split.
    + intros ([found|] & Hr & Hk); [injection Hk as ->; by exists [], dva, dvas|].
      apply IH in Hk as (before & d & after & -> & Hb & Hd). exists (dva :: before), d, after. auto.
    + intros ([|b before] & d & after & [= -> ->] & Hb & Hd); [by exists (Some data)|].
      apply List.Forall_cons_iff in Hb as [Hb1 Hb]. exists None. split; [done|]. apply IH. eauto 10.
Qed.

Lemma first_copy_None read dvas : first_copy read dvas = Ok None <-> Forall (fun d => read d = Ok None) dvas.
Proof.
  induction dvas as [|dva dvas IH]; cbn [first_copy]; [done|]. rewrite bind_Ok, List.Forall_cons_iff, <- IH.
  split; [intros ([found|] & Hr & Hk); [done|auto]|]. intros [Hr Hk]. by exists None.
Qed.

Lemma first_copy_total read dvas : (forall dva, exists o, read dva = Ok o) -> exists o, first_copy read dvas = Ok o.
Proof.
  intros Hr. induction dvas as [|dva dvas [o IH]]; cbn [first_copy]; [by eexists|]. destruct (Hr dva) as [[data|] ->]; cbn [bind]; eauto.
Qed.

Lemma wp_first_copy read dvas (P : list Z -> Prop) :
  (forall dva, dva ∈ dvas -> wp (read dva) (fun o => forall data, o = Some data -> P data)) ->
  wp (first_copy read dvas) (fun o => forall data, o = Some data -> P data).
Proof.
  induction dvas as [|dva dvas IH]; intros Hr; cbn [first_copy]; [by apply wp_Ok|].
  apply wp_bind. eapply wp_mono; [|apply Hr; set_solver]. intros [data|] Hd; [by apply wp_Ok|]. apply IH. intros d Hd'. apply Hr. set_solver.
Qed.

Lemma wp_attempt {A B} (m : result A) (k : A -> result (option B)) (Q : A -> Prop) (P : B -> Prop) :
  wp m Q -> (forall a, Q a -> wp (k a) (fun o => forall b, o = Some b -> P b)) ->
  wp (attempt m k) (fun o => forall b, o = Some b -> P b).
Proof. intros Hm Hk. unfold attempt. eapply wp_catch; [exact Hm|exact Hk|]. intros e. by apply wp_Ok. Qed.

Lemma attempt_Some {A B} (m : result A) (k : A -> result (option B)) b :
  attempt m k = Ok (Some b) <-> exists a, m = Ok a /\ k a = Ok (Some b).
Proof. unfold attempt. destruct m; cbn; naive_solver. Qed.

Section blocks.
Context `{ZfsDiskLaws} `{CodecLaws}.

(** A copy that can be read: where it lies, its checksum where the function has one,
    and what its bytes expand to. *)
Record good_copy (source : ImageRead) (vdev : Z) (pointer : Blkptr) (dva : Dva) (data : list Z) : Prop := {
  gc_present : dva_is_empty dva = false;
  gc_vdev : dva_vdev dva = vdev;
  gc_gang : dva_gang dva = false;
  gc_read : exists raw, image_read source (physical_byte_offset dva) (psize_bytes pointer) = Ok raw /\
    checksum_verify (ChecksumType_from_raw (blk_checksum pointer)) (blk_byteorder pointer) raw (blk_checksum_words pointer) <> Some false /\
    decompress_block (blk_compression pointer) raw (lsize_bytes pointer) = Ok data;
}.

Lemma read_copy_Some source vdev pointer dva data :
  read_copy source vdev pointer (ChecksumType_from_raw (blk_checksum pointer)) dva = Ok (Some data) <->
  good_copy source vdev pointer dva data.
Proof.
  unfold read_copy. split.
  - destruct (dva_is_empty dva) eqn:He; [done|]. destruct (Z.eqb_spec (dva_vdev dva) vdev) as [Hv|]; [|done].
    destruct (dva_gang dva) eqn:Hg; [done|]. cbn [negb]. rewrite attempt_Some. intros (raw & Hraw & Hk). case_bool_decide as Hc; [done|].
    apply attempt_Some in Hk as (d & Hd & [= ->]). split; eauto.
  - intros [He Hv Hg (raw & Hraw & Hc & Hd)]. rewrite He, Hv, Z.eqb_refl, Hg. cbn [negb]. rewrite attempt_Some.
    exists raw. split; [done|]. rewrite bool_decide_false by done. apply attempt_Some. eauto.
Qed.

Lemma wp_read_copy source vdev pointer checksum dva :
  image_ok source -> psize_bytes pointer <= MAX_BLOCK_SIZE -> lsize_bytes pointer <= MAX_BLOCK_SIZE ->
  wp (read_copy source vdev pointer checksum dva) (fun o => forall data, o = Some data -> exact_block (lsize_bytes pointer) data).
Proof.
  intros Hi Hp Hl. pose proof max_block_size. pose proof (psize_u64 pointer). unfold read_copy.
  apply wp_if; intros _; [by apply wp_Ok|]. apply wp_if; intros _; [by apply wp_Ok|]. apply wp_if; intros _; [by apply wp_Ok|].
  eapply wp_attempt.
  - apply (wp_image_read _ _ _ bytes_ok); [done|apply offset_u64|u64|]. by intros bytes [_ ?].
  - intros raw Hraw. apply wp_if; intros _; [by apply wp_Ok|]. eapply wp_attempt; [apply wp_decompress_block; [done|lia]|].
    intros data Hd. apply wp_Ok. by intros ? [= <-].
Qed.

Definition sizes_fit (pointer : Blkptr) : Prop :=
  0 < lsize_bytes pointer <= MAX_BLOCK_SIZE /\ 0 < psize_bytes pointer <= MAX_BLOCK_SIZE.

(** A pointer whose block is stored in copies of its own. *)
Definition in_copies (pointer : Blkptr) : Prop :=
  sizes_fit pointer /\ blk_embedded pointer = false /\ blk_is_hole pointer = false /\
  unsupported_checksum (ChecksumType_from_raw (blk_checksum pointer)) = false.

Lemma read_block_copies source vdev pointer :
  in_copies pointer ->
  read_block_from source vdev pointer =
    let! data := first_copy (read_copy source vdev pointer (ChecksumType_from_raw (blk_checksum pointer))) (blk_dvas pointer) in
    ok_or data (Msg "no readable copy of block pointer: {}" []).
Proof.
  intros ([Hl Hp] & He & Hh & Hc). unfold read_block_from. rewrite He, Hh, Hc.
  rewrite (proj2 (Z.eqb_neq (lsize_bytes pointer) 0)), (proj2 (Z.ltb_ge _ (lsize_bytes pointer))) by lia.
  rewrite (proj2 (Z.eqb_neq (psize_bytes pointer) 0)), (proj2 (Z.ltb_ge _ (psize_bytes pointer))) by lia. done.
Qed.

Lemma wp_read_block_from source vdev pointer :
  image_ok source -> pointer_ok pointer -> wp (read_block_from source vdev pointer) (exact_block (lsize_bytes pointer)).
Proof.
  intros Hi (Hpay & _). pose proof (lsize_u64 pointer). pose proof (psize_u64 pointer). pose proof max_block_size. unfold read_block_from.
  apply wp_if; intros Hl; [apply wp_Err|]. b2p. apply wp_if; intros _; [apply wp_decompress_block; [by apply embedded_bytes|lia]|].
  apply wp_if; intros _; [apply wp_Ok; split; [rewrite len_zrepeat; u64|auto with zse]|].
  apply wp_if; intros Hp; [apply wp_Err|]. b2p. apply wp_if; intros _; [apply wp_Err|].
  apply wp_bind. eapply wp_mono; [|apply (wp_first_copy _ _ (exact_block (lsize_bytes pointer)))].
  - intros o Ho. apply wp_ok_or. apply Ho.
  - intros dva _. by apply wp_read_copy.
Qed.

Lemma attempt_total {A B} (m : result A) (k : A -> result (option B)) :
  safe m -> (forall a, m = Ok a -> exists o, k a = Ok o) -> exists o, attempt m k = Ok o.
Proof. unfold attempt. destruct m; cbn; naive_solver. Qed.

Lemma read_copy_total source vdev pointer checksum dva :
  image_ok source -> psize_bytes pointer <= MAX_BLOCK_SIZE -> lsize_bytes pointer <= MAX_BLOCK_SIZE ->
  exists o, read_copy source vdev pointer checksum dva = Ok o.
Proof.
  intros Hi Hp Hl. pose proof max_block_size. pose proof (psize_u64 pointer). unfold read_copy.
  do 3 (case_match; [by eexists|]).
  assert (wp (image_read source (physical_byte_offset dva) (psize_bytes pointer)) bytes_ok) as Hr.
  { apply wp_image_read; [done|apply offset_u64|u64|]. by intros bytes [_ ?]. }
  apply attempt_total; [by eapply wp_safe|]. intros raw Hraw. case_match; [by eexists|].
  apply attempt_total; [|by eexists]. eapply wp_safe, wp_decompress_block; [|lia]. by apply (wp_value _ _ _ Hr).
Qed.

Lemma read_copy_None source vdev pointer dva :
  image_ok source -> psize_bytes pointer <= MAX_BLOCK_SIZE -> lsize_bytes pointer <= MAX_BLOCK_SIZE ->
  read_copy source vdev pointer (ChecksumType_from_raw (blk_checksum pointer)) dva = Ok None <->
  forall data, ~ good_copy source vdev pointer dva data.
Proof.
  intros Hi Hp Hl. destruct (read_copy_total source vdev pointer (ChecksumType_from_raw (blk_checksum pointer)) dva) as [[data|] Ho]; [done..|split|split].
  - rewrite Ho. done.
  - intros Hno. exfalso. by eapply Hno, read_copy_Some.
  - intros _ data Hg%read_copy_Some. congruence.
  - done.
Qed.

(** A block is its first copy that can be read; it is found where there is one. *)
Lemma read_block_first source vdev pointer :
  image_ok source -> in_copies pointer ->
  (forall data, read_block_from source vdev pointer = Ok data <->
   exists before dva after, blk_dvas pointer = before ++ dva :: after /\ Forall (fun d => forall other, ~ good_copy source vdev pointer d other) before /\ good_copy source vdev pointer dva data) /\
  ((exists dva data, dva ∈ blk_dvas pointer /\ good_copy source vdev pointer dva data) ->
   exists data, read_block_from source vdev pointer = Ok data).
Proof.
  intros Hi Hin. rewrite read_block_copies by done. destruct Hin as ([Hl Hps] & _).
  assert (forall dvas, Forall (fun d => read_copy source vdev pointer (ChecksumType_from_raw (blk_checksum pointer)) d = Ok None) dvas <->
    Forall (fun d => forall other, ~ good_copy source vdev pointer d other) dvas) as Hall.
  { intros dvas. rewrite !List.Forall_forall. setoid_rewrite read_copy_None; [done|done|lia|lia]. }
  split.
  - intros data. rewrite bind_Ok. split.
    + intros ([x|] & Hf & Hk); [|done]. injection Hk as ->. apply first_copy_Some in Hf as (before & dva & after & ? & Hb & Hd).
      exists before, dva, after. by rewrite <- Hall, <- read_copy_Some.
    + intros (before & dva & after & ? & Hb & Hd). exists (Some data). split; [|done]. apply first_copy_Some. exists before, dva, after.
      by rewrite Hall, read_copy_Some.
  - intros (dva & data & Hdva & Hg).
    destruct (first_copy_total (read_copy source vdev pointer (ChecksumType_from_raw (blk_checksum pointer))) (blk_dvas pointer)) as [[x|] Hf].
    + intros d. apply read_copy_total; [done|lia|lia].
    + rewrite Hf. by eexists.
    + exfalso. apply first_copy_None, Hall in Hf. rewrite List.Forall_forall in Hf. by eapply Hf; [apply list_elem_of_In|].
Qed.
End blocks.

(** ** Encrypted blocks *)

Section crypt.
Context `{ZfsDiskLaws} `{CodecLaws} `{CryptoLaws}.

Lemma wp_fold_word computed i j : len computed = 4 -> 0 <= i < 4 -> 0 <= j < 4 -> wp (fold_word computed i j) (fun l => len l = 4).
Proof.
  intros Hl Hi Hj. unfold fold_word. apply wp_bind, wp_index; [lia|]. intros a _. apply wp_bind, wp_index; [lia|]. intros b _.
  apply wp_set_index; [lia|]. by intros ->.
Qed.

Lemma wp_physical_checksum pointer checksum raw :
  unsupported_checksum checksum = false ->
  wp (physical_checksum pointer checksum raw) (fun o => forall computed, o = Some computed -> len computed = 4).
Proof.
  intros Hc. unfold physical_checksum.
  assert (forall computed, len computed = 4 ->
    wp (let! computed := fold_word computed 0 2 in let! computed := fold_word computed 1 3 in Ok (Some computed))
      (fun o => forall computed, o = Some computed -> len computed = 4)) as Hfold.
  { intros computed Hl. wp_step. eapply wp_mono; [|apply wp_fold_word; [done|lia|lia]]. intros l1 Hl1. wp_step.
    eapply wp_mono; [|apply wp_fold_word; [done|lia|lia]]. intros l2 Hl2. apply wp_Ok. by intros ? [= <-]. }
  destruct checksum; try done; cbn [bind].
  - case_match; [intros ? [= <-]; apply fletcher2_words|apply Hfold, fletcher2_words].
  - case_match; [intros ? [= <-]; apply fletcher4_words|apply Hfold, fletcher4_words].
  - intros ? [= <-]. apply sha256_words.
Qed.

Lemma wp_checksum_mismatch pointer computed :
  len (blk_checksum_words pointer) = 4 -> (forall c, computed = Some c -> len c = 4) -> safe (checksum_mismatch pointer computed).
Proof.
  intros Hw Hc. unfold checksum_mismatch. destruct computed as [c|]; [|done]. specialize (Hc c eq_refl). case_match; [done|].
  unfold safe. apply wp_bind, wp_slice; [lia|lia|]. intros a _ _. apply wp_bind, wp_slice; [lia|lia|]. intros b _ _. by apply wp_Ok.
Qed.

Definition pointer_mac (pointer : PoolBlockPointer) : list Z := ztake 16 (zdrop 112 (pb_raw pointer)).

Lemma slice_mac (pointer : PoolBlockPointer) : fixed 128 (pb_raw pointer) -> slice (E:=error) (pb_raw pointer) 112 128 = Ok (pointer_mac pointer).
Proof. intros [Hl _]. by apply slice_Ok; rewrite Hl. Qed.

Lemma wp_pool_crypt_params raw :
  fixed 128 raw -> wp (pool_crypt_params raw) (fun '(salt, iv, mac) => fixed 8 salt /\ fixed 12 iv /\ fixed 16 mac).
Proof.
  intros [Hl Hb]. unfold pool_crypt_params. apply wp_bind, wp_slice_fixed; [done|lia|lia|]. intros salt Hsalt.
  apply wp_bind, wp_slice_fixed; [done|lia|lia|]. intros word [Hw Hwb]. apply wp_bind, wp_slice_fixed; [done|lia|lia|]. intros tail [Ht Htb].
  apply wp_bind, wp_copy_into; [lia|rewrite len_zrepeat; lia|]. intros Hl1.
  apply wp_bind, wp_copy_into; [lia|rewrite Hl1, len_zrepeat; lia|]. intros Hl2.
  apply wp_bind, wp_slice_fixed; [done|lia|lia|]. intros mac Hmac. apply wp_Ok. split; [done|]. split; [|done].
  split; [by rewrite Hl2, Hl1, len_zrepeat|]. auto 10 with zse.
Qed.

Lemma wp_indirect_mac block version : bytes_ok block -> wp (indirect_mac block version) (fun mac => len mac = 16).
Proof.
  intros Hb. unfold indirect_mac. rewrite blkptr_size. wp_step. apply wp_bind. eapply wp_mono; [|apply (wp_map_res _ bytes_ok)].
  - intros parts _. destruct (sha512_len (concat parts)) as [Hl _]. apply wp_slice; [lia|lia|]. by intros s _ ->.
  - intros chunk Hc. apply wp_pool_block_pointer_auth; [|done].
    apply List.Forall_forall. intros x Hx%list_elem_of_In. assert (x ∈ block) as Hin.
    { rewrite <- (chunks_concat 128 block) by lia. by eapply concat_elem. }
    apply list_elem_of_In in Hin. by eapply List.Forall_forall in Hin.
Qed.

Lemma wp_protected_data key pointer body parameters raw :
  fixed 128 (pb_raw pointer) -> bytes_ok raw -> len raw <= ISIZE_MAX ->
  wp (protected_data key pointer body parameters raw) bytes_ok.
Proof.
  intros Hp Hr Hl. unfold protected_data. destruct parameters as [[salt iv] mac]. destruct body.
  - destruct (_ =? DMU_OT_DNODE); [|by apply wp_decrypt_block].
    eapply wp_mono; [|by apply wp_decrypt_pool_dnode_block]. by intros out (w & _ & _ & _ & Hb & _).
  - destruct (_ && _); [|by apply wp_Ok]. rewrite slice_mac by done. cbn [bind]. apply wp_bind, wp_with_context, wp_authenticate. by apply wp_Ok.
Qed.

Lemma wp_read_pool_copy source vdev pointer key checksum dva :
  image_ok source -> pool_pointer_ok pointer -> unsupported_checksum checksum = false ->
  psize_bytes (pb_pointer pointer) <= MAX_BLOCK_SIZE -> lsize_bytes (pb_pointer pointer) <= MAX_BLOCK_SIZE ->
  wp (read_pool_copy source vdev pointer key checksum dva)
    (fun o => forall data, o = Some data -> exact_block (lsize_bytes (pb_pointer pointer)) data).
Proof.
  intros Hi [Hraw (Hpay & Hwords & _)] Hsup Hp Hl. pose proof max_block_size. pose proof (psize_u64 (pb_pointer pointer)).
  unfold read_pool_copy. cbv zeta.
  apply wp_if; intros _; [by apply wp_Ok|]. apply wp_if; intros _; [by apply wp_Ok|]. apply wp_if; intros _; [by apply wp_Ok|].
  eapply wp_attempt.
  - apply (wp_image_read _ _ _ (fixed (psize_bytes (pb_pointer pointer)))); [done|apply offset_u64|u64|done].
  - intros raw [Hrl Hrb]. wp_step. eapply wp_mono; [|by apply wp_physical_checksum]. intros computed Hc.
    wp_step. eapply wp_mono; [|by apply wp_checksum_mismatch]. intros mismatch _. destruct mismatch; [by apply wp_Ok|].
    apply wp_bind. eapply wp_mono with (P := fun _ => True).
    2: { destruct (is_body_encrypted _); [|done]. by eapply wp_safe, wp_pool_crypt_params. }
    intros parameters _. eapply wp_attempt; [apply wp_protected_data; [done|done|lia]|].
    intros protected Hprot. eapply wp_attempt; [apply wp_decompress_block; [done|lia]|]. intros decoded [Hdl Hdb].
    apply wp_if; intros _; [|apply wp_Ok; by intros ? [= <-]]. wp_step. eapply wp_mono; [|by apply wp_indirect_mac]. intros digest _.
    rewrite slice_mac by done. cbn [bind]. apply wp_Ok. intros data. by destruct (bytes_eqb _ _); intros [= <-].
Qed.

Lemma wp_read_pool_block_from source vdev pointer key :
  image_ok source -> pool_pointer_ok pointer ->
  wp (read_pool_block_from source vdev pointer key) (exact_block (lsize_bytes (pb_pointer pointer))).
Proof.
  intros Hi Hp. unfold read_pool_block_from. cbv zeta. apply wp_if; intros _; [apply wp_read_block_from; [done|apply Hp]|].
  wp_step. wp_step. apply wp_if; intros Hl; [apply wp_Err|]. apply wp_if; intros Hps; [apply wp_Err|]. b2p.
  apply wp_if; intros _; [apply wp_Err|]. apply wp_if; intros Hc; [apply wp_Err|].
  apply wp_bind. eapply wp_mono; [|apply (wp_first_copy _ _ (exact_block (lsize_bytes (pb_pointer pointer))))].
  - intros o Ho. apply wp_ok_or. apply Ho.
  - intros dva _. by apply wp_read_pool_copy.
Qed.

(** What vouches for a block: the AEAD tag of an encrypted body, the HMAC of a
    plain one, the digest of an indirect block's portable pointers. An object set
    is authenticated by its own code, [verify_objset_mac]. *)
Inductive vouched (key : DatasetKey) (pointer : PoolBlockPointer) (raw data : list Z) : list Z -> Prop :=
| vouched_dnodes salt iv mac plain :
    is_body_encrypted (pb_pointer pointer) = true -> blk_object_type (pb_pointer pointer) = DMU_OT_DNODE ->
    pool_crypt_params (pb_raw pointer) = Ok (salt, iv, mac) ->
    decrypt_pool_dnode_block key salt iv mac raw = Ok plain -> vouched key pointer raw data plain
| vouched_body salt iv mac plain :
    is_body_encrypted (pb_pointer pointer) = true -> blk_object_type (pb_pointer pointer) <> DMU_OT_DNODE ->
    pool_crypt_params (pb_raw pointer) = Ok (salt, iv, mac) ->
    decrypt_block key salt iv mac [] raw = Ok plain -> vouched key pointer raw data plain
| vouched_hmac :
    is_body_encrypted (pb_pointer pointer) = false -> blk_level (pb_pointer pointer) = 0 ->
    ztake 16 (hmac_sha512 (hmac_key key) raw) = pointer_mac pointer -> vouched key pointer raw data raw
| vouched_indirect :
    is_body_encrypted (pb_pointer pointer) = false -> 0 < blk_level (pb_pointer pointer) ->
    indirect_mac data (crypto_version key) = Ok (pointer_mac pointer) -> vouched key pointer raw data raw
| vouched_objset :
    blk_level (pb_pointer pointer) = 0 -> blk_object_type (pb_pointer pointer) = DMU_OT_OBJSET -> vouched key pointer raw data raw.

Lemma authenticated key raw mac : len mac = 16 -> authenticate_block key raw mac = Ok tt -> ztake 16 (hmac_sha512 (hmac_key key) raw) = mac.
Proof.
  intros Hm. unfold authenticate_block, authenticate_bytes. rewrite Hm. cbn [Z.eqb Z.ltb Z.compare Pos.compare Pos.compare_cont orb].
  intros Ha. apply bind_Ok in Ha as (digest & Hs & Ha). apply slice_Ok in Hs as (_ & _ & ->).
  destruct (bytes_eqb _ _) eqn:He; [|done]. by apply bytes_eqb_eq in He.
Qed.

Lemma read_pool_copy_vouched source vdev pointer key checksum dva data :
  pool_pointer_ok pointer ->
  read_pool_copy source vdev pointer key checksum dva = Ok (Some data) ->
  exists raw plain, dva_vdev dva = vdev /\ image_read source (physical_byte_offset dva) (psize_bytes (pb_pointer pointer)) = Ok raw /\
    vouched key pointer raw data plain /\
    decompress_block (blk_compression (pb_pointer pointer)) plain (lsize_bytes (pb_pointer pointer)) = Ok data.
Proof.
  intros [Hraw (_ & _ & Hlevel)]. unfold read_pool_copy. cbv zeta.
  destruct (dva_is_empty dva); [done|]. destruct (Z.eqb_spec (dva_vdev dva) vdev) as [Hv|]; [|done]. cbn [negb].
  destruct (dva_gang dva); [done|]. intros (raw & Hr & Hk)%attempt_Some. apply bind_Ok in Hk as (computed & _ & Hk).
  apply bind_Ok in Hk as (mismatch & _ & Hk). destruct mismatch; [done|]. apply bind_Ok in Hk as (parameters & Hparams & Hk).
  apply attempt_Some in Hk as (plain & Hplain & Hk). apply attempt_Some in Hk as (decoded & Hdec & Hk).
  assert (decoded = data /\ (0 < blk_level (pb_pointer pointer) -> indirect_mac decoded (crypto_version key) = Ok (pointer_mac pointer))) as [-> Hmac].
  { destruct (Z.ltb_spec 0 (blk_level (pb_pointer pointer))); [|injection Hk as ->; split; [done|lia]].
    apply bind_Ok in Hk as (digest & Hdig & Hk). rewrite slice_mac in Hk by done. cbn [bind] in Hk.
    destruct (bytes_eqb _ _) eqn:He; [|done]. injection Hk as ->. apply bytes_eqb_eq in He as ->. done. }
  exists raw, plain. split; [done|]. split; [done|]. split; [|done]. unfold protected_data in Hplain.
  destruct (is_body_encrypted (pb_pointer pointer)) eqn:Hbody.
  - destruct parameters as [[salt iv] mac].
    destruct (Z.eqb_spec (blk_object_type (pb_pointer pointer)) DMU_OT_DNODE); [by eapply vouched_dnodes|by eapply vouched_body].
  - destruct (Z.eqb_spec (blk_level (pb_pointer pointer)) 0) as [Hl|Hl].
    + destruct (Z.eqb_spec (blk_object_type (pb_pointer pointer)) DMU_OT_OBJSET) as [Ho|Ho]; cbn [andb negb] in Hplain.
      * destruct parameters as [[? ?] ?]. injection Hplain as <-. by apply vouched_objset.
      * destruct parameters as [[? ?] ?]. rewrite slice_mac in Hplain by done. cbn [bind] in Hplain.
        apply bind_Ok in Hplain as ([] & Ha & [= <-]). apply map_err_Ok in Ha. apply vouched_hmac; [done..|].
        apply authenticated; [|done]. destruct Hraw as [Hlen _]. unfold pointer_mac. rewrite len_ztake, len_zdrop. lia.
    + cbn [andb] in Hplain. destruct parameters as [[? ?] ?]. injection Hplain as <-.
      apply vouched_indirect; [done|lia|]. apply Hmac. lia.
Qed.

(** A block under an encrypted pointer is returned with a key only, and vouched for. *)
Lemma read_pool_block_vouched source vdev pointer key data :
  pool_pointer_ok pointer -> uses_crypt pointer = true ->
  read_pool_block_from source vdev pointer key = Ok data ->
  exists k dva raw plain, key = Some k /\ dva ∈ blk_dvas (pb_pointer pointer) /\
    image_read source (physical_byte_offset dva) (psize_bytes (pb_pointer pointer)) = Ok raw /\
    vouched k pointer raw data plain /\
    decompress_block (blk_compression (pb_pointer pointer)) plain (lsize_bytes (pb_pointer pointer)) = Ok data.
Proof.
  intros Hp Hu. unfold read_pool_block_from. rewrite Hu. cbn [negb]. cbv zeta. intros Hk. apply bind_Ok in Hk as (k & Hkey & Hk).
  apply ok_or_Ok in Hkey. do 4 (case_match; [done|]). apply bind_Ok in Hk as ([x|] & Hf & Hk); [|done]. injection Hk as ->.
  apply first_copy_Some in Hf as (before & dva & after & Hd & _ & Hr).
  apply read_pool_copy_vouched in Hr as (raw & plain & _ & Hr & Hv & Hdec); [|done].
  exists k, dva, raw, plain. split_and!; try done. assert (dva ∈ ztake (if is_body_encrypted (pb_pointer pointer) then 2 else 3) (blk_dvas (pb_pointer pointer))) as Hin
    by (rewrite Hd; set_solver). rewrite <- (ztake_zdrop (if is_body_encrypted (pb_pointer pointer) then 2 else 3)). set_solver.
Qed.
End crypt.
