(* ===== verification/Pool.v ===== *)
(** An opened pool member, src/src/pool.rs: the datasets and snapshots of the pool
    (lines 828-928 and 1170-1211), encryption parameters (1213-1282), selecting a
    dataset and its object set (1284-1419), and paths, directories and files
    inside it (930-978, 1421-1454). *)

From stdpp Require Import sorting.
From S2P Require Import Prelude Bytes Utf8 Stream StreamFacts Compression NvList Encrypted.
From S2P Require Import EncryptedDnode Paths Snapshots ObjectIndex Resolve Sparse Operations Image DiskImage Partitions Volumes.
From S2P Require Import PoolBlocks.
#[local] Open Scope Z_scope.
#[local] Open Scope zse_scope.

(** ** Constants (lines 35-44) *)

Definition MAX_DATASETS : Z := 16384.
Definition MAX_SNAPSHOTS_PER_DATASET : Z := 65536.
Definition ZPL_MASTER_NODE_OBJ : Z := 1.
Definition DD_FIELD_CRYPTO_KEY_OBJ : string := "com.datto:crypto_key_obj".
Definition MAX_DSL_PARENT_WALK : nat := 64.

(** ** What else the crate [zfs_core] gives *)

Class PoolCore `{ZfsCore} := {
  zap_list_arrays : list Z -> list (list Z * list Z);
  sa_registry_default : SaRegistry;
  sa_layouts_default : SaLayouts;
  sa_bonus_of : list Z -> SaRegistry -> SaLayouts -> Endian -> option ZplAttrs;
  znode_phys_of : list Z -> Endian -> option ZplAttrs;
}.

(** A size is a u64. *)
Class PoolCoreLaws `{PoolCore} := {
  sa_bonus_size : forall bonus registry layouts endian attrs,
    sa_bonus_of bonus registry layouts endian = Some attrs -> is_u64 (zp_size attrs);
  znode_phys_size : forall bonus endian attrs, znode_phys_of bonus endian = Some attrs -> is_u64 (zp_size attrs);
}.

(** ** Data (lines 46-96) *)

Record DatasetInfo := { di_name : list Z; di_dsl_dir_object : Z; di_head_dataset_object : Z; di_head_guid : list Z }.

Record PoolSnapshot := {
  sn_dataset : list Z; sn_name : list Z; sn_full_name : list Z; sn_dataset_object : Z; sn_guid : list Z;
  sn_creation_txg : Z; sn_creation_time : Z;
}.

Record PoolExtraction := {
  pe_path : list Z; pe_object_id : Z; pe_logical_size : Z; pe_sha256 : list Z; pe_sidecar_written : bool;
}.

(** The source is what the labels were read from; of the container, only whether
    there is one. *)
Record PoolMember := {
  pm_source : ImageRead; pm_backup_format : list Z; pm_container_encryption : bool; pm_pool_name : list Z;
  pm_pool_guid : Z; pm_vdev_guid : Z; pm_vdev_type : list Z; pm_top_level_vdevs : Z; pm_txg : Z;
  pm_endian : Endian; pm_mos : PoolObjset;
}.

Record PoolInspection := {
  pi_backup_format : list Z; pi_container_encryption : bool; pi_pool_name : list Z; pi_pool_guid : list Z;
  pi_vdev_guid : list Z; pi_vdev_type : list Z; pi_top_level_vdevs : Z; pi_source_bytes : Z; pi_txg : Z;
  pi_endian : list Z; pi_datasets : Z; pi_snapshots : Z;
}.

(** ** Small operations *)

(** [s.split_once(c)] *)
Definition split_once (c : Z) (s : list Z) : option (list Z * list Z) :=
  match split_on c s with
  | first :: (_ :: _) as rest => Some (first, join c rest)
  | _ => None
  end.

(** Sorting by a name; [sort_by] is stable. *)
Definition by_name {A} (name : A -> list Z) (x y : A) : Prop := bytes_leb (name x) (name y) = true.
#[export] Instance by_name_dec {A} (name : A -> list Z) : RelDecision (by_name name).
Proof. intros x y. unfold by_name. apply _. Defined.
Definition sort_by_name {A} (name : A -> list Z) (l : list A) : list A := merge_sort (by_name name) l.

Definition pool_parse_guid (value : list Z) : option Z :=
  match strip_prefix (bytes_of_string "0x") value with
  | Some hex => from_str_radix 16 U64_MAX hex
  | None => None
  end.

Definition pool_normalize_path (path : list Z) : result (list Z) :=
  let! parts := fold_res (fun parts component =>
      fail! is_dots component with Msg "path components '.' and '..' are not accepted" [] in
      Ok (parts ++ [component]))
    [] (components path) in
  if is_empty parts then Ok [SLASH] else Ok (SLASH :: join SLASH parts).

Section pool.
Context `{ZfsDisk} `{Codecs} `{Crypto} `{PoolCore}.

Definition dataset_guid (dnode : PoolDnode) : Z :=
  reader_u64 (dn_endian (pd_dnode dnode)) (dn_bonus (pd_dnode dnode)) 112.

(** A 64-bit field of a dnode's bonus buffer. *)
Definition bonus_u64 (dnode : PoolDnode) (offset : Z) : Z :=
  reader_u64 (dn_endian (pd_dnode dnode)) (dn_bonus (pd_dnode dnode)) offset.

Definition attrs (dnode : PoolDnode) (registry : SaRegistry) (layouts : SaLayouts) : option ZplAttrs :=
  let d := pd_dnode dnode in
  if dn_bonustype d =? DMU_OT_SA then sa_bonus_of (dn_bonus d) registry layouts (dn_endian d)
  else if dn_bonustype d =? DMU_OT_ZNODE then znode_phys_of (dn_bonus d) (dn_endian d)
  else None.

(** The walk over the layout: unlike that of a snapshot it takes the size
    attribute's own length as eight. *)
Fixpoint pool_attribute_walk (registry : SaRegistry) (size_id length : Z) (offset : Z) (ids : list Z) : result (option Z) :=
  match ids with
  | [] => Ok None
  | id :: ids =>
      if id =? size_id then
        let! end_ := add offset 8 in
        Ok (if end_ <=? length then Some offset else None)
      else
        match size_of registry id with
        | None => Ok None
        | Some size =>
            if size =? 0 then Ok None
            else match checked_add offset size with
                 | None => Ok None
                 | Some offset => pool_attribute_walk registry size_id length offset ids
                 end
        end
  end.

Definition pool_size_bonus_offset (dnode : PoolDnode) (registry : SaRegistry) (layouts : SaLayouts) : result (option Z) :=
  let d := pd_dnode dnode in
  let bonus := dn_bonus d in
  if dn_bonustype d =? DMU_OT_ZNODE then Ok (if 88 <=? len bonus then Some 80 else None)
  else if negb (dn_bonustype d =? DMU_OT_SA) || (len bonus <? 8) then Ok None
  else
    match by_name_id registry (bytes_of_string "ZPL_SIZE") with
    | None => Ok None
    | Some size_id =>
        let info := reader_u16 (dn_endian d) bonus 4 in
        let layout := Z.land info 0x03ff in
        let offset := Z.shiftl (Z.land (Z.shiftr info 10) 0x3f) 3 in
        match attr_ids layouts layout with
        | None => Ok None
        | Some ids => pool_attribute_walk registry size_id (len bonus) offset ids
        end
    end.

(** ** Datasets and snapshots *)

Section member.
Variable self : PoolMember.

Definition mos_dnode (object_id : Z) : result (option PoolDnode) :=
  dnode_with_key (pm_source self) (pm_mos self) object_id None.

Definition read_zap_object (dnode : PoolDnode) : result (list Z) := read_zap_object_with_key (pm_source self) dnode None.

(** [self.mos_dnode(..)?.ok_or_else(..)?] *)
Definition present (what : string) (object_id : Z) : result PoolDnode :=
  let! dnode := mos_dnode object_id in
  ok_or dnode (Msg what [object_id]).

Definition is_hidden (name : list Z) : bool := starts_with [36] name || starts_with [37] name.

(** The body of the loop over the directories: the dataset of one, if it has a head,
    and its children. *)
Definition visit_directory (dsl_dir_object : Z) (name : list Z) : result (list DatasetInfo * list (Z * list Z)) :=
  let! directory := present "DSL directory object {dsl_dir_object} is absent" dsl_dir_object in
  let head_dataset_object := bonus_u64 directory 8 in
  let child_zap_object := bonus_u64 directory 32 in
  let! dataset :=
    if head_dataset_object =? 0 then Ok []
    else
      let! head := present "head dataset object {head_dataset_object} is absent" head_dataset_object in
      Ok [{| di_name := name; di_dsl_dir_object := dsl_dir_object; di_head_dataset_object := head_dataset_object;
             di_head_guid := guid_string (dataset_guid head) |}] in
  let! children :=
    if child_zap_object =? 0 then Ok []
    else
      let! child_zap := present "child-directory ZAP object {child_zap_object} is absent" child_zap_object in
      let! data := read_zap_object child_zap in
      Ok (map (fun '(child_name, child_object) => (child_object, name ++ SLASH :: child_name))
           (List.filter (fun '(child_name, _) => negb (is_hidden child_name)) (sort_by_name fst (zap_list data)))) in
  Ok (dataset, children).

(** Every directory that is new counts towards the limit; the children of a
    directory are finitely many. *)
Fixpoint dataset_loop (fuel : nat) (queue : list (Z * list Z)) (seen : gset Z) (datasets : list DatasetInfo)
  : result (list DatasetInfo) :=
  match queue with
  | [] => Ok datasets
  | (dsl_dir_object, name) :: queue =>
      match fuel with
      | O => OutOfFuel
      | S fuel =>
          if bool_decide (dsl_dir_object ∈ seen) then dataset_loop fuel queue seen datasets
          else
            let seen := {[dsl_dir_object]} ∪ seen in
            fail! MAX_DATASETS <? Z.of_nat (size seen)
              with Msg "dataset tree exceeds the {MAX_DATASETS}-entry safety limit" [MAX_DATASETS] in
            let! (dataset, children) := visit_directory dsl_dir_object name in
            dataset_loop fuel (queue ++ children) seen (datasets ++ dataset)
      end
  end.

Definition root_dataset : result Z :=
  let! object_directory := present "MOS object directory (object 1) is absent" 1 in
  let! data := read_zap_object object_directory in
  ok_or (zap_entry data "root_dataset") (Msg "MOS object directory has no root_dataset entry" []).

Definition datasets (fuel : nat) : result (list DatasetInfo) :=
  let! root := root_dataset in
  let! found := dataset_loop fuel [(root, pm_pool_name self)] ∅ [] in
  Ok (sort_by_name di_name found).

Definition snapshot_entry (dataset : DatasetInfo) (entry : list Z * Z) : result PoolSnapshot :=
  let '(name, dataset_object) := entry in
  let! dnode := present "snapshot dataset object {dataset_object} is absent" dataset_object in
  Ok {| sn_dataset := di_name dataset; sn_name := name; sn_full_name := di_name dataset ++ AT :: name;
        sn_dataset_object := dataset_object; sn_guid := guid_string (dataset_guid dnode);
        sn_creation_txg := bonus_u64 dnode 56; sn_creation_time := bonus_u64 dnode 48 |}.

Definition snapshots_for (dataset : DatasetInfo) : result (list PoolSnapshot) :=
  let! head := present "head dataset object {} is absent" (di_head_dataset_object dataset) in
  let snapnames_object := bonus_u64 head 32 in
  if snapnames_object =? 0 then Ok []
  else
    let! snapnames := present "snapshot-name ZAP object {snapnames_object} is absent" snapnames_object in
    let! data := read_zap_object snapnames in
    let entries := zap_list data in
    fail! MAX_SNAPSHOTS_PER_DATASET <? len entries
      with Msg "dataset {} exceeds the {MAX_SNAPSHOTS_PER_DATASET}-snapshot safety limit" [MAX_SNAPSHOTS_PER_DATASET] in
    map_res (snapshot_entry dataset) (sort_by_name fst entries).

Definition snapshots (fuel : nat) (dataset : option (list Z)) : result (list PoolSnapshot) :=
  let! all := datasets fuel in
  fail! match dataset with
        | Some name => negb (existsb (fun candidate => bytes_eqb (di_name candidate) name) all)
        | None => false
        end with Msg "dataset {name:?} was not found in pool {}" [] in
  let! found := map_res snapshots_for
    (List.filter (fun item => match dataset with Some name => bytes_eqb (di_name item) name | None => true end) all) in
  Ok (sort_by_name sn_full_name (concat found)).

Definition inspect (fuel : nat) : result PoolInspection :=
  let! all := datasets fuel in
  let! count := fold_res (fun count dataset =>
      let! found := snapshots_for dataset in Ok (saturating_add count (len found))) 0 all in
  Ok {| pi_backup_format := pm_backup_format self; pi_container_encryption := pm_container_encryption self;
        pi_pool_name := pm_pool_name self; pi_pool_guid := guid_string (pm_pool_guid self);
        pi_vdev_guid := guid_string (pm_vdev_guid self); pi_vdev_type := pm_vdev_type self;
        pi_top_level_vdevs := pm_top_level_vdevs self; pi_source_bytes := image_len (pm_source self);
        pi_txg := pm_txg self;
        pi_endian := bytes_of_string (match pm_endian self with Little => "little" | Big => "big" end);
        pi_datasets := len all; pi_snapshots := count |}.

(** ** Encryption *)

(** [Some(object) && object != 0] *)
Definition named_object (entry : option Z) : option Z :=
  match entry with Some object => if object =? 0 then None else Some object | None => None end.

(** Up the DSL directories to the one that names the key object. *)
Fixpoint crypto_object_walk (rounds : nat) (current : Z) (seen : gset Z) : result (option Z) :=
  match rounds with
  | O => Ok None
  | S rounds =>
      if (current =? 0) || bool_decide (current ∈ seen) then Ok None
      else
        let! directory := present "DSL directory object {current} is absent" current in
        let! data := read_zap_object directory in
        match named_object (zap_entry data DD_FIELD_CRYPTO_KEY_OBJ) with
        | Some object => Ok (Some object)
        | None => crypto_object_walk rounds (bonus_u64 directory 0) ({[current]} ∪ seen)
        end
  end.

Definition zap_integers : list string :=
  ["DSL_CRYPTO_SUITE"; "DSL_CRYPTO_GUID"; "DSL_CRYPTO_VERSION"; "keyformat"; "pbkdf2iters"; "pbkdf2salt"]%string.

(** An entry of the key object: a fat ZAP holds its integers in big endian. *)
Definition zap_value (fat_zap : bool) (values : ZapMap) (entry : list Z * list Z) : result ZapMap :=
  let '(name, value) := entry in
  let! value :=
    if fat_zap && existsb (fun s => bytes_eqb name (bytes_of_string s)) zap_integers then
      let! bytes := ok_or (array_try_from 8 value) (Msg "DSL crypto-key ZAP {name} is not a uint64" []) in
      Ok (le_bytes 8 (be_val bytes))
    else Ok value in
  Ok (<[name := value]> values).

Definition encryption_params (dsl_dir_object : Z) : result EncryptionParams :=
  let! found := crypto_object_walk MAX_DSL_PARENT_WALK dsl_dir_object ∅ in
  let! crypto_object := ok_or found
    (Msg "encrypted dataset has no {DD_FIELD_CRYPTO_KEY_OBJ:?} entry in its DSL parent chain" []) in
  let! crypto_dnode := present "DSL crypto-key object {crypto_object} is absent" crypto_object in
  let! data := read_zap_object crypto_dnode in
  let fat_zap := reader_u64 (dn_endian (pd_dnode crypto_dnode)) data 0 =? Z.lor (Z.shiftl 1 63) 1 in
  let! values := fold_res (zap_value fat_zap) ∅ (zap_list_arrays data) in
  from_pool_zap values.

(** ** Selecting a dataset *)

Definition select_snapshot (dataset : DatasetInfo) (snapshot_name : list Z) : result (Z * option Z) :=
  fail! is_empty snapshot_name with Msg "snapshot name cannot be empty" [] in
  let! found := snapshots_for dataset in
  let! selected := match strip_prefix (bytes_of_string "0x") snapshot_name with
    | Some hex =>
        let! guid := ok_or (from_str_radix 16 U64_MAX hex)
          (Context "invalid snapshot GUID {snapshot_name:?}" [] (Foreign "ParseIntError")) in
        Ok (List.find (fun snapshot => bool_decide (pool_parse_guid (sn_guid snapshot) = Some guid)) found)
    | None => Ok (List.find (fun snapshot => bytes_eqb (sn_name snapshot) snapshot_name) found)
    end in
  let! selected := ok_or selected (Msg "snapshot {selector:?} was not found" []) in
  let! guid := ok_or (pool_parse_guid (sn_guid selected)) (Msg "snapshot {} has an invalid GUID" []) in
  Ok (sn_dataset_object selected, Some guid).

Definition select_dataset (fuel : nat) (selector : list Z) : result (DatasetInfo * Z * option Z) :=
  let '(dataset_name, snapshot_name) := match split_once AT selector with
    | Some (dataset, snapshot) => (dataset, Some snapshot)
    | None => (selector, None)
    end in
  fail! is_empty dataset_name with Msg "dataset selector cannot be empty" [] in
  let! all := datasets fuel in
  let! dataset := ok_or (List.find (fun candidate => bytes_eqb (di_name candidate) dataset_name) all)
    (Msg "dataset {dataset_name:?} was not found in pool {}" []) in
  let! (dataset_object, snapshot_guid) := match snapshot_name with
    | Some snapshot_name => select_snapshot dataset snapshot_name
    | None => Ok (di_head_dataset_object dataset, None)
    end in
  Ok (dataset, dataset_object, snapshot_guid).

(** The object and its [ds_bp]. *)
Definition dataset_pointer_raw (dataset_object : Z) : result (PoolDnode * list Z) :=
  let! dataset_dnode := present "DSL dataset object {dataset_object} is absent" dataset_object in
  let! raw := ok_or (get_range (dn_bonus (pd_dnode dataset_dnode)) 128 256)
    (Msg "DSL dataset object {dataset_object} has a truncated ds_bp" [dataset_object]) in
  Ok (dataset_dnode, raw).

Definition encryption_requirement (fuel : nat) (selector : list Z) : result (option EncryptionRequirement) :=
  let! (dataset, dataset_object, _) := select_dataset fuel selector in
  let! (dataset_dnode, raw) := dataset_pointer_raw dataset_object in
  if negb (blkptr_uses_crypt raw (dn_endian (pd_dnode dataset_dnode))) then Ok None
  else
    let! params := encryption_params (di_dsl_dir_object dataset) in
    let! format := key_format_name params in
    Ok (Some {| er_dataset_name := di_name dataset; er_key_format := format |}).

Definition dataset_key (dsl_dir_object : Z) (encrypted : bool) (endian : Endian) (key_material : option (list Z))
  : result (option DatasetKey) :=
  if encrypted then
    fail! negb (bool_decide (endian = Little))
      with Msg "native-encrypted big-endian pool datasets are not supported yet" [] in
    let! params := encryption_params dsl_dir_object in
    let! material := ok_or key_material (Msg "{selector} uses native ZFS dataset encryption; provide its {} key" []) in
    let! key := unlock params material in
    Ok (Some key)
  else
    fail! is_some key_material with Msg "a ZFS key was supplied for unencrypted dataset {selector}" [] in
    Ok None.

Record DatasetView := {
  dv_zpl : PoolObjset; dv_registry : SaRegistry; dv_layouts : SaLayouts; dv_root_id : Z;
  dv_snapshot_guid : option Z; dv_key : option DatasetKey;
}.

(** [self.dnode_with_key(zpl, ..)?.ok_or_else(..)?] *)
Definition zpl_dnode (zpl : PoolObjset) (what : string) (object_id : Z) (key : option DatasetKey) : result PoolDnode :=
  let! dnode := dnode_with_key (pm_source self) zpl object_id key in
  ok_or dnode (Msg what [object_id]).

Definition pool_sa_context (zpl : PoolObjset) (master_data : list Z) (key : option DatasetKey) : result (SaRegistry * SaLayouts) :=
  match zap_entry master_data "SA_ATTRS" with
  | None => Ok (sa_registry_default, sa_layouts_default)
  | Some sa_master_object =>
      let! sa_master := zpl_dnode zpl "SA master object {sa_master_object} is absent" sa_master_object key in
      let! sa_master := read_zap_object_with_key (pm_source self) sa_master key in
      let! registry_object := ok_or (zap_entry sa_master "REGISTRY") (Msg "SA master object has no REGISTRY entry" []) in
      let! layouts_object := ok_or (zap_entry sa_master "LAYOUTS") (Msg "SA master object has no LAYOUTS entry" []) in
      let! registry := zpl_dnode zpl "SA registry object {registry_object} is absent" registry_object key in
      let! layouts := zpl_dnode zpl "SA layouts object {layouts_object} is absent" layouts_object key in
      let! registry := read_zap_object_with_key (pm_source self) registry key in
      let! layouts := read_zap_object_with_key (pm_source self) layouts key in
      Ok (parse_sa_registry registry, parse_sa_layouts layouts)
  end.

(** The object set behind [ds_bp], authenticated where the dataset is encrypted. *)
Definition dataset_objset (pointer_raw : list Z) (endian : Endian) (key : option DatasetKey) : result PoolObjset :=
  let! pointer := PoolBlockPointer_parse pointer_raw endian in
  let! block := with_context "reading objset for {selector}" [] (read_pool_block_from (pm_source self) 0 pointer key) in
  let! _ := match key with
    | Some key => with_context "authenticating objset for {selector}" [] (verify_objset_mac block endian key)
    | None => Ok tt
    end in
  let! zpl := with_context "decoding ZPL objset for {selector}" [] (PoolObjset_parse block endian) in
  fail! negb (os_type (po_objset zpl) =? DMU_OST_ZFS)
    with Msg "{selector} resolves objset type {}, not a ZFS filesystem ({DMU_OST_ZFS})" [os_type (po_objset zpl)] in
  Ok zpl.

Definition dataset_view (fuel : nat) (selector : list Z) (key_material : option (list Z)) : result DatasetView :=
  let! (dataset, dataset_object, snapshot_guid) := select_dataset fuel selector in
  let! (dataset_dnode, raw) := dataset_pointer_raw dataset_object in
  let endian := dn_endian (pd_dnode dataset_dnode) in
  let! key := dataset_key (di_dsl_dir_object dataset) (blkptr_uses_crypt raw endian) endian key_material in
  let! zpl := dataset_objset raw endian key in
  let! master := zpl_dnode zpl "ZPL master node is absent for {selector}" ZPL_MASTER_NODE_OBJ key in
  let! master_data := read_zap_object_with_key (pm_source self) master key in
  let! root_id := ok_or (zap_entry master_data "ROOT") (Msg "ZPL master node for {selector} has no ROOT entry" []) in
  let! (registry, layouts) := pool_sa_context zpl master_data key in
  Ok {| dv_zpl := zpl; dv_registry := registry; dv_layouts := layouts; dv_root_id := root_id;
        dv_snapshot_guid := snapshot_guid; dv_key := key |}.

(** ** Paths and directories *)

Record ResolvedPoolPath := {
  rpp_normalized_path : list Z; rpp_object_id : Z; rpp_dirent_type : Z; rpp_logical_size : Z; rpp_dnode : PoolDnode;
}.

Definition pool_resolve_step (view : DatasetView) (at_ : Z * Z) (component : list Z) : result (Z * Z) :=
  let '(current, dirent_type) := at_ in
  fail! negb (dirent_type =? 4) with Msg "path component {component:?} follows a non-directory object" [] in
  let! directory := zpl_dnode (dv_zpl view) "directory object {current} is absent" current (dv_key view) in
  let! directory := read_zap_object_with_key (pm_source self) directory (dv_key view) in
  let! entry := ok_or (List.find (fun entry => bytes_eqb entry.1 component) (zap_list directory))
    (Msg "path {normalized:?} was not found" []) in
  Ok (Z.land entry.2 ZPL_DIRENT_OBJ_MASK, Z.land (Z.shiftr entry.2 60) 0xff).

Definition pool_resolve_path (view : DatasetView) (path : list Z) : result ResolvedPoolPath :=
  let! normalized := pool_normalize_path path in
  let! (current, dirent_type) := fold_res (pool_resolve_step view) (dv_root_id view, 4) (components normalized) in
  let! dnode := zpl_dnode (dv_zpl view) "object {current} for path {normalized:?} is absent" current (dv_key view) in
  let! found := ok_or (attrs dnode (dv_registry view) (dv_layouts view))
    (Msg "could not decode ZPL metadata for object {current}" [current]) in
  Ok {| rpp_normalized_path := normalized; rpp_object_id := current; rpp_dirent_type := dirent_type;
        rpp_logical_size := zp_size found; rpp_dnode := dnode |}.

(** An entry whose object cannot be read has no size. *)
Definition pool_directory_entry (view : DatasetView) (entry : list Z * Z) : result DirectoryEntry :=
  let '(name, raw) := entry in
  let object_id := Z.land raw ZPL_DIRENT_OBJ_MASK in
  let! dnode := catch (dnode_with_key (pm_source self) (dv_zpl view) object_id (dv_key view)) Ok (fun _ => Ok None) in
  let found := match dnode with Some dnode => attrs dnode (dv_registry view) (dv_layouts view) | None => None end in
  Ok {| de_name := name; de_object_id := object_id; de_dirent_type := Z.land (Z.shiftr raw 60) 0xff;
        de_logical_size := option_map zp_size found |}.

Definition list_directory_with_key (fuel : nat) (selector path : list Z) (key_material : option (list Z))
  : result (list DirectoryEntry) :=
  let! view := dataset_view fuel selector key_material in
  let! resolved := pool_resolve_path view path in
  fail! negb (rpp_dirent_type resolved =? 4) with Msg "{} is not a directory" [] in
  let! directory := read_zap_object_with_key (pm_source self) (rpp_dnode resolved) (dv_key view) in
  let! entries := map_res (pool_directory_entry view) (zap_list directory) in
  Ok (sort_by_name de_name entries).

Definition pool_list_directory (fuel : nat) (selector path : list Z) : result (list DirectoryEntry) :=
  list_directory_with_key fuel selector path None.

(** [dataset_view], [resolve_path] and the check that it is a regular file. *)
Definition regular_file (fuel : nat) (selector path : list Z) (key_material : option (list Z))
  : result (DatasetView * ResolvedPoolPath) :=
  let! view := dataset_view fuel selector key_material in
  let! resolved := pool_resolve_path view path in
  fail! negb (rpp_dirent_type resolved =? 8) with Msg "{} is not a regular file" [] in
  Ok (view, resolved).
End member.
End pool.
