(* ===== verification/PoolFile.v ===== *)
(** Files of a pool member, src/src/pool.rs: writing a file out (lines 1456-1501
    and 1665-1691), reading it in place (1615-1663), small files (986-1030), and
    extraction (1032-1168). *)

From stdpp Require Import sorting.
From S2P Require Import Prelude Bytes Utf8 Stream StreamFacts Replay Compression NvList Encrypted.
From S2P Require Import EncryptedDnode Paths Extents Snapshots Selected ObjectIndex Resolve Sparse Operations.
From S2P Require Import Image DiskImage Partitions Volumes HostFs Tree HostExtract PoolBlocks Pool.
#[local] Open Scope Z_scope.
#[local] Open Scope zse_scope.

(** ** Writing a file

    The digest is of the bytes it has been given: [digest.update(bytes)] appends. *)

(** The loop over zeros, 64 KiB at a time. *)
Fixpoint digest_zeroes_loop (fuel : nat) (digest : list Z) (count : Z) : result (list Z) :=
  if count =? 0 then Ok digest
  else
    match fuel with
    | O => OutOfFuel
    | S fuel =>
        let chunk := Z.min count (64 * 1024) in
        digest_zeroes_loop fuel (digest ++ zrepeat chunk 0) (count - chunk)
    end.

Definition digest_zeroes (digest : list Z) (count : Z) : result (list Z) :=
  digest_zeroes_loop (S (Z.to_nat (count / (64 * 1024)))) digest count.

Section files.
Context `{ZfsDisk} `{Codecs} `{Crypto} `{PoolCore}.

Definition write_file_record `{Os} (s : Sparse.File * list Z) (offset : Z) (block : list Z) (logical_count : Z)
  : result (Sparse.File * list Z) :=
  let '(output, digest) := s in
  let present := Z.min (len block) logical_count in
  let! bytes := slice block 0 present in
  let! output := write_extent output offset bytes in
  let digest := digest ++ bytes in
  let! rest := sub logical_count present in
  let! digest := digest_zeroes digest rest in
  Ok (output, digest).

(** One block of a file: the output, the digest and how much remains. *)
Definition write_file_block `{Os} (source : ImageRead) (resolved : ResolvedPoolPath) (key : option DatasetKey)
    (s : Sparse.File * list Z * Z) (block_id : Z) : result (Sparse.File * list Z * Z) :=
  let '(output, digest, remaining) := s in
  let block_size := data_block_size (pd_dnode (rpp_dnode resolved)) in
  let! block := with_context "reading file object {} block {block_id}" [rpp_object_id resolved; block_id]
    (read_dnode_data_with_key source (rpp_dnode resolved) block_id key) in
  let! count := ok_or (usize_try_from (Z.min remaining block_size)) (Msg "file block length exceeds usize" []) in
  let! offset := ok_or (checked_mul block_id block_size) (Msg "file block offset overflow" []) in
  let! (output, digest) := write_file_record (output, digest) offset block count in
  let! remaining := sub remaining count in
  Ok (output, digest, remaining).

Definition write_file `{Os} (source : ImageRead) (resolved : ResolvedPoolPath) (output : Sparse.File) (digest : list Z)
    (key : option DatasetKey) : result (Sparse.File * list Z) :=
  if rpp_logical_size resolved =? 0 then Ok (output, digest)
  else
    let d := pd_dnode (rpp_dnode resolved) in
    let block_size := data_block_size d in
    fail! block_size =? 0 with Msg "file object {} has a zero data block size" [rpp_object_id resolved] in
    let blocks := div_ceil (rpp_logical_size resolved) block_size in
    fail! dn_maxblkid d <? saturating_sub blocks 1
      with Msg "file size {} needs {blocks} blocks but object {} ends at block {}"
        [rpp_logical_size resolved; blocks; rpp_object_id resolved; dn_maxblkid d] in
    let! (output, digest, _) := fold_res (write_file_block source resolved key)
      (output, digest, rpp_logical_size resolved) (seqZ 0 blocks) in
    Ok (output, digest).

(** ** Reading in place *)

Record PoolImageFile := { pf_member : PoolMember; pf_resolved : ResolvedPoolPath; pf_key : option DatasetKey }.

(** The loop over the blocks of a range: what the buffer holds from [filled] on. A
    round fills a byte at least. *)
Fixpoint image_file_loop (fuel : nat) (self : PoolImageFile) (block_size position filled n : Z) : result (list Z) :=
  if n <=? filled then Ok []
  else
    match fuel with
    | O => OutOfFuel
    | S fuel =>
        let d := pd_dnode (rpp_dnode (pf_resolved self)) in
        let block_id := position / block_size in
        let! within := ok_or (usize_try_from (position mod block_size)) (Msg "nested block offset exceeds usize" []) in
        let! room := sub block_size within in
        let! left_ := sub n filled in
        let wanted := Z.min left_ room in
        let! block :=
          if dn_maxblkid d <? block_id then Ok []
          else read_dnode_data_with_key (pm_source (pf_member self)) (rpp_dnode (pf_resolved self)) block_id (pf_key self) in
        let present := Z.min (saturating_sub (len block) within) wanted in
        let! bytes := if present =? 0 then Ok [] else slice block within (within + present) in
        let! position := add position wanted in
        let! filled := add filled wanted in
        let! rest := image_file_loop fuel self block_size position filled n in
        Ok (bytes ++ zrepeat (wanted - present) 0 ++ rest)
    end.

Definition PoolImageFile_read_exact_at (self : PoolImageFile) (offset n : Z) : result (list Z) :=
  let! end_ := ok_or (checked_add offset n) (Msg "nested ZFS-file read offset overflows" []) in
  fail! rpp_logical_size (pf_resolved self) <? end_
    with Msg "nested read [{offset}, {end}) exceeds ZFS file {} ({} bytes)" [offset; end_; rpp_logical_size (pf_resolved self)] in
  let block_size := data_block_size (pd_dnode (rpp_dnode (pf_resolved self))) in
  fail! block_size =? 0 with Msg "nested image file has a zero ZFS record size" [] in
  image_file_loop (Z.to_nat n) self block_size offset 0 n.

Definition PoolImageFile_image (self : PoolImageFile) : ImageRead :=
  {| image_len := rpp_logical_size (pf_resolved self); image_read := PoolImageFile_read_exact_at self |}.

Section member.
Variable self : PoolMember.

Definition into_image_file_with_key (fuel : nat) (selector path : list Z) (key_material : option (list Z)) : result PoolImageFile :=
  let! (view, resolved) := regular_file self fuel selector path key_material in
  Ok {| pf_member := self; pf_resolved := resolved; pf_key := dv_key view |}.

(** ** Small files *)

(** Each round reads the block that [filled] falls in, from its start. *)
Fixpoint small_file_loop (fuel : nat) (resolved : ResolvedPoolPath) (key : option DatasetKey) (block_size length filled : Z)
    (output : list Z) : result (list Z) :=
  if length <=? filled then Ok output
  else
    match fuel with
    | O => OutOfFuel
    | S fuel =>
        let block_id := filled / block_size in
        let! block := read_dnode_data_with_key (pm_source self) (rpp_dnode resolved) block_id key in
        let! left_ := sub length filled in
        let count := Z.min (Z.min left_ block_size) (len block) in
        fail! count =? 0 with Msg "metadata file block {block_id} is unexpectedly empty" [block_id] in
        let! bytes := slice block 0 count in
        let! output := copy_into output filled bytes in
        let! filled := add filled count in
        small_file_loop fuel resolved key block_size length filled output
    end.

Definition read_small_file_with_key (fuel : nat) (selector path : list Z) (key_material : option (list Z)) (maximum_size : Z)
  : result (list Z) :=
  let! (view, resolved) := regular_file self fuel selector path key_material in
  fail! maximum_size <? rpp_logical_size resolved
    with Msg "{} is {} bytes, exceeding the {maximum_size}-byte metadata limit" [rpp_logical_size resolved; maximum_size] in
  let! length := ok_or (usize_try_from (rpp_logical_size resolved)) (Msg "metadata file is too large for this platform" []) in
  let! _ := with_capacity length in
  if length =? 0 then Ok []
  else
    let block_size := data_block_size (pd_dnode (rpp_dnode resolved)) in
    fail! block_size =? 0 with Msg "metadata file has a zero ZFS record size" [] in
    small_file_loop (Z.to_nat length) resolved (dv_key view) block_size length 0 (zrepeat length 0).

(** ** Extraction *)

(** The file at the output path and the digest of what was written. *)
Definition extract_content `{Os} (resolved : ResolvedPoolPath) (key : option DatasetKey) : result (Sparse.File * list Z) :=
  let! (output, digest) := write_file (pm_source self) resolved {| contents := []; cursor := 0 |} [] key in
  let! output := set_len output (rpp_logical_size resolved) in
  Ok (output, digest).

(** The sidecar of a named snapshot; the head dataset has none, and one that lies
    there is removed. *)
Definition extract_with_key `{Os} `{Digest} (fuel : nat) (selector path : list Z) (exists_ force : bool)
    (key_material : option (list Z)) : result (Sparse.File * option Sidecar * PoolExtraction) :=
  let! (view, resolved) := regular_file self fuel selector path key_material in
  fail! exists_ && negb force with Msg "output {} already exists (pass --force to replace it)" [] in
  let! (output, digest) := extract_content resolved (dv_key view) in
  let sha256 := sha256_hex digest in
  let d := pd_dnode (rpp_dnode resolved) in
  let! sidecar := match dv_snapshot_guid view with
    | Some snapshot_guid =>
        let! offset := pool_size_bonus_offset (rpp_dnode resolved) (dv_registry view) (dv_layouts view) in
        Ok (Some {| sc_format_version := SIDECAR_VERSION; sc_path := rpp_normalized_path resolved;
          sc_object_id := rpp_object_id resolved; sc_object_type := dn_type d; sc_bonus_type := dn_bonustype d;
          sc_logical_size := rpp_logical_size resolved; sc_size_bonus_offset := offset; sc_size_spill_offset := None;
          sc_snapshot_guid := guid_string snapshot_guid; sc_sha256 := sha256; sc_raw_state := None |})
    | None => Ok None
    end in
  Ok (output, sidecar, {| pe_path := rpp_normalized_path resolved; pe_object_id := rpp_object_id resolved;
        pe_logical_size := rpp_logical_size resolved; pe_sha256 := sha256; pe_sidecar_written := is_some sidecar |}).

Section host.
Context `{Os} `{Faults} `{TempNames}.

Definition extract_tree_file_with_key (fuel : nat) (selector : list Z) (key_material : option (list Z))
    (path_ : list Z) (output : path) : fs_m Z :=
  let* (view, resolved) := fs_ret (regular_file self fuel selector path_ key_material) in
  write_replaced
    (let! (file, _) := extract_content resolved (dv_key view) in
     Ok (contents file, rpp_logical_size resolved)) output false.

Definition extract_tree_with_key (windows : bool) (fuel : nat) (selector path_ : list Z) (parent : path)
    (destination_name : name) (force : bool) (key_material : option (list Z)) : fs_m RecursiveExtraction :=
  extract_directory_tree windows (fun directory => list_directory_with_key self fuel selector directory key_material)
    (extract_tree_file_with_key fuel selector key_material) path_ parent destination_name force.
End host.
End member.
End files.
