(* ===== verification/PoolOpen.v ===== *)
(** Opening a pool member, src/src/pool.rs lines 609-826: where the labels are, in
    the source, in a container or in one of its partitions, and the pool the
    newest label describes. *)

From stdpp Require Import sorting.
From S2P Require Import Prelude Bytes Utf8 Stream StreamFacts Compression NvList Encrypted.
From S2P Require Import EncryptedDnode Paths Snapshots ObjectIndex Resolve Operations Image DiskImage Partitions Volumes Sources.
From S2P Require Import PoolBlocks PoolSource Pool.
#[local] Open Scope Z_scope.
#[local] Open Scope zse_scope.

Section open.
Context `{ZfsDisk} `{Codecs} `{Crypto} `{ZfsLabels} `{Crc32} {D : Type} `{Device D} `{DeviceInfo D} `{Luks D}.

Abbreviation labels := (list (Z * (Uberblock * NvConfig))).

(** A source with readable labels, and whether it is in a container. *)
Record Candidate := { ca_source : PoolSource D; ca_labels : labels; ca_encrypted : bool }.

(** One partition: what it adds to the candidates, or to the locked containers. *)
Definition open_partition (file_source : FileSource D) (container_key : option (list Z)) (s : list Candidate * Z)
    (partition : GptPartition) : result (list Candidate * Z) :=
  let '(candidates, locked_luks) := s in
  catch (FileSource_slice file_source (gp_number partition) (gp_offset partition) (gp_length partition)) (fun candidate =>
    let! found := read_labels (FileSource_image candidate) in
    if negb (is_empty found) then
      Ok (candidates ++ [{| ca_source := PlainSource candidate; ca_labels := found; ca_encrypted := false |}], locked_luks)
    else
      let! luks := is_luks candidate in
      if negb luks then Ok (candidates, locked_luks)
      else
        match container_key with
        | None => let! locked_luks := add locked_luks 1 in Ok (candidates, locked_luks)
        | Some key =>
            catch (unlock_luks candidate key) (fun unlocked =>
              let! found := read_labels (PoolSource_image unlocked) in
              if is_empty found then Ok (candidates, locked_luks)
              else Ok (candidates ++ [{| ca_source := unlocked; ca_labels := found; ca_encrypted := true |}], locked_luks))
              (fun _ => Ok (candidates, locked_luks))
        end)
    (fun _ => Ok (candidates, locked_luks)).

Definition choose_source (file_source : FileSource D) (container_key : option (list Z)) : result Candidate :=
  let! parsed := read_labels (FileSource_image file_source) in
  let! partitions := partitions_or_none (FileSource_image file_source) in
  if negb (is_empty parsed) && is_empty partitions then
    fail! is_some container_key with Msg "a container key was supplied, but {} is not LUKS-encrypted" [] in
    Ok {| ca_source := PlainSource file_source; ca_labels := parsed; ca_encrypted := false |}
  else
    let! luks := is_luks file_source in
    if luks : bool then
      let! key := ok_or container_key (Msg "{} is a LUKS-encrypted pool source; provide its container passphrase file" []) in
      let! source := unlock_luks file_source key in
      let! found := read_labels (PoolSource_image source) in
      Ok {| ca_source := source; ca_labels := found; ca_encrypted := true |}
    else
      let! (candidates, locked_luks) := fold_res (open_partition file_source container_key) ([], 0) partitions in
      fail! is_empty candidates && negb (locked_luks =? 0)
        with Msg "{} contains {locked_luks} LUKS-encrypted partition{}; provide the Datto pool passphrase" [locked_luks] in
      match candidates with
      | [candidate] =>
          fail! is_some container_key && negb (ca_encrypted candidate)
            with Msg "a container key was supplied, but the selected ZFS partition in {} is not LUKS-encrypted" [] in
          Ok candidate
      | [] => Err (Msg "{} has no readable ZFS vdev label in the source or its partitions ({})" [])
      | _ => Err (Msg "{} contains {} partitions with readable ZFS pools; open the intended partition explicitly"
          [len candidates])
      end.

(** Stable sorting by the transaction group; the last label is the active one. *)
Definition txg_le (x y : Z * (Uberblock * NvConfig)) : Prop := ub_txg x.2.1 <= ub_txg y.2.1.
#[global] Instance txg_le_dec : RelDecision txg_le.
Proof. intros x y. unfold txg_le. apply _. Defined.

Definition non_empty (s : option (list Z)) : option (list Z) :=
  match s with Some s => if is_empty s then None else Some s | None => None end.

Definition supported_vdev (vdev_type : list Z) : bool :=
  existsb (fun s => bytes_eqb vdev_type (bytes_of_string s)) ["disk"; "file"; "mirror"]%string.

(** The labels agree on the pool. *)
Definition label_agrees (pool_guid : Z) (label : Z * (Uberblock * NvConfig)) : bool :=
  match get_u64 label.2.2 "pool_guid" with Some other => other =? pool_guid | None => true end.

Definition backup_format (pool_name : list Z) (encrypted : bool) : list Z :=
  if eq_ignore_ascii_case pool_name (bytes_of_string "slide") then bytes_of_string "slide_box"
  else if encrypted && starts_with (bytes_of_string "revrt-") (map to_ascii_lowercase pool_name)
  then bytes_of_string "datto_reverse_roundtrip"
  else bytes_of_string "generic_zfs".

(** The pool that the newest label describes: one top-level vdev of a supported type. *)
Definition open_labels (source : ImageRead) (parsed : labels) (encrypted : bool) : result PoolMember :=
  let! (_, (uberblock, config)) := expect (last (merge_sort txg_le parsed)) in
  let! pool_name := ok_or (non_empty (get_str config "name")) (Msg "active vdev label has no pool name" []) in
  let! pool_guid := ok_or (get_u64 config "pool_guid") (Msg "active vdev label has no pool_guid" []) in
  let! top_level_vdevs := ok_or (get_u64 config "vdev_children") (Msg "active vdev label has no vdev_children count" []) in
  fail! negb (top_level_vdevs =? 1)
    with Msg "pool {pool_name} has {top_level_vdevs} top-level vdevs; only a one-vdev pool is accepted" [top_level_vdevs] in
  let! vdev := ok_or (get_nvlist config "vdev_tree") (Msg "active vdev label has no vdev_tree" []) in
  let! vdev_type := ok_or (non_empty (get_str vdev "type")) (Msg "active vdev label has no vdev type" []) in
  fail! negb (supported_vdev vdev_type) with Msg "top-level vdev type {vdev_type:?} is unsupported" [] in
  let vdev_id := default 0 (get_u64 vdev "id") in
  fail! negb (vdev_id =? 0) with Msg "the only top-level vdev has id {vdev_id}, not the supported id 0" [vdev_id] in
  let vdev_guid := default 0 (get_u64 vdev "guid") in
  fail! negb (forallb (label_agrees pool_guid) parsed)
    with Msg "vdev labels disagree on pool GUID; refusing an inconsistent member" [] in
  let! mos_block := with_context "reading MOS from active uberblock txg {} on {}" [ub_txg uberblock]
    (read_block_from source 0 (rootbp_full uberblock)) in
  let! mos := with_context "decoding the MOS objset" [] (PoolObjset_parse mos_block (ub_endian uberblock)) in
  fail! negb (os_type (po_objset mos) =? DMU_OST_META)
    with Msg "active uberblock resolved objset type {}, not the MOS type {DMU_OST_META}" [os_type (po_objset mos)] in
  Ok {| pm_source := source; pm_backup_format := backup_format pool_name encrypted; pm_container_encryption := encrypted;
        pm_pool_name := pool_name; pm_pool_guid := pool_guid; pm_vdev_guid := vdev_guid; pm_vdev_type := vdev_type;
        pm_top_level_vdevs := top_level_vdevs; pm_txg := ub_txg uberblock; pm_endian := ub_endian uberblock; pm_mos := mos |}.

Definition open_with_container_key (platform : Platform) (file : D) (container_key : option (list Z)) : result PoolMember :=
  let! file_source := FileSource_open platform file in
  let! chosen := choose_source file_source container_key in
  fail! is_empty (ca_labels chosen) with Msg "{} has no readable ZFS vdev label after opening its source ({})" [] in
  open_labels (PoolSource_image (ca_source chosen)) (ca_labels chosen) (ca_encrypted chosen).

Definition PoolMember_open (platform : Platform) (file : D) : result PoolMember := open_with_container_key platform file None.
End open.
