(* ===== verification/PoolTreeFacts.v ===== *)
(** The tree of indirect blocks as a list of leaves, and the walk that finds each;
    the content of a file from its blocks, and that writing it out and reading it
    in place give that content. *)

From stdpp Require Import sorting.
From S2P Require Import Prelude Bytes Utf8 Stream StreamFacts Replay Compression NvList Encrypted.
From S2P Require Import EncryptedDnode EncryptedFacts Merkle Paths Extents Snapshots Selected ObjectIndex Resolve Sparse SparseFacts.
From S2P Require Import Operations Image DiskImage Partitions PartitionFacts Volumes HostFs Tree HostExtract.
From S2P Require Import PoolBlocks PoolBlockFacts Pool PoolFile.
#[local] Open Scope Z_scope.
#[local] Open Scope zse_scope.

(** ** Lists of equal parts *)

Lemma get_zdrop {A} (l : list A) n i : 0 <= n -> 0 <= i -> get (zdrop n l) i = get l (n + i).
Proof.
  intros Hn Hi. destruct (get l (n + i)) as [x|] eqn:Hx.
  - apply get_Some_lookup in Hx as [_ Hx]. apply get_Some_lookup. split; [done|]. unfold zdrop. rewrite lookup_drop, <- Hx. f_equal. lia.
  - destruct (get (zdrop n l) i) as [y|] eqn:Hy; [|done]. apply get_Some_lookup in Hy as [_ Hy]. unfold zdrop in Hy. rewrite lookup_drop in Hy.
    assert (get l (n + i) = Some y); [|congruence]. apply get_Some_lookup. split; [lia|]. rewrite <- Hy. f_equal. lia.
Qed.

Lemma zdrop_concat {A} n (ls : list (list A)) i l :
  0 <= n -> Forall (fun l => len l = n) ls -> get ls i = Some l -> exists rest, zdrop (i * n) (concat ls) = l ++ rest.
Proof.
  intros Hn Hls. revert i. induction Hls as [|l' ls Hl' Hls IH]; intros i Hi; [by apply get_lt in Hi; cbn in Hi; change (len []) with 0 in Hi; lia|].
  pose proof (get_lt _ _ _ Hi) as [Hi0 _]. cbn [concat]. destruct (Z.eq_dec i 0) as [->|Hne].
  - injection Hi as ->. rewrite zdrop_0 by lia. by eexists.
  - replace i with (1 + (i - 1)) in Hi by lia. rewrite <- get_zdrop in Hi by lia. destruct (IH _ Hi) as [rest Hrest]. exists rest.
    rewrite zdrop_app, zdrop_all by (rewrite Hl'; nia). cbn [app]. rewrite Hl', <- Hrest. f_equal. lia.
Qed.

Lemma get_concat {A} n (ls : list (list A)) i l :
  0 < n -> Forall (fun l => len l = n) ls -> 0 <= i -> get ls (i / n) = Some l -> get (concat ls) i = get l (i mod n).
Proof.
  intros Hn Hls Hi Hl. destruct (zdrop_concat n ls (i / n) l ltac:(lia) Hls Hl) as [rest Hrest].
  pose proof (Z.mod_pos_bound i n Hn). pose proof (Z.div_pos i n Hi Hn). pose proof (Z.div_mod i n).
  assert (len l = n) as Hln by by apply (get_Forall _ _ _ _ Hls Hl).
  replace i with (i / n * n + i mod n) at 1 by lia. rewrite <- get_zdrop, Hrest by nia. apply get_app_l. lia.
Qed.

Lemma get_range_concat {A} n (ls : list (list A)) i l :
  0 <= n -> Forall (fun l => len l = n) ls -> get ls i = Some l -> get_range (concat ls) (i * n) (i * n + n) = Some l.
Proof.
  intros Hn Hls Hl. pose proof (get_lt _ _ _ Hl). destruct (zdrop_concat n ls i l Hn Hls Hl) as [rest Hrest].
  assert (len l = n) as Hln by by apply (get_Forall _ _ _ _ Hls Hl). apply get_range_Some. split; [nia|]. split; [rewrite (len_concat n) by done; nia|].
  rewrite Hrest. replace (i * n + n - i * n) with n by lia. by rewrite ztake_app_len.
Qed.

Lemma Forall2_get {A B} (P : A -> B -> Prop) l k i a : Forall2 P l k -> get l i = Some a -> exists b, get k i = Some b /\ P a b.
Proof.
  intros HF [Hi Ha]%get_Some_lookup. destruct (Forall2_lookup_l _ _ _ _ _ HF Ha) as (b & Hb & Hp). exists b. split; [|done]. by apply get_Some_lookup.
Qed.

(** ** The tree *)

Section tree.
Context `{ZfsDiskLaws} `{CodecLaws} `{CryptoLaws}.
Variable source : ImageRead.
Variable key : option DatasetKey.
Variable endian : Endian.
Variable shift : Z.

Abbreviation fanout := (2 ^ shift).

Definition leaf_of (pointer : PoolBlockPointer) : option PoolBlockPointer :=
  if blk_is_hole (pb_pointer pointer) then None else Some pointer.

(** A pointer [level] steps above the leaves stands for [fanout ^ level] of them: a
    hole for holes, another one for what the pointers in its block stand for. *)
Inductive tree : nat -> PoolBlockPointer -> list (option PoolBlockPointer) -> Prop :=
| tree_leaf pointer : tree 0 pointer [leaf_of pointer]
| tree_hole level pointer :
    blk_is_hole (pb_pointer pointer) = true -> tree (S level) pointer (zrepeat (fanout ^ Z.of_nat (S level)) None)
| tree_node level pointer raws children leaves :
    blk_is_hole (pb_pointer pointer) = false ->
    read_pool_block_from source 0 pointer key = Ok (concat raws) ->
    Forall (fun raw => len raw = BLKPTR_SIZE) raws -> len raws = fanout ->
    Forall2 (fun raw child => PoolBlockPointer_parse raw endian = Ok child) raws children ->
    Forall2 (tree level) children leaves -> tree (S level) pointer (concat leaves).

(** The leaf of block [b] below a pointer: each indirect block's pointer for it is
    the one that the block number's digit to the base of the fan-out counts. *)
Inductive leaf_at (b : Z) : nat -> PoolBlockPointer -> option PoolBlockPointer -> Prop :=
| leaf_here pointer : leaf_at b 0 pointer (leaf_of pointer)
| leaf_hole level pointer : blk_is_hole (pb_pointer pointer) = true -> leaf_at b (S level) pointer None
| leaf_below level pointer block raw child leaf :
    blk_is_hole (pb_pointer pointer) = false -> read_pool_block_from source 0 pointer key = Ok block ->
    let digit := b / fanout ^ Z.of_nat level mod fanout in
    get_range block (digit * BLKPTR_SIZE) (digit * BLKPTR_SIZE + BLKPTR_SIZE) = Some raw ->
    PoolBlockPointer_parse raw endian = Ok child -> leaf_at b level child leaf -> leaf_at b (S level) pointer leaf.

Hypothesis Hshift : 0 <= shift.
Hypothesis Hfanout : fanout * BLKPTR_SIZE <= U64_MAX.

Lemma tree_len level : forall pointer leaves, tree level pointer leaves -> len leaves = fanout ^ Z.of_nat level.
Proof.
  induction level as [|level IH]; intros pointer leaves Ht; inversion Ht; subst; [done| |].
  - rewrite len_zrepeat. pose proof (Z.pow_nonneg fanout (Z.of_nat (S level)) ltac:(apply Z.pow_nonneg; lia)). lia.
  - match goal with Hl : Forall2 (tree level) _ _, Hp : Forall2 (fun _ _ => PoolBlockPointer_parse _ _ = _) _ _ |- _ => rename Hl into Hleaves; rename Hp into Hparse end.
    rewrite (len_concat (fanout ^ Z.of_nat level)).
    + apply Forall2_length in Hleaves. apply Forall2_length in Hparse. unfold len in *. rewrite <- Hleaves, <- Hparse.
      replace (Z.of_nat (S level)) with (Z.of_nat level + 1) by lia. rewrite Z.pow_add_r by lia. lia.
    + clear - IH Hleaves. induction Hleaves as [|p l ps ls Hpl _ IHl]; constructor; [by eapply IH|done].
Qed.

Lemma div_pow b l : 0 <= b -> 0 <= l -> Z.shiftr b (l * shift) = b / fanout ^ l.
Proof. intros. rewrite Z.shiftr_div_pow2 by nia. by rewrite <- Z.pow_mul_r, (Z.mul_comm shift) by lia. Qed.

(** Digit [l] of a number, and what is below it. *)
Lemma digit_split b l : 0 <= b -> 0 <= l ->
  b mod fanout ^ (l + 1) / fanout ^ l = b / fanout ^ l mod fanout /\ (b mod fanout ^ (l + 1)) mod fanout ^ l = b mod fanout ^ l.
Proof.
  intros Hb Hl. pose proof (Z.pow_pos_nonneg 2 shift ltac:(lia) Hshift) as Hf. pose proof (Z.pow_pos_nonneg fanout l Hf Hl) as Hfl.
  rewrite Z.pow_add_r, Z.pow_1_r by lia. rewrite Z.rem_mul_r by lia. split.
  - rewrite (Z.add_comm (b mod _)), (Z.mul_comm (fanout ^ l)), Z.div_add_l by lia. rewrite (Z.div_small (b mod _)) by (apply Z.mod_pos_bound; lia). lia.
  - rewrite (Z.mul_comm (fanout ^ l)), Z.mod_add by lia. apply Z.mod_mod. lia.
Qed.

Lemma walk_finds level : forall pointer leaves b leaf,
  tree level pointer leaves -> is_u64 b -> Z.of_nat level * shift < 64 + shift ->
  get leaves (b mod fanout ^ Z.of_nat level) = Some leaf ->
  exists found, indirect_walk source key endian fanout shift b level pointer = Ok found /\ mbind leaf_of found = leaf.
Proof.
  pose proof (Z.pow_pos_nonneg 2 shift ltac:(lia) Hshift) as Hf.
  induction level as [|level IH]; intros pointer leaves b leaf Ht Hb Hs Hleaf; inversion Ht; subst; cbn [indirect_walk].
  - exists (Some pointer). split; [done|]. change (fanout ^ Z.of_nat 0) with 1 in Hleaf. rewrite Z.mod_1_r in Hleaf. by injection Hleaf as <-.
  - match goal with Hh : blk_is_hole _ = true |- _ => rewrite Hh end. exists None. split; [done|]. by apply get_zrepeat in Hleaf.
  - match goal with Hh : blk_is_hole _ = false, Hr : read_pool_block_from _ _ _ _ = _ |- _ => rewrite Hh, Hr end. cbn [bind].
    unfold shr. rewrite (proj2 (Z.ltb_lt _ 64)) by lia. cbn [bind]. rewrite div_pow by (u64 || lia).
    replace (fanout - 1) with (Z.ones shift) by (rewrite Z.ones_equiv; lia). rewrite Z.land_ones by lia.
    pose proof (Z.pow_pos_nonneg fanout (Z.of_nat level) Hf ltac:(lia)) as Hfl.
    destruct (digit_split b (Z.of_nat level)) as [Hdigit Hbelow]; [u64|lia|].
    replace (Z.of_nat (S level)) with (Z.of_nat level + 1) in Hleaf by lia.
    match goal with Hl : Forall2 (tree level) _ _, Hp : Forall2 (fun _ _ => PoolBlockPointer_parse _ _ = _) _ _ |- _ => rename Hl into Hleaves; rename Hp into Hparse end.
    set (c := b / fanout ^ Z.of_nat level mod fanout) in *. assert (0 <= c < fanout) as Hc by (apply Z.mod_pos_bound; lia).
    destruct (get_is_Some raws c) as [raw Hraw]; [lia|]. destruct (Forall2_get _ _ _ _ _ Hparse Hraw) as (child & Hchild & Hpc).
    destruct (Forall2_get _ _ _ _ _ Hleaves Hchild) as (part & Hpart & Htp). pose proof blkptr_size as H128. rewrite H128 in *.
    rewrite usize_try_from_u64 by u64. cbn [default]. unfold id. unfold saturating_mul, saturating_add. rewrite !Z.min_l by lia.
    rewrite (get_range_concat 128 raws c raw) by (done || lia). cbn [ok_or bind]. rewrite Hpc. cbn [bind].
    eapply IH; [done|done|lia|]. rewrite (get_concat (fanout ^ Z.of_nat level) leaves0 _ part) in Hleaf; [by rewrite Hbelow in Hleaf|done| | |by rewrite Hdigit].
    + clear - Hleaves Hshift Hfanout. induction Hleaves; constructor; [by eapply tree_len|done].
    + apply Z.mod_pos_bound, Z.pow_pos_nonneg; lia.
Qed.

(** The walk reaches that leaf. *)
Lemma walk_leaf_at b level : forall pointer found,
  0 <= b -> indirect_walk source key endian fanout shift b level pointer = Ok found -> leaf_at b level pointer (mbind leaf_of found).
Proof.
  induction level as [|level IH]; intros pointer found Hb; cbn [indirect_walk]; [intros [= <-]; constructor|].
  destruct (blk_is_hole (pb_pointer pointer)) eqn:Hhole; [intros [= <-]; by constructor|].
  intros (block & Hblock & (moved & Hmoved & Hw)%bind_Ok)%bind_Ok. unfold shr in Hmoved. case_match; [|done]. injection Hmoved as <-.
  cbv zeta in Hw. apply bind_Ok in Hw as (raw & Hraw%ok_or_Ok & (child & Hchild & Hw)%bind_Ok).
  rewrite div_pow in Hraw by lia. replace (fanout - 1) with (Z.ones shift) in Hraw by (rewrite Z.ones_equiv; lia). rewrite Z.land_ones in Hraw by lia.
  pose proof (Z.pow_pos_nonneg 2 shift ltac:(lia) Hshift) as Hf. pose proof blkptr_size as H128. rewrite H128 in *.
  pose proof (Z.mod_pos_bound (b / fanout ^ Z.of_nat level) fanout Hf). set (digit := b / fanout ^ Z.of_nat level mod fanout) in *.
  rewrite usize_try_from_u64 in Hraw by u64. cbn [default] in Hraw. unfold id, saturating_mul, saturating_add in Hraw. rewrite !Z.min_l in Hraw by lia.
  eapply leaf_below; [done|exact Hblock|rewrite H128; exact Hraw|exact Hchild|by apply IH].
Qed.
End tree.

(** ** A dnode's blocks *)

Section dnode.
Context `{ZfsDiskLaws} `{CodecLaws} `{CryptoLaws}.

(** A dnode the walk supports: the pointers of an indirect block are a power of two,
    and a block number has no more bits than a shift allows. *)
Record geometry (d : Dnode) (shift : Z) : Prop := {
  geo_levels : 1 <= dn_nlevels d <= MAX_INDIRECT_LEVELS;
  geo_shift : 0 <= shift;
  geo_fanout : Z.max (indirect_block_size d / BLKPTR_SIZE) 1 = 2 ^ shift;
  geo_bits : (dn_nlevels d - 1) * shift < 64;
}.

(** What the pointers of the dnode stand for, one after the other. *)
Definition dnode_leaves (source : ImageRead) (key : option DatasetKey) (shift : Z) (dnode : PoolDnode)
    (leaves : list (option PoolBlockPointer)) : Prop :=
  exists parts, leaves = concat parts /\
    Forall2 (tree source key (dn_endian (pd_dnode dnode)) shift (Z.to_nat (dn_nlevels (pd_dnode dnode) - 1))) (pd_pointers dnode) parts.

(** A leaf's data: a hole is a record of zeros. *)
Definition leaf_data (source : ImageRead) (key : option DatasetKey) (dnode : PoolDnode) (leaf : option PoolBlockPointer) : result (list Z) :=
  match leaf with
  | None => Ok (zrepeat (data_block_size (pd_dnode dnode)) 0)
  | Some pointer => read_pool_block_from source 0 pointer key
  end.

(** The leaf of block [b] of a dnode, and the block's data. *)
Definition dnode_leaf_at (source : ImageRead) (key : option DatasetKey) (dnode : PoolDnode) (b : Z) (leaf : option PoolBlockPointer) : Prop :=
  let d := pd_dnode dnode in
  exists shift pointer, geometry d shift /\ get (pd_pointers dnode) (b / (2 ^ shift) ^ (dn_nlevels d - 1)) = Some pointer /\
    leaf_at source key (dn_endian d) shift b (Z.to_nat (dn_nlevels d - 1)) pointer leaf.

Definition block_data (source : ImageRead) (key : option DatasetKey) (dnode : PoolDnode) (b : Z) (data : list Z) : Prop :=
  exists leaf, dnode_leaf_at source key dnode b leaf /\ leaf_data source key dnode leaf = Ok data.

Lemma fanout_fits d shift : geometry d shift -> 2 ^ shift * BLKPTR_SIZE <= U64_MAX.
Proof.
  intros [_ _ Hf _]. rewrite <- Hf, blkptr_size. pose proof (indirect_block_u64 d).
  pose proof (Z.mul_div_le (indirect_block_size d) 128 ltac:(lia)). u64.
Qed.

Lemma power_of_two shift : 0 <= shift -> is_power_of_two (2 ^ shift) = true.
Proof.
  intros Hs. unfold is_power_of_two. pose proof (Z.pow_pos_nonneg 2 shift ltac:(lia) Hs). rewrite (proj2 (Z.ltb_lt _ _)) by lia.
  replace (2 ^ shift - 1) with (Z.ones shift) by (rewrite Z.ones_equiv; lia). rewrite Z.land_ones, Z_mod_same by lia. done.
Qed.

Lemma power_of_two_log2 n : is_power_of_two n = true -> n = 2 ^ Z.log2 n.
Proof.
  unfold is_power_of_two. intros [Hn%Z.ltb_lt Hl%Z.eqb_eq]%andb_true_iff.
  destruct (Z.log2_spec n Hn) as [Hle Hlt]. destruct (Z.eq_dec n (2 ^ Z.log2 n)) as [|Hne]; [done|].
  pose proof (Z.log2_nonneg n) as Hnn. pose proof (Z.pow_pos_nonneg 2 (Z.log2 n) ltac:(lia) Hnn).
  assert (Z.log2 (n - 1) = Z.log2 n) as Hm by (apply Z.log2_unique; lia).
  assert (Z.testbit (n - 1) (Z.log2 n) = true) as Hbit by (rewrite <- Hm; apply Z.bit_log2; lia).
  pose proof (Z.land_spec n (n - 1) (Z.log2 n)) as Hspec. by rewrite Hl, Z.testbit_0_l, Hbit, Z.bit_log2 in Hspec by done.
Qed.

Lemma read_dnode_leaf source key shift dnode leaves b leaf :
  geometry (pd_dnode dnode) shift -> dnode_leaves source key shift dnode leaves ->
  is_u64 b -> b <= dn_maxblkid (pd_dnode dnode) -> get leaves b = Some leaf ->
  read_dnode_data_with_key source dnode b key = leaf_data source key dnode leaf.
Proof.
  intros Hg (parts & -> & Hparts) Hb Hmax Hleaf. pose proof Hg as [[Hl1 Hl2] Hs Hf Hbits]. pose proof (fanout_fits _ _ Hg) as Hfit.
  unfold read_dnode_data_with_key. cbv zeta. rewrite (proj2 (Z.eqb_neq _ 0)), (proj2 (Z.ltb_ge _ (dn_nlevels _))) by lia.
  cbn [orb]. rewrite (proj2 (Z.ltb_ge _ b)) by lia. rewrite Hf, power_of_two, Z.log2_pow2 by done. cbn [negb].
  unfold sub. rewrite (proj2 (Z.leb_le 1 _)) by lia. cbn [bind]. unfold shr. rewrite (proj2 (Z.ltb_lt _ 64)) by lia. cbn [bind].
  set (top := dn_nlevels (pd_dnode dnode) - 1) in *. assert (Z.of_nat (Z.to_nat top) = top) as Htop by lia.
  pose proof (Z.pow_pos_nonneg 2 shift ltac:(lia) Hs) as Hfp. pose proof (Z.pow_pos_nonneg (2 ^ shift) top Hfp ltac:(lia)) as Hfl.
  rewrite div_pow by (u64 || lia).
  assert (Forall (fun part => len part = (2 ^ shift) ^ top) parts) as Hlens.
  { clear - Hparts Hs Hfit Htop. induction Hparts; constructor; [|done]. rewrite <- Htop. by eapply tree_len. }
  pose proof (get_lt _ _ _ Hleaf) as [Hb0 Hblen]. rewrite (len_concat _ _ Hlens) in Hblen.
  destruct (get_is_Some parts (b / (2 ^ shift) ^ top)) as [part Hpart].
  { split; [by apply Z.div_pos; lia|]. apply Z.div_lt_upper_bound; lia. }
  destruct (Forall2_get _ _ _ _ _ (proj2 (Forall2_flip _ _ _) Hparts) Hpart) as (pointer & Hpointer & Htree). unfold flip in Htree.
  rewrite (get_concat _ parts b part) in Hleaf by done.
  rewrite usize_try_from_u64 by (split; [apply Z.div_pos; lia|etransitivity; [apply Z.div_le_upper_bound with (q := b); nia|u64]]).
  cbn [default]. unfold id, blkptr. rewrite Hpointer. cbn [ok_or bind].
  destruct (walk_finds source key (dn_endian (pd_dnode dnode)) shift Hs Hfit (Z.to_nat top) pointer part b leaf) as (found & Hwalk & Hfound);
    [done|done|rewrite Htop; lia|by rewrite Htop|].
  rewrite Hwalk. cbn [bind]. destruct found as [p|]; cbn [mbind option_bind] in Hfound; [|by subst].
  unfold leaf_of in Hfound. destruct (blk_is_hole (pb_pointer p)); by subst.
Qed.

(** A block that can be read is that of its leaf. *)
Lemma read_dnode_block source key dnode b data :
  is_u64 b -> read_dnode_data_with_key source dnode b key = Ok data -> block_data source key dnode b data.
Proof.
  intros Hb Hread. unfold read_dnode_data_with_key in Hread. cbv zeta in Hread. case_match eqn:Hlev; [done|]. apply orb_false_iff in Hlev as [Hl0 Hl1].
  case_match; [done|]. case_match eqn:Hpow; [done|]. apply negb_false_iff, power_of_two_log2 in Hpow. b2p.
  apply bind_Ok in Hread as (top & Htop & (moved & Hmoved & (pointer & Hpointer%ok_or_Ok & (found & Hwalk & Hread)%bind_Ok)%bind_Ok)%bind_Ok).
  unfold sub in Htop. destruct (1 <=? dn_nlevels (pd_dnode dnode)) eqn:Hone; [|done]. injection Htop as <-.
  unfold shr in Hmoved. destruct (_ <? 64) eqn:Hsixty; [|done]. injection Hmoved as <-. b2p.
  set (d := pd_dnode dnode) in *. set (shift := Z.log2 (Z.max (indirect_block_size d / BLKPTR_SIZE) 1)) in *.
  assert (geometry d shift) as Hg by (split; [lia|apply Z.log2_nonneg|done|done]). pose proof Hg as [_ Hs _ _]. pose proof (fanout_fits _ _ Hg) as Hfit.
  rewrite Hpow in Hwalk. pose proof (walk_leaf_at source key (dn_endian d) shift Hs Hfit b _ pointer found (proj1 Hb) Hwalk) as Hleaf.
  exists (mbind leaf_of found). split.
  - exists shift, pointer. split; [done|]. split; [|done]. rewrite div_pow in Hpointer by u64. unfold blkptr in Hpointer.
    pose proof (Z.pow_pos_nonneg (2 ^ shift) (dn_nlevels d - 1) ltac:(apply Z.pow_pos_nonneg; lia) ltac:(lia)) as Hfl.
    by rewrite usize_try_from_u64 in Hpointer by (split; [apply Z.div_pos; u64|etransitivity; [apply Z.div_le_upper_bound with (q := b); unfold is_u64 in *; nia|u64]]).
  - destruct found as [p|]; [|by injection Hread as <-]. cbn [mbind option_bind]. unfold leaf_of. by case_match; [injection Hread as <-|].
Qed.
End dnode.

(** ** Files *)

(** A file's bytes: its records, each cut or extended with zeros to the record size. *)
Definition record (block_size : Z) (data : list Z) : list Z := resize data block_size 0.
Definition records (block_size : Z) (datas : list (list Z)) : list Z := concat (map (record block_size) datas).
Definition file_bytes (block_size size : Z) (datas : list (list Z)) : list Z := ztake size (records block_size datas).

(** What a record holds of a range, zeros beyond the data. *)
Lemma record_slice block_size data w k :
  0 <= w -> 0 <= k -> w + k <= block_size ->
  let present := Z.min (saturating_sub (len data) w) k in
  ztake present (zdrop w data) ++ zrepeat (k - present) 0 = ztake k (zdrop w (record block_size data)).
Proof.
  intros Hw Hk Hfit. cbv zeta. unfold saturating_sub, record, resize. pose proof (len_nonneg data). case_match; b2p.
  - rewrite Z.min_r by lia. rewrite (zrepeat_nil (k - k)), app_nil_r by lia. rewrite (ztake_zdrop_comm k w (ztake _ _)), ztake_ztake by lia.
    rewrite Z.min_l by lia. by rewrite ztake_zdrop_comm by lia.
  - rewrite zdrop_app. destruct (Z.le_gt_cases w (len data)).
    + rewrite (zdrop_0 (w - len data)), Z.max_l by lia. rewrite ztake_app, len_zdrop.
      rewrite ztake_zrepeat. destruct (Z.le_gt_cases k (len data - w)).
      * rewrite !Z.min_r by lia. rewrite !(zrepeat_nil _ 0) by lia. done.
      * rewrite (Z.min_l (len data - w) k) by lia. rewrite !(ztake_all _ (zdrop w data)) by (rewrite len_zdrop; lia). do 2 f_equal. lia.
    + rewrite Z.max_r, Z.min_l by lia. rewrite (ztake_0 0) by lia. rewrite (zdrop_all w data) by lia. cbn [app].
      rewrite zdrop_zrepeat, ztake_zrepeat by lia. f_equal. lia.
Qed.

Lemma len_record block_size data : 0 <= block_size -> len (record block_size data) = block_size.
Proof. apply len_resize. Qed.

Lemma records_parts block_size datas :
  0 <= block_size -> Forall (fun r => len r = block_size) (map (record block_size) datas).
Proof. intros Hb. apply List.Forall_map, List.Forall_forall. intros. by apply len_record. Qed.

Lemma get_map {A B} (f : A -> B) l i x : get l i = Some x -> get (map f l) i = Some (f x).
Proof. intros [Hi Hx]%get_Some_lookup. apply get_Some_lookup. split; [done|]. by rewrite list_lookup_fmap, Hx. Qed.

(** A range inside one record. *)
Lemma records_slice block_size datas b data w k :
  0 < block_size -> get datas b = Some data -> 0 <= w -> 0 <= k -> w + k <= block_size ->
  ztake k (zdrop (b * block_size + w) (records block_size datas)) = ztake k (zdrop w (record block_size data)).
Proof.
  intros Hb Hd Hw Hk Hfit. pose proof (get_lt _ _ _ Hd). destruct (zdrop_concat block_size (map (record block_size) datas) b (record block_size data))
    as [rest Hrest]; [lia|apply records_parts; lia|by apply get_map|].
  rewrite <- zdrop_zdrop by nia. unfold records. rewrite Hrest, zdrop_app, (zdrop_0 (w - _)) by (rewrite len_record; lia).
  rewrite ztake_app, (ztake_0 (k - _)), app_nil_r; [done|]. rewrite len_zdrop, len_record; lia.
Qed.

Lemma digest_zeroes_fold fuel : forall digest count,
  0 <= count < 64 * 1024 * Z.of_nat fuel -> digest_zeroes_loop fuel digest count = Ok (digest ++ zrepeat count 0).
Proof.
  induction fuel as [|fuel IH]; intros digest count Hc; [lia|]. cbn [digest_zeroes_loop].
  destruct (Z.eqb_spec count 0) as [->|Hne]; [by rewrite app_nil_r|]. cbv zeta.
  destruct (Z.le_gt_cases count (64 * 1024)).
  - rewrite Z.min_l, Z.sub_diag by lia. destruct fuel; cbn [digest_zeroes_loop]; done.
  - rewrite Z.min_r, IH by lia. by rewrite <- app_assoc, zrepeat_app, Zplus_minus by lia.
Qed.

Lemma digest_zeroes_Ok digest count : 0 <= count -> digest_zeroes digest count = Ok (digest ++ zrepeat count 0).
Proof.
  intros Hc. apply digest_zeroes_fold. pose proof (Z.div_mod count (64 * 1024) ltac:(lia)). pose proof (Z.mod_pos_bound count (64 * 1024) ltac:(lia)).
  pose proof (Z.div_pos count (64 * 1024)). lia.
Qed.

Section files.
Context `{ZfsDiskLaws} `{CodecLaws} `{CryptoLaws} `{PoolCore}.

(** The blocks of a file read as [datas]; behind the last block there is nothing. *)
Definition blocks_read (source : ImageRead) (key : option DatasetKey) (dnode : PoolDnode) (datas : list (list Z)) : Prop :=
  forall b data, get datas b = Some data ->
    bytes_ok data /\
    if dn_maxblkid (pd_dnode dnode) <? b then data = [] else read_dnode_data_with_key source dnode b key = Ok data.

Section reading.
Variable self : PoolImageFile.
Abbreviation dnode := (rpp_dnode (pf_resolved self)).
Variable block_size : Z.
Variable datas : list (list Z).
Hypothesis Hblock : 0 < block_size.
Hypothesis Hdatas : blocks_read (pm_source (pf_member self)) (pf_key self) dnode datas.

Lemma image_loop_reads fuel : forall position filled n,
  0 <= position -> 0 <= filled <= n -> n - filled <= Z.of_nat fuel -> n <= U64_MAX ->
  position + (n - filled) <= len datas * block_size -> position + (n - filled) <= U64_MAX ->
  image_file_loop fuel self block_size position filled n = Ok (ztake (n - filled) (zdrop position (records block_size datas))).
Proof.
  induction fuel as [|fuel IH]; intros position filled n Hp Hf Hfuel Hn Hfit Hmax; cbn [image_file_loop].
  { rewrite (proj2 (Z.leb_le n filled)), ztake_0 by lia. done. }
  destruct (Z.leb_spec n filled); [by rewrite ztake_0 by lia|]. cbv zeta.
  pose proof (Z.div_mod position block_size ltac:(lia)) as Hdm. pose proof (Z.mod_pos_bound position block_size Hblock) as Hmod.
  pose proof (Z.div_pos position block_size Hp Hblock) as Hb0. set (b := position / block_size) in *. set (w := position mod block_size) in *.
  rewrite usize_try_from_u64 by u64. cbn [ok_or bind]. unfold sub. rewrite !(proj2 (Z.leb_le _ _)) by lia. cbn [bind].
  destruct (get_is_Some datas b) as [data Hdata]; [nia|]. destruct (Hdatas b data Hdata) as [_ Hread].
  assert ((if dn_maxblkid (pd_dnode dnode) <? b then Ok [] else
    read_dnode_data_with_key (pm_source (pf_member self)) dnode b (pf_key self)) = Ok data) as Hblk by (case_match; [by rewrite Hread|done]).
  rewrite Hblk. cbn [bind].
  set (wanted := Z.min (n - filled) (block_size - w)). set (present := Z.min (saturating_sub (len data) w) wanted).
  assert ((if present =? 0 then Ok [] else slice (E:=error) data w (w + present)) = Ok (ztake present (zdrop w data))) as Hs.
  { unfold present, saturating_sub. destruct (Z.eqb_spec (Z.min (Z.max (len data - w) 0) wanted) 0) as [->|Hne]; [by rewrite ztake_0|].
    apply slice_Ok. split; [lia|]. split; [lia|]. f_equal. lia. }
  rewrite Hs. cbn [bind]. unfold add. rewrite !(proj2 (Z.leb_le _ U64_MAX)) by lia. cbn [bind].
  rewrite IH by lia. cbn [bind]. rewrite app_assoc. unfold present. rewrite (record_slice block_size) by lia.
  rewrite <- (records_slice block_size datas b data w wanted) by (done || lia).
  replace (b * block_size + w) with position by lia. f_equal.
  replace (n - (filled + wanted)) with ((n - filled) - wanted) by lia. apply range_split; lia.
Qed.
End reading.

(** *** Writing *)

Context `{OsLaws}.
Section writing.
Variable source : ImageRead.
Variable key : option DatasetKey.
Variable resolved : ResolvedPoolPath.
Abbreviation d := (pd_dnode (rpp_dnode resolved)).
Abbreviation block_size := (data_block_size d).
Abbreviation size := (rpp_logical_size resolved).
Variable datas : list (list Z).
Hypothesis Hblock : 0 < block_size.
Hypothesis Hsize : is_u64 size.
Hypothesis Hdatas : blocks_read source key (rpp_dnode resolved) datas.
Hypothesis Hlen : len datas = div_ceil size block_size.
Hypothesis Hmax : len datas - 1 <= dn_maxblkid d.

(** After [i] blocks the output and the digest are of the first [i] records. *)
Definition written (i : Z) (s : Sparse.File * list Z * Z) : Prop :=
  let '(output, digest, remaining) := s in
  let so_far := ztake (Z.min size (i * block_size)) (records block_size datas) in
  file_ok output /\ file_len output <= len so_far /\ same_reads output (byte_at so_far) /\ digest = so_far /\
  remaining = size - Z.min size (i * block_size).

Lemma len_records : len (records block_size datas) = len datas * block_size.
Proof.
  unfold records. rewrite (len_concat block_size) by (apply records_parts; lia). f_equal. unfold len. by rewrite length_map.
Qed.

Lemma wp_write_file_block i s :
  0 <= i < len datas -> written i s -> wp (write_file_block source resolved key s i) (written (i + 1)).
Proof.
  intros Hi. destruct s as [[output digest] remaining]. intros (Hok & Hfl & Hreads & -> & ->).
  pose proof (div_ceil_bounds size block_size Hblock) as Hceil. rewrite <- Hlen in Hceil.
  assert (i * block_size < size) as Hlt by nia. rewrite (Z.min_r size) in * by lia.
  destruct (get_is_Some datas i) as [data Hdata]; [lia|]. destruct (Hdatas i data Hdata) as [Hdb Hread].
  rewrite (proj2 (Z.ltb_ge _ i)) in Hread by lia. unfold write_file_block. cbv zeta. rewrite Hread. cbn [with_context map_err bind].
  set (count := Z.min (size - i * block_size) block_size). pose proof (len_nonneg data).
  rewrite usize_try_from_u64 by u64. cbn [ok_or bind]. rewrite (proj2 (checked_mul_Some _ _ (i * block_size))) by u64. cbn [ok_or bind].
  unfold write_file_record. apply wp_bind, wp_bind. rewrite (proj2 (slice_Ok data 0 (Z.min (len data) count) (ztake (Z.min (len data) count) data)))
    by (rewrite zdrop_0 by lia; split_and!; [lia|lia|lia|f_equal; lia]). cbn [wp wpe].
  apply wp_bind. eapply wp_mono; [|apply wp_sparse_write_extent; [done|auto with zse|u64]].
  intros output' (Hok' & Hfl' & Hreads'). cbv zeta. unfold sub. rewrite (proj2 (Z.leb_le (Z.min _ _) count)) by lia. cbn [bind].
  rewrite digest_zeroes_Ok by lia. cbn [bind]. apply wp_Ok. cbn [wp wpe]. apply wp_bind, wp_sub; [lia|]. apply wp_Ok. unfold written.
  assert (Z.min size ((i + 1) * block_size) = i * block_size + count) as -> by lia.
  set (m := i * block_size) in *. set (piece := ztake (Z.min (len data) count) data) in *.
  assert (piece ++ zrepeat (count - Z.min (len data) count) 0 = ztake count (zdrop m (records block_size datas))) as Hpiece.
  { replace m with (m + 0) by lia. unfold m. rewrite (records_slice _ _ _ data) by (done || lia). rewrite <- (record_slice block_size) by lia.
    unfold saturating_sub. rewrite zdrop_0, Z.sub_0_r, Z.max_l by lia. done. }
  pose proof len_records as Hrl. assert (len piece = Z.min (len data) count) as Hpl by (unfold piece; rewrite len_ztake; lia).
  assert (m + count <= len datas * block_size) as Hin by nia.
  rewrite <- !ztake_add by lia. rewrite <- Hpiece. split; [done|]. split; [|split; [|split]].
  - rewrite !len_app, len_ztake, len_zrepeat, Hrl, Hpl in *. lia.
  - intros j Hj. rewrite Hreads' by done. unfold over. rewrite Hpl. rewrite byte_at_app by done. rewrite len_ztake, Hrl.
    replace (Z.max 0 (Z.min m (len datas * block_size))) with m by lia. destruct (Z.ltb_spec j m).
    + rewrite (proj2 (Z.leb_gt m j)) by lia. by apply Hreads.
    + rewrite byte_at_app by lia. rewrite byte_at_zeros, Hpl, (proj2 (Z.leb_le m j)) by lia. cbn [andb].
      destruct (Z.ltb_spec j (m + Z.min (len data) count)), (Z.ltb_spec (j - m) (Z.min (len data) count)); try lia; try done.
      rewrite Hreads by done. apply byte_at_out. rewrite len_ztake. lia.
  - by rewrite <- app_assoc.
  - lia.
Qed.

Lemma wp_write_file_blocks n : forall i s,
  0 <= i -> i + Z.of_nat n <= len datas -> written i s ->
  wp (fold_res (write_file_block source resolved key) s (seqZ i (Z.of_nat n))) (written (i + Z.of_nat n)).
Proof.
  induction n as [|n IH]; intros i s Hi Hn Hw; [by rewrite Z.add_0_r|].
  rewrite seqZ_cons by lia. cbn [fold_res]. apply wp_bind. eapply wp_mono; [|apply wp_write_file_block; [lia|done]]. intros s' Hs'.
  replace (Z.pred (Z.of_nat (S n))) with (Z.of_nat n) by lia. replace (i + Z.of_nat (S n)) with (i + 1 + Z.of_nat n) by lia. by apply IH; [lia|lia|].
Qed.

Lemma wp_write_file :
  wp (write_file source resolved {| contents := []; cursor := 0 |} [] key)
    (fun '(output, digest) => file_ok output /\ file_len output <= size /\ same_reads output (byte_at (file_bytes block_size size datas)) /\
      digest = file_bytes block_size size datas).
Proof.
  pose proof (div_ceil_bounds size block_size Hblock) as Hceil. rewrite <- Hlen in Hceil. pose proof (len_nonneg datas).
  assert (file_ok {| contents := []; cursor := 0 |}) as Hnew by (split_and!; cbn; done).
  unfold write_file, file_bytes. cbv zeta. destruct (Z.eqb_spec size 0) as [Hz|Hz].
  { apply wp_Ok. rewrite Hz, ztake_0 by lia. split; [done|]. by split. }
  assert (0 < len datas) by (unfold is_u64 in *; nia).
  rewrite (proj2 (Z.eqb_neq block_size 0)) by lia. rewrite <- Hlen. unfold saturating_sub. rewrite (proj2 (Z.ltb_ge _ _)) by lia.
  apply wp_bind. rewrite <- (Z2Nat.id (len datas)) by done. eapply wp_mono; [|apply (wp_write_file_blocks (Z.to_nat (len datas)) 0); [lia|lia|]].
  - intros [[output digest] remaining]. rewrite Z.add_0_l, Z2Nat.id by done. unfold written. rewrite Z.min_l by lia. intros (? & Hl & ? & ? & _).
    apply wp_Ok. split; [done|]. split; [|done]. rewrite len_ztake, len_records in Hl. u64.
  - unfold written. rewrite Z.mul_0_l, Z.min_r, ztake_0 by u64. split; [done|]. split; [done|]. split; [done|]. split; [done|]. lia.
Qed.
End writing.
End files.
