(* ===== verification/PoolFacts.v ===== *)
(** Lemmas on an opened pool: that reading objects, datasets and files returns, that
    the search for datasets ends and finds every directory, and that a file's
    extraction returns; and on opening a member: a source is a range of the file,
    and which source is chosen. *)

From stdpp Require Import sorting.
From S2P Require Import Prelude Bytes Utf8 Stream StreamFacts Compression NvList Encrypted EncryptedDnode EncryptedFacts DnodeWalks.
From S2P Require Import Merkle Replay Paths Extents Snapshots Selected ObjectIndex IndexFacts Resolve ResolveProps Sparse.
From S2P Require Import SparseFacts Operations Image DiskImage Partitions Volumes PartitionFacts Sources SourceProps HostFs.
From S2P Require Import Tree HostExtract PoolBlocks PoolSource PoolBlockFacts Pool PoolFile PoolOpen PoolTreeFacts.
#[local] Open Scope Z_scope.
#[local] Open Scope zse_scope.

(** The shifts of a dnode's tree stay below the width of a block number. The code
    checks the levels and the indirect block size one by one, and panics on a damaged
    dnode where this does not hold. *)
Definition shifts_fit `{ZfsDisk} (d : Dnode) : Prop :=
  dn_nlevels d <= MAX_INDIRECT_LEVELS -> (dn_nlevels d - 1) * Z.log2 (Z.max (indirect_block_size d / BLKPTR_SIZE) 1) < 64.

Section facts.
Context `{ZfsDiskLaws} `{CodecLaws} `{CryptoLaws} `{PoolCore}.

Definition dnode_fits (d : PoolDnode) : Prop := pool_dnode_ok d /\ shifts_fit (pd_dnode d).

(** No dnode of an object set is damaged like that: neither the meta-dnode nor one
    that can be read. *)
Definition objset_fits (source : ImageRead) (objset : PoolObjset) (key : option DatasetKey) : Prop :=
  shifts_fit (pd_dnode (meta_dnode objset)) /\
  forall object d, dnode_with_key source objset object key = Ok (Some d) -> shifts_fit (pd_dnode d).

Definition objset_ok (o : PoolObjset) : Prop := pool_dnode_ok (meta_dnode o).

(** ** Objects *)

Lemma wp_shr a n (P : Z -> Prop) : n < 64 -> P (Z.shiftr a n) -> wp (shr (E:=error) a n) P.
Proof. intros Hn HP. unfold shr. rewrite (proj2 (Z.ltb_lt _ _)) by done. by apply wp_Ok. Qed.

Lemma wp_indirect_walk source key endian fanout shift b level : forall pointer,
  image_ok source -> pool_pointer_ok pointer -> 0 <= shift -> Z.of_nat level * shift < 64 + shift ->
  wp (indirect_walk source key endian fanout shift b level pointer) (fun o => forall p, o = Some p -> pool_pointer_ok p).
Proof.
  induction level as [|level IH]; intros pointer Hi Hp Hs Hl; cbn [indirect_walk]; [apply wp_Ok; by intros p [= <-]|].
  apply wp_if; intros _; [by apply wp_Ok|]. apply wp_bind. eapply wp_mono; [|by apply wp_read_pool_block_from]. intros block [_ Hb].
  apply wp_bind, wp_shr; [lia|]. cbv zeta. wp_step. wp_step.
  match goal with Hg : get_range _ _ _ = Some _ |- _ => apply get_range_Some in Hg as (_ & _ & ->) end.
  wp_step. eapply wp_mono; [|apply wp_PoolBlockPointer_parse; auto with zse]. intros child [Hc _]. apply IH; [done|done|done|lia].
Qed.

Lemma wp_read_dnode_data source dnode b key :
  image_ok source -> dnode_fits dnode -> wp (read_dnode_data_with_key source dnode b key) bytes_ok.
Proof.
  intros Hi [(Hlev & _ & _ & Hps) Hfit]. unfold shifts_fit in Hfit. unfold read_dnode_data_with_key. cbv zeta.
  apply wp_if; intros Hl; [apply wp_Err|]. apply wp_if; intros _; [apply wp_Err|]. apply wp_if; intros _; [apply wp_Err|].
  apply orb_false_iff in Hl as [Hl Hl']. b2p. specialize (Hfit Hl'). assert (1 <= dn_nlevels (pd_dnode dnode)) by u64.
  pose proof (Z.log2_nonneg (Z.max (indirect_block_size (pd_dnode dnode) / BLKPTR_SIZE) 1)).
  assert (bytes_ok (zrepeat (data_block_size (pd_dnode dnode)) 0)) as Hz by auto with zse.
  apply wp_bind, wp_sub; [lia|]. apply wp_bind, wp_shr; [lia|]. apply wp_bind, wp_ok_or. intros pointer Hpointer. unfold blkptr in Hpointer.
  assert (pool_pointer_ok pointer) as Hp by (by eapply get_Forall).
  apply wp_bind. eapply wp_mono; [|apply wp_indirect_walk; [done|done|done|rewrite Z2Nat.id by lia; lia]].
  intros [leaf|] Hleaf; [|by apply wp_Ok]. case_match; [by apply wp_Ok|].
  eapply wp_mono; [|apply wp_read_pool_block_from; [done|by apply Hleaf]]. by intros data [_ ?].
Qed.

(** A value needs no such hypothesis. *)
Lemma read_dnode_data_bytes source dnode b key data :
  image_ok source -> pool_dnode_ok dnode -> read_dnode_data_with_key source dnode b key = Ok data -> bytes_ok data.
Proof.
  intros Hi Hok Hread. assert (shifts_fit (pd_dnode dnode)) as Hfit.
  { intros _. unfold read_dnode_data_with_key in Hread. cbv zeta in Hread. do 3 (case_match; [done|]).
    apply bind_Ok in Hread as (top & Htop & (moved & Hshr & _)%bind_Ok). unfold sub in Htop. case_match; [|done]. injection Htop as <-.
    unfold shr in Hshr. case_match; [|done]. by b2p. }
  by apply (wp_value _ _ _ (wp_read_dnode_data source dnode b key Hi (conj Hok Hfit)) Hread).
Qed.

Lemma dnode_with_key_ok source objset object_id key d :
  image_ok source -> objset_ok objset -> dnode_with_key source objset object_id key = Ok (Some d) -> pool_dnode_ok d.
Proof.
  intros Hi Ho Hd. unfold dnode_with_key in Hd. cbv zeta in Hd. case_match; [done|]. case_match; [done|].
  apply bind_Ok in Hd as (block & Hblock & (raw & Hraw & (d' & Hparse & Hd)%bind_Ok)%bind_Ok). case_match; [done|]. injection Hd as ->.
  apply read_dnode_data_bytes in Hblock; [|done|done]. apply ok_or_Ok, get_range_Some in Hraw as (_ & _ & ->).
  apply map_err_Ok in Hparse. eapply wp_value; [|exact Hparse]. apply wp_PoolDnode_parse. auto with zse.
Qed.

Definition some_dnode (o : option PoolDnode) : Prop := forall d, o = Some d -> dnode_fits d.

Lemma wp_dnode_with_key source objset object_id key :
  image_ok source -> objset_ok objset -> objset_fits source objset key -> wp (dnode_with_key source objset object_id key) some_dnode.
Proof.
  intros Hi Ho [Hmeta Hall]. eapply wp_mono; [|apply (wp_conj _ (fun _ => True) (fun o => forall d, o = Some d -> dnode_fits d))].
  { intros o [_ Hd]. exact Hd. }
  2: { intros o Heq d ->. split; [by eapply dnode_with_key_ok|by eapply Hall]. }
  assert (dnode_fits (meta_dnode objset)) as Hfits by by split. unfold dnode_with_key. cbv zeta. apply wp_if; intros _; [by apply wp_Ok|]. apply wp_if; intros _; [by apply wp_Ok|].
  wp_step. eapply wp_mono; [|by apply wp_read_dnode_data]. intros block Hb. wp_step. wp_step.
  match goal with Hg : get_range _ _ _ = Some _ |- _ => apply get_range_Some in Hg as (_ & _ & ->) end.
  wp_step. apply wp_with_context. eapply wp_mono; [|apply wp_PoolDnode_parse; auto with zse]. intros d Hd. by apply wp_Ok.
Qed.

Lemma bytes_ok_concat (ls : list (list Z)) : Forall bytes_ok ls -> bytes_ok (concat ls).
Proof. induction 1; cbn; auto with zse. Qed.

Lemma wp_read_zap source dnode key :
  image_ok source -> dnode_fits dnode -> wp (read_zap_object_with_key source dnode key) bytes_ok.
Proof.
  intros Hi Hd. unfold read_zap_object_with_key. cbv zeta. wp_step. wp_step. wp_step.
  eapply wp_mono; [|apply (wp_map_res _ bytes_ok); intros b _; by apply wp_read_dnode_data].
  intros blocks [Hb _]. apply wp_Ok. by apply bytes_ok_concat.
Qed.

(** ** The pool *)

Section member.
Variable self : PoolMember.

Record member_ok : Prop := { mo_source : image_ok (pm_source self); mo_mos : objset_ok (pm_mos self) }.

(** No dnode of the pool's own object set is damaged like that; and none of the
    object sets of its datasets. *)
Definition mos_fits : Prop := objset_fits (pm_source self) (pm_mos self) None.

Record pool_fits : Prop := {
  pf_mos : mos_fits;
  pf_datasets : forall object d raw key zpl, dataset_pointer_raw self object = Ok (d, raw) ->
    dataset_objset self raw (dn_endian (pd_dnode d)) key = Ok zpl -> objset_fits (pm_source self) zpl key;
}.

Hypothesis Hself : member_ok.

Lemma present_ok what object_id d : present self what object_id = Ok d -> pool_dnode_ok d.
Proof.
  destruct Hself. unfold present, mos_dnode. intros (o & Ho & Hd%ok_or_Ok)%bind_Ok. subst o. by eapply dnode_with_key_ok.
Qed.

Lemma dataset_loop_seen fuel object name queue seen found :
  object ∈ seen -> dataset_loop self (S fuel) ((object, name) :: queue) seen found = dataset_loop self fuel queue seen found.
Proof. intros Hin. cbn [dataset_loop]. by rewrite bool_decide_true. Qed.

Lemma dataset_loop_new fuel object name queue (seen : gset Z) found :
  object ∉ seen ->
  dataset_loop self (S fuel) ((object, name) :: queue) seen found =
    if MAX_DATASETS <? Z.of_nat (S (size seen))
    then Err (Msg "dataset tree exceeds the {MAX_DATASETS}-entry safety limit" [MAX_DATASETS])
    else let! (dataset, children) := visit_directory self object name in
         dataset_loop self fuel (queue ++ children) ({[object]} ∪ seen) (found ++ dataset).
Proof.
  intros Hnew. cbn [dataset_loop]. rewrite bool_decide_false by done. cbv zeta. by rewrite size_union, size_singleton by set_solver.
Qed.

Section mos.
Hypothesis Hmos : mos_fits.

Lemma wp_mos_dnode object_id : wp (mos_dnode self object_id) some_dnode.
Proof. destruct Hself. by apply wp_dnode_with_key. Qed.

Lemma wp_present what object_id : wp (present self what object_id) dnode_fits.
Proof. unfold present. wp_step. eapply wp_mono; [|apply wp_mos_dnode]. intros o Ho. apply wp_ok_or, Ho. Qed.

Lemma wp_mos_zap dnode : dnode_fits dnode -> wp (read_zap_object self dnode) bytes_ok.
Proof. destruct Hself. by apply wp_read_zap. Qed.

Lemma safe_visit_directory object_id name : safe (visit_directory self object_id name).
Proof.
  unfold safe, visit_directory. wp_step. eapply wp_mono; [|apply wp_present]. intros directory Hd. cbv zeta.
  wp_step. eapply wp_mono with (P := fun _ => True).
  2: { case_match; [done|]. wp_step. eapply wp_mono; [|apply wp_present]. done. }
  intros ds _. wp_step. eapply wp_mono with (P := fun _ => True); [done|]. case_match; [done|].
  wp_step. eapply wp_mono; [|apply wp_present]. intros zap Hzap. wp_step. eapply wp_mono; [|by apply wp_mos_zap]. done.
Qed.

(** The loop settles: from some fuel on, its result no longer changes. *)
Definition settles {A} (m : nat -> result A) : Prop :=
  exists enough r, safe r /\ forall fuel, (enough <= fuel)%nat -> m fuel = r.

Lemma settles_now {A} (m : nat -> result A) r : safe r -> (forall fuel, m (S fuel) = r) -> settles m.
Proof. intros Hr Hm. exists 1%nat, r. split; [done|]. intros [|fuel] ?; [lia|apply Hm]. Qed.

Lemma settles_step {A} (m m' : nat -> result A) : settles m' -> (forall fuel, m (S fuel) = m' fuel) -> settles m.
Proof. intros (enough & r & Hr & Hm') Hm. exists (S enough), r. split; [done|]. intros [|fuel] ?; [lia|]. rewrite Hm. apply Hm'. lia. Qed.

Lemma dataset_loop_settles n : forall queue seen found,
  MAX_DATASETS + 1 - Z.of_nat (size seen) <= Z.of_nat n -> settles (fun fuel => dataset_loop self fuel queue seen found).
Proof.
  induction n as [|n IHn]; intros queue; induction queue as [|[object name] queue IHq]; intros seen found Hn;
    try (exists 0%nat, (Ok found); split; [done|]; by intros [|fuel]).
  all: destruct (decide (object ∈ seen)) as [Hin|Hnew];
    [by eapply settles_step; [by apply IHq|intros fuel; by apply dataset_loop_seen]|].
  - eapply settles_now; [|intros fuel; rewrite dataset_loop_new by done; rewrite (proj2 (Z.ltb_lt _ _)) by lia; done]. done.
  - destruct (Z.ltb_spec MAX_DATASETS (Z.of_nat (S (size seen)))) as [Hlimit|Hlimit].
    { eapply settles_now; [|intros fuel; rewrite dataset_loop_new by done; rewrite (proj2 (Z.ltb_lt _ _)) by lia; done]. done. }
    destruct (safe_cases _ (safe_visit_directory object name)) as [[[ds children] Hvisit]|[e Hvisit]].
    + eapply settles_step; [apply (IHn (queue ++ children) ({[object]} ∪ seen) (found ++ ds)); rewrite size_union, size_singleton by set_solver; lia|].
      intros fuel. rewrite dataset_loop_new by done. rewrite (proj2 (Z.ltb_ge _ _)) by lia. by rewrite Hvisit.
    + eapply (settles_now _ (Err e)); [done|]. intros fuel. rewrite dataset_loop_new by done. rewrite (proj2 (Z.ltb_ge _ _)) by lia. by rewrite Hvisit.
Qed.

Lemma settles_bind {A B} (m : nat -> result A) (k : A -> result B) :
  settles m -> (forall fuel a, m fuel = Ok a -> safe (k a)) -> settles (fun fuel => bind (m fuel) k).
Proof.
  intros (enough & r & Hr & Hm) Hk. exists enough, (bind r k). split.
  - apply safe_bind; [done|]. intros a Ha. apply (Hk enough). by rewrite Hm.
  - intros fuel Hf. by rewrite Hm.
Qed.

Lemma safe_root_dataset : safe (root_dataset self).
Proof.
  unfold safe, root_dataset. wp_step. eapply wp_mono; [|apply wp_present]. intros d Hd. wp_step. eapply wp_mono; [|by apply wp_mos_zap].
  intros data _. by apply wp_ok_or.
Qed.

Lemma datasets_settle : settles (datasets self).
Proof.
  unfold datasets. destruct (safe_cases _ safe_root_dataset) as [[root Hroot]|[e Hroot]].
  - destruct (dataset_loop_settles (Z.to_nat (MAX_DATASETS + 1)) [(root, pm_pool_name self)] ∅ []) as (enough & r & Hr & Hm); [rewrite size_empty; unfold MAX_DATASETS; lia|].
    exists enough, (let! found := r in Ok (sort_by_name di_name found)). split; [by apply safe_bind|]. intros fuel Hf. rewrite Hroot. cbn [bind]. by rewrite Hm.
  - exists 0%nat, (Err e). split; [done|]. intros fuel _. by rewrite Hroot.
Qed.

End mos.

(** *** Which directories are found *)

(** The directories below the root, with the names the search gives them. *)
Inductive reaches (root : Z) : Z -> list Z -> Prop :=
| reaches_root : reaches root root (pm_pool_name self)
| reaches_child object name found children child child_name :
    reaches root object name -> visit_directory self object name = Ok (found, children) ->
    (child, child_name) ∈ children -> reaches root child child_name.

(** A directory's children do not depend on the name it is visited under. *)
Lemma visit_name object name name' found children :
  visit_directory self object name = Ok (found, children) ->
  exists found' children', visit_directory self object name' = Ok (found', children') /\ children'.*1 = children.*1 /\
    (found = [] <-> found' = []).
Proof.
  unfold visit_directory. intros Hv. apply bind_Ok in Hv as (directory & -> & Hv). cbn [bind]. cbv zeta in *.
  apply bind_Ok in Hv as (ds & Hds & Hv). apply bind_Ok in Hv as (cs & Hcs & [= <- <-]).
  assert (exists ds', (if bonus_u64 directory 8 =? 0 then Ok []
    else let! head := present self "head dataset object {head_dataset_object} is absent" (bonus_u64 directory 8) in
      Ok [{| di_name := name'; di_dsl_dir_object := object; di_head_dataset_object := bonus_u64 directory 8;
             di_head_guid := guid_string (dataset_guid head) |}]) = Ok ds' /\ (ds = [] <-> ds' = [])) as (ds' & -> & Hnil).
  { destruct (bonus_u64 directory 8 =? 0); [by injection Hds as <-; exists []|]. apply bind_Ok in Hds as (head & -> & [= <-]). eexists. split; [done|]. done. }
  cbn [bind]. destruct (bonus_u64 directory 32 =? 0); [injection Hcs as <-; by exists ds', []|].
  apply bind_Ok in Hcs as (zap & -> & Hcs). cbn [bind]. apply bind_Ok in Hcs as (data & -> & [= <-]). cbn [bind].
  eexists ds', _. split; [done|]. split; [|done]. rewrite <- !list_fmap_compose. apply list_fmap_ext. by intros i [c o].
Qed.

(** What is in the queue is reachable; what has been seen is in what was found, and
    its children are seen or queued. *)
Record search (root : Z) (queue : list (Z * list Z)) (seen : gset Z) (found : list DatasetInfo) : Prop := {
  se_queue : forall object name, (object, name) ∈ queue -> reaches root object name;
  se_found : forall d, d ∈ found -> di_dsl_dir_object d ∈ seen /\ reaches root (di_dsl_dir_object d) (di_name d);
  se_nodup : NoDup (di_dsl_dir_object <$> found);
  se_seen : forall object, object ∈ seen -> exists name here children,
    visit_directory self object name = Ok (here, children) /\ (forall d, d ∈ here -> d ∈ found) /\
    forall child, child ∈ children.*1 -> child ∈ seen \/ child ∈ queue.*1;
  se_root : root ∈ seen \/ root ∈ queue.*1;
}.

Lemma visit_found object name found children :
  visit_directory self object name = Ok (found, children) ->
  (forall d, d ∈ found -> di_dsl_dir_object d = object /\ di_name d = name) /\ NoDup (di_dsl_dir_object <$> found).
Proof.
  unfold visit_directory. intros Hv. apply bind_Ok in Hv as (directory & _ & Hv). cbv zeta in Hv.
  apply bind_Ok in Hv as (ds & Hds & Hv). apply bind_Ok in Hv as (cs & _ & [= <- _]).
  destruct (bonus_u64 directory 8 =? 0); [injection Hds as <-; split; [set_solver|constructor]|].
  apply bind_Ok in Hds as (head & _ & [= <-]). split; [by intros d ->%list_elem_of_singleton|]. apply NoDup_singleton.
Qed.

Lemma search_seen root object name queue seen found :
  search root ((object, name) :: queue) seen found -> object ∈ seen -> search root queue seen found.
Proof.
  intros [Hq Hf Hn Hs Hr] Hin. split; [set_solver|done|done| |set_solver].
  intros o (n & here & children & Hv & Hd & Hc)%Hs. exists n, here, children. split; [done|]. split; [done|].
  intros child Hchild. destruct (Hc child Hchild) as [|Hq']; [by left|]. cbn in Hq'. apply elem_of_cons in Hq' as [->|]; auto.
Qed.

Lemma search_new root object name queue (seen : gset Z) found here children :
  search root ((object, name) :: queue) seen found -> object ∉ seen ->
  visit_directory self object name = Ok (here, children) ->
  search root (queue ++ children) ({[object]} ∪ seen) (found ++ here).
Proof.
  intros [Hq Hf Hn Hs Hr] Hnew Hv. destruct (visit_found _ _ _ _ Hv) as [Hhere Hnodup].
  assert (reaches root object name) as Hreach by (apply Hq; set_solver). split.
  - intros o n [Ho|Ho]%elem_of_app; [apply Hq; set_solver|]. by eapply reaches_child.
  - intros d [Hd|Hd]%elem_of_app; [destruct (Hf d Hd); set_solver|]. destruct (Hhere d Hd) as [-> ->]. set_solver.
  - rewrite fmap_app. apply NoDup_app. split; [done|]. split; [|done]. intros o (d & -> & Hd)%list_elem_of_fmap (d' & He & Hd')%list_elem_of_fmap.
    destruct (Hf d Hd) as [Hin _]. destruct (Hhere d' Hd') as [Hobj _]. congruence.
  - intros o [->%elem_of_singleton|Ho]%elem_of_union.
    + exists name, here, children. split; [done|]. split; [set_solver|]. rewrite fmap_app. set_solver.
    + destruct (Hs o Ho) as (n & here' & children' & Hv' & Hd & Hc). exists n, here', children'. split; [done|]. split; [set_solver|].
      intros child Hchild. rewrite fmap_app. destruct (Hc child Hchild) as [|Hq']; [set_solver|]. cbn in Hq'. set_solver.
  - rewrite fmap_app. cbn in Hr. set_solver.
Qed.

Lemma dataset_loop_search root fuel : forall queue seen found all,
  search root queue seen found -> dataset_loop self fuel queue seen found = Ok all -> exists seen', search root [] seen' all.
Proof.
  induction fuel as [|fuel IH]; intros [|[object name] queue] seen found all Hs Hl; try done.
  1, 2: injection Hl as <-; by exists seen.
  destruct (decide (object ∈ seen)) as [Hin|Hnew].
  - rewrite dataset_loop_seen in Hl by done. eapply IH; [|done]. by eapply search_seen.
  - rewrite dataset_loop_new in Hl by done. case_match; [done|]. apply bind_Ok in Hl as ([here children] & Hv & Hl).
    eapply IH; [|done]. by eapply search_new.
Qed.

(** Every directory below the root is found, if it has a dataset, and only once. *)
Lemma datasets_found fuel all :
  datasets self fuel = Ok all ->
  exists root, root_dataset self = Ok root /\ NoDup (di_dsl_dir_object <$> all) /\ Sorted (by_name di_name) all /\
    (forall d, d ∈ all -> reaches root (di_dsl_dir_object d) (di_name d)) /\
    forall object name found children, reaches root object name -> visit_directory self object name = Ok (found, children) -> found <> [] ->
      exists d, d ∈ all /\ di_dsl_dir_object d = object.
Proof.
  unfold datasets. intros Hd. apply bind_Ok in Hd as (root & Hroot & Hd). apply bind_Ok in Hd as (found & Hl & [= <-]). exists root.
  split; [done|]. destruct (dataset_loop_search root fuel [(root, pm_pool_name self)] ∅ [] found) as [seen [_ Hf Hn Hs Hr]]; [|done|].
  { split; [intros o n [= -> ->]%list_elem_of_singleton; constructor|set_solver|constructor|set_solver|set_solver]. }
  assert (forall d, d ∈ sort_by_name di_name found <-> d ∈ found) as Hperm.
  { intros d. unfold sort_by_name. by rewrite (merge_sort_Permutation (by_name di_name)). }
  split; [|split; [|split]].
  - eapply NoDup_Permutation_proper; [|exact Hn]. apply fmap_Permutation, merge_sort_Permutation.
  - apply Sorted_merge_sort. intros x y. unfold by_name. apply bytes_leb_total.
  - intros d Hd%Hperm. by apply Hf.
  - assert (forall object name, reaches root object name -> object ∈ seen) as Hall.
    { induction 1 as [|object name found' children child child_name Hreach IH Hv Hc]; [destruct Hr as [|Hr]; [done|by apply elem_of_nil in Hr]|].
      destruct (Hs _ IH) as (n & here & children' & Hv' & _ & Hclosed). destruct (visit_name _ _ n _ _ Hv) as (f2 & c2 & Hv2 & Hsame & _).
      rewrite Hv' in Hv2. injection Hv2 as <- <-. destruct (Hclosed child) as [|Hq]; [|done|by apply elem_of_nil in Hq].
      rewrite Hsame. apply list_elem_of_fmap. by exists (child, child_name). }
    intros object name found' children Hreach Hv Hne. destruct (Hs object (Hall _ _ Hreach)) as (n & here & children' & Hv' & Hd & _).
    destruct (visit_name _ _ n _ _ Hv) as (f2 & c2 & Hv2 & _ & Hnil). rewrite Hv' in Hv2. injection Hv2 as <- <-.
    destruct here as [|d here]; [by destruct Hne; apply Hnil|]. exists d. split; [apply Hperm, Hd; set_solver|].
    apply (visit_found _ _ _ _ Hv'). set_solver.
Qed.

(** ** Encryption parameters, selection and views *)

Lemma wp_pool_bytes values name n (P : list Z -> Prop) : (forall b, len b = n -> P b) -> wp (pool_bytes values name n) P.
Proof. intros HP. unfold pool_bytes. wp_step. wp_step. wp_step. b2p. by apply wp_Ok, HP. Qed.

Lemma safe_pool_u64 values name : safe (pool_u64 values name).
Proof.
  unfold safe, pool_u64, pool_optional_u64. wp_step. case_match; [by wp_steps|by apply wp_Ok, wp_ok_or].
Qed.

Lemma safe_from_pool_zap values : safe (from_pool_zap values).
Proof.
  unfold safe, from_pool_zap. assert (forall name (k : Z -> result EncryptionParams), (forall v, wp (k v) (fun _ => True)) ->
    wp (let! v := pool_u64 values name in k v) (fun _ => True)) as Hu.
  { intros name k Hk. wp_step. eapply wp_mono; [|apply safe_pool_u64]. auto. }
  apply Hu. intros suite. apply wp_bind. eapply wp_mono with (P := fun n => 0 <= n <= 32).
  2: { unfold suite_key_len. repeat case_match; try done; apply wp_Ok; lia. }
  intros n Hn. apply wp_bind, wp_pool_bytes. intros wrapped Hw. apply Hu. intros guid. wp_step. eapply wp_mono with (P := fun _ => True).
  2: { unfold pool_optional_u64. case_match; [by wp_steps|done]. }
  intros version _. apply Hu. intros format. apply Hu. intros iterations. apply Hu. intros salt.
  apply wp_bind, wp_slice; [lia|lia|]. intros master _ _. do 2 (apply wp_bind, wp_pool_bytes; intros ? ?). apply wp_bind, wp_ok_or. intros iv _.
  apply wp_bind, wp_pool_bytes. intros mac _. apply wp_bind, wp_ok_or. intros mac' _. by apply wp_Ok.
Qed.

Section mos_only.
Hypothesis Hmos : mos_fits.

Lemma safe_crypto_object_walk rounds : forall current seen, safe (crypto_object_walk self rounds current seen).
Proof.
  induction rounds as [|rounds IH]; intros current seen; cbn [crypto_object_walk]; [done|]. case_match; [done|].
  unfold safe. wp_step. eapply wp_mono; [|by apply wp_present]. intros d Hd. wp_step. eapply wp_mono; [|by apply wp_mos_zap]. intros data _.
  case_match; [done|apply IH].
Qed.

Lemma safe_encryption_params dir : safe (encryption_params self dir).
Proof.
  unfold safe, encryption_params. wp_step. eapply wp_mono; [|apply safe_crypto_object_walk]. intros o _. wp_step. wp_step. wp_step.
  eapply wp_mono; [|by apply wp_present]. intros d Hd. wp_step. eapply wp_mono; [|by apply wp_mos_zap]. intros data _. cbv zeta.
  wp_step. eapply wp_mono; [|apply (wp_fold_res _ (fun _ => True)); [|done]]; [intros values _; apply safe_from_pool_zap|].
  intros values [name value] _ _. unfold zap_value. wp_step. eapply wp_mono with (P := fun _ => True); [done|]. case_match; [by wp_steps|done].
Qed.

Lemma safe_snapshots_for dataset : safe (snapshots_for self dataset).
Proof.
  unfold safe, snapshots_for. wp_step. eapply wp_mono; [|by apply wp_present]. intros head _. cbv zeta. case_match; [done|].
  wp_step. eapply wp_mono; [|by apply wp_present]. intros names Hn. wp_step. eapply wp_mono; [|by apply wp_mos_zap]. intros data _. wp_step.
  eapply wp_mono; [|apply (wp_map_res _ (fun _ => True))]; [done|]. intros [name object] _. unfold snapshot_entry. wp_step.
  eapply wp_mono; [|by apply wp_present]. done.
Qed.

Lemma safe_select_snapshot dataset name : safe (select_snapshot self dataset name).
Proof.
  unfold safe, select_snapshot. wp_step. wp_step. eapply wp_mono; [|apply safe_snapshots_for]. intros found _. wp_step.
  eapply wp_mono with (P := fun _ => True); [|case_match; [by wp_steps|done]]. intros o _. by wp_steps.
Qed.

Lemma settles_const {A} (m : result A) : safe m -> settles (fun _ => m).
Proof. intros Hm. by exists 0%nat, m. Qed.

Lemma select_dataset_settles selector : settles (fun fuel => select_dataset self fuel selector).
Proof.
  unfold select_dataset. assert (forall dataset_name snapshot_name, settles (fun fuel =>
    fail! is_empty dataset_name with Msg "dataset selector cannot be empty" [] in
    let! all := datasets self fuel in
    let! dataset := ok_or (List.find (fun candidate => bytes_eqb (di_name candidate) dataset_name) all)
      (Msg "dataset {dataset_name:?} was not found in pool {}" []) in
    let! (dataset_object, snapshot_guid) := match snapshot_name with
      | Some snapshot_name => select_snapshot self dataset snapshot_name
      | None => Ok (di_head_dataset_object dataset, None)
      end in
    Ok (dataset, dataset_object, snapshot_guid))) as Hs.
  { intros dataset_name snapshot_name. case_match; [by apply settles_const|]. apply settles_bind; [by apply datasets_settle|]. intros _ all _.
    unfold safe. wp_step. wp_step. wp_step. eapply wp_mono with (P := fun _ => True); [by intros []|]. case_match; [apply safe_select_snapshot|done]. }
  destruct (split_once AT selector) as [[dataset snapshot]|]; [apply (Hs dataset (Some snapshot))|apply (Hs selector None)].
Qed.

Lemma wp_dataset_pointer_raw object : wp (dataset_pointer_raw self object) (fun '(d, raw) => dnode_fits d /\ bytes_ok raw).
Proof.
  unfold dataset_pointer_raw. wp_step. eapply wp_mono; [|by apply wp_present]. intros d Hd. wp_step. wp_step. wp_step. split; [done|].
  match goal with Hg : get_range _ _ _ = Some _ |- _ => apply get_range_Some in Hg as (_ & _ & ->) end. destruct Hd as [(_ & _ & Hb & _) _]. auto with zse.
Qed.

End mos_only.

Definition objset_sound (zpl : PoolObjset) (key : option DatasetKey) : Prop := objset_ok zpl /\ objset_fits (pm_source self) zpl key.

Lemma wp_zpl_dnode zpl what object key : objset_sound zpl key -> wp (zpl_dnode self zpl what object key) dnode_fits.
Proof. intros [Hz Hf]. destruct Hself. unfold zpl_dnode. wp_step. eapply wp_mono; [|by apply wp_dnode_with_key]. intros o Ho. apply wp_ok_or, Ho. Qed.

Lemma safe_verify_objset_mac block endian key : bytes_ok block -> safe (verify_objset_mac block endian key).
Proof.
  intros Hb. unfold safe, verify_objset_mac. wp_step. wp_step. b2p. wp_step. apply wp_index; [lia|]. intros count Hcount.
  assert (is_byte count) as Hc by (by eapply get_Forall). wp_step. apply wp_ok_or. intros pointer_end Hend.
  destruct (checked_add _ _) as [e|] eqn:He; [|done]. apply checked_add_Some in He as [_ ->]. unfold saturating_mul in Hend. rewrite blkptr_size in *. unfold is_byte in Hc.
  destruct (Z.leb_spec (64 + Z.min (count * 128) U64_MAX) 512); [|done]. injection Hend as <-. cbv zeta.
  apply wp_bind, wp_slice_fixed; [done|lia|lia|]. intros core [Hcl Hcb]. apply wp_bind. unfold portable_core.
  apply wp_bind, wp_index; [lia|]. intros flags _. apply wp_bind, wp_set_index; [lia|]. intros Hl1. apply wp_fill; [lia|lia|]. intros Hl2.
  apply wp_bind, wp_slice_fixed; [done|lia|lia|]. intros pointers [_ Hpb]. apply wp_bind.
  eapply wp_mono; [|apply (wp_map_res _ (fun _ => True))].
  - intros parts _. apply wp_bind, wp_index; [lia|]. intros flags' _. apply wp_bind. eapply wp_mono with (P := fun _ => True).
    2: { case_match; [|done]. apply wp_bind, wp_sub; [lia|]. apply wp_bind, wp_slice_fixed; [done|lia|lia|]. intros p [_ Hp].
         by apply wp_pool_block_pointer_auth. }
    intros spill _. apply wp_bind, wp_slice_fixed; [done|lia|lia|]. intros mac _. apply wp_with_context.
    eapply wp_mono; [|by apply (wp_authenticate key _ mac (fun _ => True))]. done.
  - intros chunk Hchunk. apply wp_pool_block_pointer_auth; [|done]. apply List.Forall_forall. intros x Hx%list_elem_of_In.
    assert (x ∈ pointers) as Hin by (rewrite <- (chunks_concat 128 pointers) by lia; by eapply concat_elem).
    apply list_elem_of_In in Hin. by eapply List.Forall_forall in Hin.
Qed.

Lemma wp_dataset_objset raw endian key : bytes_ok raw -> wp (dataset_objset self raw endian key) objset_ok.
Proof.
  intros Hb. destruct Hself. unfold dataset_objset. wp_step. eapply wp_mono; [|by apply wp_PoolBlockPointer_parse]. intros pointer [Hp _].
  wp_step. apply wp_with_context. eapply wp_mono; [|by apply wp_read_pool_block_from]. intros block [_ Hblock].
  wp_step. eapply wp_mono with (P := fun _ => True).
  2: { destruct key; [apply wp_with_context; by apply safe_verify_objset_mac|done]. }
  intros _ _. wp_step. apply wp_with_context. eapply wp_mono; [|by apply wp_PoolObjset_parse]. intros zpl Hz. by wp_step.
Qed.

Definition view_ok (view : DatasetView) : Prop := objset_sound (dv_zpl view) (dv_key view).

Lemma wp_zpl_zap dnode key : dnode_fits dnode -> wp (read_zap_object_with_key (pm_source self) dnode key) bytes_ok.
Proof. destruct Hself. by apply wp_read_zap. Qed.

Lemma safe_pool_sa_context zpl data key : objset_sound zpl key -> safe (pool_sa_context self zpl data key).
Proof.
  intros Hz. unfold safe, pool_sa_context. case_match; [|done].
  wp_step. eapply wp_mono; [|by apply wp_zpl_dnode]. intros m Hm. wp_step. eapply wp_mono; [|by apply wp_zpl_zap]. intros sa _.
  do 4 wp_step. wp_step. eapply wp_mono; [|by apply wp_zpl_dnode]. intros r Hr. wp_step. eapply wp_mono; [|by apply wp_zpl_dnode]. intros l Hl.
  wp_step. eapply wp_mono; [|by apply wp_zpl_zap]. intros ? _. wp_step. eapply wp_mono; [|by apply wp_zpl_zap]. done.
Qed.

(** The view of what was selected. *)
Definition view_of (key_material : option (list Z)) (selected : DatasetInfo * Z * option Z) : result DatasetView :=
  let '(dataset, dataset_object, snapshot_guid) := selected in
  let! (dataset_dnode, raw) := dataset_pointer_raw self dataset_object in
  let endian := dn_endian (pd_dnode dataset_dnode) in
  let! key := dataset_key self (di_dsl_dir_object dataset) (blkptr_uses_crypt raw endian) endian key_material in
  let! zpl := dataset_objset self raw endian key in
  let! master := zpl_dnode self zpl "ZPL master node is absent for {selector}" ZPL_MASTER_NODE_OBJ key in
  let! master_data := read_zap_object_with_key (pm_source self) master key in
  let! root_id := ok_or (zap_entry master_data "ROOT") (Msg "ZPL master node for {selector} has no ROOT entry" []) in
  let! (registry, layouts) := pool_sa_context self zpl master_data key in
  Ok {| dv_zpl := zpl; dv_registry := registry; dv_layouts := layouts; dv_root_id := root_id;
        dv_snapshot_guid := snapshot_guid; dv_key := key |}.

Lemma dataset_view_eq fuel selector key_material :
  dataset_view self fuel selector key_material = bind (select_dataset self fuel selector) (view_of key_material).
Proof. done. Qed.

Section pool_fits.
Hypothesis Hfits : pool_fits.

Lemma wp_view_of key_material selected : wp (view_of key_material selected) view_ok.
Proof.
  destruct selected as [[dataset object] guid]. unfold view_of. pose proof (pf_mos Hfits) as Hmos.
  wp_step. eapply wp_mono; [|apply wp_conj; [by apply wp_dataset_pointer_raw|intros a Ha; exact Ha]]. intros [d raw] [[Hd Hraw] Hpointer]. cbv zeta. wp_step.
  eapply wp_mono with (P := fun _ => True).
  2: { unfold dataset_key. case_match; [|by wp_steps]. wp_step. wp_step. eapply wp_mono; [|by apply safe_encryption_params]. intros p _.
       wp_step. wp_step. wp_step. eapply wp_mono; [|apply wp_unlock]. done. }
  intros key _. wp_step. eapply wp_mono; [|apply wp_conj; [by apply wp_dataset_objset|intros a Ha; exact Ha]]. intros zpl [Hok Hobjset].
  assert (objset_sound zpl key) as Hz by (split; [done|by eapply (pf_datasets Hfits)]). wp_step. eapply wp_mono; [|by apply wp_zpl_dnode].
  intros master Hm. wp_step. eapply wp_mono; [|by apply wp_zpl_zap]. intros data _. wp_step. wp_step. wp_step.
  eapply wp_mono; [|by apply safe_pool_sa_context]. intros [? ?] _. by apply wp_Ok.
Qed.

Lemma dataset_view_settles selector key_material : settles (fun fuel => dataset_view self fuel selector key_material).
Proof.
  apply (settles_bind (fun fuel => select_dataset self fuel selector)); [apply select_dataset_settles, Hfits|]. intros _ selected _. by eapply wp_safe, wp_view_of.
Qed.

(** ** Paths, directories and files *)

Context `{!PoolCoreLaws}.

Definition resolved_ok (resolved : ResolvedPoolPath) : Prop := dnode_fits (rpp_dnode resolved) /\ is_u64 (rpp_logical_size resolved).

Lemma attrs_size d registry layouts a : attrs d registry layouts = Some a -> is_u64 (zp_size a).
Proof. unfold attrs. repeat case_match; [apply sa_bonus_size|apply znode_phys_size|done]. Qed.

Lemma safe_pool_normalize_path p : safe (pool_normalize_path p).
Proof.
  unfold safe, pool_normalize_path. wp_step. eapply wp_mono; [|apply (wp_fold_res _ (fun _ => True)); [|done]]; [intros parts _; by case_match|].
  intros parts component _ _. by wp_steps.
Qed.

Lemma wp_pool_resolve_path view p : view_ok view -> wp (pool_resolve_path self view p) resolved_ok.
Proof.
  intros Hv. unfold pool_resolve_path. wp_step. eapply wp_mono; [|apply safe_pool_normalize_path]. intros normalized _. wp_step.
  eapply wp_mono; [|apply (wp_fold_res _ (fun _ => True)); [|done]].
  - intros [current type] _. wp_step. eapply wp_mono; [|by apply wp_zpl_dnode]. intros d Hd. wp_step. wp_step. wp_step. split; [done|]. by eapply attrs_size.
  - intros [current type] component _ _. unfold pool_resolve_step. wp_step. wp_step. eapply wp_mono; [|by apply wp_zpl_dnode]. intros d Hd.
    wp_step. eapply wp_mono; [|by apply wp_zpl_zap]. intros data _. by wp_steps.
Qed.

Lemma safe_pool_directory_entry view entry : view_ok view -> safe (pool_directory_entry self view entry).
Proof.
  intros [Hv Hf]. destruct Hself. unfold safe, pool_directory_entry. destruct entry as [name raw]. cbv zeta. wp_step.
  eapply wp_mono with (P := fun _ => True); [done|]. eapply wp_catch; [by apply wp_dnode_with_key|done|done].
Qed.

Lemma dataset_view_ok fuel selector key_material view : dataset_view self fuel selector key_material = Ok view -> view_ok view.
Proof. rewrite dataset_view_eq. intros Hv. apply bind_Ok in Hv as (selected & _ & Hv). by apply (wp_value _ _ _ (wp_view_of key_material selected)). Qed.

Lemma list_directory_settles selector p key_material :
  settles (fun fuel => list_directory_with_key self fuel selector p key_material).
Proof.
  unfold list_directory_with_key. apply settles_bind; [apply dataset_view_settles|]. intros fuel view Hview%dataset_view_ok. unfold safe.
  wp_step. eapply wp_mono; [|by apply wp_pool_resolve_path]. intros resolved [Hd _]. wp_step. wp_step. eapply wp_mono; [|by apply wp_zpl_zap].
  intros data _. wp_step. eapply wp_mono; [|apply (wp_map_res _ (fun _ => True))]; [done|]. intros entry _. by apply safe_pool_directory_entry.
Qed.

Lemma regular_file_settles selector p key_material : settles (fun fuel => regular_file self fuel selector p key_material).
Proof.
  unfold regular_file. apply settles_bind; [apply dataset_view_settles|]. intros fuel view Hview%dataset_view_ok. unfold safe.
  wp_step. eapply wp_mono; [|by apply wp_pool_resolve_path]. intros resolved _. by wp_steps.
Qed.

Lemma regular_file_ok fuel selector p key_material view resolved :
  regular_file self fuel selector p key_material = Ok (view, resolved) -> resolved_ok resolved /\ rpp_dirent_type resolved = 8.
Proof.
  unfold regular_file. intros Hf. apply bind_Ok in Hf as (view' & Hv%dataset_view_ok & Hf). apply bind_Ok in Hf as (resolved' & Hr & Hf).
  destruct (Z.eqb_spec (rpp_dirent_type resolved') 8) as [Ht|]; [|done]. injection Hf as -> ->. split; [|done].
  by apply (wp_value _ _ _ (wp_pool_resolve_path view p Hv)).
Qed.

Context `{OsLaws}.

Lemma wp_write_file_any resolved key :
  resolved_ok resolved ->
  wp (write_file (pm_source self) resolved {| contents := []; cursor := 0 |} [] key) (fun '(output, _) => file_ok output).
Proof.
  intros [Hd Hsize]. destruct Hself as [Hsrc _]. unfold write_file. cbv zeta. case_match; [apply wp_Ok; by split_and!|]. wp_step. b2p. wp_step.
  pose proof (data_block_u64 (pd_dnode (rpp_dnode resolved))) as Hbs. wp_step.
  eapply wp_mono; [|apply (wp_fold_res _ (fun '(output, _, remaining) => file_ok output /\ is_u64 remaining))].
  - intros [[output digest] remaining] [Ho _]. by apply wp_Ok.
  - intros [[output digest] remaining] b Hb%elem_of_seqZ [Ho Hr]. unfold write_file_block. cbv zeta. wp_step. apply wp_with_context.
    eapply wp_mono; [|by apply wp_read_dnode_data]. intros block Hblock. pose proof (len_nonneg block).
    wp_step. apply wp_ok_or. intros count Hcount. apply usize_try_from_Some in Hcount as ->. wp_step. apply wp_ok_or. intros offset Hoff.
    apply checked_mul_Some in Hoff as [Hoff ->]. wp_step. unfold write_file_record. apply wp_bind, wp_slice; [u64|lia|]. intros bytes -> _.
    wp_step. eapply wp_mono; [|apply wp_sparse_write_extent; [done|auto with zse|unfold is_u64; nia]]. intros output' (Ho' & _).
    cbv zeta. apply wp_bind, wp_sub; [lia|]. rewrite digest_zeroes_Ok by lia. cbn [bind]. apply wp_Ok. apply wp_bind, wp_sub; [lia|]. apply wp_Ok.
    split; [done|u64].
  - split; [by split_and!|done].
Qed.

Lemma wp_extract_content resolved key :
  resolved_ok resolved -> wp (extract_content self resolved key) (fun '(output, _) => file_ok output /\ file_len output = rpp_logical_size resolved).
Proof.
  intros Hr. unfold extract_content. wp_step. eapply wp_mono; [|by apply wp_write_file_any]. intros [output digest] Ho. wp_step.
  destruct Hr as [_ Hsize]. eapply wp_mono; [|apply wp_set_len; [done|u64]]. intros output' (? & ? & _). by apply wp_Ok.
Qed.
End pool_fits.

(** *** A file is its blocks *)

Context `{OsLaws}.

(** Where the blocks read as [datas], extraction writes and digests their records. *)
Lemma wp_extract_datas resolved key datas :
  let block_size := data_block_size (pd_dnode (rpp_dnode resolved)) in
  let size := rpp_logical_size resolved in
  0 < block_size -> is_u64 size -> blocks_read (pm_source self) key (rpp_dnode resolved) datas ->
  len datas = div_ceil size block_size -> len datas - 1 <= dn_maxblkid (pd_dnode (rpp_dnode resolved)) ->
  len (file_bytes block_size size datas) = size /\
  wp (extract_content self resolved key) (fun '(output, digest) =>
    contents output = file_bytes block_size size datas /\ digest = file_bytes block_size size datas).
Proof.
  intros block_size size Hbs Hsize Hread Hlen Hmax. pose proof (div_ceil_bounds size block_size Hbs) as Hceil. rewrite <- Hlen in Hceil.
  assert (len (file_bytes block_size size datas) = size) as Hfl.
  { unfold file_bytes, records. rewrite len_ztake, (len_concat block_size) by (apply records_parts; lia). unfold len at 1. rewrite length_map.
    fold (len datas). u64. }
  split; [done|]. unfold extract_content. apply wp_bind. eapply wp_mono; [|by apply (wp_write_file _ _ _ datas)]. intros [output digest] (Hok & Hol & Hreads & ->).
  apply wp_bind. eapply wp_mono; [|apply wp_set_len; [done|fold size; u64]]. intros output' (_ & Hl' & _ & Hr'). apply wp_Ok. split; [|done].
  apply contents_ext; [by rewrite Hfl|]. intros i Hi. fold size in Hl', Hr'. unfold same_reads, reads in *. rewrite Hr' by done.
  destruct (Z.ltb_spec i size); [by apply Hreads|]. symmetry. apply byte_at_out. lia.
Qed.

Lemma write_blocks_read resolved key n : forall i s s',
  fold_res (write_file_block (pm_source self) resolved key) s (seqZ i (Z.of_nat n)) = Ok s' ->
  exists datas, len datas = Z.of_nat n /\
    forall b data, get datas b = Some data -> read_dnode_data_with_key (pm_source self) (rpp_dnode resolved) (i + b) key = Ok data.
Proof.
  induction n as [|n IH]; intros i s s'.
  - intros _. exists []. split; [done|]. intros b data Hb. apply get_lt in Hb. change (len (@nil (list Z))) with 0 in Hb. lia.
  - rewrite seqZ_cons by lia. cbn [fold_res]. replace (Z.pred (Z.of_nat (S n))) with (Z.of_nat n) by lia.
    intros (s1 & Hs1 & (datas & Hl & Hdatas)%IH)%bind_Ok. destruct s as [[output digest] remaining]. unfold write_file_block in Hs1. cbv zeta in Hs1.
    apply bind_Ok in Hs1 as (first & Hfirst%map_err_Ok & _). exists (first :: datas). split; [rewrite len_cons; lia|]. intros b data Hb.
    pose proof (get_lt _ _ _ Hb). destruct (Z.eq_dec b 0) as [->|Hne]; [rewrite Z.add_0_r; by injection Hb as <-|].
    replace (i + b) with (Z.succ i + (b - 1)) by lia. apply Hdatas. rewrite <- Hb. replace b with (1 + (b - 1)) at 2 by lia.
    rewrite <- (get_zdrop (first :: datas)) by lia. done.
Qed.

(** What extraction writes, where it succeeds. *)
Lemma extract_content_blocks resolved key output digest :
  let dnode := rpp_dnode resolved in
  let block_size := data_block_size (pd_dnode dnode) in
  let size := rpp_logical_size resolved in
  pool_dnode_ok dnode -> is_u64 size -> extract_content self resolved key = Ok (output, digest) ->
  exists datas, len datas = div_ceil size block_size /\ contents output = file_bytes block_size size datas /\
    forall b data, get datas b = Some data -> block_data (pm_source self) key dnode b data.
Proof.
  intros dnode block_size size Hdnode Hsize Hextract. destruct Hself as [Hsource _]. pose proof Hextract as Hparts.
  unfold extract_content, write_file in Hparts. cbv zeta in Hparts. apply bind_Ok in Hparts as ([output' digest'] & Hwrite & Hparts).
  fold dnode size in Hwrite. fold block_size in Hwrite. destruct (Z.eqb_spec size 0) as [Hz|Hnz].
  { injection Hwrite as <- <-. apply bind_Ok in Hparts as (output'' & Hset & [= <- <-]). exists []. split; [by rewrite Hz|].
    split; [|intros b data Hb; apply get_lt in Hb; change (len (@nil (list Z))) with 0 in Hb; lia].
    fold size in Hset. rewrite Hz in Hset. injection Hset as <-. unfold file_bytes. by rewrite Hz. }
  destruct (Z.eqb_spec block_size 0) as [|Hbs]; [done|]. destruct (Z.ltb_spec (dn_maxblkid (pd_dnode dnode)) (saturating_sub (div_ceil size block_size) 1)) as [|Hmax]; [done|].
  pose proof (data_block_u64 (pd_dnode dnode)) as Hbu. fold block_size in Hbu. assert (0 < block_size) as Hpos by u64.
  pose proof (div_ceil_bounds size block_size Hpos) as Hceil. assert (0 <= div_ceil size block_size) by (unfold is_u64 in *; nia).
  apply bind_Ok in Hwrite as (s' & Hfold & _). rewrite <- (Z2Nat.id (div_ceil size block_size)) in Hfold by done.
  apply write_blocks_read in Hfold as (datas & Hlen & Hdatas). rewrite Z2Nat.id in Hlen by done. unfold saturating_sub in Hmax.
  assert (blocks_read (pm_source self) key dnode datas) as Hread.
  { intros b data Hb. pose proof (get_lt _ _ _ Hb). specialize (Hdatas b data Hb). rewrite Z.add_0_l in Hdatas.
    split; [by eapply read_dnode_data_bytes|]. by rewrite (proj2 (Z.ltb_ge _ b)) by lia. }
  destruct (wp_extract_datas resolved key datas Hpos Hsize Hread Hlen ltac:(fold dnode; lia)) as [_ Hwp].
  exists datas. split; [done|]. split; [apply (wp_value _ _ _ Hwp Hextract)|]. intros b data Hb. pose proof (get_lt _ _ _ Hb).
  apply read_dnode_block; [destruct Hdnode as (_ & Hm & _); fold dnode in Hm; u64|]. rewrite <- (Z.add_0_l b). by apply Hdatas.
Qed.
End member.
End facts.

Section source.
Context {D : Type} `{Device D} `{DeviceInfo D} `{ZfsLabelsLaws}.
Variables (d : D) (block : Z) (l : list Z).
Context `{!DeviceLaws d block l}.
Hypothesis Hmax : len l <= ISIZE_MAX.
Hypothesis Hblock : block = 1 \/ validate_block_size block = Ok block.

(** A range of the device's contents. *)
Record source_in (s : FileSource D) : Prop := {
  si_file : fs_file s = d;
  si_block : fs_block_size s = block;
  si_base : 0 <= fs_base_offset s;
  si_len : 0 <= fs_len s;
  si_end : fs_base_offset s + fs_len s <= len l;
}.

Lemma source_in_read s offset n :
  source_in s -> 0 <= offset -> 0 <= n -> offset + n <= fs_len s ->
  FileSource_read_exact_at s offset n = Ok (ztake n (zdrop (fs_base_offset s + offset) l)).
Proof.
  intros [Hf Hbs Hb Hl He] Ho Hn Hin. unfold FileSource_read_exact_at, checked_add, ISIZE_MAX in *. rewrite Hf, Hbs.
  rewrite (proj2 (Z.leb_le (offset + n) _)) by lia. cbn [ok_or bind]. rewrite (proj2 (Z.ltb_ge _ _)) by lia.
  rewrite (proj2 (Z.leb_le (fs_base_offset s + offset) _)) by lia. cbn [ok_or bind].
  rewrite (source_read_exact d block l) by (done || unfold ISIZE_MAX; lia). done.
Qed.

Lemma source_in_refuses s offset n : source_in s -> fs_len s < offset + n -> is_err (FileSource_read_exact_at s offset n) = true.
Proof.
  intros Hs Hout. unfold FileSource_read_exact_at, checked_add. destruct (Z.leb_spec (offset + n) U64_MAX); cbn [ok_or bind]; [|done].
  by rewrite (proj2 (Z.ltb_lt _ _)) by lia.
Qed.

Lemma source_image_ok s : source_in s -> image_ok (FileSource_image s).
Proof.
  intros Hs. pose proof Hs as [_ _ Hb Hl He]. unfold ISIZE_MAX in *. split; [cbn; u64|]. intros offset n Ho Hn. cbn [image_read FileSource_image].
  destruct (Z.le_gt_cases (offset + n) (fs_len s)) as [Hin|Hout].
  - rewrite source_in_read by (done || u64). apply wp_Ok. split; [unfold is_u64 in *; len_lia|].
    pose proof (device_bytes (d := d) (block := block) (l := l)). auto with zse.
  - pose proof (source_in_refuses s offset n Hs ltac:(lia)) as Herr. by destruct (FileSource_read_exact_at s offset n).
Qed.

Lemma FileSource_slice_in s number offset n s' :
  source_in s -> 0 <= offset -> FileSource_slice s number offset n = Ok s' ->
  source_in s' /\ fs_base_offset s' = fs_base_offset s + offset /\ fs_len s' = n /\ offset + n <= fs_len s.
Proof.
  intros [Hf Hbs Hb0 Hl0 He0] Ho. unfold FileSource_slice. intros Hs. pose proof label_size. inv_ok. subst s'.
  match goal with Hx : _ || _ = false |- _ => apply orb_false_iff in Hx as [? ?] end. b2p.
  repeat match goal with Hx : checked_add _ _ = Some _ |- _ => apply checked_add_Some in Hx as [? ->] end.
  split; [split; cbn; try done; lia|]. cbn. split; [done|]. split; [done|lia].
Qed.

Lemma FileSource_open_in platform s :
  source_length platform d = Ok (len l) -> source_block_size platform d = Ok block ->
  FileSource_open platform d = Ok s -> source_in s /\ fs_base_offset s = 0 /\ fs_len s = len l.
Proof.
  intros Hl Hb Ho. unfold FileSource_open in Ho. rewrite Hl, Hb in Ho. cbn [bind] in Ho. case_match; [done|]. injection Ho as <-.
  split; [|done]. split; cbn; try done. apply len_nonneg.
Qed.
End source.

Section choose.
Context `{ZfsDiskLaws} `{Codecs} `{Crypto} `{ZfsLabelsLaws} `{Crc32} {D : Type} `{Device D} `{DeviceInfo D} `{Luks D}.
Variable file_source : FileSource D.
Variable container_key : option (list Z).

(** The partition has no label of its own, as far as it can be read. *)
Definition unlabelled (p : GptPartition) : Prop :=
  forall s found, FileSource_slice file_source (gp_number p) (gp_offset p) (gp_length p) = Ok s ->
    read_labels (FileSource_image s) = Ok found -> found = [].

Definition labelled (p : GptPartition) (c : Candidate) : Prop :=
  exists s, FileSource_slice file_source (gp_number p) (gp_offset p) (gp_length p) = Ok s /\
    c = {| ca_source := PlainSource s; ca_labels := ca_labels c; ca_encrypted := false |} /\
    read_labels (FileSource_image s) = Ok (ca_labels c) /\ ca_labels c <> [].

(** What one partition adds. *)
Definition adds (p : GptPartition) (new : list Candidate) : Prop :=
  (new = [] /\ unlabelled p) \/ (exists c, new = [c] /\ labelled p c) \/ (exists c, new = [c] /\ unlabelled p /\ ca_encrypted c = true).

Lemma open_partition_adds s s' p :
  open_partition file_source container_key s p = Ok s' -> exists new, s'.1 = s.1 ++ new /\ adds p new.
Proof.
  destruct s as [candidates locked]. unfold open_partition. destruct (FileSource_slice _ _ _ _) as [candidate|e| |] eqn:Hslice; cbn [catch]; try done.
  2: { intros [= <-]. exists []. rewrite app_nil_r. split; [done|]. left. split; [done|]. intros s found. by rewrite Hslice. }
  intros Hk. apply bind_Ok in Hk as (found & Hfound & Hk). destruct (is_empty found) eqn:He; cbn [negb] in Hk.
  2: { injection Hk as <-. eexists. split; [done|]. right. left. eexists. split; [done|]. exists candidate. split_and!; try done. by destruct found. }
  assert (unlabelled p) as Hun.
  { intros s found' Hs' Hf'. rewrite Hslice in Hs'. injection Hs' as <-. rewrite Hfound in Hf'. injection Hf' as <-. by destruct found. }
  assert (forall k : Z, exists new, candidates = candidates ++ new /\ adds p new) as Hnone by (intros _; exists []; rewrite app_nil_r; split; [done|by left]).
  apply bind_Ok in Hk as (luks & _ & Hk). destruct luks; cbn [negb] in Hk; [|injection Hk as <-; by apply Hnone].
  destruct container_key as [key|]; [|apply bind_Ok in Hk as (? & _ & [= <-]); by apply Hnone].
  destruct (unlock_luks _ _) as [unlocked|e| |]; cbn [catch] in Hk; try done; [|injection Hk as <-; by apply Hnone].
  apply bind_Ok in Hk as (inner & _ & Hk). destruct (is_empty inner); injection Hk as <-; [by apply Hnone|].
  eexists. split; [done|]. right. right. eexists. split; [done|]. done.
Qed.

Lemma open_partitions_add ps : forall s s',
  fold_res (open_partition file_source container_key) s ps = Ok s' ->
  exists news, s'.1 = s.1 ++ concat news /\ Forall2 adds ps news.
Proof.
  induction ps as [|p ps IH]; intros s s'; cbn [fold_res].
  - intros [= <-]. exists []. rewrite app_nil_r. split; [done|constructor].
  - intros Hf. apply bind_Ok in Hf as (s1 & Hp & Hf). destruct (open_partition_adds _ _ _ Hp) as (new & Hs1 & Hnew).
    destruct (IH _ _ Hf) as (news & Hs' & Hnews). exists (new :: news). split; [|by constructor]. rewrite Hs', Hs1. cbn [concat]. by rewrite app_assoc.
Qed.

(** One candidate in all: one partition is behind it, and no other has labels. *)
Lemma single_candidate ps news c :
  Forall2 adds ps news -> concat news = [c] ->
  exists before p after, ps = before ++ p :: after /\ Forall unlabelled (before ++ after) /\ adds p [c].
Proof.
  induction 1 as [|p new ps news Hp Hps IH]; [done|]. cbn [concat]. intros Hc.
  assert (forall qs ks, Forall2 adds qs ks -> concat ks = [] -> Forall unlabelled qs) as Hnone.
  { clear. induction 1 as [|q k qs ks Hq Hqs IH]; [done|]. cbn [concat]. intros [-> Hks]%app_eq_nil. constructor; [|by apply IH].
    by destruct Hq as [[_ ?]|[(? & ? & _)|(? & ? & _)]]. }
  destruct new as [|c' new].
  - destruct (IH Hc) as (before & p' & after & -> & Hun & Hadds). exists (p :: before), p', after. split; [done|]. split; [|done].
    constructor; [|done]. by destruct Hp as [[_ ?]|[(? & ? & _)|(? & ? & _)]].
  - injection Hc as -> [-> Hrest]%app_eq_nil. exists [], p, ps. split; [done|]. split; [|done]. by eapply Hnone.
Qed.

Lemma choose_source_plain c :
  choose_source file_source container_key = Ok c -> ca_encrypted c = false ->
  exists partitions, partitions_or_none (FileSource_image file_source) = Ok partitions /\
    ((partitions = [] /\ c = {| ca_source := PlainSource file_source; ca_labels := ca_labels c; ca_encrypted := false |} /\
      read_labels (FileSource_image file_source) = Ok (ca_labels c)) \/
     exists before p after, partitions = before ++ p :: after /\ Forall unlabelled (before ++ after) /\ labelled p c).
Proof.
  unfold choose_source. intros Hc He. apply bind_Ok in Hc as (parsed & Hparsed & Hc). apply bind_Ok in Hc as (partitions & Hps & Hc).
  exists partitions. split; [done|]. destruct (negb (is_empty parsed) && is_empty partitions) eqn:Hwhole.
  - case_match; [done|]. injection Hc as <-. left. split; [|done]. b2p. by destruct partitions.
  - apply bind_Ok in Hc as (luks & _ & Hc). destruct luks.
    + apply bind_Ok in Hc as (key & _ & Hc). apply bind_Ok in Hc as (s & _ & Hc). apply bind_Ok in Hc as (found & _ & [= <-]). done.
    + apply bind_Ok in Hc as ([candidates locked] & Hfold & Hc). case_match; [done|]. destruct candidates as [|c' [|c'' candidates]]; try done.
      case_match; [done|]. injection Hc as ->. right. destruct (open_partitions_add _ _ _ Hfold) as (news & Hnews & Hadds). cbn [fst app] in Hnews.
      destruct (single_candidate _ _ _ Hadds (eq_sym Hnews)) as (before & p & after & -> & Hun & Hp). exists before, p, after. split; [done|]. split; [done|].
      destruct Hp as [[? _]|[(x & [= <-] & Hl)|(x & [= <-] & _ & ?)]]; [done|done|congruence].
Qed.
End choose.

(** What an opened member is, beyond the choice of its source. *)
Lemma open_labels_ok `{ZfsDiskLaws} `{CodecLaws} `{CryptoLaws} `{ZfsLabelsLaws} source parsed encrypted member :
  image_ok source -> open_labels source parsed encrypted = Ok member ->
  pm_source member = source /\ pm_container_encryption member = encrypted /\ member_ok member /\ pm_top_level_vdevs member = 1 /\
  Forall (fun label => label_agrees (pm_pool_guid member) label = true) parsed /\
  exists label, label ∈ parsed /\ Forall (fun other : Z * (Uberblock * NvConfig) => ub_txg other.2.1 <= pm_txg member) parsed /\
    ub_txg label.2.1 = pm_txg member.
Proof.
  intros Hi Ho. unfold open_labels in Ho. apply bind_Ok in Ho as ([offset [uberblock config]] & Hlast%expect_Ok & Ho).
  inv_ok. subst member. cbn [pm_source pm_container_encryption pm_top_level_vdevs pm_pool_guid pm_txg]. b2p.
  split; [done|]. split; [done|]. split.
  { split; [done|]. cbn [pm_mos]. eapply wp_value; [|eassumption]. apply wp_with_context, wp_PoolObjset_parse.
    repeat match goal with Hx : with_context _ _ _ = Ok _ |- _ => apply map_err_Ok in Hx end.
    match goal with Hx : read_block_from _ _ _ = Ok _ |- _ => eapply wp_value in Hx; [|apply wp_read_block_from; [done|split; apply rootbp_fields]] end.
    match goal with Hx : exact_block _ _ |- _ => apply Hx end. }
  split; [done|]. split; [by apply List.Forall_forall, forallb_forall|]. exists (offset, (uberblock, config)). cbn [fst snd].
  assert (forall x, x ∈ merge_sort txg_le parsed <-> x ∈ parsed) as Hperm by (intros x; by rewrite (merge_sort_Permutation txg_le)).
  apply last_Some in Hlast as [init Hinit]. split; [apply Hperm; rewrite Hinit; set_solver|]. split; [|done].
  assert (StronglySorted txg_le (merge_sort txg_le parsed)) as Hsorted.
  { apply StronglySorted_merge_sort; [intros x y z; unfold txg_le; lia|intros x y; unfold txg_le; lia]. }
  rewrite Hinit in Hsorted. apply List.Forall_forall. intros x Hx%list_elem_of_In. apply Hperm in Hx. rewrite Hinit in Hx.
  apply elem_of_app in Hx as [Hx|Hx]; [|apply list_elem_of_singleton in Hx as ->; cbn; lia].
  clear - Hsorted Hx. induction init as [|y init IH]; [by apply elem_of_nil in Hx|]. cbn in Hsorted. apply StronglySorted_inv in Hsorted as [Hsorted Hy].
  apply elem_of_cons in Hx as [->|Hx]; [|by apply IH]. rewrite List.Forall_forall in Hy. apply (Hy (offset, (uberblock, config))), list_elem_of_In. set_solver.
Qed.

(** ** Partitions are inside the source *)

Definition partition_in (length : Z) (p : GptPartition) : Prop := 0 <= gp_offset p /\ 0 <= gp_length p /\ gp_offset p + gp_length p <= length.

Lemma wp_little_u32 l o : bytes_ok l -> 0 <= o <= U32_MAX -> wp (little_u32 l o) is_u32.
Proof.
  intros Hb Ho. unfold little_u32. apply wp_bind, wp_add; [lia|]. wp_step. apply wp_ok_or. intros v Hv. apply wp_Ok.
  pose proof (get_range_len _ _ _ _ Hv). apply get_range_Some in Hv as (_ & _ & ->). apply le_val_u32; [auto with zse|lia].
Qed.

Lemma wp_little_u64 l o : bytes_ok l -> 0 <= o <= U32_MAX -> wp (little_u64 l o) is_u64.
Proof.
  intros Hb Ho. unfold little_u64. apply wp_bind, wp_add; [lia|]. wp_step. apply wp_ok_or. intros v Hv. apply wp_Ok.
  pose proof (get_range_len _ _ _ _ Hv). apply get_range_Some in Hv as (_ & _ & ->). apply le_val_u64; [auto with zse|lia].
Qed.

Lemma wp_pool_mbr_entry length sector ps i :
  fixed 512 sector -> 0 <= i < 4 -> Forall (partition_in length) ps -> wp (pool_mbr_entry length sector ps i) (Forall (partition_in length)).
Proof.
  intros [Hl Hb] Hi Hps. unfold pool_mbr_entry. apply wp_bind, wp_slice_fixed; [done|lia|lia|]. intros entry [Hel Heb].
  apply wp_bind, wp_index; [lia|]. intros type _. case_match; [by apply wp_Ok|].
  apply wp_bind, wp_slice_fixed; [done|lia|lia|]. intros first [Hfl Hfb]. apply wp_bind, wp_slice_fixed; [done|lia|lia|]. intros count [Hcl Hcb]. cbv zeta.
  pose proof (le_val_u32 first Hfb ltac:(lia)). pose proof (le_val_u32 count Hcb ltac:(lia)). case_match; [by apply wp_Ok|].
  do 6 wp_step. repeat match goal with Hx : checked_mul _ _ = Some _ |- _ => apply checked_mul_Some in Hx as [_ ->] | Hx : checked_add _ _ = Some _ |- _ => apply checked_add_Some in Hx as [_ ->] end.
  case_match; [|by apply wp_Ok]. b2p. apply wp_Ok, Forall_app. split; [done|]. constructor; [|done]. split_and!; cbn; u64.
Qed.

Lemma wp_pool_gpt_entry length sector_size ps i entry :
  bytes_ok entry -> 16 <= len entry -> 0 < sector_size -> Forall (partition_in length) ps ->
  wp (pool_gpt_entry length sector_size ps (i, entry)) (Forall (partition_in length)).
Proof.
  intros Hb Hl Hs Hps. unfold pool_gpt_entry. apply wp_bind, wp_slice; [lia|lia|]. intros type _ _. case_match; [by apply wp_Ok|].
  wp_step. eapply wp_mono; [|by apply wp_little_u64]. intros first Hfirst. wp_step. eapply wp_mono; [|by apply wp_little_u64]. intros last Hlast.
  case_match; [by apply wp_Ok|]. match goal with Hx : _ || _ = false |- _ => apply orb_false_iff in Hx as [? ?] end. b2p.
  wp_step. apply wp_ok_or. intros offset Ho. apply checked_mul_Some in Ho as [_ ->]. wp_step. apply wp_ok_or. intros sectors Hsec.
  unfold checked_sub in Hsec. rewrite (proj2 (Z.leb_le first last)) in Hsec by lia. apply checked_add_Some in Hsec as [_ ->].
  wp_step. apply wp_ok_or. intros n Hn. apply checked_mul_Some in Hn as [_ ->]. wp_step. apply wp_ok_or. intros e He. apply checked_add_Some in He as [_ ->].
  case_match; [|by apply wp_Ok]. b2p. apply wp_Ok, Forall_app. split; [done|]. constructor; [|done]. split_and!; cbn; unfold is_u64 in *; nia.
Qed.

Section tables.
Context `{Crc32}.
Variable source : ImageRead.
Hypothesis Hsource : image_ok source.
Abbreviation inside := (partition_in (image_len source)).

Lemma wp_mbr_partitions : wp (mbr_partitions source) (Forall inside).
Proof.
  unfold mbr_partitions. wp_step. apply wp_with_context, (wp_image_read _ _ _ _ Hsource); [u64|unfold ISIZE_MAX; lia|]. intros sector Hs.
  apply wp_bind, wp_slice_fixed; [apply Hs|lia|destruct Hs; lia|]. intros sig _. wp_step. apply wp_fold_res; [|done].
  intros ps i Hi%elem_of_seqZ Hps. by apply wp_pool_mbr_entry; [|lia|].
Qed.

Definition gpt_fields (o : option (Z * Z * Z * Z)) : Prop :=
  forall lba count size crc, o = Some (lba, count, size, crc) -> 0 <= lba /\ 0 < count /\ 128 <= size <= 4096.

Lemma wp_pool_gpt_header sector : bytes_ok sector -> 512 <= len sector -> wp (pool_gpt_header sector) gpt_fields.
Proof.
  intros Hb Hl. unfold pool_gpt_header. case_match; [by apply wp_Ok|]. wp_step. eapply wp_mono; [|by apply wp_little_u32]. intros size Hsize.
  destruct ((92 <=? size) && (size <=? len sector)) eqn:Hsz; cbn [negb]; [|by apply wp_Ok]. b2p.
  wp_step. eapply wp_mono; [|by apply wp_little_u32]. intros crc _. apply wp_bind, wp_slice; [lia|lia|]. intros header _ Hh.
  apply wp_bind, wp_fill; [lia|lia|]. intros _. case_match; [by apply wp_Ok|].
  wp_step. eapply wp_mono; [|by apply wp_little_u64]. intros lba Hlba. wp_step. eapply wp_mono; [|by apply wp_little_u32]. intros count Hcount.
  wp_step. eapply wp_mono; [|by apply wp_little_u32]. intros esize Hesize. wp_step. eapply wp_mono; [|by apply wp_little_u32]. intros ecrc _.
  destruct (_ || _) eqn:Hbad; [by apply wp_Ok|]. apply orb_false_iff in Hbad as [Hbad _]. apply orb_false_iff in Hbad as [Hz Hrange]. b2p.
  apply wp_Ok. intros ? ? ? ? [= <- <- <- <-]. u64.
Qed.

Lemma wp_pool_gpt_at sector_size :
  512 <= sector_size <= 4096 -> wp (pool_gpt_at source sector_size) (fun o => forall ps, o = Some ps -> Forall inside ps).
Proof.
  intros Hss. unfold pool_gpt_at. case_match; [by apply wp_Ok|]. eapply wp_catch; [|intros sector Hs|by intros; apply wp_Ok].
  { apply (wp_image_read _ _ _ (fixed sector_size) Hsource); [u64|unfold ISIZE_MAX; lia|done]. }
  destruct Hs as [Hl Hb]. wp_step. eapply wp_mono; [|apply wp_pool_gpt_header; [done|lia]]. intros [[[[lba count] size] crc]|] Hf; [|by apply wp_Ok].
  destruct (Hf _ _ _ _ eq_refl) as (Hlba & Hcount & Hsize). wp_step. apply wp_ok_or. intros table_size Hts.
  destruct (checked_mul count size) as [t|] eqn:Ht; [|done]. apply checked_mul_Some in Ht as [_ ->].
  destruct (Z.leb_spec (count * size) (64 * 1024 * 1024)) as [Hfit|]; [|done]. injection Hts as <-.
  wp_step. apply wp_ok_or. intros offset Ho. apply checked_mul_Some in Ho as [Ho1 ->].
  wp_step. apply wp_with_context, (wp_image_read _ _ _ _ Hsource); [unfold is_u64; nia|unfold ISIZE_MAX; nia|].
  intros table [_ Htb]. case_match; [by apply wp_Ok|]. wp_step. eapply wp_mono; [|apply (wp_fold_res _ (Forall inside)); [|done]].
  - intros ps Hps. apply wp_Ok. by intros ? [= <-].
  - intros ps [i entry] Hin Hps. apply enumerate_lookup in Hin. destruct (chunks_exact_Forall size table ltac:(lia) Htb) as [Hchunks _].
    destruct (get_Forall _ _ _ _ Hchunks Hin) as [Heb Hel]. apply wp_pool_gpt_entry; [done|lia|lia|done].
Qed.

Lemma wp_partitions_or_none : wp (partitions_or_none source) (Forall inside).
Proof.
  unfold partitions_or_none, gpt_partitions. eapply wp_catch with (Q := Forall inside); [|by intros; apply wp_Ok|].
  - cbn [pool_gpt_search]. wp_step. eapply wp_mono; [|apply wp_pool_gpt_at; lia]. intros [ps|] Hps; [by apply wp_Ok, Hps|].
    wp_step. eapply wp_mono; [|apply wp_pool_gpt_at; lia]. intros [ps'|] Hps'; [by apply wp_Ok, Hps'|done].
  - intros _. eapply wp_catch; [apply wp_mbr_partitions|by intros; apply wp_Ok|]. intros _. by apply wp_Ok.
Qed.
End tables.

(** ** The source a member is opened from *)

Section opened.
Context `{ZfsDiskLaws} `{CodecLaws} `{CryptoLaws} `{ZfsLabelsLaws} `{Crc32} {D : Type} `{Device D} `{DeviceInfo D} `{Luks D}.
Variables (d : D) (block : Z) (l : list Z).
Context `{!DeviceLaws d block l}.
Hypothesis Hmax : len l <= ISIZE_MAX.
Hypothesis Hblock : block = 1 \/ validate_block_size block = Ok block.

Lemma opened_source platform container_key member :
  source_length platform d = Ok (len l) -> source_block_size platform d = Ok block ->
  open_with_container_key platform d container_key = Ok member -> pm_container_encryption member = false ->
  exists fs ps s found, FileSource_open platform d = Ok fs /\ partitions_or_none (FileSource_image fs) = Ok ps /\
    read_labels (FileSource_image s) = Ok found /\ source_in d block l s /\ open_labels (FileSource_image s) found false = Ok member /\
    (ps = [] /\ fs_base_offset s = 0 /\ fs_len s = len l \/
     exists before p after, ps = before ++ p :: after /\ Forall (unlabelled fs) (before ++ after) /\
       fs_base_offset s = gp_offset p /\ fs_len s = gp_length p).
Proof.
  intros Hlen Hbs Hopen Hplain. unfold open_with_container_key in Hopen.
  apply bind_Ok in Hopen as (fs & Hfs & Hopen). apply bind_Ok in Hopen as (chosen & Hchosen & Hopen). case_match; [done|].
  destruct (FileSource_open_in d block l platform fs Hlen Hbs Hfs) as (Hin & Hbase & Hfl).
  assert (ca_encrypted chosen = false) as Henc.
  { unfold open_labels in Hopen. apply bind_Ok in Hopen as ([? [? ?]] & _ & Hopen). inv_ok. by subst member. }
  destruct (choose_source_plain fs container_key chosen Hchosen Henc) as (ps & Hps & Hcases).
  pose proof (wp_value _ _ _ (wp_partitions_or_none _ (source_image_ok d block l Hmax Hblock fs Hin)) Hps) as Hoffsets.
  destruct Hcases as [(-> & Heq & Hl)|(before & p & after & -> & Hun & s & Hslice & Heq & Hl & _)].
  - rewrite Heq in Hopen. exists fs, [], fs, (ca_labels chosen). split_and!; try done. by left.
  - apply Forall_app in Hoffsets as [_ [(Hp & _) _]%List.Forall_cons_iff].
    destruct (FileSource_slice_in d block l fs _ _ _ s Hin Hp Hslice) as (Hs & Hb & Hn & _).
    rewrite Heq in Hopen. exists fs, (before ++ p :: after), s, (ca_labels chosen). split_and!; try done. right.
    exists before, p, after. split_and!; try done. lia.
Qed.

Lemma opened_member_ok platform container_key member :
  source_length platform d = Ok (len l) -> source_block_size platform d = Ok block ->
  open_with_container_key platform d container_key = Ok member -> pm_container_encryption member = false -> member_ok member.
Proof.
  intros Hlen Hbs Hopen Hplain. destruct (opened_source _ _ _ Hlen Hbs Hopen Hplain) as (fs & ps & s & found & _ & _ & _ & Hs & Hm & _).
  by destruct (open_labels_ok _ _ _ _ (source_image_ok d block l Hmax Hblock s Hs) Hm) as (_ & _ & ? & _).
Qed.
End opened.
