(* ===== verification/PoolProps.v ===== *)
(** Properties of offline pool members: the copies of a block and what vouches for
    an encrypted one, the tree of blocks and the files on it, the datasets found,
    the source a pool is opened from, and the extraction of a directory tree;
    first a member for the witnesses, with block pointers, dnodes, labels and maps
    of a simple format. *)

From stdpp Require Import sorting.
From S2P Require Import Prelude Bytes Utf8 Stream StreamFacts Compression CompressionProps NvList Encrypted EncryptedDnode EncryptedFacts.
From S2P Require Import DnodeWalks Merkle EncryptedProps Replay Paths Extents Snapshots Selected ObjectIndex IndexFacts.
From S2P Require Import Resolve ResolveProps Sparse SparseFacts Operations OperationsProps Image DiskImage Partitions Volumes PartitionFacts.
From S2P Require Import ImageProps Sources SourceProps HostFs Tree TreeFacts HostExtract TreeProps PoolBlocks.
From S2P Require Import PoolSource PoolBlockFacts Pool PoolFile PoolOpen PoolTreeFacts PoolFacts.
#[local] Open Scope Z_scope.
#[local] Open Scope zse_scope.

(** ** The format

    A pointer's words: logical and physical size, the offsets of two copies, the
    property word, two checksum words and the code; a size of zero is a hole. *)

Definition toy_u64 (endian : Endian) (bytes : list Z) (offset : Z) : Z :=
  match get_range bytes offset (offset + 8) with
  | Some word => match endian with Little => le_val word | Big => be_val word end
  | None => 0
  end.

Definition toy_field (l : list Z) (i : Z) : Z := default 0 (get l i) mod TWO64.

Definition toy_blkptr (raw : list Z) (endian : Endian) : Blkptr :=
  let word i := toy_u64 endian raw (i * 8) in
  let prop := word 6 in
  let dva offset := {| dva_vdev := 0; dva_gang := false; dva_rest := [offset] |} in
  {| blk_dvas := [dva (word 2); dva (word 3)]; blk_embedded := Z.testbit prop 39; blk_embedded_payload := zrepeat 112 0;
     blk_compression := Z.land (Z.shiftr prop 32) 127; blk_checksum := Z.land (Z.shiftr prop 40) 255; blk_byteorder := endian;
     blk_checksum_words := [word 12; word 13; word 14; word 15]; blk_level := Z.land (Z.shiftr prop 56) 31;
     blk_object_type := Z.land (Z.shiftr prop 48) 255; blk_rest := [word 0; word 1] |}.

Definition toy_sum (raw : list Z) : list Z := [foldr Z.add 0 raw mod TWO64; len raw; 0; 0].

Definition toy_byte (raw : list Z) (i : Z) : Z := default 0 (get raw i) mod 256.

Definition toy_parse_dnode (raw : list Z) (endian : Endian) : option Dnode :=
  if (len raw <? 512) || (8 <? toy_byte raw 2) then None
  else
    let pointers := toy_byte raw 3 in
    let bonus_len := toy_byte raw 10 + 256 * toy_byte raw 11 in
    Some {| dn_type := toy_byte raw 0; dn_nlevels := toy_byte raw 2; dn_bonustype := toy_byte raw 4;
            dn_maxblkid := toy_u64 endian raw 16 mod TWO64; dn_bonus := ztake bonus_len (zdrop (64 + 128 * pointers) raw);
            dn_endian := endian; dn_blkptrs := zrepeat pointers (toy_blkptr [] endian);
            dn_rest := [toy_byte raw 8 + 256 * toy_byte raw 9] |}.

#[export] Instance toy_disk : ZfsDisk := {
  BLKPTR_SIZE := 128; DNODE_SIZE := 512; MAX_BLOCK_SIZE := 1048576; MAX_INDIRECT_LEVELS := 8;
  DMU_OST_META := 1; DMU_OST_ZFS := 2;
  reader_u64 := toy_u64;
  reader_u16 endian bytes offset := toy_u64 endian bytes offset mod 65536;
  dva_is_empty dva := toy_field (dva_rest dva) 0 =? 0;
  physical_byte_offset dva := toy_field (dva_rest dva) 0;
  Blkptr_parse := toy_blkptr;
  lsize_bytes pointer := toy_field (blk_rest pointer) 0;
  psize_bytes pointer := toy_field (blk_rest pointer) 1;
  blk_is_hole pointer := toy_field (blk_rest pointer) 0 =? 0;
  embedded_data := blk_embedded_payload;
  ChecksumType_from_raw c := if c =? 2 then PoolBlocks.Off else if c =? 7 then Fletcher4 else OtherChecksum c;
  checksum_verify c _ raw words := match c with Fletcher4 => Some (bytes_eqb (toy_sum raw) words) | _ => None end;
  checksum_fletcher2 raw _ := toy_sum raw;
  checksum_fletcher4 raw _ := toy_sum raw;
  checksum_sha256 := toy_sum;
  Dnode_parse := toy_parse_dnode;
  data_block_size dnode := toy_field (dn_rest dnode) 0 mod 65536;
  indirect_block_size _ := 256;
  ObjsetPhys_parse raw endian := Ok {| os_type := toy_u64 endian raw 704; os_endian := endian; os_rest := [] |};
}.

Lemma toy_field_u64 l i : is_u64 (toy_field l i).
Proof. unfold toy_field. pose proof (Z.mod_pos_bound (default 0 (get l i)) TWO64). u64. Qed.

Lemma toy_byte_u8 l i : is_u8 (toy_byte l i).
Proof. unfold toy_byte. pose proof (Z.mod_pos_bound (default 0 (get l i)) 256). u64. Qed.

#[export] Instance toy_disk_laws : ZfsDiskLaws.
Proof.
  split; cbn -[toy_u64 toy_field toy_parse_dnode toy_sum].
  - done.
  - done.
  - unfold ISIZE_MAX. lia.
  - intros endian bytes offset word Hw. unfold toy_u64. by rewrite Hw.
  - intros endian bytes offset Hb. unfold toy_u64. destruct (get_range _ _ _) as [word|] eqn:Hw; [|u64].
    pose proof (get_range_len _ _ _ _ Hw). apply get_range_Some in Hw as (_ & _ & ->).
    destruct endian.
    + apply le_val_u64; [auto with zse|rewrite H; lia].
    + apply le_val_u64; [apply List.Forall_rev; auto with zse|rewrite len_rev, H; lia].
  - intros. apply toy_field_u64.
  - intros. apply toy_field_u64.
  - intros. apply toy_field_u64.
  - done.
  - done.
  - intros. auto with zse.
  - done.
  - done.
  - done.
  - done.
  - intros raw endian. apply Z.land_nonneg. right. lia.
  - intros raw endian dnode. unfold toy_parse_dnode. case_match; [done|]. intros [= <-]. cbn -[toy_u64 toy_byte]. split; [apply toy_byte_u8|]. split.
    + pose proof (Z.mod_pos_bound (toy_u64 endian raw 16) TWO64). u64.
    + intros Hb. auto with zse.
  - intros dnode. pose proof (Z.mod_pos_bound (toy_field (dn_rest dnode) 0) 65536). unfold ISIZE_MAX. lia.
  - intros _. u64.
  - done.
Qed.

(** This disk format has no overlong trees, so no object set has one. *)
Lemma toy_shifts raw endian d : PoolDnode_parse raw endian = Ok d -> shifts_fit (pd_dnode d).
Proof.
  unfold PoolDnode_parse. intros Hd. inv_ok. subst. cbn [pd_dnode]. match goal with Hp : Dnode_parse _ _ = Some _ |- _ => revert Hp end.
  cbn [Dnode_parse toy_disk]. unfold toy_parse_dnode. destruct (_ || _) eqn:Hb; [done|].
  intros [= <-]. apply orb_false_iff in Hb as [_ Hb]. b2p. unfold shifts_fit. cbn -[toy_byte]. change (Z.log2 (256 `div` 128 `max` 1)) with 1. lia.
Qed.

Lemma toy_objset_fits `{Codecs} `{Crypto} source raw endian objset key : PoolObjset_parse raw endian = Ok objset -> objset_fits source objset key.
Proof.
  unfold PoolObjset_parse. intros (o & _ & (meta & Hmeta & [= <-])%bind_Ok)%bind_Ok. split; [by eapply toy_shifts|].
  intros object d Hd. unfold dnode_with_key in Hd. cbv zeta in Hd. case_match; [done|]. case_match; [done|].
  apply bind_Ok in Hd as (block & _ & (raw' & _ & (d' & Hd'%map_err_Ok & Hd)%bind_Ok)%bind_Ok). case_match; [done|]. injection Hd as ->. by eapply toy_shifts.
Qed.

Lemma toy_pool_fits `{Codecs} `{Crypto} `{PoolCore} self raw endian : PoolObjset_parse raw endian = Ok (pm_mos self) -> pool_fits self.
Proof.
  intros Hmos. split; [by eapply toy_objset_fits|]. intros object d raw' key zpl _ Hz. unfold dataset_objset in Hz. inv_ok. subst.
  match goal with Hp : with_context _ _ (PoolObjset_parse _ _) = Ok _ |- _ => apply map_err_Ok in Hp end. by eapply toy_objset_fits.
Qed.

#[export] Instance toy_pool_core : PoolCore := {
  zap_list_arrays _ := [];
  sa_registry_default := tt;
  sa_layouts_default := tt;
  sa_bonus_of bonus _ _ _ := if len bonus =? 24 then Some (toy_attrs (toy_u64 Little bonus 16 mod TWO64)) else None;
  znode_phys_of _ _ := None;
}.

#[export] Instance toy_pool_core_laws : PoolCoreLaws.
Proof.
  split; cbn -[toy_u64]; [|done]. intros bonus _ _ _ a. case_match; [|done]. intros [= <-]. cbn [zp_size toy_attrs].
  pose proof (Z.mod_pos_bound (toy_u64 Little bonus 16) TWO64). u64.
Qed.

(** A label: a mark, the transaction group, the pool's GUID and the root pointer. *)
#[export] Instance toy_labels : ZfsLabels := {
  LABEL_SIZE := 192;
  NvConfig := option Z;
  get_str c name :=
    match c with
    | Some _ => if String.eqb name "name" then Some (bytes_of_string "tank") else None
    | None => if String.eqb name "type" then Some (bytes_of_string "disk") else None
    end;
  get_u64 c name :=
    match c with
    | Some guid => if String.eqb name "pool_guid" then Some guid else if String.eqb name "vdev_children" then Some 1 else None
    | None => None
    end;
  get_nvlist c name := if String.eqb name "vdev_tree" then Some None else None;
  VdevLabel_parse bytes :=
    if bool_decide (get bytes 0 = Some 76)
    then Ok ({| ub_txg := toy_u64 Little bytes 1; ub_endian := Little; ub_rest := ztake 128 (zdrop 17 bytes) |}, Some (toy_u64 Little bytes 9))
    else Err (Foreign "no label");
  label_offsets n := ([0; 192], Some (map (fun x => x mod TWO64) [n - 384; n - 192]));
  rootbp_full uberblock := toy_blkptr (ub_rest uberblock) Little;
}.

#[export] Instance toy_labels_laws : ZfsLabelsLaws.
Proof.
  split; cbn -[toy_u64].
  - intros u. split; [auto with zse|]. split; [done|]. apply Z.land_nonneg. right. lia.
  - lia.
  - intros bytes. by case_match.
  - intros n _. split; repeat constructor; try lia.
    all: match goal with |- context [?a mod ?b] => pose proof (Z.mod_pos_bound a b) end; lia.
Qed.

(** ** Building blocks of it *)

Definition toy_prop : Z := Z.shiftl 2 32 + Z.shiftl 7 40.

(** A pointer to two places of a block. *)
Definition toy_pointer (first second : Z) (block : list Z) : list Z :=
  le_bytes 8 (len block) ++ le_bytes 8 (len block) ++ le_bytes 8 first ++ le_bytes 8 second ++ zrepeat 16 0 ++ le_bytes 8 toy_prop ++
  zrepeat 40 0 ++ concat (map (le_bytes 8) (toy_sum block)).

Definition toy_dnode (type levels bonus_type block_size max_block : Z) (pointers : list (list Z)) (bonus : list Z) : list Z :=
  resize ([type; 0; levels; len pointers; bonus_type; 0; 0; 0] ++ le_bytes 2 block_size ++ le_bytes 2 (len bonus) ++ zrepeat 4 0 ++
    le_bytes 8 max_block ++ zrepeat 40 0 ++ concat pointers ++ bonus) 512 0.

Definition toy_objset (type : Z) (meta : list Z) : list Z := resize meta 704 0 ++ le_bytes 8 type.

(** ** The member

    A file of 700 bytes, with a leaf of 300 bytes and a hole; the root directory;
    the dataset's object set; the pool's; labels in front and at the end. *)

Definition b_leaf : list Z := counting 300.
Definition b_indirect : list Z := toy_pointer 384 0 b_leaf ++ zrepeat 128 0.
Definition b_root : list Z := toy_entry "f" (Z.shiftl 8 60 + 3).
Definition b_master : list Z := toy_entry "ROOT" 2.
Definition b_objects : list Z :=
  zrepeat 512 0 ++ toy_dnode 21 1 0 13 0 [toy_pointer 950 0 b_master] [] ++ toy_dnode 20 1 44 10 0 [toy_pointer 940 0 b_root] (toy_bonus 0) ++
  toy_dnode 19 2 44 512 1 [toy_pointer 684 0 b_indirect] (toy_bonus 700).
Definition b_objset : list Z := toy_objset 2 (toy_dnode 10 1 0 2048 0 [toy_pointer 963 0 b_objects] []).
Definition b_directory : list Z := toy_entry "root_dataset" 2.
Definition b_mos_objects : list Z :=
  zrepeat 512 0 ++ toy_dnode 1 1 0 21 0 [toy_pointer 3723 0 b_directory] [] ++
  toy_dnode 12 1 0 512 0 [] (zrepeat 8 0 ++ le_bytes 8 3 ++ zrepeat 24 0) ++
  toy_dnode 16 1 0 512 0 [] (zrepeat 112 0 ++ le_bytes 8 77 ++ zrepeat 8 0 ++ toy_pointer 3011 0 b_objset).
Definition b_mos : list Z := toy_objset 1 (toy_dnode 10 1 0 2048 0 [toy_pointer 3744 0 b_mos_objects] []).
Definition toy_label (txg : Z) : list Z := resize (76 :: le_bytes 8 txg ++ le_bytes 8 99 ++ toy_pointer 5792 0 b_mos) 192 0.

Definition toy_member_bytes : list Z :=
  resize (toy_label 5 ++ toy_label 6 ++ b_leaf ++ b_indirect ++ b_root ++ b_master ++ b_objects ++ b_objset ++ b_directory ++ b_mos_objects ++ b_mos)
    6784 0 ++ toy_label 6 ++ toy_label 4.

Definition toy_source (l : list Z) : ImageRead :=
  {| image_len := len l; image_read offset n := ok_or (get_range l offset (offset + n)) (Foreign "out of range") |}.

Lemma toy_source_ok l : bytes_ok l -> len l <= U64_MAX -> image_ok (toy_source l).
Proof.
  intros Hb Hl. pose proof (len_nonneg l). split; [cbn; u64|]. intros offset n _ _. cbn [image_read toy_source]. apply wp_ok_or. intros s Hs.
  pose proof (get_range_len _ _ _ _ Hs). apply get_range_Some in Hs as (_ & _ & ->). split; [lia|auto with zse].
Qed.

Definition toy_mos : PoolObjset :=
  match PoolObjset_parse b_mos Little with
  | Ok objset => objset
  | _ => {| po_objset := {| os_type := 0; os_endian := Little; os_rest := [] |};
            meta_dnode := {| pd_dnode := {| dn_type := 0; dn_nlevels := 0; dn_bonustype := 0; dn_maxblkid := 0; dn_bonus := []; dn_endian := Little;
              dn_blkptrs := []; dn_rest := [] |}; pd_pointers := [] |} |}
  end.

Definition toy_member : PoolMember := {|
  pm_source := toy_source toy_member_bytes; pm_backup_format := bytes_of_string "generic_zfs"; pm_container_encryption := false;
  pm_pool_name := bytes_of_string "tank"; pm_pool_guid := 99; pm_vdev_guid := 0; pm_vdev_type := bytes_of_string "disk";
  pm_top_level_vdevs := 1; pm_txg := 6; pm_endian := Little; pm_mos := toy_mos |}.

Lemma toy_member_ok : member_ok toy_member.
Proof.
  split; cbn [pm_source pm_mos toy_member].
  - apply toy_source_ok; [apply bytes_ok_dec; vm_compute; reflexivity|vm_compute; discriminate].
  - assert (is_ok (PoolObjset_parse b_mos Little) = true) as Hok by (vm_compute; reflexivity). unfold toy_mos.
    pose proof (wp_PoolObjset_parse b_mos Little ltac:(apply bytes_ok_dec; vm_compute; reflexivity)) as Hfits. by destruct (PoolObjset_parse b_mos Little).
Qed.

Lemma toy_member_fits : pool_fits toy_member.
Proof.
  apply (toy_pool_fits _ b_mos Little). cbn [pm_mos toy_member]. assert (is_ok (PoolObjset_parse b_mos Little) = true) as Hok by (vm_compute; reflexivity).
  unfold toy_mos. by destruct (PoolObjset_parse b_mos Little).
Qed.

Example toy_datasets :
  match datasets toy_member 5 with Ok all => map di_name all | _ => [] end = [bytes_of_string "tank"].
Proof. vm_compute. reflexivity. Qed.

Example toy_listing :
  match pool_list_directory toy_member 5 (bytes_of_string "tank") (bytes_of_string "/") with
  | Ok entries => map (fun e => (de_name e, de_logical_size e)) entries
  | _ => []
  end = [(bytes_of_string "f", Some 700)].
Proof. vm_compute. reflexivity. Qed.

(** C9: A damaged copy of a block does not lose it. What a block pointer with stored
    copies reads as is the data of its first copy that can be read, that has the
    pointer's checksum and that expands to the declared size; it is read whenever
    there is such a copy among the pointer's, and every block read has exactly the
    declared size. *)
Theorem pool_block_recovered `{ZfsDiskLaws} `{CodecLaws} source vdev pointer :
  image_ok source -> pointer_ok pointer -> in_copies pointer ->
  (forall data, read_block_from source vdev pointer = Ok data <->
     exists before dva after, blk_dvas pointer = before ++ dva :: after /\
       Forall (fun d => forall other, ~ good_copy source vdev pointer d other) before /\ good_copy source vdev pointer dva data) /\
  ((exists dva data, dva ∈ blk_dvas pointer /\ good_copy source vdev pointer dva data) ->
   exists data, read_block_from source vdev pointer = Ok data) /\
  wp (read_block_from source vdev pointer) (exact_block (lsize_bytes pointer)).
Proof.
  intros Hi Hp Hin. destruct (read_block_first source vdev pointer Hi Hin) as [Hfirst Hex].
  split; [done|]. split; [done|]. by apply wp_read_block_from.
Qed.

(** C12: A block of an encrypted dataset is returned only after the check of its kind.
    Under a pointer with the encryption flag it is read only with a key, from a copy
    of the pointer, and what is returned expands from bytes checked by the AEAD tag
    of an encrypted body, by the HMAC in the pointer for a plain level-0 block, or,
    for an indirect block, by the digest of its portable pointers. Two kinds are
    checked otherwise. A block of dnodes is encrypted in its bonus regions alone:
    the tag is over these, with the portable fields of the dnodes; the other bytes
    are returned as they were read, and a block without such regions is returned
    without a check. An object set is returned unchecked by the read of its block;
    [dataset_objset] accepts it only after its own code ([verify_objset_mac]). *)
Theorem encrypted_block_vouched `{ZfsDiskLaws} `{CodecLaws} `{CryptoLaws} `{PoolCore} :
  (forall source vdev pointer key data,
    pool_pointer_ok pointer -> uses_crypt pointer = true -> read_pool_block_from source vdev pointer key = Ok data ->
    exists k dva raw plain, key = Some k /\ dva ∈ blk_dvas (pb_pointer pointer) /\
      image_read source (physical_byte_offset dva) (psize_bytes (pb_pointer pointer)) = Ok raw /\
      vouched k pointer raw data plain /\
      decompress_block (blk_compression (pb_pointer pointer)) plain (lsize_bytes (pb_pointer pointer)) = Ok data) /\
  (forall key salt iv mac block plain,
    bytes_ok block -> len block <= ISIZE_MAX -> decrypt_pool_dnode_block key salt iv mac block = Ok plain ->
    pool_decrypted key salt iv mac block plain) /\
  (forall self raw endian k zpl, dataset_objset self raw endian (Some k) = Ok zpl ->
    exists pointer block, PoolBlockPointer_parse raw endian = Ok pointer /\
      read_pool_block_from (pm_source self) 0 pointer (Some k) = Ok block /\
      verify_objset_mac block endian k = Ok tt /\ PoolObjset_parse block endian = Ok zpl).
Proof.
  split; [intros source vdev pointer key data; by apply read_pool_block_vouched|]. split.
  - intros key salt iv mac block plain Hb Hl Hd. by apply (wp_value _ _ _ (wp_decrypt_pool_dnode_block key salt iv mac block Hb Hl)).
  - intros self raw endian k zpl Hz. unfold dataset_objset in Hz.
    apply bind_Ok in Hz as (pointer & Hp & (block & Hblock%map_err_Ok & ([] & Hmac%map_err_Ok & (o & Ho%map_err_Ok & Hz)%bind_Ok)%bind_Ok)%bind_Ok).
    case_match; [done|]. injection Hz as <-. by exists pointer, block.
Qed.

(** C10: A file of a pool is its leaves. Where the pointers of its dnode stand for a
    list of leaf blocks through any number of indirect levels and each block of
    the file is read from its leaf, a hole being a record of zeros, the file that
    extraction writes, and what it digests, are the blocks one after the other,
    each cut or extended with zeros to the record size, cut at the file's size;
    and reading any range of the file in place gives that range of it. *)
Theorem pool_file_exact `{ZfsDiskLaws} `{CodecLaws} `{CryptoLaws} `{PoolCore} `{OsLaws}
    (self : PoolMember) (resolved : ResolvedPoolPath) key shift leaves datas :
  let dnode := rpp_dnode resolved in
  let block_size := data_block_size (pd_dnode dnode) in
  let size := rpp_logical_size resolved in
  geometry (pd_dnode dnode) shift -> dnode_leaves (pm_source self) key shift dnode leaves ->
  is_u64 size -> 0 < block_size ->
  len datas = div_ceil size block_size -> len datas - 1 <= dn_maxblkid (pd_dnode dnode) ->
  (forall b data, get datas b = Some data ->
     exists leaf, get leaves b = Some leaf /\ leaf_data (pm_source self) key dnode leaf = Ok data /\ bytes_ok data) ->
  wp (extract_content self resolved key) (fun '(output, digest) =>
    contents output = file_bytes block_size size datas /\ digest = file_bytes block_size size datas) /\
  forall offset n, 0 <= offset -> 0 <= n -> offset + n <= size ->
    PoolImageFile_read_exact_at {| pf_member := self; pf_resolved := resolved; pf_key := key |} offset n =
      Ok (ztake n (zdrop offset (file_bytes block_size size datas))).
Proof.
  intros dnode block_size size Hgeo Hleaves Hsize Hbs Hlen Hmax Hdatas. subst dnode.
  pose proof (div_ceil_bounds size block_size Hbs) as Hceil. rewrite <- Hlen in Hceil.
  assert (blocks_read (pm_source self) key (rpp_dnode resolved) datas) as Hread.
  { intros b data Hb. destruct (Hdatas b data Hb) as (leaf & Hleaf & Hdata & Hok). split; [done|].
    pose proof (get_lt _ _ _ Hb). rewrite (proj2 (Z.ltb_ge _ _)) by lia. rewrite <- Hdata.
    eapply read_dnode_leaf; [done|done| |lia|done]. unfold is_u64 in *. nia. }
  destruct (wp_extract_datas self resolved key datas Hbs Hsize Hread Hlen Hmax) as [Hfl Hextract]. split; [exact Hextract|].
  intros offset n Ho Hn Hin. unfold PoolImageFile_read_exact_at, checked_add. cbn [pf_resolved pf_member pf_key]. fold size. fold block_size.
    rewrite (proj2 (Z.leb_le (offset + n) _)) by u64. cbn [ok_or bind]. rewrite (proj2 (Z.ltb_ge _ _)), (proj2 (Z.eqb_neq _ _)) by lia.
    rewrite (image_loop_reads _ block_size datas) by (done || u64 || nia). rewrite Z.sub_0_r. unfold file_bytes.
    rewrite (ztake_zdrop_comm n offset (ztake size _)), ztake_ztake, Z.min_l by lia. by rewrite <- ztake_zdrop_comm by lia.
Qed.

(** C28: The search for a pool's datasets ends and misses none. Where no dnode of the
    pool's own object set is damaged so that a block number would be shifted by its
    width or more (there the code panics), with enough fuel its result no longer
    changes and is a value or an error. On any pool, a list it returns is sorted by
    name, names each directory at most once, holds only datasets of directories that
    are reached from the root by the child maps, and holds one for every such
    directory that has a head. *)
Theorem datasets_complete `{ZfsDiskLaws} `{CodecLaws} `{CryptoLaws} `{PoolCore} (self : PoolMember) :
  member_ok self ->
  (mos_fits self -> exists enough r, safe r /\ forall fuel, (enough <= fuel)%nat -> datasets self fuel = r) /\
  forall fuel all, datasets self fuel = Ok all ->
    exists root, root_dataset self = Ok root /\ NoDup (di_dsl_dir_object <$> all) /\ Sorted (by_name di_name) all /\
      (forall d, d ∈ all -> reaches self root (di_dsl_dir_object d) (di_name d)) /\
      forall object name found children, reaches self root object name ->
        visit_directory self object name = Ok (found, children) -> found <> [] ->
        exists d, d ∈ all /\ di_dsl_dir_object d = object.
Proof. intros Hself. split; [by apply datasets_settle|]. intros fuel all. by apply datasets_found. Qed.

(** C29: A pool is opened from the one source that holds it. When opening a member
    succeeds without a container, its source is a range of the file, and reads
    from it are the bytes of that range; it is the whole file only where the file
    has no partitions, otherwise it is the one partition with a readable label;
    every label agrees on the pool, the pool has one top-level vdev, and the
    state is that of the label with the highest transaction group. *)
Theorem pool_opened `{ZfsDiskLaws} `{CodecLaws} `{CryptoLaws} `{ZfsLabelsLaws} `{Crc32} {D : Type} `{Device D}
    `{DeviceInfo D} `{Luks D} (d : D) block l `{!DeviceLaws d block l} platform container_key member :
  len l <= ISIZE_MAX -> source_length platform d = Ok (len l) -> source_block_size platform d = Ok block ->
  open_with_container_key platform d container_key = Ok member -> pm_container_encryption member = false ->
  exists fs ps base n found,
    FileSource_open platform d = Ok fs /\ partitions_or_none (FileSource_image fs) = Ok ps /\
    (ps = [] /\ base = 0 /\ n = len l \/
     exists before p after, ps = before ++ p :: after /\ Forall (unlabelled fs) (before ++ after) /\ base = gp_offset p /\ n = gp_length p) /\
    0 <= base /\ base + n <= len l /\ image_len (pm_source member) = n /\
    (forall offset k, 0 <= offset -> 0 <= k -> offset + k <= n -> image_read (pm_source member) offset k = Ok (ztake k (zdrop (base + offset) l))) /\
    read_labels (pm_source member) = Ok found /\ Forall (fun label => label_agrees (pm_pool_guid member) label = true) found /\
    (exists label, label ∈ found /\ Forall (fun other : Z * (Uberblock * NvConfig) => ub_txg other.2.1 <= pm_txg member) found /\
       ub_txg label.2.1 = pm_txg member) /\
    pm_top_level_vdevs member = 1 /\ member_ok member.
Proof.
  intros Hmax Hlen Hbs Hopen Hplain. pose proof (source_block_size_valid _ _ _ Hbs) as Hblock.
  destruct (opened_source d block l Hmax Hblock platform container_key member Hlen Hbs Hopen Hplain)
    as (fs & ps & s & found & Hfs & Hps & Hlabels & Hs & Hmember & Hwhere).
  pose proof (source_image_ok d block l Hmax Hblock s Hs) as Hi.
  destruct (open_labels_ok _ _ _ _ Hi Hmember) as (Hsrc & _ & Hok & Hone & Hagree & Hlabel).
  exists fs, ps, (fs_base_offset s), (fs_len s), found. rewrite Hsrc. destruct Hs as [Hf Hb H1' H2' H3'].
  split_and!; try done. intros offset k Ho Hk Hfit. cbn [image_read FileSource_image]. by apply (source_in_read d block l).
Qed.

(** ** A directory tree of a pool *)

Section tree.
Context `{ZfsDiskLaws} `{CodecLaws} `{CryptoLaws} `{PoolCoreLaws} `{OsLaws} `{Faults} `{TempNamesLaws}.
Variable self : PoolMember.
Hypothesis Hself : member_ok self.
Hypothesis Hfits : pool_fits self.

(** The bytes of a source file: what extraction writes for it. *)
Definition pool_content (fuel : nat) (selector : list Z) (key_material : option (list Z)) (source : list Z) : option (list Z) :=
  match regular_file self fuel selector source key_material with
  | Ok (view, resolved) =>
      match extract_content self resolved (dv_key view) with Ok (output, _) => Some (contents output) | _ => None end
  | _ => None
  end.

Lemma pool_fuel selector key_material : exists enough, forall fuel, (enough <= fuel)%nat ->
  forall p, safe (list_directory_with_key self fuel selector p key_material) /\ safe (regular_file self fuel selector p key_material).
Proof.
  destruct (dataset_view_settles self Hself Hfits selector key_material) as (enough & r & Hr & Hview). exists enough. intros fuel Hf p.
  unfold list_directory_with_key, regular_file. rewrite Hview by done. split; (apply safe_bind; [done|]); intros view ->;
    pose proof (dataset_view_ok self Hself Hfits enough selector key_material view ltac:(by apply Hview)) as Hv; unfold safe;
    (wp_step; eapply wp_mono; [|by apply wp_pool_resolve_path]); intros resolved [Hd _]; [|by wp_steps].
  wp_step. wp_step. eapply wp_mono; [|by apply wp_zpl_zap]. intros data _. wp_step.
  eapply wp_mono; [|apply (wp_map_res _ (fun _ => True))]; [done|]. intros entry _. by apply safe_pool_directory_entry.
Qed.

Lemma pool_tree_file_ok fuel selector key_material :
  (forall source, safe (regular_file self fuel selector source key_material)) ->
  extract_ok (extract_tree_file_with_key self fuel selector key_material) (pool_content fuel selector key_material).
Proof.
  intros Hfuel source x d h Hst Hd. assert (changed_below d (h_store h) (h_store h)) as Hsame by done.
  unfold extract_tree_file_with_key, pool_content. apply fs_wp_bind, fs_wp_ret.
  destruct (safe_cases _ (Hfuel source)) as [[[view resolved] Hfile]|[e Hfile]]; rewrite Hfile; [|done]. cbn [wpe].
  destruct (regular_file_ok self Hself Hfits _ _ _ _ _ _ Hfile) as [Hres _].
  pose proof (wp_safe _ _ (wp_extract_content self Hself resolved (dv_key view) Hres)) as Hsafe.
  eapply fs_wp_mono; [| |apply (write_replaced_spec _ x d h); [|done..]].
  - intros n h1 (Hfree & bytes & Hw & Hst1). split; [done|]. exists bytes. split; [|done].
    apply bind_Ok in Hw as ([file digest] & -> & [= <- _]). done.
  - done.
  - apply safe_bind; [done|]. by intros [file digest] _.
Qed.

(** The bytes of a source file as its blocks have them: the data of the leaves that
    the dnode's tree has for the block numbers, each cut or extended with zeros to
    the record size, cut at the file's size. *)
Definition made_of_blocks (fuel : nat) (selector : list Z) (key_material : option (list Z)) (source bytes : list Z) : Prop :=
  exists view resolved datas,
    let dnode := rpp_dnode resolved in
    let block_size := data_block_size (pd_dnode dnode) in
    regular_file self fuel selector source key_material = Ok (view, resolved) /\
    len datas = div_ceil (rpp_logical_size resolved) block_size /\
    bytes = file_bytes block_size (rpp_logical_size resolved) datas /\
    forall b data, get datas b = Some data -> block_data (pm_source self) (dv_key view) dnode b data.

Lemma pool_content_blocks fuel selector key_material source bytes :
  pool_content fuel selector key_material source = Some bytes -> made_of_blocks fuel selector key_material source bytes.
Proof.
  unfold pool_content. destruct (regular_file self fuel selector source key_material) as [[view resolved]|e| |] eqn:Hfile; [|done..].
  destruct (extract_content self resolved (dv_key view)) as [[output digest]|e| |] eqn:Hextract; [|done..]. intros [= <-].
  destruct (regular_file_ok self Hself Hfits _ _ _ _ _ _ Hfile) as [[[Hdnode _] Hsize] _].
  destruct (extract_content_blocks self Hself resolved (dv_key view) output digest Hdnode Hsize Hextract) as (datas & Hlen & Hbytes & Hdatas).
  by exists view, resolved, datas.
Qed.
End tree.

(** C11: A directory tree of a pool is extracted exactly. On a pool none of whose
    dnodes is damaged so that a block number would be shifted by its width or more
    (there the code panics): from some fuel on, extracting a directory of a dataset
    or a snapshot returns; when it reports success, the destination holds exactly
    the directories and regular files that listing the pool shows below that path,
    and the bytes of each file are the data of the leaf blocks that its dnode's tree
    of indirect blocks has for its block numbers, each cut or extended with zeros to
    the record size, cut at the file's size; away from the destination and the
    staging directory nothing has changed. *)
Theorem pool_tree_recovered `{ZfsDiskLaws} `{CodecLaws} `{CryptoLaws} `{PoolCoreLaws} `{OsLaws} {HF : Faults} `{TempNamesLaws}
    (self : PoolMember) selector key_material :
  member_ok self -> pool_fits self ->
  exists enough, forall fuel, (enough <= fuel)%nat ->
  forall windows path_ parent dn force h,
    store_wf (h_store h) -> (forall rest, dn <> bytes_of_string ".zfse-tree-" ++ rest) ->
    let '(r, h') := extract_tree_with_key self windows fuel selector path_ parent dn force key_material h in
    safe r /\
    (is_ok r = true ->
      (exists tn, h_store h !! (tn :: parent) = None /\ settled parent tn dn (h_store h) (h_store h')) /\
      (forall r n, h_store h' !! (r ++ dn :: parent) = Some n <->
        shows (fun directory => list_directory_with_key self fuel selector directory key_material)
          (pool_content self fuel selector key_material) path_ r n) /\
      forall source bytes, pool_content self fuel selector key_material source = Some bytes ->
        made_of_blocks self fuel selector key_material source bytes).
Proof.
  intros Hself Hfits. destruct (pool_fuel self Hself Hfits selector key_material) as (enough & Hfuel). exists enough.
  intros fuel Hf windows path_ parent dn force h Hwf Hdn.
  pose proof (extraction_spec windows _ _ _ (fun source => proj1 (Hfuel fuel Hf source))
    (pool_tree_file_ok self Hself Hfits fuel selector key_material (fun source => proj2 (Hfuel fuel Hf source))) parent dn path_ force h Hwf Hdn) as Hspec.
  unfold fs_wp in Hspec. unfold extract_tree_with_key.
  destruct (extract_directory_tree windows _ _ path_ parent dn force h) as [[result|e| |] h']; [|by split|done..].
  destruct Hspec as (tn & Hfresh & Hsettled & Hrec & _). split; [done|]. intros _. split; [by exists tn|]. split; [exact Hrec|].
  intros source bytes. by apply pool_content_blocks.
Qed.

(** ** Concrete instances

    Two copies, of which the first is damaged. *)
Definition damaged : ImageRead := toy_source [0; 9; 9; 9; 9; 1; 2; 3; 4].
Definition two_copies : Blkptr := toy_blkptr (toy_pointer 1 5 [1; 2; 3; 4]) Little.

Lemma pool_block_recovered_witness :
  map (fun d => read_copy damaged 0 two_copies Fletcher4 d) (blk_dvas two_copies) = [Ok None; Ok (Some [1; 2; 3; 4])] /\
  exists before dva after, blk_dvas two_copies = before ++ dva :: after /\
    Forall (fun d => forall other, ~ good_copy damaged 0 two_copies d other) before /\ good_copy damaged 0 two_copies dva [1; 2; 3; 4].
Proof.
  split; [vm_compute; reflexivity|].
  assert (image_ok damaged) as Hi by (apply toy_source_ok; [apply bytes_ok_dec; vm_compute; reflexivity|vm_compute; discriminate]).
  assert (pointer_ok two_copies) as Hp.
  { split; [apply bytes_ok_dec; vm_compute; reflexivity|]. split; [vm_compute; reflexivity|vm_compute; discriminate]. }
  assert (in_copies two_copies) as Hin.
  { split; [|split; [vm_compute; reflexivity|split; vm_compute; reflexivity]]. unfold sizes_fit. vm_compute. split; split; congruence. }
  apply (proj1 (pool_block_recovered damaged 0 two_copies Hi Hp Hin) [1; 2; 3; 4]). vm_compute. reflexivity.
Defined.

(** A block of metadata of an encrypted dataset, authenticated by the code in its
    pointer. *)
Definition vouched_block : list Z := [5; 6; 7].
Definition vouched_raw : list Z :=
  ztake 48 (toy_pointer 1 0 vouched_block) ++ le_bytes 8 (Z.lor toy_prop (Z.shiftl 1 61)) ++
  ztake 56 (zdrop 56 (toy_pointer 1 0 vouched_block)) ++ ztake 16 (hmac_sha512 (hmac_key sample_key) vouched_block).
Definition vouched_pointer : PoolBlockPointer :=
  {| pb_pointer := toy_blkptr vouched_raw Little; pb_raw := vouched_raw; pb_endian := Little |}.

Lemma encrypted_block_vouched_witness :
  read_pool_block_from (toy_source (0 :: vouched_block)) 0 vouched_pointer None = Err (Msg "native-encrypted ZFS block requires a dataset key" []) /\
  exists k dva raw plain, Some sample_key = Some k /\ dva ∈ blk_dvas (pb_pointer vouched_pointer) /\
    image_read (toy_source (0 :: vouched_block)) (physical_byte_offset dva) (psize_bytes (pb_pointer vouched_pointer)) = Ok raw /\
    vouched k vouched_pointer raw vouched_block plain /\
    decompress_block (blk_compression (pb_pointer vouched_pointer)) plain (lsize_bytes (pb_pointer vouched_pointer)) = Ok vouched_block.
Proof.
  split; [vm_compute; reflexivity|].
  assert (pool_pointer_ok vouched_pointer) as Hp.
  { split; [split; [|apply bytes_ok_dec]; vm_compute; reflexivity|].
    split; [apply bytes_ok_dec; vm_compute; reflexivity|]. split; [vm_compute; reflexivity|vm_compute; discriminate]. }
  apply (proj1 encrypted_block_vouched (toy_source (0 :: vouched_block)) 0 vouched_pointer (Some sample_key) vouched_block Hp); vm_compute; reflexivity.
Defined.

(** The file of the member: a leaf of 300 bytes and a hole. *)
Definition toy_pool_dnode (id : Z) : PoolDnode :=
  match PoolDnode_parse (ztake 512 (zdrop (512 * id) b_objects)) Little with Ok d => d | _ => meta_dnode toy_mos end.
Definition toy_resolved : ResolvedPoolPath :=
  {| rpp_normalized_path := bytes_of_string "/f"; rpp_object_id := 3; rpp_dirent_type := 8; rpp_logical_size := 700; rpp_dnode := toy_pool_dnode 3 |}.
Definition toy_leaf : PoolBlockPointer :=
  {| pb_pointer := toy_blkptr (toy_pointer 384 0 b_leaf) Little; pb_raw := toy_pointer 384 0 b_leaf; pb_endian := Little |}.
Definition toy_hole : PoolBlockPointer :=
  {| pb_pointer := toy_blkptr (zrepeat 128 0) Little; pb_raw := zrepeat 128 0; pb_endian := Little |}.
Definition toy_indirect : PoolBlockPointer :=
  {| pb_pointer := toy_blkptr (toy_pointer 684 0 b_indirect) Little; pb_raw := toy_pointer 684 0 b_indirect; pb_endian := Little |}.

Lemma toy_leaves : dnode_leaves (pm_source toy_member) None 1 (toy_pool_dnode 3) [Some toy_leaf; None].
Proof.
  exists [[Some toy_leaf; None]]. split; [reflexivity|].
  assert (pd_pointers (toy_pool_dnode 3) = [toy_indirect]) as -> by (vm_compute; reflexivity).
  assert (dn_endian (pd_dnode (toy_pool_dnode 3)) = Little) as -> by (vm_compute; reflexivity).
  assert (Z.to_nat (dn_nlevels (pd_dnode (toy_pool_dnode 3)) - 1) = 1%nat) as -> by (vm_compute; reflexivity).
  constructor; [|constructor]. change [Some toy_leaf; None] with (concat [[Some toy_leaf]; [None]]).
  apply (tree_node _ _ _ _ _ _ [toy_pointer 384 0 b_leaf; zrepeat 128 0] [toy_leaf; toy_hole] [[Some toy_leaf]; [None]]).
  - vm_compute. reflexivity.
  - vm_compute. reflexivity.
  - repeat constructor; vm_compute; reflexivity.
  - reflexivity.
  - repeat constructor; vm_compute; reflexivity.
  - constructor; [|constructor; [|constructor]].
    + assert ([Some toy_leaf] = [leaf_of toy_leaf]) as -> by (vm_compute; reflexivity). constructor.
    + assert ([None] = [leaf_of toy_hole]) as -> by (vm_compute; reflexivity). constructor.
Qed.

Lemma toy_file_geometry : geometry (pd_dnode (toy_pool_dnode 3)) 1.
Proof. split; vm_compute; (reflexivity || (split; discriminate) || discriminate). Qed.

Lemma pool_file_exact_witness :
  wp (extract_content toy_member toy_resolved None) (fun '(output, digest) =>
    contents output = b_leaf ++ zrepeat 400 0 /\ digest = b_leaf ++ zrepeat 400 0) /\
  PoolImageFile_read_exact_at {| pf_member := toy_member; pf_resolved := toy_resolved; pf_key := None |} 298 4 = Ok [47; 48; 0; 0].
Proof.
  assert (file_bytes 512 700 [b_leaf; zrepeat 512 0] = b_leaf ++ zrepeat 400 0) as Hfile by (vm_compute; reflexivity).
  assert (data_block_size (pd_dnode (rpp_dnode toy_resolved)) = 512) as Hbs by (vm_compute; reflexivity).
  pose proof (pool_file_exact toy_member toy_resolved None 1 [Some toy_leaf; None] [b_leaf; zrepeat 512 0] toy_file_geometry toy_leaves) as Hexact.
  rewrite Hbs in Hexact. cbn [rpp_logical_size toy_resolved] in Hexact.
  destruct Hexact as [Hextract Hread].
  - u64.
  - lia.
  - reflexivity.
  - vm_compute. discriminate.
  - intros b data Hb. pose proof (get_lt _ _ _ Hb) as Hlt. change (0 <= b < 2) in Hlt. assert (b = 0 \/ b = 1) as [-> | ->] by lia.
    + injection Hb as <-. exists (Some toy_leaf). split; [reflexivity|]. split; [vm_compute; reflexivity|]. apply bytes_ok_dec. vm_compute. reflexivity.
    + injection Hb as <-. exists None. split; [reflexivity|]. split; [vm_compute; reflexivity|]. apply bytes_ok_dec. vm_compute. reflexivity.
  - rewrite Hfile in Hextract, Hread. split; [exact Hextract|].
    rewrite (Hread 298 4); [vm_compute; reflexivity|lia|lia|lia].
Defined.

(** The datasets of the member. *)
Lemma datasets_complete_witness :
  (match datasets toy_member 5 with Ok all => map di_name all | _ => [] end = [bytes_of_string "tank"]) /\
  (exists enough r, safe r /\ forall fuel, (enough <= fuel)%nat -> datasets toy_member fuel = r) /\
  forall fuel all, datasets toy_member fuel = Ok all ->
    exists root, root_dataset toy_member = Ok root /\ NoDup (di_dsl_dir_object <$> all) /\ Sorted (by_name di_name) all /\
      (forall d, d ∈ all -> reaches toy_member root (di_dsl_dir_object d) (di_name d)) /\
      forall object name found children, reaches toy_member root object name ->
        visit_directory toy_member object name = Ok (found, children) -> found <> [] ->
        exists d, d ∈ all /\ di_dsl_dir_object d = object.
Proof.
  split; [vm_compute; reflexivity|]. destruct (datasets_complete toy_member toy_member_ok) as [Hends Hfound].
  split; [exact (Hends (pf_mos _ toy_member_fits))|exact Hfound].
Defined.

(** The member's tree, put in place of the old file. *)
#[local] Instance no_faults : Faults := faults_at [].

Definition toy_pool_tree : result RecursiveExtraction * host :=
  extract_tree_with_key toy_member false 5 (bytes_of_string "tank") (bytes_of_string "/") [] out_name true None toy_host.

Lemma pool_tree_recovered_witness :
  h_store toy_pool_tree.2 !! [bytes_of_string "f"; out_name] = Some (NFile (b_leaf ++ zrepeat 400 0)) /\
  exists enough, forall fuel, (enough <= fuel)%nat ->
  forall windows path_ parent dn force h,
    store_wf (h_store h) -> (forall rest, dn <> bytes_of_string ".zfse-tree-" ++ rest) ->
    let '(r, h') := extract_tree_with_key toy_member windows fuel (bytes_of_string "tank") path_ parent dn force None h in
    safe r /\
    (is_ok r = true ->
      (exists tn, h_store h !! (tn :: parent) = None /\ settled parent tn dn (h_store h) (h_store h')) /\
      (forall r n, h_store h' !! (r ++ dn :: parent) = Some n <->
        shows (fun directory => list_directory_with_key toy_member fuel (bytes_of_string "tank") directory None)
          (pool_content toy_member fuel (bytes_of_string "tank") None) path_ r n) /\
      forall source bytes, pool_content toy_member fuel (bytes_of_string "tank") None source = Some bytes ->
        made_of_blocks toy_member fuel (bytes_of_string "tank") None source bytes).
Proof.
  split; [vm_compute; reflexivity|]. exact (pool_tree_recovered toy_member (bytes_of_string "tank") None toy_member_ok toy_member_fits).
Defined.

(** A disk of sectors of 512 bytes, with the member in its one partition. *)
#[export] Instance slow_disk_info : DeviceInfo SlowDisk := {
  dev_metadata _ := Ok (false, 0);
  dev_block_size _ := Ok 512;
  dev_block_count d := Ok (len (sd_contents d) / 512);
  dev_length_info d := Ok (len (sd_contents d));
  dev_seek_end _ := Err (Foreign "not supported");
}.

#[export] Instance no_luks : Luks SlowDisk := { unlock_with_passphrase _ _ := Err (Foreign "not a container") }.

Definition toy_disk_bytes : list Z :=
  zrepeat 446 0 ++ [0; 0; 0; 0; 191; 0; 0; 0] ++ le_bytes 4 1 ++ le_bytes 4 14 ++ zrepeat 48 0 ++ [0x55; 0xaa] ++ toy_member_bytes.
Definition toy_drive : SlowDisk := {| sd_contents := toy_disk_bytes |}.

Lemma toy_drive_laws : DeviceLaws toy_drive 512 toy_disk_bytes.
Proof. apply slow_disk_laws; [vm_compute; reflexivity|apply bytes_ok_dec; vm_compute; reflexivity]. Qed.

Abbreviation toy_opened := (open_with_container_key Windows toy_drive None).

Lemma pool_opened_witness :
  exists member, toy_opened = Ok member /\ pm_txg member = 6 /\
  exists fs ps base n found,
    FileSource_open Windows toy_drive = Ok fs /\ partitions_or_none (FileSource_image fs) = Ok ps /\
    (ps = [] /\ base = 0 /\ n = len toy_disk_bytes \/
     exists before p after, ps = before ++ p :: after /\ Forall (unlabelled fs) (before ++ after) /\ base = gp_offset p /\ n = gp_length p) /\
    0 <= base /\ base + n <= len toy_disk_bytes /\ image_len (pm_source member) = n /\
    (forall offset k, 0 <= offset -> 0 <= k -> offset + k <= n ->
      image_read (pm_source member) offset k = Ok (ztake k (zdrop (base + offset) toy_disk_bytes))) /\
    read_labels (pm_source member) = Ok found /\ Forall (fun label => label_agrees (pm_pool_guid member) label = true) found /\
    (exists label, label ∈ found /\ Forall (fun other : Z * (Uberblock * NvConfig) => ub_txg other.2.1 <= pm_txg member) found /\
       ub_txg label.2.1 = pm_txg member) /\
    pm_top_level_vdevs member = 1 /\ member_ok member.
Proof.
  assert (match toy_opened with Ok m => (pm_txg m =? 6) && negb (pm_container_encryption m) | _ => false end = true) as Hok by (vm_compute; reflexivity).
  destruct toy_opened as [member|e| |] eqn:Hopen; [|discriminate Hok..]. apply andb_true_iff in Hok as [Htxg Hplain].
  exists member. split; [reflexivity|]. split; [by apply Z.eqb_eq in Htxg|].
  apply (pool_opened toy_drive 512 toy_disk_bytes (DeviceLaws0 := toy_drive_laws) Windows None member).
  - vm_compute. discriminate.
  - vm_compute. reflexivity.
  - vm_compute. reflexivity.
  - exact Hopen.
  - by destruct (pm_container_encryption member).
Defined.
