(* ===== verification/Inner.v ===== *)
(** Files inside the volumes of a disk image, src/src/inception.rs: the target of
    an extraction (lines 743-793), paths (899-922), FAT (924-1009), NTFS (1011-1107
    and 1295-1309), ext (1109-1187 and 1311-1318), and reading a file in place
    (578-608, 1189-1293). The parsers of the file systems are crates. *)

From stdpp Require Import sorting.
From S2P Require Import Prelude Bytes Utf8 Stream StreamFacts Replay Compression NvList Encrypted.
From S2P Require Import EncryptedDnode Paths Snapshots Selected ObjectIndex Resolve Sparse Operations.
From S2P Require Import Lznt1 NtfsStream Image DiskImage Partitions Volumes Datto HostFs Tree HostExtract.
From S2P Require Import PoolBlocks PoolSource Pool PoolFile.
#[local] Open Scope Z_scope.
#[local] Open Scope zse_scope.

(** ** The crates

    Something that is read and sought: [st_read v n] is what a read into a buffer
    of [n] bytes delivers. *)
Class ReadSeek (V : Type) := {
  st_read : V -> Z -> result (list Z * V);
  st_seek : V -> Z -> result V;
}.

Record FatMeta := { fm_is_dir : bool; fm_size : Z }.

Record FatNode (Id : Type) := {
  fn_id : Id; fn_name : list Z; fn_short_name : list Z; fn_is_dir : bool; fn_is_deleted : bool; fn_is_volume_label : bool;
  fn_first_cluster : Z; fn_size : Z;
}.
Arguments fn_id {Id}. Arguments fn_name {Id}. Arguments fn_short_name {Id}. Arguments fn_is_dir {Id}.
Arguments fn_is_deleted {Id}. Arguments fn_is_volume_label {Id}. Arguments fn_first_cluster {Id}. Arguments fn_size {Id}.

(** The name of an index entry, [to_string_lossy] of it. *)
Record NtfsFileName := { nn_name : list Z; nn_is_directory : bool; nn_data_size : Z }.

(** The unnamed data attribute: its record, its flags and its length. *)
Record DataAttribute := {
  da_record : list Z; da_encrypted : bool; da_compressed : bool; da_resident : bool; da_value_length : Z;
}.

Inductive Ext4Type := Ext4Directory | Ext4Regular | Ext4Symlink | Ext4Other.

Record Ext4Metadata := { em_type : Ext4Type; em_len : Z }.

(** The name and the displayed path of an entry, and what the crate says of it. *)
Record Ext4Entry := {
  ee_file_name : list Z; ee_path : list Z; ee_file_type : result Ext4Type; ee_metadata : result Ext4Metadata;
}.

(** The crates fat-core, ntfs and ext4-view, handed the image of a volume: a crate
    that takes a reader seeks before it reads. [str::to_lowercase] is Unicode's. *)
Class InnerCrates := {
  to_lowercase : list Z -> list Z;
  FatFs : Type; FileId : Type;
  FatFs_open : ImageRead -> result FatFs;
  fat_root : FatFs -> FileId;
  fat_meta : FatFs -> FileId -> result FatMeta;
  fat_lookup : FatFs -> FileId -> list Z -> result (option FileId);
  fat_read_dir : FatFs -> FileId -> result (list (FatNode FileId));
  fat_read_at : FatFs -> FileId -> Z -> Z -> result (list Z);
  NtfsVolume : Type; NtfsFile : Type; NtfsIndex : Type; NtfsEntry : Type; NtfsDataItem : Type; NtfsValue : Type;
  Ntfs_new : ImageRead -> result NtfsVolume;
  read_upcase_table : NtfsVolume -> ImageRead -> result NtfsVolume;
  root_directory : NtfsVolume -> ImageRead -> result NtfsFile;
  ntfs_is_directory : NtfsFile -> bool;
  directory_index : NtfsFile -> ImageRead -> result NtfsIndex;
  index_find : NtfsIndex -> NtfsVolume -> ImageRead -> list Z -> option (result NtfsEntry);
  entry_to_file : NtfsEntry -> NtfsVolume -> ImageRead -> result NtfsFile;
  index_entries : NtfsIndex -> ImageRead -> list (result NtfsEntry);
  entry_key : NtfsEntry -> option (result NtfsFileName);
  file_record_number : NtfsEntry -> Z;
  file_data : NtfsFile -> ImageRead -> option (result NtfsDataItem);
  to_attribute : NtfsDataItem -> result DataAttribute;
  attribute_value : NtfsDataItem -> ImageRead -> result NtfsValue;
  value_len : NtfsValue -> Z;
  ntfs_value_stream :: ReadSeek NtfsValue;
  cluster_size : NtfsFile -> Z;
  volume_size : NtfsFile -> Z;
  attributes_raw : NtfsFile -> ImageRead -> list (result NtfsItem);
  Ext4Fs : Type; Ext4File : Type;
  ext4_load_fs : ImageRead -> result Ext4Fs;
  symlink_metadata : Ext4Fs -> list Z -> result Ext4Metadata;
  ext4_read_dir : Ext4Fs -> list Z -> result (list (result Ext4Entry));
  ext4_open_file : Ext4Fs -> list Z -> result Ext4File;
  ext4_file_stream :: ReadSeek Ext4File;
}.

(** [read_exact]: reads until the buffer is full; a read delivers a byte at least. *)
Fixpoint read_exact_loop {V} `{ReadSeek V} (fuel : nat) (v : V) (n : Z) : result (list Z) :=
  if n =? 0 then Ok []
  else
    match fuel with
    | O => OutOfFuel
    | S fuel =>
        let! (bytes, v) := st_read v n in
        fail! len bytes =? 0 with Foreign "failed to fill whole buffer" in
        let! rest := read_exact_loop fuel v (n - len bytes) in
        Ok (bytes ++ rest)
    end.

Definition read_exact {V} `{ReadSeek V} (v : V) (n : Z) : result (list Z) := read_exact_loop (Z.to_nat n) v n.

(** A cursor over an image is such a reader; the disk of a compressed stream is
    [seek] and [read_exact] of it. *)
#[export] Instance cursor_stream : ReadSeek SourceCursor := {
  st_read c n := SourceCursor_read c n;
  st_seek c n := let! (_, c) := SourceCursor_seek c (DiskImage.SeekStart n) in Ok c;
}.

#[export] Instance image_disk (image : ImageRead) : Disk := fun p n =>
  let! c := st_seek (SourceCursor_new image) p in read_exact c n.

(** ** The target *)

Definition COPY_BUFFER_SIZE : Z := 1024 * 1024.

(** The digest is of the bytes it has been given. *)
Record ExtractionTarget := { et_file : Sparse.File; et_digest : list Z; et_offset : Z }.

Definition ExtractionTarget_new : ExtractionTarget :=
  {| et_file := {| contents := []; cursor := 0 |}; et_digest := []; et_offset := 0 |}.

Definition target_write `{Os} (self : ExtractionTarget) (bytes : list Z) : result ExtractionTarget :=
  let! file := write_extent (et_file self) (et_offset self) bytes in
  let! offset := ok_or (checked_add (et_offset self) (len bytes)) (Msg "nested extraction offset overflow" []) in
  Ok {| et_file := file; et_digest := et_digest self ++ bytes; et_offset := offset |}.

(** Before the file is flushed and renamed: the file, and what is digested. *)
Definition target_finish (self : ExtractionTarget) (length : Z) : result (Sparse.File * list Z) :=
  fail! negb (et_offset self =? length)
    with Msg "inner filesystem returned {} bytes for a {length}-byte file" [et_offset self; length] in
  let! file := set_len (et_file self) length in
  Ok (file, et_digest self).

(** ** Paths *)

Definition inner_part (parts : list (list Z)) (part : list Z) : result (list (list Z)) :=
  if is_empty part || bytes_eqb part [DOT] then Ok parts
  else if bytes_eqb part [DOT; DOT] then Err (Msg "inner filesystem path cannot contain '..'" [])
  else if bool_decide (0 ∈ part) then Err (Msg "inner filesystem path contains a NUL byte" [])
  else Ok (parts ++ [part]).

Definition normalize_inner_path (path : list Z) : result (list (list Z)) :=
  fail! negb (starts_with [SLASH] path) with Msg "inner filesystem path must be absolute" [] in
  fold_res inner_part [] (split_on SLASH path).

Definition normalized_inner_path (path : list Z) : result (list Z) :=
  let! parts := normalize_inner_path path in
  Ok (if is_empty parts then [SLASH] else SLASH :: join SLASH parts).

(** A message about a path: the path is normalised for it first. *)
Definition path_error {A} (path : list Z) (what : string) : result A :=
  let! _ := normalized_inner_path path in Err (Msg what []).

Section inner.
Context `{InnerCrates}.

(** ** FAT *)

Definition open_fat (source : ImageRead) : result FatFs := with_context "opening FAT-family filesystem" [] (FatFs_open source).

Definition fat_name_matches (stored requested : list Z) : bool :=
  eq_ignore_ascii_case stored requested || bytes_eqb (to_lowercase stored) (to_lowercase requested).

(** An exact name first; else the one live entry whose long or short name is the
    same but for case. *)
Definition resolve_fat_component (fs : FatFs) (current : FileId) (component : list Z) : result FileId :=
  let! exact := fat_lookup fs current component in
  match exact with
  | Some exact => Ok exact
  | None =>
      let! nodes := fat_read_dir fs current in
      let matches := List.map fn_id (List.filter (fun node => negb (fn_is_deleted node) && negb (fn_is_volume_label node) &&
        (fat_name_matches (fn_name node) component || fat_name_matches (fn_short_name node) component)) nodes) in
      match matches with
      | [only] => Ok only
      | [] => Err (Msg "inner path {path:?} was not found" [])
      | _ => Err (Msg "inner path component {component:?} is ambiguous in a damaged FAT directory" [])
      end
  end.

Definition resolve_fat (fs : FatFs) (path : list Z) : result FileId :=
  let! parts := normalize_inner_path path in
  fold_res (resolve_fat_component fs) (fat_root fs) parts.

Definition fat_entry (node : FatNode FileId) : DirectoryEntry := {|
  de_name := fn_name node; de_object_id := fn_first_cluster node; de_dirent_type := if fn_is_dir node then 4 else 8;
  de_logical_size := if fn_is_dir node then None else Some (fn_size node) |}.

Definition fat_listed (node : FatNode FileId) : bool :=
  negb (fn_is_deleted node) && negb (fn_is_volume_label node) && negb (is_dots (fn_name node)).

Definition list_fat (source : ImageRead) (path : list Z) : result (list DirectoryEntry) :=
  let! fs := open_fat source in
  let! id := resolve_fat fs path in
  let! meta := fat_meta fs id in
  if negb (fm_is_dir meta) then path_error path "{} is not a directory"
  else
    let! nodes := fat_read_dir fs id in
    Ok (sort_by_name (fun entry => to_lowercase (de_name entry)) (List.map fat_entry (List.filter fat_listed nodes))).

Section os.
Context `{Os}.

(** A round delivers a byte at least, so the size bounds the rounds. *)
Fixpoint fat_copy (fuel : nat) (fs : FatFs) (id : FileId) (size offset : Z) (target : ExtractionTarget) : result ExtractionTarget :=
  if size <=? offset then Ok target
  else
    match fuel with
    | O => OutOfFuel
    | S fuel =>
        let! left_ := sub size offset in
        let! wanted := ok_or (usize_try_from (Z.min left_ COPY_BUFFER_SIZE)) (Foreign "TryFromIntError") in
        let! bytes := fat_read_at fs id offset wanted in
        fail! len bytes =? 0 with Msg "FAT cluster chain ended at byte {offset} of {}" [offset; size] in
        let! target := target_write target bytes in
        let! offset := add offset (len bytes) in
        fat_copy fuel fs id size offset target
    end.

Definition extract_fat (source : ImageRead) (path : list Z) (target : ExtractionTarget) : result (ExtractionTarget * Z) :=
  let! fs := open_fat source in
  let! id := resolve_fat fs path in
  let! meta := fat_meta fs id in
  if fm_is_dir meta then path_error path "{} is not a regular file"
  else
    let! target := fat_copy (Z.to_nat (fm_size meta)) fs id (fm_size meta) 0 target in
    Ok (target, fm_size meta).

(** [loop { let count = value.read(..)?; if count == 0 { break; } target.write(..)?; }] *)
Fixpoint stream_copy {V} `{ReadSeek V} (fuel : nat) (value : V) (target : ExtractionTarget) : result ExtractionTarget :=
  match fuel with
  | O => OutOfFuel
  | S fuel =>
      let! (bytes, value) := st_read value COPY_BUFFER_SIZE in
      if len bytes =? 0 then Ok target
      else
        let! target := target_write target bytes in
        stream_copy fuel value target
  end.
End os.

(** ** NTFS *)

Definition transpose_some {A} (found : option (result A)) (e : error) : result A :=
  match found with Some r => r | None => Err e end.

Definition open_ntfs (source : ImageRead) : result NtfsVolume :=
  let! ntfs := with_context "opening NTFS filesystem" [] (Ntfs_new source) in
  with_context "reading the NTFS $UpCase table" [] (read_upcase_table ntfs source).

Definition resolve_ntfs_component (ntfs : NtfsVolume) (source : ImageRead) (current : NtfsFile) (component : list Z) : result NtfsFile :=
  let! index := directory_index current source in
  let! entry := transpose_some (index_find index ntfs source component) (Msg "inner path {path:?} was not found" []) in
  entry_to_file entry ntfs source.

Definition resolve_ntfs (ntfs : NtfsVolume) (source : ImageRead) (path : list Z) : result NtfsFile :=
  let! root := root_directory ntfs source in
  let! parts := normalize_inner_path path in
  fold_res (resolve_ntfs_component ntfs source) root parts.

Definition ntfs_entry (entries : list DirectoryEntry) (entry : result NtfsEntry) : result (list DirectoryEntry) :=
  let! entry := entry in
  match entry_key entry with
  | None => Ok entries
  | Some file_name =>
      let! file_name := file_name in
      if is_dots (nn_name file_name) then Ok entries
      else Ok (entries ++ [{| de_name := nn_name file_name; de_object_id := file_record_number entry;
        de_dirent_type := if nn_is_directory file_name then 4 else 8;
        de_logical_size := if nn_is_directory file_name then None else Some (nn_data_size file_name) |}])
  end.

Definition list_ntfs (source : ImageRead) (path : list Z) : result (list DirectoryEntry) :=
  let! ntfs := open_ntfs source in
  let! directory := resolve_ntfs ntfs source path in
  if negb (ntfs_is_directory directory) then path_error path "{} is not a directory"
  else
    let! index := directory_index directory source in
    fold_res ntfs_entry [] (index_entries index source).

Definition validate_ntfs_image_attribute (attribute : DataAttribute) : result unit :=
  let! compression := Bytes.index (da_record attribute) 12 in
  fail! 1 <? compression with Msg "{path:?} uses unsupported NTFS compression format {compression}" [compression] in
  fail! da_encrypted attribute
    with Msg "{path:?} is EFS-encrypted; an unencrypted NTFS $DATA stream is required" [] in
  Ok tt.

(** The unnamed data stream of a file that is not a directory. *)
Definition ntfs_data (source : ImageRead) (file : NtfsFile) : result (NtfsDataItem * DataAttribute) :=
  let! item := transpose_some (file_data file source) (Msg "{path:?} has no unnamed NTFS $DATA stream" []) in
  let! attribute := to_attribute item in
  let! _ := validate_ntfs_image_attribute attribute in
  Ok (item, attribute).

Definition ntfs_compressed (attribute : DataAttribute) : bool := da_compressed attribute && negb (da_resident attribute).

Definition open_compressed (source : ImageRead) (file : NtfsFile) : result CompressedStream :=
  CompressedStream_open (cluster_size file) (volume_size file) (attributes_raw file source).

Section ntfs_copy.
Context `{Os}.

Fixpoint compressed_copy (fuel : nat) (source : ImageRead) (compressed : CompressedStream) (length offset : Z)
    (target : ExtractionTarget) : result ExtractionTarget :=
  if length <=? offset then Ok target
  else
    match fuel with
    | O => OutOfFuel
    | S fuel =>
        let! left_ := sub length offset in
        let count := Z.min left_ COPY_BUFFER_SIZE in
        let '(read, compressed) := NtfsStream.read_exact_at (H := image_disk source) compressed offset count in
        let! bytes := read in
        let! target := target_write target bytes in
        let! offset := add offset count in
        compressed_copy fuel source compressed length offset target
    end.

Definition extract_ntfs (fuel : nat) (source : ImageRead) (path : list Z) (target : ExtractionTarget) : result (ExtractionTarget * Z) :=
  let! ntfs := open_ntfs source in
  let! file := resolve_ntfs ntfs source path in
  if ntfs_is_directory file then path_error path "{} is not a regular file"
  else
    let! (item, attribute) := ntfs_data source file in
    if ntfs_compressed attribute then
      let! compressed := open_compressed source file in
      let length := cs_length compressed in
      let! target := compressed_copy (Z.to_nat length) source compressed length 0 target in
      Ok (target, length)
    else
      let! value := attribute_value item source in
      let! copied := stream_copy fuel value target in
      Ok (copied, value_len value).
End ntfs_copy.

(** ** ext *)

Definition open_ext4 (source : ImageRead) : result Ext4Fs := with_context "opening ext filesystem" [] (ext4_load_fs source).

Definition wrapping_mul (a b : Z) : Z := (a * b) mod TWO64.

(** FNV-1a *)
Definition stable_path_id (path : list Z) : Z :=
  foldl (fun hash byte => wrapping_mul (Z.lxor hash byte) 0x100000001b3) 0xcbf29ce484222325 path.

Definition ext4_dirent_type (type : Ext4Type) : Z :=
  match type with Ext4Directory => 4 | Ext4Regular => 8 | Ext4Symlink => 10 | Ext4Other => 0 end.

Definition ext4_entry (entries : list DirectoryEntry) (entry : result Ext4Entry) : result (list DirectoryEntry) :=
  let! entry := entry in
  fail! negb (is_some (from_utf8 (ee_file_name entry)))
    with Msg "ext directory contains a non-UTF-8 name that this UI cannot represent" [] in
  let name := ee_file_name entry in
  if is_dots name then Ok entries
  else
    let! file_type := ee_file_type entry in
    let! metadata := ee_metadata entry in
    Ok (entries ++ [{| de_name := name; de_object_id := stable_path_id (ee_path entry);
      de_dirent_type := ext4_dirent_type file_type;
      de_logical_size := match file_type with Ext4Regular => Some (em_len metadata) | _ => None end |}]).

Definition list_ext4 (source : ImageRead) (path : list Z) : result (list DirectoryEntry) :=
  let! fs := open_ext4 source in
  let! path := normalized_inner_path path in
  let! metadata := symlink_metadata fs path in
  match em_type metadata with
  | Ext4Directory =>
      let! entries := ext4_read_dir fs path in
      let! entries := fold_res ext4_entry [] entries in
      Ok (sort_by_name de_name entries)
  | _ => Err (Msg "{path} is not a directory" [])
  end.

Definition extract_ext4 `{Os} (fuel : nat) (source : ImageRead) (path : list Z) (target : ExtractionTarget)
  : result (ExtractionTarget * Z) :=
  let! fs := open_ext4 source in
  let! path := normalized_inner_path path in
  let! metadata := symlink_metadata fs path in
  match em_type metadata with
  | Ext4Regular =>
      let! file := ext4_open_file fs path in
      let! target := stream_copy fuel file target in
      Ok (target, em_len metadata)
  | _ => Err (Msg "{path} is not a regular file (symlinks are not followed for extraction)" [])
  end.

(** ** A file in place *)

Definition inner_file_length (source : ImageRead) (filesystem : FilesystemKind) (path : list Z) : result Z :=
  match filesystem with
  | Fat12 | Fat16 | Fat32 | Exfat =>
      let! fs := open_fat source in
      let! id := resolve_fat fs path in
      let! metadata := fat_meta fs id in
      fail! fm_is_dir metadata with Msg "{path} is not a regular file" [] in
      Ok (fm_size metadata)
  | Ntfs =>
      let! ntfs := open_ntfs source in
      let! file := resolve_ntfs ntfs source path in
      fail! ntfs_is_directory file with Msg "{path} is not a regular file" [] in
      let! (_, attribute) := ntfs_data source file in
      Ok (da_value_length attribute)
  | Ext4 =>
      let! fs := open_ext4 source in
      let! metadata := symlink_metadata fs path in
      match em_type metadata with
      | Ext4Regular => Ok (em_len metadata)
      | _ => Err (Msg "{path} is not a regular file (symlinks are not followed)" [])
      end
  end.

Fixpoint fat_fill (fuel : nat) (fs : FatFs) (id : FileId) (offset complete n : Z) : result (list Z) :=
  if n <=? complete then Ok []
  else
    match fuel with
    | O => OutOfFuel
    | S fuel =>
        let! at_ := add offset complete in
        let! bytes := fat_read_at fs id at_ (n - complete) in
        fail! len bytes =? 0 with Msg "FAT image file ended before byte {}" [offset + n] in
        let! rest := fat_fill fuel fs id offset (complete + len bytes) n in
        Ok (bytes ++ rest)
    end.

Definition read_inner_file_exact_at (source : ImageRead) (filesystem : FilesystemKind) (path : list Z) (offset n : Z)
  : result (list Z) :=
  match filesystem with
  | Fat12 | Fat16 | Fat32 | Exfat =>
      let! fs := open_fat source in
      let! id := resolve_fat fs path in
      fat_fill (Z.to_nat n) fs id offset 0 n
  | Ntfs =>
      let! ntfs := open_ntfs source in
      let! file := resolve_ntfs ntfs source path in
      let! (item, attribute) := ntfs_data source file in
      if ntfs_compressed attribute then
        let! compressed := open_compressed source file in
        fst (NtfsStream.read_exact_at (H := image_disk source) compressed offset n)
      else
        let! value := attribute_value item source in
        let! value := st_seek value offset in
        read_exact value n
  | Ext4 =>
      let! fs := open_ext4 source in
      let! file := ext4_open_file fs path in
      let! file := st_seek file offset in
      read_exact file n
  end.

Record FilesystemFileImage := { ff_source : ImageRead; ff_filesystem : FilesystemKind; ff_path : list Z; ff_len : Z }.

Definition FilesystemFileImage_read_exact_at (self : FilesystemFileImage) (offset n : Z) : result (list Z) :=
  let! end_ := ok_or (checked_add offset n) (Msg "inner image-file read offset overflows" []) in
  fail! ff_len self <? end_ with Msg "inner image-file read [{offset}, {end}) exceeds {} bytes" [offset; end_; ff_len self] in
  read_inner_file_exact_at (ff_source self) (ff_filesystem self) (ff_path self) offset n.

Definition FilesystemFileImage_image (self : FilesystemFileImage) : ImageRead :=
  {| image_len := ff_len self; image_read := FilesystemFileImage_read_exact_at self |}.
End inner.
