(* ===== verification/InnerSession.v ===== *)
(** Sessions over a disk image, src/src/inception.rs: where the image comes from
    (lines 143-280), and listing, extraction, trees and child images of a selected
    volume (366-486). *)

From stdpp Require Import sorting.
From S2P Require Import Prelude Bytes Utf8 Stream StreamFacts Replay Compression NvList Encrypted.
From S2P Require Import EncryptedDnode Paths Snapshots Selected ObjectIndex Resolve Sparse Operations.
From S2P Require Import Lznt1 NtfsStream Image DiskImage Partitions Volumes Sources Datto HostFs Tree HostExtract.
From S2P Require Import PoolBlocks PoolSource Pool PoolFile PoolOpen Inner.
#[local] Open Scope Z_scope.
#[local] Open Scope zse_scope.

(** ** A selected volume *)

Record NestedExtraction := { ne_logical_size : Z; ne_sha256 : list Z; ne_filesystem : FilesystemKind; ne_volume : list Z }.

Section session.
Context `{DiskCrates} `{Crc32} `{InnerCrates}.

Definition list_inner (source : ImageRead) (filesystem : FilesystemKind) (path : list Z) : result (list DirectoryEntry) :=
  match filesystem with
  | Ntfs => list_ntfs source path
  | Fat12 | Fat16 | Fat32 | Exfat => list_fat source path
  | Ext4 => list_ext4 source path
  end.

Definition volume_filesystem (volume : VolumeInfo) (what : string) : result FilesystemKind :=
  ok_or (vi_filesystem volume) (Msg what []).

Definition session_list_directory (self : InceptionSession) (volume : option (list Z)) (path : list Z) : result (list DirectoryEntry) :=
  let! volume := select_volume self volume in
  let! filesystem := volume_filesystem volume "volume {} has no supported filesystem ({})" in
  let! source := volume_source self volume in
  list_inner (SlicedImage_image source) filesystem path.

Definition extract_inner `{Os} (fuel : nat) (source : ImageRead) (filesystem : FilesystemKind) (path : list Z)
    (target : ExtractionTarget) : result (ExtractionTarget * Z) :=
  match filesystem with
  | Ntfs => extract_ntfs fuel source path target
  | Fat12 | Fat16 | Fat32 | Exfat => extract_fat source path target
  | Ext4 => extract_ext4 fuel source path target
  end.

(** The file that is put in place, with what is digested and its length. *)
Definition extract_inner_file `{Os} (fuel : nat) (source : ImageRead) (filesystem : FilesystemKind) (path : list Z)
  : result (Sparse.File * list Z * Z) :=
  let! (target, logical_size) := extract_inner fuel source filesystem path ExtractionTarget_new in
  let! (file, digest) := target_finish target logical_size in
  Ok (file, digest, logical_size).

Section host.
Context `{Os} `{Digest} `{Faults} `{TempNames}.

Definition session_extract (self : InceptionSession) (fuel : nat) (volume : option (list Z)) (path_ : list Z) (output : path)
    (force : bool) : fs_m NestedExtraction :=
  let* volume := fs_ret (select_volume self volume) in
  let* filesystem := fs_ret (volume_filesystem volume "volume {} does not contain a supported filesystem") in
  let* existing := path_exists output in
  if existing && negb force then fs_ret (Err (Msg "output {} already exists (pass --force to replace it)" []))
  else
    let* source := fs_ret (volume_source self volume) in
    write_replaced
      (let! (file, digest, logical_size) := extract_inner_file fuel (SlicedImage_image source) filesystem path_ in
       Ok (contents file, {| ne_logical_size := logical_size; ne_sha256 := sha256_hex digest; ne_filesystem := filesystem;
         ne_volume := vi_selector volume |})) output force.

Definition session_extract_file (self : InceptionSession) (fuel : nat) (volume : option (list Z)) (source : list Z)
    (destination : path) : fs_m Z :=
  let* result := session_extract self fuel volume source destination false in
  fs_ret (Ok (ne_logical_size result)).

(** The volume is selected once before anything is staged. *)
Definition session_extract_tree (windows : bool) (self : InceptionSession) (fuel : nat) (volume : option (list Z)) (path_ : list Z)
    (parent : path) (destination_name : name) (force : bool) : fs_m RecursiveExtraction :=
  let* _ := fs_ret (select_volume self volume) in
  extract_directory_tree windows (session_list_directory self volume) (session_extract_file self fuel volume)
    path_ parent destination_name force.
End host.

(** A file of the volume as one more disk. *)
Definition child_image (self : InceptionSession) (volume : VolumeInfo) (image_path : list Z) : result FilesystemFileImage :=
  let! filesystem := volume_filesystem volume "volume {} does not contain a supported filesystem" in
  let! source := volume_source self volume in
  let! normalized := normalized_inner_path image_path in
  let! length := inner_file_length (SlicedImage_image source) filesystem normalized in
  Ok {| ff_source := SlicedImage_image source; ff_filesystem := filesystem; ff_path := normalized; ff_len := length |}.

Definition inspect_child_image_at (self : InceptionSession) (volume : option (list Z)) (image_path : list Z) (image_offset : Z)
    (image_length : option Z) : result InceptionSession :=
  let! volume := select_volume self volume in
  let! image := child_image self volume image_path in
  inspect_source_at (FilesystemFileImage_image image)
    (se_image_path self ++ bytes_of_string "!" ++ vi_selector volume ++ bytes_of_string ":" ++ ff_path image) image_offset image_length.

(** ** Where an image comes from *)

Definition from_file_at {D} `{Device D} `{DeviceInfo D} (platform : Platform) (system : paths_state D) (authorized : gmap (list Z) (Handle D))
    (path : list Z) (image_offset : Z) (image_length : option Z) : result InceptionSession :=
  let! image := FileImage_open platform system authorized path in
  inspect_source_at (FileImage_image image) path image_offset image_length.

Section send.
Context `{Codecs} `{Crypto} `{ZfsCore} {R : Type} `{Read R}.

(** [file] is what the stream's file holds when it is opened again. *)
Definition from_send_at (fuel : nat) (stream : R) (file : list Z) (snapshot : option (list Z)) (image_path : list Z)
    (key_material : option (list Z)) (image_offset : Z) (image_length : option Z) : result InceptionSession :=
  let! plan := plan_snapshot fuel stream snapshot in
  let! index := build_plan_with_key fuel stream plan key_material in
  let! resolved := resolve_path index image_path in
  fail! negb (Resolve.dirent_type resolved =? 8) with Msg "{} is not a regular file" [] in
  let! image := StreamImage_build fuel stream file plan (Resolve.object_id resolved) (Resolve.logical_size resolved) key_material in
  inspect_source_at (StreamImage_image image) (Resolve.normalized_path resolved) image_offset image_length.
End send.

Section pool.
Context `{ZfsDisk} `{Codecs} `{Crypto} `{PoolCore} `{DattoCrates}.

(** The key of an encrypted agent image; other images take no credentials. *)
Definition datto_key (pool : PoolMember) (fuel : nat) (dataset image_path : list Z) (key_material datto_agent_password : option (list Z))
    (key_stash_path : option (list Z)) : result (option (list Z)) :=
  if is_detto image_path then
    let! password := ok_or datto_agent_password
      (Msg "{image_path} is an encrypted Datto .detto image; provide --agent-password-file" []) in
    let! stash_path := match key_stash_path with
      | Some path => Ok path
      | None => find_datto_key_stash (list_directory_with_key pool fuel dataset (bytes_of_string "/config") key_material)
      end in
    let! stash := read_small_file_with_key pool fuel dataset stash_path key_material (4 * 1024 * 1024) in
    let! key := with_context "unlocking {image_path} with {stash_path}" [] (derive_agent_key stash password) in
    Ok (Some key)
  else
    fail! is_some datto_agent_password || is_some key_stash_path
      with Msg "Datto agent credentials are only valid for a .detto image" [] in
    Ok None.

Definition from_pool_member_at_with_keys (pool : PoolMember) (fuel : nat) (dataset image_path : list Z)
    (key_material datto_agent_password key_stash_path : option (list Z)) (image_offset : Z) (image_length : option Z)
  : result InceptionSession :=
  let! key := datto_key pool fuel dataset image_path key_material datto_agent_password key_stash_path in
  let! source := into_image_file_with_key pool fuel dataset image_path key_material in
  let source := PoolImageFile_image source in
  let! source := match key with
    | Some key => let! image := DettoImage_new source key in Ok (DettoImage_image image)
    | None => Ok source
    end in
  inspect_source_at source image_path image_offset image_length.

Definition from_pool_at_with_key `{ZfsLabels} {D} `{Device D} `{DeviceInfo D} `{Luks D} (platform : Platform) (member : D) (fuel : nat)
    (dataset image_path : list Z) (key_material : option (list Z)) (image_offset : Z) (image_length : option Z) : result InceptionSession :=
  let! pool := PoolMember_open platform member in
  from_pool_member_at_with_keys pool fuel dataset image_path key_material None None image_offset image_length.
End pool.
End session.
