(* ===== verification/InnerFacts.v ===== *)
(** Lemmas on the files inside a volume: the laws of the crates, paths, the target
    of an extraction, that what a volume holds under a path is what is copied out
    of it and what is read from it in place, and that listing and extracting
    return, whatever the volume holds. *)

From stdpp Require Import sorting.
From S2P Require Import Prelude Bytes Utf8 Stream StreamFacts Compression NvList Encrypted EncryptedDnode Replay Paths.
From S2P Require Import Extents Snapshots Selected ObjectIndex Resolve Sparse SparseFacts Operations Lznt1 NtfsStream NtfsProps.
From S2P Require Import Image DiskImage Partitions Volumes Datto HostFs Tree HostExtract PoolBlocks PoolSource Pool.
From S2P Require Import PoolFile Inner InnerSession.
#[local] Open Scope Z_scope.
#[local] Open Scope zse_scope.

(** ** Laws

    A reader has so many bytes left, and delivers no more than it is asked for. *)
Class ReadSeekSafe (V : Type) `{ReadSeek V} := {
  st_left : V -> Z;
  st_left_range : forall v, 0 <= st_left v <= U64_MAX;
  st_read_safe : forall v n, 0 <= n -> wp (st_read v n) (fun '(bytes, v') =>
    len bytes <= n /\ bytes_ok bytes /\ st_left v' + len bytes <= st_left v);
  st_seek_safe : forall v n, safe (st_seek v n);
}.

(** At a position of its content it delivers a part of what follows, and nothing
    only at the end. *)
Class ReadSeekAt (V : Type) `{ReadSeek V} := {
  st_at : V -> list Z -> Z -> Prop;
  st_read_at : forall v c p n, st_at v c p -> 0 <= p <= len c -> 0 <= n ->
    exists k v', st_read v n = Ok (ztake k (zdrop p c), v') /\ 0 <= k <= n /\ p + k <= len c /\
      (0 < n -> p < len c -> 0 < k) /\ st_at v' c (p + k);
  st_seek_at : forall v c p q, st_at v c p -> 0 <= q <= len c -> exists v', st_seek v q = Ok v' /\ st_at v' c q;
}.

(** The crates return, and deliver no more than they are asked for; an attribute
    has a header. *)
Class InnerLaws `{InnerCrates} := {
  fat_open_safe : forall i, image_ok i -> safe (FatFs_open i);
  fat_meta_wp : forall fs id, wp (fat_meta fs id) (fun meta => is_u64 (fm_size meta));
  fat_lookup_safe : forall fs id name, safe (fat_lookup fs id name);
  fat_read_dir_safe : forall fs id, safe (fat_read_dir fs id);
  fat_read_wp : forall fs id offset n, is_u64 offset -> 0 <= n -> wp (fat_read_at fs id offset n) (fun bytes => len bytes <= n /\ bytes_ok bytes);
  ntfs_open_safe : forall i, image_ok i -> safe (Ntfs_new i) /\ forall ntfs, safe (read_upcase_table ntfs i) /\ safe (root_directory ntfs i);
  ntfs_find_safe : forall i, image_ok i -> forall file, safe (directory_index file i) /\ forall index ntfs name,
    (forall e, safe (transpose_some (index_find index ntfs i name) e)) /\ forall entry, safe (entry_to_file entry ntfs i);
  ntfs_entries_safe : forall i index, image_ok i -> Forall (fun entry => safe entry) (index_entries index i);
  ntfs_key_safe : forall entry e, safe (transpose_some (entry_key entry) e);
  ntfs_data_safe : forall i file, image_ok i -> forall e, safe (transpose_some (file_data file i) e);
  to_attribute_wp : forall item, wp (to_attribute item) (fun attribute => 12 < len (da_record attribute));
  ntfs_value_wp : forall i item, image_ok i -> wp (attribute_value item i) (fun value => is_u64 (value_len value));
  cluster_size_u32 : forall file, is_u32 (cluster_size file);
  attributes_raw_ok : forall i file, image_ok i -> Forall (fun item => wp item item_ok) (attributes_raw file i);
  ext4_load_safe : forall i, image_ok i -> safe (ext4_load_fs i);
  symlink_metadata_wp : forall fs path, wp (symlink_metadata fs path) (fun metadata => is_u64 (em_len metadata));
  ext4_read_dir_wp : forall fs path, wp (ext4_read_dir fs path)
    (Forall (fun entry => wp entry (fun e => safe (ee_file_type e) /\ safe (ee_metadata e))));
  ext4_open_safe : forall fs path, safe (ext4_open_file fs path);
  ntfs_value_safe :: ReadSeekSafe NtfsValue;
  ext4_file_safe :: ReadSeekSafe Ext4File;
}.

(** ** Paths *)

Definition inner_component (part : list Z) : Prop := part <> [] /\ is_dots part = false /\ SLASH ∉ part /\ 0 ∉ part.

Lemma wp_inner_parts l : forall parts,
  Forall inner_component parts -> Forall (fun part => SLASH ∉ part) l -> wp (fold_res inner_part parts l) (Forall inner_component).
Proof.
  induction l as [|part l IH]; intros parts Hp Hl; [by apply wp_Ok|]. apply List.Forall_cons_iff in Hl as [Hs Hl]. cbn [fold_res]. unfold inner_part at 1.
  destruct part as [|b part]; [by apply IH|]. cbn [is_empty orb]. destruct (bytes_eqb (b :: part) [DOT]) eqn:Hd1; [by apply IH|].
  destruct (bytes_eqb (b :: part) [DOT; DOT]) eqn:Hd2; [apply wp_Err|]. case_bool_decide as H0; [apply wp_Err|]. cbn [bind].
  apply IH; [|done]. apply Forall_app. split; [done|]. constructor; [|constructor]. unfold inner_component, is_dots. rewrite Hd1, Hd2. by split_and!.
Qed.

Lemma wp_normalize_inner_path path : wp (normalize_inner_path path) (Forall inner_component).
Proof.
  unfold normalize_inner_path. wp_step. apply wp_inner_parts; [constructor|]. apply Forall_forall. intros part. apply split_on_parts.
Qed.

Lemma inner_parts_plain l : forall parts, Forall inner_component l -> fold_res inner_part parts l = Ok (parts ++ l).
Proof.
  induction l as [|part l IH]; intros parts Hl; [by rewrite app_nil_r|]. apply List.Forall_cons_iff in Hl as [(Hne & Hd & Hs & H0) Hl].
  apply orb_false_iff in Hd as [Hd1 Hd2]. cbn [fold_res]. unfold inner_part at 1. rewrite Hd1, Hd2, bool_decide_false by done.
  destruct part; [done|]. cbn [is_empty orb bind]. rewrite IH by done. by rewrite <- app_assoc.
Qed.

(** A normalised path has the parts of the path. *)
Lemma normalize_normalized path normalized :
  normalized_inner_path path = Ok normalized -> normalize_inner_path normalized = normalize_inner_path path.
Proof.
  unfold normalized_inner_path. intros Hn. apply bind_Ok in Hn as (parts & Hparts & Heq). rewrite Hparts. injection Heq as <-.
  pose proof (wp_value _ _ _ (wp_normalize_inner_path path) Hparts) as Hall. unfold normalize_inner_path.
  destruct parts as [|part parts]; [reflexivity|]. cbn [is_empty]. unfold starts_with. cbn [split_on].
  assert (bytes_eqb (ztake (len [SLASH]) (SLASH :: join SLASH (part :: parts))) [SLASH] = true) as -> by (apply bytes_eqb_refl).
  cbn [negb]. rewrite Z.eqb_refl. rewrite split_on_join; [|done|].
  - change (fold_res inner_part [] ([] :: part :: parts)) with (fold_res inner_part [] (part :: parts)). by rewrite inner_parts_plain.
  - eapply Forall_impl; [exact Hall|]. by intros p (_ & _ & Hs & _).
Qed.

Lemma safe_normalized path : safe (normalized_inner_path path).
Proof. unfold safe, normalized_inner_path. wp_step. eapply wp_mono; [|apply wp_normalize_inner_path]. by intros parts _. Qed.

Lemma wp_path_error {A} path what (P : A -> Prop) : wp (path_error path what) P.
Proof. unfold path_error. apply wp_bind. eapply wp_mono; [|apply safe_normalized]. done. Qed.

Lemma safe_path_error {A} path what : safe (path_error (A := A) path what).
Proof. apply wp_path_error. Qed.

(** ** The target *)

(** What has been written so far. *)
Record target_at (target : ExtractionTarget) (c : list Z) : Prop := {
  ta_file : file_ok (et_file target);
  ta_len : file_len (et_file target) <= len c;
  ta_reads : same_reads (et_file target) (byte_at c);
  ta_digest : et_digest target = c;
  ta_offset : et_offset target = len c;
}.

Lemma target_new : target_at ExtractionTarget_new [].
Proof. by repeat split. Qed.

Section target.
Context `{OsLaws}.

Lemma wp_target_write target c bytes :
  target_at target c -> bytes_ok bytes -> len c <= U64_MAX -> wp (target_write target bytes) (fun target' =>
    target_at target' (c ++ bytes) /\ len c + len bytes <= U64_MAX).
Proof.
  intros [Hf Hl Hr Hd Ho] Hb Hc. pose proof (len_nonneg c). pose proof (len_nonneg bytes). unfold target_write. rewrite Ho, Hd.
  apply wp_bind. eapply wp_mono; [|apply wp_sparse_write_extent; [done|done|u64]]. intros file (Hf' & Hl' & Hr').
  apply wp_bind, wp_ok_or. intros offset [Hle ->]%checked_add_Some. apply wp_Ok. split; [|done]. split; cbn; [done| | |done|by rewrite len_app].
  - rewrite len_app. lia.
  - intros i Hi. rewrite Hr' by done. unfold over. rewrite byte_at_app by done.
    destruct (Z.ltb_spec i (len c)); [rewrite (proj2 (Z.leb_gt (len c) i)) by lia; by apply Hr|].
    rewrite (proj2 (Z.leb_le (len c) i)) by lia. cbn [andb]. destruct (Z.ltb_spec i (len c + len bytes)); [done|].
    unfold same_reads in Hr. rewrite Hr by done. rewrite !byte_at_out by lia. done.
Qed.

Lemma wp_target_finish target c : target_at target c -> wp (target_finish target (len c)) (fun '(file, digest) => contents file = c /\ digest = c).
Proof.
  intros [Hf Hl Hr Hd Ho]. unfold target_finish. rewrite Ho, Z.eqb_refl. cbn [negb]. apply wp_bind. pose proof (len_nonneg c).
  eapply wp_mono; [|apply wp_set_len; [done|done]]. intros file (_ & Hl' & _ & Hr'). apply wp_Ok. split; [|done].
  apply contents_ext; [done|]. intros i Hi. unfold same_reads, reads in *. rewrite Hr' by done.
  destruct (Z.ltb_spec i (len c)); [by apply Hr|]. symmetry. apply byte_at_out. lia.
Qed.
End target.

(** ** Reading on *)

Section streams.
Context {V : Type} `{ReadSeek V}.

Lemma read_exact_at_loop `{!ReadSeekAt V} fuel : forall v c p n,
  st_at v c p -> 0 <= p -> 0 <= n <= Z.of_nat fuel -> p + n <= len c -> read_exact_loop fuel v n = Ok (ztake n (zdrop p c)).
Proof.
  induction fuel as [|fuel IH]; intros v c p n Hv Hp Hn Hin; cbn [read_exact_loop];
    (destruct (Z.eqb_spec n 0) as [->|Hnz]; [by rewrite ztake_0 by lia|]); [lia|].
  destruct (st_read_at v c p n Hv ltac:(lia) ltac:(lia)) as (k & v' & -> & Hk & Hkin & Hpos & Hv'). specialize (Hpos ltac:(lia) ltac:(lia)).
  cbn [bind]. assert (len (ztake k (zdrop p c)) = k) as -> by (rewrite len_ztake, len_zdrop; lia).
  rewrite (proj2 (Z.eqb_neq k 0)) by lia. rewrite (IH v' c (p + k)) by (done || lia). cbn [bind]. f_equal.
  rewrite <- zdrop_zdrop by lia. replace n with (k + (n - k)) at 2 by lia. by rewrite ztake_add by lia.
Qed.

Context `{OsLaws}.

Lemma wp_stream_copy_at `{!ReadSeekAt V} fuel : forall v c p target,
  st_at v c p -> 0 <= p <= len c -> bytes_ok c -> len c <= U64_MAX -> target_at target (ztake p c) -> len c - p < Z.of_nat fuel ->
  wp (stream_copy fuel v target) (fun target' => target_at target' c).
Proof.
  induction fuel as [|fuel IH]; intros v c p target Hv Hp Hc Hl Ht Hf; [lia|]. cbn [stream_copy].
  destruct (st_read_at v c p COPY_BUFFER_SIZE Hv Hp ltac:(done)) as (k & v' & -> & Hk & Hkin & Hpos & Hv'). cbn [bind].
  assert (len (ztake k (zdrop p c)) = k) as -> by (rewrite len_ztake, len_zdrop; lia).
  destruct (Z.eqb_spec k 0) as [->|Hk0].
  - apply wp_Ok. assert (p = len c) as ->; [|by rewrite ztake_all in Ht by lia].
    destruct (Z.lt_ge_cases p (len c)) as [Hlt|]; [|lia]. specialize (Hpos ltac:(done) Hlt). lia.
  - apply wp_bind. eapply wp_mono; [|apply wp_target_write; [exact Ht|auto with zse|rewrite len_ztake; lia]].
    intros target' [Ht' _]. rewrite ztake_add in Ht' by lia. apply (IH v' c (p + k)); (done || lia).
Qed.

Lemma wp_stream_copy `{!ReadSeekSafe V} fuel : forall v c target,
  st_left v < Z.of_nat fuel -> len c + st_left v <= 2 * U64_MAX -> target_at target c -> len c <= U64_MAX ->
  wp (stream_copy fuel v target) (fun target' => exists c', target_at target' c').
Proof.
  induction fuel as [|fuel IH]; intros v c target Hf Hsum Ht Hc; [pose proof (st_left_range v); lia|]. cbn [stream_copy].
  apply wp_bind. eapply wp_mono; [|by apply (st_read_safe v)]. intros [bytes v'] (Hn & Hb & Hleft). pose proof (len_nonneg bytes).
  apply wp_if; intros Hz; b2p; [apply wp_Ok; by eexists|].
  apply wp_bind. eapply wp_mono; [|by apply wp_target_write]. intros target' [Ht' Hle]. apply (IH v' (c ++ bytes)); [lia|rewrite len_app; lia|done|rewrite len_app; lia].
Qed.
End streams.

(** ** A file of a volume *)

Section files.
Context `{InnerCrates}.

(** A FAT file reads as [c]. *)
Definition fat_reads (fs : FatFs) (id : FileId) (c : list Z) : Prop :=
  forall offset n, 0 <= offset -> 0 < n -> offset < len c ->
    exists k, fat_read_at fs id offset n = Ok (ztake k (zdrop offset c)) /\ 0 < k <= n /\ offset + k <= len c.

Definition fat_family (kind : FilesystemKind) : Prop := kind <> Ntfs /\ kind <> Ext4.

(** The file system holds [c] under a path: what the crates say of the file at the
    end of the path, a compressed stream unit by unit. *)
Inductive holds `{!ReadSeekAt NtfsValue} `{!ReadSeekAt Ext4File} (source : ImageRead) (path : list Z) (c : list Z) : FilesystemKind -> Prop :=
| holds_fat kind fs id : fat_family kind ->
    open_fat source = Ok fs -> resolve_fat fs path = Ok id -> fat_meta fs id = Ok {| fm_is_dir := false; fm_size := len c |} ->
    fat_reads fs id c -> holds source path c kind
| holds_ntfs ntfs file item attribute value :
    open_ntfs source = Ok ntfs -> resolve_ntfs ntfs source path = Ok file -> ntfs_is_directory file = false ->
    ntfs_data source file = Ok (item, attribute) -> ntfs_compressed attribute = false -> da_value_length attribute = len c ->
    attribute_value item source = Ok value -> value_len value = len c -> st_at value c 0 -> holds source path c Ntfs
| holds_compressed ntfs file item attribute stream :
    open_ntfs source = Ok ntfs -> resolve_ntfs ntfs source path = Ok file -> ntfs_is_directory file = false ->
    ntfs_data source file = Ok (item, attribute) -> ntfs_compressed attribute = true -> da_value_length attribute = len c ->
    open_compressed source file = Ok stream -> cs_length stream = len c ->
    (forall i, 0 <= i < len c -> content_byte (H := image_disk source) stream i = Ok (byte_at c i)) -> holds source path c Ntfs
| holds_ext4 fs file :
    open_ext4 source = Ok fs -> symlink_metadata fs path = Ok {| em_type := Ext4Regular; em_len := len c |} ->
    ext4_open_file fs path = Ok file -> st_at file c 0 -> holds source path c Ext4.

(** *** FAT *)

Lemma fat_fill_reads fs id c fuel : forall offset complete n,
  fat_reads fs id c -> 0 <= offset -> 0 <= complete <= n -> n - complete <= Z.of_nat fuel -> offset + n <= len c -> len c <= U64_MAX ->
  fat_fill fuel fs id offset complete n = Ok (ztake (n - complete) (zdrop (offset + complete) c)).
Proof.
  induction fuel as [|fuel IH]; intros offset complete n Hr Ho Hc Hf Hin Hl; cbn [fat_fill];
    (destruct (Z.leb_spec n complete) as [Hle|Hlt]; [by rewrite (ztake_0 (n - complete)) by lia|]); [lia|].
  unfold add. rewrite (proj2 (Z.leb_le (offset + complete) U64_MAX)) by lia. cbn [bind].
  destruct (Hr (offset + complete) (n - complete)) as (k & -> & Hk & Hkin); [lia|lia|lia|]. cbn [bind].
  assert (len (ztake k (zdrop (offset + complete) c)) = k) as -> by (rewrite len_ztake, len_zdrop; lia).
  rewrite (proj2 (Z.eqb_neq k 0)) by lia. rewrite IH by (done || lia). cbn [bind]. f_equal.
  replace (offset + (complete + k)) with (offset + complete + k) by lia.
  replace (zdrop (offset + complete + k) c) with (zdrop k (zdrop (offset + complete) c)) by (rewrite zdrop_zdrop by lia; f_equal; lia).
  replace (n - complete) with (k + (n - (complete + k))) by lia. by rewrite ztake_add by lia.
Qed.

Context `{OsLaws}.

Lemma wp_fat_copy_reads fs id c fuel : forall offset target,
  fat_reads fs id c -> bytes_ok c -> len c <= U64_MAX -> 0 <= offset <= len c -> len c - offset <= Z.of_nat fuel ->
  target_at target (ztake offset c) -> wp (fat_copy fuel fs id (len c) offset target) (fun target' => target_at target' c).
Proof.
  induction fuel as [|fuel IH]; intros offset target Hr Hb Hl Ho Hf Ht; cbn [fat_copy];
    (destruct (Z.leb_spec (len c) offset) as [Hle|Hlt]; [apply wp_Ok; by rewrite ztake_all in Ht by lia|]); [lia|].
  apply wp_bind, wp_sub; [lia|]. set (wanted := Z.min (len c - offset) COPY_BUFFER_SIZE).
  assert (0 < wanted <= len c - offset) as Hw by (unfold wanted, COPY_BUFFER_SIZE; lia). rewrite usize_try_from_u64 by u64. cbn [ok_or bind].
  destruct (Hr offset wanted) as (k & -> & Hk & Hkin); [lia|lia|lia|]. cbn [bind].
  assert (len (ztake k (zdrop offset c)) = k) as Hkl by (rewrite len_ztake, len_zdrop; lia). rewrite Hkl, (proj2 (Z.eqb_neq k 0)) by lia.
  apply wp_bind. eapply wp_mono; [|apply wp_target_write; [exact Ht|auto with zse|rewrite len_ztake; lia]].
  intros target' [Ht' _]. rewrite ztake_add in Ht' by lia. apply wp_bind, wp_add; [lia|]. apply IH; (done || lia).
Qed.

(** *** NTFS *)

Lemma wp_cursor_read_exact fuel : forall c n,
  cursor_ok c -> 0 <= n <= Z.of_nat fuel -> n <= ISIZE_MAX -> wp (read_exact_loop fuel c n) (fun bytes => len bytes = n /\ bytes_ok bytes).
Proof.
  induction fuel as [|fuel IH]; intros c n Hc Hn Hi; cbn [read_exact_loop];
    (destruct (Z.eqb_spec n 0) as [->|Hnz]; [by apply wp_Ok|]); [lia|].
  apply wp_bind. eapply wp_mono; [|apply (wp_SourceCursor_read c n Hc); lia]. intros [bytes c'] (Hl & Hb & Hc' & _).
  destruct (Z.eqb_spec (len bytes) 0) as [|Hz]; [apply wp_Err|]. pose proof (len_nonneg bytes).
  apply wp_bind. eapply wp_mono; [|apply (IH c'); [done|lia|lia]]. intros rest [Hrl Hrb]. apply wp_Ok. split; [rewrite len_app; lia|]. by apply Forall_app.
Qed.

Lemma image_disk_laws source : image_ok source -> DiskLaws (H := image_disk source).
Proof.
  intros Hi. split. intros p n Hp Hn. unfold disk_read, image_disk, st_seek, cursor_stream.
  apply wp_bind, wp_bind. assert (cursor_ok (SourceCursor_new source)) as Hc by (destruct Hi as [? ?]; split; [by split|cbn; u64]).
  eapply wp_mono; [|by apply wp_SourceCursor_seek]. intros [next c] (Hc' & _). apply wp_Ok.
  unfold read_exact. apply wp_cursor_read_exact; [done|lia|lia].
Qed.

Section compressed.
Variable source : ImageRead.
Hypothesis Hsource : image_ok source.
#[local] Instance source_disk : DiskLaws (H := image_disk source) := image_disk_laws source Hsource.

Lemma compressed_reads (s : CompressedStream) c offset n :
  stream_ok s -> coherent (H := image_disk source) s -> cs_length s = len c ->
  (forall i, 0 <= i < len c -> content_byte (H := image_disk source) s i = Ok (byte_at c i)) -> 0 <= offset -> 0 <= n -> offset + n <= len c ->
  exists s', NtfsStream.read_exact_at (H := image_disk source) s offset n = (Ok (ztake n (zdrop offset c)), s') /\
    recached s s' /\ coherent (H := image_disk source) s'.
Proof.
  intros Hok Hco Hl Hc Ho Hn Hin.
  pose proof (read_exact_post (H := image_disk source) s offset n Hok Hco Ho Hn ltac:(lia)) as Hpost.
  destruct (NtfsStream.read_exact_at s offset n) as [[bytes|e| |] s']; destruct Hpost as [Hr Hpost]; [|exfalso|done..].
  2: { destruct Hpost as (i & Hi & He). rewrite Hc in He by lia. done. }
  destruct Hpost as (Hco' & Hbl & Hbytes). exists s'. split; [|done]. do 2 f_equal. apply contents_ext; [rewrite len_ztake, len_zdrop; lia|].
  intros i Hi. destruct (Z.lt_ge_cases i n) as [Hlt|Hge].
  - specialize (Hbytes i ltac:(lia)). rewrite Hc in Hbytes by lia. injection Hbytes as <-.
    rewrite byte_at_ztake, byte_at_zdrop by lia. done.
  - rewrite !byte_at_out; [done|rewrite len_ztake; lia|lia].
Qed.

Lemma wp_compressed_copy (s : CompressedStream) c fuel : forall s' offset target,
  stream_ok s -> cs_length s = len c -> (forall i, 0 <= i < len c -> content_byte (H := image_disk source) s i = Ok (byte_at c i)) ->
  bytes_ok c -> recached s s' -> coherent (H := image_disk source) s' -> 0 <= offset <= len c -> len c - offset <= Z.of_nat fuel ->
  target_at target (ztake offset c) -> wp (compressed_copy fuel source s' (len c) offset target) (fun target' => target_at target' c).
Proof.
  intros s' offset target Hok Hl Hc Hb. revert s' offset target.
  assert (cs_length s <= U64_MAX) as Hu by apply Hok.
  induction fuel as [|fuel IH]; intros s' offset target Hr Hco Ho Hf Ht; cbn [compressed_copy];
    (destruct (Z.leb_spec (len c) offset) as [Hle|Hlt]; [apply wp_Ok; by rewrite ztake_all in Ht by lia|]); [lia|].
  apply wp_bind, wp_sub; [lia|]. set (count := Z.min (len c - offset) COPY_BUFFER_SIZE). cbv zeta.
  assert (0 < count <= len c - offset) as Hw by (unfold count, COPY_BUFFER_SIZE; lia).
  destruct (compressed_reads s' c offset count) as (s'' & -> & Hr' & Hco'); try done; try lia.
  { by apply (recached_ok s). } { destruct Hr as [-> _]. done. } { intros i Hi. rewrite (recached_content s s') by done. by apply Hc. }
  cbn [bind]. apply wp_bind. eapply wp_mono; [|apply wp_target_write; [exact Ht|auto with zse|rewrite len_ztake; lia]].
  intros target' [Ht' _]. rewrite ztake_add in Ht' by lia. apply wp_bind, wp_add; [lia|].
  apply IH; [by eapply recached_trans|done|lia|lia|done].
Qed.
End compressed.

(** *** What is held is read and copied *)

Context `{!InnerLaws} `{!ReadSeekAt NtfsValue} `{!ReadSeekAt Ext4File}.

Lemma open_compressed_ok source file : image_ok source -> wp (open_compressed source file) (fun s => stream_ok s /\ cs_cached_unit s = None).
Proof. intros Hi. apply wp_open; [apply cluster_size_u32|by apply attributes_raw_ok]. Qed.

Lemma holds_length source path c kind : holds source path c kind -> inner_file_length source kind path = Ok (len c).
Proof.
  intros Hh. destruct Hh as [kind fs id Hk Ho Hr Hm Hc|ntfs file item attribute value Ho Hr Hd Hdata _ Hl _ _ _|
    ntfs file item attribute stream Ho Hr Hd Hdata _ Hl _ _ _|fs file Ho Hm _ _].
  - assert (inner_file_length source kind path = inner_file_length source Fat12 path) as -> by (destruct Hk; by destruct kind).
    cbn [inner_file_length]. rewrite Ho. cbn [bind]. rewrite Hr. cbn [bind]. by rewrite Hm.
  - cbn [inner_file_length]. rewrite Ho. cbn [bind]. rewrite Hr. cbn [bind]. rewrite Hd, Hdata. cbn [bind]. by rewrite Hl.
  - cbn [inner_file_length]. rewrite Ho. cbn [bind]. rewrite Hr. cbn [bind]. rewrite Hd, Hdata. cbn [bind]. by rewrite Hl.
  - cbn [inner_file_length]. rewrite Ho. cbn [bind]. by rewrite Hm.
Qed.

Lemma holds_read source path c kind offset n :
  image_ok source -> holds source path c kind -> len c <= U64_MAX -> 0 <= offset -> 0 <= n -> offset + n <= len c ->
  read_inner_file_exact_at source kind path offset n = Ok (ztake n (zdrop offset c)).
Proof.
  intros Hi Hh Hl Ho Hn Hin. destruct Hh as [kind fs id Hk Hfs Hr Hm Hc|ntfs file item attribute value Hfs Hr Hd Hdata Hcomp Hlen Hv Hvl Hat|
    ntfs file item attribute stream Hfs Hr Hd Hdata Hcomp Hlen Hs Hsl Hc|fs file Hfs Hm Hf Hat].
  - assert (read_inner_file_exact_at source kind path offset n = read_inner_file_exact_at source Fat12 path offset n) as ->
      by (destruct Hk; by destruct kind).
    cbn [read_inner_file_exact_at]. rewrite Hfs. cbn [bind]. rewrite Hr. cbn [bind]. rewrite (fat_fill_reads fs id c) by (done || lia).
    by rewrite Z.sub_0_r, Z.add_0_r.
  - cbn [read_inner_file_exact_at]. rewrite Hfs. cbn [bind]. rewrite Hr. cbn [bind]. rewrite Hdata. cbn [bind]. rewrite Hcomp, Hv. cbn [bind].
    destruct (st_seek_at value c 0 offset Hat) as (v & -> & Hv'); [lia|]. cbn [bind]. unfold Inner.read_exact. by rewrite (read_exact_at_loop _ v c offset) by (done || lia).
  - cbn [read_inner_file_exact_at]. rewrite Hfs. cbn [bind]. rewrite Hr. cbn [bind]. rewrite Hdata. cbn [bind]. rewrite Hcomp, Hs. cbn [bind].
    pose proof (wp_value _ _ _ (open_compressed_ok source file Hi) Hs) as [Hok Hcu].
    destruct (compressed_reads source Hi stream c offset n) as (s' & -> & _); try done. unfold coherent. by rewrite Hcu.
  - cbn [read_inner_file_exact_at]. rewrite Hfs. cbn [bind]. rewrite Hf. cbn [bind].
    destruct (st_seek_at file c 0 offset Hat) as (v & -> & Hv'); [lia|]. cbn [bind]. unfold Inner.read_exact. by rewrite (read_exact_at_loop _ v c offset) by (done || lia).
Qed.

Lemma resolve_fat_normalized fs path normalized : normalized_inner_path path = Ok normalized -> resolve_fat fs path = resolve_fat fs normalized.
Proof. intros Hn. unfold resolve_fat. by rewrite (normalize_normalized _ _ Hn). Qed.

Lemma resolve_ntfs_normalized ntfs source path normalized :
  normalized_inner_path path = Ok normalized -> resolve_ntfs ntfs source path = resolve_ntfs ntfs source normalized.
Proof. intros Hn. unfold resolve_ntfs. by rewrite (normalize_normalized _ _ Hn). Qed.

Lemma wp_extract_holds fuel source path normalized c kind :
  image_ok source -> normalized_inner_path path = Ok normalized -> holds source normalized c kind -> bytes_ok c -> len c <= U64_MAX ->
  len c < Z.of_nat fuel ->
  wp (extract_inner_file fuel source kind path) (fun '(file, digest, n) => contents file = c /\ digest = c /\ n = len c).
Proof.
  intros Hi Hn Hh Hb Hl Hf. pose proof (len_nonneg c). unfold extract_inner_file. apply wp_bind.
  apply (wp_mono _ (fun '(target, n) => target_at target c /\ n = len c)).
  { intros [target n] [Ht ->]. apply wp_bind. eapply wp_mono; [|by apply wp_target_finish]. intros [file digest] [? ?]. by apply wp_Ok. }
  assert (target_at ExtractionTarget_new (ztake 0 c)) as Hnew by (rewrite ztake_0 by lia; apply target_new).
  destruct Hh as [kind fs id Hk Hfs Hr Hm Hc|ntfs file item attribute value Hfs Hr Hd Hdata Hcomp Hlen Hv Hvl Hat|
    ntfs file item attribute stream Hfs Hr Hd Hdata Hcomp Hlen Hs Hsl Hc|fs file Hfs Hm Hfile Hat].
  - assert (extract_inner fuel source kind path ExtractionTarget_new = extract_fat source path ExtractionTarget_new) as ->
      by (destruct Hk; by destruct kind).
    unfold extract_fat. rewrite Hfs. cbn [bind]. rewrite (resolve_fat_normalized _ _ _ Hn), Hr. cbn [bind]. rewrite Hm. cbn [bind fm_is_dir fm_size].
    apply wp_bind. eapply wp_mono; [|apply (wp_fat_copy_reads fs id c); (done || lia)]. intros target Ht. by apply wp_Ok.
  - cbn [extract_inner]. unfold extract_ntfs. rewrite Hfs. cbn [bind]. rewrite (resolve_ntfs_normalized _ _ _ _ Hn), Hr. cbn [bind].
    rewrite Hd, Hdata. cbn [bind]. rewrite Hcomp, Hv. cbn [bind].
    apply wp_bind. eapply wp_mono; [|apply (wp_stream_copy_at fuel value c 0); (done || lia)]. intros target Ht. by apply wp_Ok.
  - cbn [extract_inner]. unfold extract_ntfs. rewrite Hfs. cbn [bind]. rewrite (resolve_ntfs_normalized _ _ _ _ Hn), Hr. cbn [bind].
    rewrite Hd, Hdata. cbn [bind]. rewrite Hcomp, Hs. cbn [bind]. cbv zeta. rewrite Hsl.
    pose proof (wp_value _ _ _ (open_compressed_ok source file Hi) Hs) as [Hok Hcu].
    apply wp_bind. eapply wp_mono; [|apply (wp_compressed_copy source Hi stream c); try done; try lia; [apply recached_refl|unfold coherent; by rewrite Hcu]].
    intros target Ht. by apply wp_Ok.
  - cbn [extract_inner]. unfold extract_ext4. rewrite Hfs. cbn [bind]. rewrite Hn. cbn [bind]. rewrite Hm. cbn [bind em_type]. rewrite Hfile. cbn [bind].
    apply wp_bind. eapply wp_mono; [|apply (wp_stream_copy_at fuel file c 0); (done || lia)]. intros target Ht. by apply wp_Ok.
Qed.
End files.

(** The disk of a session, and volumes of it that can be sliced. *)
Record session_ok (self : InceptionSession) : Prop := {
  so_source : image_ok (se_source self);
  so_volumes : Forall (fun volume => 0 <= vi_offset volume /\ 0 <= vi_length volume) (se_volumes self);
}.

Lemma select_volume_in self selector volume : select_volume self selector = Ok volume -> volume ∈ se_volumes self.
Proof.
  unfold select_volume. destruct selector as [s|].
  - destruct (List.find _ _) as [v|] eqn:Hf; [|done]. intros [= <-]. apply List.find_some in Hf as [Hin _]. by apply list_elem_of_In.
  - destruct (List.filter _ _) as [|v [|]] eqn:Hf; try done. intros [= <-].
    assert (List.In v [v]) as Hin by (by left). rewrite <- Hf in Hin. apply List.filter_In in Hin as [Hin _]. by apply list_elem_of_In.
Qed.

Section safe.
Context `{InnerCrates} `{!InnerLaws}.

Section source.
Variable source : ImageRead.
Hypothesis Hsource : image_ok source.

(** ** Listing *)

Lemma safe_open_fat : safe (open_fat source).
Proof. unfold safe, open_fat. apply wp_with_context. by apply fat_open_safe. Qed.

Lemma safe_resolve_fat fs path : safe (resolve_fat fs path).
Proof.
  apply safe_bind; [eapply wp_mono; [|apply wp_normalize_inner_path]; done|]. intros parts _. apply wp_fold_res; [|done].
  intros current component _ _. apply safe_bind; [apply fat_lookup_safe|]. intros [exact|] _; [done|].
  apply safe_bind; [apply fat_read_dir_safe|]. intros nodes _. cbv zeta. by repeat case_match.
Qed.

Lemma wp_fat_meta fs id : safe (fat_meta fs id).
Proof. eapply wp_mono; [|apply fat_meta_wp]. done. Qed.

Lemma safe_list_fat path : safe (list_fat source path).
Proof.
  apply safe_bind; [apply safe_open_fat|]. intros fs _. apply safe_bind; [apply safe_resolve_fat|]. intros id _.
  apply safe_bind; [apply wp_fat_meta|]. intros meta _. case_match; [apply safe_path_error|].
  apply safe_bind; [apply fat_read_dir_safe|]. done.
Qed.

Lemma safe_open_ntfs : safe (open_ntfs source).
Proof.
  destruct (ntfs_open_safe source Hsource) as [Hn Hu]. unfold safe, open_ntfs. apply wp_bind, wp_with_context. eapply wp_mono; [|exact Hn].
  intros ntfs _. apply wp_with_context. apply Hu.
Qed.

Lemma safe_resolve_ntfs ntfs path : safe (resolve_ntfs ntfs source path).
Proof.
  destruct (ntfs_open_safe source Hsource) as [_ Hu]. apply safe_bind; [apply Hu|]. intros root _.
  apply safe_bind; [eapply wp_mono; [|apply wp_normalize_inner_path]; done|]. intros parts _. apply wp_fold_res; [|done].
  intros current component _ _. destruct (ntfs_find_safe source Hsource current) as [Hi Hf].
  apply safe_bind; [done|]. intros index _. apply safe_bind; [apply Hf|]. intros entry _. by apply Hf.
Qed.

Lemma safe_ntfs_entry entries entry : safe entry -> safe (ntfs_entry entries entry).
Proof.
  intros He. apply safe_bind; [done|]. intros e _. pose proof (ntfs_key_safe e (Foreign "")) as Hkey. destruct (entry_key e) as [key|]; [|done].
  apply safe_bind; [done|]. intros key' _. by case_match.
Qed.

Lemma safe_list_ntfs path : safe (list_ntfs source path).
Proof.
  apply safe_bind; [apply safe_open_ntfs|]. intros ntfs _. apply safe_bind; [apply safe_resolve_ntfs|]. intros directory _.
  case_match; [apply safe_path_error|]. destruct (ntfs_find_safe source Hsource directory) as [Hi _].
  apply safe_bind; [done|]. intros index _. apply wp_fold_res; [|done]. intros entries entry Hin _. apply safe_ntfs_entry.
  pose proof (ntfs_entries_safe source index Hsource) as Hall. rewrite Forall_forall in Hall. by apply Hall.
Qed.

Lemma safe_open_ext4 : safe (open_ext4 source).
Proof. unfold safe, open_ext4. apply wp_with_context. by apply ext4_load_safe. Qed.

Lemma safe_symlink_metadata fs path : safe (symlink_metadata fs path).
Proof. eapply wp_mono; [|apply symlink_metadata_wp]. done. Qed.

Lemma safe_list_ext4 path : safe (list_ext4 source path).
Proof.
  apply safe_bind; [apply safe_open_ext4|]. intros fs _. apply safe_bind; [apply safe_normalized|]. intros normalized _.
  apply safe_bind; [apply safe_symlink_metadata|]. intros metadata _. case_match; try done.
  unfold safe. apply wp_bind. eapply wp_mono; [|apply ext4_read_dir_wp]. intros entries Hall. apply wp_bind.
  eapply (wp_mono _ (fun _ => True)); [|apply wp_fold_res; [|done]]; [done|]. intros acc entry Hin _.
  rewrite Forall_forall in Hall. unfold ext4_entry. apply wp_bind. eapply wp_mono; [|by apply Hall]. intros e [Ht Hm].
  apply wp_if; intros _; [apply wp_Err|]. cbv zeta. apply wp_if; intros _; [by apply wp_Ok|].
  apply wp_bind. eapply wp_mono; [|exact Ht]. intros t _. apply wp_bind. eapply wp_mono; [|exact Hm]. intros m _. by apply wp_Ok.
Qed.

Lemma safe_list_inner kind path : safe (list_inner source kind path).
Proof. destruct kind; [apply safe_list_ntfs|apply safe_list_fat..|apply safe_list_ext4]. Qed.

(** ** Extraction *)

Context `{OsLaws}.

(** Something has been written, and its length is a u64. *)
Definition copied (target : ExtractionTarget) : Prop := exists c, target_at target c /\ len c <= U64_MAX.

Lemma wp_copied_write target bytes : copied target -> bytes_ok bytes -> wp (target_write target bytes) copied.
Proof.
  intros (c & Ht & Hc) Hb. eapply wp_mono; [|by apply wp_target_write]. intros target' [Ht' Hle]. eexists. split; [done|]. rewrite len_app. lia.
Qed.

Lemma wp_fat_copy fs id size fuel : forall offset target,
  is_u64 size -> 0 <= offset -> size - offset <= Z.of_nat fuel -> copied target -> wp (fat_copy fuel fs id size offset target) copied.
Proof.
  induction fuel as [|fuel IH]; intros offset target Hs Ho Hf Ht; cbn [fat_copy];
    (destruct (Z.leb_spec size offset) as [Hle|Hlt]; [by apply wp_Ok|]); [lia|].
  apply wp_bind, wp_sub; [lia|]. set (wanted := Z.min (size - offset) COPY_BUFFER_SIZE).
  assert (0 < wanted <= size - offset) as Hw by (unfold wanted, COPY_BUFFER_SIZE; lia). rewrite usize_try_from_u64 by u64. cbn [ok_or bind].
  apply wp_bind. eapply wp_mono; [|apply fat_read_wp; u64]. intros bytes [Hl Hb]. pose proof (len_nonneg bytes).
  destruct (Z.eqb_spec (len bytes) 0) as [|Hnz]; [apply wp_Err|].
  apply wp_bind. eapply wp_mono; [|by apply wp_copied_write]. intros target' Ht'. apply wp_bind, wp_add; [u64|]. apply IH; (done || lia).
Qed.

Lemma wp_copy_stream {V} `{!ReadSeek V} `{!ReadSeekSafe V} fuel : forall (v : V) target,
  st_left v < Z.of_nat fuel -> copied target -> wp (stream_copy fuel v target) copied.
Proof.
  induction fuel as [|fuel IH]; intros v target Hf Ht; [pose proof (st_left_range v); lia|]. cbn [stream_copy].
  apply wp_bind. eapply wp_mono; [|by apply (st_read_safe v)]. intros [bytes v'] (_ & Hb & Hleft). pose proof (len_nonneg bytes).
  destruct (Z.eqb_spec (len bytes) 0) as [|Hnz]; [by apply wp_Ok|].
  apply wp_bind. eapply wp_mono; [|by apply wp_copied_write]. intros target' Ht'. apply IH; [lia|done].
Qed.

Lemma wp_copy_compressed fuel : forall (s : CompressedStream) offset target,
  stream_ok s -> coherent (H := image_disk source) s -> 0 <= offset -> cs_length s - offset <= Z.of_nat fuel -> copied target ->
  wp (compressed_copy fuel source s (cs_length s) offset target) copied.
Proof.
  pose proof (image_disk_laws source Hsource) as Hdisk.
  induction fuel as [|fuel IH]; intros s offset target Hok Hco Ho Hf Ht; cbn [compressed_copy];
    (destruct (Z.leb_spec (cs_length s) offset) as [Hle|Hlt]; [by apply wp_Ok|]); [lia|].
  assert (is_u64 (cs_length s)) as Hu by apply Hok. apply wp_bind, wp_sub; [lia|]. cbv zeta.
  set (count := Z.min (cs_length s - offset) COPY_BUFFER_SIZE).
  assert (0 < count <= cs_length s - offset) as Hw by (unfold count, COPY_BUFFER_SIZE; lia).
  pose proof (read_exact_post (H := image_disk source) s offset count Hok Hco Ho ltac:(lia) ltac:(lia)) as Hpost.
  destruct (NtfsStream.read_exact_at s offset count) as [[bytes|e| |] s']; [|apply wp_Err|by destruct Hpost..]. cbn [bind].
  pose proof (read_post_bytes (H := image_disk source) s offset count s' bytes Hok Ho Hpost) as Hb. destruct Hpost as (Hr & Hco' & _).
  apply wp_bind. eapply wp_mono; [|by apply wp_copied_write]. intros target' Ht'. apply wp_bind, wp_add; [u64|].
  assert (cs_length s = cs_length s') as Hl by (destruct Hr as [-> _]; done). rewrite Hl. apply IH; [by apply (recached_ok s)|done|lia|clearbody count; lia|done].
Qed.

(** Fuel beyond any file's length. *)
Variable fuel : nat.
Hypothesis Hfuel : U64_MAX < Z.of_nat fuel.

Lemma safe_ntfs_data file : wp (ntfs_data source file) (fun _ => True).
Proof.
  apply safe_bind; [by apply ntfs_data_safe|]. intros item _. unfold safe. apply wp_bind. eapply wp_mono; [|apply to_attribute_wp].
  intros attribute Hl. apply safe_bind; [|done]. unfold safe, validate_ntfs_image_attribute. apply wp_bind, (wp_index (da_record attribute) 12); [cbv beta in Hl; lia|]. intros c _. by wp_steps.
Qed.

Definition extracted (r : ExtractionTarget * Z) : Prop := copied r.1 /\ is_u64 r.2.

Lemma wp_extract_fat path target : copied target -> wp (extract_fat source path target) extracted.
Proof.
  intros Ht. unfold extract_fat. apply wp_bind. eapply wp_mono; [|apply safe_open_fat]. intros fs _.
  apply wp_bind. eapply wp_mono; [|apply safe_resolve_fat]. intros id _. apply wp_bind. eapply wp_mono; [|apply fat_meta_wp]. intros meta Hm.
  case_match; [apply wp_path_error|].
  apply wp_bind. eapply wp_mono; [|apply wp_fat_copy; [done|lia|u64|done]]. intros target' Ht'. by apply wp_Ok.
Qed.

Lemma wp_extract_ntfs path target : copied target -> wp (extract_ntfs fuel source path target) extracted.
Proof.
  intros Ht. unfold extract_ntfs. apply wp_bind. eapply wp_mono; [|apply safe_open_ntfs]. intros ntfs _.
  apply wp_bind. eapply wp_mono; [|apply safe_resolve_ntfs]. intros file _. case_match; [apply wp_path_error|].
  apply wp_bind. eapply wp_mono; [|apply safe_ntfs_data]. intros [item attribute] _. apply wp_if; intros _.
  - apply wp_bind. eapply wp_mono; [|by apply open_compressed_ok]. intros s [Hok Hcu]. cbv zeta. assert (is_u64 (cs_length s)) as Hu by apply Hok.
    apply wp_bind. eapply wp_mono; [|apply wp_copy_compressed; [done|by unfold coherent; rewrite Hcu|lia|u64|done]]. intros target' Ht'. by apply wp_Ok.
  - apply wp_bind. eapply wp_mono; [|by apply ntfs_value_wp]. intros value Hv. apply wp_bind.
    pose proof (st_left_range value). eapply wp_mono; [|apply wp_copy_stream; [lia|done]]. intros target' Ht'. by apply wp_Ok.
Qed.

Lemma wp_extract_ext4 path target : copied target -> wp (extract_ext4 fuel source path target) extracted.
Proof.
  intros Ht. unfold extract_ext4. apply wp_bind. eapply wp_mono; [|apply safe_open_ext4]. intros fs _.
  apply wp_bind. eapply wp_mono; [|apply safe_normalized]. intros normalized _. apply wp_bind. eapply wp_mono; [|apply symlink_metadata_wp]. intros metadata Hm.
  case_match; try apply wp_Err. apply wp_bind. eapply wp_mono; [|apply ext4_open_safe]. intros file _. apply wp_bind.
  pose proof (st_left_range file). eapply wp_mono; [|apply wp_copy_stream; [lia|done]]. intros target' Ht'. by apply wp_Ok.
Qed.

Lemma safe_extract_inner_file kind path : safe (extract_inner_file fuel source kind path).
Proof.
  assert (copied ExtractionTarget_new) as Hnew by (exists []; by split; [apply target_new|]).
  unfold safe, extract_inner_file. apply wp_bind. eapply (wp_mono _ extracted).
  - intros [target n] [(c & [Hf _ _ _ _] & _) Hn]. cbn [fst snd] in *. apply wp_bind. unfold target_finish. apply wp_if; intros _; [apply wp_Err|].
    apply wp_bind. eapply wp_mono; [|apply wp_set_len; [done|u64]]. intros file _. by repeat apply wp_Ok.
  - destruct kind; [by apply wp_extract_ntfs|by apply wp_extract_fat..|by apply wp_extract_ext4].
Qed.
End source.
End safe.
