(* ===== verification/InnerProps.v ===== *)
(** Properties of the files inside a disk image: what a volume shows of its disk,
    a file copied out or read in place, and the extraction of a directory tree;
    first a volume for the witnesses, of crates that see one file of ten bytes in
    every volume, read in pieces of four bytes at most. *)

From stdpp Require Import sorting.
From S2P Require Import Prelude Bytes Utf8 Stream StreamFacts Compression CompressionProps NvList Encrypted EncryptedDnode EncryptedProps.
From S2P Require Import Replay Paths Extents Snapshots Selected ObjectIndex Resolve Sparse SparseFacts Operations OperationsFacts.
From S2P Require Import OperationsProps Lznt1 NtfsStream NtfsProps Image DiskImage Partitions Volumes PartitionFacts ImageProps.
From S2P Require Import PartitionProps Sources Datto HostFs Tree TreeFacts HostExtract TreeProps PoolBlocks.
From S2P Require Import PoolSource Pool PoolFile Inner InnerSession InnerFacts.
#[local] Open Scope Z_scope.
#[local] Open Scope zse_scope.

(** ** Bytes that are read in pieces *)

Definition as_bytes (l : list Z) : list Z := map (fun b => b mod 256) l.

Record ToyStream := { ts_bytes : list Z; ts_position : nat }.

Definition toy_count (size position n : Z) : Z := Z.max 0 (Z.min (Z.min 4 n) (Z.min 10 size - position)).

Definition toy_piece (l : list Z) (position n : Z) : list Z := ztake (toy_count (len l) position n) (zdrop position (as_bytes l)).

#[export] Instance toy_stream : ReadSeek ToyStream := {
  st_read v n :=
    let position := Z.of_nat (ts_position v) in
    let count := toy_count (len (ts_bytes v)) position n in
    Ok (toy_piece (ts_bytes v) position n, {| ts_bytes := ts_bytes v; ts_position := Z.to_nat (position + count) |});
  st_seek v n := Ok {| ts_bytes := ts_bytes v; ts_position := Z.to_nat n |};
}.

Lemma len_as_bytes l : len (as_bytes l) = len l.
Proof. unfold as_bytes, len. by rewrite length_map. Qed.

Lemma as_bytes_ok l : bytes_ok (as_bytes l).
Proof. apply Forall_forall. intros b (x & -> & _)%list_elem_of_fmap. pose proof (Z.mod_pos_bound x 256 ltac:(done)). unfold is_byte. lia. Qed.

Lemma toy_piece_ok l position n : 0 <= position -> 0 <= n -> len (toy_piece l position n) <= n /\ bytes_ok (toy_piece l position n).
Proof.
  intros Hp Hn. pose proof (len_nonneg l). unfold toy_piece. rewrite len_ztake, len_zdrop, len_as_bytes by (unfold toy_count; lia).
  pose proof (as_bytes_ok l). split; [unfold toy_count; lia|auto with zse].
Qed.

#[export] Instance toy_stream_safe : ReadSeekSafe ToyStream.
Proof.
  refine {| st_left v := Z.max 0 (10 - Z.of_nat (ts_position v)) |}; [intros; lia| |done].
  intros [l p] n Hn. apply wp_Ok. cbn [ts_bytes ts_position]. destruct (toy_piece_ok l (Z.of_nat p) n) as [Hl Hb]; [lia..|].
  split; [done|]. split; [done|]. unfold toy_piece. rewrite len_ztake, len_zdrop, len_as_bytes by (unfold toy_count; lia).
  unfold toy_count. pose proof (len_nonneg l). lia.
Defined.

#[export] Instance toy_stream_at : ReadSeekAt ToyStream.
Proof.
  refine {| st_at v c p := c = as_bytes (ts_bytes v) /\ p = Z.of_nat (ts_position v) /\ len c <= 10 |}.
  - intros [l q] c p n (-> & -> & Hl) Hp Hn. cbn [ts_bytes ts_position] in *. rewrite len_as_bytes in *. unfold toy_count.
    exists (toy_count (len l) (Z.of_nat q) n). eexists. split; [reflexivity|]. cbn [ts_bytes ts_position]. unfold toy_count. split_and!; (done || lia).
  - intros [l q] c p q' (-> & -> & Hl) Hq. eexists. split; [reflexivity|]. cbn [ts_bytes ts_position]. split_and!; (done || lia).
Defined.

(** ** The crates

    In every volume the file [/f] lies at byte 100, in FAT and in ext. *)

Definition toy_file_name : list Z := bytes_of_string "f".

#[export] Instance toy_inner : InnerCrates := {
  to_lowercase := map to_ascii_lowercase;
  FatFs := list Z; FileId := bool;
  FatFs_open i := image_read i 100 10;
  fat_root _ := true;
  fat_meta fs (id : bool) := Ok (if id then {| fm_is_dir := true; fm_size := 0 |} else {| fm_is_dir := false; fm_size := 10 |});
  fat_lookup _ id name := Ok (if id && bytes_eqb name toy_file_name then Some false else None);
  fat_read_dir _ id := Ok (if id : bool then [{| fn_id := false; fn_name := toy_file_name; fn_short_name := bytes_of_string "F"; fn_is_dir := false;
    fn_is_deleted := false; fn_is_volume_label := false; fn_first_cluster := 2; fn_size := 10 |}] else []);
  fat_read_at fs _ offset n := Ok (toy_piece fs offset n);
  NtfsVolume := unit; NtfsFile := unit; NtfsIndex := unit; NtfsEntry := unit; NtfsDataItem := unit; NtfsValue := ToyStream;
  Ntfs_new _ := Err (Foreign "ntfs");
  read_upcase_table _ _ := Ok tt;
  root_directory _ _ := Err (Foreign "ntfs");
  ntfs_is_directory _ := false;
  directory_index _ _ := Ok tt;
  index_find _ _ _ _ := None;
  entry_to_file _ _ _ := Ok tt;
  index_entries _ _ := [];
  entry_key _ := None;
  file_record_number _ := 0;
  file_data _ _ := None;
  to_attribute _ := Err (Foreign "ntfs");
  attribute_value _ _ := Err (Foreign "ntfs");
  value_len _ := 0;
  cluster_size _ := 4096;
  volume_size _ := 0;
  attributes_raw _ _ := [];
  Ext4Fs := list Z; Ext4File := ToyStream;
  ext4_load_fs i := image_read i 100 10;
  symlink_metadata _ path :=
    if bytes_eqb path [SLASH] then Ok {| em_type := Ext4Directory; em_len := 0 |}
    else if bytes_eqb path (SLASH :: toy_file_name) then Ok {| em_type := Ext4Regular; em_len := 10 |}
    else Err (Foreign "path not found");
  ext4_read_dir _ path :=
    if bytes_eqb path [SLASH]
    then Ok [Ok {| ee_file_name := [DOT]; ee_path := [SLASH; DOT]; ee_file_type := Ok Ext4Directory; ee_metadata := Err (Foreign "unused") |};
             Ok {| ee_file_name := toy_file_name; ee_path := SLASH :: toy_file_name; ee_file_type := Ok Ext4Regular;
                   ee_metadata := Ok {| em_type := Ext4Regular; em_len := 10 |} |}]
    else Err (Foreign "not a directory");
  ext4_open_file fs path :=
    if bytes_eqb path (SLASH :: toy_file_name) then Ok {| ts_bytes := fs; ts_position := 0 |} else Err (Foreign "path not found");
}.

#[export] Instance toy_inner_laws : InnerLaws.
Proof.
  assert (forall i, image_ok i -> safe (image_read i 100 10)) as Hread.
  { intros i Hi. unfold safe. eapply (wp_image_read i); [done|split; vm_compute; discriminate|split; vm_compute; discriminate|done]. }
  split; cbn -[toy_piece image_read as_bytes wp safe].
  - exact Hread.
  - intros fs []; apply wp_Ok; split; vm_compute; discriminate.
  - done.
  - done.
  - intros fs id offset n [Ho _] Hn. apply wp_Ok. by apply toy_piece_ok.
  - done.
  - done.
  - constructor.
  - done.
  - done.
  - intros. apply wp_Err.
  - intros. apply wp_Err.
  - intros. split; vm_compute; discriminate.
  - constructor.
  - exact Hread.
  - intros fs path. case_match; [|case_match]; [apply wp_Ok; split; vm_compute; discriminate..|apply wp_Err].
  - intros fs path. case_match; [|apply wp_Err]. apply wp_Ok. repeat constructor; done.
  - intros fs path. by case_match.
  - apply _.
  - apply _.
Qed.

(** ** A disk

    Five sectors with one MBR partition of four, an ext volume by its magic. *)
Definition inner_disk : list Z :=
  zrepeat 446 0 ++ [0; 0; 0; 0; 131; 0; 0; 0] ++ le_bytes 4 1 ++ le_bytes 4 4 ++ zrepeat 48 0 ++ [0x55; 0xaa] ++
  zrepeat 100 0 ++ [1; 2; 3; 4; 5; 6; 7; 8; 9; 10] ++ zrepeat 970 0 ++ [0x53; 0xef] ++ zrepeat 966 0.

Definition inner_session : InceptionSession :=
  match inspect_source_at (bytes_image inner_disk) [] 0 None with
  | Ok session => session
  | _ => {| se_source := bytes_image []; se_image_path := []; se_stored_size := 0; se_disk_size := 0; se_container := ContainerRaw;
            se_image_offset := 0; se_volumes := [] |}
  end.

Example inner_session_run :
  map (fun v => (vi_selector v, vi_offset v, vi_length v, vi_filesystem v)) (se_volumes inner_session) =
    [(bytes_of_string "mbr1", 512, 2048, Some Ext4)].
Proof. vm_compute. reflexivity. Qed.

(** ** What the images are

    A lazy image is the content that its segments show. *)
Lemma stream_image_of `{CodecLaws} `{Crypto} `{Crc32} image c :
  image_shows image c -> cache_ok image (im_cache image) -> bytes_ok (materialize (im_len image) c) -> 0 <= im_len image ->
  ImageOf (StreamImage_image image) (materialize (im_len image) c).
Proof.
  intros Hs Hc Hb Hl. assert (len (materialize (im_len image) c) = im_len image) as Hm by (by apply len_materialize).
  assert (im_len image <= ISIZE_MAX) as Hmax by apply Hs.
  split; [done|done|unfold ISIZE_MAX in *; lia| |]; intros offset n Ho Hn Hin; rewrite Hm in Hin; cbn [image_read StreamImage_image];
    pose proof (image_read_shows image c offset n Hs Hc Ho Hn) as Hread.
  - rewrite (proj2 (Z.leb_le _ _)) in Hread by done. destruct Hread as (image' & -> & _). cbn [bind]. f_equal.
    apply contents_ext; [rewrite len_materialize, len_ztake, len_zdrop by done; lia|]. intros i Hi. rewrite byte_at_materialize by done.
    destruct (Z.ltb_spec i n) as [Hlt|Hge].
    + rewrite byte_at_ztake, byte_at_zdrop, byte_at_materialize by lia. rewrite (proj2 (Z.ltb_lt _ _)) by lia. done.
    + symmetry. apply byte_at_out. rewrite len_ztake. lia.
  - rewrite (proj2 (Z.leb_gt _ _)) in Hread by done. destruct Hread as [e ->]. by eexists.
Qed.

Lemma inspected_ok source offset session : inspected source offset session -> session_ok session.
Proof.
  intros [_ _ _ Hin Hs _ _]. split; [done|]. eapply Forall_impl; [exact Hin|]. intros v (Ho & Hl & _). lia.
Qed.

(** ** Properties *)

(** C17: Offsets add up. Where an image is a list of bytes, inspecting a window of it
    as a raw disk succeeds only with a disk that is that window, and each of the
    volumes found is the part of the bytes behind the window's and the volume's
    offset; the image may be a local file, the lazy image of an object in a
    stream, a file of a pool, or a file inside another volume. *)
Theorem disk_volumes_show `{DiskCratesLaws} `{Crc32} source l path offset length session :
  ImageOf source l -> is_u64 offset -> match length with Some n => is_u64 n | None => True end ->
  inspect_source_at source path offset length = Ok session -> se_container session = ContainerRaw ->
  ImageOf (se_source session) (ztake (se_stored_size session) (zdrop offset l)) /\ session_ok session /\
  Forall (fun volume => exists sliced, volume_source session volume = Ok sliced /\
    ImageOf (SlicedImage_image sliced) (ztake (vi_length volume) (zdrop (offset + vi_offset volume) l))) (se_volumes session).
Proof.
  intros Hi Ho Hn Hs Hraw. pose proof Hi as [Hl Hb Hm _ _].
  pose proof (wp_value _ _ _ (wp_inspect_source_at source path offset length (image_of_ok _ _ Hi) Ho Hn) Hs) as Hins.
  pose proof (inspected_ok _ _ _ Hins) as Hok. destruct Hins as [Hsize Hdisk _ Hin _ [Hst Hwin] Hsrc]. specialize (Hsrc Hraw).
  rewrite Hsrc in Hdisk. cbn [image_len SlicedImage_image sl_len] in Hdisk. set (w := se_stored_size session) in *. rewrite Hl in Hwin.
  assert (ImageOf (se_source session) (ztake w (zdrop offset l))) as Hdisk_of by (rewrite Hsrc; apply slice_image_of; [done|u64|lia|lia]).
  split; [done|]. split; [done|]. eapply Forall_impl; [exact Hin|]. intros v (Hvo & Hvl & Hvin & _ & sliced & Hv & _). exists sliced. split; [done|].
  assert (sliced = {| sl_source := se_source session; sl_base := vi_offset v; sl_len := vi_length v |}) as ->.
  { unfold volume_source in Hv. by apply (wp_value _ _ _ (wp_SlicedImage_new (se_source session) _ _ (image_of_ok _ _ Hdisk_of) Hvo (Z.lt_le_incl _ _ Hvl))) in Hv as [_ ->]. }
  assert (len (ztake w (zdrop offset l)) = w) as Hwl by (rewrite len_ztake, len_zdrop; u64).
  pose proof (slice_image_of _ _ (vi_offset v) (vi_length v) Hdisk_of Hvo ltac:(lia) ltac:(lia)) as Hvol.
  rewrite (ztake_zdrop_comm w), zdrop_zdrop, ztake_zdrop_comm, ztake_ztake in Hvol by u64.
  rewrite (ztake_zdrop_comm (vi_length v) (offset + vi_offset v)) by u64. by rewrite Z.min_l in Hvol by lia.
Qed.

(** C18: A file inside a volume is one list of bytes, however it is read. Where the
    file system of the selected volume holds these bytes under a path (a FAT
    chain that is read in pieces, a plain or a compressed NTFS stream, an ext
    file), extraction writes exactly them and digests them, and the file as a
    disk of its own is an image of exactly them. *)
Theorem inner_file_exact `{InnerLaws} `{!ReadSeekAt NtfsValue} `{!ReadSeekAt Ext4File} `{OsLaws}
    self selector volume kind sliced path normalized c :
  session_ok self -> select_volume self selector = Ok volume -> vi_filesystem volume = Some kind -> volume_source self volume = Ok sliced ->
  normalized_inner_path path = Ok normalized -> holds (SlicedImage_image sliced) normalized c kind -> bytes_ok c -> len c <= U64_MAX ->
  (exists enough, forall fuel, (enough <= fuel)%nat ->
    wp (extract_inner_file fuel (SlicedImage_image sliced) kind path) (fun '(file, digest, n) => contents file = c /\ digest = c /\ n = len c)) /\
  exists image, child_image self volume path = Ok image /\ ImageOf (FilesystemFileImage_image image) c.
Proof.
  intros [Hsrc Hvols] Hsel Hkind Hsl Hn Hh Hb Hm.
  assert (0 <= vi_offset volume /\ 0 <= vi_length volume) as [Hvo Hvl].
  { rewrite Forall_forall in Hvols. apply Hvols. by eapply select_volume_in. }
  assert (image_ok (SlicedImage_image sliced)) as Hi.
  { apply slice_image_ok. by apply (wp_value _ _ _ (wp_SlicedImage_new (se_source self) _ _ Hsrc Hvo Hvl)) in Hsl as [? _]. }
  split.
  - exists (S (Z.to_nat (len c))). intros fuel Hf. pose proof (len_nonneg c). eapply wp_extract_holds; [done|done|done|done|done|lia].
  - unfold child_image, volume_filesystem. rewrite Hkind. cbn [ok_or bind]. rewrite Hsl. cbn [bind]. rewrite Hn. cbn [bind].
    rewrite (holds_length _ _ _ _ Hh). cbn [bind]. eexists. split; [reflexivity|].
    split; [done|done|done| |]; intros offset n Ho Hnn Hin; cbn [image_read FilesystemFileImage_image];
      unfold FilesystemFileImage_read_exact_at, checked_add; cbn [ff_len ff_source ff_filesystem ff_path].
    + rewrite (proj2 (Z.leb_le _ U64_MAX)) by lia. cbn [ok_or bind]. rewrite (proj2 (Z.ltb_ge _ _)) by lia. by apply holds_read.
    + destruct (_ <=? U64_MAX); cbn [ok_or bind]; [|by eexists]. rewrite (proj2 (Z.ltb_lt _ _)) by lia. by eexists.
Qed.

(** ** Trees *)

(** What extraction reads under a path of the selected volume. *)
Definition inner_content `{InnerCrates} `{Os} (self : InceptionSession) (fuel : nat) (selector : option (list Z)) (source : list Z)
  : option (list Z) :=
  match (let! volume := select_volume self selector in
         let! kind := volume_filesystem volume "volume {} does not contain a supported filesystem" in
         let! sliced := volume_source self volume in
         extract_inner_file fuel (SlicedImage_image sliced) kind source) with
  | Ok (file, _, _) => Some (contents file)
  | _ => None
  end.

Section tree.
Context `{InnerLaws} `{OsLaws} `{Digest} {HF : Faults} `{TempNamesLaws}.
Variable self : InceptionSession.
Hypothesis Hself : session_ok self.

Lemma selected_volume selector volume sliced :
  select_volume self selector = Ok volume -> volume_source self volume = Ok sliced -> image_ok (SlicedImage_image sliced).
Proof.
  destruct Hself as [Hsrc Hvols]. intros Hsel Hsl. rewrite Forall_forall in Hvols.
  destruct (Hvols volume) as [Ho Hl]; [by eapply select_volume_in|]. apply slice_image_ok.
  by apply (wp_value _ _ _ (wp_SlicedImage_new (se_source self) _ _ Hsrc Ho Hl)) in Hsl as [? _].
Qed.

Lemma safe_select selector : safe (select_volume self selector).
Proof. unfold select_volume, ok_or. by repeat case_match. Qed.

Lemma safe_volume_source selector volume : select_volume self selector = Ok volume -> safe (volume_source self volume).
Proof.
  destruct Hself as [Hsrc Hvols]. intros Hsel. rewrite Forall_forall in Hvols.
  destruct (Hvols volume) as [Ho Hl]; [by eapply select_volume_in|]. eapply wp_mono; [|by apply wp_SlicedImage_new]. done.
Qed.

Lemma safe_session_list selector path : safe (session_list_directory self selector path).
Proof.
  apply safe_bind; [apply safe_select|]. intros volume Hsel. apply safe_bind; [unfold volume_filesystem; by destruct (vi_filesystem volume)|].
  intros kind _. apply safe_bind; [by eapply safe_volume_source|]. intros sliced Hsl. apply safe_list_inner. by eapply selected_volume.
Qed.

Lemma inner_tree_file_ok fuel selector :
  U64_MAX < Z.of_nat fuel -> extract_ok (session_extract_file self fuel selector) (inner_content self fuel selector).
Proof.
  intros Hfuel source x d h Hst Hd. assert (changed_below d (h_store h) (h_store h)) as Hsame by done.
  unfold session_extract_file, session_extract, inner_content. apply fs_wp_bind, fs_wp_bind, fs_wp_ret.
  destruct (safe_cases _ (safe_select selector)) as [[volume Hsel]|[e Hsel]]; rewrite Hsel; [|done]. cbn [wpe bind].
  apply fs_wp_bind, fs_wp_ret. unfold volume_filesystem. destruct (vi_filesystem volume) as [kind|]; [|done]. cbn [ok_or wpe bind].
  apply fs_wp_bind, fs_wp_exists. case_bool_decide as Hx; cbn [andb negb]; [by apply fs_wp_ret|]. apply eq_None_not_Some in Hx.
  apply fs_wp_bind, fs_wp_ret. destruct (safe_cases _ (safe_volume_source _ _ Hsel)) as [[sliced Hsl]|[e Hsl]]; rewrite Hsl; [|done]. cbn [wpe bind].
  pose proof (safe_extract_inner_file _ (selected_volume _ _ _ Hsel Hsl) fuel Hfuel kind source) as Hsafe.
  eapply fs_wp_mono; [| |apply (write_replaced_spec _ x d h); [|done..]].
  - intros n h1 (_ & bytes & Hw & Hst1). apply fs_wp_ret. cbn [wpe]. split; [done|]. exists bytes. split; [|done].
    apply bind_Ok in Hw as ([[file digest] size] & -> & [= <- _]). done.
  - done.
  - apply safe_bind; [done|]. by intros [[file digest] size] _.
Qed.
End tree.

(** C19: A directory tree of a volume is extracted exactly. When extracting a
    directory of a selected volume reports success, the destination holds exactly
    the directories and regular files that listing the volume shows below that
    path, each file with the bytes that extracting it alone gives; away from the
    destination and the staging directory nothing has changed. *)
Theorem inner_tree_recovered `{InnerLaws} `{OsLaws} `{Digest} {HF : Faults} `{TempNamesLaws}
    self selector windows fuel path_ parent dn force h result h' :
  session_ok self -> U64_MAX < Z.of_nat fuel -> store_wf (h_store h) -> (forall rest, dn <> bytes_of_string ".zfse-tree-" ++ rest) ->
  session_extract_tree windows self fuel selector path_ parent dn force h = (Ok result, h') ->
  (exists tn, h_store h !! (tn :: parent) = None /\ settled parent tn dn (h_store h) (h_store h')) /\
  forall r n, h_store h' !! (r ++ dn :: parent) = Some n <->
    shows (session_list_directory self selector) (inner_content self fuel selector) path_ r n.
Proof.
  intros Hself Hfuel Hwf Hdn Hrun.
  pose proof (extraction_spec windows _ _ _ (safe_session_list self Hself selector) (inner_tree_file_ok self Hself fuel selector Hfuel)
    parent dn path_ force h Hwf Hdn) as Hspec.
  unfold session_extract_tree, fs_bind, fs_ret in Hrun. destruct (select_volume self selector) as [volume| | |]; [|done..].
  unfold fs_wp in Hspec. rewrite Hrun in Hspec. destruct Hspec as (tn & Hfresh & Hsettled & Hrec & _). split; [|done]. by exists tn.
Qed.

(** ** Concrete instances

    The disk behind a sector of something else. *)
Definition shifted_disk : list Z := zrepeat 512 9 ++ inner_disk.

Abbreviation shifted_session := (inspect_source_at (bytes_image shifted_disk) [] 512 None).

Lemma shifted_disk_image : ImageOf (bytes_image shifted_disk) shifted_disk.
Proof. apply bytes_image_of; [apply bytes_ok_dec; vm_compute; reflexivity|vm_compute; discriminate]. Qed.

Lemma disk_volumes_show_witness :
  exists session, shifted_session = Ok session /\ map vi_offset (se_volumes session) = [512] /\
  ImageOf (se_source session) (ztake (se_stored_size session) (zdrop 512 shifted_disk)) /\ session_ok session /\
  Forall (fun volume => exists sliced, volume_source session volume = Ok sliced /\
    ImageOf (SlicedImage_image sliced) (ztake (vi_length volume) (zdrop (512 + vi_offset volume) shifted_disk))) (se_volumes session).
Proof.
  assert (match shifted_session with
    | Ok s => bool_decide (map vi_offset (se_volumes s) = [512]) && match se_container s with ContainerRaw => true | _ => false end
    | _ => false end = true) as Hok by (vm_compute; reflexivity).
  destruct shifted_session as [session|e| |] eqn:Hs; [|discriminate Hok..]. apply andb_true_iff in Hok as [Hvols Hraw].
  exists session. split; [reflexivity|]. split; [by apply bool_decide_eq_true in Hvols|].
  apply (disk_volumes_show (bytes_image shifted_disk) shifted_disk [] 512 None session).
  - exact shifted_disk_image.
  - split; vm_compute; discriminate.
  - exact I.
  - exact Hs.
  - by destruct (se_container session).
Defined.

(** The file of the volume, by a path with empty and single-dot parts. *)
Lemma inner_session_ok : session_ok inner_session.
Proof.
  assert (is_ok (inspect_source_at (bytes_image inner_disk) [] 0 None) = true) as Hok by (vm_compute; reflexivity).
  assert (image_ok (bytes_image inner_disk)) as Hi by (apply bytes_image_ok; [apply bytes_ok_dec; vm_compute; reflexivity|vm_compute; discriminate]).
  assert (is_u64 0) as H0 by (split; vm_compute; discriminate). unfold inner_session.
  destruct (inspect_source_at (bytes_image inner_disk) [] 0 None) as [session|e| |] eqn:Hs; [|discriminate Hok..].
  apply (inspected_ok (bytes_image inner_disk) 0). exact (wp_value _ _ _ (wp_inspect_source_at (bytes_image inner_disk) [] 0 None Hi H0 I) Hs).
Qed.

Definition inner_path : list Z := bytes_of_string "/.//f".
Definition inner_volume : VolumeInfo := List.hd (volume_info {| pl_selector := []; pl_scheme := []; pl_partition := 0; pl_offset := 0;
  pl_length := 0; pl_partition_type := []; pl_name := [] |} None None) (se_volumes inner_session).
Definition inner_sliced : SlicedImage := {| sl_source := se_source inner_session; sl_base := 512; sl_len := 2048 |}.

Lemma inner_volume_source : volume_source inner_session inner_volume = Ok inner_sliced.
Proof.
  assert (vi_offset inner_volume = 512) as Ho by (vm_compute; reflexivity). assert (vi_length inner_volume = 2048) as Hl by (vm_compute; reflexivity).
  assert (image_len (se_source inner_session) = 2560) as Hs by (vm_compute; reflexivity).
  unfold volume_source, SlicedImage_new. rewrite Ho, Hl, Hs. reflexivity.
Qed.

Lemma inner_file_exact_witness :
  (exists enough, forall fuel, (enough <= fuel)%nat ->
    wp (extract_inner_file fuel (SlicedImage_image inner_sliced) Ext4 inner_path)
      (fun '(file, digest, n) => contents file = [1; 2; 3; 4; 5; 6; 7; 8; 9; 10] /\ digest = [1; 2; 3; 4; 5; 6; 7; 8; 9; 10] /\ n = 10)) /\
  exists image, child_image inner_session inner_volume inner_path = Ok image /\
    ImageOf (FilesystemFileImage_image image) [1; 2; 3; 4; 5; 6; 7; 8; 9; 10].
Proof.
  apply (inner_file_exact inner_session None inner_volume Ext4 inner_sliced inner_path (bytes_of_string "/f") [1; 2; 3; 4; 5; 6; 7; 8; 9; 10]).
  - exact inner_session_ok.
  - vm_compute. reflexivity.
  - vm_compute. reflexivity.
  - exact inner_volume_source.
  - vm_compute. reflexivity.
  - eapply holds_ext4; [vm_compute; reflexivity..|]. split; [vm_compute; reflexivity|]. split; [reflexivity|]. vm_compute. discriminate.
  - apply bytes_ok_dec. vm_compute. reflexivity.
  - vm_compute. discriminate.
Defined.

(** The tree of the volume, put in place of the old file. *)
#[local] Instance no_faults : Faults := faults_at [].

Definition inner_tree : result RecursiveExtraction * host :=
  session_extract_tree false inner_session 5 None (bytes_of_string "/") [] out_name true toy_host.

Lemma inner_tree_recovered_witness :
  h_store inner_tree.2 !! [bytes_of_string "f"; out_name] = Some (NFile [1; 2; 3; 4; 5; 6; 7; 8; 9; 10]) /\
  forall fuel result h', U64_MAX < Z.of_nat fuel ->
    session_extract_tree false inner_session fuel None (bytes_of_string "/") [] out_name true toy_host = (Ok result, h') ->
    (exists tn, h_store toy_host !! [tn] = None /\ settled [] tn out_name (h_store toy_host) (h_store h')) /\
    forall r n, h_store h' !! (r ++ [out_name]) = Some n <->
      shows (session_list_directory inner_session None) (inner_content inner_session fuel None) (bytes_of_string "/") r n.
Proof.
  split; [vm_compute; reflexivity|]. intros fuel result h' Hfuel.
  exact (inner_tree_recovered inner_session None false fuel (bytes_of_string "/") [] out_name true toy_host result h'
    inner_session_ok Hfuel toy_host_wf out_name_plain).
Defined.
