(* ===== verification/Updates.v ===== *)
(** Files and their sidecars on the host: src/src/operations.rs, extraction with a
    sidecar (lines 124-202), incremental updates in place (327-345 and 474-492),
    the sidecar's file (1055-1068) and digests of files (1070-1086); and
    src/src/pool.rs, extraction of one file (1045-1113). *)

From S2P Require Import Prelude Bytes Utf8 Stream StreamFacts Replay Compression NvList Encrypted.
From S2P Require Import EncryptedDnode Paths Extents Snapshots Selected ObjectIndex Resolve Sparse Operations Apply.
From S2P Require Import Image DiskImage Partitions Volumes HostFs Tree HostExtract.
From S2P Require Import PoolBlocks PoolSource Pool PoolFile.
#[local] Open Scope Z_scope.
#[local] Open Scope zse_scope.

(** ** The sidecar's file

    serde_json, for [Sidecar]: a crate. *)
Class SidecarJson := {
  to_writer_pretty : Sidecar -> list Z;
  from_reader : list Z -> result Sidecar;
}.

(** What is written is read back, also with the line break behind it. *)
Class SidecarJsonLaws `{SidecarJson} := {
  json_roundtrip : forall sidecar, from_reader (to_writer_pretty sidecar ++ [10]) = Ok sidecar;
}.

Definition SIDECAR_SUFFIX : name := bytes_of_string ".zfse.json".

Definition sidecar_path (target : path) : path :=
  match target with
  | [] => [SIDECAR_SUFFIX]
  | x :: d => (x ++ SIDECAR_SUFFIX) :: d
  end.

Section host.
Context `{SidecarJson} `{Faults} `{TempNames}.

(** A file opened and read to its end. *)
Definition read_to_end (p : path) : fs_m (list Z) :=
  let* node := metadata p in
  let* _ := touch in
  match node with
  | Some (NFile bytes) => fs_ret (Ok bytes)
  | Some _ => fs_ret (io "Is a directory")
  | None => fs_ret (io "No such file or directory")
  end.

Definition save_sidecar (target : path) (sidecar : Sidecar) : fs_m unit :=
  write_replaced (Ok (to_writer_pretty sidecar ++ [10], tt)) (sidecar_path target) true.

(** The sidecar once its last field is known. *)
Definition with_raw_state (sidecar : Sidecar) (raw_state : option RawSidecarState) : Sidecar := {|
  sc_format_version := sc_format_version sidecar; sc_path := sc_path sidecar; sc_object_id := sc_object_id sidecar;
  sc_object_type := sc_object_type sidecar; sc_bonus_type := sc_bonus_type sidecar; sc_logical_size := sc_logical_size sidecar;
  sc_size_bonus_offset := sc_size_bonus_offset sidecar; sc_size_spill_offset := sc_size_spill_offset sidecar;
  sc_snapshot_guid := sc_snapshot_guid sidecar; sc_sha256 := sc_sha256 sidecar; sc_raw_state := raw_state |}.

Section operations.
Context `{Codecs} `{Crypto} `{Os} `{Digest} `{ZfsCore} {R : Type} `{Read R}.

(** ** Extraction from a stream

    The file is in place before the state of a raw object is collected and the
    sidecar is written. *)
Definition extract_snapshot_to (fuel : nat) (stream : R) (path_ : list Z) (output : path) (force : bool)
    (snapshot key_material : option (list Z)) : fs_m Sidecar :=
  let* plan := fs_ret (plan_snapshot fuel stream snapshot) in
  let* index := fs_ret (build_plan_with_key fuel stream plan key_material) in
  let* resolved := fs_ret (resolve_path index path_) in
  let* sidecar := extract_resolved_to fuel stream plan index resolved output force key_material in
  let* raw_state := fs_ret (raw_sidecar_state index (Resolve.object_id resolved)) in
  let sidecar := with_raw_state sidecar raw_state in
  let* _ := save_sidecar output sidecar in
  fs_ret (Ok sidecar).

(** ** Incremental updates

    The file and its metadata are read, then the file must be what the sidecar
    describes. *)
Definition check_base (sidecar : Sidecar) (current : list Z) : result unit :=
  fail! negb (bytes_eqb (sha256_hex current) (sc_sha256 sidecar))
    with Msg "target {} does not match the extracted base file (SHA-256 differs)" [] in
  fail! negb (len current =? sc_logical_size sidecar)
    with Msg "target size is {current_size}, but extraction metadata expects {}" [len current; sc_logical_size sidecar] in
  Ok tt.

(** What a raw update needs of the sidecar, before anything is written. *)
Definition check_raw (sidecar : Sidecar) (key_material : option (list Z)) : result unit :=
  let! _ := ok_or key_material (Msg "raw incremental send requires a key" []) in
  let! raw_state := ok_or (sc_raw_state sidecar) (Msg "the extraction sidecar has no raw authentication state" []) in
  fail! negb (ss_object_slots raw_state =? 32) || negb (ss_first_object raw_state mod 32 =? 0)
    with Msg "the extraction sidecar has invalid raw dnode-range state" [] in
  fail! negb (bool_decide (is_Some (dnodes_by_object (ss_dnodes raw_state) !! sc_object_id sidecar)))
    with Msg "the extraction sidecar is missing the target raw dnode" [] in
  Ok tt.

Definition read_sidecar (target : path) : fs_m Sidecar :=
  let* json := fs_context "opening extraction metadata {}; extract the file with this tool first" (read_to_end (sidecar_path target)) in
  fs_context "reading {}" (fs_ret (from_reader json)).

(** The updated file replaces the target, is read again for its digest, and the
    sidecar is replaced after it. *)
Definition apply_incremental_to (fuel : nat) (stream : R) (target : path) (key_material : option (list Z)) : fs_m Sidecar :=
  let* sidecar := read_sidecar target in
  if negb (sc_format_version sidecar =? SIDECAR_VERSION)
  then fs_ret (Err (Msg "unsupported sidecar format version {}" [sc_format_version sidecar]))
  else
    let* current := fs_context "opening {}" (read_to_end target) in
    let* _ := touch in
    let* _ := fs_ret (check_base sidecar current) in
    let* requirement := fs_ret (apply_encryption_requirement fuel stream) in
    let* _ := fs_ret (match requirement with Some _ => check_raw sidecar key_material | None => Ok tt end) in
    let* updated := write_replaced
      (let! (file, updated) := apply_incremental_with_key fuel stream current sidecar key_material in
       Ok (contents file, updated)) target true in
    let* _ := touch in
    let* _ := save_sidecar target updated in
    fs_ret (Ok updated).
End operations.

(** ** Extraction from a pool

    Of a named snapshot the sidecar is written; a live dataset has none, and one
    that lies there is removed. *)
Section pool.
Context `{ZfsDisk} `{Codecs} `{Crypto} `{PoolCore} `{Os} `{Digest}.
Variable self : PoolMember.

Definition pool_sidecar (view : DatasetView) (resolved : ResolvedPoolPath) (snapshot_guid : Z) (sha256 : list Z) : result Sidecar :=
  let d := pd_dnode (rpp_dnode resolved) in
  let! offset := pool_size_bonus_offset (rpp_dnode resolved) (dv_registry view) (dv_layouts view) in
  Ok {| sc_format_version := SIDECAR_VERSION; sc_path := rpp_normalized_path resolved;
    sc_object_id := rpp_object_id resolved; sc_object_type := dn_type d; sc_bonus_type := dn_bonustype d;
    sc_logical_size := rpp_logical_size resolved; sc_size_bonus_offset := offset; sc_size_spill_offset := None;
    sc_snapshot_guid := guid_string snapshot_guid; sc_sha256 := sha256; sc_raw_state := None |}.

Definition remove_stale (output : path) : fs_m unit :=
  let stale := sidecar_path output in
  let* existing := path_exists stale in
  if existing : bool
  then fs_context "removing stale incremental-send sidecar {} after current-head extraction" (remove_file stale)
  else fs_ret (Ok tt).

Definition pool_extract_to (fuel : nat) (selector path_ : list Z) (output : path) (force : bool)
    (key_material : option (list Z)) : fs_m PoolExtraction :=
  let* (view, resolved) := fs_ret (regular_file self fuel selector path_ key_material) in
  let* existing := path_exists output in
  if existing && negb force then fs_ret (Err (Msg "output {} already exists (pass --force to replace it)" []))
  else
    let* sha256 := write_replaced
      (let! (file, digest) := extract_content self resolved (dv_key view) in
       Ok (contents file, sha256_hex digest)) output force in
    let* sidecar_written := match dv_snapshot_guid view with
      | Some snapshot_guid =>
          let* sidecar := fs_ret (pool_sidecar view resolved snapshot_guid sha256) in
          let* _ := save_sidecar output sidecar in
          fs_ret (Ok true)
      | None => let* _ := remove_stale output in fs_ret (Ok false)
      end in
    fs_ret (Ok {| pe_path := rpp_normalized_path resolved; pe_object_id := rpp_object_id resolved;
      pe_logical_size := rpp_logical_size resolved; pe_sha256 := sha256; pe_sidecar_written := sidecar_written |}).
End pool.
End host.
