(* ===== verification/UpdateProps.v ===== *)
(** Properties of files and their sidecars on the host: what a replaced file leaves
    of its directory, with and without refused calls, how an update ends, and what
    every history of extractions, updates and refused calls leaves. *)

From S2P Require Import Prelude Bytes Utf8 Stream StreamFacts StreamWriter StreamProps Compression CompressionProps NvList Encrypted.
From S2P Require Import EncryptedDnode EncryptedProps Replay Paths Extents Snapshots Selected ObjectIndex Resolve ResolveProps Sparse.
From S2P Require Import Operations Apply OperationsProps Image DiskImage Partitions Volumes ImageProps HostFs Tree TreeFacts.
From S2P Require Import HostExtract TreeProps PoolBlocks PoolSource Pool PoolFile PoolProps Updates.
#[local] Open Scope Z_scope.
#[local] Open Scope zse_scope.

(** ** Whatever a computation ends with

    [fs_ends m h Q]: what [m] returns from [h], and the host it leaves, satisfy [Q];
    it may also panic or run out of fuel. *)
Definition fs_ends {A} (m : fs_m A) (h : host) (Q : result A -> host -> Prop) : Prop := Q (m h).1 (m h).2.

(** [Q] for what is not a value. *)
Definition no_value {A B} (Q : result B -> host -> Prop) (r : result A) (h : host) : Prop :=
  match r with Ok _ => True | Err e => Q (Err e) h | Panic => Q Panic h | OutOfFuel => Q OutOfFuel h end.

Section ends.
Context `{Faults}.

Lemma fs_ends_mono {A} (m : fs_m A) h (Q Q' : result A -> host -> Prop) :
  (forall r h', Q r h' -> Q' r h') -> fs_ends m h Q -> fs_ends m h Q'.
Proof. unfold fs_ends. auto. Qed.

Lemma fs_ends_bind {A B} (m : fs_m A) (k : A -> fs_m B) h Q :
  fs_ends m h (fun r h' => match r with Ok a => fs_ends (k a) h' Q | r => no_value Q r h' end) -> fs_ends (fs_bind m k) h Q.
Proof. unfold fs_ends, fs_bind. by destruct (m h) as [[] ?]. Qed.

Lemma fs_ends_catch {A B} (m : fs_m A) (k : A -> fs_m B) handler h Q :
  fs_ends m h (fun r h' => match r with Ok a => fs_ends (k a) h' Q | Err e => fs_ends (handler e) h' Q | r => no_value Q r h' end) ->
  fs_ends (fs_catch m k handler) h Q.
Proof. unfold fs_ends, fs_catch. by destruct (m h) as [[] ?]. Qed.

Lemma fs_ends_ret {A} (r : result A) h Q : Q r h -> fs_ends (fs_ret r) h Q.
Proof. done. Qed.

Lemma fs_ends_context {A} what (m : fs_m A) h Q :
  fs_ends m h (fun r h' => Q (map_err (Context what []) r) h') -> fs_ends (fs_context what m) h Q.
Proof. unfold fs_ends, fs_context. by destruct (m h). Qed.

(** A call: refused or done, and what it does is seen in the store. *)
Lemma fs_ends_call op h (Q : result unit -> host -> Prop) :
  safe (op (h_store h)) -> (forall e, Q (Err e) (after (h_store h) h)) ->
  (forall st, op (h_store h) = Ok st -> Q (Ok tt) (after st h)) -> fs_ends (call op) h Q.
Proof.
  intros Hsafe HE HP. unfold fs_ends, call, after in *. destruct (fault _); [by apply HE|].
  destruct (op (h_store h)); [by apply HP|by apply HE|done..].
Qed.
End ends.

(** ** One directory

    What the names of a directory stand for. *)
Definition entries_of (d : path) (st : store) (x : name) : option Node := st !! (x :: d).

(** A name that no temporary file has. *)
Definition plain (x : name) : Prop := forall rest, x <> bytes_of_string ".tmp" ++ rest.

Lemma plain_sidecar x : plain x -> plain (x ++ SIDECAR_SUFFIX).
Proof.
  intros Hx rest Heq. destruct x as [|a [|b [|c [|e x]]]]; try discriminate Heq.
  apply (Hx x). injection Heq as Ha Hb Hc He _. subst. reflexivity.
Qed.

Lemma sidecar_name_ne (x : name) : x ++ SIDECAR_SUFFIX <> x.
Proof. intros He. apply (f_equal length) in He. rewrite length_app in He. cbn in He. lia. Qed.

(** The directory [d] is as before but for temporary files and where [x] says. *)
Definition same_plain (d : path) (changed : name -> Prop) (st st' : store) : Prop :=
  forall y, plain y -> ~ changed y -> st' !! (y :: d) = st !! (y :: d).

Lemma rename_sibling (t x : name) (d : path) (st st' : store) :
  t <> x -> rename_in (t :: d) (x :: d) st = Ok st' ->
  st' !! (x :: d) = st !! (t :: d) /\ forall y, y <> x -> y <> t -> st' !! (y :: d) = st !! (y :: d).
Proof.
  intros Hne Hr. unfold rename_in in Hr. destruct (st !! (t :: d)) as [node|] eqn:Hsrc; [|done].
  rewrite bool_decide_false in Hr by congruence. destruct (bool_decide (under _ _)); [done|]. destruct (_ || _); [done|]. cbv zeta in Hr.
  destruct (match st !! (x :: d) with Some _ => _ | None => _ end); [|done]. injection Hr as <-. split.
  - rewrite lookup_union. pose proof (lookup_moved (t :: d) (x :: d) st []) as Hm. cbn [app] in Hm. rewrite Hm, Hsrc. by rewrite union_Some_l.
  - intros y Hx Ht. rewrite lookup_union, lookup_moved_out by (intros Hu; by eapply (not_under_sibling y x)).
    rewrite map_lookup_filter. destruct (st !! (y :: d)) eqn:Hy; cbn; [|done].
    rewrite option_guard_True; [done|]. split; [intros Hu; by eapply (not_under_sibling y t)|congruence].
Qed.

Section replaced.
Context `{Faults} `{TempNamesLaws}.

Lemma create_dir_all_entries (d : path) : forall h,
  fs_ends (create_dir_all d) h (fun _ h' => forall q, (length d < length q)%nat -> h_store h' !! q = h_store h !! q).
Proof.
  induction d as [|x d IH]; intros h; unfold fs_ends; cbn [create_dir_all]; case_match; try done.
  - change (fs_ends (create_dir []) h (fun _ h' => forall q : path, (0 < length q)%nat -> h_store h' !! q = h_store h !! q)).
    apply fs_ends_call; [done|done|]. done.
  - change (fs_ends (fs_bind (create_dir_all d) (fun _ => create_dir (x :: d))) h
      (fun _ h' => forall q : path, (length (x :: d) < length q)%nat -> h_store h' !! q = h_store h !! q)).
    apply fs_ends_bind. eapply fs_ends_mono; [|apply IH]. intros r h1 Hq. cbn [length] in *.
    assert (forall q : path, (S (length d) < length q)%nat -> h_store h1 !! q = h_store h !! q) as Hq' by (intros q Hl; apply Hq; lia).
    destruct r; cbn [no_value]; [|done..]. apply fs_ends_call; cbn [h_store after].
    + unfold create_dir_in. by repeat case_match.
    + done.
    + intros st Hst q Hl. rewrite <- Hq' by done. unfold create_dir_in in Hst. repeat case_match; try done. injection Hst as <-.
      rewrite lookup_insert_ne; [done|]. intros <-. cbn in Hl. lia.
Qed.

Lemma fs_ends_make_temp (d : path) h (Q : result path -> host -> Prop) :
  let t := temp_name ".tmp" (h_store h) d in
  (forall e, Q (Err e) (after (h_store h) h)) -> Q (Ok (t :: d)) (after (<[t :: d := NFile []]> (h_store h)) h) ->
  fs_ends (make_temp ".tmp" d create_file) h Q.
Proof.
  intros t HE HP. change (fs_ends (let* _ := create_file (t :: d) in fs_ret (Ok (t :: d))) h Q).
  apply fs_ends_bind, fs_ends_call; [unfold create_file_in; by repeat case_match|intros e; by apply HE|].
  intros st Hst. unfold create_file_in in Hst. rewrite (temp_fresh ".tmp" (h_store h) d : h_store h !! (t :: d) = None) in Hst.
  case_match; [|done]. injection Hst as <-. by apply fs_ends_ret.
Qed.

(** How replacing the file [x] of [d] ends. *)
Definition replaced {A} (write : result (list Z * A)) (x : name) (d : path) (force : bool) (st : store) (r : result A) (h' : host) : Prop :=
  same_plain d (fun y => y = x /\ is_ok r = true) st (h_store h') /\
  forall a, r = Ok a -> exists bytes, write = Ok (bytes, a) /\ h_store h' !! (x :: d) = Some (NFile bytes) /\
    (force = false -> st !! (x :: d) = None).

(** Where it fails, the plain names are as they were. *)
Lemma not_replaced {A} (write : result (list Z * A)) x d force st (r : result A) h' :
  is_ok r = false -> same_plain d (fun _ => False) st (h_store h') -> replaced write x d force st r h'.
Proof. intros Hr Hs. split; [intros y Hy _; by apply Hs; auto|]. by intros a ->. Qed.

Section temporary.
Variable t : name.
Variable d : path.
Hypothesis Ht : forall y, plain y -> y <> t.

Lemma same_insert st st' n : same_plain d (fun _ => False) st st' -> same_plain d (fun _ => False) st (<[t :: d := n]> st').
Proof. intros Hs y Hy Hn. rewrite lookup_insert_ne; [by apply Hs|]. intros [= He]. by eapply Ht. Qed.

(** The drop of the temporary file, after an error. *)
Lemma dropped_ends {A} (write : result (list Z * A)) x force st e h :
  same_plain d (fun _ => False) st (h_store h) ->
  fs_ends (let* _ := fs_ignore (remove_file (t :: d)) in fs_ret (Err (A:=A) e)) h (replaced write x d force st).
Proof.
  intros Hs. apply fs_ends_bind. unfold fs_ignore. apply fs_ends_catch, fs_ends_call.
  - unfold remove_file_in. by repeat case_match.
  - intros e'. apply fs_ends_ret, fs_ends_ret. by apply not_replaced.
  - intros st' Hr. apply fs_ends_ret, fs_ends_ret, not_replaced; [done|]. intros y Hy Hn. cbn [h_store after].
    unfold remove_file_in in Hr. assert (st' = delete (t :: d) (h_store h)) as -> by (repeat case_match; congruence).
    rewrite lookup_delete_ne; [by apply Hs|]. intros [= He]. by eapply Ht.
Qed.

(** The rename into place. *)
Lemma persist_replace_ends {A} (a : A) bytes x force st h :
  plain x -> same_plain d (fun _ => False) st (h_store h) -> h_store h !! (t :: d) = Some (NFile bytes) ->
  fs_ends (persist_replace (t :: d) (x :: d) force) h (fun r h' => match r with
    | Ok _ => replaced (Ok (bytes, a)) x d force st (Ok a) h'
    | Err _ => same_plain d (fun _ => False) st (h_store h')
    | _ => False end).
Proof.
  intros Hx Hs Hbytes. unfold persist_replace. apply fs_ends_bind. unfold fs_ends at 1. cbn [path_exists metadata fs_bind fs_ret fst snd].
  case_match eqn:Hguard; [by apply fs_ends_ret|].
  apply fs_ends_context, fs_ends_call; [unfold rename_in; by repeat case_match|done|].
  intros st' Hst. cbn [map_err]. assert (t <> x) as Htx by (intros ->; by eapply Ht).
  destruct (rename_sibling t x d _ st' Htx Hst) as [Hxs Hother]. split.
  - intros y Hy Hny. cbn [after h_store]. rewrite Hother; [by apply Hs; auto|by intros ->; apply Hny|by apply Ht].
  - intros a' [= <-]. exists bytes. split; [done|]. cbn [after h_store]. rewrite Hxs. split; [done|].
    intros ->. rewrite andb_true_r in Hguard. apply bool_decide_eq_false, eq_None_not_Some in Hguard. by rewrite <- Hs by auto.
Qed.
End temporary.

(** The file is replaced, or nothing of the directory's plain names has changed. *)
Lemma write_replaced_ends {A} (write : result (list Z * A)) (x : name) (d : path) force h :
  plain x -> fs_ends (write_replaced write (x :: d) force) h (replaced write x d force (h_store h)).
Proof.
  intros Hx. unfold write_replaced, temporary_for. cbn [tail]. cbv zeta.
  apply fs_ends_bind, fs_ends_bind. eapply fs_ends_mono; [|apply create_dir_all_entries]. intros r h1 Hdir.
  assert (same_plain d (fun _ => False) (h_store h) (h_store h1)) as Hs1 by (intros y _ _; apply Hdir; cbn; lia). clear Hdir.
  destruct r as [[]|e| |]; cbn [no_value]; [|by apply not_replaced..].
  set (t := temp_name ".tmp" (h_store h1) d). assert (forall y, plain y -> y <> t) as Hpt.
  { intros y Hy ->. destruct (temp_prefixed ".tmp" (h_store h1) d) as [rest Hrest]. by eapply Hy. }
  apply fs_ends_context, fs_ends_make_temp; [intros e; by apply not_replaced|]. fold t. cbn [map_err]. set (h2 := after _ h1).
  assert (same_plain d (fun _ => False) (h_store h) (h_store h2)) as Hs2 by (by apply same_insert).
  apply fs_ends_catch, fs_ends_bind, fs_ends_ret. destruct write as [[bytes a]|e| |]; cbn [no_value]; [|by apply dropped_ends|by apply not_replaced..].
  apply fs_ends_bind, fs_ends_call; [unfold write_in; by repeat case_match|intros e; by apply dropped_ends|].
  intros st Hst. unfold write_in in Hst. cbn [h2 after h_store] in Hst. rewrite lookup_insert_eq, insert_insert_eq in Hst. injection Hst as <-.
  set (h3 := after _ h2). assert (same_plain d (fun _ => False) (h_store h) (h_store h3)) as Hs3 by (by apply same_insert).
  apply fs_ends_bind, fs_ends_call; [done|intros e; by apply dropped_ends|]. intros st [= <-].
  apply fs_ends_bind. eapply fs_ends_mono; [|apply (persist_replace_ends t d Hpt a bytes x force (h_store h)); [done..|apply lookup_insert_eq]].
  intros [[]|e| |] h4 Hr; [|by apply dropped_ends|done..]. by apply fs_ends_ret, fs_ends_ret.
Qed.
End replaced.

(** ** Operations on a file and its sidecar *)

Section operations.
Context `{SidecarJson} `{Faults} `{TempNamesLaws}.
Variable x : name.
Variable d : path.
Hypothesis Hx : plain x.

Abbreviation s := (x ++ SIDECAR_SUFFIX).

(** The sidecar's file holds [sidecar]. *)
Definition saved (sidecar : Sidecar) (st : store) : Prop := st !! (s :: d) = Some (NFile (to_writer_pretty sidecar ++ [10])).

(** Of the plain names of the directory, only the file and its sidecar may have
    changed, and the sidecar only to one that satisfies [P]. *)
Record confined (P : Sidecar -> Prop) (st st' : store) : Prop := {
  cf_others : same_plain d (fun y => y = x \/ y = s) st st';
  cf_sidecar : st' !! (s :: d) = st !! (s :: d) \/ (exists sidecar, P sidecar /\ saved sidecar st') \/ st' !! (s :: d) = None;
}.

Lemma confined_refl P st : confined P st st.
Proof. split; [done|by left]. Qed.

Lemma confined_file P st st' (Q : Prop) : same_plain d (fun y => y = x /\ Q) st st' -> confined P st st'.
Proof.
  intros Hs. split; [intros y Hy Hn; apply Hs; [done|]; tauto|left; apply Hs; [by apply plain_sidecar|]].
  intros [He _]. by apply sidecar_name_ne in He.
Qed.

Lemma confined_trans P st st' st'' : confined P st st' -> confined P st' st'' -> confined P st st''.
Proof.
  intros [Ho Hs] [Ho' Hs']. split; [intros y Hy Hn; rewrite Ho' by done; by apply Ho|].
  destruct Hs' as [Hs'|Hs']; [rewrite Hs'|by right]. destruct Hs as [Hs|[(sc & HP & Hsc)|Hs]]; [by left| |by right; right].
  right; left. exists sc. split; [done|]. unfold saved in *. by rewrite Hs'.
Qed.

Lemma read_to_end_ends p h :
  fs_ends (read_to_end p) h (fun r h' => h_store h' = h_store h /\ forall bytes, r = Ok bytes -> h_store h !! p = Some (NFile bytes)).
Proof.
  unfold read_to_end. apply fs_ends_bind. unfold fs_ends at 1. cbn [metadata fst snd]. apply fs_ends_bind, fs_ends_call; [done|done|].
  intros st [= <-]. destruct (h_store h !! p) as [[]|] eqn:Hp; apply fs_ends_ret; cbn [after h_store]; (split; [done|]; intros b; try done).
  by intros [= <-].
Qed.

Lemma save_sidecar_ends sidecar h :
  fs_ends (save_sidecar (x :: d) sidecar) h (fun r h' =>
    same_plain d (fun y => y = s /\ is_ok r = true) (h_store h) (h_store h') /\ (is_ok r = true -> saved sidecar (h_store h'))).
Proof.
  unfold save_sidecar. cbn [sidecar_path]. eapply fs_ends_mono; [|by apply write_replaced_ends, plain_sidecar].
  intros r h' [Hs Hw]. split; [done|]. destruct r as [u| | |]; [|done..]. intros _. destruct (Hw u eq_refl) as (bytes & [= <-] & Hb & _). exact Hb.
Qed.

(** Saving behind a step that did not touch the sidecar. *)
Lemma save_confined (P : Sidecar -> Prop) sidecar st h :
  P sidecar -> confined P st (h_store h) ->
  fs_ends (save_sidecar (x :: d) sidecar) h (fun r h' => confined P st (h_store h') /\
    h_store h' !! (x :: d) = h_store h !! (x :: d) /\
    match r with Ok _ => saved sidecar (h_store h') | _ => h_store h' !! (s :: d) = h_store h !! (s :: d) end).
Proof.
  intros HP Hc. eapply fs_ends_mono; [|apply save_sidecar_ends]. intros r h' [Hs Hsaved].
  assert (h_store h' !! (x :: d) = h_store h !! (x :: d)) as Hfile.
  { apply Hs; [done|]. intros [He _]. by apply (sidecar_name_ne x). }
  assert (is_ok r = false -> h_store h' !! (s :: d) = h_store h !! (s :: d)) as Hold.
  { intros Hr. apply Hs; [by apply plain_sidecar|]. by intros [_ Hr']; rewrite Hr' in Hr. }
  split_and!; [|done|destruct r; [by apply Hsaved|by apply Hold..]]. apply (confined_trans P st (h_store h)); [done|].
  split; [intros y Hy Hn; apply Hs; [done|tauto]|]. destruct r as [u| | |]; [right; left; exists sidecar; split; [done|by apply Hsaved]|left; by apply Hold..].
Qed.

Section streams.
Context `{Codecs} `{Crypto} `{Os} `{Digest} `{ZfsCore} {R : Type} `{Read R}.

Lemma extract_with_raw fuel (stream : R) plan index resolved exists_ force key file sidecar raw_state :
  extract_resolved_snapshot fuel stream plan index resolved exists_ force key false = Ok (file, sidecar) ->
  raw_sidecar_state index (Resolve.object_id resolved) = Ok raw_state ->
  extract_resolved_snapshot fuel stream plan index resolved false force key true = Ok (file, with_raw_state sidecar raw_state).
Proof.
  unfold extract_resolved_snapshot. intros He Hr. destruct (negb (Resolve.dirent_type resolved =? 8)); [done|].
  destruct (exists_ && negb force); [done|]. cbn [andb]. cbv zeta in *. apply bind_Ok in He as (t & -> & He). cbn [bind].
  apply bind_Ok in He as (t' & -> & He). cbn [bind] in *. rewrite Hr. cbn [bind]. by injection He as <- <-.
Qed.

Lemma extract_resolved_ends fuel (stream : R) plan index resolved force key h :
  fs_ends (extract_resolved_to fuel stream plan index resolved (x :: d) force key) h (fun r h' =>
    same_plain d (fun y => y = x /\ True) (h_store h) (h_store h') /\ forall sidecar, r = Ok sidecar ->
      exists file exists_, extract_resolved_snapshot fuel stream plan index resolved exists_ force key false = Ok (file, sidecar) /\
        h_store h' !! (x :: d) = Some (NFile (contents file))).
Proof.
  unfold extract_resolved_to. case_match; [by apply fs_ends_ret|]. apply fs_ends_bind. unfold fs_ends at 1.
  cbn [path_exists metadata fs_bind fs_ret fst snd]. case_match; [by apply fs_ends_ret|].
  apply fs_ends_bind. eapply fs_ends_mono; [|by apply write_replaced_ends]. intros r h1 [Hs Hw].
  assert (same_plain d (fun y => y = x /\ True) (h_store h) (h_store h1)) as Hs' by (intros y Hy Hn; apply Hs; [done|tauto]).
  destruct r as [sidecar|e| |]; cbn [no_value]; [|done..].
  destruct (Hw sidecar eq_refl) as (bytes & Hm & Hb & _). apply bind_Ok in Hm as ([file sc] & Hm & [= <- <-]).
  apply fs_ends_bind, fs_ends_call; [done|done|]. intros st [= <-]. apply fs_ends_ret. split; [done|]. intros sc' [= <-]. by eexists file, _.
Qed.

Lemma extract_snapshot_ends fuel (stream : R) path_ force snapshot key h (P : Sidecar -> Prop) :
  (forall file sidecar, extract_snapshot_with_key fuel stream path_ false force snapshot key = Ok (file, sidecar) -> P sidecar) ->
  fs_ends (extract_snapshot_to fuel stream path_ (x :: d) force snapshot key) h (fun r h' =>
    confined P (h_store h) (h_store h') /\ forall sidecar, r = Ok sidecar -> saved sidecar (h_store h') /\
      exists file, extract_snapshot_with_key fuel stream path_ false force snapshot key = Ok (file, sidecar) /\
        h_store h' !! (x :: d) = Some (NFile (contents file))).
Proof.
  intros HP. unfold extract_snapshot_to, extract_snapshot_with_key in *.
  assert (confined P (h_store h) (h_store h)) as Hrefl by apply confined_refl.
  apply fs_ends_bind, fs_ends_ret. destruct (plan_snapshot fuel stream snapshot) as [plan|e| |]; [|by split..]. cbn [bind] in HP.
  apply fs_ends_bind, fs_ends_ret. destruct (build_plan_with_key fuel stream plan key) as [index|e| |] eqn:Hindex; [|by split..]. cbn [bind] in HP.
  apply fs_ends_bind, fs_ends_ret. destruct (resolve_path index path_) as [resolved|e| |] eqn:Hres; [|by split..]. cbn [bind] in HP.
  apply fs_ends_bind. eapply fs_ends_mono; [|apply extract_resolved_ends]. intros r h1 [Hs Hw]. apply (confined_file P) in Hs.
  destruct r as [sidecar|e| |]; cbn [no_value]; [|by split..]. destruct (Hw sidecar eq_refl) as (file & ex & Hm & Hb).
  apply fs_ends_bind, fs_ends_ret. destruct (raw_sidecar_state index (Resolve.object_id resolved)) as [raw_state|e| |] eqn:Hraw; cbn [no_value]; [|by split..].
  pose proof (extract_with_raw _ _ _ _ _ _ _ _ _ _ _ Hm Hraw) as Hall.
  cbv zeta. apply fs_ends_bind. eapply fs_ends_mono; [|apply (save_confined P _ (h_store h)); [by eapply HP|done]].
  intros r h2 (Hc & Hfile & Hsaved). destruct r as [u|e| |]; cbn [no_value]; [|by split..]. apply fs_ends_ret. split; [done|]. intros sc [= <-].
  split; [done|]. exists file. cbn [bind]. rewrite Hindex. cbn [bind]. rewrite Hres. split; [exact Hall|]. by rewrite Hfile.
Qed.

(** An update that the pair of files admits. *)
Record admits (fuel : nat) (stream : R) (key : option (list Z)) (st : store) (sidecar : Sidecar) (current : list Z)
    (file : Sparse.File) (updated : Sidecar) : Prop := {
  ad_sidecar : exists json, st !! (s :: d) = Some (NFile json) /\ from_reader json = Ok sidecar;
  ad_current : st !! (x :: d) = Some (NFile current);
  ad_base : check_base sidecar current = Ok tt;
  ad_updated : apply_incremental_with_key fuel stream current sidecar key = Ok (file, updated);
}.

(** How an update ends: both files replaced, or an error that leaves both, or an
    error that leaves the new file beside the old sidecar. *)
Definition update_ends (fuel : nat) (stream : R) (key : option (list Z)) (st : store) (r : result Sidecar) (st' : store) : Prop :=
  match r with
  | Ok updated => exists sidecar current file, admits fuel stream key st sidecar current file updated /\
      st' !! (x :: d) = Some (NFile (contents file)) /\ saved updated st'
  | _ => st' !! (s :: d) = st !! (s :: d) /\
      (st' !! (x :: d) = st !! (x :: d) \/
       exists sidecar current file updated, admits fuel stream key st sidecar current file updated /\
         st' !! (x :: d) = Some (NFile (contents file)))
  end.

Lemma same_pair st st' (Q : Prop) :
  ~ Q -> same_plain d (fun y => y = x /\ Q) st st' -> st' !! (s :: d) = st !! (s :: d) /\ st' !! (x :: d) = st !! (x :: d).
Proof. intros HQ Hs. split; apply Hs; (done || (by apply plain_sidecar) || tauto). Qed.

Lemma apply_ends fuel (stream : R) key h :
  fs_ends (apply_incremental_to fuel stream (x :: d) key) h (fun r h' =>
    same_plain d (fun y => y = x \/ y = s) (h_store h) (h_store h') /\ update_ends fuel stream key (h_store h) r (h_store h')).
Proof.
  assert (forall (r : result Sidecar) h', is_ok r = false -> h_store h' = h_store h ->
    same_plain d (fun y => y = x \/ y = s) (h_store h) (h_store h') /\ update_ends fuel stream key (h_store h) r (h_store h')) as Hsame.
  { intros r h' Hr ->. split; [done|]. destruct r; [done|..]; by (split; [|left]). }
  unfold apply_incremental_to, read_sidecar. cbn [sidecar_path].
  apply fs_ends_bind, fs_ends_bind, fs_ends_context. eapply fs_ends_mono; [|apply read_to_end_ends]. intros r h1 [Hs1 Hjson].
  destruct r as [json|e| |]; cbn [map_err no_value]; [|by apply Hsame..]. specialize (Hjson json eq_refl).
  apply fs_ends_context, fs_ends_ret. destruct (from_reader json) as [sidecar|e| |] eqn:Hparse; cbn [map_err no_value]; [|by apply Hsame..].
  case_match; [by apply fs_ends_ret, Hsame|].
  apply fs_ends_bind, fs_ends_context. eapply fs_ends_mono; [|apply read_to_end_ends]. rewrite Hs1. intros r h2 [Hs2 Hcur].
  destruct r as [current|e| |]; cbn [map_err no_value]; [|by apply Hsame..]. specialize (Hcur current eq_refl).
  apply fs_ends_bind, fs_ends_call; [done|by intros e; apply Hsame|]. intros st [= <-].
  apply fs_ends_bind, fs_ends_ret. destruct (check_base sidecar current) as [[]|e| |] eqn:Hbase; cbn [no_value]; [|by apply Hsame..].
  apply fs_ends_bind, fs_ends_ret. destruct (apply_encryption_requirement fuel stream) as [requirement|e| |]; cbn [no_value]; [|by apply Hsame..].
  apply fs_ends_bind, fs_ends_ret. destruct (match requirement with Some _ => _ | None => _ end) as [[]|e| |]; cbn [no_value]; [|by apply Hsame..].
  apply fs_ends_bind. eapply fs_ends_mono; [|by apply write_replaced_ends]. cbn [after h_store]. rewrite Hs2. intros r h3 [Hs3 Hw].
  assert (same_plain d (fun y => y = x \/ y = s) (h_store h) (h_store h3)) as Hothers by (intros y Hy Hn; apply Hs3; [done|tauto]).
  destruct r as [updated|e| |]; cbn [no_value]; [|split; [done|]; apply same_pair in Hs3 as [? ?]; [split; [done|by left]|done]..].
  destruct (Hw updated eq_refl) as (bytes & Hm & Hb & _). apply bind_Ok in Hm as ([file sc] & Hm & [= <- ->]).
  assert (admits fuel stream key (h_store h) sidecar current file updated) as Had by (split; [by exists json|done..]).
  assert (h_store h3 !! (s :: d) = h_store h !! (s :: d)) as Hold.
  { apply Hs3; [by apply plain_sidecar|]. intros [He _]. by apply sidecar_name_ne in He. }
  apply fs_ends_bind, fs_ends_call; [done| |].
  { intros e. split; [done|]. split; [done|]. right. by exists sidecar, current, file, updated. }
  intros st [= <-]. apply fs_ends_bind. eapply fs_ends_mono; [|apply save_sidecar_ends]. cbn [after h_store]. intros r h4 [Hs4 Hsaved].
  assert (same_plain d (fun y => y = x \/ y = s) (h_store h) (h_store h4)) as Hothers' by (intros y Hy Hn; rewrite Hs4, Hothers; (done || tauto)).
  assert (h_store h4 !! (x :: d) = Some (NFile (contents file))) as Hfile.
  { rewrite Hs4; [done|done|]. intros [He _]. by apply (sidecar_name_ne x). }
  destruct r as [u|e| |]; cbn [no_value];
    [|split; [done|]; split; [rewrite Hs4; [done|by apply plain_sidecar|by intros []]|]; right; by exists sidecar, current, file, updated..].
  apply fs_ends_ret. split; [done|]. exists sidecar, current, file. split_and!; [done|done|by apply Hsaved].
Qed.
End streams.

Section pool.
Context `{ZfsDisk} `{Codecs} `{Crypto} `{PoolCore} `{Os} `{Digest}.

(** What a pool's sidecar is made of. *)
Definition pool_describes (self : PoolMember) (fuel : nat) (selector path_ : list Z) (key : option (list Z)) (digest : list Z) (sidecar : Sidecar) : Prop :=
  exists view resolved guid file, regular_file self fuel selector path_ key = Ok (view, resolved) /\ dv_snapshot_guid view = Some guid /\
    extract_content self resolved (dv_key view) = Ok (file, digest) /\ pool_sidecar view resolved guid (sha256_hex digest) = Ok sidecar.

Lemma remove_stale_ends h :
  fs_ends (remove_stale (x :: d)) h (fun _ h' => h_store h' = h_store h \/ h_store h' = delete (s :: d) (h_store h)).
Proof.
  unfold remove_stale. cbn [sidecar_path]. cbv zeta. apply fs_ends_bind. unfold fs_ends at 1. cbn [path_exists metadata fs_bind fs_ret fst snd].
  case_match; [|by apply fs_ends_ret; left]. apply fs_ends_context, fs_ends_call.
  - unfold remove_file_in. by repeat case_match.
  - by left.
  - intros st Hr. right. cbn [after h_store]. unfold remove_file_in in Hr. by repeat case_match; simplify_eq.
Qed.

Lemma pool_extract_ends self fuel selector path_ force key h :
  fs_ends (pool_extract_to self fuel selector path_ (x :: d) force key) h (fun _ h' =>
    confined (fun sidecar => exists digest, pool_describes self fuel selector path_ key digest sidecar) (h_store h) (h_store h')).
Proof.
  set (P := fun sidecar => exists digest, pool_describes self fuel selector path_ key digest sidecar). assert (confined P (h_store h) (h_store h)) as Hrefl by apply confined_refl.
  unfold pool_extract_to. apply fs_ends_bind, fs_ends_ret. destruct (regular_file self fuel selector path_ key) as [[view resolved]|e| |] eqn:Hfile; [|done..].
  apply fs_ends_bind. unfold fs_ends at 1. cbn [path_exists metadata fs_bind fs_ret fst snd]. case_match; [by apply fs_ends_ret|].
  apply fs_ends_bind. eapply fs_ends_mono; [|by apply write_replaced_ends]. intros r h1 [Hs Hw]. apply (confined_file P) in Hs.
  destruct r as [sha256|e| |]; cbn [no_value]; [|done..]. destruct (Hw sha256 eq_refl) as (bytes & Hm & _).
  apply bind_Ok in Hm as ([file digest] & Hm & [= <- <-]). apply fs_ends_bind. destruct (dv_snapshot_guid view) as [guid|] eqn:Hguid.
  - apply fs_ends_bind, fs_ends_ret. destruct (pool_sidecar view resolved guid (sha256_hex digest)) as [sidecar|e| |] eqn:Hsc; cbn [no_value]; [|done..].
    apply fs_ends_bind. eapply fs_ends_mono; [|apply (save_confined P sidecar (h_store h)); [|done]].
    + intros r h2 (Hc & _). destruct r; cbn [no_value]; [|done..]. by apply fs_ends_ret, fs_ends_ret.
    + exists digest, view, resolved, guid, file. done.
  - apply fs_ends_bind. eapply fs_ends_mono; [|apply remove_stale_ends]. intros r h2 Hst.
    assert (confined P (h_store h) (h_store h2)) as Hc.
    { destruct Hst as [->| ->]; [done|]. eapply confined_trans; [exact Hs|]. split; [|by right; right; rewrite lookup_delete_eq].
      intros y Hy Hn. rewrite lookup_delete_ne; [done|]. intros [= He]. apply Hn. by right. }
    destruct r; cbn [no_value]; [|done..]. by apply fs_ends_ret, fs_ends_ret.
Qed.
End pool.
End operations.

(** ** Digests that tell files apart *)

Lemma check_base_digest `{Digest} sidecar current : check_base sidecar current = Ok tt -> sha256_hex current = sc_sha256 sidecar.
Proof.
  unfold check_base. destruct (bytes_eqb _ _) eqn:Heq; [|done]. intros _. by apply bytes_eqb_eq.
Qed.

Section digests.
Context `{Codecs} `{Crypto} `{Os} `{Digest} `{ZfsCore} {R : Type} `{Read R}.

Lemma extract_digest fuel (stream : R) path_ exists_ force snapshot key file sidecar :
  extract_snapshot_with_key fuel stream path_ exists_ force snapshot key = Ok (file, sidecar) -> sc_sha256 sidecar = sha256_hex (contents file).
Proof.
  unfold extract_snapshot_with_key. intros He. apply bind_Ok in He as (plan & _ & He). apply bind_Ok in He as (index & _ & He).
  apply bind_Ok in He as (resolved & _ & He). unfold extract_resolved_snapshot in He.
  destruct (negb (Resolve.dirent_type resolved =? 8)); [done|]. destruct (exists_ && negb force); [done|]. cbv zeta in He.
  apply bind_Ok in He as (t & _ & He). apply bind_Ok in He as (t' & _ & He). apply bind_Ok in He as (raw & _ & He). by injection He as <- <-.
Qed.

Lemma apply_digest fuel (stream : R) current sidecar key file updated :
  apply_incremental_with_key fuel stream current sidecar key = Ok (file, updated) -> sc_sha256 updated = sha256_hex (contents file).
Proof.
  unfold apply_incremental_with_key, apply_raw_incremental. intros Ha. repeat (case_match; try discriminate Ha; cbv zeta in Ha);
    repeat (apply bind_Ok in Ha as (? & _ & Ha); repeat (case_match; try discriminate Ha; cbv zeta in Ha)); by injection Ha as <- <-.
Qed.
End digests.

(** ** Histories *)

Section history.
Context `{SidecarJson} `{TempNames} `{ZfsDisk} `{Codecs} `{Crypto} `{PoolCore} `{Os} `{Digest} {R : Type} `{Read R}.

(** [derived bytes sidecar]: the sidecar is that of an extraction that gave these
    bytes, or of an update of a file and a sidecar that were derived. Of a file of
    a pool the bytes are those that were digested while it was written. *)
Inductive derived : list Z -> Sidecar -> Prop :=
| derived_snapshot fuel (stream : R) path_ force snapshot key file sidecar :
    extract_snapshot_with_key fuel stream path_ false force snapshot key = Ok (file, sidecar) -> derived (contents file) sidecar
| derived_pool self fuel selector path_ key digest sidecar :
    pool_describes self fuel selector path_ key digest sidecar -> derived digest sidecar
| derived_update fuel (stream : R) key bytes sidecar file updated :
    derived bytes sidecar -> apply_incremental_with_key fuel stream bytes sidecar key = Ok (file, updated) -> derived (contents file) updated.

Lemma derived_digest bytes sidecar : derived bytes sidecar -> sc_sha256 sidecar = sha256_hex bytes.
Proof.
  intros [fuel stream path_ force snapshot key file sc He|self fuel selector path_ key digest sc Hp|fuel stream key b sc file updated _ Ha].
  - by eapply extract_digest.
  - destruct Hp as (view & resolved & guid & file & _ & _ & _ & Hs). unfold pool_sidecar in Hs. cbv zeta in Hs.
    apply bind_Ok in Hs as (offset & _ & Hs). by injection Hs as <-.
  - by eapply apply_digest.
Qed.

Variable x : name.
Variable d : path.
Abbreviation target := (x :: d).

(** What the file holds. *)
Definition held (st : store) : list (list Z) := match st !! target with Some (NFile bytes) => [bytes] | _ => [] end.

(** The byte strings that each operation digests, if it gets that far: what an
    extraction writes; the file an update finds and the one it makes of it. *)
Definition snapshot_digested (fuel : nat) (stream : R) (path_ : list Z) (force : bool) (snapshot key : option (list Z)) : list (list Z) :=
  match extract_snapshot_with_key fuel stream path_ false force snapshot key with Ok (file, _) => [contents file] | _ => [] end.
Definition pool_digested (self : PoolMember) (fuel : nat) (selector path_ : list Z) (key : option (list Z)) : list (list Z) :=
  match (let! (view, resolved) := regular_file self fuel selector path_ key in extract_content self resolved (dv_key view)) with
  | Ok (_, digest) => [digest] | _ => [] end.
Definition update_digested (fuel : nat) (stream : R) (key : option (list Z)) (st : store) : list (list Z) :=
  held st ++
  match st !! target, st !! sidecar_path target with
  | Some (NFile current), Some (NFile json) =>
      match (let! sidecar := from_reader json in apply_incremental_with_key fuel stream current sidecar key) with
      | Ok (file, _) => [contents file] | _ => [] end
  | _, _ => []
  end.

(** What happens to the file and its sidecar: extractions to the file, updates of
    it, each with refused calls of its own (the process may also be killed: every
    call from some point on is refused), and anything else that leaves the
    sidecar's file alone or removes it; with the byte strings digested. *)
Inductive step : host -> list (list Z) -> host -> Prop :=
| step_extract (HF : Faults) fuel (stream : R) path_ force snapshot key h :
    step h (snapshot_digested fuel stream path_ force snapshot key) (extract_snapshot_to fuel stream path_ target force snapshot key h).2
| step_pool (HF : Faults) self fuel selector path_ force key h :
    step h (pool_digested self fuel selector path_ key) (pool_extract_to self fuel selector path_ target force key h).2
| step_update (HF : Faults) fuel (stream : R) key h :
    step h (update_digested fuel stream key (h_store h)) (apply_incremental_to fuel stream target key h).2
| step_other h h' :
    h_store h' !! sidecar_path target = h_store h !! sidecar_path target \/ h_store h' !! sidecar_path target = None -> step h [] h'.

(** A history, with all that it digests. *)
Inductive history : host -> list (list Z) -> host -> Prop :=
| history_none h : history h [] h
| history_step h digested h' digested' h'' : history h digested h' -> step h' digested' h'' -> history h (digested ++ digested') h''.

Lemma history_one h digested h' : step h digested h' -> history h digested h'.
Proof. intros Hs. rewrite <- (app_nil_l digested). by eapply history_step; [apply history_none|]. Qed.

(** The digest differs where two of these byte strings do. *)
Definition told_apart (strings : list (list Z)) : Prop :=
  forall a b, a ∈ strings -> b ∈ strings -> sha256_hex a = sha256_hex b -> a = b.

Lemma told_apart_sub strings strings' : strings ⊆ strings' -> told_apart strings' -> told_apart strings.
Proof. intros Hs Ht a b Ha%Hs Hb%Hs. by apply Ht. Qed.

(** The invariant: a sidecar that can be read was derived, of bytes digested. *)
Definition described (digested : list (list Z)) (st : store) : Prop :=
  forall json sidecar, st !! sidecar_path target = Some (NFile json) -> from_reader json = Ok sidecar ->
    exists bytes, bytes ∈ digested /\ derived bytes sidecar.

Context `{!SidecarJsonLaws} `{!TempNamesLaws}.
Hypothesis Hx : plain x.

Lemma described_sub digested digested' st : digested ⊆ digested' -> described digested st -> described digested' st.
Proof. intros Hs Hd json sidecar Hj Hp. destruct (Hd json sidecar Hj Hp) as (bytes & Hin%Hs & ?). by exists bytes. Qed.

Lemma admitted_derived digested fuel (stream : R) key st sidecar current file updated :
  described digested st -> told_apart (digested ++ held st) -> admits x d fuel stream key st sidecar current file updated ->
  derived current sidecar /\ derived (contents file) updated.
Proof.
  intros Hd Ht [(json & Hjson & Hparse) Hcur Hbase Hup]. destruct (Hd json sidecar Hjson Hparse) as (bytes & Hin & Hder).
  assert (current = bytes) as ->; [|by split; [|eapply derived_update]].
  apply Ht; [apply elem_of_app; right; unfold held; rewrite Hcur; by left|apply elem_of_app; by left|].
  rewrite <- (derived_digest _ _ Hder). by apply check_base_digest.
Qed.

Lemma admitted_digested fuel (stream : R) key st sidecar current file updated :
  admits x d fuel stream key st sidecar current file updated -> contents file ∈ update_digested fuel stream key st.
Proof.
  intros [(json & Hjson & Hparse) Hcur _ Hup]. unfold update_digested. rewrite Hcur. cbn [sidecar_path]. rewrite Hjson, Hparse. cbn [bind].
  rewrite Hup. apply elem_of_app. right. by left.
Qed.

Lemma described_confined digested st st' :
  described digested st -> confined x d (fun sidecar => exists bytes, bytes ∈ digested /\ derived bytes sidecar) st st' -> described digested st'.
Proof.
  intros Hd [_ Hs] json sidecar Hjson Hparse. destruct Hs as [Hs|[(sc & Hder & Hs)|Hs]].
  - apply (Hd json); [|done]. etransitivity; [symmetry; exact Hs|exact Hjson].
  - unfold saved in Hs. cbn [sidecar_path] in Hjson. rewrite Hs in Hjson. injection Hjson as <-. rewrite json_roundtrip in Hparse. by injection Hparse as <-.
  - cbn [sidecar_path] in Hjson. by rewrite Hs in Hjson.
Qed.

Lemma step_described digested digested' h h' :
  step h digested' h' -> told_apart (digested ++ digested') -> described digested (h_store h) -> described (digested ++ digested') (h_store h').
Proof.
  intros [HF fuel stream path_ force snapshot key h1|HF self fuel selector path_ force key h1|HF fuel stream key h1|h1 h2 Hs] Ht Hd.
  - set (made := snapshot_digested _ _ _ _ _ _) in *. set (P := fun sidecar => exists bytes, bytes ∈ digested ++ made /\ derived bytes sidecar).
    assert (forall file sc, extract_snapshot_with_key fuel stream path_ false force snapshot key = Ok (file, sc) -> P sc) as HP.
    { intros file sc He. exists (contents file). split; [|by eapply derived_snapshot]. apply elem_of_app. right.
      unfold made, snapshot_digested. rewrite He. by left. }
    pose proof (extract_snapshot_ends x d Hx fuel stream path_ force snapshot key h1 _ HP) as [Hc _].
    eapply described_confined; [|exact Hc]. eapply described_sub; [|exact Hd]. set_solver.
  - pose proof (pool_extract_ends x d Hx self fuel selector path_ force key h1) as [Ho Hc]. eapply described_confined; [|split; [exact Ho|]].
    { eapply described_sub; [|exact Hd]. set_solver. }
    destruct Hc as [Hc|[(sc & (digest & Hp) & Hc)|Hc]]; [by left| |by right; right].
    right; left. exists sc. split; [|done]. exists digest. split; [|by eapply derived_pool]. apply elem_of_app. right.
    destruct Hp as (view & resolved & guid & file & Hf & _ & He & _). unfold pool_digested. rewrite Hf. cbn [bind]. rewrite He. by left.
  - pose proof (apply_ends x d Hx fuel stream key h1) as [_ Hu]. intros json sidecar Hjson Hparse.
    assert (forall bytes, bytes ∈ digested /\ derived bytes sidecar -> bytes ∈ digested ++ update_digested fuel stream key (h_store h1) /\ derived bytes sidecar) as Hmore.
    { intros bytes [Hin Hder]. split; [|done]. apply elem_of_app. by left. }
    destruct (apply_incremental_to fuel stream target key h1) as [[updated|e| |] h2]; cbn [fst snd update_ends] in *;
      [|destruct Hu as [Hs _]; destruct (Hd json sidecar) as (bytes & Hb);
        [etransitivity; [symmetry; exact Hs|exact Hjson]|done|exists bytes; by apply Hmore]..].
    destruct Hu as (sc & current & file & Had & _ & Hsaved). unfold saved in Hsaved. cbn [sidecar_path] in Hjson. rewrite Hsaved in Hjson.
    injection Hjson as <-. rewrite json_roundtrip in Hparse. injection Hparse as <-. exists (contents file).
    split; [apply elem_of_app; right; by eapply admitted_digested|]. eapply admitted_derived; [exact Hd| |exact Had].
    eapply told_apart_sub; [|exact Ht]. unfold update_digested. set_solver.
  - intros json sidecar Hjson Hparse. rewrite app_nil_r. destruct Hs as [Hs|Hs]; rewrite Hs in Hjson; [by eapply Hd|done].
Qed.

Lemma history_described digested h h' :
  history h digested h' -> h_store h !! sidecar_path target = None -> told_apart digested -> described digested (h_store h').
Proof.
  intros Hh Hnone. induction Hh as [h|h digested h1 digested' h2 _ IH Hs]; intros Ht.
  - intros json sidecar Hj. by rewrite Hnone in Hj.
  - eapply step_described; [exact Hs|exact Ht|]. apply IH; [done|]. eapply told_apart_sub; [|exact Ht]. set_solver.
Qed.
End history.

(** C7: An update is never applied to anything but the version its sidecar
    describes. After any history of extractions to a file, updates of it, refused
    calls, kills, and changes by others that leave the sidecar's file alone,
    beginning without a sidecar: a sidecar that can be read is that of an
    extraction or update that gave some bytes; and when a further update reports
    success, the file held exactly those bytes, the file and the sidecar are now
    those that replaying the stream on them gives, and no other plain name of the
    directory has changed. This as long as no two of the byte strings that came up
    (those digested in the history, and the file the update finds) have the same
    digest. *)
Theorem update_history `{SidecarJsonLaws} `{TempNamesLaws} `{ZfsDisk} `{Codecs} `{Crypto} `{PoolCore} `{Os} `{Digest} {R : Type} `{Read R}
    (x : name) (d : path) h digested h' :
  plain x -> h_store h !! sidecar_path (x :: d) = None -> history (R := R) x d h digested h' ->
  told_apart (digested ++ held x d (h_store h')) ->
  described (R := R) x d digested (h_store h') /\
  forall (HF : Faults) fuel (stream : R) key updated h'',
    apply_incremental_to fuel stream (x :: d) key h' = (Ok updated, h'') ->
    exists current sidecar file, derived (R := R) current sidecar /\
      h_store h' !! (x :: d) = Some (NFile current) /\
      apply_incremental_with_key fuel stream current sidecar key = Ok (file, updated) /\
      h_store h'' !! (x :: d) = Some (NFile (contents file)) /\ saved x d updated (h_store h'') /\
      same_plain d (fun y => y = x \/ y = x ++ SIDECAR_SUFFIX) (h_store h') (h_store h'').
Proof.
  intros Hx Hnone Hh Ht. assert (described (R := R) x d digested (h_store h')) as Hd.
  { apply (history_described x d Hx digested h); [done|done|]. eapply told_apart_sub; [|exact Ht]. set_solver. }
  split; [done|]. intros HF fuel stream key updated h'' Hrun.
  pose proof (apply_ends x d Hx fuel stream key h') as Hends. unfold fs_ends in Hends. rewrite Hrun in Hends. cbn [fst snd update_ends] in Hends.
  destruct Hends as (Hothers & sidecar & current & file & Had & Hfile & Hsaved).
  exists current, sidecar, file. split; [by eapply (admitted_derived x d digested)|]. destruct Had as [_ Hcur _ Hup]. done.
Qed.

(** C8: An interrupted update is refused, not continued. An update that fails has
    left the sidecar, and left the file or put the updated one in its place. Where
    the file has changed, and its new bytes do not have the digest of the old ones,
    every later update of the pair fails and changes neither, until the file is
    extracted again. *)
Theorem update_interrupted `{SidecarJsonLaws} {HF : Faults} `{TempNamesLaws} `{Codecs} `{Crypto} `{Os} `{Digest} {R : Type} `{Read R}
    (x : name) (d : path) fuel (stream : R) key h r h' :
  plain x -> apply_incremental_to fuel stream (x :: d) key h = (r, h') -> is_ok r = false ->
  update_ends x d fuel stream key (h_store h) r (h_store h') /\
  (h_store h' !! (x :: d) <> h_store h !! (x :: d) -> told_apart (held x d (h_store h) ++ held x d (h_store h')) ->
   forall (HF' : Faults) fuel' (stream' : R) key', let '(r', h'') := apply_incremental_to fuel' stream' (x :: d) key' h' in
     is_ok r' = false /\ h_store h'' !! (x :: d) = h_store h' !! (x :: d) /\
     h_store h'' !! sidecar_path (x :: d) = h_store h' !! sidecar_path (x :: d)).
Proof.
  intros Hx Hrun Hr. pose proof (apply_ends x d Hx fuel stream key h) as Hends. unfold fs_ends in Hends. rewrite Hrun in Hends. cbn [fst snd] in Hends.
  destruct Hends as [_ Hends]. split; [done|]. intros Hchanged Ht HF' fuel' stream' key'.
  assert (h_store h' !! ((x ++ SIDECAR_SUFFIX) :: d) = h_store h !! ((x ++ SIDECAR_SUFFIX) :: d) /\ exists sidecar current file updated,
    admits x d fuel stream key (h_store h) sidecar current file updated /\ h_store h' !! (x :: d) = Some (NFile (contents file))) as
    (Hold & sidecar & current & file & updated & [(json & Hjson & Hparse) Hcur Hbase Hup] & Hfile).
  { destruct r; [done|..]; (destruct Hends as [Hs [He|Hnew]]; [done|by split]). }
  assert (forall sc cur f up, admits x d fuel' stream' key' (h_store h') sc cur f up -> False) as Hno.
  { intros sc cur f up [(json' & Hjson' & Hparse') Hcur' Hbase' _]. rewrite Hold, Hjson in Hjson'. injection Hjson' as <-.
    rewrite Hparse in Hparse'. injection Hparse' as <-. rewrite Hfile in Hcur'. injection Hcur' as <-.
    apply check_base_digest in Hbase, Hbase'. apply Hchanged. rewrite Hfile, Hcur. do 2 f_equal.
    unfold held in Ht. rewrite Hcur, Hfile in Ht. apply Ht; [by right; left|by left|congruence]. }
  pose proof (apply_ends (H0 := HF') x d Hx fuel' stream' key' h') as Hagain. unfold fs_ends in Hagain.
  destruct (apply_incremental_to fuel' stream' (x :: d) key' h') as [r' h'']. cbn [fst snd] in Hagain. destruct Hagain as [_ Hagain].
  destruct r' as [up|e| |]; cbn [update_ends] in Hagain;
    [|destruct Hagain as [Hs [Hf|(sc & cur & f & up & Had & _)]]; [done|by destruct (Hno _ _ _ _ Had)]..].
  destruct Hagain as (sc & cur & f & Had & _). by destruct (Hno _ _ _ _ Had).
Qed.

(** ** Concrete instances

    A sidecar's file is a single number, behind which a line break may stand. *)
#[export] Instance pointer_eq_dec : EqDecision RawBlockPointer.
Proof. solve_decision. Defined.
#[export] Instance dnode_eq_dec : EqDecision RawDnode.
Proof. solve_decision. Defined.
#[export] Instance sidecar_state_eq_dec : EqDecision RawSidecarState.
Proof. solve_decision. Defined.
#[export] Instance sidecar_eq_dec : EqDecision Sidecar.
Proof. solve_decision. Defined.

#[export] Instance pointer_countable : Countable RawBlockPointer.
Proof.
  refine (inj_countable' (fun p => ((bp_block_id p, bp_object_type p, bp_logical_size p, bp_physical_size p), (bp_compression p, bp_flags p, bp_mac p)))
    (fun '((a, b, c, e), (f, g, m)) => {| bp_block_id := a; bp_object_type := b; bp_logical_size := c; bp_physical_size := e;
      bp_compression := f; bp_flags := g; bp_mac := m |}) _). by intros [].
Defined.

#[export] Instance dnode_countable : Countable RawDnode.
Proof.
  refine (inj_countable' (fun p => ((dn_object p, dn_object_type p, dn_bonus_type p, dn_block_size p),
      (EncryptedDnode.dn_bonus_length p, EncryptedDnode.dn_checksum_type p, EncryptedDnode.dn_compression p, dn_slots p),
      (EncryptedDnode.dn_flags p, dn_indirect_block_shift p, dn_levels p, dn_block_pointers p),
      (dn_max_block_id p, dn_bonus_ciphertext p, dn_blocks p, dn_spill p)))
    (fun '((a1, a2, a3, a4), (b1, b2, b3, b4), (c1, c2, c3, c4), (e1, e2, e3, e4)) => {|
      dn_object := a1; dn_object_type := a2; dn_bonus_type := a3; dn_block_size := a4; EncryptedDnode.dn_bonus_length := b1;
      EncryptedDnode.dn_checksum_type := b2; EncryptedDnode.dn_compression := b3; dn_slots := b4; EncryptedDnode.dn_flags := c1;
      dn_indirect_block_shift := c2; dn_levels := c3; dn_block_pointers := c4; dn_max_block_id := e1;
      dn_bonus_ciphertext := e2; dn_blocks := e3; dn_spill := e4 |}) _). by intros [].
Defined.

#[export] Instance sidecar_state_countable : Countable RawSidecarState.
Proof.
  refine (inj_countable' (fun p => (ss_crypto_guid p, ss_crypto_version p, ss_first_object p, ss_object_slots p, ss_dnodes p, ss_target_spill p))
    (fun '(a, b, c, e, f, g) => {| ss_crypto_guid := a; ss_crypto_version := b; ss_first_object := c; ss_object_slots := e;
      ss_dnodes := f; ss_target_spill := g |}) _). by intros [].
Defined.

#[export] Instance sidecar_countable : Countable Sidecar.
Proof.
  refine (inj_countable' (fun p => ((sc_format_version p, sc_path p, sc_object_id p, sc_object_type p), (sc_bonus_type p, sc_logical_size p,
      sc_size_bonus_offset p, sc_size_spill_offset p), (sc_snapshot_guid p, sc_sha256 p, sc_raw_state p)))
    (fun '((a1, a2, a3, a4), (b1, b2, b3, b4), (c1, c2, c3)) => {| sc_format_version := a1; sc_path := a2; sc_object_id := a3;
      sc_object_type := a4; sc_bonus_type := b1; sc_logical_size := b2; sc_size_bonus_offset := b3; sc_size_spill_offset := b4;
      sc_snapshot_guid := c1; sc_sha256 := c2; sc_raw_state := c3 |}) _). by intros [].
Defined.

#[export] Instance toy_json : SidecarJson := {
  to_writer_pretty sidecar := [Z.pos (countable.encode sidecar)];
  from_reader json := match json with
    | Z.pos p :: _ => ok_or (countable.decode p) (Foreign "invalid JSON")
    | _ => Err (Foreign "invalid JSON") end;
}.

#[export] Instance toy_json_laws : SidecarJsonLaws.
Proof. split. intros sidecar. cbn. by rewrite countable.decode_encode. Qed.

(** A snapshot is extracted to [/f]; then an update of its file arrives, whose
    sidecar cannot be put in place (call 20 is refused). *)
Definition tree_update : list Z := write_stream initial_control Fletcher4_default
  [(Begin update_begin, []); (Object (tree_object 8 19 44), toy_bonus 5); (Write (tree_write 8 19 8), [72; 69; 76; 76; 79; 0; 0; 0]); (End_, [])].
Definition file_name : name := bytes_of_string "f".
Definition empty_host : host := {| h_store := {[ [] := NDir ]}; h_clock := 0 |}.
Abbreviation extraction_run :=
  (extract_snapshot_to (H0 := faults_at []) 12 tree_bytes (bytes_of_string "/hello.c") [file_name] false None None empty_host).
Definition extracted_host : host := extraction_run.2.
Abbreviation update_run calls := (apply_incremental_to (H0 := faults_at calls) 12 tree_update [file_name] None extracted_host).

Example extracted_run : is_ok extraction_run.1 = true /\ h_store extracted_host !! [file_name] = Some (NFile (bytes_of_string "hello")).
Proof. split; vm_compute; reflexivity. Qed.

Example updated_run : is_ok (update_run []).1 = true /\ h_store (update_run []).2 !! [file_name] = Some (NFile (bytes_of_string "HELLO")).
Proof. split; vm_compute; reflexivity. Qed.

Lemma file_name_plain : plain file_name.
Proof. intros rest. discriminate. Qed.

(** The history: the extraction and the update. *)
Definition updated_host : host := (update_run []).2.
Definition sample_digested : list (list Z) :=
  snapshot_digested 12 tree_bytes (bytes_of_string "/hello.c") false None None ++
  update_digested file_name [] 12 tree_update None (h_store extracted_host).

Example sample_digested_value :
  sample_digested = [bytes_of_string "hello"; bytes_of_string "hello"; bytes_of_string "HELLO"] /\
  held file_name [] (h_store updated_host) = [bytes_of_string "HELLO"].
Proof. split; vm_compute; reflexivity. Qed.

Lemma update_history_witness :
  described (R := list Z) file_name [] sample_digested (h_store updated_host) /\
  forall (HF : Faults) fuel (stream : list Z) key updated h'',
    apply_incremental_to fuel stream [file_name] key updated_host = (Ok updated, h'') ->
    exists current sidecar file, derived (R := list Z) current sidecar /\
      h_store updated_host !! [file_name] = Some (NFile current) /\
      apply_incremental_with_key fuel stream current sidecar key = Ok (file, updated) /\
      h_store h'' !! [file_name] = Some (NFile (contents file)) /\ saved file_name [] updated (h_store h'') /\
      same_plain [] (fun y => y = file_name \/ y = file_name ++ SIDECAR_SUFFIX) (h_store updated_host) (h_store h'').
Proof.
  apply (update_history (R := list Z) file_name [] empty_host sample_digested updated_host).
  - exact file_name_plain.
  - vm_compute. reflexivity.
  - unfold sample_digested. apply (history_step file_name [] empty_host _ extracted_host _ updated_host); [apply history_one|].
    + exact (step_extract file_name [] (faults_at []) 12 tree_bytes (bytes_of_string "/hello.c") false None None empty_host).
    + exact (step_update file_name [] (faults_at []) 12 tree_update None extracted_host).
  - destruct sample_digested_value as [-> ->]. intros a b Ha Hb He. cbn [app] in Ha, Hb. rewrite !elem_of_cons, elem_of_nil in Ha, Hb.
    destruct Ha as [-> | [-> | [-> | [-> | []]]]], Hb as [-> | [-> | [-> | [-> | []]]]]; try reflexivity; vm_compute in He; discriminate He.
Defined.

Lemma update_interrupted_witness :
  h_store (update_run [20%nat]).2 !! [file_name] = Some (NFile (bytes_of_string "HELLO")) /\
  (forall (HF' : Faults) fuel' (stream' : list Z) key',
     let '(r', h'') := apply_incremental_to fuel' stream' [file_name] key' (update_run [20%nat]).2 in
     is_ok r' = false /\ h_store h'' !! [file_name] = h_store (update_run [20%nat]).2 !! [file_name] /\
     h_store h'' !! sidecar_path [file_name] = h_store (update_run [20%nat]).2 !! sidecar_path [file_name]).
Proof.
  assert (h_store (update_run [20%nat]).2 !! [file_name] = Some (NFile (bytes_of_string "HELLO"))) as Hnew by (vm_compute; reflexivity).
  split; [exact Hnew|]. assert (is_ok (update_run [20%nat]).1 = false) as Hr by (vm_compute; reflexivity).
  assert (held file_name [] (h_store extracted_host) = [bytes_of_string "hello"]) as Hold by (vm_compute; reflexivity).
  destruct (update_run [20%nat]) as [r h'] eqn:Hrun. cbn [fst snd] in *.
  apply (proj2 (update_interrupted (HF := faults_at [20%nat]) file_name [] 12 tree_update None extracted_host r h' file_name_plain Hrun Hr)).
  - rewrite Hnew. vm_compute. congruence.
  - rewrite Hold. unfold held. rewrite Hnew. intros a b Ha Hb He. cbn [app] in Ha, Hb. rewrite !elem_of_cons, elem_of_nil in Ha, Hb.
    destruct Ha as [-> | [-> | []]], Hb as [-> | [-> | []]]; try reflexivity; vm_compute in He; discriminate He.
Defined.
