(* ===== verification/Client.v ===== *)
(** The client library, src/src/client.rs: views and catalogs of a backup (lines
    20-96 and 160-379), nested images (99-158), the operations on a selected view,
    by the kind of the source (387-757), updates (763-777), paths (779-812), and
    keys (814-909). *)

From stdpp Require Import sorting.
From S2P Require Import Prelude Bytes Utf8 Stream StreamFacts Replay Compression NvList Encrypted.
From S2P Require Import EncryptedDnode Paths Snapshots Selected ObjectIndex Resolve Sparse Operations Apply.
From S2P Require Import Lznt1 NtfsStream Image DiskImage Partitions Volumes Sources Datto HostFs Tree HostExtract.
From S2P Require Import PoolBlocks PoolSource Pool PoolFile PoolOpen Inner InnerSession Updates.
#[local] Open Scope Z_scope.
#[local] Open Scope zse_scope.

(** ** Views and catalogs *)

Inductive SourceKind := SendStream | PoolMember_.

Inductive ViewKind := ViewSnapshot | ViewCurrent | ViewFullSend | ViewIncrementalSend.

#[export] Instance view_kind_eq_dec : EqDecision ViewKind.
Proof. solve_decision. Defined.

Record SourceView := {
  vw_label : list Z; vw_created_at : option Z; vw_selector : list Z; vw_update_eligible : bool; vw_encrypted : bool;
  vw_key_format : option string; vw_kind : ViewKind; vw_dataset : list Z; vw_snapshot : option (list Z); vw_parent : bool;
}.

(** The text of the summary is left out. *)
Record SourceCatalog := {
  ct_kind : SourceKind; ct_path : list Z; ct_title : list Z; ct_views : list SourceView;
  ct_container_key_file : option (list Z); ct_container_key_material : option (list Z);
}.

Record ClientExtraction := { ce_logical_size : Z; ce_sha256 : list Z; ce_update_eligible : bool }.

(** ** Paths *)

Definition split_snapshot (full_name : list Z) : list Z * option (list Z) :=
  match split_once AT full_name with
  | Some (dataset, snapshot) => (dataset, Some snapshot)
  | None => (full_name, None)
  end.

Definition child_path (directory entry_name : list Z) : result (list Z) :=
  fail! is_empty entry_name || bool_decide (SLASH ∈ entry_name) || is_dots entry_name
    with Msg "invalid directory entry name {name:?}" [] in
  if bytes_eqb directory [SLASH] then Ok (SLASH :: entry_name)
  else Ok (trim_end_matches SLASH directory ++ SLASH :: entry_name).

Definition parent_path (path : list Z) : list Z :=
  match rsplit_once SLASH (trim_end_matches SLASH path) with
  | Some ([], _) | None => [SLASH]
  | Some (parent, _) => parent
  end.

(** [Path::file_name] *)
Definition file_name (path : list Z) : option (list Z) :=
  match last (List.filter (fun part => negb (bytes_eqb part [DOT])) (components path)) with
  | Some part => if bytes_eqb part [DOT; DOT] then None else Some part
  | None => None
  end.

(** ** Keys *)

(** What a local file holds. *)
Class LocalFiles := { local_file : list Z -> result (list Z) }.

Definition key_file_required : error := Msg "{} is encrypted; choose its {} key file first" [].
Definition key_required : error := Msg "{} is encrypted; enter or choose its {} key first" [].

Definition maximum_key_size (key_format : string) : result Z :=
  if String.eqb key_format "raw" then Ok 66
  else if String.eqb key_format "hex" then Ok 66
  else if String.eqb key_format "passphrase" then Ok 514
  else Panic.

Definition read_key_for_requirement `{LocalFiles} (required : option EncryptionRequirement) (key_file : option (list Z))
  : result (option (list Z)) :=
  match required with
  | None => Ok None
  | Some required =>
      let! path := ok_or key_file key_file_required in
      let! maximum_size := maximum_key_size (er_key_format required) in
      let! bytes := with_context "opening ZFS key file {}" [] (local_file path) in
      let material := ztake (maximum_size + 1) bytes in
      fail! maximum_size <? len material with Msg "ZFS {} key file {} is too large" [] in
      let! material := normalize_key_file_material (bytes_of_string (er_key_format required)) material in
      Ok (Some material)
  end.

Definition key_material_for_requirement (required : option EncryptionRequirement) (key_material : option (list Z))
  : result (option (list Z)) :=
  match required with
  | None => Ok None
  | Some required =>
      let! material := ok_or key_material key_required in
      let! material := normalize_key_file_material (bytes_of_string (er_key_format required)) material in
      Ok (Some material)
  end.

Definition read_secret_file `{LocalFiles} (path : option (list Z)) (maximum_size : Z) : result (option (list Z)) :=
  match path with
  | None => Ok None
  | Some path =>
      let! bytes := with_context "opening {label} file {}" [] (local_file path) in
      let material := ztake (maximum_size + 1) bytes in
      fail! maximum_size <? len material with Msg "{label} file {} is too large" [] in
      Ok (Some (strip_newline material))
  end.

(** ** Catalogs *)

(** The selector of a stream's view. *)
Definition view_selector (guid : Z) : list Z := guid_string guid.

Definition created_at (time : Z) : option Z := if 0 <? time then Some time else None.

Definition send_view (requirements : gmap Z EncryptionRequirement) (snapshot : BeginRecord) : SourceView :=
  let '(dataset, snapshot_name) := split_snapshot (dataset_name snapshot) in
  let raw := has_bits (features snapshot) FEATURE_RAW in
  let full := from_guid snapshot =? 0 in
  {| vw_label := dataset_name snapshot ++ bytes_of_string "  —  " ++ bytes_of_string (if full then "full" else "incremental") ++
       bytes_of_string ", " ++ bytes_of_string (if raw then "raw encrypted" else "plain");
     vw_created_at := created_at (creation_time snapshot); vw_selector := view_selector (to_guid snapshot);
     vw_update_eligible := true; vw_encrypted := raw;
     vw_key_format := er_key_format <$> requirements !! to_guid snapshot;
     vw_kind := if full then ViewFullSend else ViewIncrementalSend;
     vw_dataset := dataset; vw_snapshot := snapshot_name; vw_parent := false |}.

Definition pool_snapshot_view (requirement : option EncryptionRequirement) (parent : bool) (snapshot : PoolSnapshot) : SourceView :=
  {| vw_label := sn_full_name snapshot ++ bytes_of_string "  —  snapshot";
     vw_created_at := created_at (sn_creation_time snapshot); vw_selector := sn_full_name snapshot;
     vw_update_eligible := true; vw_encrypted := is_some requirement; vw_key_format := er_key_format <$> requirement;
     vw_kind := ViewSnapshot; vw_dataset := sn_dataset snapshot; vw_snapshot := (split_snapshot (sn_full_name snapshot)).2;
     vw_parent := parent |}.

Definition pool_current_view (requirement : option EncryptionRequirement) (parent : bool) (dataset : DatasetInfo) : SourceView :=
  {| vw_label := di_name dataset ++ bytes_of_string "  —  current (read-only)"; vw_created_at := None; vw_selector := di_name dataset;
     vw_update_eligible := false; vw_encrypted := is_some requirement; vw_key_format := er_key_format <$> requirement;
     vw_kind := ViewCurrent; vw_dataset := di_name dataset; vw_snapshot := None; vw_parent := parent |}.

(** A dataset with another one below it. *)
Definition is_parent (datasets : list DatasetInfo) (dataset : list Z) : bool :=
  existsb (fun other => (len dataset + 1 <? len (di_name other)) && starts_with (dataset ++ [SLASH]) (di_name other)) datasets.

(** Newest first, then by name. *)
Definition newest_first (a b : PoolSnapshot) : Prop :=
  sn_creation_time b < sn_creation_time a \/ sn_creation_time a = sn_creation_time b /\ bytes_leb (sn_full_name a) (sn_full_name b) = true.
#[export] Instance newest_first_dec : RelDecision newest_first.
Proof. intros a b. unfold newest_first. apply _. Defined.

Definition vendor (format : list Z) : list Z :=
  bytes_of_string (if bytes_eqb format (bytes_of_string "slide_box") then "Slide Box"
    else if bytes_eqb format (bytes_of_string "datto_reverse_roundtrip") then "Datto Reverse RoundTrip" else "ZFS pool").

(** What the catalog of a pool shows. *)
Definition pool_views (datasets : list DatasetInfo) (snapshots : list PoolSnapshot)
    (encrypted_datasets : gmap (list Z) (option EncryptionRequirement)) : list SourceView :=
  let requirement dataset := mjoin (encrypted_datasets !! dataset) in
  List.map (fun snapshot => pool_snapshot_view (requirement (sn_dataset snapshot)) (is_parent datasets (sn_dataset snapshot)) snapshot)
    (merge_sort newest_first snapshots) ++
  List.map (fun dataset => pool_current_view (requirement (di_name dataset)) (is_parent datasets (di_name dataset)) dataset) datasets.

(** A nested image, as it is shown. *)
Record InceptionCatalog := {
  ic_image_path : list Z; ic_image_offset : Z; ic_stored_size : Z; ic_disk_size : Z; ic_container : DiskContainerKind;
  ic_volumes : list VolumeInfo; ic_session : InceptionSession;
}.

Definition from_session (session : InceptionSession) : InceptionCatalog :=
  {| ic_image_path := se_image_path session; ic_image_offset := se_image_offset session; ic_stored_size := se_stored_size session;
     ic_disk_size := se_disk_size session; ic_container := se_container session; ic_volumes := se_volumes session; ic_session := session |}.

(** The files and devices behind paths: the bytes of a stream's file, also as a
    reader, and the devices that the system opens. *)
Class ClientHost (R D : Type) := {
  open_stream : list Z -> result R;
  stream_bytes : list Z -> result (list Z);
  host_platform : Platform;
  host_paths : paths_state D;
  host_authorized : gmap (list Z) (Handle D);
}.

Section catalog.
Context `{LocalFiles} `{ZfsDisk} `{ZfsLabels} `{Codecs} `{Crypto} `{Crc32} `{PoolCore}.
Context {R : Type} `{Read R} {D : Type} `{Device D} `{DeviceInfo D} `{Luks D} `{!ClientHost R D}.
Variable fuel : nat.

Definition open_send (path : list Z) : result SourceCatalog :=
  let! stream := open_stream path in
  let! inspection := inspect_stream fuel stream in
  let! requirements :=
    if existsb (fun snapshot => has_bits (features snapshot) FEATURE_RAW) (in_snapshots inspection)
    then encryption_requirements fuel stream else Ok ∅ in
  Ok {| ct_kind := SendStream; ct_path := path; ct_title := default path (file_name path);
        ct_views := List.map (send_view requirements) (in_snapshots inspection);
        ct_container_key_file := None; ct_container_key_material := None |}.

Definition open_member (path : list Z) (container_key : option (list Z)) : result PoolMember :=
  let! handle := open_read_only host_paths host_authorized path in
  open_with_container_key host_platform (hd_file handle) container_key.

Definition encrypted_datasets (pool : PoolMember) (datasets : list DatasetInfo) : result (gmap (list Z) (option EncryptionRequirement)) :=
  fold_res (fun m dataset =>
    let! required := Pool.encryption_requirement pool fuel (di_name dataset) in
    Ok (<[di_name dataset := required]> m)) ∅ datasets.

Definition open_pool_with_container_key (path : list Z) (container_key container_key_file : option (list Z)) : result SourceCatalog :=
  let! pool := open_member path container_key in
  let! inspection := inspect pool fuel in
  let! all := datasets pool fuel in
  let! found := snapshots pool fuel None in
  let! encrypted := encrypted_datasets pool all in
  let views := pool_views all found encrypted in
  fail! is_empty views with Msg "pool {} contains no browseable filesystem datasets" [] in
  Ok {| ct_kind := PoolMember_; ct_path := path;
        ct_title := vendor (pi_backup_format inspection) ++ bytes_of_string " — " ++ pi_pool_name inspection;
        ct_views := views; ct_container_key_file := container_key_file; ct_container_key_material := container_key |}.

Definition open_pool_with_container_key_file (path : list Z) (container_key_file : option (list Z)) : result SourceCatalog :=
  let! container_key := read_secret_file container_key_file 4096 in
  open_pool_with_container_key path container_key container_key_file.

Definition open_pool (path : list Z) : result SourceCatalog := open_pool_with_container_key_file path None.

(** ** A selected view *)

Section view.
Variable self : SourceCatalog.

Definition catalog_view (i : Z) : result SourceView :=
  ok_or (get (ct_views self) i) (Msg "selected source view {index} no longer exists" [i]).

Definition open_pool_member : result PoolMember :=
  match ct_container_key_material self with
  | Some key => open_member (ct_path self) (Some key)
  | None =>
      let! key := read_secret_file (ct_container_key_file self) 4096 in
      open_member (ct_path self) key
  end.

(** How the key of a view comes about: from a file, or as it was typed. *)
Inductive KeySource := KeyFile (path : option (list Z)) | KeyMaterial (bytes : option (list Z)).

Definition obtain_key (required : option EncryptionRequirement) (key : KeySource) : result (option (list Z)) :=
  match key with
  | KeyFile path => read_key_for_requirement required path
  | KeyMaterial bytes => key_material_for_requirement required bytes
  end.


Definition catalog_list_directory (view_index : Z) (path : list Z) (key : KeySource) : result (list DirectoryEntry) :=
  let! view := catalog_view view_index in
  match ct_kind self with
  | SendStream =>
      let! stream := open_stream (ct_path self) in
      let! required := Operations.encryption_requirement fuel stream (Some (vw_selector view)) in
      let! key := obtain_key required key in
      list_directory_snapshot_with_key fuel stream path (Some (vw_selector view)) key
  | PoolMember_ =>
      let! pool := open_pool_member in
      let! required := Pool.encryption_requirement pool fuel (vw_selector view) in
      let! key := obtain_key required key in
      list_directory_with_key pool fuel (vw_selector view) path key
  end.

Section host.
Context `{SidecarJson} `{Os} `{Digest} `{Faults} `{TempNames}.

Definition extraction_from_sidecar (sidecar : Sidecar) : ClientExtraction :=
  {| ce_logical_size := sc_logical_size sidecar; ce_sha256 := sc_sha256 sidecar; ce_update_eligible := true |}.

Definition extraction_from_pool (extraction : PoolExtraction) : ClientExtraction :=
  {| ce_logical_size := pe_logical_size extraction; ce_sha256 := pe_sha256 extraction;
     ce_update_eligible := pe_sidecar_written extraction |}.

Definition catalog_extract (view_index : Z) (source_path : list Z) (destination : path) (force : bool) (key : KeySource)
  : fs_m ClientExtraction :=
  let* view := fs_ret (catalog_view view_index) in
  match ct_kind self with
  | SendStream =>
      let* stream := fs_ret (open_stream (ct_path self)) in
      let* required := fs_ret (Operations.encryption_requirement fuel stream (Some (vw_selector view))) in
      let* key := fs_ret (obtain_key required key) in
      let* sidecar := extract_snapshot_to fuel stream source_path destination force (Some (vw_selector view)) key in
      fs_ret (Ok (extraction_from_sidecar sidecar))
  | PoolMember_ =>
      let* pool := fs_ret open_pool_member in
      let* required := fs_ret (Pool.encryption_requirement pool fuel (vw_selector view)) in
      let* key := fs_ret (obtain_key required key) in
      let* extraction := pool_extract_to pool fuel (vw_selector view) source_path destination force key in
      fs_ret (Ok (extraction_from_pool extraction))
  end.

Definition catalog_extract_tree (windows : bool) (view_index : Z) (source_path : list Z) (parent : path) (destination : name)
    (force : bool) (key : KeySource) : fs_m RecursiveExtraction :=
  let* view := fs_ret (catalog_view view_index) in
  match ct_kind self with
  | SendStream =>
      let* stream := fs_ret (open_stream (ct_path self)) in
      let* required := fs_ret (Operations.encryption_requirement fuel stream (Some (vw_selector view))) in
      let* key := fs_ret (obtain_key required key) in
      extract_tree_snapshot_with_key windows fuel stream source_path parent destination force (Some (vw_selector view)) key
  | PoolMember_ =>
      let* pool := fs_ret open_pool_member in
      let* required := fs_ret (Pool.encryption_requirement pool fuel (vw_selector view)) in
      let* key := fs_ret (obtain_key required key) in
      extract_tree_with_key pool windows fuel (vw_selector view) source_path parent destination force key
  end.
End host.

Section nested.
Context `{DiskCrates} `{InnerCrates} `{DattoCrates}.

(** A nested image of the view; the agent's password as it was read or typed. *)
Definition open_inception (view_index : Z) (image_path : list Z) (key : KeySource) (agent_password : result (option (list Z)))
    (credentials : bool) (key_stash_path : option (list Z)) (image_offset : Z) (image_length : option Z) : result InceptionSession :=
  let! view := catalog_view view_index in
  match ct_kind self with
  | SendStream =>
      fail! credentials || is_some key_stash_path
        with Msg "Datto agent credentials are only valid for a pool member" [] in
      let! stream := open_stream (ct_path self) in
      let! required := Operations.encryption_requirement fuel stream (Some (vw_selector view)) in
      let! key := obtain_key required key in
      let! file := stream_bytes (ct_path self) in
      from_send_at fuel stream file (Some (vw_selector view)) image_path key image_offset image_length
  | PoolMember_ =>
      let! pool := open_pool_member in
      let! required := Pool.encryption_requirement pool fuel (vw_selector view) in
      let! key := obtain_key required key in
      let! agent_password := agent_password in
      from_pool_member_at_with_keys pool fuel (vw_selector view) image_path key agent_password key_stash_path image_offset image_length
  end.

Definition inspect_inception_with_datto (view_index : Z) (image_path : list Z) (key_file agent_password_file key_stash_path : option (list Z))
    (image_offset : Z) (image_length : option Z) : result InceptionCatalog :=
  let! session := open_inception view_index image_path (KeyFile key_file) (read_secret_file agent_password_file 4096)
    (is_some agent_password_file) key_stash_path image_offset image_length in
  Ok (from_session session).

Definition inspect_inception (view_index : Z) (image_path : list Z) (key_file : option (list Z)) (image_offset : Z) (image_length : option Z)
  : result InceptionCatalog :=
  inspect_inception_with_datto view_index image_path key_file None None image_offset image_length.

Definition inspect_inception_with_key_material (view_index : Z) (image_path : list Z) (key_material agent_password key_stash_path : option (list Z))
    (image_offset : Z) (image_length : option Z) : result InceptionCatalog :=
  let! session := open_inception view_index image_path (KeyMaterial key_material) (Ok agent_password) (is_some agent_password)
    key_stash_path image_offset image_length in
  Ok (from_session session).
End nested.
End view.

(** ** Updates *)

Section update.
Context `{SidecarJson} `{Os} `{Digest} `{Faults} `{TempNames}.

Definition apply_incremental (stream_path : list Z) (target : path) (key : KeySource) : fs_m Sidecar :=
  let* stream := fs_ret (open_stream stream_path) in
  let* required := fs_ret (apply_encryption_requirement fuel stream) in
  let* key := fs_ret (obtain_key required key) in
  apply_incremental_to fuel stream target key.
End update.
End catalog.

(** ** Nested images *)

Section nested_catalog.
Context `{DiskCrates} `{Crc32} `{InnerCrates}.

Definition open_file {D} `{Device D} `{DeviceInfo D} (platform : Platform) (system : paths_state D) (authorized : gmap (list Z) (Handle D))
    (path : list Z) (image_offset : Z) (image_length : option Z) : result InceptionCatalog :=
  let! session := from_file_at platform system authorized path image_offset image_length in
  Ok (from_session session).

Definition nested_child (self : InceptionCatalog) (volume : option (list Z)) (image_path : list Z) (image_offset : Z)
    (image_length : option Z) : result InceptionCatalog :=
  let! session := inspect_child_image_at (ic_session self) volume image_path image_offset image_length in
  Ok (from_session session).

Definition nested_list_directory (self : InceptionCatalog) (volume : option (list Z)) (path : list Z) : result (list DirectoryEntry) :=
  session_list_directory (ic_session self) volume path.

Definition nested_extract `{Os} `{Digest} `{Faults} `{TempNames} (self : InceptionCatalog) (fuel : nat) (volume : option (list Z))
    (path_ : list Z) (destination : path) (force : bool) : fs_m ClientExtraction :=
  let* extraction := session_extract (ic_session self) fuel volume path_ destination force in
  fs_ret (Ok {| ce_logical_size := ne_logical_size extraction; ce_sha256 := ne_sha256 extraction; ce_update_eligible := false |}).

Definition nested_extract_tree `{Os} `{Digest} `{Faults} `{TempNames} (windows : bool) (self : InceptionCatalog) (fuel : nat)
    (volume : option (list Z)) (path_ : list Z) (parent : path) (destination : name) (force : bool) : fs_m RecursiveExtraction :=
  session_extract_tree windows (ic_session self) fuel volume path_ parent destination force.
End nested_catalog.
