(* ===== verification/ClientProps.v ===== *)
(** Properties of the client library: navigation, what the views of a catalog
    select, and when a key is needed; first the files and devices of a machine for
    the witnesses, one stream and a drive with a member of a pool that has two
    snapshots. *)

From stdpp Require Import sorting.
From S2P Require Import Prelude Bytes Utf8 Stream StreamFacts StreamWriter StreamProps Compression CompressionProps NvList Encrypted.
From S2P Require Import EncryptedDnode EncryptedProps Replay Paths Snapshots Selected ObjectIndex FilesystemProps Resolve ResolveProps Sparse.
From S2P Require Import Operations OperationsFacts OperationsProps Image DiskImage Partitions Volumes ImageProps Sources SourceProps HostFs.
From S2P Require Import Tree HostExtract PoolBlocks PoolSource PoolBlockFacts Pool PoolFile PoolOpen PoolTreeFacts PoolFacts.
From S2P Require Import PoolProps Updates Client.
#[local] Open Scope Z_scope.
#[local] Open Scope zse_scope.

(** ** A member with snapshots

    The objects of the pool: its directory, the directory of the one dataset, its
    head, the names of its snapshots, and the snapshots, of which one has a name
    that starts with 0x and goes on with letters that are no digits. *)

Definition b_names : list Z := toy_entry "s1" 5 ++ toy_entry "0xyz" 6.
Definition toy_dataset (guid creation names : Z) (pointer : list Z) : list Z :=
  toy_dnode 16 1 0 512 0 [] (zrepeat 32 0 ++ le_bytes 8 names ++ zrepeat 8 0 ++ le_bytes 8 creation ++ zrepeat 56 0 ++ le_bytes 8 guid ++
    zrepeat 8 0 ++ pointer).
Definition b_snap_objects : list Z :=
  zrepeat 512 0 ++ toy_dnode 1 1 0 21 0 [toy_pointer 400 0 b_directory] [] ++
  toy_dnode 12 1 0 512 0 [] (zrepeat 8 0 ++ le_bytes 8 3 ++ zrepeat 24 0) ++
  toy_dataset 77 0 4 (zrepeat 128 0) ++ toy_dnode 15 1 0 (len b_names) 0 [toy_pointer 430 0 b_names] [] ++
  toy_dataset 88 1000 0 (zrepeat 128 0) ++ toy_dataset 99 2000 0 (zrepeat 128 0).
Definition b_snap_mos : list Z := toy_objset 1 (toy_dnode 10 1 0 3584 0 [toy_pointer 512 0 b_snap_objects] []).
Definition snap_label (txg : Z) : list Z := resize (76 :: le_bytes 8 txg ++ le_bytes 8 99 ++ toy_pointer 4096 0 b_snap_mos) 192 0.

Definition snap_member_bytes : list Z :=
  resize (resize (resize (resize (resize (snap_label 5 ++ snap_label 6) 400 0 ++ b_directory) 430 0 ++ b_names) 512 0 ++ b_snap_objects) 4096 0 ++ b_snap_mos)
    6272 0 ++ snap_label 6 ++ snap_label 4.

Definition snap_disk_bytes : list Z :=
  zrepeat 446 0 ++ [0; 0; 0; 0; 191; 0; 0; 0] ++ le_bytes 4 1 ++ le_bytes 4 13 ++ zrepeat 48 0 ++ [0x55; 0xaa] ++ snap_member_bytes.
Definition snap_drive : SlowDisk := {| sd_contents := snap_disk_bytes |}.

(** ** The machine *)

#[export] Instance toy_files : LocalFiles := { local_file _ := Err (Foreign "no such file") }.

Definition toy_stream_path : list Z := bytes_of_string "/backup/stream".
Definition toy_drive_path : list Z := bytes_of_string "/dev/drive".

#[export] Instance toy_machine : ClientHost (list Z) SlowDisk := {
  open_stream path := if bytes_eqb path toy_stream_path then Ok sample_bytes else Err (Foreign "no such file");
  stream_bytes path := if bytes_eqb path toy_stream_path then Ok sample_bytes else Err (Foreign "no such file");
  host_platform := Windows;
  host_paths := {| ps_metadata _ := Ok (1, 2, 3);
                   ps_open path := if bytes_eqb path toy_drive_path then Ok {| hd_identity := (1, 2, 3); hd_read_only := true; hd_file := snap_drive |}
                                   else Err (Foreign "no such file") |};
  host_authorized := ∅;
}.

Lemma toy_open_member : open_member toy_drive_path None = open_with_container_key Windows snap_drive None.
Proof.
  unfold open_member, open_read_only. cbn [host_authorized toy_machine]. rewrite lookup_empty. cbn [ps_open host_paths toy_machine].
  rewrite (proj2 (bytes_eqb_eq toy_drive_path toy_drive_path) eq_refl). reflexivity.
Qed.

Lemma snap_drive_laws : DeviceLaws snap_drive 512 snap_disk_bytes.
Proof. apply slow_disk_laws; [vm_compute; reflexivity|apply bytes_ok_dec; vm_compute; reflexivity]. Qed.

Lemma snap_member_ok member :
  open_with_container_key Windows snap_drive None = Ok member -> pm_container_encryption member = false -> member_ok member.
Proof.
  apply (opened_member_ok snap_drive 512 snap_disk_bytes (DeviceLaws0 := snap_drive_laws));
    [vm_compute; discriminate|right; vm_compute; reflexivity|vm_compute; reflexivity|vm_compute; reflexivity].
Qed.

(** ** Paths *)

Lemma join_snoc c parts part : parts <> [] -> join c (parts ++ [part]) = join c parts ++ c :: part.
Proof.
  induction parts as [|p parts IH]; [done|]. intros _. destruct parts as [|p2 parts]; [done|].
  change (join c ((p :: p2 :: parts) ++ [part])) with (p ++ c :: join c ((p2 :: parts) ++ [part])). rewrite IH by done.
  change (join c (p :: p2 :: parts)) with (p ++ c :: join c (p2 :: parts)). by rewrite <- app_assoc.
Qed.

Lemma trim_clean c part : c ∉ part -> trim_end_matches c part = part.
Proof.
  induction part as [|x part IH]; [done|]. intros Hc. cbn [trim_end_matches]. rewrite IH by set_solver.
  rewrite (proj2 (Z.eqb_neq x c)) by set_solver. by destruct part.
Qed.

Lemma trim_end_clean c s part : part <> [] -> c ∉ part -> trim_end_matches c (s ++ part) = s ++ part.
Proof.
  intros Hne Hc. induction s as [|x s IH]; cbn [app trim_end_matches]; [by apply trim_clean|]. rewrite IH. by destruct s, part.
Qed.

(** A path as the clients show it. *)
Definition shown (parts : list (list Z)) : Prop := Forall (fun part => plain_component part /\ is_dots part = false) parts.

Lemma absolute_snoc parts part : absolute (parts ++ [part]) = (if is_empty parts then [] else absolute parts) ++ SLASH :: part.
Proof. unfold absolute. destruct parts as [|p parts]; [done|]. cbn [is_empty]. by rewrite join_snoc by done. Qed.

Lemma trim_absolute parts : shown parts -> parts <> [] -> trim_end_matches SLASH (absolute parts) = absolute parts.
Proof.
  intros Hs Hne. destruct (exists_last Hne) as (before & part & ->). apply Forall_app in Hs as [_ Hs].
  apply List.Forall_cons_iff in Hs as [[[Hp Hsl] _] _]. rewrite absolute_snoc.
  change (SLASH :: part) with ([SLASH] ++ part). rewrite app_assoc. by apply trim_end_clean.
Qed.

Lemma split_absolute parts : shown parts -> parts <> [] -> split_on SLASH (absolute parts) = [] :: parts.
Proof.
  intros Hs Hne. unfold absolute. cbn [split_on]. rewrite Z.eqb_refl. f_equal. apply split_on_join; [done|].
  eapply Forall_impl; [exact Hs|]. by intros p [[_ ?] _].
Qed.

Lemma parent_absolute parts part : shown (parts ++ [part]) -> parent_path (absolute (parts ++ [part])) = absolute parts.
Proof.
  intros Hs. assert (parts ++ [part] <> []) as Hne by (by destruct parts). unfold parent_path. rewrite trim_absolute by done.
  unfold rsplit_once. rewrite split_absolute by done. rewrite <- (app_nil_l ([] :: parts ++ [part])).
  change ([] ++ [] :: parts ++ [part]) with (([] :: parts) ++ [part]). rewrite rev_unit.
  destruct (rev ([] :: parts)) as [|x l] eqn:Hr; [apply (f_equal (@rev (list Z))) in Hr; by rewrite rev_involutive in Hr|].
  rewrite <- Hr, rev_involutive. destruct parts as [|p parts]; [done|].
  change (join SLASH ([] :: p :: parts)) with (SLASH :: join SLASH (p :: parts)). done.
Qed.

Lemma normalize_absolute parts : shown parts -> normalize_path (absolute parts) = Ok (absolute parts).
Proof.
  intros Hs. rewrite normalize_path_eq. unfold absolute at 1 3. rewrite components_join by (eapply Forall_impl; [exact Hs|]; by intros p [? _]).
  destruct (existsb is_dots parts) eqn:He; [|done]. apply existsb_exists in He as (p & Hin & Hp).
  unfold shown in Hs. rewrite Forall_forall in Hs. apply list_elem_of_In in Hin. destruct (Hs p Hin) as [_ Hd]. congruence.
Qed.

(** C31: Navigation stays inside the tree. From a displayed path, the path of an
    entry exists exactly for a name that is a single ordinary component; it is
    then a displayed path, normalising keeps it, and going up from it leads back. *)
Theorem navigation_roundtrip parts entry_name :
  shown parts ->
  match child_path (absolute parts) entry_name with
  | Ok child => child = absolute (parts ++ [entry_name]) /\ shown (parts ++ [entry_name]) /\
      normalize_path child = Ok child /\ parent_path child = absolute parts
  | Err _ => ~ shown [entry_name]
  | _ => False
  end.
Proof.
  intros Hs. unfold child_path.
  destruct (is_empty entry_name || bool_decide (SLASH ∈ entry_name) || is_dots entry_name) eqn:Hbad.
  - intros Hn. apply List.Forall_cons_iff in Hn as [[[Hne Hsl] Hd] _]. rewrite Hd, bool_decide_false in Hbad by done. by destruct entry_name.
  - apply orb_false_iff in Hbad as [[Hne Hsl]%orb_false_iff Hd]. apply bool_decide_eq_false in Hsl.
    assert (shown (parts ++ [entry_name])) as Hchild.
    { apply Forall_app. split; [done|]. repeat constructor; [by destruct entry_name|done|done]. }
    assert ((if bytes_eqb (absolute parts) [SLASH] then Ok (SLASH :: entry_name)
      else Ok (trim_end_matches SLASH (absolute parts) ++ SLASH :: entry_name)) = Ok (E := error) (absolute (parts ++ [entry_name]))) as ->.
    { rewrite absolute_snoc. destruct parts as [|p parts]; [done|]. rewrite trim_absolute by done.
      destruct (bytes_eqb (absolute (p :: parts)) [SLASH]) eqn:Heq; [|done]. apply bytes_eqb_eq in Heq. exfalso.
      apply List.Forall_cons_iff in Hs as [[[Hp _] _] _]. unfold absolute in Heq. destruct parts; cbn in Heq; [congruence|]. by destruct p. }
    split; [done|]. split; [done|]. split; [by apply normalize_absolute|by apply parent_absolute].
Qed.

(** ** The views of a stream *)

Lemma inspected_substreams records : forall s s', fold_res inspect_step s records = Ok s' -> is_snapshots s' = is_snapshots s ++ substreams records.
Proof.
  induction records as [|record records IH]; intros s s' Hf; cbn [fold_res substreams] in *; [injection Hf as <-; by rewrite app_nil_r|].
  apply bind_Ok in Hf as (s1 & H1 & Hf). rewrite (IH _ _ Hf). unfold inspect_step in H1.
  apply bind_Ok in H1 as (count & _ & H1). apply bind_Ok in H1 as (n & _ & H1). apply bind_Ok in H1 as (m & _ & [= <-]). cbn [is_snapshots].
  unfold substreams. cbn [omap list_omap]. destruct (kind record); try done. case_match; [by rewrite <- app_assoc|done].
Qed.

Lemma parse_selector_guid_string guid : is_u64 guid -> parse_selector_guid (guid_string guid) = Some guid.
Proof.
  intros Hg. pose proof (parse_guid_string guid Hg) as Hp. unfold parse_guid in Hp. unfold parse_selector_guid.
  destruct (strip_prefix (bytes_of_string "0x") (guid_string guid)) as [hex|] eqn:Hs; [|discriminate Hs].
  cbn [default from_option id] in Hp. unfold id in Hp. by destruct (from_str_radix 16 U64_MAX hex); simplify_eq/=.
Qed.

(** Not the full or the short name of a snapshot. *)
Definition no_name (snapshots : list BeginRecord) (selector : list Z) : Prop :=
  forall j header, get snapshots j = Some header -> dataset_name header <> selector /\ short_name_is selector header = false.

Lemma guid_designates snapshots i header :
  get snapshots i = Some header -> is_u64 (to_guid header) ->
  (forall j other, get snapshots j = Some other -> to_guid other = to_guid header -> j = i) ->
  no_name snapshots (view_selector (to_guid header)) -> designates snapshots (Some (view_selector (to_guid header))) i.
Proof.
  intros Hi Hg Hsole Hno. unfold view_selector in *. apply (by_guid _ _ i (to_guid header)).
  - intros j [(other & Hj & Hn) _]. apply bytes_eqb_eq in Hn. by destruct (Hno j other Hj).
  - intros j other Hj. assert (strip_prefix [AT] (guid_string (to_guid header)) = None) as -> by reflexivity. cbn [default from_option id]. by apply (Hno j).
  - by apply parse_selector_guid_string.
  - split; [exists header; split; [done|apply Z.eqb_refl]|]. intros j other Hj Heq. apply Z.eqb_eq in Heq. by eapply Hsole.
Qed.

Section send.
Context `{LocalFiles} `{ZfsDisk} `{ZfsLabels} `{Codecs} `{Crypto} `{Crc32} `{PoolCore}.
Context {R : Type} `{ReadLaws R} {D : Type} `{Device D} `{DeviceInfo D} `{Luks D} `{!ClientHost R D}.
Variable fuel : nat.

Lemma open_send_views path catalog (stream : R) records r :
  open_stream path = Ok stream -> read_all fuel (StreamReader_new stream) = Ok (records, r) -> open_send fuel path = Ok catalog ->
  saw_end r = true /\ ct_kind catalog = SendStream /\ ct_path catalog = path /\
  exists requirements, ct_views catalog = map (send_view requirements) (substreams records).
Proof.
  intros Hs Hr Ho. unfold open_send in Ho. rewrite Hs in Ho. cbn [bind] in Ho. apply bind_Ok in Ho as (inspection & Hi & Ho).
  apply bind_Ok in Ho as (requirements & _ & [= <-]). cbn. unfold inspect_stream in Hi. rewrite (each_record_read_all _ _ _ _ _ _ Hr) in Hi.
  destruct (fold_res inspect_step _ records) as [s| | |] eqn:Hf; cbn [bind] in Hi; [|done..].
  destruct (saw_end r) eqn:Hsaw; [|done]. cbn [negb] in Hi. apply bind_Ok in Hi as (begin & _ & [= <-]). cbn [in_snapshots].
  split; [done|]. split; [done|]. split; [done|]. exists requirements. by rewrite (inspected_substreams _ _ _ Hf).
Qed.

(** What the selected snapshot asks for. *)
Lemma requirement_of_view (stream : R) records r i header :
  read_all fuel (StreamReader_new stream) = Ok (records, r) -> saw_end r = true -> get (substreams records) i = Some header ->
  designates (substreams records) (Some (view_selector (to_guid header))) i ->
  match Operations.encryption_requirement fuel stream (Some (view_selector (to_guid header))) with
  | Ok required => is_some required = has_bits (features header) FEATURE_RAW
  | _ => True end.
Proof.
  intros Hr Hsaw Hi Hd. assert (substreams records <> []) as Hne by (intros He; rewrite He in Hi; apply get_lt in Hi; unfold len in Hi; cbn in Hi; lia).
  unfold Operations.encryption_requirement.
  assert (wpe (plan_snapshot fuel stream (Some (view_selector (to_guid header)))) (fun plan => target plan = header) (fun _ => True)) as Hp.
  { unfold plan_snapshot. rewrite (snapshot_headers_read _ _ _ _ Hr Hsaw Hne). cbn [bind]. unfold plan_of.
    pose proof (select_spec (substreams records) (Some (view_selector (to_guid header)))) as Hsel.
    destruct (Snapshots.select_snapshot _ _) as [j|e| |]; cbn [bind wpe] in *; [|done..].
    rewrite (designates_unique _ _ _ _ Hsel Hd) in *. unfold index. rewrite Hi. cbn [expect bind].
    pose proof (plan_loop_spec (substreams records) (S (length (substreams records))) i header [to_guid header] Hi) as Hloop.
    apply get_lt in Hi. specialize (Hloop ltac:(unfold len in Hi; lia)). destruct (plan_loop _ _ _ _ _); cbn [bind wpe] in *; done. }
  destruct (plan_snapshot _ _ _) as [plan|e| |]; cbn [bind wpe] in *; [|done..]. subst header.
  destruct (has_bits (features (target plan)) FEATURE_RAW); cbn [negb]; [|done]. by destruct (find_requirement _ _ _).
Qed.

(** The views of a stream are its snapshots, and each selects its own. The
    catalog has one view per snapshot, in order; where a snapshot's GUID occurs
    once and is no snapshot's name, its view's selector designates it. A view
    shown as encrypted cannot be listed without a key; for one that is not,
    nothing depends on the key that is offered, not even whether its file can be
    read. *)
Theorem send_views_select `{ZfsCore} path catalog (stream : R) records r i view header :
  open_stream path = Ok stream -> read_all fuel (StreamReader_new stream) = Ok (records, r) -> open_send fuel path = Ok catalog ->
  get (ct_views catalog) i = Some view -> get (substreams records) i = Some header ->
  is_u64 (to_guid header) -> (forall j other, get (substreams records) j = Some other -> to_guid other = to_guid header -> j = i) ->
  no_name (substreams records) (vw_selector view) ->
  length (ct_views catalog) = length (substreams records) /\
  designates (substreams records) (Some (vw_selector view)) i /\
  (vw_encrypted view = true -> forall directory, is_ok (catalog_list_directory fuel catalog i directory (KeyMaterial None)) = false /\
     is_ok (catalog_list_directory fuel catalog i directory (KeyFile None)) = false) /\
  (vw_encrypted view = false -> forall directory key, catalog_list_directory fuel catalog i directory key =
     catalog_list_directory fuel catalog i directory (KeyMaterial None)).
Proof.
  intros Hs Hr Ho Hv Hh Hg Hsole Hno. destruct (open_send_views path catalog stream records r Hs Hr Ho) as (Hsaw & Hkind & Hpath & requirements & Hviews).
  assert (view = send_view requirements header) as ->.
  { rewrite Hviews, (get_map _ _ _ _ Hh) in Hv. by injection Hv as <-. }
  assert (vw_selector (send_view requirements header) = view_selector (to_guid header)) as Hsel by (unfold send_view; by destruct (split_snapshot _)).
  assert (vw_encrypted (send_view requirements header) = has_bits (features header) FEATURE_RAW) as Henc by (unfold send_view; by destruct (split_snapshot _)).
  rewrite Hsel in *. pose proof (guid_designates _ _ _ Hh Hg Hsole Hno) as Hd. split; [by rewrite Hviews, length_map|]. split; [done|].
  pose proof (requirement_of_view stream records r i header Hr Hsaw Hh Hd) as Hreq.
  unfold catalog_list_directory, catalog_view. rewrite Henc, Hv. cbn [ok_or bind]. rewrite Hkind, Hpath, Hs. cbn [bind]. rewrite Hsel.
  destruct (Operations.encryption_requirement fuel stream (Some (view_selector (to_guid header)))) as [required| | |]; cbn [bind] in *; [|done..].
  split; intros Hraw directory; rewrite Hraw in Hreq; destruct required; try discriminate Hreq; [done|]. by intros [].
Qed.
End send.

(** ** The views of a pool *)

Section pool.
Context `{LocalFiles} `{ZfsDiskLaws} `{CodecLaws} `{CryptoLaws} `{ZfsLabels} `{Crc32} `{PoolCore}.
Context {R : Type} `{Read R} {D : Type} `{Device D} `{DeviceInfo D} `{Luks D} `{!ClientHost R D}.
Variable fuel : nat.

(** Names as a pool has them: a dataset's is not empty and has no '@', a snapshot's is
    not empty, and none occurs twice. *)
Record named (all : list DatasetInfo) (found : list PoolSnapshot) : Prop := {
  nm_datasets : NoDup (di_name <$> all);
  nm_dataset : forall d, d ∈ all -> di_name d <> [] /\ AT ∉ di_name d;
  nm_snapshots : NoDup (sn_full_name <$> found);
  nm_snapshot : forall s, s ∈ found -> sn_name s <> [];
}.

Lemma split_once_first c s rest : c ∉ s -> split_once c (s ++ c :: rest) = Some (s, rest).
Proof.
  intros Hc. unfold split_once. rewrite split_on_app by done. pose proof (split_on_nonempty c rest).
  rewrite <- (join_split_on c rest) at 2. by destruct (split_on c rest).
Qed.

Lemma split_once_none c s : c ∉ s -> split_once c s = None.
Proof. intros Hc. unfold split_once. by rewrite split_on_clean. Qed.

Lemma not_empty {A} (l : list A) : l <> [] -> is_empty l = false.
Proof. by destruct l. Qed.

Lemma find_sole {A} (f : A -> bool) (l : list A) x : x ∈ l -> f x = true -> (forall y, y ∈ l -> f y = true -> y = x) -> List.find f l = Some x.
Proof.
  intros Hx Hf Hsole. destruct (List.find f l) as [y|] eqn:He.
  - apply List.find_some in He as [Hy%list_elem_of_In Hfy]. f_equal. by apply Hsole.
  - apply list_elem_of_In in Hx. by rewrite (List.find_none _ _ He _ Hx) in Hf.
Qed.

Lemma same_name {A} (name : A -> list Z) (l : list A) x y : NoDup (name <$> l) -> x ∈ l -> y ∈ l -> name y = name x -> y = x.
Proof.
  intros Hn (i & Hi)%list_elem_of_lookup (j & Hj)%list_elem_of_lookup He.
  assert (i = j) as <-; [|congruence]. eapply NoDup_lookup; [done|rewrite list_lookup_fmap, Hi; done|rewrite list_lookup_fmap, Hj; cbn; congruence].
Qed.

Section member.
Variable self : PoolMember.
Hypothesis Hself : member_ok self.
Variables (all : list DatasetInfo) (found : list PoolSnapshot).
Hypothesis Hall : datasets self fuel = Ok all.
Hypothesis Hfound : snapshots self fuel None = Ok found.
Hypothesis Hnamed : named all found.

Lemma filter_all {A} (l : list A) : List.filter (fun _ => true) l = l.
Proof. induction l as [|x l IH]; cbn [List.filter]; congruence. Qed.

Lemma snapshot_entries d l :
  snapshots_for self d = Ok l -> forall s, s ∈ l -> sn_dataset s = di_name d /\ sn_full_name s = di_name d ++ AT :: sn_name s /\
    exists guid, is_u64 guid /\ sn_guid s = guid_string guid.
Proof.
  intros Hf s Hs. unfold snapshots_for in Hf. apply bind_Ok in Hf as (head & _ & Hf). cbv zeta in Hf.
  destruct (bonus_u64 head 32 =? 0); [injection Hf as <-; by apply elem_of_nil in Hs|].
  apply bind_Ok in Hf as (names & _ & Hf). apply bind_Ok in Hf as (data & _ & Hf). case_match; [done|]. apply map_res_Ok in Hf.
  apply list_elem_of_lookup in Hs as (j & Hj). destruct (Forall2_lookup_r _ _ _ _ _ Hf Hj) as ([name object] & _ & Hentry).
  unfold snapshot_entry in Hentry. apply bind_Ok in Hentry as (dnode & Hdnode & [= <-]). cbn. split; [done|]. split; [done|].
  exists (dataset_guid dnode). split; [|done]. destruct (present_ok self Hself _ _ _ Hdnode) as (_ & _ & Hb & _). by apply reader_u64_range.
Qed.

(** A snapshot comes from its dataset. *)
Lemma snapshot_of s :
  s ∈ found -> exists d l, d ∈ all /\ snapshots_for self d = Ok l /\ s ∈ l /\ forall s', s' ∈ l -> s' ∈ found.
Proof.
  pose proof Hfound as Hf. unfold snapshots in Hf. rewrite Hall in Hf. cbn [bind] in Hf. rewrite filter_all in Hf.
  apply bind_Ok in Hf as (ls & Hls & [= Hsort]). apply map_res_Ok in Hls.
  assert (forall x, x ∈ found <-> exists l, l ∈ ls /\ x ∈ l) as Hin.
  { intros x. rewrite <- Hsort. unfold sort_by_name. rewrite (merge_sort_Permutation (by_name sn_full_name)).
    rewrite list_elem_of_In, in_concat. by setoid_rewrite list_elem_of_In. }
  intros (l & (i & Hi)%list_elem_of_lookup & Hs)%Hin.
  destruct (Forall2_lookup_r _ _ _ _ _ Hls Hi) as (d & Hd & Hfor). exists d, l.
  split; [by eapply list_elem_of_lookup_2|]. split; [done|]. split; [done|]. intros s' Hs'. apply Hin. exists l. split; [|done]. by eapply list_elem_of_lookup_2.
Qed.

Lemma select_current d : d ∈ all -> select_dataset self fuel (di_name d) = Ok (d, di_head_dataset_object d, None).
Proof.
  intros Hd. destruct Hnamed as [Hn Hname _ _]. destruct (Hname d Hd) as [Hne Hat]. unfold select_dataset. rewrite split_once_none by done.
  rewrite (not_empty _ Hne). rewrite Hall. cbn [bind]. rewrite (find_sole _ _ d); [done|done|by apply bytes_eqb_eq|].
  intros d' Hd' He'%bytes_eqb_eq. by eapply (same_name di_name).
Qed.

(** A snapshot is selected by its own name, unless that reads as a GUID. *)
Lemma select_named s :
  s ∈ found -> exists d guid, d ∈ all /\ sn_dataset s = di_name d /\ is_u64 guid /\ sn_guid s = guid_string guid /\
    match strip_prefix (bytes_of_string "0x") (sn_name s) with
    | None => select_dataset self fuel (sn_full_name s) = Ok (d, sn_dataset_object s, Some guid)
    | Some hex => from_str_radix 16 U64_MAX hex = None -> is_err (select_dataset self fuel (sn_full_name s)) = true
    end.
Proof.
  intros Hs. destruct (snapshot_of s Hs) as (d & l & Hd & Hl & Hsl & Hsub).
  destruct (snapshot_entries d l Hl s Hsl) as (Hds & Hfull & guid & Hg & Hguid). exists d, guid.
  split; [done|]. split; [done|]. split; [done|]. split; [done|]. destruct Hnamed as [Hn Hname Hns Hsn]. destruct (Hname d Hd) as [Hne Hat].
  unfold select_dataset. rewrite Hfull, split_once_first by done. destruct (is_empty (di_name d)) eqn:He; [by destruct (di_name d)|].
  rewrite Hall. cbn [bind]. rewrite (find_sole _ _ d); [|done|by apply bytes_eqb_eq|intros d' Hd' He2%bytes_eqb_eq; by eapply (same_name di_name)].
  cbn [ok_or bind]. unfold select_snapshot. rewrite (not_empty _ (Hsn s Hs)).
  rewrite Hl. cbn [bind]. destruct (strip_prefix _ (sn_name s)) as [hex|] eqn:Hstrip; [intros Hhex; by rewrite Hhex|]. cbn [bind].
  rewrite (find_sole _ _ s); [|done|by apply bytes_eqb_eq|].
  - cbn [ok_or bind]. pose proof (parse_guid_string guid Hg) as Hparse. rewrite Hguid. unfold pool_parse_guid. unfold parse_guid in Hparse.
    destruct (strip_prefix (bytes_of_string "0x") (guid_string guid)) as [digits|] eqn:Hp; [|discriminate Hp].
    cbn [default from_option id] in Hparse. unfold id in Hparse. by destruct (from_str_radix 16 U64_MAX digits); simplify_eq/=.
  - intros s' Hs' He3%bytes_eqb_eq. apply (same_name sn_full_name found); [done|done|by apply Hsub|].
    destruct (snapshot_entries d l Hl s' Hs') as (_ & -> & _). by rewrite Hfull, He3.
Qed.
End member.

Lemma encrypted_datasets_fold pool all : forall m m' : gmap (list Z) (option EncryptionRequirement),
  fold_res (fun m dataset =>
    let! required := Pool.encryption_requirement pool fuel (di_name dataset) in Ok (<[di_name dataset := required]> m)) m all = Ok m' ->
  (forall name required, m !! name = Some required -> Pool.encryption_requirement pool fuel name = Ok required) ->
  (forall name required, m' !! name = Some required -> Pool.encryption_requirement pool fuel name = Ok required) /\
  (forall name, is_Some (m !! name) -> is_Some (m' !! name)) /\ forall d, d ∈ all -> is_Some (m' !! di_name d).
Proof.
  induction all as [|d all IH]; intros m m' Hf Hm; cbn [fold_res] in Hf; [injection Hf as <-; split; [done|]; split; [done|]; by intros ? ?%elem_of_nil|].
  apply bind_Ok in Hf as (m1 & Hm1 & Hf). apply bind_Ok in Hm1 as (required & Hr & [= <-]).
  destruct (IH _ _ Hf) as (Hm' & Hkeep & Hnew).
  { intros name required'. destruct (decide (name = di_name d)) as [->|]; [rewrite lookup_insert_eq; congruence|rewrite lookup_insert_ne by done; apply Hm]. }
  split; [done|]. split; [|intros d' [->|]%elem_of_cons; [apply Hkeep; by rewrite lookup_insert_eq|by apply Hnew]].
  intros name Hs. apply Hkeep. destruct (decide (name = di_name d)) as [->|]; [by rewrite lookup_insert_eq|by rewrite lookup_insert_ne].
Qed.

(** The requirement a view of a dataset shows. *)
Lemma view_requirement pool all m d :
  encrypted_datasets fuel pool all = Ok m -> d ∈ all -> Pool.encryption_requirement pool fuel (di_name d) = Ok (mjoin (m !! di_name d)).
Proof.
  intros Hm Hd. destruct (encrypted_datasets_fold pool all ∅ m Hm) as (Hr & _ & Hin); [done|]. destruct (Hin d Hd) as [required Heq].
  rewrite Heq. by apply Hr.
Qed.

#[local] Instance newest_first_total : Total newest_first.
Proof.
  intros a b. unfold newest_first. destruct (Z.lt_trichotomy (sn_creation_time a) (sn_creation_time b)) as [|[He|]]; [right; lia| |left; lia].
  destruct (bytes_leb_total (sn_full_name a) (sn_full_name b)); [left|right]; right; auto.
Qed.

(** C30: A pool's views are its snapshots, newest first, then its datasets, and each
    selects its own. This of an opened pool whose datasets and snapshots can be
    listed, whose dataset names are not empty, hold no @ and are distinct, and whose
    snapshot names are not empty, and distinct in full ([named]). The selector of a
    dataset's view selects the head of that dataset; the selector of a snapshot's
    view selects that snapshot's object and GUID, unless the snapshot's name reads
    as a GUID: one that starts with 0x and is not hexadecimal is listed and cannot
    be selected. A view says of its dataset that it is encrypted exactly where that
    dataset asks for a key. *)
Theorem pool_views_select path container_key container_key_file pool all found catalog :
  member_ok pool -> open_member path container_key = Ok pool -> datasets pool fuel = Ok all -> snapshots pool fuel None = Ok found ->
  named all found -> open_pool_with_container_key fuel path container_key container_key_file = Ok catalog ->
  (exists shown, shown ≡ₚ found /\ Sorted newest_first shown /\
     vw_selector <$> ct_views catalog = (sn_full_name <$> shown) ++ (di_name <$> all)) /\
  (forall d, d ∈ all -> select_dataset pool fuel (di_name d) = Ok (d, di_head_dataset_object d, None)) /\
  (forall s, s ∈ found -> exists d guid, d ∈ all /\ sn_dataset s = di_name d /\ is_u64 guid /\ sn_guid s = guid_string guid /\
     match strip_prefix (bytes_of_string "0x") (sn_name s) with
     | None => select_dataset pool fuel (sn_full_name s) = Ok (d, sn_dataset_object s, Some guid)
     | Some hex => from_str_radix 16 U64_MAX hex = None -> is_err (select_dataset pool fuel (sn_full_name s)) = true
     end) /\
  (forall view, view ∈ ct_views catalog -> exists required,
     Pool.encryption_requirement pool fuel (vw_dataset view) = Ok required /\ vw_encrypted view = is_some required).
Proof.
  intros Hself Hopen Hall Hfound Hnamed Hcat. unfold open_pool_with_container_key in Hcat. rewrite Hopen in Hcat. cbn [bind] in Hcat.
  apply bind_Ok in Hcat as (inspection & _ & Hcat). rewrite Hall in Hcat. cbn [bind] in Hcat. rewrite Hfound in Hcat. cbn [bind] in Hcat.
  apply bind_Ok in Hcat as (m & Hm & Hcat). cbv zeta in Hcat. case_match; [done|]. injection Hcat as <-. cbn [ct_views].
  split; [|split; [|split]].
  - exists (merge_sort newest_first found). split; [apply merge_sort_Permutation|]. split; [apply Sorted_merge_sort, _|].
    unfold pool_views. rewrite fmap_app. f_equal; rewrite <- list_fmap_compose; by apply list_fmap_ext.
  - intros d Hd. by eapply select_current.
  - intros s Hs. by eapply select_named.
  - intros view Hv. unfold pool_views in Hv. apply elem_of_app in Hv as [Hv|Hv]; apply list_elem_of_fmap in Hv as (x & -> & Hx).
    + rewrite (merge_sort_Permutation newest_first) in Hx. destruct (select_named pool Hself all found Hall Hfound Hnamed x Hx) as (d & _ & Hd & Hds & _).
      cbn [vw_dataset vw_encrypted pool_snapshot_view]. rewrite Hds. eexists. split; [by apply (view_requirement pool all)|done].
    + cbn [vw_dataset vw_encrypted pool_current_view]. eexists. split; [by apply (view_requirement pool all)|done].
Qed.
End pool.

(** ** Instances *)

Lemma navigation_roundtrip_witness :
  child_path (bytes_of_string "/home/ann") (bytes_of_string "notes") = Ok (bytes_of_string "/home/ann/notes") /\
  is_ok (child_path (bytes_of_string "/home/ann") (bytes_of_string "..")) = false /\
  match child_path (absolute [bytes_of_string "home"; bytes_of_string "ann"]) (bytes_of_string "notes") with
  | Ok child => child = absolute ([bytes_of_string "home"; bytes_of_string "ann"] ++ [bytes_of_string "notes"]) /\
      shown ([bytes_of_string "home"; bytes_of_string "ann"] ++ [bytes_of_string "notes"]) /\
      normalize_path child = Ok child /\ parent_path child = absolute [bytes_of_string "home"; bytes_of_string "ann"]
  | Err _ => ~ shown [bytes_of_string "notes"]
  | _ => False
  end.
Proof.
  split; [vm_compute; reflexivity|]. split; [vm_compute; reflexivity|]. apply navigation_roundtrip.
  apply Forall_cons; split; [|apply Forall_cons; split; [|apply Forall_nil; done]].
  all: split; [split; [vm_compute; discriminate|apply (bool_decide_unpack _); vm_compute; exact I]|vm_compute; reflexivity].
Defined.

(** The stream has one snapshot, p@s. *)
Abbreviation toy_send := (open_send 5 toy_stream_path).

Lemma send_views_select_witness :
  exists catalog view, toy_send = Ok catalog /\ get (ct_views catalog) 0 = Some view /\ vw_encrypted view = false /\
    length (ct_views catalog) = 1%nat /\ designates [sample_begin] (Some (vw_selector view)) 0 /\
    forall directory key, catalog_list_directory 5 catalog 0 directory key = catalog_list_directory 5 catalog 0 directory (KeyMaterial None).
Proof.
  assert (match read_all 5 (StreamReader_new sample_bytes) with Ok (records, _) => Some (substreams records) | _ => None end = Some [sample_begin])
    as Hread by (vm_compute; reflexivity).
  destruct (read_all 5 (StreamReader_new sample_bytes)) as [[records r]| | |] eqn:Hr; [|discriminate Hread..]. injection Hread as Hread.
  assert (match toy_send with Ok catalog => match get (ct_views catalog) 0 with
    | Some view => negb (vw_encrypted view) && bytes_eqb (vw_selector view) (bytes_of_string "0x000000000000004d") | None => false end | _ => false end = true)
    as Hcat by (vm_compute; reflexivity).
  destruct toy_send as [catalog| | |] eqn:Ho; [|discriminate Hcat..].
  destruct (get (ct_views catalog) 0) as [view|] eqn:Hv; [|discriminate Hcat].
  apply andb_true_iff in Hcat as [Hplain Hselector]. apply negb_true_iff in Hplain. apply bytes_eqb_eq in Hselector.
  exists catalog, view. split; [done|]. split; [done|]. split; [done|].
  destruct (send_views_select 5 toy_stream_path catalog sample_bytes records r 0 view sample_begin) as (Hlength & Hd & _ & Hkey).
  - vm_compute. reflexivity.
  - exact Hr.
  - exact Ho.
  - exact Hv.
  - rewrite Hread. vm_compute. reflexivity.
  - vm_compute. split; congruence.
  - rewrite Hread. intros j other Hj _. apply get_lt in Hj. change (len [sample_begin]) with 1 in Hj. lia.
  - rewrite Hread, Hselector. intros j header Hj. pose proof (get_lt _ _ _ Hj) as Hj'. change (len [sample_begin]) with 1 in Hj'.
    assert (j = 0) as -> by lia. injection Hj as <-. split; [vm_compute; congruence|vm_compute; reflexivity].
  - rewrite Hread in Hlength, Hd. split; [exact Hlength|]. split; [exact Hd|]. exact (Hkey Hplain).
Defined.

(** The pool has one dataset and two snapshots, of which one cannot be selected. *)
Abbreviation toy_pool_member := (open_with_container_key Windows snap_drive None).
Abbreviation toy_pool_catalog := (open_pool_with_container_key 5 toy_drive_path None None).

Lemma pool_views_select_witness :
  exists pool all found catalog, toy_pool_member = Ok pool /\ datasets pool 5 = Ok all /\ snapshots pool 5 None = Ok found /\
    toy_pool_catalog = Ok catalog /\
    map vw_selector (ct_views catalog) = [bytes_of_string "tank@0xyz"; bytes_of_string "tank@s1"; bytes_of_string "tank"] /\
    (forall s, s ∈ found -> exists d guid, d ∈ all /\ sn_dataset s = di_name d /\ is_u64 guid /\ sn_guid s = guid_string guid /\
     match strip_prefix (bytes_of_string "0x") (sn_name s) with
     | None => select_dataset pool 5 (sn_full_name s) = Ok (d, sn_dataset_object s, Some guid)
     | Some hex => from_str_radix 16 U64_MAX hex = None -> is_err (select_dataset pool 5 (sn_full_name s)) = true
     end).
Proof.
  assert (match toy_pool_member with Ok pool =>
    match datasets pool 5, snapshots pool 5 None with Ok all, Ok found => Some (pm_container_encryption pool, map di_name all, map sn_full_name found, map sn_name found)
    | _, _ => None end | _ => None end = Some (false, [bytes_of_string "tank"], [bytes_of_string "tank@0xyz"; bytes_of_string "tank@s1"],
      [bytes_of_string "0xyz"; bytes_of_string "s1"])) as Hpool by (vm_compute; reflexivity).
  assert (match toy_pool_catalog with Ok catalog => Some (map vw_selector (ct_views catalog)) | _ => None end =
    Some [bytes_of_string "tank@0xyz"; bytes_of_string "tank@s1"; bytes_of_string "tank"]) as Hcat by (vm_compute; reflexivity).
  destruct toy_pool_catalog as [catalog| | |] eqn:Hc; [|discriminate Hcat..]. injection Hcat as Hviews.
  destruct toy_pool_member as [pool| | |] eqn:Hopen; [|discriminate Hpool..].
  destruct (datasets pool 5) as [all| | |] eqn:Hall; [|discriminate Hpool..].
  destruct (snapshots pool 5 None) as [found| | |] eqn:Hfound; [|discriminate Hpool..]. injection Hpool as Hplain Hds Hfull Hnames.
  exists pool, all, found, catalog. split; [done|]. split; [done|]. split; [done|]. split; [done|]. split; [exact Hviews|].
  eapply (pool_views_select 5 toy_drive_path None None pool all found catalog).
  - by apply snap_member_ok.
  - rewrite toy_open_member. exact Hopen.
  - exact Hall.
  - exact Hfound.
  - split.
    + change (NoDup (map di_name all)). rewrite Hds. apply (bool_decide_unpack _). vm_compute. exact I.
    + intros d Hd. assert (di_name d ∈ map di_name all) as Hin by (by apply (list_elem_of_fmap_2 di_name)). rewrite Hds in Hin.
      apply list_elem_of_singleton in Hin as ->. split; [vm_compute; discriminate|]. apply (bool_decide_unpack _). vm_compute. exact I.
    + change (NoDup (map sn_full_name found)). rewrite Hfull. apply (bool_decide_unpack _). vm_compute. exact I.
    + intros s Hs. assert (sn_name s ∈ map sn_name found) as Hin by (by apply (list_elem_of_fmap_2 sn_name)). rewrite Hnames in Hin.
      apply elem_of_cons in Hin as [->|Hin]; [vm_compute; discriminate|]. apply list_elem_of_singleton in Hin as ->. vm_compute. discriminate.
  - exact Hc.
Defined.
