(* ===== verification/Presentation.v ===== *)
(** What the desktop clients show, src/src/presentation.rs: titles and details of
    restore points (lines 11-87), volumes (89-167), sizes (169-184) and errors
    (186-259); times of src/src/snapshot_time.rs, and the labels of inception.rs. *)

From S2P Require Import Prelude Bytes Utf8 Paths Resolve.
From S2P Require Import Partitions Volumes Client.
#[local] Open Scope Z_scope.
#[local] Open Scope zse_scope.

(** ** Times, snapshot_time.rs

    chrono and its time zones, crates: whether an instant can be shown, and its
    text in the machine's zone or in a named one. *)
Class Chrono := {
  Tz : Type;
  parse_tz : list Z -> option Tz;
  has_datetime : Z -> bool;
  strftime : option Tz -> Z -> string -> list Z;
}.

Section times.
Context `{Chrono}.

Inductive SnapshotTimeZone := Local | Named (zone : Tz).

Definition SnapshotTimeZone_from_str (value : list Z) : option SnapshotTimeZone :=
  if bytes_eqb value (bytes_of_string "local") then Some Local else Named <$> parse_tz value.

Definition I64_MAX : Z := 9223372036854775807.

Definition format_time (zone : SnapshotTimeZone) (timestamp : Z) (local named : string) : option (list Z) :=
  if timestamp =? 0 then None
  else if I64_MAX <? timestamp then None
  else if negb (has_datetime timestamp) then None
  else Some (match zone with
    | Local => strftime None timestamp local
    | Named zone => strftime (Some zone) timestamp named
    end).

Definition format (zone : SnapshotTimeZone) (timestamp : Z) : option (list Z) :=
  format_time zone timestamp "%b %-d, %Y · %-I:%M:%S %p (UTC%:z)" "%b %-d, %Y · %-I:%M:%S %p %Z (UTC%:z)".

Definition format_short (zone : SnapshotTimeZone) (timestamp : Z) : option (list Z) :=
  format_time zone timestamp "%b %-d, %Y · %-I:%M %p" "%b %-d, %Y · %-I:%M %p %Z".

Definition display_label (self : SourceView) (zone : SnapshotTimeZone) : list Z :=
  match t ← vw_created_at self; format zone t with
  | Some time => time ++ bytes_of_string " — " ++ vw_label self
  | None => vw_label self
  end.

(** ** Restore points *)

Definition short_name (dataset : list Z) : list Z := default dataset (last (split_on SLASH dataset)).

Definition view_title (view : SourceView) (zone : SnapshotTimeZone) : list Z :=
  match t ← vw_created_at view; format_short zone t with
  | Some time => time
  | None =>
      match vw_kind view with
      | ViewCurrent => bytes_of_string "Current files"
      | _ => default (short_name (vw_dataset view)) (vw_snapshot view)
      end
  end.

Definition view_detail (view : SourceView) : list Z :=
  short_name (vw_dataset view) ++
  if vw_parent view then bytes_of_string " · holds other backups"
  else match vw_kind view with
    | ViewSnapshot => bytes_of_string " · " ++ default (bytes_of_string "snapshot") (vw_snapshot view)
    | ViewCurrent => bytes_of_string " · live files, not a snapshot"
    | ViewFullSend => bytes_of_string " · full copy"
    | ViewIncrementalSend => bytes_of_string " · changes only"
    end.

Definition view_line (view : SourceView) (zone : SnapshotTimeZone) : list Z :=
  view_title view zone ++ bytes_of_string "  —  " ++ view_detail view ++
  bytes_of_string (if vw_encrypted view then "  ·  encrypted" else "").
End times.

(** A view that a first-time user may be offered. *)
Definition is_restore_point (view : SourceView) : bool := negb (bool_decide (vw_kind view = ViewCurrent)) && negb (vw_parent view).

Definition source_description (catalog : SourceCatalog) : list Z :=
  let kind := bytes_of_string (match ct_kind catalog with
    | SendStream => "ZFS send file"
    | PoolMember_ =>
        if starts_with (bytes_of_string "Slide Box") (ct_title catalog) then "Slide backup"
        else if starts_with (bytes_of_string "Datto") (ct_title catalog) then "Datto backup drive"
        else "ZFS pool"
    end) in
  let points := len (List.filter is_restore_point (ct_views catalog)) in
  if points =? 0 then kind
  else if points =? 1 then kind ++ bytes_of_string " · 1 restore point"
  else kind ++ bytes_of_string " · " ++ decimal points ++ bytes_of_string " restore points".

(** [iter().enumerate().filter(..).max_by_key(|(index, x)| (key(x), Reverse(index)))]: of
    equal keys, the first. *)
Fixpoint max_index {A} (keep : A -> bool) (key : A -> Z) (i : Z) (l : list A) (best : option (Z * Z)) : option Z :=
  match l with
  | [] => snd <$> best
  | x :: l =>
      max_index keep key (i + 1) l
        (if keep x then match best with
           | Some (k, j) => if k <? key x then Some (key x, i) else Some (k, j)
           | None => Some (key x, i)
           end
         else best)
  end.

Definition recommended_view (views : list SourceView) : option Z :=
  match max_index is_restore_point (fun view => default 0 (vw_created_at view)) 0 views None with
  | Some index => Some index
  | None => if is_empty views then None else Some 0
  end.

(** ** Volumes *)

Definition EFI_SYSTEM : list Z := bytes_of_string "c12a7328-f81f-11d2-ba4b-00a0c93ec93b".
Definition MICROSOFT_RESERVED : list Z := bytes_of_string "e3c9e316-0b5c-4db8-817d-f92df00215ae".
Definition WINDOWS_RECOVERY : list Z := bytes_of_string "de94bba4-06d1-4d40-a16a-bfd50179d6ac".
Definition BASIC_DATA : list Z := bytes_of_string "ebd0a0a2-b9e5-4433-87c0-68b6b72699c7".
Definition LINUX_FILESYSTEM : list Z := bytes_of_string "0fc63daf-8483-4772-8e79-3d69d8477de4".
Definition LINUX_SWAP : list Z := bytes_of_string "0657fd6d-a4ab-43c4-84e5-0933c84b4f4f".
Definition BIOS_BOOT : list Z := bytes_of_string "21686148-6449-6e6f-744e-656564454649".

Definition one_of (kind : list Z) (kinds : list (list Z)) : bool := existsb (bytes_eqb kind) kinds.

(** [Display] of a file system, inception.rs *)
Definition filesystem_name (kind : FilesystemKind) : list Z :=
  bytes_of_string (match kind with
    | Ntfs => "NTFS" | Fat12 => "FAT12" | Fat16 => "FAT16" | Fat32 => "FAT32" | Exfat => "exFAT" | Ext4 => "ext4/ext2"
    end).

Definition volume_label (self : VolumeInfo) : list Z :=
  vi_selector self ++ bytes_of_string " · " ++
  from_option filesystem_name (bytes_of_string "unknown filesystem") (vi_filesystem self) ++ bytes_of_string " · " ++
  decimal (vi_length self) ++ bytes_of_string " bytes" ++
  (if is_empty (vi_name self) then [] else bytes_of_string " · " ++ vi_name self).

Definition volume_purpose (volume : VolumeInfo) : list Z :=
  let kind := map to_ascii_lowercase (vi_partition_type volume) in
  let filesystem := vi_filesystem volume in
  if one_of kind [EFI_SYSTEM; bytes_of_string "0xef"] then bytes_of_string "EFI system (startup files)"
  else if one_of kind [MICROSOFT_RESERVED] then bytes_of_string "Microsoft reserved"
  else if one_of kind [WINDOWS_RECOVERY; bytes_of_string "0x27"] then bytes_of_string "Windows recovery"
  else if one_of kind [LINUX_SWAP; bytes_of_string "0x82"] then bytes_of_string "Linux swap"
  else if one_of kind [BIOS_BOOT] then bytes_of_string "BIOS boot"
  else if one_of kind [LINUX_FILESYSTEM; bytes_of_string "0x83"] then bytes_of_string "Linux files"
  else if one_of kind [BASIC_DATA; bytes_of_string "0x07"] && match filesystem with Some Ntfs => true | _ => false end
  then bytes_of_string "Windows files"
  else if negb (is_empty (vi_name volume)) then vi_name volume
  else bytes_of_string (match filesystem with
    | Some Ntfs => "Windows files"
    | Some Ext4 => "Linux files"
    | Some _ => "Files"
    | None => "Unrecognized contents"
    end).

Definition is_helper_partition (volume : VolumeInfo) : bool :=
  one_of (map to_ascii_lowercase (vi_partition_type volume))
    [EFI_SYSTEM; MICROSOFT_RESERVED; WINDOWS_RECOVERY; BIOS_BOOT; LINUX_SWAP; bytes_of_string "0xef"; bytes_of_string "0x27"; bytes_of_string "0x82"].

Definition offered (helpers : bool) (volume : VolumeInfo) : bool :=
  is_some (vi_filesystem volume) && (helpers || negb (is_helper_partition volume)).

Definition largest (volumes : list VolumeInfo) (helpers : bool) : option Z := max_index (offered helpers) vi_length 0 volumes None.

Definition recommended_volume (volumes : list VolumeInfo) : option Z :=
  match largest volumes false with Some index => Some index | None => largest volumes true end.

(** ** Sizes

    [bytes as f64] is rounded to 53 bits, half to even; dividing it by 1024 is exact. A
    value is the number of bytes and how often it was divided. Printing one decimal
    rounds half to even. *)

Definition div_half_even (a b : Z) : Z :=
  let q := a / b in
  let r := a mod b in
  if 2 * r <? b then q else if b <? 2 * r then q + 1 else if Z.even q then q else q + 1.

Definition as_f64 (n : Z) : Z :=
  let shift := Z.max 0 (Z.log2 n - 52) in
  Z.shiftl (div_half_even n (2 ^ shift)) shift.

Definition UNITS : list string := ["bytes"; "KB"; "MB"; "GB"; "TB"]%string.

Fixpoint size_unit (fuel : nat) (value : Z) (unit : Z) : Z :=
  match fuel with
  | O => unit
  | S fuel => if (1024 ^ (unit + 1) <=? value) && (unit + 1 <? len UNITS) then size_unit fuel value (unit + 1) else unit
  end.

Definition tenths (value unit : Z) : Z := div_half_even (10 * value) (1024 ^ unit).

Definition format_size (bytes : Z) : list Z :=
  if bytes =? 1 then bytes_of_string "1 byte"
  else if bytes <? 1024 then decimal bytes ++ bytes_of_string " bytes"
  else
    let value := as_f64 bytes in
    let unit := size_unit (length UNITS) value 0 in
    decimal (tenths value unit / 10) ++ bytes_of_string "." ++ decimal (tenths value unit mod 10) ++
    bytes_of_string " " ++ bytes_of_string (default ""%string (get UNITS unit)).

Definition volume_title (volume : VolumeInfo) : list Z :=
  let place := if vi_partition volume =? 0 then bytes_of_string "Whole disk" else bytes_of_string "Partition " ++ decimal (vi_partition volume) in
  let filesystem := from_option filesystem_name (bytes_of_string "can't be read") (vi_filesystem volume) in
  place ++ bytes_of_string " · " ++ volume_purpose volume ++ bytes_of_string " · " ++ filesystem ++ bytes_of_string " · " ++
  format_size (vi_length volume).

(** ** Errors *)

Record FriendlyError := { fe_title : list Z; fe_message : list Z; fe_details : list Z }.

Fixpoint contains_text (needle s : list Z) : bool :=
  starts_with needle s || match s with [] => false | _ :: s => contains_text needle s end.

Definition mentions (needles : list string) (lower : list Z) : bool := existsb (fun needle => contains_text (bytes_of_string needle) lower) needles.

(** [str::trim]: the white space of Unicode, encoded. *)
Definition white_space : list (list Z) :=
  [[9]; [10]; [11]; [12]; [13]; [32]; [0xc2; 0x85]; [0xc2; 0xa0]; [0xe1; 0x9a; 0x80]; [0xe2; 0x80; 0xa8]; [0xe2; 0x80; 0xa9];
   [0xe2; 0x80; 0xaf]; [0xe2; 0x81; 0x9f]; [0xe3; 0x80; 0x80]] ++ map (fun i => [0xe2; 0x80; 0x80 + Z.of_nat i]) (seq 0 11).

Fixpoint trim_from (fuel : nat) (spaces : list (list Z)) (s : list Z) : list Z :=
  match fuel with
  | O => s
  | S fuel =>
      match List.find (fun space => starts_with space s) spaces with
      | Some space => trim_from fuel spaces (zdrop (len space) s)
      | None => s
      end
  end.

Definition trim (s : list Z) : list Z :=
  let s := trim_from (length s) white_space s in
  rev (trim_from (length s) (map (@rev Z) white_space) (rev s)).

Definition wording (raw : list Z) : list Z * list Z :=
  let lower := map to_ascii_lowercase raw in
  let told title message := (bytes_of_string title, bytes_of_string message) in
  if mentions ["could not open this backup"; "source was not recognized"]%string lower then
    told "This file isn't a backup ZFS Explore can open"
      "Choose a ZFS send file, a Slide or ZFS pool image, or a virtual disk (RAW, QCOW2 or VMDK). Single-disk and mirrored pools are supported."
  else if mentions ["already exists"]%string lower then
    told "Something with that name is already there" "Choose a different name or folder. Nothing was overwritten."
  else if mentions ["did not authenticate"; "raw zfs key must"; "hex zfs key must"]%string lower then
    told "That key didn't unlock this backup"
      "Check that you copied the whole key, or choose the key file for this backup, and try again."
  else if mentions ["permission denied"; "access is denied"; "os error 5"; "not granted"]%string lower then
    (bytes_of_string "ZFS Explore wasn't allowed to read this",
     bytes_of_string "For an attached drive, approve the administrator prompt (Mac) or start ZFS Explore with " ++
     34 :: bytes_of_string "Run as administrator" ++ 34 :: bytes_of_string " (Windows), then try again.")
  else if mentions ["no longer attached"; "no such file"; "cannot find the file"]%string lower then
    told "The backup can't be found"
      "Reconnect the drive or check that the file is still in the same place, then open it again."
  else if mentions ["no space"; "disk full"]%string lower then
    told "There isn't enough free space" "Choose a destination with more free space and try again."
  else if mentions ["is encrypted"; "requires a dataset key"; "provide its"]%string lower then
    told "This backup is locked" "Enter its encryption key or choose its key file to continue."
  else
    told "That didn't work"
      "ZFS Explore couldn't finish this step. Your backup has not been changed. The details below can help with troubleshooting.".

Definition friendly_error (raw : list Z) : FriendlyError :=
  let '(title, message) := wording raw in
  {| fe_title := title; fe_message := message; fe_details := trim raw |}.
