(* ===== verification/PresentationProps.v ===== *)
(** Properties of what the desktop clients show: which restore point and volume they
    recommend, and how close a printed size is. *)

From S2P Require Import Prelude Bytes Utf8 Paths Resolve.
From S2P Require Import Partitions Volumes PoolTreeFacts Client Presentation.
#[local] Open Scope Z_scope.
#[local] Open Scope zse_scope.

(** ** Recommendations *)

(** The element at [i] is kept, none that is kept has a greater key, and none
    before it has the same. *)
Definition best {A} (keep : A -> bool) (key : A -> Z) (l : list A) (i : Z) : Prop :=
  exists x, get l i = Some x /\ keep x = true /\
    forall j y, get l j = Some y -> keep y = true -> key y < key x \/ key y = key x /\ i <= j.

Lemma get_snoc {A} (l : list A) x i : get (l ++ [x]) i = if i =? len l then Some x else get l i.
Proof.
  pose proof (len_nonneg l). unfold get. rewrite len_app. change (len [x]) with 1. destruct (Z.eqb_spec i (len l)) as [->|Hne].
  - rewrite (proj2 (Z.leb_le _ _)), (proj2 (Z.ltb_lt _ _)) by lia. cbn [andb]. unfold len. rewrite Nat2Z.id. by rewrite list_lookup_middle.
  - destruct (Z.leb_spec 0 i); cbn [andb]; [|done]. destruct (Z.ltb_spec i (len l)) as [Hin|Hout].
    + rewrite (proj2 (Z.ltb_lt _ _)) by lia. unfold len in Hin. by rewrite lookup_app_l by lia.
    + by rewrite (proj2 (Z.ltb_ge _ _)) by lia.
Qed.

Section max_index.
Context {A : Type} (keep : A -> bool) (key : A -> Z).

(** What [max_index] holds of the elements it has passed. *)
Definition best_so_far (seen : list A) (found : option (Z * Z)) : Prop :=
  match found with
  | Some (k, i) => best keep key seen i /\ exists x, get seen i = Some x /\ key x = k
  | None => Forall (fun x => keep x = false) seen
  end.

Lemma best_snoc seen x found :
  best_so_far seen found ->
  best_so_far (seen ++ [x])
    (if keep x then match found with
       | Some (k, j) => if k <? key x then Some (key x, len seen) else Some (k, j)
       | None => Some (key x, len seen)
       end
     else found).
Proof.
  intros Hs. assert (get (seen ++ [x]) (len seen) = Some x) as Hlast by (rewrite get_snoc, Z.eqb_refl; done).
  destruct (keep x) eqn:Hx; destruct found as [[k i]|]; cbn [best_so_far] in *.
  - destruct Hs as [(y & Hy & Hkeep & Hbest) (y' & Hy' & Hk)]. rewrite Hy in Hy'. injection Hy' as <-. pose proof (get_lt _ _ _ Hy) as Hi.
    destruct (Z.ltb_spec k (key x)) as [Hlt|Hge]; cbn [best_so_far].
    + split; [|by exists x]. exists x. split; [done|]. split; [done|]. intros j z Hz Hkz. rewrite get_snoc in Hz.
      destruct (Z.eqb_spec j (len seen)) as [->|]; [injection Hz as <-; lia|]. destruct (Hbest j z Hz Hkz); lia.
    + assert (get (seen ++ [x]) i = Some y) as Hy2 by (rewrite get_snoc, (proj2 (Z.eqb_neq _ _)) by lia; done).
      split; [|by exists y]. exists y. split; [done|]. split; [done|]. intros j z Hz Hkz. rewrite get_snoc in Hz.
      destruct (Z.eqb_spec j (len seen)) as [->|]; [injection Hz as <-; lia|]. by apply Hbest.
  - split; [|by exists x]. exists x. split; [done|]. split; [done|]. intros j z Hz Hkz. rewrite get_snoc in Hz.
    destruct (Z.eqb_spec j (len seen)) as [->|]; [injection Hz as <-; lia|]. pose proof (get_Forall _ _ _ _ Hs Hz) as Hf. cbn in Hf. congruence.
  - destruct Hs as [(y & Hy & Hkeep & Hbest) (y' & Hy' & Hk)]. rewrite Hy in Hy'. injection Hy' as <-. pose proof (get_lt _ _ _ Hy) as Hi.
    assert (get (seen ++ [x]) i = Some y) as Hy2 by (rewrite get_snoc, (proj2 (Z.eqb_neq _ _)) by lia; done).
    split; [|by exists y]. exists y. split; [done|]. split; [done|]. intros j z Hz Hkz. rewrite get_snoc in Hz.
    destruct (Z.eqb_spec j (len seen)) as [->|]; [injection Hz as <-; congruence|]. by apply Hbest.
  - apply Forall_app. split; [done|]. by repeat constructor.
Qed.

Lemma max_index_from l : forall seen found, best_so_far seen found ->
  match max_index keep key (len seen) l found with
  | Some i => best keep key (seen ++ l) i
  | None => Forall (fun x => keep x = false) (seen ++ l)
  end.
Proof.
  induction l as [|x l IH]; intros seen found Hs; cbn [max_index].
  - rewrite app_nil_r. destruct found as [[k i]|]; cbn; [apply Hs|done].
  - pose proof (IH (seen ++ [x]) _ (best_snoc seen x found Hs)) as Hi. rewrite <- app_assoc in Hi.
    replace (len seen + 1) with (len (seen ++ [x])); [exact Hi|]. unfold len. rewrite length_app. cbn. lia.
Qed.

Lemma max_index_spec l :
  match max_index keep key 0 l None with
  | Some i => best keep key l i
  | None => Forall (fun x => keep x = false) l
  end.
Proof. apply (max_index_from l [] None). by constructor. Qed.
End max_index.

(** What is recommended is the best of what is offered. The recommended restore
    point is the newest that is no current view and no parent, the first of
    several as new, and without any the first view; there is none only among no
    views. The recommended volume is the largest that can be read and is no helper
    partition, the first of several as large, and without any the largest that
    can be read; there is none only where no volume can be read. *)
Theorem recommended_best views volumes :
  match recommended_view views with
  | Some i => best is_restore_point (fun view => default 0 (vw_created_at view)) views i \/
      i = 0 /\ views <> [] /\ Forall (fun view => is_restore_point view = false) views
  | None => views = []
  end /\
  match recommended_volume volumes with
  | Some i => best (offered false) vi_length volumes i \/
      best (offered true) vi_length volumes i /\ Forall (fun volume => offered false volume = false) volumes
  | None => Forall (fun volume => vi_filesystem volume = None) volumes
  end.
Proof.
  split.
  - unfold recommended_view. pose proof (max_index_spec is_restore_point (fun view => default 0 (vw_created_at view)) views) as Hm.
    destruct (max_index _ _ _ _ _) as [i|]; [by left|]. destruct views as [|view views]; [done|]. cbn [is_empty]. by right.
  - unfold recommended_volume, largest. pose proof (max_index_spec (offered false) vi_length volumes) as Hm.
    destruct (max_index (offered false) _ _ _ _) as [i|]; [by left|]. pose proof (max_index_spec (offered true) vi_length volumes) as Hm'.
    destruct (max_index (offered true) _ _ _ _) as [i|]; [by right|]. eapply Forall_impl; [exact Hm'|]. intros volume Hv. unfold offered in Hv.
    by destruct (vi_filesystem volume).
Qed.

(** ** Sizes *)

Lemma div_half_even_close a b : 0 < b -> 2 * Z.abs (b * div_half_even a b - a) <= b.
Proof.
  intros Hb. unfold div_half_even. pose proof (Z.div_mod a b ltac:(lia)). pose proof (Z.mod_pos_bound a b Hb).
  destruct (Z.ltb_spec (2 * (a mod b)) b); [nia|]. destruct (Z.ltb_spec b (2 * (a mod b))); [nia|]. case_match; nia.
Qed.

Lemma as_f64_exact n : 0 <= n < 2 ^ 53 -> as_f64 n = n.
Proof.
  intros Hn. unfold as_f64. assert (Z.log2 n <= 52) as Hl.
  { destruct (Z.eq_dec n 0) as [->|]; [by cbn|]. assert (Z.log2 n < 53) by (apply Z.log2_lt_pow2; lia). lia. }
  rewrite Z.max_l by lia. change (2 ^ 0) with 1. rewrite Z.shiftl_0_r. unfold div_half_even. rewrite Z.div_1_r, Z.mod_1_r. done.
Qed.

Lemma as_f64_close n : 0 <= n <= U64_MAX -> Z.abs (as_f64 n - n) <= 1024.
Proof.
  intros Hn. unfold as_f64. rewrite Z.shiftl_mul_pow2 by lia. set (shift := Z.max 0 (Z.log2 n - 52)).
  assert (0 <= shift <= 11) as Hs.
  { assert (Z.log2 n <= 63); [|lia]. destruct (Z.eq_dec n 0) as [->|]; [by cbn|].
    assert (Z.log2 n < 64) by (apply Z.log2_lt_pow2; lia). lia. }
  pose proof (div_half_even_close n (2 ^ shift) ltac:(lia)). assert (2 ^ shift <= 2 ^ 11) as Hp by (apply Z.pow_le_mono_r; lia).
  change (2 ^ 11) with 2048 in Hp. lia.
Qed.

Lemma size_unit_spec fuel : forall value unit,
  0 <= unit <= 4 -> 1024 ^ unit <= value -> 4 - unit < Z.of_nat fuel ->
  unit <= size_unit fuel value unit <= 4 /\ 1024 ^ size_unit fuel value unit <= value /\
  (size_unit fuel value unit < 4 -> value < 1024 ^ (size_unit fuel value unit + 1)).
Proof.
  induction fuel as [|fuel IH]; intros value unit Hu Hv Hf; [lia|]. cbn [size_unit]. change (len UNITS) with 5.
  destruct ((1024 ^ (unit + 1) <=? value) && (unit + 1 <? 5)) eqn:Hc.
  - apply andb_true_iff in Hc as [H1%Z.leb_le H2%Z.ltb_lt]. destruct (IH value (unit + 1)) as (? & ? & ?); lia.
  - split; [lia|]. split; [done|]. intros H4. apply andb_false_iff in Hc as [H1%Z.leb_gt|H2%Z.ltb_ge]; lia.
Qed.

(** A printed size is right to its last digit. From 1024 bytes on, the text is a
    number with one decimal and a unit; the unit is the largest that is not more
    than the size, up to TB, and the number is the size in that unit up to half of
    its last digit, and from 2^53 bytes on another 1024 bytes of rounding. *)
Theorem size_close bytes :
  1024 <= bytes <= U64_MAX ->
  exists t unit name, 1 <= unit <= 4 /\ get UNITS unit = Some name /\
    format_size bytes = decimal (t / 10) ++ bytes_of_string "." ++ decimal (t mod 10) ++ bytes_of_string " " ++ bytes_of_string name /\
    1024 ^ unit <= bytes /\ (unit < 4 -> bytes < 1024 ^ (unit + 1)) /\
    2 * Z.abs (t * 1024 ^ unit - 10 * bytes) <= 1024 ^ unit + (if bytes <? 2 ^ 53 then 0 else 20 * 1024).
Proof.
  intros Hb. set (value := as_f64 bytes).
  assert (Z.abs (value - bytes) <= 1024 /\ (bytes < 2 ^ 53 -> value = bytes)) as [Hclose Hexact].
  { split; [apply as_f64_close; lia|]. intros H53. apply as_f64_exact. lia. }
  assert (1024 <= value) as Hvalue by (destruct (Z.lt_ge_cases bytes (2 ^ 53)) as [H53|H53]; [rewrite Hexact; lia|lia]).
  destruct (size_unit_spec 5 value 0 ltac:(lia) ltac:(lia) ltac:(lia)) as (Hu & Hlow & Hhigh).
  set (unit := size_unit 5 value 0) in *.
  assert (unit <> 0) as Hne by (intros H0; rewrite H0 in Hhigh; cbn in Hhigh; lia).
  assert (exists name, get UNITS unit = Some name) as [name Hname].
  { assert (unit = 1 \/ unit = 2 \/ unit = 3 \/ unit = 4) as [-> | [-> | [-> | ->]]] by lia; by eexists. }
  exists (tenths value unit), unit, name. split; [lia|]. split; [done|]. split.
  { unfold format_size. rewrite (proj2 (Z.eqb_neq _ _)), (proj2 (Z.ltb_ge _ _)) by lia. cbv zeta. fold value.
    change (length UNITS) with 5%nat. fold unit. by rewrite Hname. }
  pose proof (div_half_even_close (10 * value) (1024 ^ unit) ltac:(lia)) as Ht. fold (tenths value unit) in Ht.
  destruct (Z.ltb_spec bytes (2 ^ 53)) as [H53|H53]; [rewrite (Hexact H53) in *; split; [lia|]; split; [done|lia]|].
  assert (unit = 4) as H4.
  { destruct (Z.eq_dec unit 4); [done|]. assert (value < 1024 ^ (unit + 1)) by (apply Hhigh; lia).
    assert (1024 ^ (unit + 1) <= 1024 ^ 4) as Hp by (apply Z.pow_le_mono_r; lia). change (1024 ^ 4) with (2 ^ 40) in Hp. lia. }
  rewrite H4 in *. change (1024 ^ 4) with (2 ^ 40) in *. split; [lia|]. split; [lia|]. lia.
Qed.

(** The unit is chosen before the number is rounded. *)
Lemma size_close_witness :
  format_size 1048575 = bytes_of_string "1024.0 KB" /\ format_size 10240 = bytes_of_string "10.0 KB" /\
  exists t unit name, 1 <= unit <= 4 /\ get UNITS unit = Some name /\
    format_size 45000000000 = decimal (t / 10) ++ bytes_of_string "." ++ decimal (t mod 10) ++ bytes_of_string " " ++ bytes_of_string name /\
    1024 ^ unit <= 45000000000 /\ (unit < 4 -> 45000000000 < 1024 ^ (unit + 1)) /\
    2 * Z.abs (t * 1024 ^ unit - 10 * 45000000000) <= 1024 ^ unit + (if 45000000000 <? 2 ^ 53 then 0 else 20 * 1024).
Proof. split; [vm_compute; reflexivity|]. split; [vm_compute; reflexivity|]. apply size_close. lia. Defined.

Example friendly_locked :
  fe_title (friendly_error (bytes_of_string "tank is encrypted; enter or choose its raw key first")) = bytes_of_string "This backup is locked".
Proof. vm_compute. reflexivity. Qed.

Example friendly_trims : fe_details (friendly_error (bytes_of_string " x  ")) = bytes_of_string "x".
Proof. vm_compute. reflexivity. Qed.
