(* ===== verification/Service.v ===== *)
(** The bridge of the macOS app, src/src/bin/zfs-explore-service.rs: the session and
    what it shows (lines 20-223), the requests (225-422), the authorization of a
    disk (424-573), and the loop over the request lines (575-608). *)

From stdpp Require Import sorting.
From S2P Require Import Prelude Bytes Utf8 Stream StreamFacts Replay Compression NvList Encrypted EncryptedDnode Paths.
From S2P Require Import Snapshots Selected ObjectIndex Resolve Sparse Operations Apply Lznt1 NtfsStream Image DiskImage.
From S2P Require Import Partitions Volumes Sources Datto HostFs Tree HostExtract PoolBlocks PoolSource Pool PoolFile.
From S2P Require Import PoolOpen Inner InnerSession Updates Client Presentation.
#[local] Open Scope Z_scope.
#[local] Open Scope zse_scope.

(** ** Data *)

Inductive Request :=
| Open (path : list Z) (authorize : bool)
| Select (index : Z)
| Unlock (key key_file : option (list Z))
| ListPath (path : list Z)
| Enter (name : list Z)
| Back
| Volume (selector : list Z)
| Extract (name destination : list Z)
| Close.

Record Layer := { ly_catalog : InceptionCatalog; ly_volume : option (list Z); ly_path : list Z }.

(** The layers, the innermost one last. *)
Record Session := {
  sv_source : option SourceCatalog; sv_title : list Z; sv_view : Z; sv_path : list Z; sv_key : option (list Z);
  sv_layers : list Layer; sv_authorized : option (list Z);
}.

Definition Session_default : Session :=
  {| sv_source := None; sv_title := []; sv_view := 0; sv_path := []; sv_key := None; sv_layers := []; sv_authorized := None |}.

(** What a response shows. Of a source's summary the text is left out. *)
Record EntryValue := { ev_name : list Z; ev_directory : bool; ev_regular : bool; ev_size : option Z }.
Record ViewValue := { vv_view : SourceView; vv_name : list Z; vv_detail : list Z }.
Record VolumeValue := {
  xv_selector : list Z; xv_label : list Z; xv_supported : bool; xv_bytes : Z; xv_filesystem : option (list Z);
  xv_title : list Z; xv_purpose : list Z; xv_partition : Z; xv_recommended : bool;
}.
Record StateValue := {
  sa_title : list Z; sa_description : option (list Z); sa_recommended_view : option Z; sa_views : list ViewValue; sa_view : Z;
  sa_locked : bool; sa_path : list Z; sa_entries : list EntryValue; sa_volumes : list VolumeValue; sa_volume : option (list Z);
  sa_layers : list (list Z); sa_can_back : bool;
}.
Inductive Value :=
| Shown (state : StateValue)
| Restored (destination : list Z) (bytes : Z) (sha256 : option (list Z)) (files skipped : Z).

(** ** A small monad: a state that stays changed where an error follows *)

Definition st_m (S A : Type) : Type := S -> result A * S.
Definition st_ret {S A} (r : result A) : st_m S A := fun s => (r, s).
Definition st_bind {S A B} (m : st_m S A) (k : A -> st_m S B) : st_m S B := fun s =>
  match m s with
  | (Ok a, s) => k a s
  | (Err e, s) => (Err e, s)
  | (Panic, s) => (Panic, s)
  | (OutOfFuel, s) => (OutOfFuel, s)
  end.
Definition st_get {S} : st_m S S := fun s => (Ok s, s).
Definition st_put {S} (s : S) : st_m S unit := fun _ => (Ok tt, s).

(** [match m { Ok(a) => Ok(a), Err(e) => { undo; Err(e) } }] *)
Definition st_undo {S A} (m : st_m S A) (undo : S -> S) : st_m S A := fun s =>
  match m s with
  | (Err e, s) => (Err e, undo s)
  | other => other
  end.

Notation "'do!' x ':=' m 'in' k" := (st_bind m (fun x => k))
  (at level 10, x pattern, m at level 100, k at level 200, format "'[v' 'do!'  x  ':='  m  'in' '/' k ']'") : zse_scope.

(** ** Authorizing a disk (macOS)

    The system: what a path is, opening it, and the handle that authopen passes over
    its socket, with whether it did so cleanly. *)
Class Authorization (D : Type) := {
  device_before : list Z -> result (option (Z * Z * Z));
  open_device : list Z -> option (result (Handle D));
  authopen : list Z -> result (option (Handle D) * bool);
}.

Definition ascii_digit (b : Z) : bool := (48 <=? b) && (b <=? 57).

Definition disk_numbers (name : list Z) : option (list Z) :=
  match strip_prefix (bytes_of_string "disk") name with
  | Some numbers => Some numbers
  | None => strip_prefix (bytes_of_string "rdisk") name
  end.

(** [Path::parent] and [Path::file_name] pass over "." components. *)
Definition is_disk_device_path (path : list Z) : bool :=
  starts_with [SLASH] path &&
  match List.filter (fun part => negb (bytes_eqb part [DOT])) (components path) with
  | [parent; name] =>
      bytes_eqb parent (bytes_of_string "dev") &&
      match disk_numbers name with
      | Some numbers => forallb (fun number => negb (is_empty number) && forallb ascii_digit number) (split_on 115 numbers)
      | None => false
      end
  | _ => false
  end.

Section authorization.
Context {D : Type} `{Authorization D}.
Variable macos : bool.

(** What came over the socket must be the disk that was looked at before. *)
Definition received (before : Z * Z * Z) (descriptor : option (Handle D)) (clean : bool) : result (Handle D) :=
  let! file := ok_or descriptor
    (Msg "Read access to {} was not granted ({status}). An administrator must approve the macOS prompt." []) in
  fail! negb clean with Msg "Read access was not granted. Choose the drive again to retry." [] in
  fail! negb (bool_decide (before = hd_identity file))
    with Msg "The disk changed during authorization. Choose the drive again." [] in
  Ok file.

Definition approved (path : list Z) : result (Handle D) :=
  let! before := with_context "The selected disk is no longer attached" [] (device_before path) in
  let! before := ok_or before (Msg "The selected path is not a disk device" []) in
  match open_device path with
  | Some opened => with_context "Opening the selected disk read-only" [] opened
  | None => let! (descriptor, clean) := authopen path in received before descriptor clean
  end.

Definition authorize_device (handles : gmap (list Z) (Handle D)) (path : list Z) : result (gmap (list Z) (Handle D)) :=
  if macos then
    fail! negb (is_disk_device_path path)
      with Msg "Choose a disk device such as /dev/disk4 or /dev/rdisk4s2 for authorization" [] in
    let! file := approved path in
    register_authorized_source handles path file
  else Err (Msg "Device authorization is only available on macOS" []).
End authorization.

(** ** The session *)

Definition new_layer (catalog : InceptionCatalog) : Layer :=
  let supported := List.filter (fun v => is_some (vi_filesystem v)) (ic_volumes catalog) in
  {| ly_catalog := catalog; ly_path := [SLASH];
     ly_volume := match supported with [v] => Some (vi_selector v) | _ => None end |}.

(** The machine with these handles registered. *)
Definition with_handles {R D} (machine : ClientHost R D) (handles : gmap (list Z) (Handle D)) : ClientHost R D := {|
  open_stream := @open_stream R D machine; stream_bytes := @stream_bytes R D machine;
  host_platform := @host_platform R D machine; host_paths := @host_paths R D machine; host_authorized := handles |}.

Section session.
Context `{LocalFiles} `{ZfsDisk} `{ZfsLabels} `{Codecs} `{Crypto} `{Crc32} `{PoolCore} `{DiskCrates} `{InnerCrates} `{DattoCrates}.
Context {R : Type} `{Read R} {D : Type} `{Device D} `{DeviceInfo D} `{Luks D} `{!ClientHost R D} `{!Authorization D}.
Variables (fuel : nat) (macos : bool).

Section shown.
Variable self : Session.

Definition session_source : result SourceCatalog := ok_or (sv_source self) (Msg "Choose a backup first" []).

Definition locked : bool :=
  is_empty (sv_layers self) && negb (is_some (sv_key self)) &&
  match sv_source self with
  | Some source => match get (ct_views source) (sv_view self) with Some v => vw_encrypted v | None => false end
  | None => false
  end.

Definition list_layer (layer : Layer) (path : list Z) : result (list DirectoryEntry) :=
  match ly_volume layer with
  | None => Ok []
  | Some _ => nested_list_directory (ly_catalog layer) (ly_volume layer) path
  end.

Definition list_path (path : list Z) : result (list DirectoryEntry) :=
  match last (sv_layers self) with
  | Some layer => list_layer layer path
  | None =>
      let! source := session_source in
      catalog_list_directory fuel source (sv_view self) path (KeyMaterial (sv_key self))
  end.

Definition current_path : list Z := from_option ly_path (sv_path self) (last (sv_layers self)).

Definition entry_value (entry : DirectoryEntry) : EntryValue :=
  {| ev_name := de_name entry; ev_directory := de_dirent_type entry =? 4; ev_regular := de_dirent_type entry =? 8;
     ev_size := de_logical_size entry |}.

(** Directories first, then by name. *)
Definition entry_before (a b : EntryValue) : Prop :=
  (if Bool.eqb (ev_directory a) (ev_directory b) then bytes_leb (to_lowercase (ev_name a)) (to_lowercase (ev_name b))
   else ev_directory a) = true.
#[global] Instance entry_before_dec : RelDecision entry_before.
Proof. intros a b. unfold entry_before. apply _. Defined.

Definition volume_value (recommended : option Z) (index : Z) (v : VolumeInfo) : VolumeValue :=
  {| xv_selector := vi_selector v; xv_label := volume_label v; xv_supported := is_some (vi_filesystem v); xv_bytes := vi_length v;
     xv_filesystem := filesystem_name <$> vi_filesystem v; xv_title := volume_title v; xv_purpose := volume_purpose v;
     xv_partition := vi_partition v; xv_recommended := bool_decide (recommended = Some index) |}.

Definition can_back : bool := (if is_some (sv_source self) then 0 else 1) <? len (sv_layers self).

Definition state : result StateValue :=
  let! entries :=
    if locked || negb (is_some (sv_source self)) && is_empty (sv_layers self) then Ok []
    else list_path current_path in
  let layer := last (sv_layers self) in
  Ok {| sa_title := sv_title self; sa_description := source_description <$> sv_source self;
        sa_recommended_view := source ← sv_source self; recommended_view (ct_views source);
        sa_views := from_option (fun source =>
          map (fun v => {| vv_view := v; vv_name := short_name (vw_dataset v); vv_detail := view_detail v |}) (ct_views source)) [] (sv_source self);
        sa_view := sv_view self; sa_locked := locked; sa_path := current_path;
        sa_entries := merge_sort entry_before (map entry_value entries);
        sa_volumes := from_option (fun l =>
          let recommended := recommended_volume (ic_volumes (ly_catalog l)) in
          map (fun '(index, v) => volume_value recommended index v) (enumerate (ic_volumes (ly_catalog l)))) [] layer;
        sa_volume := l ← layer; ly_volume l;
        sa_layers := map (fun l => ic_image_path (ly_catalog l)) (sv_layers self);
        sa_can_back := can_back |}.
End shown.

(** ** Opening a source *)

Definition open_source (source_path : list Z) : result (Session * StateValue) :=
  let candidate source layers :=
    {| sv_source := source; sv_title := default [] (file_name source_path); sv_view := 0; sv_path := [SLASH]; sv_key := None;
       sv_layers := layers; sv_authorized := None |} in
  let! opened := catch (open_send fuel source_path) (fun source => Ok (candidate (Some source) []))
    (fun _ => catch (open_pool fuel source_path) (fun source => Ok (candidate (Some source) []))
    (fun _ => catch (open_file host_platform host_paths host_authorized source_path 0 None)
      (fun image => Ok (candidate None [new_layer image]))
      (fun _ => Err (Msg "Could not open this backup. Choose a ZFS send, an offline single-disk/mirror pool image, or a supported disk image." [])))) in
  fail! match sv_source opened with Some source => is_empty (ct_views source) | None => false end
    with Msg "This backup contains no browsable filesystem views" [] in
  let view := source ← sv_source opened; recommended_view (ct_views source) in
  let opened := {| sv_source := sv_source opened; sv_title := sv_title opened; sv_view := default (sv_view opened) view;
    sv_path := sv_path opened; sv_key := sv_key opened; sv_layers := sv_layers opened; sv_authorized := sv_authorized opened |} in
  let! shown := state opened in
  Ok (opened, shown).

(** ** Requests that stay inside the session *)

Definition show : st_m Session Value := fun s => ((let! shown := state s in Ok (Shown shown)), s).

(** A session with other layers. *)
Definition set_layers (s : Session) (layers : list Layer) : Session :=
  {| sv_source := sv_source s; sv_title := sv_title s; sv_view := sv_view s; sv_path := sv_path s; sv_key := sv_key s;
     sv_layers := layers; sv_authorized := sv_authorized s |}.

(** A session at another place of the source. *)
Definition set_place (s : Session) (view : Z) (path : list Z) (key : option (list Z)) (layers : list Layer) : Session :=
  {| sv_source := sv_source s; sv_title := sv_title s; sv_view := view; sv_path := path; sv_key := key; sv_layers := layers;
     sv_authorized := sv_authorized s |}.

Definition handle_select (index : Z) : st_m Session Value :=
  do! self := st_get in
  do! source := st_ret (session_source self) in
  do! _ := st_ret (catalog_view source index) in
  do! _ := st_put (set_place self index [SLASH] None []) in
  st_undo show (fun s => set_place s (sv_view self) (sv_path self) (sv_key self) (sv_layers self)).

Definition read_key_file (path : list Z) : result (list Z) :=
  let! bytes := with_context "Opening key file" [] (local_file path) in
  fail! 4096 <? len bytes with Msg "Key files must be at most 4096 bytes" [] in
  let material := ztake 4097 bytes in
  fail! 4096 <? len material with Msg "Key file grew beyond 4096 bytes" [] in
  Ok material.

Definition unlock_material (key key_file : option (list Z)) : result (list Z) :=
  match key, key_file with
  | Some key, _ => Ok key
  | None, Some path => read_key_file path
  | None, None => Err (Msg "Enter a key or choose a key file" [])
  end.

Definition handle_unlock (key key_file : option (list Z)) : st_m Session Value :=
  do! self := st_get in
  do! material := st_ret (unlock_material key key_file) in
  do! source := st_ret (session_source self) in
  do! _ := st_ret (catalog_list_directory fuel source (sv_view self) [SLASH] (KeyMaterial (Some material))) in
  do! _ := st_put (set_place self (sv_view self) [SLASH] (Some material) (sv_layers self)) in
  show.

(** [if let Some(layer) = self.layers.last_mut()] *)
Definition with_last (layers : list Layer) (f : Layer -> Layer) : list Layer :=
  match rev layers with layer :: before => rev before ++ [f layer] | [] => [] end.

Definition handle_list (path : list Z) : st_m Session Value :=
  do! self := st_get in
  do! _ := st_ret (list_path self path) in
  do! _ := st_put (match last (sv_layers self) with
    | Some _ => set_layers self (with_last (sv_layers self)
        (fun layer => {| ly_catalog := ly_catalog layer; ly_volume := ly_volume layer; ly_path := path |}))
    | None => set_place self (sv_view self) path (sv_key self) (sv_layers self)
    end) in
  show.

Definition handle_enter (entry_name : list Z) : st_m Session Value :=
  do! self := st_get in
  if 8 <=? len (sv_layers self) then st_ret (Err (Msg "Up to eight nested disk images can be open at once" []))
  else
    do! path := st_ret (child_path (current_path self) entry_name) in
    do! catalog := st_ret (match last (sv_layers self) with
      | Some layer => nested_child (ly_catalog layer) (ly_volume layer) path 0 None
      | None =>
          let! source := session_source self in
          inspect_inception_with_key_material fuel source (sv_view self) path (sv_key self) None None 0 None
      end) in
    do! _ := st_put (set_layers self (sv_layers self ++ [new_layer catalog])) in
    st_undo show (fun s => set_layers s (removelast (sv_layers s))).

Definition handle_back : st_m Session Value :=
  do! self := st_get in
  if negb (can_back self) then st_ret (Err (Msg "Already at the source" []))
  else
    do! previous := st_ret (expect (last (sv_layers self))) in
    do! _ := st_put (set_layers self (removelast (sv_layers self))) in
    st_undo show (fun s => set_layers s (sv_layers s ++ [previous])).

Definition handle_volume (selector : list Z) : st_m Session Value :=
  do! self := st_get in
  do! layer := st_ret (ok_or (last (sv_layers self)) (Msg "Open a disk image first" [])) in
  if negb (existsb (fun v => bytes_eqb (vi_selector v) selector && is_some (vi_filesystem v)) (ic_volumes (ly_catalog layer)))
  then st_ret (Err (Msg "Choose a supported filesystem volume" []))
  else
    do! _ := st_ret (nested_list_directory (ly_catalog layer) (Some selector) [SLASH]) in
    do! _ := st_put (set_layers self (with_last (sv_layers self)
      (fun layer => {| ly_catalog := ly_catalog layer; ly_volume := Some selector; ly_path := [SLASH] |}))) in
    show.
End session.

(** ** The process: a session and the registered handles *)

Record Service (D : Type) := { sv_session : Session; sv_handles : gmap (list Z) (Handle D) }.
Arguments sv_session {D}.
Arguments sv_handles {D}.

(** The place of the host's file system that a path names. *)
Class HostPaths := { host_path : list Z -> path }.

Section requests.
Context `{LocalFiles} `{ZfsDisk} `{ZfsLabels} `{Codecs} `{Crypto} `{Crc32} `{PoolCore} `{DiskCrates} `{InnerCrates} `{DattoCrates}.
Context {R : Type} `{Read R} {D : Type} `{Device D} `{DeviceInfo D} `{Luks D} `{!Authorization D}.
Variables (fuel : nat) (macos : bool) (machine : ClientHost R D).

Definition handle_open (path : list Z) (authorize : bool) : st_m (Service D) Value :=
  do! self := st_get in
  do! handles := st_ret (if authorize then authorize_device macos (sv_handles self) path else Ok (sv_handles self)) in
  match open_source (ClientHost0 := with_handles machine handles) fuel path with
  | Ok (candidate, shown) =>
      let authorized := if authorize then Some path else None in
      do! _ := st_put {| sv_session := {| sv_source := sv_source candidate; sv_title := sv_title candidate; sv_view := sv_view candidate;
          sv_path := sv_path candidate; sv_key := sv_key candidate; sv_layers := sv_layers candidate; sv_authorized := authorized |};
        sv_handles := release_authorized_sources handles authorized |} in
      st_ret (Ok (Shown shown))
  | Err error =>
      do! _ := st_put {| sv_session := sv_session self; sv_handles := release_authorized_sources handles (sv_authorized (sv_session self)) |} in
      st_ret (Err error)
  | Panic => st_ret Panic
  | OutOfFuel => st_ret OutOfFuel
  end.

Definition handle_close : st_m (Service D) Value :=
  do! self := st_get in
  do! _ := st_put {| sv_session := Session_default; sv_handles := release_authorized_sources (sv_handles self) None |} in
  fun s => ((let! shown := state (ClientHost0 := with_handles machine (sv_handles s)) fuel (sv_session s) in Ok (Shown shown)), s).

(** A request of the session, with the handles registered at the time. *)
Definition in_session (m : ClientHost R D -> st_m Session Value) : st_m (Service D) Value := fun s =>
  let '(r, session) := m (with_handles machine (sv_handles s)) (sv_session s) in
  (r, {| sv_session := session; sv_handles := sv_handles s |}).

Section host.
Context `{SidecarJson} `{Os} `{Digest} `{Faults} `{TempNames} `{HostPaths}.

(** Nothing of the session changes. *)
Definition handle_extract (self : Session) (handles : gmap (list Z) (Handle D)) (entry_name destination : list Z) : fs_m Value :=
  let host := with_handles machine handles in
  let* entries := fs_ret (list_path (ClientHost0 := host) fuel self (current_path self)) in
  let* entry := fs_ret (ok_or (List.find (fun e => bytes_eqb (de_name e) entry_name) entries)
    (Msg "Select an existing file or folder first" [])) in
  let* path := fs_ret (child_path (current_path self) entry_name) in
  let place := host_path destination in
  let* existing := path_exists place in
  if existing : bool then fs_ret (Err (Msg "A file or folder already exists there. Choose a new name or destination; your existing files have been kept." []))
  else if de_dirent_type entry =? 4 then
    match place with
    | destination_name :: parent =>
        let* result := match last (sv_layers self) with
          | Some layer => nested_extract_tree false (ly_catalog layer) fuel (ly_volume layer) path parent destination_name false
          | None =>
              let* source := fs_ret (session_source self) in
              catalog_extract_tree (ClientHost0 := host) fuel source false (sv_view self) path parent destination_name false (KeyMaterial (sv_key self))
          end in
        fs_ret (Ok (Restored destination (logical_bytes result) None (files result) (skipped_entries result)))
    | [] => fs_ret (Err (Msg "recursive destination has no directory name" []))
    end
  else if de_dirent_type entry =? 8 then
    let* result := match last (sv_layers self) with
      | Some layer => nested_extract (ly_catalog layer) fuel (ly_volume layer) path place false
      | None =>
          let* source := fs_ret (session_source self) in
          catalog_extract (ClientHost0 := host) fuel source (sv_view self) path place false (KeyMaterial (sv_key self))
      end in
    fs_ret (Ok (Restored destination (ce_logical_size result) (Some (ce_sha256 result)) 1 0))
  else fs_ret (Err (Msg "Only regular files and folders can be restored; links and special files are not followed" [])).

Definition handle (request : Request) (self : Service D) : fs_m (result Value * Service D) := fun h =>
  match request with
  | Open path authorize => (Ok (handle_open path authorize self), h)
  | Select index => (Ok (in_session (fun machine => handle_select (ClientHost0 := machine) fuel index) self), h)
  | Unlock key key_file => (Ok (in_session (fun machine => handle_unlock (ClientHost0 := machine) fuel key key_file) self), h)
  | ListPath path => (Ok (in_session (fun machine => handle_list (ClientHost0 := machine) fuel path) self), h)
  | Enter name => (Ok (in_session (fun machine => handle_enter (ClientHost0 := machine) fuel name) self), h)
  | Back => (Ok (in_session (fun machine => handle_back (ClientHost0 := machine) fuel) self), h)
  | Volume selector => (Ok (in_session (fun machine => handle_volume (ClientHost0 := machine) fuel selector) self), h)
  | Extract name destination =>
      let '(r, h) := handle_extract (sv_session self) (sv_handles self) name destination h in (Ok (r, self), h)
  | Close => (Ok (handle_close self), h)
  end.
End host.
End requests.

(** ** The request lines

    serde_json at the requests, and the text of an error with its causes. *)
Class ServiceJson := {
  request_from_slice : list Z -> result Request;
  error_text : error -> list Z;
}.

(** Standard input and output: how reading line [n] fails, if it does, and writing its
    response, the line break behind it, and the flush. *)
Class StdStreams := {
  read_fails : nat -> option error;
  to_writer_fails : nat -> option error;
  write_all_fails : nat -> option error;
  flush_fails : nat -> option error;
}.

Definition io (failure : option error) : result unit := match failure with Some e => Err e | None => Ok tt end.

Inductive Response := Answered (value : Value) | Refused (raw title message : list Z).

Definition NEWLINE : Z := 10.
Definition MAX_REQUEST : Z := 64 * 1024.

(** [take(limit).read_until(c)]: the line with its end, and what is left. *)
Fixpoint read_until (c limit : Z) (input : list Z) : list Z * list Z :=
  match input with
  | [] => ([], [])
  | x :: rest =>
      if limit <=? 0 then ([], input)
      else if x =? c then ([x], rest)
      else let '(line, behind) := read_until c (limit - 1) rest in (x :: line, behind)
  end.

Section serving.
Context `{LocalFiles} `{ZfsDisk} `{ZfsLabels} `{Codecs} `{Crypto} `{Crc32} `{PoolCore} `{DiskCrates} `{InnerCrates} `{DattoCrates}.
Context {R : Type} `{Read R} {D : Type} `{Device D} `{DeviceInfo D} `{Luks D} `{!Authorization D}.
Context `{SidecarJson} `{Os} `{Digest} `{Faults} `{TempNames} `{HostPaths} `{ServiceJson} `{StdStreams}.

(** [machine n]: the files and devices while request [n] is served. *)
Variables (fuel : nat) (macos : bool) (machine : nat -> ClientHost R D).

Definition respond (result : result Value) : res error Response :=
  match result with
  | Ok value => Ok (Answered value)
  | Err error =>
      let raw := error_text error in
      let friendly := friendly_error raw in
      Ok (Refused raw (fe_title friendly) (fe_message friendly))
  | Panic => Panic
  | OutOfFuel => OutOfFuel
  end.

(** One line: the response and the state after it. *)
Definition serve_line (n : nat) (line : list Z) (self : Service D) : fs_m (Response * Service D) := fun h =>
  match with_context "Invalid desktop request" [] (request_from_slice line) with
  | Ok request =>
      match handle fuel macos (machine n) request self h with
      | (Ok (result, self), h) => ((let! response := respond result in Ok (response, self)), h)
      | (Err e, h) => (Err e, h)
      | (Panic, h) => (Panic, h)
      | (OutOfFuel, h) => (OutOfFuel, h)
      end
  | Err e => ((let! response := respond (Err e) in Ok (response, self)), h)
  | Panic => (Panic, h)
  | OutOfFuel => (OutOfFuel, h)
  end.

Definition write_response (n : nat) : result unit :=
  let! _ := io (to_writer_fails n) in
  let! _ := io (write_all_fails n) in
  io (flush_fails n).

(** The responses are written in order; every line gets one before the next is read.
    The list holds those that were written whole and flushed. *)
Fixpoint main_loop (rounds : nat) (input : list Z) (self : Service D) (responses : list Response) (h : host)
  : result (Service D) * list Response * host :=
  match rounds with
  | O => (OutOfFuel, responses, h)
  | S rounds =>
      let n := length responses in
      match read_fails n with
      | Some e => (Err e, responses, h)
      | None =>
          let '(line, input) := read_until NEWLINE (MAX_REQUEST + 1) input in
          if len line =? 0 then (Ok self, responses, h)
          else if MAX_REQUEST <? len line then (Err (Msg "Desktop request exceeds 64 KiB" []), responses, h)
          else
            match serve_line n line self h with
            | (Ok (response, self), h) =>
                match write_response n with
                | Ok _ => main_loop rounds input self (responses ++ [response]) h
                | Err e => (Err e, responses, h)
                | Panic => (Panic, responses, h)
                | OutOfFuel => (OutOfFuel, responses, h)
                end
            | (Err e, h) => (Err e, responses, h)
            | (Panic, h) => (Panic, responses, h)
            | (OutOfFuel, h) => (OutOfFuel, responses, h)
            end
      end
  end.

Definition service_main (rounds : nat) (input : list Z) (h : host) : result (Service D) * list Response * host :=
  main_loop rounds input {| sv_session := Session_default; sv_handles := ∅ |} [] h.
End serving.
