(* ===== verification/ServiceProps.v ===== *)
(** Properties of the bridge of the macOS app: what holds of every session it can
    reach, what a refused request leaves, and that every request line is answered. *)

From stdpp Require Import sorting.
From S2P Require Import Prelude Bytes Utf8 Stream StreamFacts StreamProps Replay Compression CompressionProps NvList Encrypted EncryptedDnode.
From S2P Require Import EncryptedProps Paths Snapshots Selected ObjectIndex FilesystemProps Resolve ResolveProps Sparse SparseFacts Operations.
From S2P Require Import OperationsProps Apply Lznt1 NtfsStream Image ImageProps DiskImage Partitions Volumes PartitionProps Sources SourceProps Datto.
From S2P Require Import DattoProps HostFs Tree HostExtract TreeProps PoolBlocks PoolSource Pool PoolFile PoolOpen PoolTreeFacts.
From S2P Require Import PoolProps Inner InnerSession InnerProps Updates UpdateProps Client ClientProps Presentation PresentationProps Service.
#[local] Open Scope Z_scope.
#[local] Open Scope zse_scope.

(** ** Lists of layers *)

Lemma with_last_snoc before layer f : with_last (before ++ [layer]) f = before ++ [f layer].
Proof. unfold with_last. rewrite rev_unit. by rewrite rev_involutive. Qed.

Lemma last_layer (layers : list Layer) : layers = [] \/ exists before layer, layers = before ++ [layer].
Proof. destruct layers as [|l ls] using rev_ind; [by left|]. right. eauto. Qed.

Lemma removelast_snoc {A} (l : list A) x : removelast (l ++ [x]) = l.
Proof. rewrite removelast_app by done. cbn. apply app_nil_r. Qed.

(** ** A session *)

Section session.
Context `{LocalFiles} `{ZfsDisk} `{ZfsLabels} `{Codecs} `{Crypto} `{Crc32} `{PoolCore} `{DiskCrates} `{InnerCrates} `{DattoCrates}.
Context {R : Type} `{Read R} {D : Type} `{Device D} `{DeviceInfo D} `{Luks D}.
Variables (World : ClientHost R D -> Prop) (fuel : nat).

(** A machine of the world, with some handles registered. *)
Definition served (host : ClientHost R D) : Prop := exists machine handles, World machine /\ host = with_handles machine handles.

(** A layer shows a volume that can be read, at a path that can be listed. *)
Record layer_ok (layer : Layer) : Prop := {
  lo_volume : forall selector, ly_volume layer = Some selector ->
    exists volume, volume ∈ ic_volumes (ly_catalog layer) /\ vi_selector volume = selector /\ is_some (vi_filesystem volume) = true;
  lo_lists : is_ok (list_layer layer (ly_path layer)) = true;
}.

(** With this key the root of the view can be listed, on a machine of the world. *)
Definition opens (source : SourceCatalog) (view : Z) (key : list Z) : Prop :=
  exists host, served host /\ is_ok (catalog_list_directory (ClientHost0 := host) fuel source view [SLASH] (KeyMaterial (Some key))) = true.

(** What holds of a session: at most eight layers, all of which can be shown; a
    view that exists; a key only where it opened that view; without a source and
    layers, nothing at all. *)
Record session_ok (s : Session) : Prop := {
  so_layers : len (sv_layers s) <= 8;
  so_layer : Forall layer_ok (sv_layers s);
  so_view : forall source, sv_source s = Some source -> is_Some (get (ct_views source) (sv_view s));
  so_key : forall key, sv_key s = Some key -> exists source, sv_source s = Some source /\ opens source (sv_view s) key;
  so_empty : sv_source s = None -> sv_layers s = [] -> s = Session_default;
}.

Context `{!ClientHost R D}.
Hypothesis Hserved : served ClientHost0.

Lemma state_cases (s : Session) :
  is_ok (state fuel s) = locked s || (negb (is_some (sv_source s)) && is_empty (sv_layers s)) || is_ok (list_path fuel s (current_path s)).
Proof.
  unfold state. destruct (locked s || _) eqn:Hl; [done|]. cbn [orb]. by destruct (list_path fuel s (current_path s)).
Qed.

(** What cannot be shown is an error of the listing. *)
Lemma show_state s r s' : show fuel s = (r, s') -> s' = s /\ is_ok r = is_ok (state fuel s).
Proof. unfold show. destruct (state fuel s) eqn:Hs; cbn [bind]; by intros [= <- <-]. Qed.

Lemma list_last s before layer path : sv_layers s = before ++ [layer] -> list_path fuel s path = list_layer layer path.
Proof. unfold list_path. intros ->. by rewrite last_snoc. Qed.

Lemma current_last s before layer : sv_layers s = before ++ [layer] -> current_path s = ly_path layer.
Proof. unfold current_path. intros ->. by rewrite last_snoc. Qed.

Lemma unlocked_layers s before layer : sv_layers s = before ++ [layer] -> locked s = false /\ is_empty (sv_layers s) = false.
Proof. unfold locked. intros ->. by destruct before. Qed.

(** With layers, a session can be shown exactly where its last layer can. *)
Lemma state_layers s before layer : sv_layers s = before ++ [layer] -> is_ok (state fuel s) = is_ok (list_layer layer (ly_path layer)).
Proof.
  intros Hl. rewrite state_cases. destruct (unlocked_layers s before layer Hl) as [-> ->]. rewrite andb_false_r. cbn [orb].
  by rewrite (list_last s before layer), (current_last s before layer).
Qed.

(** What a request makes of a session. *)
Definition sound (m : st_m Session Value) : Prop := forall s r s', session_ok s -> m s = (r, s') ->
  match r with Ok _ => session_ok s' | Err _ => s' = s | _ => True end.

Lemma session_layers s before layer : session_ok s -> sv_layers s = before ++ [layer] -> layer_ok layer.
Proof. intros [_ Hl _ _ _] Heq. rewrite Heq in Hl. apply Forall_app in Hl as [_ Hl]. by inversion_clear Hl. Qed.

(** The last layer of a session gives way to one that can be shown. *)
Lemma session_set_last s before layer layer' :
  session_ok s -> sv_layers s = before ++ [layer] -> layer_ok layer' -> session_ok (set_layers s (before ++ [layer'])).
Proof.
  intros [Ha Hb Hc Hd He] Hl Hok. rewrite Hl in *. split; cbn [sv_layers sv_source sv_view sv_key set_layers]; try done.
  - rewrite len_app in *. exact Ha.
  - apply Forall_app in Hb as [Hb _]. apply Forall_app. split; [done|]. by apply Forall_singleton.
  - intros _ Hnil. by destruct before.
Qed.

(** What the steps of a handler come to. *)
Lemma st_get_bind {A} (k : Session -> st_m Session A) s : (do! self := st_get in k self) s = k s s.
Proof. done. Qed.

Lemma st_ret_bind {A B} (m : result A) (k : A -> st_m Session B) s r s' :
  (do! a := st_ret m in k a) s = (r, s') -> (exists a, m = Ok a /\ k a s = (r, s')) \/ is_ok r = false /\ s' = s.
Proof. unfold st_bind, st_ret. destruct m as [a| | |]; [eauto|by intros [= <- <-]; right..]. Qed.

Lemma st_put_bind {B} (k : unit -> st_m Session B) s0 s : (do! a := st_put s0 in k a) s = k tt s0.
Proof. done. Qed.

(** Nothing has been changed yet. *)
Lemma unchanged {A} (r : result A) (s s' : Session) : is_ok r = false -> s' = s ->
  match r with Ok _ => session_ok s' | Err _ => s' = s | _ => True end.
Proof. by destruct r. Qed.

Lemma undone s0 undo r s' (P : Prop) :
  st_undo (show fuel) undo s0 = (r, s') ->
  (is_ok (state fuel s0) = true -> s' = s0 -> session_ok s0) ->
  match r with Ok _ => session_ok s' | Err _ => s' = undo s0 | _ => True end.
Proof.
  unfold st_undo. destruct (show fuel s0) as [r0 s1] eqn:Hshow. apply show_state in Hshow as [-> Hr].
  destruct r0; intros [= <- <-] Hok; cbn in Hr; try done. by apply Hok.
Qed.

Lemma sound_back : sound (handle_back fuel).
Proof.
  intros s r s' Hs. unfold handle_back. rewrite st_get_bind. destruct (can_back s) eqn:Hback; cbn [negb]; [|by intros [= <- <-]].
  intros [(previous & Hlast & Hk)|[Hr ->]]%st_ret_bind; [|by apply unchanged]. apply expect_Ok in Hlast.
  destruct (last_layer (sv_layers s)) as [Hl|(before & layer & Hl)]; [by rewrite Hl in Hlast|].
  rewrite Hl, last_snoc in Hlast. injection Hlast as ->. rewrite st_put_bind, Hl, removelast_snoc in Hk.
  eapply undone in Hk; [|exact True|].
  - destruct r; [exact Hk| |done..]. rewrite Hk. cbn [set_layers sv_layers]. rewrite <- Hl. by destruct s.
  - intros _ _. destruct Hs as [Ha Hb Hc Hd He]. rewrite Hl in *. split; cbn [sv_layers sv_source sv_view sv_key set_layers]; try done.
    + rewrite len_app in Ha. pose proof (len_nonneg [previous]). lia.
    + by apply Forall_app in Hb as [? _].
    + intros Hsrc ->. unfold can_back in Hback. rewrite Hl, Hsrc in Hback. done.
Qed.

Lemma sound_select index : sound (handle_select fuel index).
Proof.
  intros s r s' Hs. unfold handle_select. rewrite st_get_bind.
  intros [(source & Hsrc & Hk)|[Hr ->]]%st_ret_bind; [|by apply unchanged]. apply ok_or_Ok in Hsrc.
  apply st_ret_bind in Hk as [(view & Hview & Hk)|[Hr ->]]; [|by apply unchanged]. apply ok_or_Ok in Hview. rewrite st_put_bind in Hk.
  eapply undone in Hk; [|exact True|].
  - destruct r; [exact Hk| |done..]. rewrite Hk. by destruct s.
  - intros _ _. split; cbn [sv_layers sv_source sv_view sv_key set_place]; try done.
    + intros source' Heq. rewrite Hsrc in Heq. injection Heq as <-. by exists view.
    + congruence.
Qed.

Lemma list_same_key s s' path :
  sv_layers s = [] -> sv_layers s' = [] -> sv_source s' = sv_source s -> sv_view s' = sv_view s ->
  list_path fuel s' path = (let! source := session_source s in catalog_list_directory fuel source (sv_view s) path (KeyMaterial (sv_key s'))).
Proof. intros Hl Hl' Hs Hv. unfold list_path, session_source. by rewrite Hl', Hs, Hv. Qed.

(** A session whose current path can be listed can be shown. *)
Lemma shown s r s' : is_ok (list_path fuel s (current_path s)) = true -> show fuel s = (r, s') -> s' = s /\ is_ok r = true.
Proof. intros Hl Hs%show_state. rewrite state_cases, Hl, orb_true_r in Hs. exact Hs. Qed.

Lemma sound_unlock key key_file : sound (handle_unlock fuel key key_file).
Proof.
  intros s r s' Hs. unfold handle_unlock. rewrite st_get_bind.
  intros [(material & _ & Hk)|[Hr ->]]%st_ret_bind; [|by apply unchanged].
  apply st_ret_bind in Hk as [(source & Hsrc & Hk)|[Hr ->]]; [|by apply unchanged].
  apply st_ret_bind in Hk as [(entries & Hlist & Hk)|[Hr ->]]; [|by apply unchanged]. rewrite st_put_bind in Hk.
  apply shown in Hk as [-> Hr].
  - destruct r; try done. pose proof Hs as [Ha Hb Hc Hd He]. apply ok_or_Ok in Hsrc.
    split; cbn [sv_layers sv_source sv_view sv_key set_place]; try done; [|congruence].
    intros k [= <-]. exists source. split; [done|]. exists ClientHost0. by rewrite Hlist.
  - destruct (last_layer (sv_layers s)) as [Hl|(before & layer & Hl)].
    + unfold current_path. cbn [sv_layers set_place]. rewrite Hl. cbn [last from_option sv_path set_place].
      rewrite (list_same_key s) by (done || by cbn; rewrite Hl). rewrite Hsrc. cbn [bind sv_key set_place]. by rewrite Hlist.
    + assert (sv_layers (set_place s (sv_view s) [SLASH] (Some material) (sv_layers s)) = before ++ [layer]) as Hl' by exact Hl.
      rewrite (list_last _ _ _ _ Hl'), (current_last _ _ _ Hl'). by destruct (session_layers s before layer Hs Hl).
Qed.

Lemma sound_list path : sound (handle_list fuel path).
Proof.
  intros s r s' Hs. unfold handle_list. rewrite st_get_bind.
  intros [(entries & Hlist & Hk)|[Hr ->]]%st_ret_bind; [|by apply unchanged]. rewrite st_put_bind in Hk.
  destruct (last_layer (sv_layers s)) as [Hl|(before & layer & Hl)].
  - rewrite Hl in Hk. cbn [last] in Hk. apply shown in Hk as [-> Hr].
    + destruct r; try done. pose proof Hs as [Ha Hb Hc Hd He]. split; cbn [sv_layers sv_source sv_view sv_key set_place]; try done.
      intros Hsrc _. unfold list_path, session_source in Hlist. by rewrite Hl, Hsrc in Hlist.
    + change (current_path _) with path. rewrite (list_same_key s) by done. unfold list_path in Hlist. rewrite Hl in Hlist. cbn [last sv_key set_place] in *.
      by rewrite Hlist.
  - rewrite Hl, last_snoc, with_last_snoc in Hk. rewrite (list_last _ _ _ _ Hl) in Hlist. apply shown in Hk as [-> Hr].
    + destruct r; try done. eapply session_set_last; [done|exact Hl|]. destruct (session_layers s before layer Hs Hl) as [Hv _].
      split; [exact Hv|]. cbn [ly_path]. change (list_layer _ path) with (list_layer layer path). by rewrite Hlist.
    + erewrite list_last, current_last by reflexivity. cbn [ly_path]. change (list_layer _ path) with (list_layer layer path). by rewrite Hlist.
Qed.

Lemma sound_volume selector : sound (handle_volume fuel selector).
Proof.
  intros s r s' Hs. unfold handle_volume. rewrite st_get_bind.
  intros [(layer & Hlast & Hk)|[Hr ->]]%st_ret_bind; [|by apply unchanged]. apply ok_or_Ok in Hlast.
  destruct (existsb _ _) eqn:Hsupported; cbn [negb] in Hk; [|by injection Hk as <- <-].
  apply st_ret_bind in Hk as [(entries & Hlist & Hk)|[Hr ->]]; [|by apply unchanged]. rewrite st_put_bind in Hk.
  destruct (last_layer (sv_layers s)) as [Hl|(before & layer' & Hl)]; [by rewrite Hl in Hlast|].
  rewrite Hl, last_snoc in Hlast. injection Hlast as ->. rewrite Hl, with_last_snoc in Hk. apply shown in Hk as [-> Hr].
  - destruct r; try done. eapply session_set_last; [done|exact Hl|]. split; cbn [ly_volume ly_catalog ly_path].
    + intros chosen [= <-]. apply existsb_exists in Hsupported as (volume & Hin%list_elem_of_In & [Heq%bytes_eqb_eq Hfs]%andb_true_iff). by exists volume.
    + unfold list_layer. cbn [ly_volume ly_catalog]. by rewrite Hlist.
  - erewrite list_last, current_last by reflexivity. unfold list_layer. cbn [ly_volume ly_catalog ly_path]. by rewrite Hlist.
Qed.

(** A new layer chooses a volume only where it is the only one that can be read. *)
Lemma new_layer_volume catalog selector : ly_volume (new_layer catalog) = Some selector ->
  exists volume, List.filter (fun v => is_some (vi_filesystem v)) (ic_volumes catalog) = [volume] /\ vi_selector volume = selector.
Proof. cbn [ly_volume new_layer]. destruct (List.filter _ _) as [|v [|]]; try done. intros [= <-]. by exists v. Qed.

Lemma new_layer_ok catalog : is_ok (list_layer (new_layer catalog) [SLASH]) = true -> layer_ok (new_layer catalog).
Proof.
  intros Hlist. split; [|exact Hlist]. intros selector (volume & Hf & Hv)%new_layer_volume. exists volume.
  assert (In volume [volume]) as Hin by by left. rewrite <- Hf in Hin. apply filter_In in Hin as [Hin Hfs]. split; [by apply list_elem_of_In|]. done.
Qed.

Lemma sound_enter entry_name : sound (handle_enter fuel entry_name).
Proof.
  intros s r s' Hs. unfold handle_enter. rewrite st_get_bind. destruct (8 <=? len (sv_layers s)) eqn:Hmany; [by intros [= <- <-]|].
  intros [(path & _ & Hk)|[Hr ->]]%st_ret_bind; [|by apply unchanged].
  apply st_ret_bind in Hk as [(catalog & _ & Hk)|[Hr ->]]; [|by apply unchanged]. rewrite st_put_bind in Hk.
  eapply undone in Hk; [|exact True|].
  - destruct r; [exact Hk| |done..]. rewrite Hk. cbn [set_layers sv_layers]. rewrite removelast_snoc. by destruct s.
  - intros Hok _. erewrite state_layers in Hok by reflexivity. pose proof Hs as [Ha Hb Hc Hd He].
    split; cbn [sv_layers sv_source sv_view sv_key set_layers]; try done.
    + rewrite len_app. apply Z.leb_gt in Hmany. change (len [new_layer catalog]) with 1. lia.
    + apply Forall_app. split; [done|]. apply Forall_singleton. by apply new_layer_ok.
    + intros _ Hnil. by destruct (sv_layers s).
Qed.

(** *** Opening *)

Lemma recommended_exists views : views <> [] -> is_Some (get views (default 0 (recommended_view views))).
Proof.
  intros Hne. unfold recommended_view.
  pose proof (max_index_spec is_restore_point (fun view => default 0 (vw_created_at view)) views) as Hm.
  destruct (max_index _ _ _ _ _) as [i|]; [destruct Hm as (x & Hx & _); by exists x|]. destruct views as [|view views]; [done|]. by exists view.
Qed.

Lemma opened_ok path candidate shown_ :
  open_source fuel path = Ok (candidate, shown_) ->
  sv_key candidate = None /\ forall authorized, session_ok
    {| sv_source := sv_source candidate; sv_title := sv_title candidate; sv_view := sv_view candidate; sv_path := sv_path candidate;
       sv_key := sv_key candidate; sv_layers := sv_layers candidate; sv_authorized := authorized |}.
Proof.
  unfold open_source. intros Ho. apply bind_Ok in Ho as (opened & Hopened & Ho).
  assert ((exists source, sv_source opened = Some source /\ sv_layers opened = [] /\ sv_key opened = None /\ sv_view opened = 0) \/
    exists image, sv_source opened = None /\ sv_layers opened = [new_layer image] /\ sv_key opened = None) as Hcases.
  { clear Ho. destruct (open_send fuel path); cbn [catch] in Hopened; try done; [injection Hopened as <-; left; by eexists|].
    destruct (open_pool fuel path); cbn [catch] in Hopened; try done; [injection Hopened as <-; left; by eexists|].
    destruct (open_file _ _ _ _ _ _); cbn [catch] in Hopened; try done. injection Hopened as <-. right. by eexists. }
  destruct Hcases as [(source & Hsrc & Hl & Hkey & Hv)|(image & Hsrc & Hl & Hkey)]; rewrite Hsrc in Ho; cbn [mbind option_bind] in Ho.
  - destruct (is_empty (ct_views source)) eqn:Hne; [done|]. apply bind_Ok in Ho as (x & _ & [= <- _]). cbn. split; [done|]. intros authorized.
    split; cbn [sv_layers sv_source sv_view sv_key]; rewrite ?Hl, ?Hkey; try done.
    intros source' [= <-]. rewrite Hv. apply recommended_exists. intros Hnil. by rewrite Hnil in Hne.
  - apply bind_Ok in Ho as (x & Hstate & [= <- _]). cbn. split; [done|]. intros authorized.
    split; cbn [sv_layers sv_source sv_view sv_key]; rewrite ?Hl, ?Hkey; try done.
    apply Forall_singleton, new_layer_ok.
    match type of Hstate with state _ ?c = _ => pose proof (state_layers c [] (new_layer image) Hl) as Hs end. by rewrite Hstate in Hs.
Qed.
End session.

(** ** The process *)

Section process.
Context `{LocalFiles} `{ZfsDisk} `{ZfsLabels} `{Codecs} `{Crypto} `{Crc32} `{PoolCore} `{DiskCrates} `{InnerCrates} `{DattoCrates}.
Context {R : Type} `{Read R} {D : Type} `{Device D} `{DeviceInfo D} `{Luks D} `{!Authorization D}.
Context `{SidecarJson} `{Os} `{Digest} {HF : Faults} `{TempNames} `{HostPaths}.
Variables (World : ClientHost R D -> Prop) (fuel : nat) (macos : bool).

(** The registered handles: read-only, and of the disk the session was opened on
    with an authorization. *)
Definition handles_ok (s : Service D) : Prop := forall p file, sv_handles s !! p = Some file ->
  sv_authorized (sv_session s) = Some p /\ macos = true /\ is_disk_device_path p = true /\ hd_read_only file = true.

Record service_ok (s : Service D) : Prop := { vo_session : session_ok World fuel (sv_session s); vo_handles : handles_ok s }.

Definition start : Service D := {| sv_session := Session_default; sv_handles := ∅ |}.

(** A request that was answered, by a value or an error, on a machine of the world:
    the files and devices as they were at that time. *)
Inductive step (s s' : Service D) : Prop :=
| step_request (machine : ClientHost R D) request h r h' :
    World machine -> handle fuel macos machine request s h = (Ok (r, s'), h') -> is_ok r || is_err r = true -> step s s'.

Lemma authorize_lookup handles path handles' :
  authorize_device macos handles path = Ok handles' ->
  macos = true /\ is_disk_device_path path = true /\ exists file, handles' = <[path := file]> handles /\ hd_read_only file = true.
Proof.
  unfold authorize_device. destruct macos; [|done]. destruct (is_disk_device_path path) eqn:Hp; [|done]. cbn [negb]. intros Ha.
  apply bind_Ok in Ha as (file & _ & Ha). unfold register_authorized_source in Ha. destruct (hd_read_only file) eqn:Hro; [|done].
  injection Ha as <-. split; [done|]. split; [done|]. by exists file.
Qed.

Lemma released_lookup (handles : gmap (list Z) (Handle D)) keep p file :
  release_authorized_sources handles keep !! p = Some file <-> handles !! p = Some file /\ keep = Some p.
Proof. unfold release_authorized_sources. rewrite map_lookup_filter_Some. cbn. naive_solver. Qed.

(** What an opening does to the handles, before any is released. *)
Lemma opening_handles (s : Service D) path (authorize : bool) handles :
  handles_ok s -> (if authorize then authorize_device macos (sv_handles s) path else Ok (sv_handles s)) = Ok handles ->
  (forall p file, handles !! p = Some file -> sv_handles s !! p = Some file \/
     authorize = true /\ p = path /\ macos = true /\ is_disk_device_path p = true /\ hd_read_only file = true) /\
  (release_authorized_sources handles (sv_authorized (sv_session s)) = sv_handles s \/
     exists file, authorize = true /\ sv_authorized (sv_session s) = Some path /\
       release_authorized_sources handles (sv_authorized (sv_session s)) = <[path := file]> (sv_handles s)).
Proof.
  intros Hok Ha.
  assert (forall p file, sv_handles s !! p = Some file -> sv_authorized (sv_session s) = Some p) as Hkeep by (by intros p file [? _]%Hok).
  destruct authorize.
  - destruct (authorize_lookup _ _ _ Ha) as (Hm & Hp & file & -> & Hro). split.
    + intros p f. destruct (decide (p = path)) as [->|Hne]; [rewrite lookup_insert_eq; intros [= <-]; by right|].
      rewrite lookup_insert_ne by done. by left.
    + destruct (decide (sv_authorized (sv_session s) = Some path)) as [Heq|Hne].
      * right. exists file. split; [done|]. split; [done|]. apply map_eq. intros p. apply option_eq. intros f. rewrite released_lookup.
        destruct (decide (p = path)) as [->|Hp']; [rewrite lookup_insert_eq; naive_solver|]. rewrite lookup_insert_ne by done. naive_solver.
      * left. apply map_eq. intros p. apply option_eq. intros f. rewrite released_lookup.
        destruct (decide (p = path)) as [->|Hp']; [|rewrite lookup_insert_ne by done; naive_solver]. rewrite lookup_insert_eq. naive_solver.
  - injection Ha as <-. split; [by left|]. left. apply map_eq. intros p. apply option_eq. intros f. rewrite released_lookup. naive_solver.
Qed.

(** Both halves of a request: an answer keeps the invariant, a refusal the session. *)
Definition kept (s : Service D) (request : Request) (r : result Value) (s' : Service D) : Prop :=
  match r with
  | Ok _ => service_ok s'
  | Err _ => sv_session s' = sv_session s /\ (sv_handles s' = sv_handles s \/
      exists path file, request = Open path true /\ sv_authorized (sv_session s) = Some path /\ sv_handles s' = <[path := file]> (sv_handles s)) /\
      handles_ok s'
  | _ => True
  end.

Lemma kept_session (machine : ClientHost R D) (m : ClientHost R D -> st_m Session Value) request s r s' :
  (forall host, served World host -> sound World fuel (m host)) -> World machine -> (forall host session r session', m host session = (r, session') -> sv_authorized session' = sv_authorized session) ->
  service_ok s -> in_session machine m s = (r, s') -> kept s request r s'.
Proof.
  intros Hm Hworld Hauth [Hs Hh] Hi. unfold in_session in Hi.
  destruct (m (with_handles machine (sv_handles s)) (sv_session s)) as [r0 session] eqn:Hrun. injection Hi as <- <-.
  pose proof (Hm _ (ex_intro _ machine (ex_intro _ (sv_handles s) (conj Hworld eq_refl))) _ _ _ Hs Hrun) as Hsound. pose proof (Hauth _ _ _ _ Hrun) as Ha. destruct r0; cbn [kept sv_session sv_handles]; try done.
  - split; [done|]. intros p file Hp. cbn [sv_session sv_handles] in *. rewrite Ha. by apply Hh.
  - rewrite Hsound. split; [done|]. split; [by left|]. exact Hh.
Qed.

Lemma kept_open (machine : ClientHost R D) path authorize s r s' :
  service_ok s -> handle_open fuel macos machine path authorize s = (r, s') -> kept s (Open path authorize) r s'.
Proof.
  intros [Hs Hh] Ho. unfold handle_open, st_bind at 1, st_get in Ho. unfold st_bind at 1, st_ret in Ho.
  destruct (if authorize then authorize_device macos (sv_handles s) path else Ok (sv_handles s)) as [handles|e| |] eqn:Ha; [|injection Ho as <- <-; cbn; try done..].
  2: { split; [done|]. split; [by left|done]. }
  destruct (opening_handles s path authorize handles Hh Ha) as [Hin Hrel].
  destruct (open_source _ _) as [[candidate shown_]|e| |] eqn:Hopen; [|injection Ho as <- <-; cbn [kept sv_session sv_handles]; try done..].
  - injection Ho as <- <-. destruct (opened_ok World _ _ _ _ Hopen) as [_ Hok]. split; [apply Hok|].
    intros p file [Hp Hauth]%released_lookup. cbn [sv_session sv_authorized]. split; [done|].
    destruct authorize; [|done]. injection Hauth as ->. destruct (Hin p file Hp) as [Hold|(_ & _ & ?)]; [by apply Hh in Hold as [_ ?]|done].
  - split; [done|]. split.
    + destruct Hrel as [Heq|(file & -> & Hauth & Heq)]; [by left|]. right. by exists path, file.
    + intros p file [Hp Hauth]%released_lookup. split; [done|]. destruct (Hin p file Hp) as [Hold|(_ & _ & ?)]; [by apply Hh in Hold as [_ ?]|done].
Qed.

(** A request of the session leaves who authorized it. *)
Ltac same_authorized :=
  let Hm := fresh in intros Hm; unfold st_bind, st_ret, st_get, st_put, st_undo, show in Hm;
  repeat case_match; simplify_eq/=; reflexivity.

Lemma authorized_select index (host : ClientHost R D) session r session' :
  handle_select (ClientHost0 := host) fuel index session = (r, session') -> sv_authorized session' = sv_authorized session.
Proof. unfold handle_select. same_authorized. Qed.

Lemma authorized_unlock key key_file (host : ClientHost R D) session r session' :
  handle_unlock (ClientHost0 := host) fuel key key_file session = (r, session') -> sv_authorized session' = sv_authorized session.
Proof. unfold handle_unlock. same_authorized. Qed.

Lemma authorized_list path (host : ClientHost R D) session r session' :
  handle_list (ClientHost0 := host) fuel path session = (r, session') -> sv_authorized session' = sv_authorized session.
Proof. unfold handle_list. same_authorized. Qed.

Lemma authorized_enter entry_name (host : ClientHost R D) session r session' :
  handle_enter (ClientHost0 := host) fuel entry_name session = (r, session') -> sv_authorized session' = sv_authorized session.
Proof. unfold handle_enter. same_authorized. Qed.

Lemma authorized_back (host : ClientHost R D) session r session' :
  handle_back (ClientHost0 := host) fuel session = (r, session') -> sv_authorized session' = sv_authorized session.
Proof. unfold handle_back. same_authorized. Qed.

Lemma authorized_volume selector (host : ClientHost R D) session r session' :
  handle_volume (ClientHost0 := host) fuel selector session = (r, session') -> sv_authorized session' = sv_authorized session.
Proof. unfold handle_volume. same_authorized. Qed.

Lemma kept_close (machine : ClientHost R D) s r s' : handle_close fuel machine s = (r, s') -> service_ok s' /\ exists value, r = Ok value.
Proof.
  unfold handle_close, st_bind, st_get, st_put. intros [= <- <-]. split; [|by eexists]. split.
  - split; cbn [sv_session sv_layers sv_source sv_view sv_key Session_default]; done.
  - intros p file [_ ?]%released_lookup. done.
Qed.

Lemma request_kept (machine : ClientHost R D) request s h r s' h' :
  World machine -> service_ok s -> handle fuel macos machine request s h = (Ok (r, s'), h') -> kept s request r s'.
Proof.
  intros Hw Hs Hh. unfold handle in Hh. destruct request as [path authorize|index|key key_file|path|entry_name| |selector|entry_name destination|].
  - injection Hh as Hh _. by eapply kept_open.
  - injection Hh as Hh _. eapply (kept_session machine (fun machine => handle_select (ClientHost0 := machine) fuel index)); [intros host Hhost; by apply sound_select|exact Hw|intros; by eapply authorized_select|exact Hs|exact Hh].
  - injection Hh as Hh _. eapply (kept_session machine (fun machine => handle_unlock (ClientHost0 := machine) fuel key key_file)); [intros host Hhost; by apply sound_unlock|exact Hw|intros; by eapply authorized_unlock|exact Hs|exact Hh].
  - injection Hh as Hh _. eapply (kept_session machine (fun machine => handle_list (ClientHost0 := machine) fuel path)); [intros host Hhost; by apply sound_list|exact Hw|intros; by eapply authorized_list|exact Hs|exact Hh].
  - injection Hh as Hh _. eapply (kept_session machine (fun machine => handle_enter (ClientHost0 := machine) fuel entry_name)); [intros host Hhost; by apply sound_enter|exact Hw|intros; by eapply authorized_enter|exact Hs|exact Hh].
  - injection Hh as Hh _. eapply (kept_session machine (fun machine => handle_back (ClientHost0 := machine) fuel)); [intros host Hhost; by apply sound_back|exact Hw|intros; by eapply authorized_back|exact Hs|exact Hh].
  - injection Hh as Hh _. eapply (kept_session machine (fun machine => handle_volume (ClientHost0 := machine) fuel selector)); [intros host Hhost; by apply sound_volume|exact Hw|intros; by eapply authorized_volume|exact Hs|exact Hh].
  - destruct (handle_extract _ _ _ _ _ _ _) as [r0 h0]. injection Hh as <- <- _. destruct r0; cbn [kept]; try done. split; [done|]. split; [by left|apply Hs].
  - destruct (handle_close _ _ _) as [r0 s0] eqn:Hclose. injection Hh as <- <- _. destruct (kept_close _ _ _ _ Hclose) as [Hok (value & ->)]. exact Hok.
Qed.

Lemma step_ok s s' : service_ok s -> step s s' -> service_ok s'.
Proof.
  intros Hs [machine request h r h' Hw Hh Hr]. pose proof (request_kept _ _ _ _ _ _ _ Hw Hs Hh) as Hk. destruct r; cbn in Hr; try done.
  destruct Hk as (Heq & _ & Hh'). destruct Hs as [Hs _]. split; [by rewrite Heq|done].
Qed.

Lemma start_ok : service_ok start.
Proof. split; [split; cbn; try done; by apply Forall_nil|]. intros p file Hp. cbn [sv_handles start] in Hp. by rewrite lookup_empty in Hp. Qed.

Lemma reachable_ok s : rtc step start s -> service_ok s.
Proof. pose proof start_ok as Hs. intros Hr. induction Hr; eauto using step_ok. Qed.


(** Nothing of the host is touched, or something was extracted to a free place. *)
Definition host_kept (request : Request) (h h' : host) : Prop :=
  h' = h \/ exists entry_name destination, request = Extract entry_name destination /\ h_store h !! host_path destination = None.

Lemma extract_host (machine : ClientHost R D) s h entry_name destination r h' :
  handle_extract fuel machine (sv_session s) (sv_handles s) entry_name destination h = (r, h') -> host_kept (Extract entry_name destination) h h'.
Proof.
  unfold handle_extract. intros Hx. destruct (h_store h !! host_path destination) as [node|] eqn:Hnode; [|right; eauto]. left.
  unfold fs_bind at 1, fs_ret at 1 in Hx. destruct (list_path _ _ _); [|by injection Hx..].
  unfold fs_bind at 1, fs_ret at 1 in Hx. destruct (ok_or _ _); [|by injection Hx..].
  unfold fs_bind at 1, fs_ret at 1 in Hx. destruct (child_path _ _); [|by injection Hx..].
  unfold fs_bind at 1, path_exists, fs_bind at 1, metadata in Hx. rewrite Hnode in Hx. cbn [fs_ret] in Hx. by injection Hx.
Qed.

(** C24: A refused request changes nothing. In every session that can be reached, a
    request that is refused leaves the session as it was, with its view, path, key
    and nested images; the registered handles too, but for a new authorization of
    the same disk. No request, refused or not, touches the host's files, except an
    extraction to a place where nothing is. *)
Theorem refused_request s machine request h r s' h' :
  rtc step start s -> World machine -> handle fuel macos machine request s h = (Ok (r, s'), h') ->
  host_kept request h h' /\
  (is_err r = true -> sv_session s' = sv_session s /\
     (sv_handles s' = sv_handles s \/
      exists path file, request = Open path true /\ sv_authorized (sv_session s) = Some path /\ sv_handles s' = <[path := file]> (sv_handles s))).
Proof.
  intros Hs%reachable_ok Hw Hh. split.
  - unfold handle in Hh. destruct request; try (injection Hh as _ <-; by left).
    destruct (handle_extract _ _ _ _ _ _ _) as [r0 h0] eqn:Hx. injection Hh as _ _ <-. by eapply extract_host.
  - intros Hr. pose proof (request_kept _ _ _ _ _ _ _ Hw Hs Hh) as Hk. destruct r; try done. by destruct Hk as (? & ? & _).
Qed.
End process.

(** ** The request lines *)

Lemma read_until_line c line : forall limit rest, c ∉ line -> len line < limit -> read_until c limit (line ++ c :: rest) = (line ++ [c], rest).
Proof.
  induction line as [|x line IH]; intros limit rest Hc Hl; cbn [app read_until].
  - rewrite len_nil in Hl. rewrite (proj2 (Z.leb_gt limit 0)) by lia. by rewrite Z.eqb_refl.
  - rewrite len_cons in Hl. pose proof (len_nonneg line). rewrite (proj2 (Z.leb_gt limit 0)), (proj2 (Z.eqb_neq x c)) by (set_solver || lia).
    by rewrite IH by (set_solver || lia).
Qed.

Lemma read_until_long c input : forall limit, 0 <= limit <= len input -> c ∉ ztake limit input -> len (read_until c limit input).1 = limit.
Proof.
  induction input as [|x input IH]; intros limit Hl Hc; cbn [read_until].
  - unfold len in *. cbn in *. lia.
  - destruct (Z.leb_spec limit 0); [unfold len; cbn; lia|]. rewrite len_cons in Hl.
    assert (ztake limit (x :: input) = x :: ztake (limit - 1) input) as Heq.
    { unfold ztake. replace (Z.to_nat limit) with (S (Z.to_nat (limit - 1))) by lia. done. }
    rewrite Heq in Hc. rewrite (proj2 (Z.eqb_neq x c)) by set_solver. specialize (IH (limit - 1) ltac:(lia) ltac:(set_solver)).
    destruct (read_until c (limit - 1) input) as [line behind]. cbn [fst] in *. rewrite len_cons. lia.
Qed.

Section serving.
Context `{LocalFiles} `{ZfsDisk} `{ZfsLabels} `{Codecs} `{Crypto} `{Crc32} `{PoolCore} `{DiskCrates} `{InnerCrates} `{DattoCrates}.
Context {R : Type} `{Read R} {D : Type} `{Device D} `{DeviceInfo D} `{Luks D} `{!Authorization D}.
Context `{SidecarJson} `{Os} `{Digest} {HF : Faults} `{TempNames} `{HostPaths} `{ServiceJson} `{StdStreams}.
Variables (fuel : nat) (macos : bool) (machine : nat -> ClientHost R D).

(** A line that is no longer than a request may be. *)
Definition request_line (line : list Z) : Prop := NEWLINE ∉ line /\ len line < MAX_REQUEST.

Definition sent (lines : list (list Z)) : list Z := concat (map (fun line => line ++ [NEWLINE]) lines).

(** Line after line is read and answered, beginning with number [n]. *)
Inductive answers (n : nat) : list (list Z) -> Service D -> host -> list Response -> Service D -> host -> Prop :=
| answers_none s h : answers n [] s h [] s h
| answers_line line lines s h response s1 h1 responses s2 h2 :
    read_fails n = None -> serve_line fuel macos machine n (line ++ [NEWLINE]) s h = (Ok (response, s1), h1) ->
    write_response n = Ok tt -> answers (S n) lines s1 h1 responses s2 h2 ->
    answers n (line :: lines) s h (response :: responses) s2 h2.

(** The request behind these lines is not survived: a panic, or the operations it
    calls do not come to an end within their fuel. *)
Definition stuck (m : result (Response * Service D)) : Prop := m = Panic \/ m = OutOfFuel.

Lemma serve_line_cases n line s h :
  (exists response s' h', serve_line fuel macos machine n line s h = (Ok (response, s'), h')) \/ stuck (serve_line fuel macos machine n line s h).1.
Proof.
  unfold serve_line, stuck. destruct (with_context _ _ _) as [request|e| |]; cbn [respond bind fst]; eauto 6.
  assert (exists p h', handle fuel macos (machine n) request s h = (Ok p, h')) as ([r s'] & h' & ->).
  { unfold handle. destruct request; try (by eexists _, _). destruct (handle_extract _ _ _ _ _ _ _). by eexists _, _. }
  destruct r; cbn [respond bind fst]; eauto 6.
Qed.

(** What ends the input: nothing, or a line that is too long. *)
Definition closing (rest : list Z) (outcome : Service D -> result (Service D)) : Prop :=
  rest = [] /\ outcome = Ok \/
  MAX_REQUEST < len rest /\ NEWLINE ∉ ztake (MAX_REQUEST + 1) rest /\ outcome = fun _ => Err (Msg "Desktop request exceeds 64 KiB" []).

(** How the bridge ends in front of line [n], with these lines and what closes the
    input still to come: the input is read; reading fails; the response cannot be
    written, and the request has taken effect; or the request is not survived. *)
Inductive ends (n : nat) (outcome : Service D -> result (Service D)) : list (list Z) -> Service D -> host -> result (Service D) -> host -> Prop :=
| ends_input s h : read_fails n = None -> ends n outcome [] s h (outcome s) h
| ends_read lines s h e : read_fails n = Some e -> ends n outcome lines s h (Err e) h
| ends_write line lines s h response s1 h1 e :
    read_fails n = None -> serve_line fuel macos machine n (line ++ [NEWLINE]) s h = (Ok (response, s1), h1) ->
    write_response n = Err e -> ends n outcome (line :: lines) s h (Err e) h1
| ends_stuck line lines s h (r : result (Service D)) :
    read_fails n = None -> stuck (serve_line fuel macos machine n (line ++ [NEWLINE]) s h).1 ->
    (r = Panic <-> (serve_line fuel macos machine n (line ++ [NEWLINE]) s h).1 = Panic) -> r = Panic \/ r = OutOfFuel ->
    ends n outcome (line :: lines) s h r (serve_line fuel macos machine n (line ++ [NEWLINE]) s h).2.

Lemma write_response_cases n : write_response n = Ok tt \/ exists e, write_response n = Err e.
Proof.
  unfold write_response, io. destruct (to_writer_fails n); [right; by eexists|]. destruct (write_all_fails n); [right; by eexists|].
  destruct (flush_fails n); [right; by eexists|by left].
Qed.

Lemma loop_closes rounds rest outcome s responses h :
  closing rest outcome -> read_fails (length responses) = None ->
  main_loop fuel macos machine (S rounds) rest s responses h = (outcome s, responses, h).
Proof.
  intros [[-> ->]|(Hlong & Hno & ->)] Hread; cbn [main_loop]; cbv zeta; rewrite Hread; [done|].
  pose proof (read_until_long NEWLINE rest (MAX_REQUEST + 1) ltac:(unfold MAX_REQUEST in *; lia) Hno) as Hl.
  destruct (read_until _ _ _) as [line behind]. cbn [fst] in Hl. rewrite (proj2 (Z.eqb_neq _ _)), (proj2 (Z.ltb_lt _ _)) by (unfold MAX_REQUEST in *; lia). done.
Qed.

Lemma loop_read_fails rounds input s responses h e :
  read_fails (length responses) = Some e -> main_loop fuel macos machine (S rounds) input s responses h = (Err e, responses, h).
Proof. intros He. cbn [main_loop]. cbv zeta. by rewrite He. Qed.

Lemma loop_answers lines : forall rounds s h before rest outcome,
  Forall request_line lines -> closing rest outcome -> (length lines < rounds)%nat ->
  exists done_ after responses s' h' r h'', lines = done_ ++ after /\ answers (length before) done_ s h responses s' h' /\
    ends (length before + length done_) outcome after s' h' r h'' /\
    main_loop fuel macos machine rounds (sent lines ++ rest) s before h = (r, before ++ responses, h'').
Proof.
  induction lines as [|line lines IH]; intros rounds s h before rest outcome Hlines Hrest Hrounds; (destruct rounds as [|rounds]; [cbn in Hrounds; lia|]).
  - exists [], [], [], s, h. rewrite Nat.add_0_r, !app_nil_r. destruct (read_fails (length before)) as [e|] eqn:Hread.
    + exists (Err e), h. split; [done|]. split; [constructor|]. split; [by apply ends_read|]. by apply loop_read_fails.
    + exists (outcome s), h. split; [done|]. split; [constructor|]. split; [by apply ends_input|]. by apply loop_closes.
  - destruct (read_fails (length before)) as [e|] eqn:Hread.
    { exists [], (line :: lines), [], s, h, (Err e), h. rewrite Nat.add_0_r, app_nil_r. split; [done|]. split; [constructor|].
      split; [by apply ends_read|]. by apply loop_read_fails. }
    apply List.Forall_cons_iff in Hlines as [[Hno Hlen] Hlines]. cbn in Hrounds.
    assert (sent (line :: lines) ++ rest = line ++ NEWLINE :: (sent lines ++ rest)) as -> by (unfold sent; cbn [map concat]; by rewrite <- !app_assoc).
    cbn [main_loop]. cbv zeta. rewrite Hread, read_until_line by (done || unfold MAX_REQUEST in *; lia).
    rewrite len_app. change (len [NEWLINE]) with 1. pose proof (len_nonneg line).
    rewrite (proj2 (Z.eqb_neq _ _)), (proj2 (Z.ltb_ge _ _)) by lia.
    destruct (serve_line_cases (length before) (line ++ [NEWLINE]) s h) as [(response & s1 & h1 & Hserve)|Hstuck].
    + rewrite Hserve. destruct (write_response_cases (length before)) as [Hwrite|[e Hwrite]]; rewrite Hwrite.
      * destruct (IH rounds s1 h1 (before ++ [response]) rest outcome Hlines Hrest ltac:(lia)) as (done_ & after & responses & s2 & h2 & r & h3 & -> & Ha & He & Hm).
        rewrite length_app, Nat.add_1_r in Ha, He. exists (line :: done_), after, (response :: responses), s2, h2, r, h3. cbn [length]. rewrite <- plus_n_Sm.
        split; [done|]. split; [by econstructor|]. split; [exact He|]. rewrite Hm. by rewrite <- app_assoc.
      * exists [], (line :: lines), [], s, h, (Err e), h1. rewrite Nat.add_0_r, app_nil_r. split; [done|]. split; [constructor|]. split; [by eapply ends_write|done].
    + exists [], (line :: lines), [], s, h. pose proof (ends_stuck (length before) outcome line lines s h) as Hends. rewrite Nat.add_0_r, app_nil_r.
      destruct (serve_line fuel macos machine (length before) (line ++ [NEWLINE]) s h) as [[? | ? | |] h1]; cbn [fst snd] in *.
      1, 2: by destruct Hstuck.
      * exists Panic, h1. split; [done|]. split; [constructor|]. split; [apply Hends; auto; by split|done].
      * exists OutOfFuel, h1. split; [done|]. split; [constructor|]. split; [apply Hends; auto; by split|done].
Qed.

Lemma answers_length n lines s h responses s' h' : answers n lines s h responses s' h' -> length responses = length lines.
Proof. induction 1; cbn; lia. Qed.

(** C25: Every request line gets its answer. Given lines of at most 64 KiB, the
    bridge writes one response to each of them, in order, each from the state that
    the request before it left, whether it was answered or refused or could not
    be read; it ends where the input ends, or with an error at a line that is too
    long. What stops it before is that standard input cannot be read, that a response
    cannot be written out (that request has then taken effect), or a request that
    panics or whose operations do not come to an end; all lines in front of that one
    have been answered. *)
Theorem requests_answered lines rest outcome rounds h :
  Forall request_line lines -> closing rest outcome -> (length lines < rounds)%nat ->
  exists done_ after responses s' h' r h'', lines = done_ ++ after /\ answers 0 done_ start h responses s' h' /\
    length responses = length done_ /\ ends (length done_) outcome after s' h' r h'' /\
    service_main fuel macos machine rounds (sent lines ++ rest) h = (r, responses, h'').
Proof.
  intros Hlines Hrest Hrounds. destruct (loop_answers lines rounds start h [] rest outcome Hlines Hrest Hrounds)
    as (done_ & after & responses & s' & h' & r & h'' & -> & Ha & He & Hm).
  exists done_, after, responses, s', h', r, h''. split; [done|]. split; [done|]. split; [by eapply answers_length|done].
Qed.
End serving.

(** ** A run

    A machine with one stream of one snapshot, whose root holds the file hello.c. *)

#[local] Instance toy_bridge_machine : ClientHost (list Z) SlowDisk := {
  open_stream path := if bytes_eqb path toy_stream_path then Ok tree_bytes else Err (Foreign "no such file");
  stream_bytes path := if bytes_eqb path toy_stream_path then Ok tree_bytes else Err (Foreign "no such file");
  host_platform := Windows;
  host_paths := {| ps_metadata _ := Err (Foreign "no such file"); ps_open _ := Err (Foreign "no such file") |};
  host_authorized := ∅;
}.

#[local] Instance toy_authorization : Authorization SlowDisk := {
  device_before _ := Err (Foreign "no such file");
  open_device _ := None;
  authopen _ := Err (Foreign "no such file");
}.

#[local] Instance toy_places : HostPaths := { host_path s := rev (components s) }.
#[local] Instance bridge_faults : Faults := faults_at [].

Definition toy_requests : list (list Z * Request) :=
  [(bytes_of_string "open", Open toy_stream_path false); (bytes_of_string "list", ListPath [SLASH]);
   (bytes_of_string "list x", ListPath (bytes_of_string "/x")); (bytes_of_string "back", Back);
   (bytes_of_string "restore", Extract (bytes_of_string "hello.c") (bytes_of_string "/copy"))].

#[local] Instance toy_lines : ServiceJson := {
  request_from_slice line := match List.find (fun known => bytes_eqb (known.1 ++ [NEWLINE]) line) toy_requests with
    | Some (_, request) => Ok request
    | None => Err (Foreign "expected value") end;
  error_text e := match e with Msg text _ => bytes_of_string text | Context text _ _ => bytes_of_string text | Foreign text => bytes_of_string text end;
}.

Abbreviation toy_open := (handle 12 false toy_bridge_machine (Open toy_stream_path false) start toy_host).
Abbreviation toy_refused s := (handle 12 false toy_bridge_machine (ListPath (bytes_of_string "/x")) s toy_host).

Definition toy_world : ClientHost (list Z) SlowDisk -> Prop := fun machine => machine = toy_bridge_machine.

(** The opened session, and that it is one step away. *)
Lemma toy_opened_session : exists s, match toy_open with (Ok (Ok _, s'), _) => s' = s | _ => False end /\
  rtc (step toy_world 12 false) start s.
Proof.
  assert (match toy_open with (Ok (Ok _, _), _) => true | _ => false end = true) as Hok by (vm_compute; reflexivity).
  destruct toy_open as [[[[v| | |] s]| | |] h] eqn:Hopen; try discriminate Hok. exists s. split; [done|]. eapply rtc_l; [|apply rtc_refl].
  eapply (step_request _ _ _ _ _ toy_bridge_machine); [reflexivity|exact Hopen|reflexivity].
Qed.


Lemma refused_request_witness :
  exists s r s' h', rtc (step toy_world 12 false) start s /\ toy_refused s = (Ok (r, s'), h') /\ is_err r = true /\ sv_session s' = sv_session s /\ h' = toy_host.
Proof.
  destruct toy_opened_session as (s & Hs & Hr).
  assert (match toy_open with (Ok (Ok _, s), _) => match toy_refused s with (Ok (r, _), _) => is_err r | _ => false end | _ => false end = true)
    as Hrefused by (vm_compute; reflexivity).
  destruct toy_open as [[[[v| | |] s0]| | |] h0]; try discriminate Hrefused. subst s0.
  destruct (toy_refused s) as [[[r s']| | |] h'] eqn:Hrun; try discriminate Hrefused. exists s, r, s', h'.
  destruct (refused_request toy_world 12 false s toy_bridge_machine (ListPath (bytes_of_string "/x")) toy_host r s' h' Hr eq_refl Hrun) as [Hhost Hsame].
  split; [exact Hr|]. split; [exact Hrun|]. split; [exact Hrefused|]. split; [exact (proj1 (Hsame Hrefused))|].
  destruct Hhost as [Heq|(entry_name & destination & Heq & _)]; [exact Heq|discriminate Heq].
Defined.

(** Three lines: junk, a step back from nowhere, and the backup is opened. *)
Definition toy_input : list (list Z) := map bytes_of_string ["junk"; "back"; "open"]%string.

Definition answered (response : Response) : bool := match response with Answered _ => true | Refused _ _ _ => false end.

(** Standard output is closed when the third response is flushed. *)
#[local] Instance toy_streams : StdStreams := {
  read_fails _ := None; to_writer_fails _ := None; write_all_fails _ := None;
  flush_fails n := if (n =? 2)%nat then Some (Foreign "Broken pipe") else None;
}.

Abbreviation toy_service input := (service_main 12 false (fun _ => toy_bridge_machine) 6 (sent input ++ []) toy_host).

Lemma requests_answered_witness :
  map answered (toy_service toy_input).1.2 = [false; false] /\ is_err (toy_service toy_input).1.1 = true /\
  exists done_ after responses s' h' r h'', toy_input = done_ ++ after /\
    answers 12 false (fun _ => toy_bridge_machine) 0 done_ start toy_host responses s' h' /\ length responses = length done_ /\
    ends 12 false (fun _ => toy_bridge_machine) (length done_) Ok after s' h' r h'' /\ toy_service toy_input = (r, responses, h'').
Proof.
  split; [vm_compute; reflexivity|]. split; [vm_compute; reflexivity|].
  apply (requests_answered 12 false (fun _ => toy_bridge_machine) toy_input [] Ok 6 toy_host).
  - apply List.Forall_forall. intros line Hin. assert (forallb (fun line => bool_decide (NEWLINE ∉ line) && (len line <? MAX_REQUEST)) toy_input = true) as Hall
      by (vm_compute; reflexivity). rewrite forallb_forall in Hall. apply Hall, andb_true_iff in Hin as [Hno%bool_decide_eq_true Hlen%Z.ltb_lt]. by split.
  - by left.
  - vm_compute. lia.
Defined.

(** Without the third line, and with working streams, all are answered. *)
Example working_streams :
  let streams : StdStreams := {| read_fails _ := None; to_writer_fails _ := None; write_all_fails _ := None; flush_fails _ := None |} in
  let '(r, responses, _) := service_main (H21 := streams) 12 false (fun _ => toy_bridge_machine) 6 (sent toy_input ++ []) toy_host in
  is_ok r = true /\ map answered responses = [false; false; true].
Proof. vm_compute. by split. Qed.

(** The bridge never replaces the destination, but the file of the sidecar's name
    behind it is replaced without asking. *)
Example sidecar_replaced :
  let place := [bytes_of_string "copy.zfse.json"] in
  let before := {| h_store := <[place := NFile [1]]> (h_store toy_host); h_clock := 0 |} in
  match toy_open with
  | (Ok (Ok _, s), _) =>
      match handle 12 false toy_bridge_machine (Extract (bytes_of_string "hello.c") (bytes_of_string "/copy")) s before with
      | (Ok (r, _), after) => is_ok r && negb (bool_decide (h_store after !! place = Some (NFile [1])))
      | _ => false
      end
  | _ => false
  end = true.
Proof. vm_compute. reflexivity. Qed.
