(* ===== verification/Cli.v ===== *)
(** The command line, src/src/main.rs: the commands (lines 11-376), byte counts
    (989-1003), keys and secrets (1005-1119), what is printed (905-987), and the
    commands over send streams, pool members and nested images (378-903). *)

From stdpp Require Import sorting.
From S2P Require Import Prelude Bytes Utf8 Stream StreamFacts Replay Compression NvList Encrypted.
From S2P Require Import EncryptedDnode Paths Snapshots Selected ObjectIndex Resolve Sparse Operations Apply.
From S2P Require Import Lznt1 NtfsStream Image DiskImage Partitions Volumes Sources Datto HostFs Tree HostExtract.
From S2P Require Import PoolBlocks PoolSource Pool PoolFile PoolOpen Inner InnerSession Updates Client Presentation Service.
#[local] Open Scope Z_scope.
#[local] Open Scope zse_scope.

(** ** The commands, as clap hands them over *)

Record ContainerKeyInput := { container_key_file : option (list Z) }.

Record DattoImageInput := { agent_password_file : option (list Z); key_stash : option (list Z) }.

Record ImageWindow := { image_offset : Z; image_length : option Z }.

Inductive InceptionCommand :=
| InceptionInspect (stream image : list Z) (snapshot key_file : option (list Z)) (window : ImageWindow) (json : bool)
| InceptionList (stream image path : list Z) (snapshot key_file volume : option (list Z)) (window : ImageWindow)
| InceptionExtract (stream image path output : list Z) (force : bool) (snapshot key_file volume : option (list Z)) (window : ImageWindow)
| InceptionExtractTree (stream image path output : list Z) (force : bool) (snapshot key_file volume : option (list Z)) (window : ImageWindow).

Inductive PoolInceptionCommand :=
| PoolInceptionInspect (member dataset image : list Z) (key_file : option (list Z)) (window : ImageWindow) (json : bool)
    (container : ContainerKeyInput) (datto : DattoImageInput)
| PoolInceptionList (member dataset image path : list Z) (key_file volume : option (list Z)) (window : ImageWindow)
    (container : ContainerKeyInput) (datto : DattoImageInput)
| PoolInceptionExtract (member dataset image path output : list Z) (force : bool) (key_file volume : option (list Z)) (window : ImageWindow)
    (container : ContainerKeyInput) (datto : DattoImageInput)
| PoolInceptionExtractTree (member dataset image path output : list Z) (force : bool) (key_file volume : option (list Z)) (window : ImageWindow)
    (container : ContainerKeyInput) (datto : DattoImageInput).

Inductive PoolCommand :=
| PoolInspect (member : list Z) (json : bool) (container : ContainerKeyInput)
| PoolDatasets (member : list Z) (container : ContainerKeyInput)
| PoolSnapshots (member : list Z) (dataset : option (list Z)) (json : bool) (container : ContainerKeyInput)
| PoolList (member dataset path : list Z) (key_file : option (list Z)) (container : ContainerKeyInput)
| PoolExtract (member dataset path output : list Z) (force : bool) (key_file : option (list Z)) (container : ContainerKeyInput)
| PoolExtractTree (member dataset path output : list Z) (force : bool) (key_file : option (list Z)) (container : ContainerKeyInput)
| PoolInception (command : PoolInceptionCommand).

Inductive Command :=
| InspectStream (stream : list Z) (json : bool)
| ListSnapshots (stream : list Z) (json : bool)
| ListDirectory (stream path : list Z) (snapshot key_file : option (list Z))
| ExtractFile (stream path output : list Z) (force : bool) (snapshot key_file : option (list Z))
| ExtractTree (stream path output : list Z) (force : bool) (snapshot key_file : option (list Z))
| ApplyUpdate (stream target : list Z) (key_file : option (list Z))
| Inception (command : InceptionCommand)
| OfPool (command : PoolCommand).

(** ** Byte counts *)

Definition UNDERSCORE : Z := 95.

Definition hex_prefixed (compact : list Z) : option (list Z) :=
  match strip_prefix (bytes_of_string "0x") compact with
  | Some hex => Some hex
  | None => strip_prefix (bytes_of_string "0X") compact
  end.

Definition parse_byte_argument (value : list Z) : result Z :=
  let compact := List.filter (fun c => negb (c =? UNDERSCORE)) (trim value) in
  fail! is_empty compact with Msg "byte count cannot be empty" [] in
  let parsed := match hex_prefixed compact with
    | Some hex => from_str_radix 16 U64_MAX hex
    | None => from_str_radix 10 U64_MAX compact
    end in
  ok_or parsed (Msg "{value:?} is not a byte count (use decimal or 0x hexadecimal)" []).

(** ** Keys and secrets

    The terminal: whether standard input is one, and what is typed at a prompt
    (crate rpassword). *)
Class Terminal := { is_terminal : bool; prompt_password : list Z -> result (list Z) }.

Section keys.
Context `{LocalFiles}.

Definition load_optional_secret_file (path : option (list Z)) (maximum_size : Z) : result (option (list Z)) :=
  match path with
  | None => Ok None
  | Some path =>
      let! bytes := with_context "opening {label} file {}" [] (local_file path) in
      let material := ztake (maximum_size + 1) bytes in
      fail! maximum_size <? len material with Msg "{label} file {} is too large" [] in
      Ok (Some (strip_newline material))
  end.

Definition read_zfs_key_file (requirement : EncryptionRequirement) (path : list Z) : result (list Z) :=
  let! maximum_size := maximum_key_size (er_key_format requirement) in
  let! bytes := with_context "reading ZFS key file {}: {error}" [] (local_file path) in
  let material := ztake (maximum_size + 1) bytes in
  fail! maximum_size <? len material with Msg "ZFS {} key file {} is too large" [] in
  normalize_key_file_material (bytes_of_string (er_key_format requirement)) material.

Context `{Terminal}.

Definition load_key_for_requirement (requirement : option EncryptionRequirement) (key_file : option (list Z)) : result (option (list Z)) :=
  match requirement with
  | None =>
      fail! is_some key_file with Msg "--key-file is only valid for an encrypted source" [] in
      Ok None
  | Some requirement =>
      match key_file with
      | Some path => let! material := read_zfs_key_file requirement path in Ok (Some material)
      | None =>
          fail! String.eqb (er_key_format requirement) "raw"
            with Msg "dataset uses a binary raw key; provide its 32-byte file with --key-file" [] in
          fail! negb is_terminal
            with Msg "encrypted source requires --key-file when standard input is not an interactive terminal" [] in
          let! material := prompt_password (bytes_of_string "ZFS " ++ bytes_of_string (er_key_format requirement) ++ bytes_of_string " for " ++
            er_dataset_name requirement ++ bytes_of_string ": ") in
          Ok (Some material)
      end
  end.
End keys.

(** ** What is printed

    The lines, without their ends. Everything is printed behind the last step
    that can fail. *)

Abbreviation lines := (list (list Z)).

Definition TAB : list Z := [9].

(** [Path::display] *)
Definition display (path : list Z) : list Z := from_utf8_lossy path.

(** serde_json, to_string_pretty of what derives Serialize; the text of an error;
    and the luks crate's name of an unlocked container. *)
Class CliText := {
  inspection_json : Inspection -> result lines;
  snapshots_json : list BeginRecord -> result lines;
  pool_inspection_json : PoolInspection -> result lines;
  pool_snapshots_json : list PoolSnapshot -> result lines;
  session_json : InceptionSession -> result lines;
  error_display : error -> list Z;
  container_description : PoolInspection -> list Z;
}.

Definition entry_line (entry : DirectoryEntry) : list Z :=
  let kind := if de_dirent_type entry =? 4 then "d" else if de_dirent_type entry =? 8 then "f"
    else if de_dirent_type entry =? 10 then "l" else "?" in
  bytes_of_string kind ++ TAB ++ from_option decimal (bytes_of_string "-") (de_logical_size entry) ++ TAB ++
  decimal (de_object_id entry) ++ TAB ++ de_name entry.

Definition print_directory (entries : list DirectoryEntry) : lines := map entry_line entries.

Definition print_tree_extraction (output : list Z) (extraction : RecursiveExtraction) : lines :=
  [bytes_of_string "extracted " ++ decimal (files extraction) ++ bytes_of_string " file" ++
     bytes_of_string (if files extraction =? 1 then "" else "s") ++ bytes_of_string " in " ++ decimal (directories extraction) ++
     bytes_of_string " director" ++ bytes_of_string (if directories extraction =? 1 then "y" else "ies") ++ bytes_of_string " (" ++
     decimal (logical_bytes extraction) ++ bytes_of_string " logical bytes) to " ++ display output] ++
  (if skipped_entries extraction =? 0 then []
   else [bytes_of_string "skipped " ++ decimal (skipped_entries extraction) ++ bytes_of_string " symlink or unsupported special entr" ++
     bytes_of_string (if skipped_entries extraction =? 1 then "y" else "ies")]).

Definition extracted_line (logical_size : Z) (from output sha256 : list Z) : list Z :=
  bytes_of_string "extracted " ++ decimal logical_size ++ bytes_of_string " bytes from " ++ from ++ bytes_of_string " to " ++
  display output ++ bytes_of_string " (sha256 " ++ sha256 ++ bytes_of_string ")".

Definition object_text (object_id : Z) : list Z := bytes_of_string "object " ++ decimal object_id.

Definition volume_text (extraction : NestedExtraction) : list Z :=
  filesystem_name (ne_filesystem extraction) ++ bytes_of_string " volume " ++ ne_volume extraction.

Definition updated_line (sidecar : Sidecar) : list Z :=
  bytes_of_string "updated " ++ sc_path sidecar ++ bytes_of_string " to " ++ decimal (sc_logical_size sidecar) ++
  bytes_of_string " bytes at " ++ sc_snapshot_guid sidecar ++ bytes_of_string " (sha256 " ++ sc_sha256 sidecar ++ bytes_of_string ")".

(** [Display] of a container, inception.rs *)
Definition container_name (kind : DiskContainerKind) : list Z :=
  bytes_of_string (match kind with ContainerRaw => "raw" | ContainerQcow2 => "QCOW2" | ContainerVmdk => "VMDK monolithicSparse" end).

Definition field (name : string) (value : list Z) : list Z := bytes_of_string name ++ bytes_of_string ": " ++ value.

Section printed.
Context `{CliText}.

Definition volume_lines (volume : VolumeInfo) : lines :=
  [vi_selector volume ++ TAB ++ from_option filesystem_name (bytes_of_string "unknown") (vi_filesystem volume) ++ TAB ++
     decimal (vi_offset volume) ++ TAB ++ decimal (vi_length volume) ++ TAB ++ vi_partition_type volume ++ TAB ++ vi_name volume] ++
  from_option (fun diagnostic => [bytes_of_string "  note: " ++ error_display diagnostic]) [] (vi_diagnostic volume).

Definition session_lines (session : InceptionSession) : lines :=
  [field "image" (se_image_path session); field "image offset" (decimal (se_image_offset session));
   field "stored bytes" (decimal (se_stored_size session)); field "container" (container_name (se_container session));
   field "virtual disk bytes" (decimal (se_disk_size session)); field "volumes" (decimal (len (se_volumes session)))] ++
  flat_map volume_lines (se_volumes session).

Definition print_inception_inspection (session : InceptionSession) (json : bool) : result lines :=
  if json then session_json session else Ok (session_lines session).

Definition pool_inspection_lines (inspection : PoolInspection) : lines :=
  [field "pool" (pi_pool_name inspection); field "backup format" (pi_backup_format inspection)] ++
  (if pi_container_encryption inspection then [field "container" (container_description inspection)] else []) ++
  [field "pool guid" (pi_pool_guid inspection);
   field "vdev" (pi_vdev_guid inspection ++ bytes_of_string " (" ++ pi_vdev_type inspection ++ bytes_of_string ", " ++
     decimal (pi_top_level_vdevs inspection) ++ bytes_of_string " top-level)");
   field "member bytes" (decimal (pi_source_bytes inspection)); field "active txg" (decimal (pi_txg inspection));
   field "byte order" (pi_endian inspection); field "datasets" (decimal (pi_datasets inspection));
   field "snapshots" (decimal (pi_snapshots inspection))].

Context `{Chrono}.
Variable time_zone : SnapshotTimeZone.

Definition snapshot_lines (snapshot : BeginRecord) : lines :=
  [bytes_of_string "snapshot: " ++ dataset_name snapshot ++ bytes_of_string " (" ++
     bytes_of_string (if has_bits (features snapshot) FEATURE_RAW then "raw encrypted" else "plain") ++ bytes_of_string ", to " ++
     guid_string (to_guid snapshot) ++ bytes_of_string ", from " ++ guid_string (from_guid snapshot) ++ bytes_of_string ")"] ++
  from_option (fun time => [field "  created" time]) [] (format time_zone (creation_time snapshot)).

(** The counts in the order of their names. *)
Definition inspection_lines (inspection : Inspection) : lines :=
  [field "snapshots" (decimal (len (in_snapshots inspection)))] ++ flat_map snapshot_lines (in_snapshots inspection) ++
  [field "stream bytes" (decimal (in_stream_bytes inspection))] ++
  map (fun '(name, count) => name ++ bytes_of_string ": " ++ decimal count)
    (sort_by_name fst (map (fun '(name, count) => (bytes_of_string name, count)) (map_to_list (in_records inspection)))).

Definition time_text (time : Z) : list Z := default (bytes_of_string "Time unavailable") (format time_zone time).

Definition snapshot_line (snapshot : BeginRecord) : list Z :=
  bytes_of_string (if from_guid snapshot =? 0 then "full" else "incremental") ++ TAB ++
  bytes_of_string (if has_bits (features snapshot) FEATURE_RAW then "raw" else "plain") ++ TAB ++
  guid_string (to_guid snapshot) ++ TAB ++ guid_string (from_guid snapshot) ++ TAB ++ dataset_name snapshot ++ TAB ++
  time_text (creation_time snapshot).

Definition dataset_line (dataset : DatasetInfo) : list Z :=
  di_head_guid dataset ++ TAB ++ decimal (di_head_dataset_object dataset) ++ TAB ++ di_name dataset.

Definition pool_snapshot_line (snapshot : PoolSnapshot) : list Z :=
  sn_guid snapshot ++ TAB ++ decimal (sn_creation_txg snapshot) ++ TAB ++ decimal (sn_creation_time snapshot) ++ TAB ++
  sn_full_name snapshot ++ TAB ++ time_text (sn_creation_time snapshot).
End printed.

(** ** The commands over the system *)

Section commands.
Context `{LocalFiles} `{ZfsDisk} `{ZfsLabels} `{Codecs} `{Crypto} `{Crc32} `{PoolCore} `{DiskCrates} `{InnerCrates} `{DattoCrates}.
Context {R : Type} `{Read R} {D : Type} `{Device D} `{DeviceInfo D} `{Luks D} `{!ClientHost R D}.
Context `{Terminal} `{CliText} `{Chrono}.
Variable fuel : nat.

Definition load_key_material (stream : list Z) (snapshot key_file : option (list Z)) : result (option (list Z)) :=
  let! stream := open_stream stream in
  let! requirement := Operations.encryption_requirement fuel stream snapshot in
  load_key_for_requirement requirement key_file.

Definition load_apply_key_material (stream : list Z) (key_file : option (list Z)) : result (option (list Z)) :=
  let! stream := open_stream stream in
  let! requirement := apply_encryption_requirement fuel stream in
  load_key_for_requirement requirement key_file.

Definition load_pool_key_material (pool : PoolMember) (dataset : list Z) (key_file : option (list Z)) : result (option (list Z)) :=
  let! requirement := Pool.encryption_requirement pool fuel dataset in
  load_key_for_requirement requirement key_file.

Definition open_pool_member (member : list Z) (input : ContainerKeyInput) : result PoolMember :=
  let! key := load_optional_secret_file (container_key_file input) 4096 in
  open_member member key.

(** *** Nested images *)

Definition send_session (stream image : list Z) (snapshot key_file : option (list Z)) (window : ImageWindow) : result InceptionSession :=
  let! key := load_key_material stream snapshot key_file in
  let! reader := open_stream stream in
  let! file := stream_bytes stream in
  from_send_at fuel reader file snapshot image key (image_offset window) (image_length window).

Definition pool_session (member dataset image : list Z) (key_file : option (list Z)) (window : ImageWindow) (container : ContainerKeyInput)
    (datto : DattoImageInput) : result InceptionSession :=
  let! pool := open_pool_member member container in
  let! key := load_pool_key_material pool dataset key_file in
  let! agent_password := load_optional_secret_file (agent_password_file datto) 4096 in
  from_pool_member_at_with_keys pool fuel dataset image key agent_password (key_stash datto) (image_offset window) (image_length window).

Section host.
Context `{SidecarJson} `{Os} `{Digest} `{Faults} `{TempNames} `{HostPaths}.
Variables (windows : bool) (time_zone : SnapshotTimeZone).

(** What the recursive extractions do with their output. *)
Definition to_tree (output : list Z) (extract : path -> name -> fs_m RecursiveExtraction) : fs_m lines :=
  let* extraction := match host_path output with
    | destination_name :: parent => extract parent destination_name
    | [] => fs_ret (Err (Msg "recursive destination has no directory name" []))
    end in
  fs_ret (Ok (print_tree_extraction output extraction)).

Definition extract_from (session : InceptionSession) (path_ output : list Z) (force : bool) (volume : option (list Z)) : fs_m lines :=
  let* extraction := session_extract session fuel volume path_ (host_path output) force in
  fs_ret (Ok [extracted_line (ne_logical_size extraction) (volume_text extraction) output (ne_sha256 extraction)]).

Definition run_inception (command : InceptionCommand) : fs_m lines :=
  match command with
  | InceptionInspect stream image snapshot key_file window json =>
      let* session := fs_ret (send_session stream image snapshot key_file window) in
      fs_ret (print_inception_inspection session json)
  | InceptionList stream image path snapshot key_file volume window =>
      let* session := fs_ret (send_session stream image snapshot key_file window) in
      let* entries := fs_ret (session_list_directory session volume path) in
      fs_ret (Ok (print_directory entries))
  | InceptionExtract stream image path output force snapshot key_file volume window =>
      let* session := fs_ret (send_session stream image snapshot key_file window) in
      extract_from session path output force volume
  | InceptionExtractTree stream image path output force snapshot key_file volume window =>
      let* session := fs_ret (send_session stream image snapshot key_file window) in
      to_tree output (fun parent name => session_extract_tree windows session fuel volume path parent name force)
  end.

Definition run_pool_inception (command : PoolInceptionCommand) : fs_m lines :=
  match command with
  | PoolInceptionInspect member dataset image key_file window json container datto =>
      let* session := fs_ret (pool_session member dataset image key_file window container datto) in
      fs_ret (print_inception_inspection session json)
  | PoolInceptionList member dataset image path key_file volume window container datto =>
      let* session := fs_ret (pool_session member dataset image key_file window container datto) in
      let* entries := fs_ret (session_list_directory session volume path) in
      fs_ret (Ok (print_directory entries))
  | PoolInceptionExtract member dataset image path output force key_file volume window container datto =>
      let* session := fs_ret (pool_session member dataset image key_file window container datto) in
      extract_from session path output force volume
  | PoolInceptionExtractTree member dataset image path output force key_file volume window container datto =>
      let* session := fs_ret (pool_session member dataset image key_file window container datto) in
      to_tree output (fun parent name => session_extract_tree windows session fuel volume path parent name force)
  end.

(** *** Pool members *)

Definition run_pool (command : PoolCommand) : fs_m lines :=
  match command with
  | PoolInspect member json container =>
      let* pool := fs_ret (open_pool_member member container) in
      let* inspection := fs_ret (inspect pool fuel) in
      fs_ret (if json then pool_inspection_json inspection else Ok (pool_inspection_lines inspection))
  | PoolDatasets member container =>
      let* pool := fs_ret (open_pool_member member container) in
      let* found := fs_ret (datasets pool fuel) in
      fs_ret (Ok (map dataset_line found))
  | PoolSnapshots member dataset json container =>
      let* pool := fs_ret (open_pool_member member container) in
      let* found := fs_ret (snapshots pool fuel dataset) in
      fs_ret (if json then pool_snapshots_json found else Ok (map (pool_snapshot_line time_zone) found))
  | PoolList member dataset path key_file container =>
      let* pool := fs_ret (open_pool_member member container) in
      let* key := fs_ret (load_pool_key_material pool dataset key_file) in
      let* entries := fs_ret (list_directory_with_key pool fuel dataset path key) in
      fs_ret (Ok (print_directory entries))
  | PoolExtract member dataset path output force key_file container =>
      let* pool := fs_ret (open_pool_member member container) in
      let* key := fs_ret (load_pool_key_material pool dataset key_file) in
      let* extraction := pool_extract_to pool fuel dataset path (host_path output) force key in
      fs_ret (Ok ([extracted_line (pe_logical_size extraction) (object_text (pe_object_id extraction)) output (pe_sha256 extraction)] ++
        (if pe_sidecar_written extraction then []
         else [bytes_of_string "note: current-head extraction has no incremental-send sidecar; select a named snapshot to create one"])))
  | PoolExtractTree member dataset path output force key_file container =>
      let* pool := fs_ret (open_pool_member member container) in
      let* key := fs_ret (load_pool_key_material pool dataset key_file) in
      to_tree output (fun parent name => extract_tree_with_key pool windows fuel dataset path parent name force key)
  | PoolInception command => run_pool_inception command
  end.

(** *** Send streams *)

Definition main (command : Command) : fs_m lines :=
  match command with
  | InspectStream stream json =>
      let* reader := fs_ret (open_stream stream) in
      let* inspection := fs_ret (inspect_stream fuel reader) in
      fs_ret (if json then inspection_json inspection else Ok (inspection_lines time_zone inspection))
  | ListSnapshots stream json =>
      let* reader := fs_ret (open_stream stream) in
      let* found := fs_ret (snapshot_headers fuel reader) in
      fs_ret (if json then snapshots_json found else Ok (map (snapshot_line time_zone) found))
  | ListDirectory stream path snapshot key_file =>
      let* key := fs_ret (load_key_material stream snapshot key_file) in
      let* reader := fs_ret (open_stream stream) in
      let* entries := fs_ret (list_directory_snapshot_with_key fuel reader path snapshot key) in
      fs_ret (Ok (print_directory entries))
  | ExtractFile stream path output force snapshot key_file =>
      let* key := fs_ret (load_key_material stream snapshot key_file) in
      let* reader := fs_ret (open_stream stream) in
      let* sidecar := extract_snapshot_to fuel reader path (host_path output) force snapshot key in
      fs_ret (Ok [extracted_line (sc_logical_size sidecar) (object_text (sc_object_id sidecar)) output (sc_sha256 sidecar)])
  | ExtractTree stream path output force snapshot key_file =>
      let* key := fs_ret (load_key_material stream snapshot key_file) in
      let* reader := fs_ret (open_stream stream) in
      to_tree output (fun parent name => extract_tree_snapshot_with_key windows fuel reader path parent name force snapshot key)
  | ApplyUpdate stream target key_file =>
      let* key := fs_ret (load_apply_key_material stream key_file) in
      let* reader := fs_ret (open_stream stream) in
      let* sidecar := apply_incremental_to fuel reader (host_path target) key in
      fs_ret (Ok [updated_line sidecar])
  | Inception command => run_inception command
  | OfPool command => run_pool command
  end.
End host.
End commands.
