(* ===== verification/CliProps.v ===== *)
(** Properties of the command line: the commands do what the client library does
    for a selected view, and byte counts are read as they are written. *)

From stdpp Require Import sorting.
From S2P Require Import Prelude Bytes Utf8 Stream StreamFacts StreamProps Replay Compression CompressionProps NvList Encrypted EncryptedDnode.
From S2P Require Import EncryptedProps Paths Snapshots Selected ObjectIndex FilesystemProps Resolve ResolveProps Sparse SparseFacts Operations OperationsFacts.
From S2P Require Import OperationsProps Apply Lznt1 NtfsStream Image ImageProps DiskImage Partitions Volumes PartitionFacts PartitionProps Sources SourceProps Datto.
From S2P Require Import DattoProps HostFs Tree HostExtract TreeProps PoolBlocks PoolSource Pool PoolFile PoolOpen PoolTreeFacts.
From S2P Require Import PoolProps Inner InnerSession InnerProps Updates UpdateProps Client ClientProps Presentation PresentationProps Service ServiceProps Cli.
#[local] Open Scope Z_scope.
#[local] Open Scope zse_scope.

(** ** Outcomes that agree

    The texts of errors may differ. *)

Definition like {A B} (R : A -> B -> Prop) (a : result A) (b : result B) : Prop :=
  match a, b with
  | Ok x, Ok y => R x y
  | Err _, Err _ | Panic, Panic | OutOfFuel, OutOfFuel => True
  | _, _ => False
  end.

(** From every state of the host: the same outcome, and the same host after it. *)
Definition agree {A B} (R : A -> B -> Prop) (m : fs_m A) (n : fs_m B) : Prop :=
  forall h, like R (m h).1 (n h).1 /\ (m h).2 = (n h).2.

Lemma like_refl {A} (r : result A) : like eq r r.
Proof. by destruct r. Qed.

Lemma agree_ret {A B} (R : A -> B -> Prop) a b : like R a b -> agree R (fs_ret a) (fs_ret b).
Proof. by intros Hl h. Qed.

Lemma agree_same {A} (m : fs_m A) : agree eq m m.
Proof. intros h. split; [apply like_refl|done]. Qed.

Lemma agree_bind {A B A' B'} (R : A -> B -> Prop) (S : A' -> B' -> Prop) m n k l :
  agree R m n -> (forall x y, R x y -> agree S (k x) (l y)) -> agree S (fs_bind m k) (fs_bind n l).
Proof.
  intros Hm Hk h. unfold fs_bind. destruct (Hm h) as [Hr Hh].
  destruct (m h) as [a h1], (n h) as [b h2]. cbn [fst snd] in *. subst h2.
  destruct a, b; cbn in Hr; try done. by apply Hk.
Qed.

(** The same step on both sides. *)
Lemma agree_step {A A' B'} (S : A' -> B' -> Prop) (m : fs_m A) k l : (forall x, agree S (k x) (l x)) -> agree S (fs_bind m k) (fs_bind m l).
Proof. intros Hk. apply (agree_bind eq); [apply agree_same|]. by intros x ? <-. Qed.

(** A step on the left that cannot fail. *)
Lemma agree_map {A B} (m : fs_m A) (f : A -> B) : agree (fun y x => y = f x) (let* x := m in fs_ret (Ok (f x))) m.
Proof. intros h. unfold fs_bind. by destruct (m h) as [[]]. Qed.

Lemma agree_ext {A B} (R : A -> B -> Prop) m m' n n' : (forall h, m h = m' h) -> (forall h, n h = n' h) -> agree R m' n' -> agree R m n.
Proof. intros Hm Hn Ha h. rewrite Hm, Hn. apply Ha. Qed.

Lemma fs_ret_bind {A B} (r : result A) (k : A -> result B) h : fs_ret (let! x := r in k x) h = (let* x := fs_ret r in fs_ret (k x)) h.
Proof. by destruct r. Qed.

Lemma fs_ret_Ok {A B} (a : A) (k : A -> fs_m B) : fs_bind (fs_ret (Ok a)) k = k a.
Proof. done. Qed.

(** ** A view, from both sides *)

(** What is done with a place of a view, or with one inside a nested image. *)
Inductive Task :=
| TaskList (place : list Z)
| TaskExtract (place output : list Z) (force : bool)
| TaskTree (place output : list Z) (force : bool).

Inductive Work :=
| Direct (task : Task)
| Nested (image : list Z) (window : ImageWindow) (volume : option (list Z)) (task : Task)
| Look (image : list Z) (window : ImageWindow).

Inductive Outcome := Entries (entries : list DirectoryEntry) | Extracted (extraction : ClientExtraction) | Restored_ (tree : RecursiveExtraction)
| Looked (catalog : InceptionCatalog).

Definition no_datto : DattoImageInput := {| agent_password_file := None; key_stash := None |}.

(** The command for a piece of work on a view with this selector. *)
Definition send_command (stream selector : list Z) (key_file : option (list Z)) (work : Work) : Command :=
  match work with
  | Direct (TaskList place) => ListDirectory stream place (Some selector) key_file
  | Direct (TaskExtract place output force) => ExtractFile stream place output force (Some selector) key_file
  | Direct (TaskTree place output force) => ExtractTree stream place output force (Some selector) key_file
  | Look image window => Inception (InceptionInspect stream image (Some selector) key_file window false)
  | Nested image window volume (TaskList place) => Inception (InceptionList stream image place (Some selector) key_file volume window)
  | Nested image window volume (TaskExtract place output force) =>
      Inception (InceptionExtract stream image place output force (Some selector) key_file volume window)
  | Nested image window volume (TaskTree place output force) =>
      Inception (InceptionExtractTree stream image place output force (Some selector) key_file volume window)
  end.

Definition pool_command (member selector : list Z) (container : ContainerKeyInput) (key_file : option (list Z)) (datto : DattoImageInput) (work : Work)
  : PoolCommand :=
  match work with
  | Direct (TaskList place) => PoolList member selector place key_file container
  | Direct (TaskExtract place output force) => PoolExtract member selector place output force key_file container
  | Direct (TaskTree place output force) => PoolExtractTree member selector place output force key_file container
  | Look image window => PoolInception (PoolInceptionInspect member selector image key_file window false container datto)
  | Nested image window volume (TaskList place) =>
      PoolInception (PoolInceptionList member selector image place key_file volume window container datto)
  | Nested image window volume (TaskExtract place output force) =>
      PoolInception (PoolInceptionExtract member selector image place output force key_file volume window container datto)
  | Nested image window volume (TaskTree place output force) =>
      PoolInception (PoolInceptionExtractTree member selector image place output force key_file volume window container datto)
  end.

Definition command_of (source : SourceCatalog) (view : SourceView) (key_file : option (list Z)) (datto : DattoImageInput) (work : Work) : Command :=
  match ct_kind source with
  | SendStream => send_command (ct_path source) (vw_selector view) key_file work
  | PoolMember_ => OfPool (pool_command (ct_path source) (vw_selector view) {| container_key_file := ct_container_key_file source |} key_file datto work)
  end.

Section agreement.
Context `{LocalFiles} `{ZfsDisk} `{ZfsLabels} `{Codecs} `{Crypto} `{Crc32} `{PoolCore} `{DiskCrates} `{InnerCrates} `{DattoCrates}.
Context {R : Type} `{Read R} {D : Type} `{Device D} `{DeviceInfo D} `{Luks D} `{!ClientHost R D}.
Context `{Terminal} `{CliText} `{Chrono} `{SidecarJson} `{Os} `{Digest} `{Faults} `{TempNames} `{HostPaths}.
Variables (fuel : nat) (windows : bool) (time_zone : SnapshotTimeZone).

(** Whether the view asks for a key. *)
Definition view_requirement (source : SourceCatalog) (view : SourceView) : result (option EncryptionRequirement) :=
  match ct_kind source with
  | SendStream => let! stream := open_stream (ct_path source) in Operations.encryption_requirement fuel stream (Some (vw_selector view))
  | PoolMember_ => let! pool := Client.open_pool_member source in Pool.encryption_requirement pool fuel (vw_selector view)
  end.

(** A tree goes to a directory with a name. *)
Definition tree_at {A} (output : list Z) (extract : path -> name -> fs_m A) : fs_m A :=
  match host_path output with
  | destination_name :: parent => extract parent destination_name
  | [] => fs_ret (Err (Msg "recursive destination has no directory name" []))
  end.

Definition named (work : Work) : Prop :=
  match work with
  | Direct (TaskTree _ output _) | Nested _ _ _ (TaskTree _ output _) => host_path output <> []
  | _ => True
  end.

(** The same work by the client library. *)
Definition client_work (source : SourceCatalog) (view_index : Z) (key_file : option (list Z)) (datto : DattoImageInput) (work : Work) : fs_m Outcome :=
  match work with
  | Direct (TaskList place) =>
      let* entries := fs_ret (catalog_list_directory fuel source view_index place (KeyFile key_file)) in fs_ret (Ok (Entries entries))
  | Direct (TaskExtract place output force) =>
      let* extraction := catalog_extract fuel source view_index place (host_path output) force (KeyFile key_file) in fs_ret (Ok (Extracted extraction))
  | Direct (TaskTree place output force) =>
      let* tree := tree_at output (fun parent name =>
        catalog_extract_tree fuel source windows view_index place parent name force (KeyFile key_file)) in fs_ret (Ok (Restored_ tree))
  | Look image window | Nested image window _ _ =>
      let* catalog := fs_ret (inspect_inception_with_datto fuel source view_index image key_file (agent_password_file datto) (key_stash datto)
        (image_offset window) (image_length window)) in
      match work with
      | Nested _ _ volume (TaskList place) =>
          let* entries := fs_ret (nested_list_directory catalog volume place) in fs_ret (Ok (Entries entries))
      | Nested _ _ volume (TaskExtract place output force) =>
          let* extraction := nested_extract catalog fuel volume place (host_path output) force in fs_ret (Ok (Extracted extraction))
      | Nested _ _ volume (TaskTree place output force) =>
          let* tree := tree_at output (fun parent name => nested_extract_tree windows catalog fuel volume place parent name force) in
          fs_ret (Ok (Restored_ tree))
      | _ => fs_ret (Ok (Looked catalog))
      end
  end.

(** The lines that tell of an outcome. *)
Definition told (work : Work) (outcome : Outcome) (printed : lines) : Prop :=
  match work, outcome with
  | (Direct (TaskList _) | Nested _ _ _ (TaskList _)), Entries entries => printed = print_directory entries
  | (Direct (TaskExtract _ output _) | Nested _ _ _ (TaskExtract _ output _)), Extracted extraction =>
      exists from note, printed = extracted_line (ce_logical_size extraction) from output (ce_sha256 extraction) :: note
  | (Direct (TaskTree _ output _) | Nested _ _ _ (TaskTree _ output _)), Restored_ tree => printed = print_tree_extraction output tree
  | Look _ _, Looked catalog => printed = session_lines (ic_session catalog)
  | _, _ => False
  end.

Hypothesis script : is_terminal = false.

(** Keys: the same material, or an error on both sides. *)
Lemma key_like required key_file : (required = None -> key_file = None) ->
  like eq (obtain_key required (KeyFile key_file)) (load_key_for_requirement required key_file).
Proof.
  intros Hnone. cbn [obtain_key]. destruct required as [required|]; [|by rewrite Hnone].
  unfold read_key_for_requirement, load_key_for_requirement, read_zfs_key_file. destruct key_file as [path|]; cbn [ok_or bind].
  - destruct (maximum_key_size _) as [size|e| |]; cbn [bind]; try done.
    destruct (local_file path) as [bytes|e| |]; cbn [bind with_context map_err]; try done.
    destruct (size <? _); [done|]. destruct (normalize_key_file_material _ _); done.
  - rewrite script. by destruct (String.eqb _ _).
Qed.

Lemma key_step {A B} (S : A -> B -> Prop) required key_file k l :
  (required = Ok None -> key_file = None) -> (forall key, agree S (k key) (l key)) ->
  agree S (let* required := fs_ret required in let* key := fs_ret (obtain_key required (KeyFile key_file)) in k key)
          (let* key := fs_ret (let! required := required in load_key_for_requirement required key_file) in l key).
Proof.
  intros Hnone Hk. destruct required as [required|e| |]; cbn [bind]; try by intros h. rewrite fs_ret_Ok.
  eapply agree_bind; [apply agree_ret, key_like|]. { intros ->. by apply Hnone. } intros x ? <-. apply Hk.
Qed.

(** The steps up to the key of a stream, and what comes then. *)
Lemma stream_step {A B} (S : A -> B -> Prop) stream requirement key_file k l :
  ((let! reader := open_stream stream in requirement reader) = Ok None -> key_file = None) ->
  (forall reader key, open_stream stream = Ok reader -> agree S (k reader key) (l reader key)) ->
  agree S (let* reader := fs_ret (open_stream stream) in
           let* required := fs_ret (requirement reader) in
           let* key := fs_ret (obtain_key required (KeyFile key_file)) in k reader key)
          (let* key := fs_ret (let! reader := open_stream stream in let! required := requirement reader in load_key_for_requirement required key_file) in
           let* reader := fs_ret (open_stream stream) in l reader key).
Proof.
  intros Hnone Hk. destruct (open_stream stream) as [reader|e| |]; cbn [bind] in *; try by intros h.
  rewrite fs_ret_Ok. apply key_step; [exact Hnone|]. intros key. rewrite fs_ret_Ok. by apply Hk.
Qed.

(** *** Nested images *)

Lemma session_like source view_index view key_file datto image window :
  get (ct_views source) view_index = Some view -> (view_requirement source view = Ok None -> key_file = None) ->
  (ct_kind source = SendStream -> datto = no_datto) -> ct_container_key_material source = None ->
  like (fun catalog session => ic_session catalog = session)
    (inspect_inception_with_datto fuel source view_index image key_file (agent_password_file datto) (key_stash datto) (image_offset window) (image_length window))
    match ct_kind source with
    | SendStream => send_session fuel (ct_path source) image (Some (vw_selector view)) key_file window
    | PoolMember_ => pool_session fuel (ct_path source) (vw_selector view) image key_file window
        {| container_key_file := ct_container_key_file source |} datto
    end.
Proof.
  intros Hview Hnone Hdatto Hmaterial.
  unfold inspect_inception_with_datto, open_inception, catalog_view. rewrite Hview. cbn [ok_or bind].
  unfold view_requirement in Hnone. destruct (ct_kind source).
  - rewrite Hdatto by done. cbn [is_some agent_password_file key_stash no_datto orb]. unfold send_session, load_key_material.
    destruct (open_stream (ct_path source)) as [reader|e| |]; cbn [bind] in *; try done.
    destruct (Operations.encryption_requirement _ _ _) as [required|e| |]; cbn [bind]; try done.
    pose proof (key_like required key_file ltac:(intros ->; by apply Hnone)) as Hk.
    destruct (obtain_key _ _), (load_key_for_requirement _ _); cbn [like bind] in *; try done. subst.
    destruct (let! file := stream_bytes _ in _); done.
  - unfold pool_session, load_pool_key_material, open_pool_member. unfold Client.open_pool_member in *. rewrite Hmaterial in *.
    change (load_optional_secret_file (container_key_file _) 4096) with (read_secret_file (ct_container_key_file source) 4096).
    destruct (let! key := read_secret_file _ _ in open_member _ key) as [pool|e| |]; cbn [bind] in *; try done.
    destruct (Pool.encryption_requirement _ _ _) as [required|e| |]; cbn [bind]; try done.
    pose proof (key_like required key_file ltac:(intros ->; by apply Hnone)) as Hk.
    destruct (obtain_key _ _), (load_key_for_requirement _ _); cbn [like bind] in *; try done. subst.
    change (load_optional_secret_file (agent_password_file datto) 4096) with (read_secret_file (agent_password_file datto) 4096).
    destruct (let! agent_password := read_secret_file _ _ in _); done.
Qed.

(** A session is opened on both sides. *)
Lemma session_step {A B} (S : A -> B -> Prop) source view_index view key_file datto image window k l :
  get (ct_views source) view_index = Some view -> (view_requirement source view = Ok None -> key_file = None) ->
  (ct_kind source = SendStream -> datto = no_datto) -> ct_container_key_material source = None ->
  (forall catalog, agree S (k catalog) (l (ic_session catalog))) ->
  agree S (let* catalog := fs_ret (inspect_inception_with_datto fuel source view_index image key_file
        (agent_password_file datto) (key_stash datto) (image_offset window) (image_length window)) in k catalog)
    (let* session := fs_ret (match ct_kind source with
        | SendStream => send_session fuel (ct_path source) image (Some (vw_selector view)) key_file window
        | PoolMember_ => pool_session fuel (ct_path source) (vw_selector view) image key_file window
            {| container_key_file := ct_container_key_file source |} datto end) in l session).
Proof.
  intros Hview Hnone Hdatto Hmaterial Hk. eapply agree_bind; [by apply agree_ret, session_like|]. by intros catalog ? <-.
Qed.

Lemma nested_task image window volume task catalog :
  named (Nested image window volume task) ->
  agree (told (Nested image window volume task))
    match task with
    | TaskList place => let* entries := fs_ret (nested_list_directory catalog volume place) in fs_ret (Ok (Entries entries))
    | TaskExtract place output force =>
        let* extraction := nested_extract catalog fuel volume place (host_path output) force in fs_ret (Ok (Extracted extraction))
    | TaskTree place output force =>
        let* tree := tree_at output (fun parent name => nested_extract_tree windows catalog fuel volume place parent name force) in
        fs_ret (Ok (Restored_ tree))
    end
    match task with
    | TaskList place => let* entries := fs_ret (session_list_directory (ic_session catalog) volume place) in fs_ret (Ok (print_directory entries))
    | TaskExtract place output force => extract_from fuel (ic_session catalog) place output force volume
    | TaskTree place output force =>
        to_tree output (fun parent name => session_extract_tree windows (ic_session catalog) fuel volume place parent name force)
    end.
Proof.
  intros Hname. destruct task as [place|place output force|place output force]; unfold extract_from, to_tree, tree_at.
  - apply agree_step. intros entries. by apply agree_ret.
  - eapply agree_bind; [apply agree_map|]. intros ? extraction ->. apply agree_ret. cbn [like told]. by eexists _, [].
  - cbn [named] in Hname. destruct (host_path output) as [|name parent]; [done|]. apply agree_step. intros tree. by apply agree_ret.
Qed.

(** Both sides come to the same key, or to an error. *)
Ltac settle_key Hnone :=
  match goal with |- context [Operations.encryption_requirement ?f ?r ?s] => destruct (Operations.encryption_requirement f r s) as [required|e| |]
  | |- context [Pool.encryption_requirement ?p ?f ?s] => destruct (Pool.encryption_requirement p f s) as [required|e| |] end;
  cbn [bind] in *; try (by intros h); rewrite ?fs_ret_Ok;
  match goal with |- context [load_key_for_requirement ?r ?kf] =>
    pose proof (key_like r kf ltac:(intros ->; by apply Hnone)) as Hk;
    destruct (obtain_key r (KeyFile kf)), (load_key_for_requirement r kf); cbn [like bind] in Hk |- *; try done; try (by intros h); subst;
    rewrite ?fs_ret_Ok end.

(** Work on the view itself. *)
Lemma direct_task source view_index view key_file datto task :
  get (ct_views source) view_index = Some view -> (view_requirement source view = Ok None -> key_file = None) ->
  ct_container_key_material source = None -> named (Direct task) ->
  agree (told (Direct task)) (client_work source view_index key_file datto (Direct task))
    (main fuel windows time_zone (command_of source view key_file datto (Direct task))).
Proof.
  intros Hview Hnone Hmaterial Hname. unfold command_of. unfold view_requirement in Hnone.
  destruct (ct_kind source) eqn:Hkind; destruct task as [place|place output force|place output force].
  all: cbn [client_work send_command pool_command main run_pool].
  all: unfold tree_at, to_tree, catalog_list_directory, catalog_extract, catalog_extract_tree, catalog_view, load_key_material, load_pool_key_material,
    open_pool_member, Client.open_pool_member in *.
  all: rewrite ?Hview, ?Hmaterial, ?Hkind in *; cbn [ok_or bind] in *.
  all: cbn [named] in Hname.
  3, 6: destruct (host_path output) as [|destination_name parent]; [done|].
  all: rewrite ?fs_ret_Ok.
  1-3: destruct (open_stream (ct_path source)) as [reader|e| |]; cbn [bind] in *; try (by intros h); rewrite ?fs_ret_Ok; settle_key Hnone.
  4-6: change (load_optional_secret_file (container_key_file _) 4096) with (read_secret_file (ct_container_key_file source) 4096);
    destruct (let! key := read_secret_file _ _ in open_member _ key) as [pool|e| |]; cbn [bind] in *; try (by intros h); rewrite ?fs_ret_Ok; settle_key Hnone.
  all: first [apply agree_step; intros ?; by apply agree_ret
    |eapply agree_bind; [apply agree_map|]; intros ? extraction ->; apply agree_ret; by eexists _, _].
Qed.

(** A key file where the view takes none is refused, and nothing is done. *)
Lemma key_file_refused source view_index view key_file datto work h :
  get (ct_views source) view_index = Some view -> view_requirement source view = Ok None -> is_some key_file = true ->
  ct_container_key_material source = None ->
  let run := main fuel windows time_zone (command_of source view key_file datto work) h in is_err run.1 = true /\ run.2 = h.
Proof.
  intros Hview Hnone Hfile Hmaterial. destruct key_file as [file|]; [|done]. unfold view_requirement in Hnone. unfold command_of.
  assert (load_key_for_requirement None (Some file) = Err (Msg "--key-file is only valid for an encrypted source" [])) as Hrefused by done.
  destruct (ct_kind source); apply bind_Ok in Hnone as (opened & Hopen & Hnone).
  - assert (load_key_material fuel (ct_path source) (Some (vw_selector view)) (Some file) = Err (Msg "--key-file is only valid for an encrypted source" [])) as Hkey
      by (unfold load_key_material; rewrite Hopen; cbn [bind]; by rewrite Hnone).
    destruct work as [[]|? ? ? []|]; cbn [send_command main run_inception]; unfold send_session; by rewrite Hkey.
  - unfold Client.open_pool_member in Hopen. rewrite Hmaterial in Hopen.
    assert (open_pool_member (ct_path source) {| container_key_file := ct_container_key_file source |} = Ok opened) as Hpool by exact Hopen.
    assert (load_pool_key_material fuel opened (vw_selector view) (Some file) = Err (Msg "--key-file is only valid for an encrypted source" [])) as Hkey
      by (unfold load_pool_key_material; by rewrite Hnone).
    destruct work as [[]|? ? ? []|]; cbn [pool_command main run_pool run_pool_inception]; unfold pool_session; rewrite Hpool; cbn [bind]; rewrite ?fs_ret_Ok; by rewrite Hkey.
Qed.

Lemma work_agrees source view_index view key_file datto work :
  get (ct_views source) view_index = Some view -> (view_requirement source view = Ok None -> key_file = None) ->
  (ct_kind source = SendStream -> datto = no_datto) -> ct_container_key_material source = None -> named work ->
  agree (told work) (client_work source view_index key_file datto work) (main fuel windows time_zone (command_of source view key_file datto work)).
Proof.
  intros Hview Hnone Hdatto Hmaterial Hname. destruct work as [task|image window volume task|image window]; [by apply direct_task|..].
  - pose proof (fun catalog => nested_task image window volume task catalog Hname) as Htask.
    pose proof (fun k l => session_step (told (Nested image window volume task)) source view_index view key_file datto image window k l Hview Hnone Hdatto Hmaterial) as Hs.
    unfold command_of. destruct (ct_kind source), task; apply Hs; exact Htask.
  - pose proof (session_step (told (Look image window)) source view_index view key_file datto image window
      (fun catalog => fs_ret (Ok (Looked catalog))) (fun session => fs_ret (print_inception_inspection session false)) Hview Hnone Hdatto Hmaterial) as Hs.
    unfold command_of. destruct (ct_kind source); apply Hs; intros catalog; by apply agree_ret.
Qed.

(** C32: The command line and the client library do the same. Given a view of a
    catalog, a script's command
    - to list, to extract a file or a tree, to look at a nested image, or to do the
    same inside it, of a stream or of a pool - ends as the client's operation on
    the view does, from every state of the host: with the same entries, the same
    size and digest, the same counts, or the same image, which it prints; or with
    an error where that has one; and it leaves the host in the same state. So does
    an update. A key file for a view that is not encrypted, which the client
    ignores, is refused before anything is done. *)
Theorem commands_agree source view_index view key_file datto work :
  get (ct_views source) view_index = Some view ->
  (ct_kind source = SendStream -> datto = no_datto) -> ct_container_key_material source = None -> named work ->
  let command := main fuel windows time_zone (command_of source view key_file datto work) in
  match view_requirement source view, key_file with
  | Ok None, Some _ => forall h, is_err (command h).1 = true /\ (command h).2 = h
  | _, _ => agree (told work) (client_work source view_index key_file datto work) command
  end /\
  forall stream target update_key,
    ((let! reader := open_stream stream in apply_encryption_requirement fuel reader) = Ok None -> update_key = None) ->
    agree (fun sidecar printed => printed = [updated_line sidecar])
      (apply_incremental fuel stream (host_path target) (KeyFile update_key)) (main fuel windows time_zone (ApplyUpdate stream target update_key)).
Proof.
  intros Hview Hdatto Hmaterial Hname. cbn zeta. split.
  - destruct (view_requirement source view) as [[required|]|e| |] eqn:Hr; [|destruct key_file as [file|] eqn:Hfile|..].
    2: { intros h. by eapply key_file_refused. }
    all: apply work_agrees; try done; by rewrite Hr.
  - intros stream target update_key Hupdate. unfold apply_incremental. cbn [main]. unfold load_apply_key_material.
    apply stream_step; [exact Hupdate|]. intros reader key _.
    intros h. unfold fs_bind. by destruct (apply_incremental_to _ _ _ _ h) as [[]].
Qed.
End agreement.

(** ** Byte counts *)

Definition positional (radix acc : Z) (ds : list Z) : Z := foldl (fun v d => v * radix + d) acc ds.

(** The characters of digits in this base. *)
Definition digits_read (radix : Z) (text ds : list Z) : Prop := Forall2 (fun c d => to_digit radix c = Some d) text ds.

Lemma to_digit_range radix c d : to_digit radix c = Some d -> 0 <= d < radix.
Proof.
  unfold to_digit. cbn zeta. intros Hd. repeat case_match; simplify_eq; b2p; lia.
Qed.

Lemma digits_read_range radix text ds : digits_read radix text ds -> Forall (fun d => 0 <= d) ds.
Proof. induction 1 as [|c d text ds Hd _ IH]; constructor; [|exact IH]. apply to_digit_range in Hd. lia. Qed.

Lemma positional_grows radix ds acc : 1 <= radix -> 0 <= acc -> Forall (fun d => 0 <= d) ds -> acc <= positional radix acc ds.
Proof.
  unfold positional. intros Hr. revert acc. induction ds as [|d ds IH]; intros acc Ha Hd; [done|]. inversion_clear Hd as [|? ? H0 Hds]. cbn [foldl].
  transitivity (acc * radix + d); [nia|]. apply IH; [nia|done].
Qed.

Lemma digits_value_spec radix max text acc v : 1 <= radix -> 0 <= acc <= max ->
  digits_value radix max acc text = Some v <-> exists ds, digits_read radix text ds /\ v = positional radix acc ds /\ v <= max.
Proof.
  intros Hr. unfold digits_read. revert acc. induction text as [|c text IH]; intros acc Ha; cbn [digits_value].
  - split; [intros [= <-]; exists []; split; [constructor|]; cbn; lia|]. intros (ds & Hds & -> & _). apply Forall2_nil_inv_l in Hds as ->. done.
  - destruct (to_digit radix c) as [d|] eqn:Hd.
    2: { split; [done|]. intros (ds & Hds & _). apply Forall2_cons_inv_l in Hds as (d & ds' & Hd' & _). congruence. }
    pose proof (to_digit_range _ _ _ Hd) as Hrange. cbn zeta. destruct (Z.leb_spec (acc * radix + d) max) as [Hle|Hgt].
    + rewrite IH by nia. split.
      * intros (ds & Hds & -> & Hmax). exists (d :: ds). split; [by constructor|done].
      * intros (ds & Hds & -> & Hmax). apply Forall2_cons_inv_l in Hds as (d' & ds' & Hd' & Hds & ->). rewrite Hd in Hd'. injection Hd' as <-. by exists ds'.
    + split; [done|]. intros (ds & Hds & -> & Hmax). exfalso. apply Forall2_cons_inv_l in Hds as (d' & ds' & Hd' & Hds & ->).
      rewrite Hd in Hd'. injection Hd' as <-. apply digits_read_range in Hds.
      pose proof (positional_grows radix ds' (acc * radix + d) Hr ltac:(nia) Hds) as Hg. unfold positional in Hmax, Hg. cbn [foldl] in Hmax. lia.
Qed.

Definition PLUS : Z := 43.

Lemma from_str_radix_spec radix max s v : 1 <= radix -> 0 <= max ->
  from_str_radix radix max s = Some v <->
  exists sign text ds, (sign = [] \/ sign = [PLUS]) /\ s = sign ++ text /\ text <> [] /\ digits_read radix text ds /\ v = positional radix 0 ds /\ v <= max.
Proof.
  intros Hr Hm. assert (forall text, (digits_value radix max 0 text = Some v <-> exists ds, digits_read radix text ds /\ v = positional radix 0 ds /\ v <= max)) as Hv
    by (intros text; apply digits_value_spec; lia).
  split.
  - destruct s as [|c s]; [done|]. destruct (decide (c = 43)) as [->|Hc].
    + destruct s as [|c s]; [done|]. change (from_str_radix radix max (43 :: c :: s)) with (digits_value radix max 0 (c :: s)).
      intros (ds & Hds & Hval)%Hv. exists [PLUS], (c :: s), ds. by auto 6.
    + rewrite from_str_radix_no_plus by done. intros (ds & Hds & Hval)%Hv. exists [], (c :: s), ds. by auto 6.
  - intros (sign & text & ds & [->| ->] & -> & Hne & Hds & Hval); (destruct text as [|c text]; [done|]); cbn [app].
    + assert (c <> 43) as Hc.
      { intros ->. apply Forall2_cons_inv_l in Hds as (d & ? & Hd & _). unfold to_digit in Hd. cbn in Hd. by rewrite Z.ltb_irrefl in Hd. }
      rewrite from_str_radix_no_plus by done. apply Hv. by exists ds.
    + change (from_str_radix radix max (PLUS :: c :: text)) with (digits_value radix max 0 (c :: text)). apply Hv. by exists ds.
Qed.

(** The notations of a byte count: a base and what stands before the digits. *)
Definition notation_of (radix : Z) (prefix : list Z) : Prop :=
  radix = 10 /\ prefix = [] \/ radix = 16 /\ (prefix = bytes_of_string "0x" \/ prefix = bytes_of_string "0X").

Lemma hex_prefixed_Some compact hex : hex_prefixed compact = Some hex ->
  exists prefix, (prefix = bytes_of_string "0x" \/ prefix = bytes_of_string "0X") /\ compact = prefix ++ hex.
Proof.
  unfold hex_prefixed, strip_prefix. intros Hp. destruct (bytes_eqb _ (bytes_of_string "0x")) eqn:Hx; [|destruct (bytes_eqb _ (bytes_of_string "0X")) eqn:HX; [|done]];
    injection Hp as <-.
  - apply bytes_eqb_eq in Hx. exists (bytes_of_string "0x"). split; [by left|]. rewrite <- (ztake_zdrop 2 compact) at 1. by f_equal.
  - apply bytes_eqb_eq in HX. exists (bytes_of_string "0X"). split; [by right|]. rewrite <- (ztake_zdrop 2 compact) at 1. by f_equal.
Qed.

(** Digits and prefixes are told apart. *)
Lemma prefixed_digits radix prefix prefix' hex sign text ds :
  prefix = bytes_of_string "0x" \/ prefix = bytes_of_string "0X" -> notation_of radix prefix' -> sign = [] \/ sign = [PLUS] ->
  digits_read radix text ds -> prefix ++ hex = prefix' ++ sign ++ text -> radix = 16 /\ hex = sign ++ text.
Proof.
  intros Hprefix [[-> ->]|[-> Hprefix']] Hsign Hds Heq.
  - exfalso. cbn [app] in Heq. destruct Hsign as [-> | ->]; [|by destruct Hprefix as [-> | ->]]. cbn [app] in Heq. subst text.
    destruct Hprefix as [-> | ->]; apply Forall2_cons_inv_l in Hds as (? & ? & _ & Hds & _); apply Forall2_cons_inv_l in Hds as (? & ? & Hd & _); discriminate Hd.
  - split; [done|]. destruct Hprefix as [-> | ->], Hprefix' as [-> | ->]; by injection Heq.
Qed.

(** A byte count is read as it is written. An argument is accepted as n exactly
    where, without the white space around it and without underscores, it is a
    decimal number, or a hexadecimal one behind 0x or 0X, perhaps with a plus sign
    before the digits, of the value n, which fits into 64 bits; any other argument
    is an error. *)
Theorem byte_count_exact value n :
  let compact := List.filter (fun c => negb (c =? UNDERSCORE)) (trim value) in
  (parse_byte_argument value = Ok n <->
   exists radix prefix sign text ds, notation_of radix prefix /\ (sign = [] \/ sign = [PLUS]) /\ compact = prefix ++ sign ++ text /\
     text <> [] /\ digits_read radix text ds /\ n = positional radix 0 ds /\ n <= U64_MAX) /\
  is_ok (parse_byte_argument value) || is_err (parse_byte_argument value) = true.
Proof.
  cbn zeta. unfold parse_byte_argument. set (compact := List.filter _ _). split.
  2: { destruct (is_empty compact); [done|]. by destruct (match hex_prefixed compact with Some _ => _ | None => _ end). }
  assert (compact = [] -> forall prefix sign text, compact = prefix ++ sign ++ text -> text = []) as Hempty.
  { intros -> prefix sign text Heq. symmetry in Heq. by apply app_nil in Heq as [_ [_ ?]%app_nil]. }
  destruct (is_empty compact) eqn:Hnil.
  { destruct compact; [|done]. split; [done|]. intros (radix & prefix & sign & text & ds & _ & _ & Heq & Hne & _). destruct Hne. by eapply Hempty. }
  clear Hempty Hnil. rewrite ok_or_Ok. destruct (hex_prefixed compact) as [hex|] eqn:Hhex.
  - apply hex_prefixed_Some in Hhex as (prefix & Hprefix & Heq). rewrite (from_str_radix_spec 16) by done. split.
    + intros (sign & text & ds & Hsign & -> & Hrest). exists 16, prefix, sign, text, ds. split; [by right|]. by rewrite Heq.
    + intros (radix & prefix' & sign & text & ds & Hnot & Hsign & Heq' & Hne & Hds & Hval).
      assert (radix = 16 /\ hex = sign ++ text) as [-> ->] by (apply (prefixed_digits radix prefix prefix' hex sign text ds Hprefix Hnot Hsign Hds); by rewrite <- Heq).
      exists sign, text, ds. by auto.
  - rewrite (from_str_radix_spec 10) by done. split.
    + intros (sign & text & ds & Hsign & Heq & Hrest). exists 10, [], sign, text, ds. split; [by left|]. by auto.
    + intros (radix & prefix & sign & text & ds & [[-> ->]|[-> Hprefix]] & Hsign & Heq & Hrest); [by exists sign, text, ds|].
      exfalso. rewrite Heq in Hhex. by destruct Hprefix as [-> | ->].
Qed.

(** ** A run

    A script restores hello.c of the stream that the bridge's run uses. *)

#[local] Existing Instance toy_bridge_machine.
#[local] Existing Instance toy_places.
#[local] Existing Instance bridge_faults.

#[local] Instance script_terminal : Terminal := { is_terminal := false; prompt_password _ := Err (Foreign "no terminal") }.

#[local] Instance script_text : CliText := {
  inspection_json _ := Ok []; snapshots_json _ := Ok []; pool_inspection_json _ := Ok []; pool_snapshots_json _ := Ok []; session_json _ := Ok [];
  error_display e := match e with Msg text _ => bytes_of_string text | Context text _ _ => bytes_of_string text | Foreign text => bytes_of_string text end;
  container_description _ := [];
}.

#[local] Instance utc_only : Chrono := { Tz := unit; parse_tz _ := None; has_datetime _ := false; strftime _ _ _ := [] }.

Definition script_work : Work := Direct (TaskExtract (bytes_of_string "/hello.c") (bytes_of_string "/copy") false).

Lemma commands_agree_witness :
  exists source view, open_send 12 toy_stream_path = Ok source /\ get (ct_views source) 0 = Some view /\
    (let run := main 12 false Local (command_of source view None no_datto script_work) toy_host in
     is_ok run.1 = true /\ h_store run.2 !! [bytes_of_string "copy"] = Some (NFile (bytes_of_string "hello"))) /\
    agree (told script_work) (client_work 12 false source 0 None no_datto script_work) (main 12 false Local (command_of source view None no_datto script_work)).
Proof.
  assert (match open_send 12 toy_stream_path with Ok source => match get (ct_views source) 0 with
    | Some view => let run := main 12 false Local (command_of source view None no_datto script_work) toy_host in
        is_ok run.1 && bool_decide (h_store run.2 !! [bytes_of_string "copy"] = Some (NFile (bytes_of_string "hello"))) &&
        negb (is_some (ct_container_key_material source))
    | None => false end | _ => false end = true) as Hrun by (vm_compute; reflexivity).
  destruct (open_send 12 toy_stream_path) as [source| | |] eqn:Hopen; try discriminate Hrun.
  destruct (get (ct_views source) 0) as [view|] eqn:Hview; [|discriminate Hrun]. cbv zeta in Hrun.
  apply andb_true_iff in Hrun as [[Hok Hfile%bool_decide_eq_true]%andb_true_iff Hmaterial].
  exists source, view. split; [reflexivity|]. split; [exact Hview|]. split; [split; [exact Hok|exact Hfile]|].
  destruct (commands_agree 12 false Local (eq_refl : @is_terminal script_terminal = false) source 0 view None no_datto script_work Hview) as [Hagree _].
  - intros _. reflexivity.
  - destruct (ct_container_key_material source); [discriminate Hmaterial|reflexivity].
  - exact I.
  - destruct (view_requirement 12 source view) as [[]| | |]; exact Hagree.
Defined.

(** Grouping, both bases, and a sign that the base's prefix does not rule out. *)
Example byte_counts : map parse_byte_argument (map bytes_of_string ["4096"; " 1_048_576 "; "0x1000"; "0X_ff"; "0x+10"; "18446744073709551615"]%string) =
  [Ok 4096; Ok 1048576; Ok 4096; Ok 255; Ok 16; Ok 18446744073709551615].
Proof. vm_compute. reflexivity. Qed.

Example no_byte_counts : map (fun s => is_err (parse_byte_argument (bytes_of_string s))) [""; "_"; "4 MiB"; "-1"; "0x"; "18446744073709551616"]%string =
  repeat true 6.
Proof. vm_compute. reflexivity. Qed.
