(* ===== verification/Desktop.v ===== *)
(** The Windows desktop client, src/src/bin/zfs-send-explore-windows/mod.rs, without
    its windows: what is open, the keys and what they are for, the jobs that run
    behind the window, the commands, and what a finished job does. Controls are the
    values the program reads back from them; painting, layout and the texts of
    dialogs are left out. *)

From stdpp Require Import sorting.
From S2P Require Import Prelude Bytes Utf8 Stream StreamFacts Replay Compression NvList Encrypted.
From S2P Require Import EncryptedDnode Paths Snapshots Selected ObjectIndex Resolve Sparse Operations Apply.
From S2P Require Import Lznt1 NtfsStream Image DiskImage Partitions Volumes Sources Datto HostFs Tree HostExtract.
From S2P Require Import PoolBlocks PoolSource Pool PoolFile PoolOpen Inner InnerSession Updates Client Presentation Service.
#[local] Open Scope Z_scope.
#[local] Open Scope zse_scope.

(** ** Data *)

Record SecretValue := { sk_material : list Z; sk_source : option (list Z); sk_view : option (list Z) }.

Record ImageFrame := { fr_catalog : InceptionCatalog; fr_parent_path : option (list Z); fr_parent_volume : option Z }.

Record UiSettings := {
  auto_open_images : bool; clear_credentials_on_source_change : bool; confirm_physical_drive : bool; show_advanced_image_range : bool;
  snapshot_time_zone : list Z;
}.

Definition UiSettings_default : UiSettings :=
  {| auto_open_images := true; clear_credentials_on_source_change := true; confirm_physical_drive := true; show_advanced_image_range := false;
     snapshot_time_zone := bytes_of_string "local" |}.

Inductive OpenMode := Auto | ImageMode.

Inductive PendingJob := POpen (mode : OpenMode) | PBrowse | PExtract | PExploreImage | PUpdate.

(** What a job takes along when it is spawned. *)
Inductive Job :=
| JobOpen (mode : OpenMode) (path : list Z) (container_key : option SecretValue)
| JobBrowse (inception : option InceptionCatalog) (volume : Z) (catalog : option SourceCatalog) (view : option Z) (path : list Z)
    (key : option SecretValue)
| JobExtract (is_directory : bool) (inception : option InceptionCatalog) (volume : option Z) (catalog : option SourceCatalog) (view : option Z)
    (source_path destination : list Z) (key : option SecretValue)
| JobExplore (parent_image : option InceptionCatalog) (parent_volume : option Z) (catalog : option SourceCatalog) (view : option Z)
    (image_path parent_path : list Z) (image_offset : Z) (image_length : option Z) (key agent_password : option SecretValue)
| JobUpdate (stream target : list Z) (key : option SecretValue).

Inductive JobResult :=
| Catalog (catalog : SourceCatalog)
| Directory (path : list Z) (entries : list DirectoryEntry)
| Extracted (destination : list Z) (extraction : ClientExtraction) (nested : bool)
| TreeExtracted (destination : list Z) (extraction : RecursiveExtraction)
| InceptionOpened (catalog : InceptionCatalog) (parent_path : option (list Z)) (parent_volume : option Z) (standalone : bool)
| Updated (target : list Z) (sidecar : Sidecar).

(** The next step the guidance bar suggests. *)
Inductive Guide := GuideNone | GuideUnlock | GuideOpenImage (index : Z) | GuideChooseVolume.

(** *** Controls

    A combo box: how many items it has, and the selected one. *)
Record Combo := { cb_count : Z; cb_selected : option Z }.

Definition CB_RESETCONTENT : Combo := {| cb_count := 0; cb_selected := None |}.

Definition CB_SETCURSEL (box : Combo) (index : Z) : Combo :=
  {| cb_count := cb_count box; cb_selected := if (0 <=? index) && (index <? cb_count box) then Some index else None |}.

Record Controls := {
  c_source_path : list Z; c_path : list Z; c_view : Combo; c_volume : Combo; c_list : option Z; c_image_offset : list Z; c_image_length : list Z;
  c_source_enabled : bool; c_view_enabled : bool; c_volume_enabled : bool;
}.

(** What the user answers to a dialog. *)
Inductive Answer :=
| Submitted (text : list Z)
| Secondary
| Cancelled
| Chosen (path : list Z)
| Action (index : Z).

(** What is open, and what is shown of it. *)
Record Opened := { o_catalog : option SourceCatalog; o_inception : list ImageFrame; o_entries : list DirectoryEntry; o_current_path : list Z }.

Record Secrets := { s_keys : list SecretValue; s_container_key : option SecretValue; s_agent_password : option SecretValue }.

Record AppState := {
  opened : Opened; secrets : Secrets; controls : Controls; settings : UiSettings; busy : bool; pending_job : option PendingJob;
  guide : Guide; jobs : list Job; answers : list Answer;
}.

(** *** Changes of a part *)

Definition set_opened (o : Opened) (state : AppState) : AppState :=
  {| opened := o; secrets := secrets state; controls := controls state; settings := settings state; busy := busy state;
     pending_job := pending_job state; guide := guide state; jobs := jobs state; answers := answers state |}.

Definition set_secrets (k : Secrets) (state : AppState) : AppState :=
  {| opened := opened state; secrets := k; controls := controls state; settings := settings state; busy := busy state;
     pending_job := pending_job state; guide := guide state; jobs := jobs state; answers := answers state |}.

Definition set_controls (c : Controls) (state : AppState) : AppState :=
  {| opened := opened state; secrets := secrets state; controls := c; settings := settings state; busy := busy state;
     pending_job := pending_job state; guide := guide state; jobs := jobs state; answers := answers state |}.

Definition set_settings (u : UiSettings) (state : AppState) : AppState :=
  {| opened := opened state; secrets := secrets state; controls := controls state; settings := u; busy := busy state;
     pending_job := pending_job state; guide := guide state; jobs := jobs state; answers := answers state |}.

Definition set_guide (g : Guide) (state : AppState) : AppState :=
  {| opened := opened state; secrets := secrets state; controls := controls state; settings := settings state; busy := busy state;
     pending_job := pending_job state; guide := g; jobs := jobs state; answers := answers state |}.

Definition set_work (b : bool) (pending : option PendingJob) (j : list Job) (state : AppState) : AppState :=
  {| opened := opened state; secrets := secrets state; controls := controls state; settings := settings state; busy := b;
     pending_job := pending; guide := guide state; jobs := j; answers := answers state |}.

Definition set_answers (a : list Answer) (state : AppState) : AppState :=
  {| opened := opened state; secrets := secrets state; controls := controls state; settings := settings state; busy := busy state;
     pending_job := pending_job state; guide := guide state; jobs := jobs state; answers := a |}.

Definition set_open_source (catalog : option SourceCatalog) (inception : list ImageFrame) (state : AppState) : AppState :=
  set_opened {| o_catalog := catalog; o_inception := inception; o_entries := o_entries (opened state); o_current_path := o_current_path (opened state) |} state.

Definition set_shown (entries : list DirectoryEntry) (current_path : list Z) (state : AppState) : AppState :=
  set_opened {| o_catalog := o_catalog (opened state); o_inception := o_inception (opened state); o_entries := entries; o_current_path := current_path |} state.

Definition with_controls (f : Controls -> Controls) (state : AppState) : AppState := set_controls (f (controls state)) state.

Definition set_source_box (text : list Z) : AppState -> AppState := with_controls (fun c =>
  {| c_source_path := text; c_path := c_path c; c_view := c_view c; c_volume := c_volume c; c_list := c_list c; c_image_offset := c_image_offset c;
     c_image_length := c_image_length c; c_source_enabled := c_source_enabled c; c_view_enabled := c_view_enabled c; c_volume_enabled := c_volume_enabled c |}).

Definition set_path_box (text : list Z) : AppState -> AppState := with_controls (fun c =>
  {| c_source_path := c_source_path c; c_path := text; c_view := c_view c; c_volume := c_volume c; c_list := c_list c; c_image_offset := c_image_offset c;
     c_image_length := c_image_length c; c_source_enabled := c_source_enabled c; c_view_enabled := c_view_enabled c; c_volume_enabled := c_volume_enabled c |}).

Definition set_view_box (view : Combo) : AppState -> AppState := with_controls (fun c =>
  {| c_source_path := c_source_path c; c_path := c_path c; c_view := view; c_volume := c_volume c; c_list := c_list c; c_image_offset := c_image_offset c;
     c_image_length := c_image_length c; c_source_enabled := c_source_enabled c; c_view_enabled := c_view_enabled c; c_volume_enabled := c_volume_enabled c |}).

Definition set_volume_box (volume : Combo) : AppState -> AppState := with_controls (fun c =>
  {| c_source_path := c_source_path c; c_path := c_path c; c_view := c_view c; c_volume := volume; c_list := c_list c; c_image_offset := c_image_offset c;
     c_image_length := c_image_length c; c_source_enabled := c_source_enabled c; c_view_enabled := c_view_enabled c; c_volume_enabled := c_volume_enabled c |}).

Definition set_list_item (item : option Z) : AppState -> AppState := with_controls (fun c =>
  {| c_source_path := c_source_path c; c_path := c_path c; c_view := c_view c; c_volume := c_volume c; c_list := item; c_image_offset := c_image_offset c;
     c_image_length := c_image_length c; c_source_enabled := c_source_enabled c; c_view_enabled := c_view_enabled c; c_volume_enabled := c_volume_enabled c |}).

Definition set_range (offset length : list Z) : AppState -> AppState := with_controls (fun c =>
  {| c_source_path := c_source_path c; c_path := c_path c; c_view := c_view c; c_volume := c_volume c; c_list := c_list c; c_image_offset := offset;
     c_image_length := length; c_source_enabled := c_source_enabled c; c_view_enabled := c_view_enabled c; c_volume_enabled := c_volume_enabled c |}).

Definition set_enabled (source view volume : bool) : AppState -> AppState := with_controls (fun c =>
  {| c_source_path := c_source_path c; c_path := c_path c; c_view := c_view c; c_volume := c_volume c; c_list := c_list c;
     c_image_offset := c_image_offset c; c_image_length := c_image_length c;
     c_source_enabled := source; c_view_enabled := view; c_volume_enabled := volume |}).

(** ** Names and numbers *)

(** [PathBuf]'s equality, an equivalence: paths are compared by their components. *)
Class PathEq := { same_path : list Z -> list Z -> bool }.

Class PathEqLaws `{PathEq} := {
  same_path_refl : forall p, same_path p p = true;
  same_path_sym : forall p q, same_path p q = true -> same_path q p = true;
  same_path_trans : forall p q r, same_path p q = true -> same_path q r = true -> same_path p r = true;
}.

Definition BACKSLASH : Z := 92.

Definition normalize_path (path : list Z) : list Z :=
  let path := map (fun c => if c =? BACKSLASH then SLASH else c) (trim path) in
  if starts_with [SLASH] path then path else SLASH :: path.

(** [Path::extension], of a name without directories: what stands behind the last
    dot, unless that is the first character. *)
Definition extension (entry_name : list Z) : list Z :=
  match rsplit_once DOT entry_name with
  | Some (stem, found) => if is_empty stem then [] else found
  | None => []
  end.

Definition likely_disk_image (entry_name : list Z) : bool :=
  one_of (map to_ascii_lowercase (extension entry_name))
    (map bytes_of_string ["raw"; "img"; "dd"; "qcow"; "qcow2"; "vmdk"; "datto"; "detto"; "vhd"; "vhdx"]%string).

Definition parse_byte_value (value : list Z) (empty_is_none : bool) : result (option Z) :=
  let value := trim value in
  if is_empty value then Ok (if empty_is_none then None else Some 0)
  else
    let parsed := match strip_prefix (bytes_of_string "0x") value with
      | Some hex => from_str_radix 16 U64_MAX hex
      | None =>
          match strip_prefix (bytes_of_string "0X") value with
          | Some hex => from_str_radix 16 U64_MAX hex
          | None => from_str_radix 10 U64_MAX value
          end
      end in
    let! parsed := ok_or parsed (Msg "{value:?} is not a valid byte count (decimal or 0x hexadecimal)" []) in
    fail! empty_is_none && (parsed =? 0) with Msg "image length must be greater than zero" [] in
    Ok (Some parsed).

(** [max_by_key]: the last of several as large. *)
Fixpoint last_max_index {A} (keep : A -> bool) (key : A -> Z) (i : Z) (l : list A) (best : option (Z * Z)) : option Z :=
  match l with
  | [] => snd <$> best
  | x :: l =>
      last_max_index keep key (i + 1) l
        (if keep x then match best with
           | Some (k, j) => if k <=? key x then Some (key x, i) else Some (k, j)
           | None => Some (key x, i)
           end
         else best)
  end.

(** ** What is open *)

Definition catalog_ (state : AppState) : option SourceCatalog := o_catalog (opened state).
Definition inception (state : AppState) : list ImageFrame := o_inception (opened state).
Definition entries_ (state : AppState) : list DirectoryEntry := o_entries (opened state).
Definition current_path (state : AppState) : list Z := o_current_path (opened state).

Definition source_open (state : AppState) : bool := is_some (catalog_ state) || negb (is_empty (inception state)).

Definition last_image (state : AppState) : option InceptionCatalog := fr_catalog <$> last (inception state).

Definition selected_view (state : AppState) : option Z := cb_selected (c_view (controls state)).
Definition selected_volume_index (state : AppState) : option Z := cb_selected (c_volume (controls state)).
Definition selected_index (state : AppState) : option Z := c_list (controls state).

Definition selected_source_view (state : AppState) : option SourceView :=
  source ← catalog_ state; i ← selected_view state; get (ct_views source) i.

(** The image of a frame that was opened by itself. *)
Definition standalone_path (state : AppState) : option (list Z) :=
  match inception state with
  | frame :: _ => if is_some (fr_parent_path frame) then None else Some (ic_image_path (fr_catalog frame))
  | [] => None
  end.

Definition active_source_path (state : AppState) : option (list Z) :=
  match catalog_ state with
  | Some source => Some (ct_path source)
  | None => standalone_path state
  end.

(** ** Keys and what they are for *)

Definition source_box_scope (state : AppState) : option (list Z) :=
  let path := c_source_path (controls state) in if is_empty path then None else Some path.

Definition credential_scope (state : AppState) : option (list Z) :=
  match active_source_path state with Some path => Some path | None => source_box_scope state end.

Definition credential_view (state : AppState) : option (list Z) := vw_selector <$> selected_source_view state.

Section secrets.
Context `{PathEq}.

Definition same_source (a b : option (list Z)) : bool :=
  match a, b with Some a, Some b => same_path a b | None, None => true | _, _ => false end.

Definition same_view (a b : option (list Z)) : bool := bool_decide (a = b).

(** A secret without a source is for every source. *)
Definition is_for_source (secret : SecretValue) (source : option (list Z)) : bool :=
  negb (is_some (sk_source secret)) || same_source source (sk_source secret).

Definition is_for_view (secret : SecretValue) (view : option (list Z)) : bool :=
  negb (is_some (sk_view secret)) || same_view view (sk_view secret).

Definition secret_applies_to_source (secret : SecretValue) (source : list Z) : bool := is_for_source secret (Some source).

Definition is_active_key (state : AppState) (key : SecretValue) : bool :=
  is_for_source key (credential_scope state) && is_for_view key (credential_view state).

Definition active_zfs_key (state : AppState) : option SecretValue := List.find (is_active_key state) (rev (s_keys (secrets state))).

Definition store_zfs_key (secret : SecretValue) (state : AppState) : AppState :=
  let others := List.filter (fun existing =>
    negb (same_source (sk_source existing) (sk_source secret)) || negb (same_view (sk_view existing) (sk_view secret))) (s_keys (secrets state)) in
  set_secrets {| s_keys := others ++ [secret]; s_container_key := s_container_key (secrets state); s_agent_password := s_agent_password (secrets state) |} state.

Definition remove_active_zfs_key (state : AppState) : AppState :=
  set_secrets {| s_keys := List.filter (fun key => negb (is_active_key state key)) (s_keys (secrets state));
    s_container_key := s_container_key (secrets state); s_agent_password := s_agent_password (secrets state) |} state.

Definition set_container_key (key : option SecretValue) (state : AppState) : AppState :=
  set_secrets {| s_keys := s_keys (secrets state); s_container_key := key; s_agent_password := s_agent_password (secrets state) |} state.

Definition set_agent_password (password : option SecretValue) (state : AppState) : AppState :=
  set_secrets {| s_keys := s_keys (secrets state); s_container_key := s_container_key (secrets state); s_agent_password := password |} state.

Definition clear_credentials_silent (state : AppState) : AppState :=
  set_secrets {| s_keys := []; s_container_key := None; s_agent_password := None |} state.

(** Container keys and agent passwords must name the source to stay. *)
Definition kept_for (source : list Z) (secret : option SecretValue) : option SecretValue :=
  match secret with
  | Some value => if same_source (sk_source value) (Some source) then Some value else None
  | None => None
  end.

Definition clear_credentials_for_source (source : list Z) (state : AppState) : AppState :=
  set_secrets {| s_keys := List.filter (fun value => secret_applies_to_source value source) (s_keys (secrets state));
    s_container_key := kept_for source (s_container_key (secrets state));
    s_agent_password := kept_for source (s_agent_password (secrets state)) |} state.

Definition selected_view_locked (state : AppState) : bool :=
  is_empty (inception state) && match selected_source_view state with Some view => vw_encrypted view | None => false end &&
  negb (is_some (active_zfs_key state)).

(** ** What the window shows *)

Definition largest_image (state : AppState) : option Z :=
  last_max_index (fun entry => (de_dirent_type entry =? 8) && likely_disk_image (de_name entry)) (fun entry => default 0 (de_logical_size entry)) 0
    (entries_ state) None.

Definition update_guidance (state : AppState) : AppState :=
  set_guide
    (if negb (source_open state) || busy state then GuideNone
     else if selected_view_locked state then GuideUnlock
     else match (if is_empty (inception state) then largest_image state else None) with
       | Some index => GuideOpenImage index
       | None =>
           match last (inception state) with
           | Some frame =>
               if 1 <? len (List.filter (fun volume => is_some (vi_filesystem volume)) (ic_volumes (fr_catalog frame))) then GuideChooseVolume else GuideNone
           | None => GuideNone
           end
       end) state.

Definition update_mode (state : AppState) : AppState := update_guidance state.

Definition set_source_enabled (enabled : bool) (state : AppState) : AppState :=
  set_enabled enabled (enabled && is_some (catalog_ state) && is_empty (inception state)) (enabled && negb (is_empty (inception state))) state.

Definition set_busy (b : bool) (state : AppState) : AppState :=
  let state := set_work b (pending_job state) (jobs state) state in
  set_source_enabled (negb b && source_open state) state.

(** The rows are deleted and inserted again: nothing is selected. *)
Definition populate_list (state : AppState) : AppState := set_list_item None state.

Definition clear_directory_ui (state : AppState) : AppState := set_path_box [SLASH] (set_shown [] [SLASH] (populate_list state)).

Definition close_source_ui (state : AppState) : AppState :=
  let state := set_path_box [SLASH] (set_shown [] [SLASH] (populate_list state)) in
  update_mode (set_source_enabled false state).

Definition populate_volumes (image : InceptionCatalog) (preferred : option Z) (state : AppState) : AppState :=
  let box := {| cb_count := len (ic_volumes image); cb_selected := None |} in
  let selected := match preferred with Some i => Some i | None => recommended_volume (ic_volumes image) end in
  set_volume_box (match selected with Some i => CB_SETCURSEL box i | None => box end) state.

Definition leave_all_images (clear_list : bool) (state : AppState) : AppState :=
  let state := set_range [] [] (set_volume_box CB_RESETCONTENT (set_open_source (catalog_ state) [] state)) in
  if clear_list then populate_list (set_shown [] (current_path state) state) else state.

(** ** Opening another source *)

Definition source_is_changing (state : AppState) (path : list Z) : bool :=
  match catalog_ state with Some source => negb (same_path (ct_path source) path) | None => false end ||
  match standalone_path state with Some image_path => negb (bytes_eqb image_path (from_utf8_lossy path)) | None => false end.

Definition activate_source (source : list Z) (state : AppState) : AppState :=
  let state :=
    if source_is_changing state source then
      let state := if clear_credentials_on_source_change (settings state) then clear_credentials_for_source source state else state in
      set_volume_box CB_RESETCONTENT (set_view_box CB_RESETCONTENT (clear_directory_ui (set_open_source None [] state)))
    else state in
  set_source_box (from_utf8_lossy source) state.

Definition close_source (state : AppState) : AppState :=
  if negb (source_open state) then state
  else
    let state := if clear_credentials_on_source_change (settings state) then clear_credentials_silent state else state in
    let state := set_open_source None [] state in
    close_source_ui (set_source_box [] (set_volume_box CB_RESETCONTENT (set_view_box CB_RESETCONTENT state))).

(** ** Dialogs *)

Definition ask (state : AppState) : Answer * AppState :=
  match answers state with
  | answer :: rest => (answer, set_answers rest state)
  | [] => (Cancelled, state)
  end.

Context `{LocalFiles}.

(** The file that is chosen, unless it is too large or cannot be read. *)
Definition choose_secret_file (maximum_size : Z) (trim_newline : bool) (state : AppState) : option (list Z) * AppState :=
  let '(answer, state) := ask state in
  match answer with
  | Chosen path =>
      match local_file path with
      | Ok material => (if maximum_size <? len material then None else Some (if trim_newline then strip_newline material else material), state)
      | _ => (None, state)
      end
  | _ => (None, state)
  end.

(** A secret that was typed or chosen is kept in its place. *)
Definition choose_and_keep (maximum_size : Z) (trim_newline : bool) (keep : list Z -> AppState -> AppState) (state : AppState) : bool * AppState :=
  let '(material, state) := choose_secret_file maximum_size trim_newline state in
  match material with Some material => (true, keep material state) | None => (false, state) end.

Definition prompt_and_keep (keep : list Z -> AppState -> AppState) (choose : AppState -> bool * AppState) (state : AppState) : bool * AppState :=
  let '(answer, state) := ask state in
  match answer with
  | Submitted text => (true, keep text state)
  | Secondary => choose state
  | _ => (false, state)
  end.

Definition keep_zfs_key (material : list Z) (state : AppState) : AppState :=
  store_zfs_key {| sk_material := material; sk_source := credential_scope state; sk_view := credential_view state |} state.

Definition keep_container_key (material : list Z) (state : AppState) : AppState :=
  set_container_key (Some {| sk_material := material; sk_source := source_box_scope state; sk_view := None |}) state.

Definition keep_agent_password (material : list Z) (state : AppState) : AppState :=
  set_agent_password (Some {| sk_material := material; sk_source := credential_scope state; sk_view := None |}) state.

Definition choose_key_file : AppState -> bool * AppState := choose_and_keep 514 false keep_zfs_key.
Definition choose_container_key_file : AppState -> bool * AppState := choose_and_keep 4096 true keep_container_key.
Definition choose_agent_password_file : AppState -> bool * AppState := choose_and_keep 4096 true keep_agent_password.

(** The dialogs of the Keys menu have no second button. *)
Definition enter_key : AppState -> bool * AppState := prompt_and_keep keep_zfs_key (fun state => (false, state)).
Definition enter_container_key : AppState -> bool * AppState := prompt_and_keep keep_container_key (fun state => (false, state)).
Definition enter_agent_password : AppState -> bool * AppState := prompt_and_keep keep_agent_password (fun state => (false, state)).

Definition request_zfs_key : AppState -> bool * AppState := prompt_and_keep keep_zfs_key choose_key_file.
Definition request_container_key : AppState -> bool * AppState := prompt_and_keep keep_container_key choose_container_key_file.
Definition request_agent_password : AppState -> bool * AppState := prompt_and_keep keep_agent_password choose_agent_password_file.

Definition ensure_selected_view_key (state : AppState) : bool * AppState :=
  match catalog_ state with
  | None => (true, state)
  | Some source =>
      match selected_view state with
      | None => (false, state)
      | Some index =>
          if negb (match get (ct_views source) index with Some view => vw_encrypted view | None => false end) then (true, state)
          else if is_some (active_zfs_key state) then (true, state)
          else request_zfs_key state
      end
  end.

(** ** Jobs *)

(** A job starts: the window is busy until it ends. *)
Definition spawn_job (pending : PendingJob) (job : Job) (state : AppState) : AppState :=
  let state := set_busy true state in
  set_work (busy state) (Some pending) (jobs state ++ [job]) state.

Definition browse (path : list Z) (state : AppState) : AppState :=
  match last_image state, selected_volume_index state with
  | Some _, None => state
  | image, index =>
      let volume := match image with Some _ => default 0 index | None => 0 end in
      if negb (is_some image) && (negb (is_some (catalog_ state)) || negb (is_some (selected_view state))) then state
      else spawn_job PBrowse (JobBrowse image volume (catalog_ state) (selected_view state) path (active_zfs_key state)) state
  end.

(** [if path.as_os_str().is_empty()]: a file is chosen first. *)
Fixpoint open_source (fuel : nat) (mode : OpenMode) (state : AppState) : AppState :=
  let path := c_source_path (controls state) in
  if is_empty path then
    match fuel with
    | O => state
    | S fuel =>
        let '(answer, state) := ask state in
        match answer with
        | Chosen path => open_source fuel mode (set_source_box (from_utf8_lossy path) state)
        | _ => state
        end
    end
  else
    let container_key := match s_container_key (secrets state) with
      | Some value => if secret_applies_to_source value path then Some value else None
      | None => None
      end in
    spawn_job (POpen mode) (JobOpen mode path container_key) state.

Definition open_now (mode : OpenMode) (state : AppState) : AppState := open_source (length (answers state)) mode state.

Definition choose_source (mode : OpenMode) (state : AppState) : AppState :=
  let '(answer, state) := ask state in
  match answer with
  | Chosen path => open_now mode (set_source_box (from_utf8_lossy path) state)
  | _ => state
  end.

Definition QUOTE : Z := 34.

Definition open_path_dialog (state : AppState) : AppState :=
  let '(answer, state) := ask state in
  match answer with
  | Submitted text =>
      let path := trim_end_matches QUOTE (rev (trim_end_matches QUOTE (rev (trim text)))) in
      let '(confirmed, state) :=
        if starts_with [BACKSLASH; BACKSLASH; DOT; BACKSLASH] path && confirm_physical_drive (settings state) then
          let '(answer, state) := ask state in (match answer with Action 0 => true | _ => false end, state)
        else (true, state) in
      if confirmed then open_now Auto (set_source_box path state) else state
  | Secondary => choose_source Auto state
  | _ => state
  end.

Record PhysicalDrive := { pd_path : list Z; pd_system : bool }.

(** The drives are listed again until one is opened or the dialog is closed. *)
Fixpoint open_physical_drive (fuel : nat) (drives : list PhysicalDrive) (state : AppState) : AppState :=
  match fuel with
  | O => state
  | S fuel =>
      let '(answer, state) := ask state in
      match answer with
      | Action index =>
          match get drives index with
          | Some drive =>
              let '(confirmed, state) :=
                if pd_system drive then let '(answer, state) := ask state in (match answer with Action 0 => true | _ => false end, state)
                else (true, state) in
              if confirmed then open_now Auto (set_source_box (from_utf8_lossy (pd_path drive)) state)
              else open_physical_drive fuel drives state
          | None => open_physical_drive fuel drives state
          end
      | _ => state
      end
  end.

Definition extract_selected (state : AppState) : AppState :=
  match index ← selected_index state; get (entries_ state) index with
  | None => state
  | Some entry =>
      if negb ((de_dirent_type entry =? 4) || (de_dirent_type entry =? 8)) then state
      else
        let '(answer, state) := ask state in
        match answer, child_path (current_path state) (de_name entry) with
        | Chosen destination, Ok source_path =>
            spawn_job PExtract (JobExtract (de_dirent_type entry =? 4) (last_image state) (selected_volume_index state) (catalog_ state)
              (selected_view state) source_path destination (active_zfs_key state)) state
        | _, _ => state
        end
  end.

Definition is_detto_path (image_path : list Z) : bool := ends_with (bytes_of_string ".detto") (map to_ascii_lowercase image_path).

(** The job, with the agent's password where the image needs one. *)
Definition explore_job (image_path : list Z) (image_offset : Z) (image_length : option Z) (state : AppState) (key : option SecretValue) : Job :=
  JobExplore (last_image state) (selected_volume_index state) (catalog_ state) (selected_view state) image_path (current_path state)
    image_offset image_length key (if is_detto_path image_path then s_agent_password (secrets state) else None).

Definition explore_selected_image (state : AppState) : AppState :=
  if 8 <=? len (inception state) then state
  else
    match index ← selected_index state; get (entries_ state) index with
    | None => state
    | Some entry =>
        if negb (de_dirent_type entry =? 8) then state
        else
          match child_path (current_path state) (de_name entry), parse_byte_value (c_image_offset (controls state)) false,
            parse_byte_value (c_image_length (controls state)) true with
          | Ok image_path, Ok image_offset, Ok image_length =>
              let key := active_zfs_key state in
              let state := if is_detto_path image_path && negb (is_some (s_agent_password (secrets state)))
                then (request_agent_password state).2 else state in
              if is_detto_path image_path && negb (is_some (s_agent_password (secrets state))) then state
              else spawn_job PExploreImage (explore_job image_path (default 0 image_offset) image_length state key) state
          | _, _, _ => state
          end
    end.

Definition leave_inception (browse_outer : bool) (state : AppState) : AppState :=
  match last (inception state) with
  | None => state
  | Some frame =>
      let state := set_open_source (catalog_ state) (removelast (inception state)) state in
      let state := set_range [] [] (set_volume_box CB_RESETCONTENT state) in
      let destination := default [SLASH] (fr_parent_path frame) in
      let state := match last_image state with
        | Some image => populate_volumes image (fr_parent_volume frame) state
        | None => state
        end in
      let state := set_source_enabled (negb (busy state) && source_open state) state in
      if browse_outer then if negb (source_open state) then close_source_ui state else browse destination state else state
  end.

(** An update takes the active key, or the last one that was entered. *)
Definition update_extracted_file (state : AppState) : AppState :=
  let '(answer, state) := ask state in
  match answer with
  | Chosen target =>
      let '(answer, state) := ask state in
      match answer with
      | Chosen stream =>
          let key := match active_zfs_key state with Some key => Some key | None => last (s_keys (secrets state)) end in
          spawn_job PUpdate (JobUpdate stream target key) state
      | _ => state
      end
  | _ => state
  end.

Definition refresh (state : AppState) : AppState := if source_open state then browse (current_path state) state else state.

Definition open_selected (state : AppState) : AppState :=
  match index ← selected_index state; get (entries_ state) index with
  | None => state
  | Some entry =>
      if de_dirent_type entry =? 4 then
        match child_path (current_path state) (de_name entry) with Ok path => browse path state | _ => state end
      else if (de_dirent_type entry =? 8) && auto_open_images (settings state) && likely_disk_image (de_name entry) then explore_selected_image state
      else if de_dirent_type entry =? 8 then extract_selected state
      else state
  end.

(** ** Keys on demand *)

Definition refresh_after_zfs_key (state : AppState) : AppState :=
  update_guidance (if is_some (catalog_ state) && is_empty (inception state) then browse (current_path state) state else state).

Definition show_contextual_credentials (state : AppState) : AppState :=
  if match selected_source_view state with Some view => vw_encrypted view | None => false end then
    let '(supplied, state) := request_zfs_key state in
    if supplied : bool then refresh_after_zfs_key state else state
  else
    match index ← selected_index state; get (entries_ state) index with
    | Some entry => if is_detto_path (de_name entry) then (request_agent_password state).2 else state
    | None => state
    end.

Definition run_guide_action (state : AppState) : AppState :=
  match guide state with
  | GuideUnlock => show_contextual_credentials state
  | GuideOpenImage index => explore_selected_image (set_list_item (if (0 <=? index) && (index <? len (entries_ state)) then Some index else selected_index state) state)
  | GuideChooseVolume | GuideNone => state
  end.

Definition clear_credentials (state : AppState) : AppState :=
  let was_open := source_open state in
  let '(confirmed, state) :=
    if was_open then let '(answer, state) := ask state in (match answer with Action 0 => true | _ => false end, state) else (true, state) in
  if confirmed : bool then
    let state := clear_credentials_silent state in
    if was_open then close_source_ui (set_volume_box CB_RESETCONTENT (set_view_box CB_RESETCONTENT (set_open_source None [] state))) else state
  else state.

(** ** When a job has ended *)

Definition retry_pending_job (pending : option PendingJob) (state : AppState) : AppState :=
  match pending with
  | Some (POpen mode) => open_now mode state
  | Some PBrowse => browse (current_path state) state
  | Some PExtract => extract_selected state
  | Some PExploreImage => explore_selected_image state
  | Some PUpdate => update_extracted_file state
  | None => state
  end.

Definition is_open_job (pending : option PendingJob) : bool := match pending with Some (POpen _) => true | _ => false end.

Definition is_explore_job (pending : option PendingJob) : bool := match pending with Some PExploreImage => true | _ => false end.

Definition restore_source_box_after_failed_open (pending : option PendingJob) (state : AppState) : AppState :=
  match active_source_path state with
  | Some path => if is_open_job pending then set_source_box (from_utf8_lossy path) state else state
  | None => state
  end.

Definition show_advanced_range (state : AppState) : AppState :=
  set_settings {| auto_open_images := auto_open_images (settings state);
    clear_credentials_on_source_change := clear_credentials_on_source_change (settings state);
    confirm_physical_drive := confirm_physical_drive (settings state); show_advanced_image_range := true; snapshot_time_zone := snapshot_time_zone (settings state) |} state.

Definition handle_unsupported_image (pending : option PendingJob) (state : AppState) : AppState :=
  let nested := is_explore_job pending in
  let '(answer, state) := ask state in
  match answer with
  | Action 0 => if nested then extract_selected state else choose_source ImageMode state
  | Action 1 => show_advanced_range state
  | _ => state
  end.

Definition needs_container_key (lower : list Z) : bool :=
  mentions ["luks-encrypted"; "unlocking luks container"; "datto pool passphrase"]%string lower.

Definition needs_zfs_key (lower : list Z) : bool :=
  mentions ["enter or choose its"; "uses native zfs dataset encryption; provide"; "supplied key did not authenticate"; "raw zfs key must";
    "hex zfs key must"; "requires a dataset key"]%string lower.

Definition needs_agent_password (lower : list Z) : bool :=
  mentions ["agent password"; "encrypted datto .detto"]%string lower ||
  (mentions ["unlocking"]%string lower && mentions ["encryptionkeystash"]%string lower).

Definition access_denied (lower : list Z) : bool := mentions ["access is denied"; "permission denied"; "os error 5"]%string lower.

(** The dialog that offers to choose another backup. *)
Definition offer_another (pending : option PendingJob) (state : AppState) : AppState :=
  let '(answer, state) := ask state in
  match answer with
  | Action 0 => choose_source Auto state
  | _ => restore_source_box_after_failed_open pending state
  end.

Definition handle_job_error (error : list Z) (pending : option PendingJob) (state : AppState) : AppState :=
  let lower := map to_ascii_lowercase error in
  if needs_container_key lower then
    let '(supplied, state) := request_container_key (set_container_key None state) in
    if supplied : bool then retry_pending_job pending state else restore_source_box_after_failed_open pending state
  else if needs_zfs_key lower then
    let '(supplied, state) := request_zfs_key (clear_directory_ui (remove_active_zfs_key state)) in
    if supplied : bool then retry_pending_job pending state else update_guidance state
  else if needs_agent_password lower then
    let '(supplied, state) := request_agent_password (set_agent_password None state) in
    if supplied : bool then retry_pending_job pending state else state
  else if is_explore_job pending then handle_unsupported_image pending state
  else if access_denied lower then offer_another pending state
  else if is_open_job pending && mentions ["source was not recognized"]%string lower then offer_another pending state
  else restore_source_box_after_failed_open pending state.

Definition finish_catalog (source : SourceCatalog) (state : AppState) : AppState :=
  let state := set_volume_box CB_RESETCONTENT (activate_source (ct_path source) state) in
  let box := {| cb_count := len (ct_views source); cb_selected := None |} in
  let state := set_view_box (CB_SETCURSEL box (default 0 (recommended_view (ct_views source)))) state in
  let state := update_mode (set_source_enabled true (set_open_source (Some source) (inception state) state)) in
  let '(unlocked, state) := ensure_selected_view_key state in
  update_guidance (if unlocked : bool then browse [SLASH] state else clear_directory_ui state).

Definition finish_image (image : InceptionCatalog) (parent_path : option (list Z)) (parent_volume : option Z) (standalone : bool) (pending : option PendingJob)
    (state : AppState) : AppState :=
  match recommended_volume (ic_volumes image) with
  | None => handle_unsupported_image pending state
  | Some selected =>
      let state := if standalone
        then set_view_box CB_RESETCONTENT (clear_directory_ui (set_open_source None [] (activate_source (ic_image_path image) state))) else state in
      let state := set_range [] [] (populate_volumes image (Some selected) state) in
      let frame := {| fr_catalog := image; fr_parent_path := parent_path; fr_parent_volume := parent_volume |} in
      let state := set_open_source (catalog_ state) (inception state ++ [frame]) state in
      browse [SLASH] (update_mode (set_source_enabled true (set_shown (entries_ state) [SLASH] state)))
  end.

Context `{InnerCrates}.

(** Directories first, then by name. *)
Definition entry_order (a b : DirectoryEntry) : Prop :=
  (if Bool.eqb (de_dirent_type a =? 4) (de_dirent_type b =? 4) then bytes_leb (to_lowercase (de_name a)) (to_lowercase (de_name b))
   else de_dirent_type a =? 4) = true.
#[global] Instance entry_order_dec : RelDecision entry_order.
Proof. intros a b. unfold entry_order. apply _. Defined.

Definition finish_directory (path : list Z) (found : list DirectoryEntry) (state : AppState) : AppState :=
  update_guidance (populate_list (set_shown (merge_sort entry_order found) path (set_path_box path state))).

(** The result of a job, or the text of its error. *)
Definition JobMessage : Type := JobResult + list Z.

Definition finish_job (message : JobMessage) (state : AppState) : AppState :=
  let pending := pending_job state in
  let state := set_busy false (set_work (busy state) None (tail (jobs state)) state) in
  match message with
  | inr error => handle_job_error error pending state
  | inl (Catalog source) => finish_catalog source state
  | inl (Directory path found) => finish_directory path found state
  | inl (InceptionOpened image parent_path parent_volume standalone) => finish_image image parent_path parent_volume standalone pending state
  | inl (Extracted _ _ _) | inl (TreeExtracted _ _) => (ask state).2
  | inl (Updated _ _) => state
  end.

(** ** Commands and events *)

Inductive SettingId := ID_SETTING_AUTO_IMAGES | ID_SETTING_CLEAR_CREDENTIALS | ID_SETTING_CONFIRM_DRIVE | ID_SETTING_ADVANCED_IMAGE_RANGE.

Definition toggle_setting (id : SettingId) (state : AppState) : AppState :=
  let u := settings state in
  set_settings match id with
    | ID_SETTING_AUTO_IMAGES =>
        {| auto_open_images := negb (auto_open_images u); clear_credentials_on_source_change := clear_credentials_on_source_change u;
           confirm_physical_drive := confirm_physical_drive u; show_advanced_image_range := show_advanced_image_range u;
           snapshot_time_zone := snapshot_time_zone u |}
    | ID_SETTING_CLEAR_CREDENTIALS =>
        {| auto_open_images := auto_open_images u; clear_credentials_on_source_change := negb (clear_credentials_on_source_change u);
           confirm_physical_drive := confirm_physical_drive u; show_advanced_image_range := show_advanced_image_range u;
           snapshot_time_zone := snapshot_time_zone u |}
    | ID_SETTING_CONFIRM_DRIVE =>
        {| auto_open_images := auto_open_images u; clear_credentials_on_source_change := clear_credentials_on_source_change u;
           confirm_physical_drive := negb (confirm_physical_drive u); show_advanced_image_range := show_advanced_image_range u;
           snapshot_time_zone := snapshot_time_zone u |}
    | ID_SETTING_ADVANCED_IMAGE_RANGE =>
        {| auto_open_images := auto_open_images u; clear_credentials_on_source_change := clear_credentials_on_source_change u;
           confirm_physical_drive := confirm_physical_drive u; show_advanced_image_range := negb (show_advanced_image_range u);
           snapshot_time_zone := snapshot_time_zone u |}
    end state.

(** The names of the time zones that the crate [chrono_tz] knows. *)
Class TimeZones := { TZ_VARIANTS : list (list Z) }.
Context `{TimeZones}.

Definition name_order (a b : list Z) : Prop := bytes_leb a b = true.
#[global] Instance name_order_dec : RelDecision name_order.
Proof. intros a b. unfold name_order. apply _. Defined.

Definition time_zone_choices : list (list Z) :=
  [bytes_of_string "local"; bytes_of_string "UTC"] ++
  merge_sort name_order (List.filter (fun name => negb (bytes_eqb name (bytes_of_string "UTC"))) TZ_VARIANTS).

(** The rows of the box of views are written again, in the time zone of the settings,
    and the selected one is selected again. *)
Definition update_snapshot_labels (state : AppState) : AppState :=
  match catalog_ state with
  | None => state
  | Some source =>
      let selected := selected_view state in
      let box := {| cb_count := len (ct_views source); cb_selected := None |} in
      set_view_box (match selected with Some index => CB_SETCURSEL box index | None => box end) state
  end.

Definition set_time_zone (index : Z) (state : AppState) : AppState :=
  match get time_zone_choices index with
  | Some zone =>
      let u := settings state in
      update_snapshot_labels (set_settings
        {| auto_open_images := auto_open_images u; clear_credentials_on_source_change := clear_credentials_on_source_change u;
           confirm_physical_drive := confirm_physical_drive u; show_advanced_image_range := show_advanced_image_range u; snapshot_time_zone := zone |} state)
  | None => state
  end.

Inductive CommandId :=
| ID_OPEN_BACKUP | ID_OPEN_DRIVE | ID_OPEN_PATH | ID_OPEN_AUTO | ID_OPEN_IMAGE | ID_CLOSE_SOURCE | ID_VIEW | ID_VOLUME | ID_GO
| ENTER_IN_PATH | ENTER_IN_LIST | ID_UP | ID_REFRESH | ID_UNLOCK | ID_GUIDE_ACTION | ID_ENTER_KEY | ID_CHOOSE_KEY | ID_ENTER_CONTAINER_KEY
| ID_CONTAINER_KEY | ID_ENTER_AGENT_PASSWORD | ID_AGENT_PASSWORD | ID_CLEAR_CREDENTIALS | ID_RESTORE | ID_INCEPTION | ID_OPEN_SELECTED
| ID_LEAVE_IMAGE | ID_UPDATE | ID_SETTING (setting : SettingId) | ID_TIME_ZONE (index : Z).

Definition view_changed (state : AppState) : AppState :=
  let '(unlocked, state) := ensure_selected_view_key (clear_directory_ui (leave_all_images false state)) in
  update_guidance (if unlocked : bool then browse [SLASH] state else state).

(** A key from the menu, and the listing that follows. *)
Definition key_from_menu (supply : AppState -> bool * AppState) (state : AppState) : AppState :=
  let '(supplied, state) := supply state in
  if supplied : bool then refresh_after_zfs_key state else state.

Variable drives : list PhysicalDrive.

Definition handle_command (id : CommandId) (state : AppState) : AppState :=
  if busy state then state
  else
    match id with
    | ID_OPEN_BACKUP => choose_source Auto state
    | ID_OPEN_DRIVE => open_physical_drive (S (length (answers state))) drives state
    | ID_OPEN_PATH => open_path_dialog state
    | ID_OPEN_AUTO => open_now Auto state
    | ID_OPEN_IMAGE => choose_source ImageMode state
    | ID_CLOSE_SOURCE => close_source state
    | ID_VIEW => view_changed state
    | ID_VOLUME => browse [SLASH] state
    | ID_GO | ENTER_IN_PATH => browse (normalize_path (c_path (controls state))) state
    | ENTER_IN_LIST | ID_OPEN_SELECTED => open_selected state
    | ID_UP => browse (parent_path (current_path state)) state
    | ID_REFRESH => refresh state
    | ID_UNLOCK => show_contextual_credentials state
    | ID_GUIDE_ACTION => run_guide_action state
    | ID_ENTER_KEY => key_from_menu enter_key state
    | ID_CHOOSE_KEY => key_from_menu choose_key_file state
    | ID_ENTER_CONTAINER_KEY => (enter_container_key state).2
    | ID_CONTAINER_KEY => (choose_container_key_file state).2
    | ID_ENTER_AGENT_PASSWORD => (enter_agent_password state).2
    | ID_AGENT_PASSWORD => (choose_agent_password_file state).2
    | ID_CLEAR_CREDENTIALS => clear_credentials state
    | ID_RESTORE => extract_selected state
    | ID_INCEPTION => explore_selected_image state
    | ID_LEAVE_IMAGE => leave_inception true state
    | ID_UPDATE => update_extracted_file state
    | ID_SETTING setting => toggle_setting setting state
    | ID_TIME_ZONE index => set_time_zone index state
    end.

(** What the user does with the controls themselves, where they are enabled, and the
    list's own messages, which are not held back while a job runs; nor is the message
    that the clock or the system's settings have changed. *)
Inductive Input :=
| InputView (index : Z)
| InputVolume (index : Z)
| InputItem (item : option Z)
| InputPath (text : list Z)
| InputRange (offset length : list Z)
| DoubleClick
| KeyReturn
| KeyBack
| TimeChange.

Definition handle_input (input : Input) (state : AppState) : AppState :=
  let c := controls state in
  match input with
  | InputView index => if c_view_enabled c then handle_command ID_VIEW (set_view_box (CB_SETCURSEL (c_view c) index) state) else state
  | InputVolume index => if c_volume_enabled c then handle_command ID_VOLUME (set_volume_box (CB_SETCURSEL (c_volume c) index) state) else state
  | InputItem item =>
      if c_source_enabled c then
        set_list_item (match item with Some i => if (0 <=? i) && (i <? len (entries_ state)) then Some i else None | None => None end) state
      else state
  | InputPath text => if c_source_enabled c then set_path_box text state else state
  | InputRange offset length => if c_source_enabled c then set_range offset length state else state
  | DoubleClick | KeyReturn => if c_source_enabled c then open_selected state else state
  | KeyBack => if c_source_enabled c then browse (parent_path (current_path state)) state else state
  | TimeChange => update_snapshot_labels state
  end.

(** ** What a job does

    On a machine of files and devices, and on the host's file system. *)
Section running.
Context `{ZfsDisk} `{ZfsLabels} `{Codecs} `{Crypto} `{Crc32} `{PoolCore} `{DiskCrates} `{DattoCrates}.
Context {R : Type} `{Read R} {D : Type} `{Device D} `{DeviceInfo D} `{Luks D} `{!ClientHost R D}.
Context `{SidecarJson} `{Os} `{Digest} `{Faults} `{TempNames} `{HostPaths}.
Variable fuel : nat.

Definition path_extension (path : list Z) : list Z :=
  extension (default [] (file_name (map (fun c => if c =? BACKSLASH then SLASH else c) path))).

Definition open_image (path : list Z) : result JobResult :=
  let! image := open_file host_platform host_paths host_authorized path 0 None in
  Ok (InceptionOpened image None None true).

Definition open_as_send (path : list Z) : result JobResult := let! source := open_send fuel path in Ok (Catalog source).

Definition open_as_pool (path : list Z) (container_key : option (list Z)) : result JobResult :=
  let! source := open_pool_with_container_key fuel path container_key None in Ok (Catalog source).

(** [match attempt { Ok(r) => return Ok(r), Err(error) => errors.push(..) }] *)
Fixpoint first_of (attempts : list (result JobResult)) : result JobResult :=
  match attempts with
  | [] => Err (Msg "The source was not recognized as a supported send stream, pool member, or disk image." [])
  | attempt :: rest => catch attempt Ok (fun _ => first_of rest)
  end.

Definition open_automatically (path : list Z) (container_key : option (list Z)) : result JobResult :=
  let suffix := map to_ascii_lowercase (path_extension path) in
  let send_first := one_of suffix (map bytes_of_string ["zfs"; "zstream"; "send"]%string) in
  let image_first := one_of suffix (map bytes_of_string ["qcow"; "qcow2"; "vmdk"; "dd"]%string) in
  first_of ((if image_first then [open_image path] else []) ++ (if send_first then [open_as_send path] else []) ++
    [open_as_pool path container_key] ++ (if send_first then [] else [open_as_send path]) ++ (if image_first then [] else [open_image path])).

Definition bytes_of (secret : option SecretValue) : KeySource := KeyMaterial (sk_material <$> secret).

Definition inner_volume (image : InceptionCatalog) (volume : option Z) : result (list Z) :=
  let! index := ok_or volume (Msg "no inner volume selected" []) in
  let! found := ok_or (get (ic_volumes image) index) (Msg "selected inner volume no longer exists" []) in
  Ok (vi_selector found).

(** The selected view of the open source. *)
Definition outer_view (catalog : option SourceCatalog) (view : option Z) : result (SourceCatalog * Z) :=
  let! source := ok_or catalog (Msg "no ZFS source is open" []) in
  let! index := ok_or view (Msg "no source view is selected" []) in
  Ok (source, index).

Definition run_browse (image : option InceptionCatalog) (volume : Z) (catalog : option SourceCatalog) (view : option Z) (path : list Z)
    (key : option SecretValue) : result JobResult :=
  let! found := match image with
    | Some image => let! selector := inner_volume image (Some volume) in nested_list_directory image (Some selector) path
    | None => let! (source, index) := outer_view catalog view in catalog_list_directory fuel source index path (bytes_of key)
    end in
  Ok (Directory path found).

Definition run_explore (parent_image : option InceptionCatalog) (parent_volume : option Z) (catalog : option SourceCatalog) (view : option Z)
    (image_path parent_path : list Z) (image_offset : Z) (image_length : option Z) (key agent_password : option SecretValue) : result JobResult :=
  let! child := match parent_image with
    | Some image => let! selector := inner_volume image parent_volume in nested_child image (Some selector) image_path image_offset image_length
    | None =>
        let! (source, index) := outer_view catalog view in
        inspect_inception_with_key_material fuel source index image_path (sk_material <$> key) (sk_material <$> agent_password) None
          image_offset image_length
    end in
  Ok (InceptionOpened child (Some parent_path) parent_volume false).

Definition run_extract (is_directory : bool) (image : option InceptionCatalog) (volume : option Z) (catalog : option SourceCatalog) (view : option Z)
    (source_path destination : list Z) (key : option SecretValue) : fs_m JobResult :=
  let place := host_path destination in
  if is_directory then
    match place with
    | destination_name :: parent =>
        let* extraction := match image with
          | Some image =>
              let* selector := fs_ret (inner_volume image volume) in
              nested_extract_tree true image fuel (Some selector) source_path parent destination_name true
          | None =>
              let* (source, index) := fs_ret (outer_view catalog view) in
              catalog_extract_tree fuel source true index source_path parent destination_name true (bytes_of key)
          end in
        fs_ret (Ok (TreeExtracted destination extraction))
    | [] => fs_ret (Err (Msg "recursive destination has no directory name" []))
    end
  else
    let* extraction := match image with
      | Some image =>
          let* selector := fs_ret (inner_volume image volume) in
          nested_extract image fuel (Some selector) source_path place true
      | None =>
          let* (source, index) := fs_ret (outer_view catalog view) in
          catalog_extract fuel source index source_path place true (bytes_of key)
      end in
    fs_ret (Ok (Extracted destination extraction (is_some image))).

Definition run_job (job : Job) : fs_m JobResult :=
  match job with
  | JobOpen ImageMode path _ => fs_ret (open_image path)
  | JobOpen Auto path container_key => fs_ret (open_automatically path (sk_material <$> container_key))
  | JobBrowse image volume catalog view path key => fs_ret (run_browse image volume catalog view path key)
  | JobExtract is_directory image volume catalog view source_path destination key =>
      run_extract is_directory image volume catalog view source_path destination key
  | JobExplore image volume catalog view image_path parent_path offset length key agent_password =>
      fs_ret (run_explore image volume catalog view image_path parent_path offset length key agent_password)
  | JobUpdate stream target key =>
      let* sidecar := apply_incremental fuel stream (host_path target) (bytes_of key) in fs_ret (Ok (Updated target sidecar))
  end.
End running.
End secrets.

(** The window as it comes up: with the saved settings, and with the path that the
    program was started with. *)
Definition Controls_default (argument : list Z) : Controls := {|
  c_source_path := argument; c_path := [SLASH]; c_view := CB_RESETCONTENT; c_volume := CB_RESETCONTENT; c_list := None; c_image_offset := [];
  c_image_length := []; c_source_enabled := false; c_view_enabled := false; c_volume_enabled := false |}.

Definition AppState_default (loaded : UiSettings) (argument : list Z) : AppState := {|
  opened := {| o_catalog := None; o_inception := []; o_entries := []; o_current_path := [SLASH] |};
  secrets := {| s_keys := []; s_container_key := None; s_agent_password := None |};
  controls := Controls_default argument; settings := loaded; busy := false; pending_job := None; guide := GuideNone; jobs := []; answers := [] |}.
