(* ===== verification/DesktopProps.v ===== *)
(** Properties of the Windows desktop client: what holds of every state it can
    reach, and which keys a job takes along. *)

From stdpp Require Import sorting.
From S2P Require Import Prelude Bytes Utf8 Stream StreamFacts StreamProps Replay Compression CompressionProps NvList Encrypted EncryptedDnode.
From S2P Require Import EncryptedProps Paths Snapshots Selected ObjectIndex FilesystemProps Resolve ResolveProps Sparse SparseFacts Operations.
From S2P Require Import OperationsProps Apply Lznt1 NtfsStream Image ImageProps DiskImage Partitions Volumes PartitionProps Sources SourceProps Datto.
From S2P Require Import DattoProps HostFs Tree HostExtract TreeProps PoolBlocks PoolSource Pool PoolFile PoolOpen PoolTreeFacts.
From S2P Require Import PoolProps Inner InnerSession InnerProps Updates UpdateProps Client ClientProps Presentation PresentationProps Service ServiceProps Desktop.
#[local] Open Scope Z_scope.
#[local] Open Scope zse_scope.

Section desktop.
Context `{PathEq} `{LocalFiles} `{InnerCrates} `{TimeZones}.
Variable drives : list PhysicalDrive.

(** ** The shape of a window *)

(** The box of views has a row per view of the open source, and the box of volumes
    one per volume of the innermost image - or none, which with an image open only
    happens under an open source; and a selection is one of the rows. *)
Definition in_box (box : Combo) : Prop := forall i, cb_selected box = Some i -> 0 <= i < cb_count box.

Record shape_ok (o : Opened) (c : Controls) : Prop := {
  sh_images : len (o_inception o) <= 8;
  sh_view : cb_count (c_view c) = match o_catalog o with Some source => len (ct_views source) | None => 0 end;
  sh_view_in : in_box (c_view c);
  sh_volume : match last (o_inception o) with
    | Some frame => cb_count (c_volume c) = len (ic_volumes (fr_catalog frame)) \/ cb_count (c_volume c) = 0 /\ is_some (o_catalog o) = true
    | None => cb_count (c_volume c) = 0
    end;
  sh_volume_in : in_box (c_volume c);
  sh_item : forall i, c_list c = Some i -> 0 <= i < len (o_entries o);
}.

Definition pending_of (job : Job) : PendingJob :=
  match job with
  | JobOpen mode _ _ => POpen mode
  | JobBrowse _ _ _ _ _ _ => PBrowse
  | JobExtract _ _ _ _ _ _ _ _ => PExtract
  | JobExplore _ _ _ _ _ _ _ _ _ _ => PExploreImage
  | JobUpdate _ _ _ => PUpdate
  end.

(** A key that was entered for the open source and the selected view. *)
Definition fits (state : AppState) (key : option SecretValue) : Prop := forall k, key = Some k -> is_active_key state k = true.

(** A job reads what is open, at what is selected, with keys that fit. *)
Definition current (job : Job) (state : AppState) : Prop :=
  match job with
  | JobOpen _ path key => forall k, key = Some k -> secret_applies_to_source k path = true
  | JobBrowse image volume catalog view _ key =>
      image = last_image state /\ catalog = catalog_ state /\ view = selected_view state /\ fits state key /\
      (is_some image = true -> selected_volume_index state = Some volume)
  | JobExtract _ image volume catalog view _ _ key =>
      image = last_image state /\ catalog = catalog_ state /\ view = selected_view state /\ fits state key /\ volume = selected_volume_index state
  | JobExplore image volume catalog view _ parent_path _ _ key _ =>
      image = last_image state /\ catalog = catalog_ state /\ view = selected_view state /\ fits state key /\ volume = selected_volume_index state /\
      parent_path = current_path state /\ len (inception state) < 8
  | JobUpdate _ _ _ => True
  end.

Definition idle (state : AppState) : Prop :=
  busy state = false /\ pending_job state = None /\ jobs state = [] /\ shape_ok (opened state) (controls state).

(** One job runs, and meanwhile nothing it was started from can change. *)
Definition working (state : AppState) : Prop := exists job,
  busy state = true /\ pending_job state = Some (pending_of job) /\ jobs state = [job] /\ shape_ok (opened state) (controls state) /\ current job state /\
  c_source_enabled (controls state) = false /\ c_view_enabled (controls state) = false /\ c_volume_enabled (controls state) = false.

Definition window_ok (state : AppState) : Prop := idle state \/ working state.

(** ** What leaves the window as it is *)

(** The same but for keys, guidance, settings and the user's further answers. *)
Definition aside (s s' : AppState) : Prop :=
  opened s' = opened s /\ controls s' = controls s /\ busy s' = busy s /\ pending_job s' = pending_job s /\ jobs s' = jobs s.

Lemma aside_refl s : aside s s.
Proof. done. Qed.

Lemma aside_trans s1 s2 s3 : aside s1 s2 -> aside s2 s3 -> aside s1 s3.
Proof. unfold aside. intuition congruence. Qed.

Lemma aside_idle s s' : aside s s' -> idle s -> idle s'.
Proof. unfold aside, idle. intros (-> & -> & -> & -> & ->). done. Qed.

Lemma ask_aside s : aside s (ask s).2.
Proof. unfold ask. by destruct (answers s). Qed.

Lemma ask_idle s answer s' : ask s = (answer, s') -> idle s -> idle s'.
Proof. intros Ha. apply aside_idle. pose proof (ask_aside s) as Hs. by rewrite Ha in Hs. Qed.

Lemma choose_aside maximum trim keep s : (forall material s, aside s (keep material s)) -> aside s (choose_and_keep maximum trim keep s).2.
Proof.
  intros Hk. unfold choose_and_keep, choose_secret_file. pose proof (ask_aside s) as Ha. destruct (ask s) as [answer s1]. cbn [snd] in Ha.
  repeat case_match; simplify_eq/=; try exact Ha; (eapply aside_trans; [exact Ha|]); first [apply Hk|apply aside_refl].
Qed.

Lemma prompt_aside keep choose s : (forall material s, aside s (keep material s)) -> (forall s, aside s (choose s).2) -> aside s (prompt_and_keep keep choose s).2.
Proof.
  intros Hk Hc. unfold prompt_and_keep. pose proof (ask_aside s) as Ha. destruct (ask s) as [answer s1]. cbn [snd] in Ha.
  destruct answer; cbn [snd]; try done; (eapply aside_trans; [exact Ha|]); [apply Hk|apply Hc].
Qed.

Lemma zfs_key_aside material s : aside s (keep_zfs_key material s).
Proof. done. Qed.
Lemma container_key_aside material s : aside s (keep_container_key material s).
Proof. done. Qed.
Lemma agent_password_aside material s : aside s (keep_agent_password material s).
Proof. done. Qed.

Lemma request_zfs_key_aside s : aside s (request_zfs_key s).2.
Proof. apply prompt_aside; [apply zfs_key_aside|]. intros s'. apply choose_aside, zfs_key_aside. Qed.

Lemma request_container_key_aside s : aside s (request_container_key s).2.
Proof. apply prompt_aside; [apply container_key_aside|]. intros s'. apply choose_aside, container_key_aside. Qed.

Lemma request_agent_password_aside s : aside s (request_agent_password s).2.
Proof. apply prompt_aside; [apply agent_password_aside|]. intros s'. apply choose_aside, agent_password_aside. Qed.

Lemma guidance_aside s : aside s (update_guidance s).
Proof. done. Qed.

Lemma ensure_aside s : aside s (ensure_selected_view_key s).2.
Proof. unfold ensure_selected_view_key. repeat case_match; cbn [snd]; first [apply aside_refl|apply request_zfs_key_aside]. Qed.

(** A key fits as long as what is open and selected stays. *)
Lemma aside_fits s s' k : aside s s' -> is_active_key s' k = is_active_key s k.
Proof.
  intros (Ho & Hc & _). unfold is_active_key, credential_scope, credential_view, active_source_path, source_box_scope, selected_source_view,
    standalone_path, catalog_, inception, selected_view. by rewrite Ho, Hc.
Qed.

Lemma active_fits s : fits s (active_zfs_key s).
Proof. intros k Hk. by apply find_some in Hk as [_ ?]. Qed.

(** ** Jobs start *)

Lemma spawn_ok job s : idle s -> current job s -> window_ok (spawn_job (pending_of job) job s).
Proof.
  intros (Hb & Hp & Hj & Hs) Hc. right. exists job. unfold spawn_job, set_busy. cbn. rewrite Hj. split; [done|]. split; [done|]. split; [done|].
  split; [by destruct Hs|]. split; [|done]. by destruct job.
Qed.

Lemma browse_ok path s : idle s -> window_ok (browse path s).
Proof.
  intros Hs. unfold browse.
  assert (forall volume, (is_some (last_image s) = true -> selected_volume_index s = Some volume) ->
    window_ok (spawn_job PBrowse (JobBrowse (last_image s) volume (catalog_ s) (selected_view s) path (active_zfs_key s)) s)) as Hspawn.
  { intros volume Hv. apply (spawn_ok (JobBrowse _ _ _ _ _ _)); [done|]. cbn [current]. split; [done|]. split; [done|]. split; [done|]. split; [apply active_fits|done]. }
  destruct (last_image s) as [image|] eqn:Hi; [destruct (selected_volume_index s) as [v|] eqn:Hv|]; cbn [is_some negb andb].
  - apply Hspawn. done.
  - by left.
  - destruct (negb _ || negb _); [by left|]. by apply Hspawn.
Qed.

Lemma set_source_box_idle text s : idle s -> idle (set_source_box text s).
Proof. intros (? & ? & ? & []). by split. Qed.

Lemma open_source_ok fuel mode s : idle s -> window_ok (open_source fuel mode s).
Proof.
  revert s. induction fuel as [|fuel IH]; intros s Hs; cbn [open_source].
  all: destruct (is_empty (c_source_path (controls s))) eqn:He.
  - by left.
  - apply (spawn_ok (JobOpen _ _ _)); [done|]. cbn [current]. intros k. repeat case_match; by intros [= <-].
  - destruct (ask s) as [answer s1] eqn:Ha. pose proof (ask_idle _ _ _ Ha Hs) as Hs1. destruct answer; try (by left). apply IH. by apply set_source_box_idle.
  - apply (spawn_ok (JobOpen _ _ _)); [done|]. cbn [current]. intros k. repeat case_match; by intros [= <-].
Qed.

Lemma open_now_ok mode text s : idle s -> window_ok (open_now mode (set_source_box text s)).
Proof. intros Hs. apply open_source_ok. by apply set_source_box_idle. Qed.

Lemma choose_source_ok mode s : idle s -> window_ok (choose_source mode s).
Proof.
  intros Hs. unfold choose_source. destruct (ask s) as [answer s1] eqn:Ha. pose proof (ask_idle _ _ _ Ha Hs) as Hs1.
  destruct answer; try (by left). by apply open_now_ok.
Qed.

(** A question to be confirmed. *)
Lemma confirm_idle (b : bool) s confirmed s' :
  (if b then let '(answer, s) := ask s in (match answer with Action 0 => true | _ => false end, s) else (true, s)) = (confirmed, s') -> idle s -> idle s'.
Proof.
  intros Hc Hs. destruct b; [|by injection Hc as <- <-]. destruct (ask s) as [answer s1] eqn:Ha. injection Hc as <- <-. by eapply ask_idle.
Qed.

Lemma open_path_ok s : idle s -> window_ok (open_path_dialog s).
Proof.
  intros Hs. unfold open_path_dialog. destruct (ask s) as [answer s1] eqn:Ha. pose proof (ask_idle _ _ _ Ha Hs) as Hs1.
  destruct answer; try (by left); [|by apply choose_source_ok]. cbv zeta.
  destruct (if _ && confirm_physical_drive _ then _ else _) as [confirmed s2] eqn:Hc.
  pose proof (confirm_idle _ _ _ _ Hc Hs1) as Hs2. destruct confirmed; [by apply open_now_ok|by left].
Qed.

Lemma open_drive_ok fuel s : idle s -> window_ok (open_physical_drive fuel drives s).
Proof.
  revert s. induction fuel as [|fuel IH]; intros s Hs; cbn [open_physical_drive]; [by left|].
  destruct (ask s) as [answer s1] eqn:Ha. pose proof (ask_idle _ _ _ Ha Hs) as Hs1. destruct answer as [| | | |index]; try (by left).
  destruct (get drives index) as [drive|]; [|by apply IH].
  destruct (if pd_system drive then _ else _) as [confirmed s2] eqn:Hc. pose proof (confirm_idle _ _ _ _ Hc Hs1) as Hs2.
  destruct confirmed; [by apply open_now_ok|by apply IH].
Qed.

Lemma extract_ok s : idle s -> window_ok (extract_selected s).
Proof.
  intros Hs. unfold extract_selected. destruct (index ← selected_index s; get (entries_ s) index) as [entry|]; [|by left].
  destruct (negb _); [by left|]. destruct (ask s) as [answer s1] eqn:Ha. pose proof (ask_idle _ _ _ Ha Hs) as Hs1.
  destruct answer; try (by left). destruct (child_path _ _); try (by left).
  apply (spawn_ok (JobExtract _ _ _ _ _ _ _ _)); [done|]. cbn [current]. split; [done|]. split; [done|]. split; [done|]. split; [apply active_fits|done].
Qed.

Lemma explore_ok s : idle s -> window_ok (explore_selected_image s).
Proof.
  intros Hs. unfold explore_selected_image. destruct (Z.leb_spec 8 (len (inception s))) as [|Hlen]; [by left|].
  destruct (index ← selected_index s; get (entries_ s) index) as [entry|]; [|by left]. destruct (negb (_ =? 8)); [by left|].
  destruct (child_path _ _) as [image_path| | |]; try (by left). destruct (parse_byte_value _ false) as [offset| | |]; try (by left).
  destruct (parse_byte_value _ true) as [length_| | |]; try (by left). cbv zeta.
  set (s1 := if is_detto_path image_path && _ then (request_agent_password s).2 else s).
  assert (aside s s1) as Haside by (subst s1; destruct (_ && _); [apply request_agent_password_aside|apply aside_refl]).
  pose proof (aside_idle _ _ Haside Hs) as Hs1. clearbody s1.
  destruct (is_detto_path image_path && _); [by left|].
  apply (spawn_ok (explore_job _ _ _ _ _)); [done|]. unfold explore_job. cbn [current].
  split; [done|]. split; [done|]. split; [done|]. split.
  - intros k Hk. rewrite (aside_fits _ _ _ Haside). by apply active_fits.
  - split; [done|]. split; [done|]. unfold inception in *. by destruct Haside as (-> & _).
Qed.

Lemma update_ok s : idle s -> window_ok (update_extracted_file s).
Proof.
  intros Hs. unfold update_extracted_file. destruct (ask s) as [answer s1] eqn:Ha. pose proof (ask_idle _ _ _ Ha Hs) as Hs1.
  destruct answer; try (by left). destruct (ask s1) as [answer s2] eqn:Ha2. pose proof (ask_idle _ _ _ Ha2 Hs1) as Hs2.
  destruct answer; try (by left). by apply (spawn_ok (JobUpdate _ _ _)).
Qed.

(** A state that was changed by the side. *)
Lemma aside_ok s s' : aside s s' -> idle s -> window_ok s'.
Proof. intros Ha Hs. left. by eapply aside_idle. Qed.

Lemma guidance_ok s : window_ok s -> window_ok (update_guidance s).
Proof.
  intros [Hs|(job & Hb & Hp & Hj & Hs & Hc & He)]; [by left|]. right. exists job.
  split; [done|]. split; [done|]. split; [done|]. split; [done|]. split; [|done]. destruct job; exact Hc.
Qed.

Lemma request_idle (f : AppState -> bool * AppState) s supplied s' : (forall s, aside s (f s).2) -> f s = (supplied, s') -> idle s -> idle s'.
Proof. intros Hf Heq. apply aside_idle. pose proof (Hf s) as Hs. by rewrite Heq in Hs. Qed.

(** ** What is open changes *)

Lemma in_empty : in_box CB_RESETCONTENT.
Proof. done. Qed.

Lemma in_setcursel box i : in_box (CB_SETCURSEL box i).
Proof. intros j. unfold CB_SETCURSEL. cbn. destruct (Z.leb_spec 0 i), (Z.ltb_spec i (cb_count box)); cbn; intros [= <-]; lia. Qed.

Lemma clear_directory_idle s : idle s -> idle (clear_directory_ui s).
Proof. intros (Hb & Hp & Hj & []). split; [done|]. split; [done|]. split; [done|]. by split. Qed.

(** Nothing is open. *)
Definition closed (s : AppState) : AppState := set_volume_box CB_RESETCONTENT (set_view_box CB_RESETCONTENT (set_open_source None [] s)).

Lemma closed_idle s : idle s -> idle (closed s).
Proof. intros (Hb & Hp & Hj & []). split; [done|]. split; [done|]. split; [done|]. by split. Qed.

Lemma close_ui_idle s : idle s -> idle (close_source_ui s).
Proof. intros (Hb & Hp & Hj & []). split; [done|]. split; [done|]. split; [done|]. by split. Qed.

Lemma close_source_idle s : idle s -> idle (close_source s).
Proof.
  intros Hs. unfold close_source. destruct (negb (source_open s)); [done|].
  assert (idle (if clear_credentials_on_source_change (settings s) then clear_credentials_silent s else s)) as Hs1 by (destruct (clear_credentials_on_source_change _); exact Hs).
  revert Hs1. generalize (if clear_credentials_on_source_change (settings s) then clear_credentials_silent s else s). intros s1 Hs1.
  apply close_ui_idle, set_source_box_idle, (closed_idle s1 Hs1).
Qed.

Lemma clear_credentials_idle s : idle s -> idle (clear_credentials s).
Proof.
  intros Hs. unfold clear_credentials. cbv zeta. destruct (if source_open s then _ else _) as [confirmed s1] eqn:Hc.
  pose proof (confirm_idle _ _ _ _ Hc Hs) as Hs1. destruct confirmed; [|done]. destruct (source_open s); [|exact Hs1].
  apply close_ui_idle, (closed_idle (clear_credentials_silent s1)). exact Hs1.
Qed.

Lemma activate_idle source s : idle s -> idle (activate_source source s).
Proof.
  intros Hs. unfold activate_source. apply set_source_box_idle. destruct (source_is_changing s source); [|done].
  assert (idle (if clear_credentials_on_source_change (settings s) then clear_credentials_for_source source s else s)) as Hs1 by (destruct (clear_credentials_on_source_change _); exact Hs).
  revert Hs1. generalize (if clear_credentials_on_source_change (settings s) then clear_credentials_for_source source s else s). intros s1 Hs1.
  pose proof (clear_directory_idle _ (closed_idle _ Hs1)) as (Hb & Hp & Hj & []). split; [done|]. split; [done|]. split; [done|]. by split.
Qed.

Lemma removelast_len {A} (l : list A) : len (removelast l) <= len l.
Proof. induction l as [|x [|y l] IH]; cbn [removelast]; rewrite ?len_cons in *; unfold len in *; cbn in *; lia. Qed.

(** A state whose only fault may be its box of volumes. *)
Definition idle_but_volumes (s : AppState) : Prop := exists box, idle (set_volume_box box s).

Lemma idle_but s : idle s -> idle_but_volumes s.
Proof. intros (Hb & Hp & Hj & []). exists (c_volume (controls s)). split; [done|]. split; [done|]. split; [done|]. by split. Qed.

Lemma populate_idle image preferred s : idle_but_volumes s -> last_image s = Some image -> idle (populate_volumes image preferred s).
Proof.
  intros (box & Hb & Hp & Hj & []) Hi. split; [done|]. split; [done|]. split; [done|].
  apply fmap_Some in Hi as (frame & Hf & ->). unfold inception in Hf.
  split; cbn; try done; rewrite ?Hf; destruct preferred as [i|]; try (destruct (recommended_volume _) as [i|]); cbn; try (by apply in_setcursel); try done; by left.
Qed.

Lemma leave_ok outer s : idle s -> window_ok (leave_inception outer s).
Proof.
  intros Hs. unfold leave_inception. destruct (last (inception s)) as [frame|]; [|by left]. cbv zeta.
  set (s1 := set_range [] [] _). pose proof (removelast_len (inception s)) as Hl.
  set (s2 := match last_image s1 with Some image => _ | None => s1 end).
  assert (idle s2) as Hs2.
  { subst s2. destruct (last_image s1) as [image|] eqn:Hi.
    - apply populate_idle; [|done]. destruct Hs as (Hb & Hp & Hj & []). unfold last_image, inception in *. cbn in Hi.
      destruct (last (removelast _)) as [outer_frame|] eqn:Ho; [|done].
      exists {| cb_count := len (ic_volumes (fr_catalog outer_frame)); cb_selected := None |}.
      split; [done|]. split; [done|]. split; [done|]. split; cbn; try done; [lia|]. rewrite Ho. by left.
    - destruct Hs as (Hb & Hp & Hj & []). unfold last_image, inception in *. cbn in Hi.
      split; [done|]. split; [done|]. split; [done|]. split; cbn; try done; [lia|]. by destruct (last (removelast _)). }
  clearbody s2 s1. set (s3 := set_source_enabled _ s2).
  assert (idle s3) as Hs3. { destruct Hs2 as (Hb & Hp & Hj & []). split; [done|]. split; [done|]. split; [done|]. by split. }
  clearbody s3. destruct outer; [|by left]. destruct (negb (source_open s3)); [left; by apply close_ui_idle|by apply browse_ok].
Qed.

Lemma leave_all_idle s : idle s -> idle (leave_all_images false s).
Proof. intros (Hb & Hp & Hj & []). split; [done|]. split; [done|]. split; [done|]. by split. Qed.

(** ** Keys on demand *)

Lemma refresh_ok s : idle s -> window_ok (refresh s).
Proof. intros Hs. unfold refresh. destruct (source_open s); [by apply browse_ok|by left]. Qed.

Lemma refresh_key_ok s : idle s -> window_ok (refresh_after_zfs_key s).
Proof. intros Hs. unfold refresh_after_zfs_key. apply guidance_ok. destruct (_ && _); [by apply browse_ok|by left]. Qed.

Lemma contextual_ok s : idle s -> window_ok (show_contextual_credentials s).
Proof.
  intros Hs. unfold show_contextual_credentials. destruct (match selected_source_view s with Some view => vw_encrypted view | None => false end).
  - destruct (request_zfs_key s) as [supplied s1] eqn:Hr. pose proof (request_idle _ _ _ _ request_zfs_key_aside Hr Hs) as Hs1.
    destruct supplied; [by apply refresh_key_ok|by left].
  - repeat case_match; try (by left). eapply aside_ok; [apply request_agent_password_aside|done].
Qed.

Lemma menu_key_ok (supply : AppState -> bool * AppState) s : (forall s, aside s (supply s).2) -> idle s -> window_ok (key_from_menu supply s).
Proof.
  intros Hf Hs. unfold key_from_menu. destruct (supply s) as [supplied s1] eqn:Hr. pose proof (request_idle _ _ _ _ Hf Hr Hs) as Hs1.
  destruct supplied; [by apply refresh_key_ok|by left].
Qed.

Lemma view_changed_ok s : idle s -> window_ok (view_changed s).
Proof.
  intros Hs. unfold view_changed. pose proof (clear_directory_idle _ (leave_all_idle _ Hs)) as Hs0.
  destruct (ensure_selected_view_key _) as [unlocked s1] eqn:He. pose proof (request_idle _ _ _ _ ensure_aside He Hs0) as Hs1.
  apply guidance_ok. destruct unlocked; [by apply browse_ok|by left].
Qed.

Lemma list_item_idle item s : (forall i, item = Some i -> 0 <= i < len (entries_ s)) -> idle s -> idle (set_list_item item s).
Proof. intros Hi (Hb & Hp & Hj & []). split; [done|]. split; [done|]. split; [done|]. by split. Qed.

Lemma guide_action_ok s : idle s -> window_ok (run_guide_action s).
Proof.
  intros Hs. unfold run_guide_action. destruct (guide s) as [| |index|]; try (by left); [by apply contextual_ok|]. apply explore_ok, list_item_idle; [|done].
  destruct (Z.leb_spec 0 index), (Z.ltb_spec index (len (entries_ s))); cbn [andb]; try (intros i [= <-]; lia); by destruct Hs as (_ & _ & _ & []).
Qed.

Lemma open_selected_ok s : idle s -> window_ok (open_selected s).
Proof.
  intros Hs. unfold open_selected. destruct (index ← selected_index s; get (entries_ s) index) as [entry|]; [|by left].
  destruct (de_dirent_type entry =? 4). { destruct (child_path _ _); try (by left). by apply browse_ok. }
  destruct (_ && likely_disk_image _); [by apply explore_ok|]. destruct (_ =? 8); [by apply extract_ok|by left].
Qed.

(** ** Commands *)

(** Writing the rows of the box of views again leaves the window as it was. *)
Lemma labels_same s : shape_ok (opened s) (controls s) -> update_snapshot_labels s = s.
Proof.
  intros []. unfold update_snapshot_labels, selected_view, catalog_. destruct (o_catalog (opened s)) as [source|]; [|done].
  destruct s as [o k [p1 p2 [count sel] v l i1 i2 e1 e2 e3] u b pj g j a]. cbn in *. subst count. destruct sel as [i|]; [|done].
  destruct (sh_view_in0 i eq_refl) as [Hlo Hhi]. cbn in Hhi. unfold CB_SETCURSEL. cbn.
  by rewrite (proj2 (Z.leb_le 0 i)), (proj2 (Z.ltb_lt i _)) by lia.
Qed.

Lemma window_shape s : window_ok s -> shape_ok (opened s) (controls s).
Proof. by intros [(_ & _ & _ & Hs)|(job & _ & _ & _ & Hs & _)]. Qed.

Lemma time_zone_idle index s : idle s -> idle (set_time_zone index s).
Proof.
  intros Hs. unfold set_time_zone. destruct (get _ _); [|done]. rewrite labels_same; [exact Hs|]. by destruct Hs as (_ & _ & _ & ?).
Qed.

Lemma command_ok id s : window_ok s -> window_ok (handle_command drives id s).
Proof.
  intros [Hs|Hw]; [|destruct Hw as (job & Hb & Hrest); unfold handle_command; rewrite Hb; right; by exists job].
  unfold handle_command. pose proof Hs as (Hb & _). rewrite Hb. destruct id.
  - by apply choose_source_ok.
  - by apply open_drive_ok.
  - by apply open_path_ok.
  - by apply open_source_ok.
  - by apply choose_source_ok.
  - left. by apply close_source_idle.
  - by apply view_changed_ok.
  - by apply browse_ok.
  - by apply browse_ok.
  - by apply browse_ok.
  - by apply open_selected_ok.
  - by apply browse_ok.
  - by apply refresh_ok.
  - by apply contextual_ok.
  - by apply guide_action_ok.
  - apply menu_key_ok; [|done]. intros s'. apply prompt_aside; [apply zfs_key_aside|apply aside_refl].
  - apply menu_key_ok; [|done]. intros s'. apply choose_aside, zfs_key_aside.
  - eapply aside_ok; [|exact Hs]. apply prompt_aside; [apply container_key_aside|apply aside_refl].
  - eapply aside_ok; [|exact Hs]. apply choose_aside, container_key_aside.
  - eapply aside_ok; [|exact Hs]. apply prompt_aside; [apply agent_password_aside|apply aside_refl].
  - eapply aside_ok; [|exact Hs]. apply choose_aside, agent_password_aside.
  - left. by apply clear_credentials_idle.
  - by apply extract_ok.
  - by apply explore_ok.
  - by apply open_selected_ok.
  - by apply leave_ok.
  - by apply update_ok.
  - by left.
  - left. by apply time_zone_idle.
Qed.

Lemma view_box_idle i s : idle s -> idle (set_view_box (CB_SETCURSEL (c_view (controls s)) i) s).
Proof. intros (Hb & Hp & Hj & []). split; [done|]. split; [done|]. split; [done|]. split; cbn; try done. apply in_setcursel. Qed.

Lemma volume_box_idle i s : idle s -> idle (set_volume_box (CB_SETCURSEL (c_volume (controls s)) i) s).
Proof. intros (Hb & Hp & Hj & []). split; [done|]. split; [done|]. split; [done|]. split; cbn; try done. apply in_setcursel. Qed.

(** Input needs an enabled control, and while a job runs none is. *)
Lemma input_ok input s : window_ok s -> window_ok (handle_input drives input s).
Proof.
  intros Hok. pose proof (window_shape s Hok) as Hshape. destruct Hok as [Hs|Hw].
  - destruct input; cbn [handle_input]; [..|by rewrite labels_same by done; left]; match goal with |- context [if ?b then _ else _] => destruct b; [|by left] end.
    + apply command_ok. left. by apply view_box_idle.
    + apply command_ok. left. by apply volume_box_idle.
    + left. apply list_item_idle; [|done]. intros i. destruct item as [j|]; [|done].
      destruct (Z.leb_spec 0 j), (Z.ltb_spec j (len (entries_ s))); cbn [andb]; intros [= <-]; lia.
    + left. destruct Hs as (Hb & Hp & Hj & []). split; [done|]. split; [done|]. split; [done|]. by split.
    + left. destruct Hs as (Hb & Hp & Hj & []). split; [done|]. split; [done|]. split; [done|]. by split.
    + by apply open_selected_ok.
    + by apply open_selected_ok.
    + by apply browse_ok.
  - assert (handle_input drives input s = s) as ->; [|by right].
    destruct Hw as (job & _ & _ & _ & _ & _ & Hc1 & Hc2 & Hc3). destruct input; cbn [handle_input]; first [by rewrite ?Hc1, ?Hc2, ?Hc3|by apply labels_same].
Qed.

(** ** The end of a job *)

Lemma retry_ok pending s : idle s -> window_ok (retry_pending_job pending s).
Proof.
  intros Hs. destruct pending as [[]|]; cbn [retry_pending_job].
  - by apply open_source_ok.
  - by apply browse_ok.
  - by apply extract_ok.
  - by apply explore_ok.
  - by apply update_ok.
  - by left.
Qed.

Lemma restore_box_idle pending s : idle s -> idle (restore_source_box_after_failed_open pending s).
Proof. intros Hs. unfold restore_source_box_after_failed_open. repeat case_match; try done. by apply set_source_box_idle. Qed.

Lemma unsupported_ok pending s : idle s -> window_ok (handle_unsupported_image pending s).
Proof.
  intros Hs. unfold handle_unsupported_image. destruct (ask s) as [answer s1] eqn:Ha. pose proof (ask_idle _ _ _ Ha Hs) as Hs1.
  repeat case_match; try (by left); first [by apply extract_ok|by apply choose_source_ok].
Qed.

Lemma offer_ok pending s : idle s -> window_ok (offer_another pending s).
Proof.
  intros Hs. unfold offer_another. destruct (ask s) as [answer s1] eqn:Ha. pose proof (ask_idle _ _ _ Ha Hs) as Hs1.
  repeat case_match; first [by apply choose_source_ok|left; by apply restore_box_idle].
Qed.

Lemma error_ok error pending s : idle s -> window_ok (handle_job_error error pending s).
Proof.
  intros Hs. unfold handle_job_error. cbv zeta. destruct (needs_container_key _).
  { destruct (request_container_key _) as [supplied s1] eqn:Hr. pose proof (request_idle _ _ _ _ request_container_key_aside Hr Hs) as Hs1.
    destruct supplied; [by apply retry_ok|left; by apply restore_box_idle]. }
  destruct (needs_zfs_key _).
  { destruct (request_zfs_key _) as [supplied s1] eqn:Hr.
    assert (idle s1) as Hs1 by (eapply request_idle; [exact request_zfs_key_aside|exact Hr|]; by apply clear_directory_idle).
    destruct supplied; [by apply retry_ok|]. apply guidance_ok. by left. }
  destruct (needs_agent_password _).
  { destruct (request_agent_password _) as [supplied s1] eqn:Hr. pose proof (request_idle _ _ _ _ request_agent_password_aside Hr Hs) as Hs1.
    destruct supplied; [by apply retry_ok|by left]. }
  destruct (is_explore_job pending); [by apply unsupported_ok|]. destruct (access_denied _); [by apply offer_ok|].
  destruct (_ && _); [by apply offer_ok|]. left. by apply restore_box_idle.
Qed.

Lemma directory_idle path found s : idle s -> idle (finish_directory path found s).
Proof. intros (Hb & Hp & Hj & []). split; [done|]. split; [done|]. split; [done|]. by split. Qed.

Lemma catalog_ok source s : idle s -> window_ok (finish_catalog source s).
Proof.
  intros Hs. unfold finish_catalog. cbv zeta. pose proof (activate_idle (ct_path source) _ Hs) as Hs1.
  set (s1 := activate_source _ _) in *. clearbody s1.
  set (s2 := update_mode _). assert (idle s2) as Hs2.
  { destruct Hs1 as (Hb & Hp & Hj & []). split; [done|]. split; [done|]. split; [done|]. split; cbn; try done; [apply in_setcursel|].
    unfold inception. destruct (last _); [by right|done]. }
  clearbody s2. destruct (ensure_selected_view_key s2) as [unlocked s3] eqn:He. pose proof (request_idle _ _ _ _ ensure_aside He Hs2) as Hs3.
  apply guidance_ok. destruct unlocked; [by apply browse_ok|left; by apply clear_directory_idle].
Qed.

Lemma image_ok image parent_path parent_volume (standalone : bool) pending s :
  (standalone = false -> len (inception s) < 8) -> idle s -> window_ok (finish_image image parent_path parent_volume standalone pending s).
Proof.
  intros Hlen Hs. unfold finish_image. destruct (recommended_volume (ic_volumes image)) as [selected|]; [|by apply unsupported_ok]. cbv zeta.
  set (s1 := if standalone then _ else s).
  assert (idle_but_volumes s1 /\ len (inception s1) < 8) as [Hs1 Hlen1].
  { subst s1. destruct standalone; [|split; [by apply idle_but|by apply Hlen]]. split; [|done]. exists CB_RESETCONTENT.
    pose proof (clear_directory_idle _ (closed_idle _ (activate_idle (ic_image_path image) _ Hs))) as (Hb & Hp & Hj & []).
    split; [done|]. split; [done|]. split; [done|]. by split. }
  clearbody s1. apply browse_ok. destruct Hs1 as (box & Hb & Hp & Hj & []). split; [done|]. split; [done|]. split; [done|]. split; cbn; try done.
  - rewrite len_app. change (len (inception s1) + 1 <= 8). lia.
  - rewrite last_snoc. by left.
  - apply in_setcursel.
Qed.
End desktop.

(** ** Runs *)

Section runs.
Context `{PathEq} `{LocalFiles} `{InnerCrates} `{TimeZones}.
Context `{ZfsDisk} `{ZfsLabels} `{Codecs} `{Crypto} `{Crc32} `{PoolCore} `{DiskCrates} `{DattoCrates}.
Context {R : Type} `{Read R} {D : Type} `{Device D} `{DeviceInfo D} `{Luks D}.
Context `{SidecarJson} `{Os} `{Digest} `{Faults} `{TempNames} `{HostPaths}.
Variables (World : ClientHost R D -> Prop) (fuel : nat) (drives : list PhysicalDrive).

(** Only a job that explores opens an image inside another. *)
Lemma opened_inside (machine : ClientHost R D) job h image parent_path parent_volume h' :
  run_job (ClientHost0 := machine) fuel job h = (Ok (InceptionOpened image parent_path parent_volume false), h') -> pending_of job = PExploreImage.
Proof.
  destruct job as [[] path key|inner volume catalog view path key|is_directory inner volume catalog view source_path destination key| |stream target key]; cbn [run_job]; try done.
  - assert (forall attempts, (forall a, In a attempts -> forall i p v, a <> Ok (InceptionOpened i p v false)) -> first_of attempts <> Ok (InceptionOpened image parent_path parent_volume false)) as Hfirst.
    { induction attempts as [|a attempts IH]; intros Ha; cbn [first_of]; [done|]. destruct a; cbn [catch]; try done.
      - apply (Ha (Ok a)). by left.
      - apply IH. intros b Hb. apply Ha. by right. }
    assert (forall i p v, open_image (ClientHost0 := machine) path <> Ok (InceptionOpened i p v false)) as Himage
      by (intros i p v; unfold open_image; by destruct (open_file _ _ _ _ _ _)).
    assert (forall i p v, open_as_send (ClientHost0 := machine) fuel path <> Ok (InceptionOpened i p v false)) as Hsend
      by (intros i p v; unfold open_as_send; by destruct (open_send _ _)).
    assert (forall key i p v, open_as_pool (ClientHost0 := machine) fuel path key <> Ok (InceptionOpened i p v false)) as Hpool
      by (intros k i p v; unfold open_as_pool; by destruct (open_pool_with_container_key _ _ _ _)).
    intros Hr%(f_equal fst). exfalso. revert Hr. cbn [fs_ret fst]. unfold open_automatically. cbv zeta. apply Hfirst. intros a Ha.
    repeat (apply in_app_or in Ha as [Ha|Ha]); try (destruct (one_of _ _)); first [destruct Ha as [<-|[]]|destruct Ha]; first [exact Himage|exact Hsend|exact (Hpool _)].
  - unfold fs_ret, open_image. destruct (open_file _ _ _ _ _ _); cbn; congruence.
  - unfold fs_ret, run_browse. intros [= Hr _]. by destruct (match inner with Some _ => _ | None => _ end).
  - unfold run_extract. cbv zeta. intros Hr. exfalso. revert Hr. unfold fs_bind, fs_ret.
    destruct is_directory; [destruct (host_path destination) as [|name parent]; [done|]|]; repeat case_match; intros Hr; simplify_eq/=.
  - unfold fs_bind, fs_ret. intros Hr. repeat case_match; simplify_eq/=.
Qed.

(** The user gives a command or moves a control, with answers ready for the dialogs
    that come up; or a job ends, with its result or with the text of its error, on
    some machine: the files and devices as they are at that time. *)
Inductive step (s s' : AppState) : Prop :=
| step_command id given : s' = handle_command drives id (set_answers given s) -> step s s'
| step_input input given : s' = handle_input drives input (set_answers given s) -> step s s'
| step_done (machine : ClientHost R D) job h r h' message given :
    World machine -> In job (jobs s) -> run_job (ClientHost0 := machine) fuel job h = (r, h') ->
    match r with Ok v => message = inl v | Err _ => exists text, message = inr text | _ => False end ->
    s' = finish_job message (set_answers given s) -> step s s'.

Lemma answers_ok given s : window_ok s -> window_ok (set_answers given s).
Proof.
  intros [Hs|(job & Hb & Hp & Hj & Hs & Hc & He)]; [by left|]. right. exists job.
  split; [done|]. split; [done|]. split; [done|]. split; [done|]. split; [|done]. destruct job; exact Hc.
Qed.

(** The window when its job has been taken away. *)
Lemma released_idle s : window_ok s -> idle (set_busy false (set_work (busy s) None (tail (jobs s)) s)).
Proof.
  intros [(Hb & Hp & Hj & [])|(job & Hb & Hp & Hj & [] & _)]; unfold idle, set_busy; cbn; rewrite Hj; split; try done; split; try done; split; try done; by split.
Qed.

Lemma finish_ok (machine : ClientHost R D) job h r h' message s :
  window_ok s -> In job (jobs s) -> run_job (ClientHost0 := machine) fuel job h = (r, h') ->
  match r with Ok v => message = inl v | Err _ => exists text, message = inr text | _ => False end -> window_ok (finish_job message s).
Proof.
  intros Hw Hin Hrun Hm. unfold finish_job. cbv zeta. pose proof (released_idle s Hw) as Hi.
  assert (forall image p v, message = inl (InceptionOpened image p v false) -> len (inception s) < 8) as Hlen.
  { intros image p v ->. destruct r as [result| | |]; [|by destruct Hm|done..]. injection Hm as <-. pose proof (opened_inside _ _ _ _ _ _ _ Hrun) as Hk.
    destruct Hw as [(_ & _ & Hj & _)|(job' & _ & _ & Hj & _ & Hc & _)]; rewrite Hj in Hin; [done|]. destruct Hin as [->|[]].
    destruct job; try discriminate Hk. by destruct Hc as (_ & _ & _ & _ & _ & _ & ?). }
  set (s1 := set_busy false _) in *. change (inception s) with (inception s1) in Hlen. clearbody s1.
  destruct message as [[source|path found|destination extraction nested|destination extraction|image p v standalone|target sidecar]|error].
  - by apply catalog_ok.
  - left. by apply directory_idle.
  - eapply aside_ok; [apply ask_aside|done].
  - eapply aside_ok; [apply ask_aside|done].
  - apply image_ok; [|done]. intros ->. by eapply Hlen.
  - by left.
  - by apply error_ok.
Qed.

Lemma window_step_ok s s' : step s s' -> window_ok s -> window_ok s'.
Proof.
  intros [id given ->|input given ->|machine job h r h' message given _ Hin Hrun Hm ->] Hs; pose proof (answers_ok given s Hs) as Ha.
  - by apply command_ok.
  - by apply input_ok.
  - by eapply finish_ok.
Qed.

Lemma reached_ok loaded argument s : rtc step (AppState_default loaded argument) s -> window_ok s.
Proof.
  intros Hr. assert (window_ok (AppState_default loaded argument)) as Hstart.
  { left. split; [done|]. split; [done|]. split; [done|]. by split. }
  revert Hstart. induction Hr as [|s0 s1 s2 Hstep _ IH]; [done|]. intros Hstart. apply IH. by eapply window_step_ok.
Qed.

(** C33: The window is consistent whatever the user does. In every state that
    commands, inputs, answers to dialogs and ended jobs lead to, at most eight
    images are open inside one another; the box of views has as many rows as the
    open source has views, and none without one; the box of volumes has as many
    rows as the innermost open image has volumes, and none without an image, with
    one exception: with both a source and images open it may be empty, which is how
    a source that is opened again from inside one of its images leaves it (Lemma
    [reopened_inside]); the selection of either box and of the list, where there is
    one, is one of its rows; and either no job runs, or exactly one, with the window
    busy, its controls disabled, and what the job was started from - source, view,
    image and volume - still open and selected. *)
Theorem window_invariant loaded argument s : rtc step (AppState_default loaded argument) s -> window_ok s.
Proof. apply reached_ok. Qed.

(** The key is for everything, or for this source and this view. *)
Definition key_for (source : SourceCatalog) (view : option Z) (key : SecretValue) : Prop :=
  (sk_source key = None \/ exists p, sk_source key = Some p /\ same_path (ct_path source) p = true) /\
  (sk_view key = None \/ exists i v, view = Some i /\ get (ct_views source) i = Some v /\ sk_view key = Some (vw_selector v)).

Lemma active_key_for s source key : catalog_ s = Some source -> is_active_key s key = true -> key_for source (selected_view s) key.
Proof.
  intros Hs [Hsource Hview]%andb_true_iff. unfold credential_scope, active_source_path in Hsource. rewrite Hs in Hsource.
  unfold credential_view, selected_source_view in Hview. rewrite Hs in Hview. cbn [mbind option_bind] in Hview. split.
  - unfold is_for_source, same_source in Hsource. destruct (sk_source key) as [p|]; [|by left]. right. by exists p.
  - unfold is_for_view, same_view in Hview. destruct (sk_view key) as [v|]; [|by left]. right. cbn in Hview.
    apply bool_decide_eq_true in Hview. apply fmap_Some in Hview as (w & Hw & ->). apply bind_Some in Hw as (i & Hi & Hw). by exists i, w.
Qed.

(** C34: A key goes only where it was entered for. In every state the window can
    reach, the key that a running job takes to the open source - to list it, to
    restore from it, or to open an image of it - is one without a source, or one
    that was entered for this source, and without a view or entered for the view
    that is selected; and a job that opens a source takes no container key that
    was entered for another one. *)
Theorem keys_scoped loaded argument s job : rtc step (AppState_default loaded argument) s -> In job (jobs s) ->
  match job with
  | JobOpen _ path (Some key) => sk_source key = None \/ exists p, sk_source key = Some p /\ same_path path p = true
  | JobBrowse _ _ (Some source) view _ (Some key) | JobExtract _ _ _ (Some source) view _ _ (Some key)
  | JobExplore _ _ (Some source) view _ _ _ _ (Some key) _ => key_for source view key
  | _ => True
  end.
Proof.
  intros Hr Hin. destruct (reached_ok _ _ _ Hr) as [(_ & _ & Hj & _)|(job' & _ & _ & Hj & _ & Hc & _)]; rewrite Hj in Hin; [done|].
  destruct Hin as [->|[]]. destruct job as [mode path key|image volume catalog view path key|d image volume catalog view p q key|
    image volume catalog view p q offset n key password|stream target key]; [|destruct catalog as [source|]; [|done]..|done]; (destruct key as [key|]; [|done]).
  - specialize (Hc key eq_refl). unfold secret_applies_to_source, is_for_source, same_source in Hc. destruct (sk_source key) as [p|]; [|by left]. right. by exists p.
  - destruct Hc as (_ & Hcat & -> & Hfit & _). by apply active_key_for, Hfit.
  - destruct Hc as (_ & Hcat & -> & Hfit & _). by apply active_key_for, Hfit.
  - destruct Hc as (_ & Hcat & -> & Hfit & _). by apply active_key_for, Hfit.
Qed.
End runs.

(** ** Where the window shows what it should not *)

Section stale.
Context `{PathEq} `{LocalFiles} `{InnerCrates} `{TimeZones}.
Variable drives : list PhysicalDrive.

(** An error that no dialog answers. *)
Definition quiet (error : list Z) : bool :=
  let lower := map to_ascii_lowercase error in
  negb (needs_container_key lower || needs_zfs_key lower || needs_agent_password lower || access_denied lower).

(** After another volume was chosen that cannot be listed, the list still shows the
    files of the one before, and Restore takes the selected one's path to the
    volume that was chosen. *)
Lemma stale_listing_restored s image index j entry error destination source_path :
  idle s -> last_image s = Some image -> c_volume_enabled (controls s) = true -> 0 <= j < cb_count (c_volume (controls s)) -> quiet error = true ->
  c_list (controls s) = Some index -> get (entries_ s) index = Some entry -> de_dirent_type entry = 8 ->
  child_path (current_path s) (de_name entry) = Ok source_path ->
  let chosen := handle_input drives (InputVolume j) s in
  let failed := finish_job (inr error) chosen in
  (exists volume catalog view key, jobs chosen = [JobBrowse (Some image) volume catalog view [SLASH] key] /\ volume = j) /\
  entries_ failed = entries_ s /\
  exists catalog view key, jobs (handle_command drives ID_RESTORE (set_answers [Chosen destination] failed)) =
    [JobExtract false (Some image) (Some j) catalog view source_path destination key].
Proof.
  intros (Hb & Hp & Hj & Hs) Hi He Hr Hq Hl Hg Ht Hc. cbv zeta.
  unfold quiet in Hq. cbv zeta in Hq. apply negb_true_iff in Hq.
  apply orb_false_iff in Hq as [[[Hq0 Hq1]%orb_false_iff Hq2]%orb_false_iff Hq3].
  set (s1 := set_volume_box {| cb_count := cb_count (c_volume (controls s)); cb_selected := Some j |} s).
  assert (handle_input drives (InputVolume j) s = spawn_job PBrowse (JobBrowse (Some image) j (catalog_ s1) (selected_view s1) [SLASH] (active_zfs_key s1)) s1) as ->.
  { cbn [handle_input]. rewrite He. unfold CB_SETCURSEL. rewrite (proj2 (Z.leb_le 0 j)), (proj2 (Z.ltb_lt j _)) by lia. cbn [andb]. fold s1.
    unfold handle_command. change (busy s1) with (busy s). rewrite Hb. unfold browse. change (last_image s1) with (last_image s). by rewrite Hi. }
  set (spawned := spawn_job _ _ s1).
  assert (jobs spawned = jobs s ++ [JobBrowse (Some image) j (catalog_ s1) (selected_view s1) [SLASH] (active_zfs_key s1)]) as Hjobs by done.
  rewrite Hj in Hjobs. cbn [app] in Hjobs.
  split; [by eexists j, _, _, _|].
  set (s2 := set_busy false (set_work true None [] spawned)).
  assert (finish_job (inr error) spawned = s2) as ->.
  { unfold finish_job. cbv zeta. rewrite Hjobs. cbn [tail]. change (pending_job spawned) with (Some PBrowse). change (busy spawned) with true. fold s2.
    unfold handle_job_error. cbv zeta. rewrite Hq0, Hq1, Hq2, Hq3. cbn [is_explore_job is_open_job andb].
    unfold restore_source_box_after_failed_open. by destruct (active_source_path _). }
  split; [done|]. set (s3 := set_answers [Chosen destination] s2). unfold handle_command. change (busy s3) with false. cbn match.
  unfold extract_selected. change (selected_index s3) with (c_list (controls s)). rewrite Hl. cbn [mbind option_bind].
  change (entries_ s3) with (entries_ s). rewrite Hg, Ht. change (ask s3) with (Chosen destination, set_answers [] s2).
  change (8 =? 4) with false. change (8 =? 8) with true. cbn [negb orb]. set (s4 := set_answers [] s2).
  change (current_path s4) with (current_path s). rewrite Hc. change (last_image s4) with (last_image s). rewrite Hi. by do 3 eexists.
Qed.

(** A key that is asked for after a restoration failed is kept, but nothing is
    restored: the list has been cleared. *)
Lemma retry_lost error pending s :
  jobs s = [] -> pending = PExtract \/ pending = PExploreImage ->
  needs_container_key (map to_ascii_lowercase error) = false -> needs_zfs_key (map to_ascii_lowercase error) = true ->
  jobs (handle_job_error error (Some pending) s) = [] /\ entries_ (handle_job_error error (Some pending) s) = [].
Proof.
  intros Hj Hp Hc Hz. unfold handle_job_error. cbv zeta. rewrite Hc, Hz.
  set (s1 := clear_directory_ui _). assert (jobs s1 = [] /\ entries_ s1 = [] /\ c_list (controls s1) = None) as (Hj1 & He1 & Hl1) by (split; [exact Hj|done]).
  clearbody s1. pose proof (request_zfs_key_aside s1) as (Ho & Hco & _ & _ & Hjobs). destruct (request_zfs_key s1) as [supplied s2]. cbn [snd] in *.
  assert (extract_selected s2 = s2) as Hextract by (unfold extract_selected, selected_index; by rewrite Hco, Hl1).
  assert (explore_selected_image s2 = s2) as Hexplore by (unfold explore_selected_image, selected_index; rewrite Hco, Hl1; by destruct (8 <=? _)).
  assert (jobs s2 = [] /\ entries_ s2 = []) as Hs2 by (unfold entries_ in *; by rewrite Hjobs, Ho).
  destruct supplied; [|exact Hs2]. destruct Hp as [-> | ->]; cbn [retry_pending_job]; by rewrite ?Hextract, ?Hexplore.
Qed.

(** A source that is opened again from inside one of its images keeps the images,
    without a volume: nothing is listed. *)
Lemma reopened_inside source old frame frames s :
  idle s -> catalog_ s = Some old -> same_path (ct_path old) (ct_path source) = true -> inception s = frame :: frames ->
  is_some (fr_parent_path frame) = true -> jobs (finish_catalog source s) = [] /\ inception (finish_catalog source s) = frame :: frames.
Proof.
  intros (Hb & Hp & Hj & Hs) Hold Hsame Hin Hparent. unfold finish_catalog. cbv zeta.
  assert (source_is_changing s (ct_path source) = false) as Hchange.
  { unfold source_is_changing, standalone_path. by rewrite Hold, Hin, Hparent, Hsame. }
  unfold activate_source. rewrite Hchange. set (s1 := update_mode _).
  assert (jobs s1 = [] /\ inception s1 = frame :: frames /\ c_volume (controls s1) = CB_RESETCONTENT) as (Hj1 & Hi1 & Hv1) by (split; [exact Hj|by split]).
  clearbody s1. pose proof (ensure_aside s1) as (Ho & Hc & _ & _ & Hjobs). destruct (ensure_selected_view_key s1) as [unlocked s2]. cbn [snd] in *.
  assert (browse [SLASH] s2 = s2) as ->.
  { unfold browse, last_image, selected_volume_index, inception in *. rewrite Ho, Hc, Hi1, Hv1. destruct (last_is_Some (frame :: frames)) as [_ Hl].
    destruct (Hl ltac:(done)) as [f ->]. done. }
  assert (jobs s2 = [] /\ inception s2 = frame :: frames) as Hs2 by (unfold inception in *; by rewrite Hjobs, Ho).
  by destruct unlocked.
Qed.
End stale.

(** ** A run

    The backup of the bridge's run is opened and listed, and then a key is typed,
    with which it is listed again. *)

#[local] Existing Instance toy_bridge_machine.
#[local] Existing Instance toy_places.
#[local] Existing Instance bridge_faults.

#[local] Instance few_zones : TimeZones := {| TZ_VARIANTS := map bytes_of_string ["UTC"; "Europe/Paris"; "Asia/Tokyo"]%string |}.

Example zones_in_order : time_zone_choices = map bytes_of_string ["local"; "UTC"; "Asia/Tokyo"; "Europe/Paris"]%string.
Proof. vm_compute. reflexivity. Qed.

#[local] Instance plain_paths : PathEq := { same_path := bytes_eqb }.

Definition window_world : ClientHost (list Z) SlowDisk -> Prop := fun machine => machine = toy_bridge_machine.

Abbreviation window_step := (step window_world 12 []).

(** The first job ends with its result. *)
Definition job_ended (s : AppState) : AppState :=
  match jobs s with
  | job :: _ => match (run_job 12 job toy_host).1 with Ok result => finish_job (inl result) s | _ => s end
  | [] => s
  end.

Definition given (id : CommandId) (answer : list Answer) (s : AppState) : AppState := handle_command [] id (set_answers answer s).

Lemma job_ended_step s : rtc window_step s (job_ended s).
Proof.
  unfold job_ended. destruct (jobs s) as [|job rest] eqn:Hj; [apply rtc_refl|].
  destruct (run_job 12 job toy_host) as [r h'] eqn:Hrun. cbn [fst]. destruct r as [result| | |]; try apply rtc_refl. apply rtc_once.
  eapply (step_done _ _ _ _ _ toy_bridge_machine job toy_host (Ok result) h' (inl result) (answers s)); [done| |exact Hrun|done|by destruct s].
  rewrite Hj. by left.
Qed.

Lemma given_step id answer s : rtc window_step s (given id answer s).
Proof. apply rtc_once. by eapply step_command. Qed.

Definition window_start : AppState := AppState_default UiSettings_default [].

(** Opened, and its root being listed. *)
Definition window_opened : AppState := job_ended (given ID_OPEN_BACKUP [Chosen toy_stream_path] window_start).

(** Listed, and being listed again with the key. *)
Definition window_keyed : AppState := given ID_ENTER_KEY [Submitted (bytes_of_string "k")] (job_ended window_opened).

Lemma window_opened_reached : rtc window_step window_start window_opened.
Proof. etrans; [apply given_step|apply job_ended_step]. Qed.

Lemma window_keyed_reached : rtc window_step window_start window_keyed.
Proof. etrans; [apply window_opened_reached|]. etrans; [apply job_ended_step|apply given_step]. Qed.

Lemma window_invariant_witness :
  rtc window_step window_start window_keyed /\ map de_name (entries_ window_keyed) = [bytes_of_string "hello.c"] /\ busy window_keyed = true /\
  window_ok window_keyed.
Proof.
  split; [exact window_keyed_reached|]. split; [vm_compute; reflexivity|]. split; [vm_compute; reflexivity|].
  exact (window_invariant window_world 12 [] UiSettings_default [] window_keyed window_keyed_reached).
Defined.

Lemma keys_scoped_witness :
  exists image volume source view path key, In (JobBrowse image volume (Some source) view path (Some key)) (jobs window_keyed) /\
    sk_material key = bytes_of_string "k" /\ ct_path source = toy_stream_path /\ key_for source view key.
Proof.
  assert (match jobs window_keyed with
    | [JobBrowse _ _ (Some source) _ _ (Some key)] => bytes_eqb (sk_material key) (bytes_of_string "k") && bytes_eqb (ct_path source) toy_stream_path
    | _ => false end = true) as Hrun by (vm_compute; reflexivity).
  pose proof (fun job => keys_scoped window_world 12 [] UiSettings_default [] window_keyed job window_keyed_reached) as Hkeys.
  destruct (jobs window_keyed) as [|[|image volume [source|] view path [key|]| | |] [|]]; try discriminate Hrun.
  apply andb_true_iff in Hrun as [Hmaterial%bytes_eqb_eq Hpath%bytes_eqb_eq].
  exists image, volume, source, view, path, key. split; [by left|]. split; [exact Hmaterial|]. split; [exact Hpath|].
  exact (Hkeys (JobBrowse image volume (Some source) view path (Some key)) (or_introl eq_refl)).
Defined.
